(* ===== verification/_CoqProject ===== *)
-Q . S2P
Prelude.v
Order.v
Float.v
Precision.v
Encode.v
Hex.v
Script.v
Timelocks.v
Confidential.v
Transaction.v
TxMetrics.v
Block.v
Sighash.v
Merkle.v
Taproot.v
TapSighash.v
Pset.v
PsetValue.v
PsetCodec.v
Store.v
PsetMeta.v
Update.v
Cache.v
Address.v
AddressText.v
Blind.v
BlindBalance.v
PsetDetails.v
Network.v
Wollet.v
Persister.v
Merge.v
Views.v
Scan.v
ScriptEval.v
Htlc.v
BtcHtlc.v
Delegation.v
TxBuilder.v
BuilderLedger.v
Liquidex.v
LiquidexTake.v
StakingRewards.v
BtcCore.v
Esplora.v
Covenant.v
Refund.v
Xchain.v
SwapRequest.v
Adaptor.v
LedgerMerkle.v
Ledger.v
