(* ===== verification/Prelude.v ===== *)
(** * SWK: a verification library for the Sequentia Wallet Kit

    The kit is a Rust workspace.  [rust-elements] defines the data of the Sequentia chain (an
    Elements chain anchored to Bitcoin): scripts, confidential values, transactions, blocks,
    taproot trees, addresses, partially signed transactions (PSETs), their encodings, their
    signature hashes and their blinding.  [lwk_common] has what the crates above share: stores,
    networks, amounts as text, what a PSET does to a wallet.  [lwk_wollet] is the wallet: its
    state and how updates change it, the scan of the chain, the transaction builder, and the
    protocols of the kit: HTLC swaps between chains, order-book covenants, same-chain swaps and
    LiquiDEX proposals, adaptor signatures, delegation records, staking rewards, a Bitcoin
    wallet on the same keys.  [lwk_ledger] talks to a hardware wallet.

    A scan asks a server for histories and makes an update; the wallet applies it to its cache
    and a store of transactions and appends it to a persisted log, from which a restart rebuilds
    the state.  The builders read the cache, select outputs and make a PSET, which is blinded,
    described, signed and extracted to a transaction, whose encoding and signature hashes are
    those of [rust-elements].

    ** The files

    Foundations:
    - [Prelude] (this file): results with their monad, machine integers as ranges of [Z] with
      explicit wrapping, bytes, little-endian numbers, sums, hint databases.
    - [Order]: Rust's [Ord] and the stable [sort_by].  [Float]: [f64] and [f32] with the
      conversions of the fee computations.
    - [Precision], [Network] ([lwk_common]: [precision.rs], [network.rs]; [pegin.rs]).

    The chain ([rust-elements]):
    - [Encode] ([encode.rs], [ext.rs]): readers, integers, varints, vectors.  [codec_ok] is the
      law every encoding satisfies (decoding an encoding gives the value and the rest, and
      whatever decodes is the encoding of its value); the class [Codec] carries it from
      component to component.
    - [Hex] ([hex.rs]), [Script] ([opcodes.rs], [script.rs]), [Timelocks] ([locktime.rs],
      [Sequence]), [Confidential] ([confidential.rs]), [Transaction] and [TxMetrics]
      ([transaction.rs]: encoding; sizes, weights, fees, pegouts), [Block] ([block.rs],
      [dynafed.rs]).
    - [Sighash], [TapSighash] ([sighash.rs]: legacy and segwit v0; taproot; the cache as
      explicit state), [Merkle] ([fast_merkle_root.rs], [issuance.rs], dynafed roots),
      [Taproot] ([taproot.rs]).
    - [Pset], [PsetValue], [PsetCodec], [PsetMeta] ([pset/]: maps and operations, values,
      key-value encoding, the ELIP extensions).
    - [Address], [AddressText] ([address.rs], [blech32/], script templates).
    - [Blind], [BlindBalance] ([blind.rs] and the blinding of PSETs; what it keeps).

    The wallet ([lwk_wollet], [lwk_common]):
    - [Store] ([store.rs], [encrypt.rs]): stores as records of operations with the contract
      [store_laws], which the clients below are proved against.
    - [Update], [Cache], [Wollet], [Persister], [Merge], [Views] ([update.rs], [cache.rs],
      [wollet.rs]): updates, the cache, applying, persisting and merging updates, what the
      wallet shows.  [Scan] ([clients/blocking/mod.rs]).
    - [PsetDetails] ([lwk_common/src/lib.rs]): balance, signatures and issuances of a PSET.
    - [TxBuilder], [BuilderLedger] ([tx_builder.rs], [pset_create.rs]; the books).
    - [Liquidex], [LiquidexTake] ([liquidex.rs] and the builders of maker and taker),
      [SwapRequest] ([seqdex_swap.rs]).

    The protocols ([lwk_wollet], [lwk_ledger]):
    - [ScriptEval]: a reference semantics for the opcodes the kit's scripts use, in which their
      spending conditions are stated; it models the network, not the kit.
    - [Htlc] ([seqdex_htlc.rs]), [BtcHtlc] ([btc/htlc.rs]), [Xchain] ([btc/xchain.rs]),
      [Covenant], [Refund] ([seqob_covenant.rs]), [Delegation] ([sequentia_delegation.rs]),
      [StakingRewards] ([staking_rewards.rs]), [Adaptor] ([adaptor.rs]).
    - [BtcCore], [Esplora] ([btc/core.rs], [btc/wallet.rs], [btc/addr.rs], [btc/esplora.rs]).
    - [LedgerMerkle], [Ledger] ([lwk_ledger]: [merkle.rs], [interpreter.rs], [apdu.rs],
      [command.rs], part of [client.rs]).

    Names are the source's, prefixed by the type where two types have a method of the same name
    ([LockTime_is_satisfied_by]).  Structures are records, enums inductive types; [Result] is
    [result], a panic or a refused allocation [None] or a constructor of the error type, an
    error message one constructor of the module's error type; what the code mutates (a PSET, the
    cache, a store, a random number generator, a device) is passed along explicitly, also where
    an operation fails.

    ** What is shown

    - Encodings: a byte string decodes to a value exactly when it is that value's encoding and
      the value is well formed, for transactions, blocks and headers; PSETs are read back equal
      in the sense of [PartialEq]; txid, block hash and signature preimages determine what they
      commit to; reported sizes and weights are those of the encoding.
    - Text: addresses, amounts and the named networks are read back from their text.
    - Signature hashes: interleaving digests and witness edits on one cache gives the digests a
      fresh computation would; what a taproot message commits to.
    - Trees: the fast merkle root and the hardware wallet's trees are those of recursive
      definitions; the taproot builder completes exactly on depth-first listings and every
      script of a tree is spendable.
    - PSETs: what survives the trip from a transaction and back and a merge; how the counts and
      the lock time follow the lists.
    - Blinding: the receiver recovers the secrets; when parties blind in turn, the transaction
      verifies.
    - Wallet: after any coherent updates the incremental set of unspent outputs is the
      recomputed one; a scan makes the wallet agree with the server and misses no history within
      the gap limit; balances are sums over transactions; the log of updates refines a list, a
      restart restores the state (without merging), a merge has the effect of both updates;
      stores are maps.
    - Builder: every asset balances, every recipient is paid, nothing is spent twice.  The books
      are kept modulo [2 ^ 64], as the code adds, and are exact where no total reaches it.
    - Swaps: a LiquiDEX proposal of a confidential output validates; taking a proposal balances
      and leaves the maker's half, and for proposals like those the wallet makes
      ([made_proposal_carried]) the data of its signature, as it was; a same-chain request
      balances; verified adaptor pre-signatures can be completed by who knows the secret and
      reveal it when completed.
    - Contracts: HTLC redeem scripts accept exactly the claim with the preimage and the refund
      after the lock, and the claim and refund transactions satisfy them; the covenant's layout,
      its balance and its refund; when a preimage may be revealed; delegation records; which
      staking rewards mature and how they are batched.
    - Bitcoin wallet: the scan reaches every used address of a wallet that respects the gap
      limit; the selection uses the fewest coins and conserves value.
    - Ledger: the interpreter serves every element and proof of its lists, in as many messages
      as it takes.

    Where the code departs from its documentation or intent, a theorem says how:
    [classify_panics], [sizes_of_serialization], [from_seconds_ceil_wraps],
    [taproot_sighash_ok_iff], [schnorr_sig_from_slice_iff], [merge_key_source_cases],
    [merge_input_not_commutative], [unique_id_covers_script_sig], [merge_of_unextractable],
    [merge_changes_lock_time], [remove_input_breaks_blinders], [pset_issuance_ids_flagged],
    [txout_round_trip], [duplicate_flag_accepted], [hidden_tree_unreadable],
    [explicit_blinded_unreadable], [empty_program_accepted], [empty_data_panics],
    [idle_party_breaks_balance], [blinded_issuance_breaks_balance],
    [failed_blind_last_forgets_blinder], [explicit_input_unknown], [zero_output_never_verifies],
    [tx_blind_nothing_panics], [forged_derivation_hides_spending],
    [missing_asset_reported_as_value], [taproot_signature_unreported],
    [least_amount_unprintable], [testnet_name_unparseable], [update_decode_panics],
    [plain_file_store_rejects_txs], [merge_loses_restored_outputs],
    [coalesced_rollback_refused], [confirmation_revives_spent_output], [scan_ignores_evictions],
    [reunblind_misses_outputs], [redeposit_not_recognised], [overflowing_amounts_accepted],
    [selected_coin_spent_twice], [explicit_token_issues_anew], [reissuance_entropy_hashed],
    [insecure_validate_panics], [explicit_offer_rejected], [signature_fixes_version],
    [parse_delegation_not_exact], [fill_accepts_unfunded_credit],
    [deadline_accepts_expired_time], [parse_broadcast_spec], [claim_fee_least],
    [sign_message_prepared], [preimage_blocks_queue].

    ** Bounds and fuel

    Recursion is structural except in loops given fuel that is enough by construction or by
    theorem: the script iterator (one call per byte, plus one), [scriptint_loop] (the eight
    bytes of a 64-bit integer), text trimming and splitting, key-value pairs, derivation paths,
    32-byte chunks and chunks of a message (the length of the input), the merkle counter (33
    for 32 levels), the Huffman heap (its number of nodes), decimal digits (20 for a 64-bit
    number), the hardware wallet's trees and [floor_lg] (the size), its queue (the length).
    The scan of a chain, the replay of a log and the Bitcoin gap scan take fuel as an argument:
    the theorems say how much suffices (the last is bounded by the source's own 64 batches).
    The exchange with a device, which need not end, is a relation.  Arithmetic keeps its width
    ([wrap_u32], [wrap_u64], [wrap_i64], saturating and checked operations); theorems state the
    ranges they need.

    ** Parameters

    What is not in the repository is a class with the documented facts the code relies on as
    laws: serialized forms of curve objects ([Secp]), keys and signatures ([HtlcEnv], [KeyEnv],
    [BtcKeyEnv], [SchnorrEnv], [SchnorrKeys], [TapEnv]), the curve itself ([Curve],
    [CurveLaws]), commitments and proofs ([Zkp], [ZkpLaws], [ZkpExact], [BlindingKeys]),
    SHA-256 and its midstates ([Hashes], [Midstates]), the [bitcoin] crate ([BtcEnv], [BtcHex],
    [BtcVarInt], [PsetEnv], [PsetCodecEnv]), bech32 and base58 ([TextEnv], [TextLaws]), JSON
    ([Json], [JsonStrings]), the cipher and random numbers ([Aead], [Rng]), descriptors and
    unblinding in the wallet ([WolletEnv]), the builder's surroundings ([BuilderEnv],
    [BuilderLaws], [DescribeLaws]), allocation ([Platform], [Heap]).  Each has a concrete
    instance in a [Sample] or [Model] module, where the hypotheses of the theorems are evaluated
    on concrete values.

    ** Not modelled

    Descriptors and miniscript (delegated to [elements-miniscript]), software signers, contract
    JSON and the asset registry, the AMP clients, coinjoin and transaction details, Boltz swaps,
    payment instructions, Simplicity, Jade and the other hardware wallets, wallet policies and
    PSET commitments of the Ledger, prices, the RPC application and the command line, the
    bindings, the asynchronous and Electrum clients, and all network and file input and output. *)

From stdpp Require Export base list gmap strings numbers sorting.
From Stdlib Require Export ZArith Lia.
From Stdlib Require Strings.Byte.

#[export] Set Default Proof Using "Type".

Abbreviation byte := (Corelib.Init.Byte.byte).
Abbreviation bytes := (list byte).

(** ** Results: Rust's [Result<T, E>] *)

Inductive result (A E : Type) : Type :=
| Ok (a : A)
| Err (e : E).
Arguments Ok {A E} a.
Arguments Err {A E} e.

Definition rbind {A B E} (r : result A E) (k : A -> result B E) : result B E :=
  match r with
  | Ok a => k a
  | Err e => Err e
  end.

Declare Scope swk_scope.
Delimit Scope swk_scope with swk.
Notation "'let?' x ':=' c 'in' k" := (rbind c (fun x => k))
  (at level 10, x pattern, c at level 100, k at level 200,
   format "'[v' 'let?'  x  ':='  c  'in' '/' k ']'") : swk_scope.
Open Scope swk_scope.

(** [Option::ok_or]. *)
Definition ok_or {A E} (o : option A) (e : E) : result A E :=
  match o with
  | Some a => Ok a
  | None => Err e
  end.

(** [Result::ok]. *)
Definition ok_opt {A E} (r : result A E) : option A :=
  match r with
  | Ok a => Some a
  | Err _ => None
  end.

Definition is_ok {A E} (r : result A E) : bool :=
  match r with
  | Ok _ => true
  | Err _ => false
  end.

Lemma rbind_ok {A B E} (r : result A E) (k : A -> result B E) b :
  rbind r k = Ok b <-> exists a, r = Ok a /\ k a = Ok b.
Proof. destruct r; simpl; naive_solver. Qed.

Lemma rbind_err {A B E} (r : result A E) (k : A -> result B E) e :
  rbind r k = Err e <-> r = Err e \/ exists a, r = Ok a /\ k a = Err e.
Proof. destruct r; simpl; naive_solver. Qed.

Lemma ok_or_ok {A E} (o : option A) (e : E) a : ok_or o e = Ok a <-> o = Some a.
Proof. destruct o; simpl; naive_solver. Qed.

Lemma ok_or_err {A E} (o : option A) (e e' : E) :
  ok_or o e = Err e' <-> o = None /\ e = e'.
Proof. destruct o; simpl; naive_solver. Qed.

(** ** Fixed-width unsigned integers, as ranges of [Z] *)

Open Scope Z_scope.

Abbreviation is_u8 z := (0 <= z < 256).
Abbreviation is_u16 z := (0 <= z < 65536).
Abbreviation is_u32 z := (0 <= z < 4294967296).
Abbreviation is_u64 z := (0 <= z < 18446744073709551616).
Abbreviation is_i64 z := (-9223372036854775808 <= z < 9223372036854775808).

Definition u32_max : Z := 4294967295.
Definition u64_max : Z := 18446744073709551615.

(** Wrapping casts and arithmetic ([as u8], [as u64], release-mode [+]). *)
Definition wrap_u8 (z : Z) : Z := z mod 256.
Definition wrap_u32 (z : Z) : Z := z mod 4294967296.
Definition wrap_u64 (z : Z) : Z := z mod 18446744073709551616.
Definition wrap_i64 (z : Z) : Z :=
  (z + 9223372036854775808) mod 18446744073709551616 - 9223372036854775808.

(** [saturating_add], [saturating_sub], [saturating_mul] and the checked
    operations on [u32] and [u64]. *)
Definition saturating_add (hi a b : Z) : Z := Z.min hi (a + b).
Definition saturating_sub (a b : Z) : Z := Z.max 0 (a - b).
Definition saturating_mul (hi a b : Z) : Z := Z.min hi (a * b).
Definition checked_add (hi a b : Z) : option Z :=
  if a + b <=? hi then Some (a + b) else None.
Definition checked_sub (a b : Z) : option Z :=
  if b <=? a then Some (a - b) else None.

Lemma checked_sub_some a b c : checked_sub a b = Some c <-> b <= a /\ c = a - b.
Proof. unfold checked_sub. destruct (Z.leb_spec b a); naive_solver lia. Qed.

Lemma checked_sub_none a b : checked_sub a b = None <-> a < b.
Proof. unfold checked_sub. destruct (Z.leb_spec b a); naive_solver lia. Qed.

Lemma wrap_u64_small z : is_u64 z -> wrap_u64 z = z.
Proof. intros. by apply Z.mod_small. Qed.

Lemma wrap_u32_small z : is_u32 z -> wrap_u32 z = z.
Proof. intros. by apply Z.mod_small. Qed.

(** Equality modulo [2 ^ 64]: what [u64] and [i64] sums that wrap keep. *)
Definition cong64 (x y : Z) : Prop := exists k, x = y + k * 18446744073709551616.

#[export] Instance cong64_equiv : Equivalence cong64.
Proof.
  split.
  - intros x. exists 0. lia.
  - intros x y [k ->]. exists (- k). lia.
  - intros x y z [k ->] [j ->]. exists (k + j). lia.
Qed.

#[export] Instance cong64_add : Proper (cong64 ==> cong64 ==> cong64) Z.add.
Proof. intros x y [k ->] x' y' [k' ->]. exists (k + k'). lia. Qed.

#[export] Instance cong64_mul s : Proper (cong64 ==> cong64) (Z.mul s).
Proof. intros x y [k ->]. exists (s * k). lia. Qed.

Lemma cong64_wrap_i64 z : cong64 (wrap_i64 z) z.
Proof.
  unfold wrap_i64. pose proof (Z.div_mod (z + 9223372036854775808) 18446744073709551616).
  exists (- ((z + 9223372036854775808) / 18446744073709551616)). lia.
Qed.

Lemma cong64_wrap_u64 z : cong64 (wrap_u64 z) z.
Proof.
  unfold wrap_u64. pose proof (Z.div_mod z 18446744073709551616).
  exists (- (z / 18446744073709551616)). lia.
Qed.

Lemma wrap_i64_cong x y : cong64 x y -> wrap_i64 x = wrap_i64 y.
Proof.
  intros [k ->]. unfold wrap_i64. f_equal.
  replace (y + k * 18446744073709551616 + 9223372036854775808)
    with (y + 9223372036854775808 + k * 18446744073709551616) by lia. by rewrite Z_mod_plus_full.
Qed.

Lemma wrap_u64_cong x y : cong64 x y -> wrap_u64 x = wrap_u64 y.
Proof. intros [k ->]. unfold wrap_u64. by rewrite Z_mod_plus_full. Qed.

(** ** Bytes *)

Definition b2z (b : byte) : Z := Z.of_N (Byte.to_N b).

(** [z as u8]. *)
Definition z2b (z : Z) : byte :=
  match Byte.of_N (Z.to_N (z mod 256)) with
  | Some b => b
  | None => Byte.x00
  end.

#[export] Instance byte_eq_dec : EqDecision byte := Byte.byte_eq_dec.

Lemma b2z_range b : is_u8 (b2z b).
Proof. unfold b2z. pose proof (Byte.to_N_bounded b). lia. Qed.

Lemma b2z_inj b c : b2z b = b2z c -> b = c.
Proof.
  unfold b2z. intros H%N2Z.inj.
  apply (f_equal Byte.of_N) in H. rewrite !Byte.of_to_N in H. congruence.
Qed.

Lemma b2z_z2b z : b2z (z2b z) = z mod 256.
Proof.
  unfold b2z, z2b. pose proof (Z.mod_pos_bound z 256 ltac:(lia)).
  destruct (Byte.of_N _) as [b|] eqn:E.
  - apply Byte.to_of_N in E. rewrite E. lia.
  - apply Byte.of_N_None_iff in E. lia.
Qed.

Lemma b2z_z2b_small z : is_u8 z -> b2z (z2b z) = z.
Proof. intros. rewrite b2z_z2b. by apply Z.mod_small. Qed.

Lemma z2b_b2z b : z2b (b2z b) = b.
Proof. apply b2z_inj. rewrite b2z_z2b. apply Z.mod_small, b2z_range. Qed.

Lemma z2b_eq z b : is_u8 z -> z2b z = b <-> z = b2z b.
Proof.
  intros Hz. split.
  - intros <-. by rewrite b2z_z2b_small.
  - intros ->. apply z2b_b2z.
Qed.

#[export] Program Instance byte_countable : Countable byte :=
  inj_countable' b2z z2b _.
Next Obligation. intros b. apply z2b_b2z. Qed.

(** The bytes of a string literal. *)
Definition str (s : string) : bytes := String.list_byte_of_string s.

(** ** Little-endian integers: [to_le_bytes] / [from_le_bytes] *)

Fixpoint le_bytes (n : nat) (z : Z) : bytes :=
  match n with
  | O => []
  | S n => z2b z :: le_bytes n (z / 256)
  end.

Fixpoint le_val (l : bytes) : Z :=
  match l with
  | [] => 0
  | b :: l => b2z b + 256 * le_val l
  end.

Lemma length_le_bytes n z : length (le_bytes n z) = n.
Proof. revert z. induction n; intros; simpl; auto. Qed.

Lemma le_val_nonneg l : 0 <= le_val l.
Proof. induction l as [|b l IH]; simpl; [lia|]. pose proof (b2z_range b). lia. Qed.

Lemma pow256_S (n : nat) : 256 ^ Z.of_nat (S n) = 256 * 256 ^ Z.of_nat n.
Proof. rewrite Nat2Z.inj_succ, Z.pow_succ_r; lia. Qed.

Lemma le_val_bound l : le_val l < 256 ^ Z.of_nat (length l).
Proof.
  induction l as [|b l IH]; simpl le_val; simpl length; [done|].
  rewrite pow256_S. pose proof (b2z_range b). lia.
Qed.

Lemma le_val_le_bytes n z :
  0 <= z < 256 ^ Z.of_nat n -> le_val (le_bytes n z) = z.
Proof.
  revert z. induction n as [|n IH]; intros z Hz; simpl.
  - change (256 ^ Z.of_nat 0) with 1 in Hz. lia.
  - rewrite pow256_S in Hz. rewrite b2z_z2b, IH.
    + pose proof (Z.div_mod z 256). lia.
    + split; [apply Z.div_pos; lia|]. apply Z.div_lt_upper_bound; lia.
Qed.

Lemma le_bytes_le_val l : le_bytes (length l) (le_val l) = l.
Proof.
  induction l as [|b l IH]; simpl; [done|].
  pose proof (b2z_range b).
  assert (Hd : (b2z b + 256 * le_val l) / 256 = le_val l).
  { rewrite (Z.mul_comm 256), Z.div_add, Z.div_small; lia. }
  rewrite Hd, IH. f_equal.
  apply b2z_inj. rewrite b2z_z2b, (Z.mul_comm 256), Z.mod_add, Z.mod_small; lia.
Qed.

Lemma le_bytes_le_val_n n l : length l = n -> le_bytes n (le_val l) = l.
Proof. intros <-. apply le_bytes_le_val. Qed.

Lemma le_val_inj l1 l2 : length l1 = length l2 -> le_val l1 = le_val l2 -> l1 = l2.
Proof.
  intros Hl Hv. rewrite <-(le_bytes_le_val l1), <-(le_bytes_le_val l2).
  by rewrite Hl, Hv.
Qed.

Lemma le_bytes_inj n x y :
  0 <= x < 256 ^ Z.of_nat n -> 0 <= y < 256 ^ Z.of_nat n ->
  le_bytes n x = le_bytes n y -> x = y.
Proof.
  intros Hx Hy H%(f_equal le_val). by rewrite !le_val_le_bytes in H.
Qed.

Lemma le_val_app l1 l2 :
  le_val (l1 ++ l2) = le_val l1 + 256 ^ Z.of_nat (length l1) * le_val l2.
Proof.
  induction l1 as [|b l1 IH]; simpl le_val; simpl length.
  - change (256 ^ Z.of_nat 0) with 1. lia.
  - rewrite IH, pow256_S. lia.
Qed.

Lemma le_bytes_mod n z : le_val (le_bytes n z) = z mod 256 ^ Z.of_nat n.
Proof.
  revert z. induction n as [|n IH]; intros z; simpl.
  - by rewrite Z.mod_1_r.
  - rewrite b2z_z2b, IH, pow256_S.
    rewrite Z.rem_mul_r by lia. lia.
Qed.

(** [u64::swap_bytes]. *)
Definition swap_bytes_u64 (n : Z) : Z := le_val (rev (le_bytes 8 n)).

Lemma le_bytes_swap n : le_bytes 8 (swap_bytes_u64 n) = rev (le_bytes 8 n).
Proof.
  apply le_bytes_le_val_n. by rewrite length_rev, length_le_bytes.
Qed.

Lemma swap_bytes_u64_range n : is_u64 (swap_bytes_u64 n).
Proof.
  unfold swap_bytes_u64. split; [apply le_val_nonneg|].
  pose proof (le_val_bound (rev (le_bytes 8 n))) as H.
  rewrite length_rev, length_le_bytes in H. exact H.
Qed.

Lemma swap_bytes_u64_involutive n : is_u64 n -> swap_bytes_u64 (swap_bytes_u64 n) = n.
Proof.
  intros Hn. unfold swap_bytes_u64 at 1.
  rewrite le_bytes_swap, rev_involutive. by apply le_val_le_bytes.
Qed.

(** ** Single bits *)

Lemma land_pow2 a n : 0 <= n -> Z.land a (2 ^ n) = 2 ^ n * ((a / 2 ^ n) mod 2).
Proof.
  intros Hn. apply Z.bits_inj'. intros m Hm.
  rewrite Z.land_spec, Z.pow2_bits_eqb, Z.mul_comm, Z.mul_pow2_bits by lia.
  rewrite <-Z.bit0_mod, <-Z.shiftr_div_pow2, Z.shiftr_spec, Z.add_0_l by lia.
  destruct (Z.eqb_spec n m) as [->|Hne].
  - rewrite andb_true_r, Z.sub_diag. by destruct (Z.testbit a m).
  - rewrite andb_false_r. destruct (decide (m < n)).
    + by rewrite Z.testbit_neg_r by lia.
    + destruct (Z.testbit a n); [|by rewrite Z.testbit_0_l].
      change (Z.b2z true) with (2 ^ 0). by rewrite Z.pow2_bits_false by lia.
Qed.

Lemma lor_below_pow2 a n : 0 <= a < 2 ^ n -> Z.lor a (2 ^ n) = a + 2 ^ n.
Proof.
  intros Ha. destruct (decide (0 <= n)) as [Hn|?].
  - pose proof (Z.add_lor_land a (2 ^ n)) as E.
    rewrite land_pow2, (Z.div_small a), Z.mod_0_l in E by lia. lia.
  - rewrite (Z.pow_neg_r 2 n) in Ha by lia. lia.
Qed.

(** ** Automation

    [swk]: ranges and lengths that hold by construction, for [auto] and [eauto];
    [swk_len]: the lengths of the byte strings the components build, for
    [autorewrite]. *)

Create HintDb swk.
#[export] Hint Resolve b2z_range le_val_nonneg swap_bytes_u64_range length_le_bytes z2b_b2z : swk.
#[export] Hint Rewrite @length_app length_le_bytes @length_rev @length_replicate @length_map : swk_len.

(** ** Lists *)

(** Prove [Forall] on an explicit list, element by element. *)
Ltac forall_list tac :=
  repeat (apply List.Forall_cons; [solve [tac]|]); apply List.Forall_nil.

Lemma existsb_negb_false {A} (f : A -> bool) l :
  existsb (fun x => negb (f x)) l = false <-> Forall (fun x => f x = true) l.
Proof.
  induction l as [|x l IH]; simpl; [by split; [constructor|]|].
  rewrite orb_false_iff, IH, Forall_cons. destruct (f x); simpl; naive_solver.
Qed.

Lemma Forall_iff {A} (Q R : A -> Prop) l : (forall x, Q x <-> R x) -> Forall Q l <-> Forall R l.
Proof. intros H. split; intros Hl; eapply Forall_impl; [exact Hl| |exact Hl|]; naive_solver. Qed.

Lemma elem_of_concat_map {A B} (f : A -> list B) l y :
  y ∈ concat (map f l) <-> exists x, x ∈ l /\ y ∈ f x.
Proof.
  induction l as [|a l IH]; simpl; [set_solver|]. rewrite elem_of_app, IH. set_solver.
Qed.

(** ** Sums *)

Definition zlen {A} (l : list A) : Z := Z.of_nat (length l).

Definition sum_map {A} (f : A -> Z) (l : list A) : Z := foldr (fun a n => f a + n) 0 l.

Lemma zlen_app {A} (l k : list A) : zlen (l ++ k) = zlen l + zlen k.
Proof. unfold zlen. rewrite length_app. lia. Qed.

Lemma sum_map_ext {A} (f g : A -> Z) l :
  Forall (fun a => f a = g a) l -> sum_map f l = sum_map g l.
Proof. induction 1 as [|a l Ha _ IH]; simpl; [done|]. by rewrite Ha, IH. Qed.

Lemma sum_map_nonneg {A} (f : A -> Z) l : (forall a, 0 <= f a) -> 0 <= sum_map f l.
Proof. intros Hf. induction l as [|a l IH]; simpl; [lia|]. specialize (Hf a). lia. Qed.

Lemma sum_map_lin {A} k (f g : A -> Z) l :
  sum_map (fun a => k * f a + g a) l = k * sum_map f l + sum_map g l.
Proof. induction l as [|a l IH]; simpl; lia. Qed.

Lemma sum_map_scale {A} k (f : A -> Z) l : sum_map (fun a => k * f a) l = k * sum_map f l.
Proof. induction l as [|a l IH]; simpl; lia. Qed.

Lemma sum_map_cons {A} (f : A -> Z) a l : sum_map f (a :: l) = f a + sum_map f l.
Proof. done. Qed.

Lemma sum_map_app {A} (f : A -> Z) l k : sum_map f (l ++ k) = sum_map f l + sum_map f k.
Proof. induction l as [|a l IH]; simpl; lia. Qed.

Lemma sum_map_perm {A} (f : A -> Z) l k : l ≡ₚ k -> sum_map f l = sum_map f k.
Proof. induction 1; simpl; lia. Qed.

Lemma sum_map_concat_map {X Y} (f : Y -> Z) (g : X -> list Y) l :
  sum_map f (concat (map g l)) = sum_map (fun x => sum_map f (g x)) l.
Proof. induction l as [|x l IH]; [done|]. cbn [map concat]. by rewrite sum_map_app, sum_map_cons, IH. Qed.

Lemma sum_map_map {X Y} (f : Y -> Z) (g : X -> Y) l : sum_map f (map g l) = sum_map (fun x => f (g x)) l.
Proof. induction l as [|x l IH]; [done|]. cbn [map]. by rewrite !sum_map_cons, IH. Qed.

Lemma sum_map_omap {X Y} (f : Y -> Z) (g : X -> option Y) l :
  sum_map f (omap g l) = sum_map (fun x => from_option f 0 (g x)) l.
Proof.
  induction l as [|x l IH]; [done|]. rewrite sum_map_cons, <-IH. cbn [omap list_omap].
  destruct (g x); cbn [from_option]; [by rewrite sum_map_cons|lia].
Qed.

Lemma sum_map_split {X} (f : X -> Z) (Q : X -> Prop) `{forall x, Decision (Q x)} l :
  sum_map f l = sum_map f (base.filter Q l) + sum_map f (base.filter (fun x => ~ Q x) l).
Proof.
  induction l as [|x l IH]; [done|]. rewrite !filter_cons. destruct (decide (Q x)) as [Hq|Hq].
  - rewrite (decide_False (P := ~ Q x)) by tauto. rewrite !sum_map_cons, IH. lia.
  - rewrite (decide_True (P := ~ Q x)) by done. rewrite !sum_map_cons, IH. lia.
Qed.

Lemma sum_map_zero {X} (f : X -> Z) l : (forall x, x ∈ l -> f x = 0) -> sum_map f l = 0.
Proof.
  intros Hf. induction l as [|x l IH]; [done|]. rewrite sum_map_cons, Hf by by left.
  rewrite IH; [done|]. intros y Hy. apply Hf. by right.
Qed.

Lemma sum_map_eq {X} (f g : X -> Z) l : (forall x, x ∈ l -> f x = g x) -> sum_map f l = sum_map g l.
Proof.
  intros Hf. induction l as [|x l IH]; [done|]. rewrite !sum_map_cons, Hf by by left. f_equal.
  apply IH. intros y Hy. apply Hf. by right.
Qed.

(** A [for] loop or [collect] over fallible steps: the first error wins. *)
Fixpoint rmapM {A B E} (f : A -> result B E) (l : list A) : result (list B) E :=
  match l with
  | [] => Ok []
  | a :: l => let? b := f a in let? bs := rmapM f l in Ok (b :: bs)
  end.

Lemma rmapM_ok {A B E} (f : A -> result B E) l ks :
  rmapM f l = Ok ks <-> Forall2 (fun a b => f a = Ok b) l ks.
Proof.
  revert ks. induction l as [|a l IH]; intros ks; simpl.
  - split; [intros [= <-]; constructor|by inversion 1].
  - rewrite rbind_ok. setoid_rewrite rbind_ok. setoid_rewrite IH. split.
    + intros (b & Hb & bs & Hbs & [= <-]). by constructor.
    + inversion 1; subst. naive_solver.
Qed.

(** ** Hash maps *)

Section Maps.
Context {K V : Type} `{Countable K}.

(** [HashMap::extend]: later entries override earlier ones. *)
Definition extend (m : gmap K V) (l : list (K * V)) : gmap K V :=
  foldl (fun m '(k, v) => <[k := v]> m) m l.

Lemma extend_app m l1 l2 : extend m (l1 ++ l2) = extend (extend m l1) l2.
Proof. apply foldl_app. Qed.

Lemma extend_cons m k v l : extend m ((k, v) :: l) = extend (<[k := v]> m) l.
Proof. done. Qed.

Lemma lookup_extend m l k :
  extend m l !! k = match (extend ∅ l : gmap K V) !! k with Some v => Some v | None => m !! k end.
Proof.
  revert m. induction l as [|[k' v'] l IH] using rev_ind; intros m; [cbn; by rewrite lookup_empty|].
  rewrite !extend_app. simpl. destruct (decide (k' = k)) as [->|Hne]; [by rewrite !lookup_insert_eq|].
  rewrite !lookup_insert_ne by done. apply IH.
Qed.

Lemma lookup_extend_empty l k v : (extend ∅ l : gmap K V) !! k = Some v -> (k, v) ∈ l.
Proof.
  induction l as [|[k' v'] l IH] using rev_ind; [done|]. rewrite extend_app. simpl.
  destruct (decide (k' = k)) as [->|Hne].
  - rewrite lookup_insert_eq. intros [= ->]. set_solver.
  - rewrite lookup_insert_ne by done. set_solver.
Qed.

Lemma extend_lookup_is_Some m l k :
  is_Some (extend m l !! k) <-> k ∈ l.*1 \/ is_Some (m !! k).
Proof.
  revert m. induction l as [|[k' v'] l IH]; intros m; simpl; [set_solver|].
  rewrite IH. destruct (decide (k' = k)) as [->|Hne].
  - rewrite lookup_insert_eq. split; [set_solver|]. intros [|]; [|by eauto]. by right.
  - rewrite lookup_insert_ne by done. set_solver.
Qed.

(** When all the entries for a key agree, the order does not matter. *)
Lemma extend_lookup_functional m l k v :
  (forall v', (k, v') ∈ l -> v' = v) ->
  extend m l !! k = if decide (k ∈ l.*1) then Some v else m !! k.
Proof.
  revert m. induction l as [|[k' v'] l IH]; intros m Hf; cbn [extend foldl fmap list_fmap fst].
  - case_decide as E; [by apply not_elem_of_nil in E|done].
  - rewrite IH by set_solver. destruct (decide (k' = k)) as [->|Hne].
    + rewrite (decide_True (P := k ∈ k :: l.*1)) by set_solver. case_decide; [done|].
      rewrite lookup_insert_eq. by rewrite (Hf v') by set_solver.
    + rewrite lookup_insert_ne by done.
      destruct (decide (k ∈ l.*1)); [by rewrite decide_True by set_solver|].
      by rewrite decide_False by set_solver.
Qed.

Lemma lookup_extend_consistent l k v :
  (forall k v v', (k, v) ∈ l -> (k, v') ∈ l -> v = v') ->
  (extend ∅ l : gmap K V) !! k = Some v <-> (k, v) ∈ l.
Proof.
  intros Hc. split; [apply lookup_extend_empty|]. intros Hin.
  rewrite (extend_lookup_functional _ _ _ v) by (intros v' Hv'; by eapply Hc).
  rewrite decide_True; [done|]. apply list_elem_of_fmap. by exists (k, v).
Qed.
End Maps.

(** ** Decimal text *)

Definition digit (d : Z) : byte := z2b (48 + d).

(** The decimal digits of a number of at most [fuel] digits. *)
Fixpoint dec_digits (fuel : nat) (n : Z) : bytes :=
  match fuel with
  | O => []
  | S fuel => if n <? 10 then [digit n] else dec_digits fuel (n / 10) ++ [digit (n mod 10)]
  end.

Definition dec_val (l : bytes) : Z := foldl (fun a b => 10 * a + (b2z b - 48)) 0 l.

(** [format!("{n:0>width$}")] of a [u64]. *)
Definition dec_padded (width : nat) (n : Z) : bytes :=
  let l := dec_digits 20 n in replicate (width - length l) (digit 0) ++ l.

Lemma b2z_digit d : 0 <= d < 10 -> b2z (digit d) = 48 + d.
Proof. intros Hd. unfold digit. rewrite b2z_z2b, Z.mod_small; lia. Qed.

Lemma dec_val_snoc l b : dec_val (l ++ [b]) = 10 * dec_val l + (b2z b - 48).
Proof. unfold dec_val. by rewrite foldl_app. Qed.

Lemma dec_val_digits fuel n : 0 <= n < 10 ^ Z.of_nat (S fuel) -> dec_val (dec_digits (S fuel) n) = n.
Proof.
  revert n. induction fuel as [|fuel IH]; intros n Hn.
  - cbn [dec_digits]. change (10 ^ Z.of_nat 1) with 10 in Hn. destruct (Z.ltb_spec n 10); [|lia].
    unfold dec_val. cbn [foldl]. rewrite b2z_digit; lia.
  - rewrite Nat2Z.inj_succ, Z.pow_succ_r in Hn by lia.
    cbn [dec_digits]. destruct (Z.ltb_spec n 10) as [Hs|Hs].
    + unfold dec_val. cbn [foldl]. rewrite b2z_digit; lia.
    + rewrite dec_val_snoc. change (if n / 10 <? 10 then _ else _) with (dec_digits (S fuel) (n / 10)).
      rewrite IH.
      * rewrite b2z_digit by (apply Z.mod_pos_bound; lia). pose proof (Z.div_mod n 10). lia.
      * split; [apply Z.div_pos; lia|]. apply Z.div_lt_upper_bound; lia.
Qed.

Lemma dec_val_padded width n : is_u64 n -> dec_val (dec_padded width n) = n.
Proof.
  intros Hn. unfold dec_padded. transitivity (dec_val (dec_digits 20 n)).
  - assert (Hz : forall k, dec_val (replicate k (digit 0)) = 0).
    { induction k as [|k IH]; [done|]. unfold dec_val in *. cbn [replicate foldl].
      rewrite b2z_digit by lia. exact IH. }
    unfold dec_val in *. by rewrite foldl_app, Hz.
  - apply dec_val_digits. change (10 ^ Z.of_nat 20) with 100000000000000000000. lia.
Qed.

Lemma dec_padded_inj width n m : is_u64 n -> is_u64 m -> dec_padded width n = dec_padded width m -> n = m.
Proof. intros Hn Hm E. by rewrite <-(dec_val_padded width n), E, dec_val_padded. Qed.
