(* ===== verification/Order.v ===== *)
(** * Comparison functions and stable sorting

    Rust's [Ord::cmp], [Ordering::then_with], the derived order of byte arrays and
    the stable [slice::sort_by], with the laws the callers rely on. *)

From S2P Require Import Prelude.

(** The laws of [Ord]. *)
Record cmp_ok {A} (cmp : A -> A -> comparison) : Prop :=
  { cmp_anti x y : cmp y x = CompOpp (cmp x y);
    cmp_trans x y z : cmp x y = Lt -> cmp y z = Lt -> cmp x z = Lt;
    cmp_eq_l x y z : cmp x y = Eq -> cmp x z = cmp y z }.
Arguments cmp_anti {A cmp} _ x y.
Arguments cmp_trans {A cmp} _ x y z _ _.
Arguments cmp_eq_l {A cmp} _ x y z _.

Definition then_with {A} (c1 c2 : A -> A -> comparison) (x y : A) : comparison :=
  match c1 x y with Eq => c2 x y | c => c end.
Definition cmp_by {A B} (f : A -> B) (cmp : B -> B -> comparison) (x y : A) : comparison :=
  cmp (f x) (f y).
Definition cmp_rev {A} (cmp : A -> A -> comparison) (x y : A) : comparison := cmp y x.

(** The derived order of [[u8; n]]: lexicographic. *)
Fixpoint bytes_cmp (x y : bytes) : comparison :=
  match x, y with
  | [], [] => Eq
  | [], _ :: _ => Lt
  | _ :: _, [] => Gt
  | a :: x, b :: y => match b2z a ?= b2z b with Eq => bytes_cmp x y | c => c end
  end.

(** The derived order of [Vec<A>]. *)
Fixpoint list_cmp {A} (cmp : A -> A -> comparison) (x y : list A) : comparison :=
  match x, y with
  | [], [] => Eq
  | [], _ :: _ => Lt
  | _ :: _, [] => Gt
  | a :: x, b :: y => match cmp a b with Eq => list_cmp cmp x y | c => c end
  end.

Definition cmp_le {A} (cmp : A -> A -> comparison) (x y : A) : bool :=
  match cmp x y with Gt => false | _ => true end.

Lemma cmp_eq_r {A} {cmp : A -> A -> comparison} (H : cmp_ok cmp) x y z :
  cmp y z = Eq -> cmp x y = cmp x z.
Proof. intros E. rewrite (cmp_anti H y x), (cmp_anti H z x), (cmp_eq_l H y z x E). done. Qed.

Lemma Z_compare_ok : cmp_ok Z.compare.
Proof.
  split.
  - intros x y. by rewrite Z.compare_antisym.
  - intros x y z. rewrite !Z.compare_lt_iff. lia.
  - intros x y z. rewrite Z.compare_eq_iff. by intros ->.
Qed.

Lemma then_with_ok {A} (c1 c2 : A -> A -> comparison) :
  cmp_ok c1 -> cmp_ok c2 -> cmp_ok (then_with c1 c2).
Proof.
  intros H1 H2. unfold then_with. split.
  - intros x y. rewrite (cmp_anti H1 x y). destruct (c1 x y); simpl; [apply H2|done|done].
  - intros x y z. destruct (c1 x y) eqn:E1; [| |done].
    + rewrite (cmp_eq_l H1 x y z E1). destruct (c1 y z); [|done|done]. apply H2.
    + intros _. destruct (c1 y z) eqn:E2; [|intros _; by rewrite (cmp_trans H1 x y z E1 E2)|done].
      intros _. by rewrite <-(cmp_eq_r H1 x y z E2), E1.
  - intros x y z. destruct (c1 x y) eqn:E1; [|done|done].
    intros E2. rewrite (cmp_eq_l H1 x y z E1). destruct (c1 y z); [|done|done]. by apply H2.
Qed.

Lemma cmp_by_ok {A B} (f : A -> B) cmp : cmp_ok cmp -> cmp_ok (cmp_by f cmp).
Proof. intros H. unfold cmp_by. split; intros; eapply H; eauto. Qed.

Lemma cmp_rev_ok {A} (cmp : A -> A -> comparison) : cmp_ok cmp -> cmp_ok (cmp_rev cmp).
Proof.
  intros H. unfold cmp_rev. split.
  - intros x y. apply H.
  - intros x y z E1 E2. by apply (cmp_trans H z y x).
  - intros x y z E. symmetry. by apply (cmp_eq_r H).
Qed.

Lemma list_cmp_ok {A} (cmp : A -> A -> comparison) : cmp_ok cmp -> cmp_ok (list_cmp cmp).
Proof.
  intros Hc. split.
  - intros x. induction x as [|a x IH]; intros [|b y]; simpl; try done.
    rewrite (cmp_anti Hc a b). destruct (cmp a b); simpl; [apply IH|done|done].
  - intros x. induction x as [|a x IH]; intros [|b y] [|c z]; simpl; try done.
    destruct (cmp a b) eqn:E1; [|intros _|done].
    + rewrite (cmp_eq_l Hc a b c E1). destruct (cmp b c); [apply IH|done|done].
    + destruct (cmp b c) eqn:E2; [intros _|intros _|done].
      * by rewrite <-(cmp_eq_r Hc a b c E2), E1.
      * by rewrite (cmp_trans Hc a b c E1 E2).
  - intros x. induction x as [|a x IH]; intros [|b y] [|c z]; simpl; try done.
    destruct (cmp a b) eqn:E1; [|done|done]. intros E. rewrite (cmp_eq_l Hc a b c E1).
    destruct (cmp b c); [by apply IH|done|done].
Qed.

Lemma Nat_compare_ok : cmp_ok Nat.compare.
Proof.
  split.
  - intros x y. apply Nat.compare_antisym.
  - intros x y z. rewrite !Nat.compare_lt_iff. lia.
  - intros x y z. rewrite Nat.compare_eq_iff. by intros ->.
Qed.

Lemma bytes_cmp_list x y : bytes_cmp x y = list_cmp (cmp_by b2z Z.compare) x y.
Proof. revert y. induction x as [|a x IH]; intros [|b y]; simpl; [done..|]. by rewrite IH. Qed.

Lemma bytes_cmp_ok : cmp_ok bytes_cmp.
Proof.
  pose proof (list_cmp_ok _ (cmp_by_ok b2z _ Z_compare_ok)) as Hl.
  split; intros *; rewrite !bytes_cmp_list; apply Hl.
Qed.

Lemma bytes_cmp_eq x y : bytes_cmp x y = Eq <-> x = y.
Proof.
  revert y. induction x as [|a x IH]; intros [|b y]; simpl; try done.
  destruct (b2z a ?= b2z b) eqn:E.
  - apply Z.compare_eq_iff, b2z_inj in E as ->. rewrite IH. split; [by intros ->|by intros [= ->]].
  - split; [done|]. intros [= <- _]. by rewrite Z.compare_refl in E.
  - split; [done|]. intros [= <- _]. by rewrite Z.compare_refl in E.
Qed.

Section Sort.
Context {A : Type} (cmp : A -> A -> comparison).

(** [slice::sort_by]: stable, as the standard library documents. *)
Fixpoint insert_sorted (x : A) (l : list A) : list A :=
  match l with
  | [] => [x]
  | y :: l' => if cmp_le cmp x y then x :: l else y :: insert_sorted x l'
  end.

Definition sort_by (l : list A) : list A := foldr insert_sorted [] l.

Lemma insert_sorted_perm x l : insert_sorted x l ≡ₚ x :: l.
Proof.
  induction l as [|y l IH]; simpl; [done|]. case_match; [done|]. rewrite IH. apply Permutation_swap.
Qed.

Lemma sort_by_perm l : sort_by l ≡ₚ l.
Proof. induction l as [|x l IH]; simpl; [done|]. by rewrite insert_sorted_perm, IH. Qed.

Lemma cmp_le_total x y : cmp_ok cmp -> cmp_le cmp x y = false -> cmp_le cmp y x = true.
Proof. intros H. unfold cmp_le. rewrite (cmp_anti H x y). by destruct (cmp x y). Qed.

Lemma cmp_le_trans x y z :
  cmp_ok cmp -> cmp_le cmp x y = true -> cmp_le cmp y z = true -> cmp_le cmp x z = true.
Proof.
  intros H. unfold cmp_le. destruct (cmp x y) eqn:E1; [| |done].
  - by rewrite (cmp_eq_l H x y z E1).
  - destruct (cmp y z) eqn:E2; [| |done]; intros _ _.
    + by rewrite <-(cmp_eq_r H x y z E2), E1.
    + by rewrite (cmp_trans H x y z E1 E2).
Qed.

Lemma sort_by_sorted l : cmp_ok cmp -> StronglySorted (fun x y => cmp_le cmp x y = true) (sort_by l).
Proof.
  intros H. induction l as [|x l IH]; simpl; [constructor|].
  induction IH as [|y l' Hs IH Hf]; simpl; [repeat constructor|].
  destruct (cmp_le cmp x y) eqn:E.
  - constructor; [by constructor|]. constructor; [done|].
    eapply Forall_impl; [exact Hf|]. intros z Hz. by apply (cmp_le_trans x y z).
  - constructor; [done|]. rewrite insert_sorted_perm. constructor; [by apply cmp_le_total|done].
Qed.
End Sort.
