(* ===== verification/Float.v ===== *)
(** * Floating point

    [f64] and [f32] are IEEE binary64 and binary32, from the Standard Library's [SpecFloat],
    with the conversions and operators that the fee computations use: [as f64] and [as f32]
    of an integer (round to nearest even), and [ceil] followed by the saturating [as u64]. *)

From Stdlib Require Import SpecFloat.
From S2P Require Import Prelude.

Definition f64 := spec_float.
Definition f64_of_Z (z : Z) : f64 := binary_normalize 53 1024 z 0 false.
Definition f64_mul : f64 -> f64 -> f64 := SFmul 53 1024.
Definition f64_add : f64 -> f64 -> f64 := SFadd 53 1024.
Definition f64_zero : f64 := S754_zero false.

Definition f32 := spec_float.
Definition f32_of_Z (z : Z) : f32 := binary_normalize 24 128 z 0 false.
Definition f32_mul : f32 -> f32 -> f32 := SFmul 24 128.
Definition f32_div : f32 -> f32 -> f32 := SFdiv 24 128.

(** [.ceil() as u64]: negative numbers and NaN give zero, what does not fit the maximum. *)
Definition float_ceil_u64 (x : spec_float) : Z :=
  match x with
  | S754_infinity false => u64_max
  | S754_finite false m e =>
      Z.min u64_max
        (if 0 <=? e then Z.pos m * 2 ^ e else - ((- Z.pos m) / 2 ^ (- e)))
  | _ => 0
  end.

Lemma float_ceil_u64_nonneg x : 0 <= float_ceil_u64 x.
Proof.
  destruct x as [[]|[]| |[] m e]; simpl; unfold u64_max; try lia.
  apply Z.min_glb; [lia|]. destruct (Z.leb_spec 0 e).
  - pose proof (Z.pow_nonneg 2 e). lia.
  - pose proof (Z.div_le_upper_bound (- Z.pos m) (2 ^ (- e)) 0) as Hd.
    pose proof (Z.pow_pos_nonneg 2 (- e)). lia.
Qed.

Lemma float_ceil_u64_max x : float_ceil_u64 x <= u64_max.
Proof. destruct x as [[]|[]| |[] m e]; simpl; unfold u64_max; lia. Qed.

(** [lwk_common::calculate_fee]: the fee of a weight at a rate in satoshi per 1000 virtual
    bytes. *)
Definition calculate_fee (weight : Z) (fee_rate : f32) : Z :=
  let vsize := (weight + 3) / 4 in
  float_ceil_u64 (f32_div (f32_mul (f32_of_Z vsize) fee_rate) (f32_of_Z 1000)).
