(* ===== verification/Precision.v ===== *)
(** * Amounts as text

    [lwk_common/src/precision.rs]: amounts of an asset with up to 8 decimals, printed from and
    parsed to satoshi.  Text is the list of its UTF-8 bytes; [i64] and [i128] arithmetic is
    checked where the code checks it and wraps in [abs], as in release builds.

    The theorems: a decimal text with no more decimals than the precision has the value it
    denotes, and what is printed is parsed back, except for [i64::MIN]. *)

From S2P Require Import Prelude.

Inductive parse_error := ParseEmpty | InvalidDigit | PosOverflow | NegOverflow.

Inductive precision_error :=
| TooPrecise (p : Z)
| Parse (e : parse_error)
| Overflow (val : bytes)
| From
| StringTooPrecise (our given : Z).

Definition i64_min : Z := - 2 ^ 63.
Definition i64_max : Z := 2 ^ 63 - 1.
Definition i128_min : Z := - 2 ^ 127.
Definition i128_max : Z := 2 ^ 127 - 1.

Definition dot : byte := Byte.x2e.
Definition minus : byte := Byte.x2d.
Definition plus : byte := Byte.x2b.

(** ** Integers as text *)

Definition dec_digit (b : byte) : option Z :=
  if (48 <=? b2z b) && (b2z b <=? 57) then Some (b2z b - 48) else None.

(** [str::parse::<i128>], after the sign: digits are added, or subtracted after a minus. *)
Fixpoint parse_digits (neg : bool) (acc : Z) (l : bytes) : result Z parse_error :=
  match l with
  | [] => Ok acc
  | b :: l =>
      match dec_digit b with
      | None => Err InvalidDigit
      | Some d =>
          let acc := if neg then 10 * acc - d else 10 * acc + d in
          if i128_max <? acc then Err PosOverflow
          else if acc <? i128_min then Err NegOverflow
          else parse_digits neg acc l
      end
  end.

Definition parse_i128 (s : bytes) : result Z parse_error :=
  match s with
  | [] => Err ParseEmpty
  | [b] => if bool_decide (b = plus) || bool_decide (b = minus) then Err InvalidDigit
           else parse_digits false 0 s
  | b :: l => if bool_decide (b = minus) then parse_digits true 0 l
              else if bool_decide (b = plus) then parse_digits false 0 l
              else parse_digits false 0 s
  end.

(** [i64::to_string]. *)
Definition i64_to_string (n : Z) : bytes :=
  if n <? 0 then minus :: dec_digits 20 (- n) else dec_digits 20 n.

(** ** [Precision] *)

Definition Precision_new (precision : Z) : result Z precision_error :=
  if 8 <? precision then Err (TooPrecise precision) else Ok precision.

Definition sats_to_string (precision sats : Z) : bytes :=
  if precision =? 0 then i64_to_string sats
  else
    let precision := Z.to_nat precision in
    let negative := if sats <? 0 then [minus] else [] in
    let sats := i64_to_string (wrap_i64 (Z.abs sats)) in
    if (precision <? length sats)%nat then
      let over := (length sats - precision)%nat in
      negative ++ take over sats ++ [dot] ++ drop over sats
    else negative ++ [digit 0; dot] ++ replicate (precision - length sats) (digit 0) ++ sats.

Definition parsed (r : result Z parse_error) : result Z precision_error :=
  match r with Ok x => Ok x | Err e => Err (Parse e) end.

Definition inner_convert (precision : Z) (val : bytes) : result Z precision_error :=
  let? num := parsed (parse_i128 val) in
  let x := num * 10 ^ precision in
  if (i128_min <=? x) && (x <=? i128_max) then Ok x else Err (Overflow val).

Definition to_i64 (x : Z) : result Z precision_error :=
  if (i64_min <=? x) && (x <=? i64_max) then Ok x else Err From.

(** [val.find('.')], with the text before and after it. *)
Fixpoint split_dot (l : bytes) : option (bytes * bytes) :=
  match l with
  | [] => None
  | b :: l => if bool_decide (b = dot) then Some ([], l)
              else '(before, after) ← split_dot l; Some (b :: before, after)
  end.

Definition string_to_sats (precision : Z) (val : bytes) : result Z precision_error :=
  match split_dot val with
  | Some (before, after) =>
      let right_idx := zlen after in
      if 255 <? right_idx then Err From
      else if precision <? right_idx then Err (StringTooPrecise precision right_idx)
      else
        let? x := inner_convert precision (before ++ after) in
        to_i64 (Z.quot x (10 ^ right_idx))
  | None => let? x := inner_convert precision val in to_i64 x
  end.

(** ** Lemmas *)

Definition is_digit (b : byte) : Prop := 48 <= b2z b <= 57.

Lemma dec_digit_some b : is_digit b -> dec_digit b = Some (b2z b - 48).
Proof.
  unfold is_digit, dec_digit. intros Hb. destruct (Z.leb_spec 48 (b2z b)); [|lia].
  by destruct (Z.leb_spec (b2z b) 57); [|lia].
Qed.

Lemma digit_is_digit d : 0 <= d < 10 -> is_digit (digit d).
Proof. intros Hd. unfold is_digit. rewrite b2z_digit; lia. Qed.

Lemma is_digit_not b : is_digit b -> b <> dot /\ b <> minus /\ b <> plus.
Proof. unfold is_digit. intros Hb. split_and!; intros ->; vm_compute in Hb; destruct Hb; by auto. Qed.

Lemma dec_digits_digits fuel n : 0 <= n -> Forall is_digit (dec_digits fuel n).
Proof.
  revert n. induction fuel as [|fuel IH]; intros n Hn; [constructor|]. cbn [dec_digits].
  destruct (Z.ltb_spec n 10); [constructor; [|done]; by apply digit_is_digit|].
  apply Forall_app. split; [apply IH; apply Z.div_pos; lia|]. constructor; [|done].
  apply digit_is_digit, Z.mod_pos_bound. lia.
Qed.

Lemma dec_digits_cons fuel n : exists b l, dec_digits (S fuel) n = b :: l.
Proof.
  cbn [dec_digits]. destruct (n <? 10); [by eexists _, _|].
  destruct (dec_digits fuel (n / 10)) as [|b l]; by eexists _, _.
Qed.

Lemma dec_val_fold l acc :
  foldl (fun a b => 10 * a + (b2z b - 48)) acc l = acc * 10 ^ zlen l + dec_val l.
Proof.
  unfold dec_val. revert acc. induction l as [|b l IH] using rev_ind; intros acc.
  { unfold zlen. cbn [length foldl]. change (10 ^ Z.of_nat 0) with 1. lia. }
  rewrite !foldl_app, zlen_app. cbn [foldl]. rewrite IH. change (zlen [b]) with 1.
  rewrite Z.pow_add_r by (unfold zlen; lia). change (10 ^ 1) with 10. lia.
Qed.

Lemma dec_val_app l k : dec_val (l ++ k) = dec_val l * 10 ^ zlen k + dec_val k.
Proof. unfold dec_val at 1. by rewrite foldl_app, dec_val_fold. Qed.

Lemma dec_val_zeros k : dec_val (replicate k (digit 0)) = 0.
Proof.
  induction k as [|k IH]; [done|]. change (replicate (S k) (digit 0)) with ([digit 0] ++ replicate k (digit 0)).
  by rewrite dec_val_app, IH.
Qed.

Lemma dec_val_nonneg l : Forall is_digit l -> 0 <= dec_val l.
Proof.
  induction l as [|b l IH] using rev_ind; [done|]. rewrite Forall_app, dec_val_snoc.
  intros [Hl%IH Hb%Forall_inv]. unfold is_digit in Hb. lia.
Qed.

Lemma parse_digits_ok neg acc l :
  Forall is_digit l -> 0 <= acc -> acc * 10 ^ zlen l + dec_val l <= i128_max ->
  parse_digits neg (if neg then - acc else acc) l =
    Ok (if neg then - (acc * 10 ^ zlen l + dec_val l) else acc * 10 ^ zlen l + dec_val l).
Proof.
  intros Hl. revert acc. induction Hl as [|b l Hb Hl IH]; intros acc Hacc Hv.
  { cbn [parse_digits]. unfold zlen, dec_val. cbn [length foldl]. change (10 ^ Z.of_nat 0) with 1.
    destruct neg; f_equal; lia. }
  cbn [parse_digits]. rewrite dec_digit_some by done. unfold is_digit in Hb.
  pose proof (dec_val_nonneg l Hl) as Hn.
  assert (Hpos : 1 <= 10 ^ zlen l) by (pose proof (Z.pow_pos_nonneg 10 (zlen l)); unfold zlen in *; lia).
  assert (Hstep : acc * 10 ^ zlen (b :: l) + dec_val (b :: l) = (10 * acc + (b2z b - 48)) * 10 ^ zlen l + dec_val l).
  { change (b :: l) with ([b] ++ l). rewrite dec_val_app, zlen_app, Z.pow_add_r by (unfold zlen; lia).
    replace (dec_val [b]) with (b2z b - 48) by (unfold dec_val; cbn [foldl]; lia).
    change (zlen [b]) with 1. change (10 ^ 1) with 10. lia. }
  rewrite Hstep in Hv |- *. set (acc' := 10 * acc + (b2z b - 48)) in *.
  assert (Ha : 0 <= acc' <= i128_max).
  { split; [unfold acc'; lia|]. unfold acc' in *. nia. }
  replace (if neg then 10 * (if neg then - acc else acc) - (b2z b - 48) else 10 * (if neg then - acc else acc) + (b2z b - 48))
    with (if neg then - acc' else acc') by (unfold acc'; destruct neg; lia).
  destruct (Z.ltb_spec i128_max (if neg then - acc' else acc')); [destruct neg; lia|].
  destruct (Z.ltb_spec (if neg then - acc' else acc') i128_min); [unfold i128_min, i128_max in *; destruct neg; lia|].
  apply IH; [lia|done].
Qed.

Definition sign (neg : bool) : bytes := if neg then [minus] else [].
Definition signed (neg : bool) (x : Z) : Z := if neg then - x else x.

Lemma parse_signed neg ds :
  Forall is_digit ds -> ds <> [] -> dec_val ds <= i128_max -> parse_i128 (sign neg ++ ds) = Ok (signed neg (dec_val ds)).
Proof.
  intros Hd Hne Hv. pose proof (parse_digits_ok neg 0 ds Hd ltac:(lia)) as Hp.
  rewrite Z.mul_0_l, Z.add_0_l in Hp. specialize (Hp Hv).
  destruct ds as [|b ds]; [done|]. apply Forall_inv in Hd as Hb. destruct (is_digit_not b Hb) as (_ & Hm & Hpl).
  destruct neg; cbn [sign app parse_i128].
  - by rewrite bool_decide_true.
  - destruct ds; by rewrite ?(bool_decide_false (b = minus)), ?(bool_decide_false (b = plus)).
Qed.

Lemma split_dot_found l r : Forall (fun b => b <> dot) l -> split_dot (l ++ dot :: r) = Some (l, r).
Proof.
  induction 1 as [|b l Hb _ IH]; cbn [app split_dot]; [by rewrite bool_decide_true|].
  rewrite bool_decide_false by done. by rewrite IH.
Qed.

Lemma split_dot_none l : Forall (fun b => b <> dot) l -> split_dot l = None.
Proof. induction 1 as [|b l Hb _ IH]; [done|]. cbn [split_dot]. rewrite bool_decide_false by done. by rewrite IH. Qed.

Lemma sign_no_dot neg ds : Forall is_digit ds -> Forall (fun b => b <> dot) (sign neg ++ ds).
Proof.
  intros Hd. apply Forall_app. split; [by destruct neg; [constructor|]|]. eapply Forall_impl; [exact Hd|].
  intros b Hb. by destruct (is_digit_not b Hb).
Qed.

Lemma inner_convert_ok p neg ds :
  0 <= p -> Forall is_digit ds -> ds <> [] -> dec_val ds * 10 ^ p <= i128_max ->
  inner_convert p (sign neg ++ ds) = Ok (signed neg (dec_val ds * 10 ^ p)).
Proof.
  intros Hp Hd Hne Hv. pose proof (dec_val_nonneg ds Hd) as Hn. pose proof (Z.pow_pos_nonneg 10 p ltac:(lia) Hp) as H10.
  unfold inner_convert. rewrite parse_signed by (done || nia). cbn [parsed rbind].
  replace (signed neg (dec_val ds) * 10 ^ p) with (signed neg (dec_val ds * 10 ^ p)) by (destruct neg; cbn [signed]; lia).
  assert (Hx : 0 <= dec_val ds * 10 ^ p) by nia.
  destruct (Z.leb_spec i128_min (signed neg (dec_val ds * 10 ^ p)));
    [|unfold i128_min, i128_max in *; destruct neg; cbn [signed] in *; lia].
  destruct (Z.leb_spec (signed neg (dec_val ds * 10 ^ p)) i128_max); [done|].
  destruct neg; cbn [signed] in *; unfold i128_max in *; lia.
Qed.

Lemma to_i64_ok neg v : 0 <= v <= i64_max -> to_i64 (signed neg v) = Ok (signed neg v).
Proof.
  intros Hv. unfold to_i64. destruct (Z.leb_spec i64_min (signed neg v)), (Z.leb_spec (signed neg v) i64_max); try done;
    destruct neg; cbn [signed] in *; unfold i64_min, i64_max in *; lia.
Qed.

(** A decimal text with no more decimals than the precision, whose value fits an [i64], is
    parsed to that value: [ip.fp] is [ip * 10 ^ p + fp * 10 ^ (p - |fp|)] satoshi. *)
Theorem string_to_sats_value (p : Z) (neg : bool) (ip fp : bytes) :
  0 <= p <= 8 -> Forall is_digit ip -> Forall is_digit fp -> ip ++ fp <> [] -> zlen fp <= p ->
  dec_val ip * 10 ^ p + dec_val fp * 10 ^ (p - zlen fp) <= i64_max ->
  string_to_sats p (sign neg ++ ip ++ dot :: fp) =
    Ok (signed neg (dec_val ip * 10 ^ p + dec_val fp * 10 ^ (p - zlen fp))).
Proof.
  intros Hp Hi Hf Hne Hl Hv. unfold string_to_sats.
  rewrite app_assoc, split_dot_found by (by apply sign_no_dot).
  destruct (Z.ltb_spec 255 (zlen fp)); [lia|]. destruct (Z.ltb_spec p (zlen fp)); [lia|].
  set (v := dec_val ip * 10 ^ p + dec_val fp * 10 ^ (p - zlen fp)) in *.
  assert (Hz : 0 <= zlen fp) by (unfold zlen; lia).
  assert (Hval : dec_val (ip ++ fp) * 10 ^ p = v * 10 ^ zlen fp).
  { rewrite dec_val_app. unfold v. rewrite !Z.mul_add_distr_r, <-!Z.mul_assoc, <-!Z.pow_add_r by lia.
    f_equal; [do 2 f_equal; lia|do 2 f_equal; lia]. }
  assert (Hv0 : 0 <= v).
  { unfold v. pose proof (dec_val_nonneg _ Hi). pose proof (dec_val_nonneg _ Hf).
    pose proof (Z.pow_nonneg 10 p). pose proof (Z.pow_nonneg 10 (p - zlen fp)). nia. }
  assert (H10 : 1 <= 10 ^ zlen fp <= 10 ^ 8).
  { split; [pose proof (Z.pow_pos_nonneg 10 (zlen fp)); lia|]. apply Z.pow_le_mono_r; lia. }
  rewrite <-app_assoc, inner_convert_ok; [|lia|by apply Forall_app|done|].
  - cbn [rbind]. rewrite Hval.
    replace (Z.quot (signed neg (v * 10 ^ zlen fp)) (10 ^ zlen fp)) with (signed neg v); [by apply to_i64_ok|].
    destruct neg; cbn [signed]; [rewrite <-Z.mul_opp_l|]; by rewrite Z.quot_mul by lia.
  - rewrite Hval. unfold i64_max, i128_max in *. change (10 ^ 8) with 100000000 in H10. nia.
Qed.

Lemma wrap_abs_small s : i64_min < s <= i64_max -> wrap_i64 (Z.abs s) = Z.abs s.
Proof. intros Hs. unfold wrap_i64, i64_min, i64_max in *. rewrite Z.mod_small; lia. Qed.

(** Printing an amount and parsing it again gives the amount, for every [i64] but the least. *)
Theorem precision_round_trip (p s : Z) :
  0 <= p <= 8 -> i64_min < s <= i64_max -> string_to_sats p (sats_to_string p s) = Ok s.
Proof.
  intros Hp Hs. set (ds := dec_digits 20 (Z.abs s)).
  assert (Hd : Forall is_digit ds) by (apply dec_digits_digits; lia).
  assert (Hv : dec_val ds = Z.abs s).
  { unfold ds. apply dec_val_digits. unfold i64_min, i64_max in Hs. change (10 ^ Z.of_nat 20) with 100000000000000000000. lia. }
  assert (Hne : ds <> []) by (unfold ds; destruct (dec_digits_cons 19 (Z.abs s)) as (b & l & ->); done).
  assert (Hsign : signed (s <? 0) (Z.abs s) = s) by (destruct (Z.ltb_spec s 0); cbn [signed]; lia).
  unfold sats_to_string. destruct (Z.eqb_spec p 0) as [->|Hp0].
  - assert (Ht : i64_to_string s = sign (s <? 0) ++ ds).
    { unfold i64_to_string, ds. destruct (Z.ltb_spec s 0); cbn [sign app]; do 2 f_equal; lia. }
    rewrite Ht. unfold string_to_sats. rewrite split_dot_none by (by apply sign_no_dot).
    rewrite inner_convert_ok by (done || rewrite Hv; unfold i64_min, i64_max, i128_max in *; lia).
    cbn [rbind]. rewrite Hv, Z.mul_1_r, to_i64_ok by (unfold i64_min, i64_max in *; lia). by rewrite Hsign.
  - assert (Ht : i64_to_string (wrap_i64 (Z.abs s)) = ds).
    { rewrite wrap_abs_small by done. unfold i64_to_string. destruct (Z.ltb_spec (Z.abs s) 0); [lia|done]. }
    rewrite Ht. fold (sign (s <? 0)).
    assert (Hz : 0 <= p <= i64_max) by (unfold i64_max; lia).
    destruct (Nat.ltb_spec (Z.to_nat p) (length ds)) as [Hlong|Hshort].
    + set (k := (length ds - Z.to_nat p)%nat).
      assert (Hlen : zlen (drop k ds) = p) by (unfold zlen; rewrite length_drop; unfold k; lia).
      assert (Hval : dec_val (take k ds) * 10 ^ p + dec_val (drop k ds) = Z.abs s).
      { rewrite <-Hv. rewrite <-(take_drop k ds) at 3. by rewrite dec_val_app, Hlen. }
      cbn [app]. rewrite string_to_sats_value.
      * rewrite Hlen, Z.sub_diag, Z.mul_1_r, Hval. by rewrite Hsign.
      * done.
      * by apply Forall_take.
      * by apply Forall_drop.
      * by rewrite take_drop.
      * lia.
      * rewrite Hlen, Z.sub_diag, Z.mul_1_r, Hval. unfold i64_min, i64_max in *. lia.
    + set (z := replicate (Z.to_nat p - length ds) (digit 0)).
      assert (Hlen : zlen (z ++ ds) = p) by (unfold zlen, z; rewrite length_app, length_replicate; lia).
      assert (Hval : dec_val [digit 0] * 10 ^ p + dec_val (z ++ ds) = Z.abs s).
      { rewrite dec_val_app. unfold z. rewrite (dec_val_zeros (_ - _)), (dec_val_zeros 1 : dec_val [digit 0] = 0), Hv. lia. }
      assert (Hzd : Forall is_digit [digit 0]) by (constructor; [by apply digit_is_digit|done]).
      cbn [app]. change (digit 0 :: dot :: z ++ ds) with ([digit 0] ++ dot :: (z ++ ds)).
      rewrite string_to_sats_value; [|done|done| |done|lia|]; rewrite ?Hlen, ?Z.sub_diag, ?Z.mul_1_r, ?Hval.
      * by rewrite Hsign.
      * apply Forall_app. split; [|done]. apply Forall_replicate. by apply digit_is_digit.
      * unfold i64_min, i64_max in *. lia.
Qed.

(** The least [i64] has no absolute value: its text has two signs and cannot be parsed. *)
Theorem least_amount_unprintable (p : Z) :
  1 <= p <= 8 -> string_to_sats p (sats_to_string p i64_min) = Err (Parse InvalidDigit).
Proof.
  intros Hp. assert (Hc : p = 1 \/ p = 2 \/ p = 3 \/ p = 4 \/ p = 5 \/ p = 6 \/ p = 7 \/ p = 8) by lia.
  destruct Hc as [->|[->|[->|[->|[->|[->|[->| ->]]]]]]]; vm_compute; reflexivity.
Qed.

Lemma string_to_sats_value_witness : string_to_sats 8 (str "-1.5") = Ok (-150000000).
Proof.
  apply (string_to_sats_value 8 true (str "1") (str "5")); [lia| | | |vm_compute; discriminate|vm_compute; discriminate].
  - repeat constructor; vm_compute; discriminate.
  - repeat constructor; vm_compute; discriminate.
  - discriminate.
Defined.

Lemma precision_round_trip_witness :
  sats_to_string 2 (-7) = str "-0.07" /\ string_to_sats 2 (str "-0.07") = Ok (-7).
Proof.
  split; [vm_compute; reflexivity|]. apply (precision_round_trip 2 (-7)); [lia|].
  unfold i64_min, i64_max. lia.
Defined.

Lemma least_amount_unprintable_witness : string_to_sats 8 (sats_to_string 8 i64_min) = Err (Parse InvalidDigit).
Proof. apply (least_amount_unprintable 8). lia. Defined.
