(* ===== verification/Encode.v ===== *)
(** * Consensus encoding

    [rust-elements/src/ext.rs] ([WriteExt], [ReadExt]) and
    [rust-elements/src/encode.rs] ([Encodable], [Decodable], [VarInt], vectors,
    byte arrays, optional proofs).  A writer is the list of bytes it appends; a
    reader is a function from the unread input to a value and the rest of the
    input.  The types of [secp256k1-zkp] and the compile-time constants the
    decoder consults are parameters (classes [Secp] and [Platform]).  The class
    [Codec] is the contract every wire type is proved to satisfy and every
    container uses of its components. *)

From S2P Require Import Prelude.

(** ** Errors and readers *)

(** [encode::Error]; payloads that come from other crates are dropped. *)
Inductive encode_error : Type :=
| Io
| Bitcoin
| OversizedVectorAllocation (requested max : Z)
| ParseFailed (msg : string)
| UnexpectedEOF
| InvalidConfidentialPrefix (p : Z)
| Secp256k1
| Secp256k1zkp
| PsetError
| HexError
| BadLockTime (n : Z)
| NonMinimalVarInt.

Definition Reader (A : Type) : Type := bytes -> result (A * bytes) encode_error.

Definition rd_ret {A} (a : A) : Reader A := fun bs => Ok (a, bs).
Definition rd_fail {A} (e : encode_error) : Reader A := fun _ => Err e.
Definition rd_bind {A B} (m : Reader A) (k : A -> Reader B) : Reader B :=
  fun bs => match m bs with
            | Ok (a, rest) => k a rest
            | Err e => Err e
            end.

Notation "x <<- m ;; k" := (rd_bind m (fun x => k))
  (at level 100, m at next level, right associativity) : swk_scope.

(** Lift an [Option] produced by a parser of another crate. *)
Definition rd_lift {A} (o : option A) (e : encode_error) : Reader A :=
  match o with
  | Some a => rd_ret a
  | None => rd_fail e
  end.

Lemma rd_bind_ok {A B} (m : Reader A) (k : A -> Reader B) bs b rest :
  rd_bind m k bs = Ok (b, rest) <->
  exists a mid, m bs = Ok (a, mid) /\ k a mid = Ok (b, rest).
Proof. unfold rd_bind. destruct (m bs) as [[a mid]|e]; naive_solver. Qed.

Lemma rd_lift_ok {A} (o : option A) e bs a rest :
  rd_lift o e bs = Ok (a, rest) <-> o = Some a /\ bs = rest.
Proof. destruct o; unfold rd_lift, rd_ret, rd_fail; naive_solver. Qed.

Lemma rd_ret_ok {A} (x : A) bs a rest :
  rd_ret x bs = Ok (a, rest) <-> x = a /\ bs = rest.
Proof. unfold rd_ret. naive_solver. Qed.

(** ** The codec contract *)

Class Encodable (A : Type) := consensus_encode : A -> bytes.
Class Decodable (A : Type) := consensus_decode : Reader A.

(** [codec_ok enc dec wf]: decoding inverts encoding on well-formed values,
    whatever follows on the stream, and the decoder accepts only encodings of
    well-formed values, so that re-encoding gives back the bytes consumed. *)
Record codec_ok {A} (enc : A -> bytes) (dec : Reader A) (wf : A -> Prop) : Prop :=
  { codec_decode a rest : wf a -> dec (enc a ++ rest) = Ok (a, rest);
    codec_canonical bs a rest :
      dec bs = Ok (a, rest) -> wf a /\ bs = enc a ++ rest }.
Arguments codec_decode {A enc dec wf} _ a rest _.
Arguments codec_canonical {A enc dec wf} _ bs a rest _.

Class Codec (A : Type) {He : Encodable A} {Hd : Decodable A} (wf : A -> Prop) : Prop :=
  codec : codec_ok consensus_encode consensus_decode wf.
Arguments codec {A He Hd wf _}.

(** One step of a sequential decoder run on a sequential encoding. *)
Lemma codec_step {A B} {enc : A -> bytes} {dec wf} (H : codec_ok enc dec wf)
    (k : A -> Reader B) a rest :
  wf a -> rd_bind dec k (enc a ++ rest) = k a rest.
Proof. intros Ha. unfold rd_bind. by rewrite (codec_decode H). Qed.

Lemma codec_last {A} {enc : A -> bytes} {dec wf} (H : codec_ok enc dec wf) a :
  wf a -> dec (enc a) = Ok (a, []).
Proof. intros Ha. rewrite <-(app_nil_r (enc a)). by apply H. Qed.

Lemma codec_inj {A} {enc : A -> bytes} {dec wf} (H : codec_ok enc dec wf) a b r s :
  wf a -> wf b -> enc a ++ r = enc b ++ s -> a = b /\ r = s.
Proof.
  intros Ha Hb E. pose proof (codec_decode H a r Ha) as Ea.
  rewrite E, (codec_decode H b s Hb) in Ea. naive_solver.
Qed.

(** Undo one step of a decoder: name the value read and replace the input by its
    encoding. *)
Tactic Notation "codec_inv" hyp(E) "with" constr(c) "as" ident(x) simple_intropattern(W) :=
  let D := fresh "D" in
  let mid := fresh "mid" in
  apply rd_bind_ok in E as (x & mid & D & E);
  apply (codec_canonical c) in D as [W ->].

(** [encode::serialize] and [encode::deserialize] (which insists on consuming
    the whole input). *)
Definition serialize {A} `{Encodable A} (a : A) : bytes := consensus_encode a.

Definition deserialize_partial {A} `{Decodable A} (data : bytes)
  : result (A * nat) encode_error :=
  match consensus_decode data with
  | Ok (rv, rest) => Ok (rv, (length data - length rest)%nat)
  | Err e => Err e
  end.

Definition deserialize {A} `{Decodable A} (data : bytes) : result A encode_error :=
  let? (rv, consumed) := deserialize_partial data in
  if (consumed =? length data)%nat then Ok rv
  else Err (ParseFailed "data not consumed entirely when explicitly deserializing").

Lemma deserialize_ok {A} `{HC : Codec A wf} data a :
  deserialize data = Ok a <-> wf a /\ data = serialize a.
Proof.
  unfold deserialize, deserialize_partial, serialize. split.
  - destruct (consensus_decode data) as [[rv rest]|e] eqn:E; simpl; [|done].
    apply (codec_canonical codec) in E as [Hwf ->].
    rewrite length_app. case_match eqn:Hc; [|done]. intros [= ->].
    apply Nat.eqb_eq in Hc. destruct rest; simpl in *; [|lia].
    by rewrite app_nil_r.
  - intros [Hwf ->]. rewrite (codec_last codec) by done. simpl.
    by rewrite Nat.sub_0_r, Nat.eqb_refl.
Qed.

(** ** Integers *)

Definition emit_u8 (v : Z) : bytes := [z2b v].
Definition emit_u16 (v : Z) : bytes := le_bytes 2 v.
Definition emit_u32 (v : Z) : bytes := le_bytes 4 v.
Definition emit_u64 (v : Z) : bytes := le_bytes 8 v.

(** [Read::read_exact] on an in-memory reader. *)
Definition read_exact (n : nat) : Reader bytes :=
  fun bs => if (n <=? length bs)%nat then Ok (take n bs, drop n bs) else Err Io.

Definition read_u8 : Reader Z :=
  slice <<- read_exact 1;; rd_ret (le_val slice).
Definition read_u16 : Reader Z := val <<- read_exact 2;; rd_ret (le_val val).
Definition read_u32 : Reader Z := val <<- read_exact 4;; rd_ret (le_val val).
Definition read_u64 : Reader Z := val <<- read_exact 8;; rd_ret (le_val val).

(** [emit_varint] / [read_varint] (CompactSize). *)
Definition emit_varint (v : Z) : bytes :=
  if v <=? 0xFC then emit_u8 v
  else if v <=? 0xFFFF then emit_u8 0xFD ++ emit_u16 v
  else if v <=? 0xFFFFFFFF then emit_u8 0xFE ++ emit_u32 v
  else emit_u8 0xFF ++ emit_u64 v.

Definition read_varint : Reader Z :=
  n <<- read_u8;;
  if n =? 0xFF then
    x <<- read_u64;;
    if x <? 0x100000000 then rd_fail NonMinimalVarInt else rd_ret x
  else if n =? 0xFE then
    x <<- read_u32;;
    if x <? 0x10000 then rd_fail NonMinimalVarInt else rd_ret x
  else if n =? 0xFD then
    x <<- read_u16;;
    if x <? 0xFD then rd_fail NonMinimalVarInt else rd_ret x
  else rd_ret n.

(** [VarInt::size]. *)
Definition varint_size (v : Z) : Z :=
  if v <=? 0xFC then 1
  else if v <=? 0xFFFF then 3
  else if v <=? 0xFFFFFFFF then 5
  else 9.

Lemma read_exact_app n bs rest : length bs = n -> read_exact n (bs ++ rest) = Ok (bs, rest).
Proof.
  intros <-. unfold read_exact. rewrite length_app.
  destruct (Nat.leb_spec (length bs) (length bs + length rest)); [|lia].
  by rewrite take_app_length, drop_app_length.
Qed.

Lemma read_exact_ok n bs a rest :
  read_exact n bs = Ok (a, rest) -> length a = n /\ bs = a ++ rest.
Proof.
  unfold read_exact. case_match eqn:E; [|done]. apply Nat.leb_le in E.
  intros [= <- <-]. rewrite length_take, take_drop. split; [lia|done].
Qed.

(** A fixed-width array [[u8; n]]. *)
Lemma array_codec n : codec_ok (fun a => a) (read_exact n) (fun a => length a = n).
Proof.
  split.
  - intros a rest <-. by apply read_exact_app.
  - intros bs a rest. apply read_exact_ok.
Qed.

Lemma le_codec (n : nat) :
  codec_ok (le_bytes n) (val <<- read_exact n;; rd_ret (le_val val))
    (fun v => 0 <= v < 256 ^ Z.of_nat n).
Proof.
  split.
  - intros a rest Ha. unfold rd_bind.
    rewrite read_exact_app by apply length_le_bytes.
    unfold rd_ret. by rewrite le_val_le_bytes.
  - intros bs a rest (v & mid & Hv & E)%rd_bind_ok.
    apply read_exact_ok in Hv as [Hl ->]. apply rd_ret_ok in E as [<- <-].
    rewrite le_bytes_le_val_n by done. split; [|done].
    split; [apply le_val_nonneg|]. rewrite <-Hl. apply le_val_bound.
Qed.

Lemma u8_codec : codec_ok emit_u8 read_u8 (fun v => is_u8 v).
Proof. exact (le_codec 1). Qed.
Lemma u16_codec : codec_ok emit_u16 read_u16 (fun v => is_u16 v).
Proof. exact (le_codec 2). Qed.
Lemma u32_codec : codec_ok emit_u32 read_u32 (fun v => is_u32 v).
Proof. exact (le_codec 4). Qed.
Lemma u64_codec : codec_ok emit_u64 read_u64 (fun v => is_u64 v).
Proof. exact (le_codec 8). Qed.

Lemma varint_codec : codec_ok emit_varint read_varint (fun v => is_u64 v).
Proof.
  split.
  - intros v rest Hv. unfold emit_varint, read_varint.
    repeat case_match; simplify_eq;
      rewrite ?Z.leb_le, ?Z.leb_gt in *; rewrite <-?app_assoc;
      rewrite (codec_step u8_codec) by lia.
    + destruct (Z.eqb_spec v 255), (Z.eqb_spec v 254), (Z.eqb_spec v 253); try lia.
      done.
    + cbn [Z.eqb Pos.eqb]. rewrite (codec_step u16_codec) by lia.
      destruct (Z.ltb_spec v 0xFD); [lia|done].
    + cbn [Z.eqb Pos.eqb]. rewrite (codec_step u32_codec) by lia.
      destruct (Z.ltb_spec v 0x10000); [lia|done].
    + cbn [Z.eqb Pos.eqb]. rewrite (codec_step u64_codec) by lia.
      destruct (Z.ltb_spec v 0x100000000); [lia|done].
  - intros bs v rest (n & mid & Hn & E)%rd_bind_ok.
    apply (codec_canonical u8_codec) in Hn as [Hr ->].
    unfold emit_varint.
    destruct (Z.eqb_spec n 255) as [->|?];
      [|destruct (Z.eqb_spec n 254) as [->|?];
        [|destruct (Z.eqb_spec n 253) as [->|?]]].
    1-3: apply rd_bind_ok in E as (x & mid' & Hx & E).
    1: apply (codec_canonical u64_codec) in Hx as [Hxr ->].
    2: apply (codec_canonical u32_codec) in Hx as [Hxr ->].
    3: apply (codec_canonical u16_codec) in Hx as [Hxr ->].
    4: { apply rd_ret_ok in E as [<- <-]. split; [lia|].
         by destruct (Z.leb_spec n 0xFC); [|lia]. }
    all: case_match eqn:Hlt; [done|]; apply Z.ltb_ge in Hlt;
      apply rd_ret_ok in E as [<- <-]; split; [lia|].
    all: repeat (match goal with
      | |- context [?a <=? ?b] => destruct (Z.leb_spec a b); try lia
      end); by rewrite <-app_assoc.
Qed.

Lemma varint_size_correct v :
  is_u64 v -> Z.of_nat (length (emit_varint v)) = varint_size v.
Proof.
  intros. unfold emit_varint, varint_size, emit_u8, emit_u16, emit_u32, emit_u64.
  repeat case_match; rewrite ?length_app, ?length_le_bytes; done.
Qed.

(** ** Constants of the build and of the [bitcoin] crate *)

(** [bitcoin::consensus::encode::MAX_VEC_SIZE] and the [mem::size_of] values
    the generic vector decoder multiplies the announced length by. *)
Class Platform :=
  { MAX_VEC_SIZE : Z;
    size_of_TxIn : Z;
    size_of_TxOut : Z;
    size_of_Transaction : Z;
    size_of_VecU8 : Z;
    max_vec_size_usize : is_u64 MAX_VEC_SIZE;
    size_of_TxIn_pos : 1 <= size_of_TxIn;
    size_of_TxOut_pos : 1 <= size_of_TxOut;
    size_of_Transaction_pos : 1 <= size_of_Transaction;
    size_of_VecU8_pos : 1 <= size_of_VecU8;
    max_vec_size_large : 100000 <= MAX_VEC_SIZE;
    size_of_TxIn_small : 100 * size_of_TxIn <= MAX_VEC_SIZE;
    size_of_TxOut_small : 100 * size_of_TxOut <= MAX_VEC_SIZE }.

Section Vectors.
Context {P : Platform}.

(** [consensus_encode_with_size], the encoding of [Vec<u8>], [Box<[u8]>],
    [Script] and [bitcoin::ScriptBuf]. *)
Definition encode_vec_u8 (data : bytes) : bytes :=
  emit_varint (Z.of_nat (length data)) ++ data.

Definition decode_vec_u8 : Reader bytes :=
  s <<- read_varint;;
  if MAX_VEC_SIZE <? s then rd_fail (OversizedVectorAllocation s MAX_VEC_SIZE)
  else read_exact (Z.to_nat s).

Definition vec_u8_wf (data : bytes) : Prop := Z.of_nat (length data) <= MAX_VEC_SIZE.

Lemma vec_u8_codec : codec_ok encode_vec_u8 decode_vec_u8 vec_u8_wf.
Proof.
  pose proof max_vec_size_usize. unfold vec_u8_wf. split.
  - intros a rest Ha. unfold encode_vec_u8, decode_vec_u8. rewrite <-app_assoc.
    rewrite (codec_step varint_codec) by lia.
    destruct (Z.ltb_spec MAX_VEC_SIZE (Z.of_nat (length a))); [lia|].
    apply read_exact_app. lia.
  - intros bs a rest (s & mid & Hs & E)%rd_bind_ok.
    apply (codec_canonical varint_codec) in Hs as [Hr ->].
    case_match eqn:Hlt; [done|]. apply Z.ltb_ge in Hlt.
    apply read_exact_ok in E as [Hl ->]. unfold encode_vec_u8.
    rewrite Hl, Z2Nat.id, <-app_assoc by lia. split; [lia|done].
Qed.

(** [impl_vec!]: the element count, then each element. *)
Definition encode_vec {A} (enc : A -> bytes) (l : list A) : bytes :=
  emit_varint (Z.of_nat (length l)) ++ concat (map enc l).

Fixpoint decode_n {A} (dec : Reader A) (n : nat) : Reader (list A) :=
  match n with
  | O => rd_ret []
  | S n => c <<- dec;; ret <<- decode_n dec n;; rd_ret (c :: ret)
  end.

Definition checked_mul_usize (a b : Z) : option Z :=
  if a * b <=? u64_max then Some (a * b) else None.

Definition decode_vec {A} (size_of : Z) (dec : Reader A) : Reader (list A) :=
  len <<- read_varint;;
  match checked_mul_usize len size_of with
  | None => rd_fail (ParseFailed "Invalid length")
  | Some byte_size =>
      if MAX_VEC_SIZE <? byte_size
      then rd_fail (OversizedVectorAllocation byte_size MAX_VEC_SIZE)
      else decode_n dec (Z.to_nat len)
  end.

Definition vec_wf {A} (size_of : Z) (wf : A -> Prop) (l : list A) : Prop :=
  Forall wf l /\ Z.of_nat (length l) * size_of <= MAX_VEC_SIZE.

Lemma decode_n_codec {A} {enc : A -> bytes} {dec wf} n :
  codec_ok enc dec wf ->
  codec_ok (fun l => concat (map enc l)) (decode_n dec n)
    (fun l => Forall wf l /\ length l = n).
Proof.
  intros H. split.
  - intros l rest [Hl <-]. revert rest.
    induction Hl as [|a l Ha Hl IH]; intros rest; simpl; [done|].
    rewrite <-app_assoc, (codec_step H) by done.
    unfold rd_bind. by rewrite IH.
  - induction n as [|n IH]; intros bs l rest; simpl.
    + intros [<- <-]%rd_ret_ok. simpl. split; [|done]. by split; [constructor|].
    + intros (a & mid & Ha & E)%rd_bind_ok.
      apply rd_bind_ok in E as (l' & mid' & Hl' & E).
      apply rd_ret_ok in E as [<- <-].
      apply (codec_canonical H) in Ha as [Hwa ->].
      apply IH in Hl' as [[Hwl Hlen] ->]. simpl. rewrite <-app_assoc, Hlen.
      split; [|done]. by split; [constructor|].
Qed.

Lemma vec_codec {A} {enc : A -> bytes} {dec wf} size_of :
  1 <= size_of -> codec_ok enc dec wf ->
  codec_ok (encode_vec enc) (decode_vec size_of dec) (vec_wf size_of wf).
Proof.
  intros Hsz H. pose proof max_vec_size_usize.
  unfold encode_vec, decode_vec, vec_wf, checked_mul_usize, u64_max. split.
  - intros l rest [Hl Hn]. rewrite <-app_assoc.
    assert (Z.of_nat (length l) <= MAX_VEC_SIZE) by nia.
    rewrite (codec_step varint_codec) by lia.
    destruct (Z.leb_spec (Z.of_nat (length l) * size_of) 18446744073709551615); [|lia].
    destruct (Z.ltb_spec MAX_VEC_SIZE (Z.of_nat (length l) * size_of)); [lia|].
    apply (codec_decode (decode_n_codec _ H)). split; [done|lia].
  - intros bs l rest (len & mid & Hlen & E)%rd_bind_ok.
    apply (codec_canonical varint_codec) in Hlen as [Hr ->].
    destruct (Z.leb_spec (len * size_of) 18446744073709551615); [|done].
    case_match eqn:Hlt; [done|]. apply Z.ltb_ge in Hlt.
    apply (codec_canonical (decode_n_codec _ H)) in E as [[Hwl Hl] ->].
    rewrite Hl, Z2Nat.id, <-app_assoc by lia. by repeat split.
Qed.

(** [Vec<Vec<u8>>]. *)
Definition encode_vec_vec : list bytes -> bytes := encode_vec encode_vec_u8.
Definition decode_vec_vec : Reader (list bytes) := decode_vec size_of_VecU8 decode_vec_u8.
Definition vec_vec_wf : list bytes -> Prop := vec_wf size_of_VecU8 vec_u8_wf.

Lemma vec_vec_codec : codec_ok encode_vec_vec decode_vec_vec vec_vec_wf.
Proof. apply vec_codec; [apply size_of_VecU8_pos|apply vec_u8_codec]. Qed.
End Vectors.

(** ** Types of [secp256k1-zkp] *)

(** A foreign type with a byte serialization: [serialize] and [from_slice]. *)
Record ext_type : Type :=
  { ext_car :> Type;
    ext_ser : ext_car -> bytes;
    ext_parse : bytes -> option ext_car;
    ext_parse_ser x : ext_parse (ext_ser x) = Some x }.
Arguments ext_ser {e} _.
Arguments ext_parse {e} _.
Arguments ext_parse_ser {e} _.

Lemma ext_ser_inj {T : ext_type} (x y : T) : ext_ser x = ext_ser y -> x = y.
Proof. intros H%(f_equal (@ext_parse T)). rewrite !ext_parse_ser in H. congruence. Qed.

(** The curve objects that appear on the wire.  The laws are the documented
    formats: 33-byte commitments, generators and compressed keys with their
    reserved prefixes, a 32-byte tweak, proofs that never serialize to nothing
    and that are parsed strictly. *)
Class Secp :=
  { PedersenCommitment : ext_type;
    Generator : ext_type;
    PublicKey : ext_type;
    Tweak : ext_type;
    RangeProof : ext_type;
    SurjectionProof : ext_type;
    ZERO_TWEAK : Tweak;
    pedersen_format (c : PedersenCommitment) :
      length (ext_ser c) = 33%nat /\
      exists p l, ext_ser c = p :: l /\ (b2z p = 0x08 \/ b2z p = 0x09);
    generator_format (g : Generator) :
      length (ext_ser g) = 33%nat /\
      exists p l, ext_ser g = p :: l /\ (b2z p = 0x0a \/ b2z p = 0x0b);
    pubkey_format (k : PublicKey) :
      length (ext_ser k) = 33%nat /\
      exists p l, ext_ser k = p :: l /\ (b2z p = 0x02 \/ b2z p = 0x03);
    tweak_format (t : Tweak) : length (ext_ser t) = 32%nat;
    rangeproof_format (r : RangeProof) : ext_ser r <> [];
    surjectionproof_format (s : SurjectionProof) : ext_ser s <> [];
    pedersen_strict bs (c : PedersenCommitment) : ext_parse bs = Some c -> ext_ser c = bs;
    generator_strict bs (g : Generator) : ext_parse bs = Some g -> ext_ser g = bs;
    pubkey_strict bs (k : PublicKey) :
      length bs = 33%nat -> ext_parse bs = Some k -> ext_ser k = bs;
    tweak_strict bs (t : Tweak) : ext_parse bs = Some t -> ext_ser t = bs;
    rangeproof_strict bs (r : RangeProof) : ext_parse bs = Some r -> ext_ser r = bs;
    surjectionproof_strict bs (s : SurjectionProof) : ext_parse bs = Some s -> ext_ser s = bs }.

#[export] Instance ext_eq_dec (T : ext_type) : EqDecision T.
Proof.
  intros x y. destruct (decide (ext_ser x = ext_ser y)) as [E|N].
  - left. by apply ext_ser_inj.
  - right. naive_solver.
Defined.

#[export] Instance ext_countable (T : ext_type) : Countable T :=
  inj_countable (@ext_ser T) (@ext_parse T) (@ext_parse_ser T).

Section Proofs.
Context {P : Platform} {S : Secp}.

(** [Tweak]: 32 bytes, checked by [Tweak::from_inner]. *)
Definition encode_tweak (t : Tweak) : bytes := ext_ser t.
Definition decode_tweak : Reader Tweak :=
  inner <<- read_exact 32;; rd_lift (ext_parse inner) Secp256k1zkp.

Lemma tweak_codec : codec_ok encode_tweak decode_tweak (fun _ => True).
Proof.
  unfold encode_tweak, decode_tweak. split.
  - intros t rest _. unfold rd_bind. rewrite read_exact_app by apply tweak_format.
    by rewrite ext_parse_ser.
  - intros bs t rest (inner & mid & Hi & E)%rd_bind_ok.
    apply rd_lift_ok in E as [E <-]. apply read_exact_ok in Hi as [_ ->].
    by rewrite (tweak_strict _ _ E).
Qed.

(** [impl_box_option!]: a missing proof is the empty vector. *)
Definition encode_box_option {T : ext_type} (o : option T) : bytes :=
  match o with
  | None => encode_vec_u8 []
  | Some v => encode_vec_u8 (ext_ser v)
  end.

Definition decode_box_option (T : ext_type) : Reader (option T) :=
  v <<- decode_vec_u8;;
  match v with
  | [] => rd_ret None
  | _ => x <<- rd_lift (ext_parse v) Secp256k1zkp;; rd_ret (Some x)
  end.

Definition box_option_wf {T : ext_type} (o : option T) : Prop :=
  match o with
  | None => True
  | Some v => vec_u8_wf (ext_ser v)
  end.

Lemma box_option_codec (T : ext_type) :
  (forall x : T, ext_ser x <> []) ->
  (forall bs (x : T), ext_parse bs = Some x -> ext_ser x = bs) ->
  codec_ok encode_box_option (decode_box_option T) box_option_wf.
Proof.
  intros Hne Hstrict. split.
  - intros [x|] rest Hx; unfold encode_box_option, decode_box_option.
    + rewrite (codec_step vec_u8_codec) by done.
      destruct (ext_ser x) as [|b l] eqn:E; [by destruct (Hne x)|].
      rewrite <-E. unfold rd_bind, rd_lift. by rewrite ext_parse_ser.
    + rewrite (codec_step vec_u8_codec); [done|].
      unfold vec_u8_wf. pose proof max_vec_size_usize. simpl; lia.
  - intros bs o rest (v & mid & Hv & E)%rd_bind_ok.
    apply (codec_canonical vec_u8_codec) in Hv as [Hwf ->].
    destruct v as [|b l].
    + by apply rd_ret_ok in E as [<- <-].
    + apply rd_bind_ok in E as (x & mid' & Hx & E).
      apply rd_lift_ok in Hx as [Hx <-]. apply rd_ret_ok in E as [<- <-].
      simpl. by rewrite (Hstrict _ _ Hx).
Qed.

Lemma rangeproof_codec :
  codec_ok encode_box_option (decode_box_option RangeProof) box_option_wf.
Proof. apply box_option_codec; [apply rangeproof_format|apply rangeproof_strict]. Qed.

Lemma surjectionproof_codec :
  codec_ok encode_box_option (decode_box_option SurjectionProof) box_option_wf.
Proof.
  apply box_option_codec; [apply surjectionproof_format|apply surjectionproof_strict].
Qed.
End Proofs.

(** ** A model of the parameters

    A concrete platform (a 64-bit build with the [bitcoin] crate's limit) and a
    stand-in for the curve library in which every 33-byte string with a reserved
    prefix is a curve object: the laws above are satisfiable, and the theorems
    can be evaluated. *)
Module Model.
Definition checked_type (check : bytes -> bool) : Type := { l : bytes | check l = true }.

Definition checked_parse (check : bytes -> bool) (l : bytes) : option (checked_type check) :=
  match decide (check l = true) with
  | left H => Some (exist _ l H)
  | right _ => None
  end.

Lemma checked_parse_ser check (x : checked_type check) :
  checked_parse check (proj1_sig x) = Some x.
Proof.
  destruct x as [l H]. unfold checked_parse. simpl.
  destruct (decide (check l = true)) as [H'|]; [|done]. do 2 f_equal.
  apply Eqdep_dec.UIP_dec, bool_dec.
Qed.

Definition checked_ext (check : bytes -> bool) : ext_type :=
  {| ext_car := checked_type check;
     ext_ser := @proj1_sig _ _;
     ext_parse := checked_parse check;
     ext_parse_ser := checked_parse_ser check |}.

Lemma checked_strict check bs (x : checked_ext check) : ext_parse bs = Some x -> ext_ser x = bs.
Proof.
  simpl. unfold checked_parse. destruct (decide (check bs = true)); intros; by simplify_eq.
Qed.

Definition point_check (p1 p2 : Z) (l : bytes) : bool :=
  match l with
  | p :: l => (length l =? 32)%nat && ((b2z p =? p1) || (b2z p =? p2))
  | [] => false
  end.

Lemma point_format p1 p2 (c : checked_ext (point_check p1 p2)) :
  length (ext_ser c) = 33%nat /\
  exists p l, ext_ser c = p :: l /\ (b2z p = p1 \/ b2z p = p2).
Proof.
  destruct c as [[|p l] H]; [done|]. simpl in *.
  apply andb_prop in H as [Hl%Nat.eqb_eq Hp]. split; [lia|].
  exists p, l. split; [done|]. rewrite orb_true_iff, !Z.eqb_eq in Hp. done.
Qed.

(** A scalar: 32 bytes, big endian, below the order of the curve. *)
Definition scalar_check (l : bytes) : bool :=
  (length l =? 32)%nat &&
  (le_val (rev l) <? 0xfffffffffffffffffffffffffffffffebaaedce6af48a03bbfd25e8cd0364141).
Definition nonempty (l : bytes) : bool := negb (length l =? 0)%nat.

Lemma nonempty_format (c : checked_ext nonempty) : ext_ser c <> [].
Proof. destruct c as [[|b l] H]; done. Qed.

Program Definition Secp_model : Secp :=
  {| PedersenCommitment := checked_ext (point_check 0x08 0x09);
     Generator := checked_ext (point_check 0x0a 0x0b);
     PublicKey := checked_ext (point_check 0x02 0x03);
     Tweak := checked_ext scalar_check;
     RangeProof := checked_ext nonempty;
     SurjectionProof := checked_ext nonempty;
     ZERO_TWEAK := exist _ (replicate 32 Byte.x00) eq_refl;
     pedersen_format := point_format 0x08 0x09;
     generator_format := point_format 0x0a 0x0b;
     pubkey_format := point_format 0x02 0x03;
     rangeproof_format := nonempty_format;
     surjectionproof_format := nonempty_format;
     pedersen_strict := checked_strict _;
     generator_strict := checked_strict _;
     pubkey_strict bs k _ := checked_strict _ bs k;
     tweak_strict := checked_strict _;
     rangeproof_strict := checked_strict _;
     surjectionproof_strict := checked_strict _ |}.
Next Obligation. intros [l H]. by pose proof (proj1 (andb_prop _ _ H)) as ?%Nat.eqb_eq. Qed.

Program Definition Platform_model : Platform :=
  {| MAX_VEC_SIZE := 4000000;
     size_of_TxIn := 336;
     size_of_TxOut := 176;
     size_of_Transaction := 64;
     size_of_VecU8 := 24 |}.
Solve All Obligations with lia.
End Model.
