(* ===== verification/Hex.v ===== *)
(** * Hexadecimal text

    [rust-elements/src/hex.rs]: [to_hex] of a byte slice and [from_hex] into a
    byte vector or a fixed-size array.  A [&str] is the list of its UTF-8 bytes,
    which is how [HexIterator] reads it. *)

From S2P Require Import Prelude Encode.

Inductive hex_error :=
| InvalidChar (c : Z)
| OddLengthString (len : Z)
| InvalidLength (expected got : Z).

(** [{:x}] of a nibble, and [char::to_digit(16)] on a byte. *)
Definition hex_digit (n : Z) : byte := z2b (if n <? 10 then 48 + n else 87 + n).

Definition to_digit (c : Z) : option Z :=
  if (48 <=? c) && (c <=? 57) then Some (c - 48)
  else if (97 <=? c) && (c <=? 102) then Some (c - 87)
  else if (65 <=? c) && (c <=? 70) then Some (c - 55)
  else None.

Definition to_hex (data : bytes) : bytes :=
  concat (map (fun ch => [hex_digit (b2z ch / 16); hex_digit (b2z ch mod 16)]) data).

Definition chars_to_hex (hi lo : byte) : result byte hex_error :=
  let? hih := ok_or (to_digit (b2z hi)) (InvalidChar (b2z hi)) in
  let? loh := ok_or (to_digit (b2z lo)) (InvalidChar (b2z lo)) in
  Ok (z2b (wrap_u8 (Z.shiftl hih 4 + loh))).

(** The iterator collected: the first error wins. *)
Fixpoint hex_collect (s : bytes) : result bytes hex_error :=
  match s with
  | hi :: lo :: s =>
      let? b := chars_to_hex hi lo in
      let? l := hex_collect s in
      Ok (b :: l)
  | _ => Ok []
  end.

Definition from_hex (s : bytes) : result bytes hex_error :=
  if negb (length s mod 2 =? 0)%nat then Err (OddLengthString (Z.of_nat (length s)))
  else hex_collect s.

(** [impl_fromhex_array!]: the length is checked before any character. *)
Definition from_hex_array (len : nat) (s : bytes) : result bytes hex_error :=
  if negb (length s mod 2 =? 0)%nat then Err (OddLengthString (Z.of_nat (length s)))
  else if (length s / 2 =? len)%nat then hex_collect s
  else Err (InvalidLength (Z.of_nat (2 * len)) (Z.of_nat (2 * (length s / 2)))).

(** ASCII lower-casing of hexadecimal digits. *)
Definition lower (c : byte) : byte :=
  if (65 <=? b2z c) && (b2z c <=? 90) then z2b (b2z c + 32) else c.

Lemma chars_to_hex_digits (b : byte) :
  chars_to_hex (hex_digit (b2z b / 16)) (hex_digit (b2z b mod 16)) = Ok b.
Proof. by destruct b. Qed.

Lemma to_digit_lower (c : byte) n :
  to_digit (b2z c) = Some n -> lower c = hex_digit n /\ 0 <= n < 16.
Proof. destruct c; intros Hn; vm_compute in Hn; simplify_eq; by vm_compute. Qed.

Lemma chars_to_hex_ok hi lo b :
  chars_to_hex hi lo = Ok b ->
  [lower hi; lower lo] = [hex_digit (b2z b / 16); hex_digit (b2z b mod 16)].
Proof.
  intros (h & Hh%ok_or_ok & (l & Hl%ok_or_ok & [= <-])%rbind_ok)%rbind_ok.
  apply to_digit_lower in Hh as [-> Hh]. apply to_digit_lower in Hl as [-> Hl].
  unfold wrap_u8. rewrite Z.shiftl_mul_pow2, Z.mod_small, b2z_z2b_small by lia.
  change (2 ^ 4) with 16. replace ((h * 16 + l) / 16) with h by (apply Z.div_unique with l; lia).
  replace ((h * 16 + l) mod 16) with l by (apply Z.mod_unique with h; lia). done.
Qed.

Lemma hex_collect_to_hex d : hex_collect (to_hex d) = Ok d.
Proof.
  unfold to_hex. induction d as [|b d IH]; [done|].
  change (concat _) with (hex_digit (b2z b / 16) :: hex_digit (b2z b mod 16) ::
    concat (map (fun ch => [hex_digit (b2z ch / 16); hex_digit (b2z ch mod 16)]) d)).
  cbn [hex_collect]. rewrite chars_to_hex_digits. cbn [rbind]. by rewrite IH.
Qed.

Lemma length_to_hex d : length (to_hex d) = (2 * length d)%nat.
Proof. unfold to_hex. induction d as [|b d IH]; simpl in *; lia. Qed.

Lemma hex_collect_ok n s d :
  length s = (2 * n)%nat -> hex_collect s = Ok d -> map lower s = to_hex d.
Proof.
  revert s d. induction n as [|n IH]; intros s d Hl.
  { destruct s; [|simpl in Hl; lia]. by intros [= <-]. }
  destruct s as [|hi [|lo s]]; [simpl in Hl; lia|simpl in Hl; lia|].
  cbn [hex_collect]. intros (b & Hb & (l & Hs & [= <-])%rbind_ok)%rbind_ok.
  apply chars_to_hex_ok in Hb. apply IH in Hs; [|simpl in Hl; lia].
  injection Hb as Eh El. unfold to_hex in *. cbn [map concat app]. by rewrite Hs, Eh, El.
Qed.

Lemma hex_roundtrip_lower s d : from_hex s = Ok d -> map lower s = to_hex d.
Proof.
  unfold from_hex. destruct (Nat.eqb_spec (length s mod 2) 0) as [Hm|]; [|done]. simpl.
  apply (hex_collect_ok (length s / 2)). pose proof (Nat.div_mod (length s) 2). lia.
Qed.

(** ** Claims *)

(** Hexadecimal text: parsing what [to_hex] prints gives the bytes back, and
    whatever [from_hex] accepts is, up to the case of its digits, what [to_hex]
    prints for the bytes it returns. *)
Theorem hex_roundtrip (s d : bytes) :
  from_hex (to_hex d) = Ok d /\ (from_hex s = Ok d -> map lower s = to_hex d).
Proof.
  unfold from_hex. split.
  - rewrite length_to_hex, Nat.mul_comm, Nat.Div0.mod_mul. apply hex_collect_to_hex.
  - apply hex_roundtrip_lower.
Qed.

Lemma hex_roundtrip_witness : map lower [Byte.x41; Byte.x66] = to_hex [Byte.xaf].
Proof. apply (proj2 (hex_roundtrip [Byte.x41; Byte.x66] [Byte.xaf])). reflexivity. Defined.
