(* ===== verification/Script.v ===== *)
(** * Scripts

    [rust-elements/src/opcodes.rs] (opcode numbers and their classification)
    and [rust-elements/src/script.rs]: script integers, the script [Builder],
    the [Instructions] iterator, and the standard script templates and tests. *)

From S2P Require Import Prelude Encode.

(** [struct Script(Box<[u8]>)]. *)
Abbreviation Script := bytes.

(** ** Opcodes *)

Definition OP_PUSHBYTES_0 : Z := 0x00.
Definition OP_PUSHBYTES_2 : Z := 0x02.
Definition OP_PUSHBYTES_20 : Z := 0x14.
Definition OP_PUSHBYTES_32 : Z := 0x20.
Definition OP_PUSHBYTES_33 : Z := 0x21.
Definition OP_PUSHBYTES_40 : Z := 0x28.
Definition OP_PUSHBYTES_65 : Z := 0x41.
Definition OP_PUSHBYTES_75 : Z := 0x4b.
Definition OP_PUSHDATA1 : Z := 0x4c.
Definition OP_PUSHDATA2 : Z := 0x4d.
Definition OP_PUSHDATA4 : Z := 0x4e.
Definition OP_PUSHNUM_NEG1 : Z := 0x4f.
Definition OP_RESERVED : Z := 0x50.
Definition OP_PUSHNUM_1 : Z := 0x51.
Definition OP_PUSHNUM_16 : Z := 0x60.
Definition OP_NOP : Z := 0x61.
Definition OP_VER : Z := 0x62.
Definition OP_IF : Z := 0x63.
Definition OP_VERIF : Z := 0x65.
Definition OP_VERNOTIF : Z := 0x66.
Definition OP_ELSE : Z := 0x67.
Definition OP_ENDIF : Z := 0x68.
Definition OP_VERIFY : Z := 0x69.
Definition OP_RETURN : Z := 0x6a.
Definition OP_DROP : Z := 0x75.
Definition OP_DUP : Z := 0x76.
Definition OP_SIZE : Z := 0x82.
Definition OP_EQUAL : Z := 0x87.
Definition OP_EQUALVERIFY : Z := 0x88.
Definition OP_RESERVED1 : Z := 0x89.
Definition OP_RESERVED2 : Z := 0x8a.
Definition OP_NUMEQUAL : Z := 0x9c.
Definition OP_NUMEQUALVERIFY : Z := 0x9d.
Definition OP_SHA256 : Z := 0xa8.
Definition OP_HASH160 : Z := 0xa9.
Definition OP_CHECKSIG : Z := 0xac.
Definition OP_CHECKSIGVERIFY : Z := 0xad.
Definition OP_CHECKMULTISIG : Z := 0xae.
Definition OP_CHECKMULTISIGVERIFY : Z := 0xaf.
Definition OP_NOP1 : Z := 0xb0.
Definition OP_CLTV : Z := 0xb1.
Definition OP_CSV : Z := 0xb2.
Definition OP_NOP10 : Z := 0xb9.
Definition OP_CHECKSIGADD : Z := 0xba.
Definition OP_CHECKSIGFROMSTACK : Z := 0xc1.
Definition OP_CHECKSIGFROMSTACKVERIFY : Z := 0xc2.
Definition OP_INVALIDOPCODE : Z := 0xff.
Definition OP_FALSE : Z := OP_PUSHBYTES_0.
Definition OP_TRUE : Z := OP_PUSHNUM_1.

Inductive ClassifyContext := TapScript | Legacy.

Inductive OpClass : Type :=
| PushNum (n : Z)
| PushBytesClass (n : Z)
| ReturnOp
| SuccessOp
| IllegalOp
| NoOp
| Ordinary (code : Z).

(** The codes of the [ordinary_opcode!] list, in its order. *)
Definition ordinary_codes : list Z :=
  [ 0x4c; 0x4d; 0x4e;                                    (* pushdata *)
    0x63; 0x64; 0x67; 0x68; 0x69;                        (* control flow *)
    0x6b; 0x6c; 0x6d; 0x6e; 0x6f; 0x70; 0x71; 0x72;      (* stack *)
    0x75; 0x76; 0x77; 0x78; 0x79; 0x7a; 0x7b; 0x7c; 0x7d;
    0x73; 0x74; 0x82;
    0x87; 0x88;                                          (* equality *)
    0x8b; 0x8c; 0x8f; 0x90; 0x91; 0x92;                  (* arithmetic *)
    0x93; 0x94; 0x9a; 0x9b;
    0x9c; 0x9d; 0x9e; 0x9f;
    0xa0; 0xa1; 0xa2;
    0xa3; 0xa4; 0xa5;
    0xa6; 0xa7; 0xa8; 0xa9; 0xaa;                        (* crypto *)
    0xab; 0xac; 0xad;
    0xae; 0xaf;
    0x7e; 0x7f; 0xc3; 0x80; 0x81;                        (* elements *)
    0x83; 0x84; 0x85; 0x86; 0x98; 0x99;
    0xc1; 0xc2 ].

(** [Ordinary::try_from_all]. *)
Definition try_from_all (code : Z) : option Z :=
  if bool_decide (code ∈ ordinary_codes) then Some code else None.

(** The opcodes that are illegal in the legacy context only. *)
Definition legacy_illegal_codes : list Z :=
  [0x7e; 0x7f; 0x80; 0x81; 0x83; 0x84; 0x85; 0x86; 0x8d; 0x8e; 0x95; 0x96; 0x97;
   0x98; 0x99].

Definition is_legacy (ctx : ClassifyContext) : bool :=
  match ctx with Legacy => true | TapScript => false end.

(** [All::classify]; [None] is the panic of [try_from_all(..).unwrap()]. *)
Definition classify (ctx : ClassifyContext) (code : Z) : option OpClass :=
  if (code =? OP_VERIF) || (code =? OP_VERNOTIF) || (code =? OP_INVALIDOPCODE)
  then Some IllegalOp
  else if bool_decide (code ∈ legacy_illegal_codes) && is_legacy ctx then Some IllegalOp
  else if negb (is_legacy ctx) &&
          ((code =? 80) || (code =? 98)
           || ((137 <=? code) && (code <=? 138))
           || ((141 <=? code) && (code <=? 142))
           || ((149 <=? code) && (code <=? 151))
           || ((187 <=? code) && (code <=? 191))
           || ((229 <=? code) && (code <=? 254))) then Some SuccessOp
  else if code =? OP_NOP then Some NoOp
  else if (OP_NOP1 <=? code) && (code <=? OP_NOP10) then Some NoOp
  else if code =? OP_RETURN then Some ReturnOp
  else if ((code =? OP_RESERVED) || (code =? OP_RESERVED1) || (code =? OP_RESERVED2)
           || (code =? OP_VER)) && is_legacy ctx then Some ReturnOp
  else if is_legacy ctx && (OP_CHECKSIGADD <=? code) then Some ReturnOp
  else if negb (is_legacy ctx) &&
          ((code =? OP_CHECKMULTISIG) || (code =? OP_CHECKMULTISIGVERIFY))
  then Some ReturnOp
  else if code =? OP_PUSHNUM_NEG1 then Some (PushNum (-1))
  else if (OP_PUSHNUM_1 <=? code) && (code <=? OP_PUSHNUM_16)
  then Some (PushNum (1 + code - OP_PUSHNUM_1))
  else if code <=? OP_PUSHBYTES_75 then Some (PushBytesClass code)
  else match try_from_all code with
       | Some o => Some (Ordinary o)
       | None => None
       end.

(** ** Script integers *)

Inductive script_error := NonMinimalPush | EarlyEndOfScript | NumericOverflow.

(** [while abs > 0xFF { v.push(abs & 0xFF); abs >>= 8; }]; a [usize] needs at
    most eight rounds. *)
Fixpoint scriptint_loop (fuel : nat) (abs : Z) (v : bytes) : Z * bytes :=
  match fuel with
  | O => (abs, v)
  | S fuel =>
      if 0xFF <? abs
      then scriptint_loop fuel (Z.shiftr abs 8) (v ++ [z2b (Z.land abs 0xFF)])
      else (abs, v)
  end.

(** [build_scriptint(n: i64)]. *)
Definition build_scriptint (n : Z) : bytes :=
  if n =? 0 then []
  else
    let neg := n <? 0 in
    let abs := wrap_u64 (if neg then wrap_i64 (- n) else n) in
    let '(abs, v) := scriptint_loop 8 abs [] in
    if negb (Z.land abs 0x80 =? 0)
    then v ++ [z2b abs] ++ [if neg then z2b 0x80 else z2b 0]
    else v ++ [z2b (Z.lor abs (if neg then 0x80 else 0))].

(** [read_scriptint]. *)
Definition read_scriptint (v : bytes) : result Z script_error :=
  let len := length v in
  if (len =? 0)%nat then Ok 0
  else if (4 <? len)%nat then Err NumericOverflow
  else
    let '(ret, sh) :=
      fold_left (fun '(acc, sh) n => (acc + Z.shiftl (b2z n) sh, sh + 8)) v (0, 0) in
    let last := b2z (List.nth (len - 1) v Byte.x00) in
    if negb (Z.land last 0x80 =? 0)
    then Ok (- Z.land ret (Z.shiftl 1 (sh - 1) - 1))
    else Ok ret.

(** [read_scriptbool]. *)
Definition read_scriptbool (v : bytes) : bool :=
  match rev v with
  | [] => false
  | last :: front =>
      negb (((b2z last =? 0) || (b2z last =? 0x80))
            && forallb (fun w => b2z w =? 0) front)
  end.

(** [read_uint]. *)
Fixpoint read_uint_loop (i : Z) (l : bytes) : Z :=
  match l with
  | [] => 0
  | item :: l => Z.shiftl (b2z item) (i * 8) + read_uint_loop (i + 1) l
  end.

Definition read_uint (data : bytes) (size : nat) : result Z script_error :=
  if (length data <? size)%nat then Err EarlyEndOfScript
  else Ok (read_uint_loop 0 (take size data)).

(** ** The builder *)

Record Builder := mkBuilder { b_script : bytes; b_last : option Z }.

Definition Builder_new : Builder := mkBuilder [] None.

Definition push_opcode (data : Z) (b : Builder) : Builder :=
  mkBuilder (b_script b ++ [z2b data]) (Some data).

(** The push opcode and length prefix [push_slice] writes before the data;
    [None] is the panic on objects of four gigabytes and more. *)
Definition push_prefix (n : Z) : option bytes :=
  if n <? OP_PUSHDATA1 then Some [z2b n]
  else if n <? 0x100 then Some [z2b OP_PUSHDATA1; z2b n]
  else if n <? 0x10000 then
    Some [z2b OP_PUSHDATA2; z2b (n mod 0x100); z2b (n / 0x100)]
  else if n <? 0x100000000 then
    Some [z2b OP_PUSHDATA4; z2b (n mod 0x100); z2b ((n / 0x100) mod 0x100);
          z2b ((n / 0x10000) mod 0x100); z2b (n / 0x1000000)]
  else None.

Definition push_slice (data : bytes) (b : Builder) : option Builder :=
  prefix ← push_prefix (Z.of_nat (length data));
  Some (mkBuilder (b_script b ++ prefix ++ data) None).

Definition push_scriptint (data : Z) (b : Builder) : option Builder :=
  push_slice (build_scriptint data) b.

Definition push_int (data : Z) (b : Builder) : option Builder :=
  if (data =? -1) || ((1 <=? data) && (data <=? 16))
  then Some (push_opcode (wrap_u8 (data - 1 + OP_TRUE)) b)
  else if data =? 0 then Some (push_opcode OP_FALSE b)
  else push_scriptint data b.

(** [push_verify]: fold a preceding opcode that has a [VERIFY] form. *)
Definition push_verify (b : Builder) : Builder :=
  let popped := mkBuilder (removelast (b_script b)) (b_last b) in
  match b_last b with
  | Some op =>
      if op =? OP_EQUAL then push_opcode OP_EQUALVERIFY popped
      else if op =? OP_NUMEQUAL then push_opcode OP_NUMEQUALVERIFY popped
      else if op =? OP_CHECKSIG then push_opcode OP_CHECKSIGVERIFY popped
      else if op =? OP_CHECKMULTISIG then push_opcode OP_CHECKMULTISIGVERIFY popped
      else if op =? OP_CHECKSIGFROMSTACK then push_opcode OP_CHECKSIGFROMSTACKVERIFY popped
      else push_opcode OP_VERIFY b
  | None => push_opcode OP_VERIFY b
  end.

Definition into_script (b : Builder) : Script := b_script b.

(** ** The instruction iterator *)

Inductive Instruction : Type :=
| PushBytes (data : bytes)
| Op (code : Z).

Definition instr_push_bytes (i : Instruction) : option bytes :=
  match i with PushBytes p => Some p | Op _ => None end.
Definition instr_op (i : Instruction) : option Z :=
  match i with Op o => Some o | PushBytes _ => None end.

(** The arms for [OP_PUSHDATA1/2/4]: [w] length bytes, [lo] the smallest length
    that needs this form. *)
Definition next_pushdata (enforce_minimal : bool) (w : nat) (lo : Z) (data : bytes)
  : option (result Instruction script_error) * bytes :=
  if (length data <? S w)%nat then (Some (Err EarlyEndOfScript), [])
  else match read_uint (drop 1 data) w with
       | Err e => (Some (Err e), [])
       | Ok n =>
           let short := (Z.of_nat (length data) <? n + 1 + Z.of_nat w) in
           let nonminimal := enforce_minimal && (n <? lo) in
           let n := Z.to_nat n in
           if (w =? 1)%nat && short then (Some (Err EarlyEndOfScript), [])
           else if nonminimal then (Some (Err NonMinimalPush), [])
           else if short then (Some (Err EarlyEndOfScript), [])
           else (Some (Ok (PushBytes (take n (drop (S w) data)))), drop (n + S w) data)
       end.

(** [Instructions::next]: the item produced and the data left. *)
Definition next (enforce_minimal : bool) (data : bytes)
  : option (result Instruction script_error) * bytes :=
  match data with
  | [] => (None, [])
  | first :: _ =>
      match classify Legacy (b2z first) with
      | Some (PushBytesClass n) =>
          let n := Z.to_nat n in
          if (length data <? n + 1)%nat then (Some (Err EarlyEndOfScript), [])
          else if enforce_minimal && (n =? 1)%nat &&
                  (let d1 := b2z (List.nth 1 data Byte.x00) in
                   (d1 =? 0x81) || ((0 <? d1) && (d1 <=? 16)))
          then (Some (Err NonMinimalPush), [])
          else (Some (Ok (PushBytes (take n (drop 1 data)))), drop (n + 1) data)
      | Some (Ordinary code) =>
          if code =? OP_PUSHDATA1 then next_pushdata enforce_minimal 1 76 data
          else if code =? OP_PUSHDATA2 then next_pushdata enforce_minimal 2 0x100 data
          else if code =? OP_PUSHDATA4 then next_pushdata enforce_minimal 4 0x10000 data
          else (Some (Ok (Op (b2z first))), drop 1 data)
      | _ => (Some (Ok (Op (b2z first))), drop 1 data)
      end
  end.

(** The iterator run to its end.  Every call that yields an item consumes at
    least one byte, so [length data] calls exhaust it ([collect_end] below). *)
Fixpoint collect (fuel : nat) (enforce_minimal : bool) (data : bytes)
  : list (result Instruction script_error) :=
  match fuel with
  | O => []
  | S fuel =>
      match next enforce_minimal data with
      | (None, _) => []
      | (Some i, rest) => i :: collect fuel enforce_minimal rest
      end
  end.

Definition instructions (s : Script) : list (result Instruction script_error) :=
  collect (S (length s)) false s.
Definition instructions_minimal (s : Script) : list (result Instruction script_error) :=
  collect (S (length s)) true s.

(** ** Classification *)

(** In the legacy context, the one the iterator uses, every opcode is
    classified: the [unwrap] cannot panic. *)
Lemma classify_legacy_total (b : byte) : is_Some (classify Legacy (b2z b)).
Proof. destruct b; vm_compute; eauto. Qed.

(** The opcodes for which [classify] panics in the tapscript context. *)
Definition tapscript_panics : list Z :=
  filter (fun c => classify TapScript c = None) (Z.of_nat <$> seq 0 256).

(** ** Script integers, read back *)

Lemma scriptint_loop_spec fuel abs v :
  0 <= abs < 256 ^ Z.of_nat (S fuel) ->
  exists k : nat,
    scriptint_loop fuel abs v = (abs / 256 ^ Z.of_nat k, v ++ le_bytes k abs) /\
    0 <= abs / 256 ^ Z.of_nat k <= 255 /\
    (0 < abs -> 0 < abs / 256 ^ Z.of_nat k).
Proof.
  revert abs v. induction fuel as [|fuel IH]; intros abs v Habs; simpl.
  - exists 0%nat. simpl. rewrite Z.div_1_r, app_nil_r. change (256 ^ Z.of_nat 1) with 256 in Habs.
    repeat split; lia.
  - destruct (Z.ltb_spec 255 abs) as [Hlt|Hge].
    + rewrite Z.shiftr_div_pow2 by lia. change (2 ^ 8) with 256.
      rewrite pow256_S in Habs.
      destruct (IH (abs / 256) (v ++ [z2b (Z.land abs 255)])) as (k & E & Hr & Hp).
      { split; [apply Z.div_pos; lia|apply Z.div_lt_upper_bound; lia]. }
      rewrite Z.div_div in E, Hr, Hp by lia.
      exists (S k). rewrite pow256_S, E. simpl. rewrite <-app_assoc. simpl.
      split; [|split; [done|]].
      * assert (z2b (Z.land abs 255) = z2b abs) as ->; [|done].
        change 255 with (Z.ones 8). rewrite Z.land_ones by lia.
        change (2 ^ 8) with 256. unfold z2b. by rewrite Z.mod_mod by lia.
      * intros _. apply Hp, Z.div_str_pos. lia.
    + exists 0%nat. simpl. rewrite Z.div_1_r, app_nil_r. repeat split; lia.
Qed.

(** The magnitude and sign bytes [build_scriptint] emits. *)
Lemma build_scriptint_shape n :
  n <> 0 -> Z.abs n < 2 ^ 63 ->
  exists (k : nat) (a : Z),
    a = Z.abs n / 256 ^ Z.of_nat k /\ 1 <= a <= 255 /\
    Z.abs n = Z.abs n mod 256 ^ Z.of_nat k + 256 ^ Z.of_nat k * a /\
    build_scriptint n =
      le_bytes k (Z.abs n) ++
      (if 128 <=? a then [z2b a; if n <? 0 then z2b 0x80 else z2b 0]
       else [z2b (a + if n <? 0 then 128 else 0)]).
Proof.
  intros Hn Hb. unfold build_scriptint.
  destruct (Z.eqb_spec n 0) as [?|_]; [lia|].
  assert (Habs : wrap_u64 (if n <? 0 then wrap_i64 (- n) else n) = Z.abs n).
  { unfold wrap_u64, wrap_i64. destruct (Z.ltb_spec n 0).
    - rewrite (Z.mod_small (- n + _)) by lia. rewrite Z.mod_small; lia.
    - rewrite Z.mod_small; lia. }
  rewrite Habs.
  destruct (scriptint_loop_spec 8 (Z.abs n) []) as (k & -> & Hr & Hp).
  { split; [lia|]. change (256 ^ Z.of_nat 9) with (2 ^ 72). lia. }
  exists k, (Z.abs n / 256 ^ Z.of_nat k). split; [done|].
  split; [split; [|lia]; specialize (Hp ltac:(lia)); lia|].
  split.
  { pose proof (Z.div_mod (Z.abs n) (256 ^ Z.of_nat k) ltac:(apply Z.pow_nonzero; lia)). lia. }
  rewrite app_nil_l.
  set (a := Z.abs n / 256 ^ Z.of_nat k) in *.
  assert (Hland : forall x, is_u8 x -> (Z.land x 128 =? 0) = negb (128 <=? x) /\
            Z.lor x 128 = if 128 <=? x then x else x + 128).
  { intros x Hx. rewrite <-(b2z_z2b_small x Hx).
    generalize (z2b x) as b. by intros []. }
  destruct (Hland a ltac:(lia)) as [-> Hlor]. rewrite negb_involutive.
  destruct (128 <=? a) eqn:E128; [done|].
  destruct (n <? 0); [by rewrite Hlor|].
  by rewrite Z.lor_0_r, Z.add_0_r.
Qed.

Lemma fold_scriptint v acc sh :
  0 <= sh ->
  fold_left (fun '(acc, sh) n => (acc + Z.shiftl (b2z n) sh, sh + 8)) v (acc, sh) =
  (acc + 2 ^ sh * le_val v, sh + 8 * Z.of_nat (length v)).
Proof.
  revert acc sh. induction v as [|b v IH]; intros acc sh Hsh; simpl fold_left.
  - simpl. f_equal; lia.
  - rewrite IH by lia. simpl le_val. simpl length.
    rewrite Z.shiftl_mul_pow2, Z.pow_add_r by lia. change (2 ^ 8) with 256.
    f_equal; lia.
Qed.

Lemma pow256_pow2 (k : nat) : 256 ^ Z.of_nat k = 2 ^ (8 * Z.of_nat k).
Proof. change 256 with (2 ^ 8). by rewrite <-Z.pow_mul_r by lia. Qed.

(** Reading a buffer whose last byte carries the sign. *)
Lemma read_scriptint_spec (v : bytes) (top : byte) (sgn : bool) (mag : Z) :
  (length v < 4)%nat -> is_u8 (mag + if sgn then 128 else 0) -> 0 <= mag < 128 ->
  b2z top = mag + (if sgn then 128 else 0) ->
  read_scriptint (v ++ [top]) =
  Ok ((if sgn then -1 else 1) * (le_val v + 256 ^ Z.of_nat (length v) * mag)).
Proof.
  intros Hlen Hr Hmag Htop. unfold read_scriptint. rewrite length_app. simpl length.
  destruct (Nat.eqb_spec (length v + 1) 0) as [?|_]; [lia|].
  destruct (Nat.ltb_spec 4 (length v + 1)) as [?|_]; [lia|].
  rewrite fold_scriptint by lia. cbv beta zeta iota.
  rewrite app_nth2, Nat.add_sub, Nat.sub_diag by lia. simpl List.nth.
  rewrite le_val_app. simpl le_val. rewrite Htop.
  assert (Hland : (Z.land (b2z top) 128 =? 0) = negb (128 <=? b2z top)).
  { generalize top as b. by intros []. }
  rewrite Htop in Hland. rewrite Hland, negb_involutive. rewrite length_app. simpl length.
  pose proof (le_val_nonneg v). pose proof (le_val_bound v) as Hb.
  destruct sgn.
  - destruct (Z.leb_spec 128 (mag + 128)); [|lia].
    assert (Hsh : 0 + 8 * Z.of_nat (length v + 1) - 1 = 8 * Z.of_nat (length v) + 7) by lia.
    rewrite Hsh, Z.shiftl_1_l, Z.sub_1_r, <-Z.ones_equiv, Z.land_ones by lia.
    rewrite Z.pow_add_r, <-pow256_pow2 by lia. change (2 ^ 7) with 128.
    change (2 ^ 0) with 1. f_equal.
    replace (0 + 1 * _) with
      (le_val v + 256 ^ Z.of_nat (length v) * mag + 1 * (256 ^ Z.of_nat (length v) * 128))
      by lia.
    rewrite Z.mod_add by lia. rewrite Z.mod_small; nia.
  - destruct (Z.leb_spec 128 (mag + 0)); [lia|]. change (2 ^ 0) with 1. f_equal. lia.
Qed.

Lemma build_scriptint_0 : build_scriptint 0 = [].
Proof. done. Qed.

Lemma read_build_scriptint n :
  Z.abs n < 2 ^ 63 ->
  read_scriptint (build_scriptint n) =
  if Z.abs n <? 2 ^ 31 then Ok n else Err NumericOverflow.
Proof.
  intros Hb. destruct (decide (n = 0)) as [->|Hn]; [done|].
  destruct (build_scriptint_shape n Hn Hb) as (k & a & Ha & Hr & Hdm & ->).
  pose proof (Z.mod_pos_bound (Z.abs n) (256 ^ Z.of_nat k) ltac:(lia)) as Hmod.
  assert (Hk : (k <= 2 \/ k = 3 \/ 4 <= k)%nat) by lia.
  assert (Hpow : (k <= 2)%nat -> 256 ^ Z.of_nat k <= 256 ^ 2)
    by (intros; apply Z.pow_le_mono_r; lia).
  assert (Hpow' : (4 <= k)%nat -> 256 ^ 4 <= 256 ^ Z.of_nat k)
    by (intros; apply Z.pow_le_mono_r; lia).
  assert (Hpow3 : k = 3%nat -> 256 ^ Z.of_nat k = 256 ^ 3) by (intros ->; done).
  assert (Hov : forall l, (4 < length l)%nat -> read_scriptint l = Err NumericOverflow).
  { intros l Hl. unfold read_scriptint.
    destruct (Nat.eqb_spec (length l) 0); [lia|].
    by destruct (Nat.ltb_spec 4 (length l)); [|lia]. }
  destruct (Z.leb_spec 128 a) as [H128|H128].
  - destruct (Z.ltb_spec (Z.abs n) (2 ^ 31)) as [Hs|Hs].
    + assert (k <= 2)%nat by (destruct (decide (k <= 2)%nat); [done|nia]).
      change [z2b a; if n <? 0 then z2b 128 else z2b 0]
        with ([z2b a] ++ [if n <? 0 then z2b 128 else z2b 0]). rewrite app_assoc.
      rewrite (read_scriptint_spec _ _ (n <? 0) 0).
      * rewrite length_app, length_le_bytes, le_val_app, le_bytes_mod, length_le_bytes.
        simpl le_val. rewrite b2z_z2b_small by lia.
        destruct (Z.ltb_spec n 0); f_equal; lia.
      * autorewrite with swk_len. simpl. lia.
      * destruct (n <? 0); lia.
      * lia.
      * by destruct (n <? 0).
    + apply Hov. autorewrite with swk_len. simpl.
      destruct Hk as [?|[->|?]]; [nia|lia|lia].
  - destruct (Z.ltb_spec (Z.abs n) (2 ^ 31)) as [Hs|Hs].
    + assert (k <= 3)%nat by (destruct (decide (k <= 3)%nat); [done|nia]).
      rewrite (read_scriptint_spec _ _ (n <? 0) a).
      * rewrite length_le_bytes, le_bytes_mod. destruct (Z.ltb_spec n 0); f_equal; lia.
      * autorewrite with swk_len. lia.
      * destruct (n <? 0); lia.
      * lia.
      * apply b2z_z2b_small. destruct (n <? 0); lia.
    + apply Hov. autorewrite with swk_len. simpl.
      destruct Hk as [?|[->|?]]; nia.
Qed.

(** ** The iterator terminates and inverts the builder *)

Lemma drop_shorter {A} (n : nat) (l : list A) :
  (0 < n)%nat -> l <> [] -> (length (drop n l) < length l)%nat.
Proof. intros Hn Hl. rewrite length_drop. destruct l; [done|]. simpl. lia. Qed.

Lemma next_pushdata_consumes m w lo data :
  data <> [] -> (length (snd (next_pushdata m w lo data)) < length data)%nat.
Proof.
  intros Hd. assert (0 < length data)%nat by (destruct data; simpl; [done|lia]).
  unfold next_pushdata. repeat (case_match; simpl; try lia).
  apply drop_shorter; [lia|done].
Qed.

(** Every call on a non-empty rest consumes at least one byte. *)
Lemma next_consumes m data :
  data <> [] -> (length (snd (next m data)) < length data)%nat.
Proof.
  intros Hd. assert (0 < length data)%nat by (destruct data; simpl; [done|lia]).
  unfold next. destruct data as [|b data]; [done|].
  pose proof (drop_shorter 1 (b :: data) ltac:(lia) Hd).
  repeat (case_match; try (simpl; lia); try (by apply next_pushdata_consumes);
          try assumption).
  simpl snd. apply drop_shorter; [lia|done].
Qed.

Lemma next_nil m : next m [] = (None, []).
Proof. done. Qed.

Lemma next_none m data : fst (next m data) = None -> data = [].
Proof.
  unfold next, next_pushdata. destruct data; [done|].
  repeat (case_match; try done).
Qed.

(** More fuel than bytes is enough: the result no longer depends on it. *)
Lemma collect_fuel m f1 f2 data :
  (length data < f1)%nat -> (length data < f2)%nat ->
  collect f1 m data = collect f2 m data.
Proof.
  revert f2 data. induction f1 as [|f1 IH]; intros f2 data H1 H2; [lia|].
  destruct f2 as [|f2]; [lia|]. simpl.
  destruct (next m data) as [[i|] rest] eqn:E; [|done].
  assert (Hd : data <> []) by (intros ->; done).
  pose proof (next_consumes m data Hd) as Hc. rewrite E in Hc. simpl in Hc.
  f_equal. apply IH; lia.
Qed.

Definition collect_all (m : bool) (data : bytes) := collect (S (length data)) m data.

Lemma collect_step m data i rest :
  next m data = (Some i, rest) -> collect_all m data = i :: collect_all m rest.
Proof.
  intros E. unfold collect_all at 1. simpl. rewrite E. f_equal.
  assert (Hd : data <> []) by (intros ->; done).
  pose proof (next_consumes m data Hd) as Hc. rewrite E in Hc. simpl in Hc.
  apply collect_fuel; lia.
Qed.

(** Opcodes that are not pushes of data. *)
Definition plain_op (c : Z) : Prop := 0x4f <= c < 256.

Lemma classify_plain (b : byte) :
  0x4f <= b2z b ->
  match classify Legacy (b2z b) with
  | Some (PushBytesClass _) => False
  | Some (Ordinary c) => c <> OP_PUSHDATA1 /\ c <> OP_PUSHDATA2 /\ c <> OP_PUSHDATA4
  | _ => True
  end.
Proof. intros H. destruct b; try (exfalso; by apply H); vm_compute; repeat split; done. Qed.

Lemma next_op m c rest :
  plain_op c -> next m (z2b c :: rest) = (Some (Ok (Op c)), rest).
Proof.
  intros Hc. unfold plain_op in Hc. unfold next.
  pose proof (classify_plain (z2b c)) as H. rewrite b2z_z2b_small in * by lia.
  specialize (H ltac:(lia)).
  repeat (case_match; try done); rewrite ?Z.eqb_eq in *; naive_solver.
Qed.

Lemma read_uint_loop_spec i l : 0 <= i -> read_uint_loop i l = 2 ^ (i * 8) * le_val l.
Proof.
  revert i. induction l as [|b l IH]; intros i Hi; simpl; [lia|].
  rewrite IH, Z.shiftl_mul_pow2, Z.mul_add_distr_r, Z.pow_add_r by lia.
  change (2 ^ (1 * 8)) with 256. lia.
Qed.

Lemma next_pushdata_ok m (w : nat) lo b (d rest : bytes) :
  Z.of_nat (length d) < 256 ^ Z.of_nat w ->
  m = false \/ lo <= Z.of_nat (length d) ->
  next_pushdata m w lo (b :: le_bytes w (Z.of_nat (length d)) ++ d ++ rest) =
  (Some (Ok (PushBytes d)), rest).
Proof.
  intros Hw Hm. unfold next_pushdata. simpl length.
  rewrite !length_app, length_le_bytes.
  destruct (Nat.ltb_spec (S (w + (length d + length rest))) (S w)) as [?|_]; [lia|].
  simpl drop. unfold read_uint. rewrite drop_0, !length_app, length_le_bytes.
  destruct (Nat.ltb_spec (w + (length d + length rest)) w) as [?|_]; [lia|].
  rewrite take_app_le by (rewrite length_le_bytes; lia).
  rewrite firstn_all2 by (rewrite length_le_bytes; lia).
  rewrite read_uint_loop_spec, le_val_le_bytes by lia.
  change (2 ^ (0 * 8)) with 1. rewrite Z.mul_1_l.
  destruct (Z.ltb_spec (Z.of_nat (S (w + (length d + length rest))))
                       (Z.of_nat (length d) + 1 + Z.of_nat w)) as [?|_]; [lia|].
  rewrite andb_false_r.
  assert (Hmin : m && (Z.of_nat (length d) <? lo) = false).
  { destruct Hm as [->|?]; [done|]. apply andb_false_intro2, Z.ltb_ge. lia. }
  rewrite Hmin, Nat2Z.id. do 3 f_equal.
  - f_equal. rewrite drop_app_length' by (by rewrite length_le_bytes). apply take_app_length.
  - replace (length d + S w)%nat with (S (w + length d))%nat by lia. simpl.
    rewrite <-drop_drop, drop_app_length' by (by rewrite length_le_bytes). apply drop_app_length.
Qed.

(** What [instructions_minimal] demands of a one-byte push. *)
Definition minimal_push (d : bytes) : Prop :=
  forall b, d = [b] -> b2z b <> 0x81 /\ ~ (0 < b2z b <= 16).

Lemma classify_small (b : byte) :
  b2z b < 76 -> classify Legacy (b2z b) = Some (PushBytesClass (b2z b)).
Proof. intros H. destruct b; try (exfalso; by apply H); done. Qed.

Lemma next_small m (d rest : bytes) :
  Z.of_nat (length d) < 76 -> m = false \/ minimal_push d ->
  next m (z2b (Z.of_nat (length d)) :: d ++ rest) = (Some (Ok (PushBytes d)), rest).
Proof.
  intros Hlen Hm. unfold next.
  assert (Hb : b2z (z2b (Z.of_nat (length d))) = Z.of_nat (length d))
    by (apply b2z_z2b_small; lia).
  rewrite classify_small, Hb, Nat2Z.id by lia. simpl length. rewrite length_app.
  destruct (Nat.ltb_spec (S (length d + length rest)) (length d + 1)) as [?|_]; [lia|].
  match goal with
  | |- context [if ?c then (Some (Err NonMinimalPush), _) else _] => assert (Hmin : c = false)
  end.
  { destruct Hm as [->|Hm]; [done|]. destruct m; [|done]. simpl.
    destruct (Nat.eqb_spec (length d) 1) as [E|]; [|done]. simpl.
    destruct d as [|b [|? ?]]; try done. destruct (Hm b eq_refl). simpl.
    destruct (Z.eqb_spec (b2z b) 129); [done|]. simpl.
    destruct (Z.ltb_spec 0 (b2z b)), (Z.leb_spec (b2z b) 16); simpl; done || lia. }
  rewrite Hmin. replace (length d + 1)%nat with (S (length d)) by lia. simpl.
  by rewrite drop_0, take_app_length, drop_app_length.
Qed.

Lemma next_slice m (d p rest : bytes) :
  push_prefix (Z.of_nat (length d)) = Some p -> m = false \/ minimal_push d ->
  next m (p ++ d ++ rest) = (Some (Ok (PushBytes d)), rest).
Proof.
  intros Hp Hm. unfold push_prefix, OP_PUSHDATA1 in Hp.
  destruct (Z.ltb_spec (Z.of_nat (length d)) 76); simplify_eq.
  { exact (next_small m d rest H Hm). }
  destruct (Z.ltb_spec (Z.of_nat (length d)) 0x100); simplify_eq.
  { apply (next_pushdata_ok m 1 76); lia. }
  assert (Hz : forall z, z2b (z mod 256) = z2b z) by (intros; unfold z2b; by rewrite Z.mod_mod).
  destruct (Z.ltb_spec (Z.of_nat (length d)) 0x10000); simplify_eq.
  { rewrite Hz. apply (next_pushdata_ok m 2 0x100); [done|lia]. }
  destruct (Z.ltb_spec (Z.of_nat (length d)) 0x100000000); simplify_eq.
  rewrite !Hz. change 65536 with (256 * 256). change 16777216 with (256 * 256 * 256).
  rewrite <-!Z.div_div by lia. apply (next_pushdata_ok m 4 0x10000); [done|lia].
Qed.

(** A script as the sequence of pushes and opcodes it was built from. *)
Definition push_item (i : Instruction) (b : Builder) : option Builder :=
  match i with
  | PushBytes d => push_slice d b
  | Op c => Some (push_opcode c b)
  end.

Fixpoint push_items (items : list Instruction) (b : Builder) : option Builder :=
  match items with
  | [] => Some b
  | i :: items => b ← push_item i b; push_items items b
  end.

Definition item_ok (i : Instruction) : Prop :=
  match i with
  | PushBytes _ => True
  | Op c => plain_op c
  end.

Definition item_minimal (i : Instruction) : Prop :=
  match i with
  | PushBytes d => minimal_push d
  | Op _ => True
  end.

Lemma push_items_app items b b' :
  push_items items b = Some b' -> exists e, b_script b' = b_script b ++ e /\
    forall m, Forall item_ok items -> m = false \/ Forall item_minimal items ->
      forall rest, collect_all m (e ++ rest) = map Ok items ++ collect_all m rest.
Proof.
  revert b. induction items as [|i items IH]; intros b; simpl.
  { intros [= ->]. exists []. split; [by rewrite app_nil_r|]. done. }
  intros (b1 & Hi & Hb)%bind_Some. destruct (IH _ Hb) as (e & He & Hc).
  assert (exists e1, b_script b1 = b_script b ++ e1 /\
    forall m rest, item_ok i -> m = false \/ item_minimal i ->
      next m (e1 ++ rest) = (Some (Ok i), rest)) as (e1 & He1 & Hn).
  { destruct i as [d|c]; simpl in Hi.
    - unfold push_slice in Hi. apply bind_Some in Hi as (p & Hp & [= <-]).
      exists (p ++ d). split; [done|]. intros m rest _ Hm. rewrite <-app_assoc.
      by apply next_slice.
    - injection Hi as <-. exists [z2b c]. split; [done|]. intros. by apply next_op. }
  exists (e1 ++ e). split; [by rewrite He, He1, app_assoc|].
  intros m Hok Hm rest. inversion_clear Hok as [|? ? Hi1 Hok1].
  rewrite <-app_assoc.
  rewrite (collect_step _ _ (Ok i) (e ++ rest)).
  - by rewrite Hc; [..|destruct Hm as [?|Hm]; [by left|right; by inversion Hm]].
  - apply Hn; [done|]. destruct Hm as [?|Hm]; [by left|right; by inversion Hm].
Qed.

Lemma instructions_push_items items b :
  Forall item_ok items -> push_items items Builder_new = Some b ->
  instructions (into_script b) = map Ok items.
Proof.
  intros Hok Hb. destruct (push_items_app _ _ _ Hb) as (e & He & Hc).
  specialize (Hc false Hok (or_introl eq_refl) []). rewrite !app_nil_r in Hc.
  unfold into_script. rewrite He. exact Hc.
Qed.

Lemma instructions_minimal_push_items items b :
  Forall item_ok items -> Forall item_minimal items ->
  push_items items Builder_new = Some b ->
  instructions_minimal (into_script b) = map Ok items.
Proof.
  intros Hok Hmin Hb. destruct (push_items_app _ _ _ Hb) as (e & He & Hc).
  specialize (Hc true Hok (or_intror Hmin) []). rewrite !app_nil_r in Hc.
  unfold into_script. rewrite He. exact Hc.
Qed.

(** ** Scripts as bytes of their items *)

Definition item_bytes (i : Instruction) : bytes :=
  match i with
  | PushBytes d => default [] (push_prefix (Z.of_nat (length d))) ++ d
  | Op c => [z2b c]
  end.

Definition items_bytes (items : list Instruction) : bytes := concat (map item_bytes items).

(** What [push_int] pushes. *)
Definition int_item (n : Z) : Instruction :=
  if (n =? -1) || ((1 <=? n) && (n <=? 16)) then Op (wrap_u8 (n - 1 + OP_TRUE))
  else PushBytes (build_scriptint n).

Definition item_short (i : Instruction) : Prop :=
  match i with
  | PushBytes d => Z.of_nat (length d) < 0x100000000
  | Op _ => True
  end.

Lemma push_prefix_some n : n < 0x100000000 -> is_Some (push_prefix n).
Proof. intros. unfold push_prefix. repeat case_match; eauto. rewrite Z.ltb_ge in *. lia. Qed.

Lemma push_slice_script d b :
  Z.of_nat (length d) < 0x100000000 ->
  exists b', push_slice d b = Some b' /\ b_script b' = b_script b ++ item_bytes (PushBytes d).
Proof.
  intros Hd. unfold push_slice. simpl. destruct (push_prefix_some _ Hd) as [p ->]. simpl. eauto.
Qed.

Lemma build_scriptint_length n : Z.abs n < 2 ^ 63 -> (length (build_scriptint n) <= 10)%nat.
Proof.
  intros Hb. destruct (decide (n = 0)) as [->|Hn]; [simpl; lia|].
  destruct (build_scriptint_shape n Hn Hb) as (k & a & -> & Hr & Hdm & ->).
  rewrite length_app, length_le_bytes.
  assert (k <= 8)%nat.
  { destruct (decide (k <= 8)%nat) as [|Hk]; [done|].
    assert (256 ^ 9 <= 256 ^ Z.of_nat k) by (apply Z.pow_le_mono_r; lia).
    pose proof (Z.mod_pos_bound (Z.abs n) (256 ^ Z.of_nat k) ltac:(lia)). nia. }
  case_match; simpl; lia.
Qed.

Lemma push_int_script n b :
  Z.abs n < 2 ^ 63 ->
  exists b', push_int n b = Some b' /\ b_script b' = b_script b ++ item_bytes (int_item n).
Proof.
  intros Hn. unfold push_int, int_item.
  destruct ((n =? -1) || ((1 <=? n) && (n <=? 16))); [eexists; split; done|].
  destruct (Z.eqb_spec n 0) as [->|]; [eexists; split; done|].
  apply push_slice_script. pose proof (build_scriptint_length n Hn). lia.
Qed.

Lemma le_val_build_scriptint n : 0 <= n < 2 ^ 63 -> le_val (build_scriptint n) = n.
Proof.
  intros Hb. destruct (decide (n = 0)) as [->|Hn]; [done|].
  destruct (build_scriptint_shape n Hn ltac:(lia)) as (k & a & Ha & Hr & Hdm & ->).
  rewrite Z.abs_eq in * by lia. destruct (Z.ltb_spec n 0); [lia|].
  rewrite le_val_app, le_bytes_mod, length_le_bytes.
  destruct (Z.leb_spec 128 a); simpl le_val; rewrite !b2z_z2b_small by lia; lia.
Qed.

Lemma int_item_inj n m : 0 <= n < 2 ^ 63 -> 0 <= m < 2 ^ 63 -> int_item n = int_item m -> n = m.
Proof.
  intros Hn Hm. unfold int_item, wrap_u8, OP_TRUE, OP_PUSHNUM_1.
  destruct (Z.eqb_spec n (-1)), (Z.leb_spec 1 n), (Z.leb_spec n 16), (Z.eqb_spec m (-1)),
    (Z.leb_spec 1 m), (Z.leb_spec m 16); try lia; simpl; try discriminate;
    intros [= E]; try (rewrite !Z.mod_small in E by lia; lia);
    apply (f_equal le_val) in E; rewrite !le_val_build_scriptint in E by lia; done.
Qed.

Lemma int_item_ok n : 0 <= n < 2 ^ 63 -> item_ok (int_item n) /\ item_minimal (int_item n) /\ item_short (int_item n).
Proof.
  intros Hn. unfold int_item. destruct ((n =? -1) || ((1 <=? n) && (n <=? 16))) eqn:E.
  - split; [|done]. simpl. unfold plain_op, wrap_u8, OP_TRUE, OP_PUSHNUM_1.
    rewrite orb_true_iff, andb_true_iff, Z.eqb_eq, !Z.leb_le in E. rewrite Z.mod_small; lia.
  - split; [done|]. split; [|simpl; pose proof (build_scriptint_length n ltac:(lia)); lia].
    intros b Eb. pose proof (le_val_build_scriptint n Hn) as Hv. rewrite Eb in Hv. simpl in Hv.
    rewrite orb_false_iff, andb_false_iff, Z.eqb_neq, !Z.leb_gt in E.
    destruct (decide (n = 0)) as [->|Hnz]; [done|].
    destruct (build_scriptint_shape n Hnz ltac:(lia)) as (k & a & Ha & Hr & Hdm & Es).
    rewrite Eb in Es. pose proof (f_equal length Es) as El.
    rewrite length_app, length_le_bytes in El.
    destruct (Z.leb_spec 128 a); simpl in El; [lia|].
    assert (k = 0%nat) as -> by lia. simpl in Hdm. rewrite Z.mod_1_r in Hdm. lia.
Qed.

Lemma push_items_bytes items b :
  Forall item_short items ->
  exists b', push_items items b = Some b' /\ b_script b' = b_script b ++ items_bytes items.
Proof.
  intros Hs. revert b. induction Hs as [|i items Hi Hs IH]; intros b; simpl.
  { exists b. by rewrite app_nil_r. }
  assert (exists b1, push_item i b = Some b1 /\ b_script b1 = b_script b ++ item_bytes i)
    as (b1 & -> & E1) by (destruct i; [by apply push_slice_script|by eexists]).
  destruct (IH b1) as (b' & Eb & E'). exists b'. split; [exact Eb|].
  unfold items_bytes in *. simpl. by rewrite E', E1, app_assoc.
Qed.

(** Parsing the bytes of a list of items gives back the items. *)
Lemma instructions_bytes items :
  Forall item_ok items -> Forall item_short items ->
  instructions (items_bytes items) = map Ok items.
Proof.
  intros Hok Hs. destruct (push_items_bytes items Builder_new Hs) as (b & Eb & Es).
  rewrite app_nil_l in Es. rewrite <-Es. by apply instructions_push_items.
Qed.

Lemma instructions_minimal_bytes items :
  Forall item_ok items -> Forall item_minimal items -> Forall item_short items ->
  instructions_minimal (items_bytes items) = map Ok items.
Proof.
  intros Hok Hm Hs. destruct (push_items_bytes items Builder_new Hs) as (b & Eb & Es).
  rewrite app_nil_l in Es. rewrite <-Es. by apply instructions_minimal_push_items.
Qed.

Lemma items_bytes_inj items items' :
  Forall item_ok items -> Forall item_short items ->
  Forall item_ok items' -> Forall item_short items' ->
  items_bytes items = items_bytes items' -> items = items'.
Proof.
  intros H1 H2 H3 H4 E. apply (f_equal instructions) in E.
  rewrite !instructions_bytes in E by done. revert E. clear. revert items'.
  induction items as [|i l IH]; intros [|j l'] E; simplify_eq/=; [done|]. f_equal. by apply IH.
Qed.

(** An upper bound for the size of a script. *)
Definition item_size (i : Instruction) : nat :=
  match i with PushBytes d => (5 + length d)%nat | Op _ => 1%nat end.

Lemma items_bytes_length items :
  (length (items_bytes items) <= list_sum (map item_size items))%nat.
Proof.
  unfold items_bytes. induction items as [|i l IH]; simpl; [lia|]. rewrite length_app.
  assert (length (item_bytes i) <= item_size i)%nat; [|lia].
  destruct i as [d|c]; simpl; [|lia]. rewrite length_app.
  unfold push_prefix. repeat case_match; simpl; lia.
Qed.

(** ** Claims *)

(** The instruction iterator inverts the builder: a script assembled from
    data pushes of any length below 4 GiB and non-push opcodes iterates to
    exactly those items with no error, and the iterator that insists on minimal
    pushes agrees when no one-byte push has an opcode of its own. *)
Theorem script_iterates_to_its_items (items : list Instruction) (b : Builder) :
  Forall item_ok items -> push_items items Builder_new = Some b ->
  instructions (into_script b) = map Ok items /\
  (Forall item_minimal items -> instructions_minimal (into_script b) = map Ok items).
Proof.
  intros Hok Hb. split; [by apply instructions_push_items|].
  intros Hm. by apply instructions_minimal_push_items.
Qed.

Lemma script_iterates_to_its_items_witness :
  exists b, push_items [Op OP_IF; PushBytes (replicate 300 Byte.x07); PushBytes [Byte.x05]; Op OP_ENDIF]
              Builder_new = Some b /\
    instructions (into_script b) =
      map Ok [Op OP_IF; PushBytes (replicate 300 Byte.x07); PushBytes [Byte.x05]; Op OP_ENDIF].
Proof.
  eexists. split; [reflexivity|].
  apply (script_iterates_to_its_items [Op OP_IF; PushBytes (replicate 300 Byte.x07);
           PushBytes [Byte.x05]; Op OP_ENDIF]); [|reflexivity].
  repeat constructor; unfold OP_IF, OP_ENDIF; lia.
Defined.

(** Script integers: what [build_scriptint] writes, [read_scriptint] reads
    back for every value of at most 31 bits and sign, and refuses as
    [NumericOverflow] beyond, for the whole range of [i64] but its minimum. *)
Theorem scriptint_roundtrip (n : Z) :
  Z.abs n < 2 ^ 63 ->
  read_scriptint (build_scriptint n) = if Z.abs n <? 2 ^ 31 then Ok n else Err NumericOverflow.
Proof. apply read_build_scriptint. Qed.

Lemma scriptint_roundtrip_witness : read_scriptint (build_scriptint (-128)) = Ok (-128).
Proof. apply (scriptint_roundtrip (-128)). reflexivity. Defined.

(** [opcodes::All::classify] is total in the legacy context, the one the
    iterator uses, but its final [unwrap] panics in the tapscript context on
    exactly the listed opcodes, [OP_CHECKSIGADD] and the introspection and
    64-bit-arithmetic opcodes of tapscript among them. *)
Theorem classify_panics (b : byte) :
  is_Some (classify Legacy (b2z b)) /\
  (classify TapScript (b2z b) = None <->
   b2z b ∈ [0xba; 0xc0] \/ 0xc4 <= b2z b <= 0xe4).
Proof.
  split; [apply classify_legacy_total|].
  destruct b; vm_compute; split; intros Hx; try discriminate Hx; try reflexivity; set_solver by lia.
Qed.
