(* ===== verification/Timelocks.v ===== *)
(** * Lock times and sequence numbers

    [rust-elements/src/locktime.rs] ([LockTime], [Height], [Time]) and the
    [Sequence] type of [rust-elements/src/transaction.rs].  A lock time is a
    32-bit integer that is a block height below [LOCK_TIME_THRESHOLD] and a UNIX
    time from there on; a sequence number carries the BIP-68 relative lock. *)

From S2P Require Import Prelude Encode.

(** ** Absolute lock times *)

Definition LOCK_TIME_THRESHOLD : Z := 500000000.

Definition is_block_height (n : Z) : bool := n <? LOCK_TIME_THRESHOLD.
Definition is_block_time (n : Z) : bool := LOCK_TIME_THRESHOLD <=? n.

Inductive LockTimeUnit := UnitBlocks | UnitSeconds.

(** [locktime::Error]; only conversions are produced by the operations here. *)
Inductive locktime_error : Type :=
| Conversion (unit : LockTimeUnit) (input : Z).

(** [Height] and [Time] are 32-bit newtypes whose constructors check the range. *)
Record Height := mkHeight { height_u32 : Z }.
Record Time := mkTime { time_u32 : Z }.

Definition Height_from_consensus (n : Z) : result Height locktime_error :=
  if is_block_height n then Ok (mkHeight n) else Err (Conversion UnitBlocks n).

Definition Time_from_consensus (n : Z) : result Time locktime_error :=
  if is_block_time n then Ok (mkTime n) else Err (Conversion UnitSeconds n).

Inductive LockTime : Type :=
| Blocks (h : Height)
| Seconds (t : Time).

#[export] Instance Height_eq_dec : EqDecision Height.
Proof. solve_decision. Defined.
#[export] Instance Time_eq_dec : EqDecision Time.
Proof. solve_decision. Defined.
#[export] Instance LockTime_eq_dec : EqDecision LockTime.
Proof. solve_decision. Defined.

Definition LockTime_ZERO : LockTime := Blocks (mkHeight 0).

(** [LockTime::from_consensus] with its two [expect]s: [None] is the panic. *)
Definition LockTime_from_consensus_checked (n : Z) : option LockTime :=
  if is_block_height n
  then match Height_from_consensus n with Ok h => Some (Blocks h) | Err _ => None end
  else match Time_from_consensus n with Ok t => Some (Seconds t) | Err _ => None end.

(** The same function once the panics are known to be unreachable
    ([LockTime_from_consensus_no_panic]). *)
Definition LockTime_from_consensus (n : Z) : LockTime :=
  if is_block_height n then Blocks (mkHeight n) else Seconds (mkTime n).

Definition LockTime_from_height (n : Z) : result LockTime locktime_error :=
  let? height := Height_from_consensus n in Ok (Blocks height).

Definition LockTime_from_time (n : Z) : result LockTime locktime_error :=
  let? time := Time_from_consensus n in Ok (Seconds time).

Definition LockTime_is_block_height (l : LockTime) : bool :=
  match l with Blocks _ => true | Seconds _ => false end.

Definition LockTime_is_same_unit (l other : LockTime) : bool :=
  match l, other with
  | Blocks _, Blocks _ | Seconds _, Seconds _ => true
  | _, _ => false
  end.

Definition LockTime_is_satisfied_by (l : LockTime) (height : Height) (time : Time) : bool :=
  match l with
  | Blocks n => height_u32 n <=? height_u32 height
  | Seconds n => time_u32 n <=? time_u32 time
  end.

Definition LockTime_to_consensus_u32 (l : LockTime) : Z :=
  match l with
  | Blocks h => height_u32 h
  | Seconds t => time_u32 t
  end.

(** [PartialOrd]: lock times of different units are incomparable. *)
Definition LockTime_partial_cmp (l other : LockTime) : option comparison :=
  match l, other with
  | Blocks a, Blocks b => Some (height_u32 a ?= height_u32 b)
  | Seconds a, Seconds b => Some (time_u32 a ?= time_u32 b)
  | _, _ => None
  end.

(** The values the constructors can produce. *)
Definition LockTime_wf (l : LockTime) : Prop :=
  match l with
  | Blocks h => 0 <= height_u32 h < LOCK_TIME_THRESHOLD
  | Seconds t => LOCK_TIME_THRESHOLD <= time_u32 t < 2 ^ 32
  end.

Definition encode_LockTime (l : LockTime) : bytes := emit_u32 (LockTime_to_consensus_u32 l).
Definition decode_LockTime : Reader LockTime :=
  n <<- read_u32;; rd_ret (LockTime_from_consensus n).

Lemma LockTime_from_consensus_no_panic n :
  LockTime_from_consensus_checked n = Some (LockTime_from_consensus n).
Proof.
  unfold LockTime_from_consensus_checked, LockTime_from_consensus,
    Height_from_consensus, Time_from_consensus, is_block_height, is_block_time.
  destruct (Z.ltb_spec n LOCK_TIME_THRESHOLD), (Z.leb_spec LOCK_TIME_THRESHOLD n);
    done || lia.
Qed.

Lemma LockTime_to_from n : LockTime_to_consensus_u32 (LockTime_from_consensus n) = n.
Proof. unfold LockTime_from_consensus. by case_match. Qed.

Lemma LockTime_from_to l : LockTime_wf l ->
  LockTime_from_consensus (LockTime_to_consensus_u32 l) = l.
Proof.
  unfold LockTime_from_consensus, is_block_height.
  destruct l as [[n]|[n]]; simpl; intros; destruct (Z.ltb_spec n LOCK_TIME_THRESHOLD);
    done || lia.
Qed.

Lemma LockTime_from_consensus_wf n : is_u32 n -> LockTime_wf (LockTime_from_consensus n).
Proof.
  unfold LockTime_from_consensus, is_block_height. intros.
  destruct (Z.ltb_spec n LOCK_TIME_THRESHOLD); simpl; lia.
Qed.

Lemma LockTime_wf_u32 l : LockTime_wf l -> is_u32 (LockTime_to_consensus_u32 l).
Proof. unfold LockTime_wf, LOCK_TIME_THRESHOLD. destruct l as [[n]|[n]]; simpl; lia. Qed.

Lemma LockTime_codec : codec_ok encode_LockTime decode_LockTime LockTime_wf.
Proof.
  split.
  - intros l rest Hl. unfold encode_LockTime,
      decode_LockTime.
    rewrite (codec_step u32_codec) by by apply LockTime_wf_u32.
    unfold rd_ret. by rewrite LockTime_from_to.
  - intros bs l rest (n & mid & Hn & E)%rd_bind_ok.
    apply rd_ret_ok in E as [<- <-].
    apply (codec_canonical u32_codec) in Hn as [Hn ->].
    split; [by apply LockTime_from_consensus_wf|].
    unfold encode_LockTime.
    by rewrite LockTime_to_from.
Qed.
#[export] Instance LockTime_Encodable : Encodable LockTime := encode_LockTime.
#[export] Instance LockTime_Decodable : Decodable LockTime := decode_LockTime.
#[export] Instance LockTime_Codec : Codec LockTime LockTime_wf := LockTime_codec.

(** ** Sequence numbers *)

Record Sequence := mkSequence { seq_u32 : Z }.
#[export] Instance Sequence_eq_dec : EqDecision Sequence.
Proof. solve_decision. Defined.

Definition Sequence_MAX : Sequence := mkSequence 0xFFFFFFFF.
Definition Sequence_ZERO : Sequence := mkSequence 0.
Definition Sequence_MIN_NO_RBF : Sequence := mkSequence 0xFFFFFFFE.
Definition Sequence_ENABLE_LOCKTIME_NO_RBF : Sequence := Sequence_MIN_NO_RBF.
Definition Sequence_ENABLE_RBF_NO_LOCKTIME : Sequence := mkSequence 0xFFFFFFFD.
Definition LOCK_TIME_DISABLE_FLAG_MASK : Z := 0x80000000.
Definition LOCK_TYPE_MASK : Z := 0x00400000.

Definition is_final (s : Sequence) : bool := bool_decide (s = Sequence_MAX).
Definition is_rbf (s : Sequence) : bool := seq_u32 s <? seq_u32 Sequence_MIN_NO_RBF.
Definition is_relative_lock_time (s : Sequence) : bool :=
  Z.land (seq_u32 s) LOCK_TIME_DISABLE_FLAG_MASK =? 0.
Definition is_height_locked (s : Sequence) : bool :=
  is_relative_lock_time s && (Z.land (seq_u32 s) LOCK_TYPE_MASK =? 0).
Definition is_time_locked (s : Sequence) : bool :=
  is_relative_lock_time s && (0 <? Z.land (seq_u32 s) LOCK_TYPE_MASK).
Definition Sequence_from_height (height : Z) : Sequence := mkSequence height.
Definition from_512_second_intervals (intervals : Z) : Sequence :=
  mkSequence (Z.lor intervals LOCK_TYPE_MASK).

(** [RelativeLockTimeError::IntegerOverflow]. *)
Inductive relative_error := IntegerOverflow (n : Z).

Definition u16_try_from (n : Z) : option Z := if n <=? 0xFFFF then Some n else None.

Definition from_seconds_floor (seconds : Z) : result Sequence relative_error :=
  match u16_try_from (seconds / 512) with
  | Some interval => Ok (from_512_second_intervals interval)
  | None => Err (IntegerOverflow seconds)
  end.

(** The addition is a [u32] addition; built without overflow checks it wraps. *)
Definition from_seconds_ceil (seconds : Z) : result Sequence relative_error :=
  match u16_try_from (wrap_u32 (seconds + 511) / 512) with
  | Some interval => Ok (from_512_second_intervals interval)
  | None => Err (IntegerOverflow seconds)
  end.

Definition enables_absolute_lock_time (s : Sequence) : bool := negb (is_final s).

Definition Sequence_wf (s : Sequence) : Prop := is_u32 (seq_u32 s).

Definition encode_Sequence (s : Sequence) : bytes := emit_u32 (seq_u32 s).
Definition decode_Sequence : Reader Sequence := n <<- read_u32;; rd_ret (mkSequence n).

Lemma Sequence_codec : codec_ok encode_Sequence decode_Sequence Sequence_wf.
Proof.
  split.
  - intros [n] rest Hn.
    exact (codec_step u32_codec (fun n => rd_ret (mkSequence n)) n rest Hn).
  - intros bs s rest (n & mid & Hn & E)%rd_bind_ok.
    apply rd_ret_ok in E as [<- <-]. by apply (codec_canonical u32_codec) in Hn.
Qed.
#[export] Instance Sequence_Encodable : Encodable Sequence := encode_Sequence.
#[export] Instance Sequence_Decodable : Decodable Sequence := decode_Sequence.
#[export] Instance Sequence_Codec : Codec Sequence Sequence_wf := Sequence_codec.

(** A relative lock built from seconds is a time lock of that many intervals. *)
Lemma from_512_time_locked k :
  0 <= k <= 0xFFFF -> is_time_locked (from_512_second_intervals k) = true /\
    Z.land (seq_u32 (from_512_second_intervals k)) 0xFFFF = k.
Proof.
  intros Hk. unfold is_time_locked, is_relative_lock_time, from_512_second_intervals. simpl.
  change LOCK_TIME_DISABLE_FLAG_MASK with (2 ^ 31). change LOCK_TYPE_MASK with (2 ^ 22).
  rewrite (lor_below_pow2 k 22), (land_pow2 _ 31), (land_pow2 _ 22) by lia.
  change 0xFFFF with (Z.ones 16). rewrite Z.land_ones by lia.
  replace ((k + 2 ^ 22) / 2 ^ 31) with 0 by (rewrite Z.div_small; lia).
  replace ((k + 2 ^ 22) / 2 ^ 22) with 1 by (apply Z.div_unique with k; lia).
  split; [done|]. rewrite Z.add_mod by lia. change (2 ^ 22 mod 2 ^ 16) with 0.
  rewrite Z.add_0_r, Z.mod_mod, Z.mod_small by lia. lia.
Qed.

(** The rounding of [from_seconds_ceil] overflows [u32] for the last 511 values:
    instead of an error they give the shortest lock there is. *)
Lemma from_seconds_ceil_wraps s :
  4294966785 <= s < 4294967296 -> from_seconds_ceil s = Ok (from_512_second_intervals 0).
Proof.
  intros Hs. unfold from_seconds_ceil.
  replace (wrap_u32 (s + 511)) with (s + 511 - 4294967296)
    by (unfold wrap_u32; apply Z.mod_unique with 1; lia).
  by rewrite Z.div_small by lia.
Qed.
