(* ===== verification/Confidential.v ===== *)
(** * Confidential values, assets and nonces

    [rust-elements/src/confidential.rs]: the three optionally committed fields
    of an output.  Each is [Null], [Explicit] or [Confidential]; the first byte
    on the wire tells which, and for a commitment it is also the first byte of
    the 33-byte curve object.  One generic codec, [tagged], carries the proofs
    of all three. *)

From S2P Require Import Prelude Encode.

(** ** The common wire shape *)

Section Tagged.
Context {E : Type} {T : ext_type}.
Context (enc : E -> bytes) (dec : Reader E) (wf : E -> Prop) (Henc : codec_ok enc dec wf).
Context (p1 p2 : Z) (err : encode_error).
Context (Hp1 : 1 < p1 < 256) (Hp2 : 1 < p2 < 256).
Context (Tformat : forall c : T, length (ext_ser c) = 33%nat /\
           exists p l, ext_ser c = p :: l /\ (b2z p = p1 \/ b2z p = p2)).
Context (Tstrict : forall bs (c : T), length bs = 33%nat -> ext_parse bs = Some c -> ext_ser c = bs).

Definition encode_tagged (v : unit + E + T) : bytes :=
  match v with
  | inl (inl _) => emit_u8 0
  | inl (inr e) => emit_u8 1 ++ enc e
  | inr c => ext_ser c
  end.

Definition decode_tagged : Reader (unit + E + T) :=
  prefix <<- read_u8;;
  if prefix =? 0 then rd_ret (inl (inl tt))
  else if prefix =? 1 then e <<- dec;; rd_ret (inl (inr e))
  else if (prefix =? p1) || (prefix =? p2) then
    rest <<- read_exact 32;;
    c <<- rd_lift (ext_parse (z2b prefix :: rest)) err;;
    rd_ret (inr c)
  else rd_fail (InvalidConfidentialPrefix prefix).

Definition tagged_wf (v : unit + E + T) : Prop :=
  match v with
  | inl (inr e) => wf e
  | _ => True
  end.

Lemma tagged_codec : codec_ok encode_tagged decode_tagged tagged_wf.
Proof using Type*.
  split.
  - intros [[[]|e]|c] rest Hv; unfold encode_tagged, decode_tagged.
    + by rewrite (codec_step u8_codec) by lia.
    + rewrite <-app_assoc, (codec_step u8_codec) by lia. simpl.
      by rewrite (codec_step Henc).
    + destruct (Tformat c) as (Hlen & p & l & Ec & Hp). rewrite Ec.
      change ((p :: l) ++ rest) with ([p] ++ l ++ rest).
      replace [p] with (emit_u8 (b2z p)) by (unfold emit_u8; by rewrite z2b_b2z).
      rewrite (codec_step u8_codec) by auto with swk.
      destruct (Z.eqb_spec (b2z p) 0), (Z.eqb_spec (b2z p) 1); try lia.
      assert ((b2z p =? p1) || (b2z p =? p2) = true) as ->
        by (rewrite orb_true_iff, !Z.eqb_eq; tauto).
      unfold rd_bind. rewrite read_exact_app by (rewrite Ec in Hlen; simpl in Hlen; lia).
      rewrite z2b_b2z, <-Ec. by rewrite ext_parse_ser.
  - intros bs v rest (p & mid & Hp & D)%rd_bind_ok.
    apply (codec_canonical u8_codec) in Hp as [Hr ->].
    destruct (Z.eqb_spec p 0) as [->|]; [by apply rd_ret_ok in D as [<- <-]|].
    destruct (Z.eqb_spec p 1) as [->|].
    { apply rd_bind_ok in D as (e & mid' & He & D).
      apply (codec_canonical Henc) in He as [Hwf ->].
      by apply rd_ret_ok in D as [<- <-]. }
    destruct ((p =? p1) || (p =? p2)) eqn:Ep; [|done].
    apply rd_bind_ok in D as (l & mid' & Hl & D).
    apply rd_bind_ok in D as (c & mid'' & Hc & D).
    apply rd_ret_ok in D as [<- <-]. apply rd_lift_ok in Hc as [Hc <-].
    apply read_exact_ok in Hl as [Hl ->].
    apply Tstrict in Hc; [|simpl; lia]. simpl. by rewrite Hc.
Qed.
End Tagged.

(** A bijective change of representation keeps a codec. *)
Lemma codec_iso {A B} {enc : A -> bytes} {dec wf} (f : B -> A) (g : A -> B)
    (encB : B -> bytes) (decB : Reader B) (wfB : B -> Prop) :
  codec_ok enc dec wf ->
  (forall b, g (f b) = b) -> (forall a, f (g a) = a) ->
  (forall b, encB b = enc (f b)) ->
  (forall bs, decB bs = match dec bs with Ok (a, r) => Ok (g a, r) | Err e => Err e end) ->
  (forall b, wfB b <-> wf (f b)) ->
  codec_ok encB decB wfB.
Proof.
  intros H Hgf Hfg He Hd Hw. split.
  - intros b rest Hb%Hw. by rewrite Hd, He, (codec_decode H), Hgf.
  - intros bs b rest. rewrite Hd. destruct (dec bs) as [[a r]|e] eqn:E; [|done].
    intros [= <- <-]. apply (codec_canonical H) in E as [Ha ->].
    by rewrite Hw, He, Hfg.
Qed.

Section Confidential.
Context {S : Secp}.

(** ** Values *)

Inductive Value : Type :=
| ValueNull
| ValueExplicit (n : Z)
| ValueConfidential (c : PedersenCommitment).

Definition Value_encoded_length (v : Value) : Z :=
  match v with
  | ValueNull => 1
  | ValueExplicit _ => 9
  | ValueConfidential _ => 33
  end.

(** [Value::from_commitment]. *)
Definition Value_from_commitment (bs : bytes) : result Value encode_error :=
  match ext_parse bs with
  | Some c => Ok (ValueConfidential c)
  | None => Err Secp256k1zkp
  end.

Definition Value_is_null (v : Value) : bool :=
  match v with ValueNull => true | _ => false end.
Definition Value_is_explicit (v : Value) : bool :=
  match v with ValueExplicit _ => true | _ => false end.
Definition Value_is_confidential (v : Value) : bool :=
  match v with ValueConfidential _ => true | _ => false end.
Definition Value_explicit (v : Value) : option Z :=
  match v with ValueExplicit i => Some i | _ => None end.
Definition Value_commitment (v : Value) : option PedersenCommitment :=
  match v with ValueConfidential i => Some i | _ => None end.

(** The amount is written big-endian: the little-endian writer applied to the
    byte-swapped integer. *)
Definition encode_Value (v : Value) : bytes :=
  match v with
  | ValueNull => emit_u8 0
  | ValueExplicit n => emit_u8 1 ++ emit_u64 (swap_bytes_u64 n)
  | ValueConfidential c => ext_ser c
  end.

Definition decode_Value : Reader Value :=
  prefix <<- read_u8;;
  if prefix =? 0 then rd_ret ValueNull
  else if prefix =? 1 then
    n <<- read_u64;; rd_ret (ValueExplicit (swap_bytes_u64 n))
  else if (prefix =? 0x08) || (prefix =? 0x09) then
    rest <<- read_exact 32;;
    c <<- rd_lift (ext_parse (z2b prefix :: rest)) Secp256k1zkp;;
    rd_ret (ValueConfidential c)
  else rd_fail (InvalidConfidentialPrefix prefix).

Definition Value_wf (v : Value) : Prop :=
  match v with ValueExplicit n => is_u64 n | _ => True end.

(** ** Assets *)

(** [AssetId], a 32-byte SHA-256 midstate. *)
Definition AssetId := bytes.
Definition hash_wf (h : bytes) : Prop := length h = 32%nat.

Inductive Asset : Type :=
| AssetNull
| AssetExplicit (a : AssetId)
| AssetConfidential (g : Generator).

Definition Asset_encoded_length (a : Asset) : Z :=
  match a with
  | AssetNull => 1
  | AssetExplicit _ => 33
  | AssetConfidential _ => 33
  end.

Definition Asset_from_commitment (bs : bytes) : result Asset encode_error :=
  match ext_parse bs with
  | Some c => Ok (AssetConfidential c)
  | None => Err Secp256k1zkp
  end.

Definition Asset_is_null (a : Asset) : bool :=
  match a with AssetNull => true | _ => false end.
Definition Asset_is_explicit (a : Asset) : bool :=
  match a with AssetExplicit _ => true | _ => false end.
Definition Asset_is_confidential (a : Asset) : bool :=
  match a with AssetConfidential _ => true | _ => false end.
Definition Asset_explicit (a : Asset) : option AssetId :=
  match a with AssetExplicit i => Some i | _ => None end.
Definition Asset_commitment (a : Asset) : option Generator :=
  match a with AssetConfidential i => Some i | _ => None end.

Definition encode_Asset (a : Asset) : bytes :=
  match a with
  | AssetNull => emit_u8 0
  | AssetExplicit n => emit_u8 1 ++ n
  | AssetConfidential g => ext_ser g
  end.

Definition decode_Asset : Reader Asset :=
  prefix <<- read_u8;;
  if prefix =? 0 then rd_ret AssetNull
  else if prefix =? 1 then
    n <<- read_exact 32;; rd_ret (AssetExplicit n)
  else if (prefix =? 0x0a) || (prefix =? 0x0b) then
    rest <<- read_exact 32;;
    c <<- rd_lift (ext_parse (z2b prefix :: rest)) Secp256k1zkp;;
    rd_ret (AssetConfidential c)
  else rd_fail (InvalidConfidentialPrefix prefix).

Definition Asset_wf (a : Asset) : Prop :=
  match a with AssetExplicit n => hash_wf n | _ => True end.

(** ** Nonces *)

Inductive Nonce : Type :=
| NonceNull
| NonceExplicit (n : bytes)
| NonceConfidential (k : PublicKey).

Definition Nonce_encoded_length (n : Nonce) : Z :=
  match n with
  | NonceNull => 1
  | NonceExplicit _ => 33
  | NonceConfidential _ => 33
  end.

Definition Nonce_from_commitment (bs : bytes) : result Nonce encode_error :=
  match ext_parse bs with
  | Some c => Ok (NonceConfidential c)
  | None => Err Secp256k1zkp
  end.

Definition Nonce_is_null (n : Nonce) : bool :=
  match n with NonceNull => true | _ => false end.
Definition Nonce_is_explicit (n : Nonce) : bool :=
  match n with NonceExplicit _ => true | _ => false end.
Definition Nonce_is_confidential (n : Nonce) : bool :=
  match n with NonceConfidential _ => true | _ => false end.
Definition Nonce_explicit (n : Nonce) : option bytes :=
  match n with NonceExplicit i => Some i | _ => None end.
Definition Nonce_commitment (n : Nonce) : option PublicKey :=
  match n with NonceConfidential i => Some i | _ => None end.

Definition encode_Nonce (n : Nonce) : bytes :=
  match n with
  | NonceNull => emit_u8 0
  | NonceExplicit e => emit_u8 1 ++ e
  | NonceConfidential k => ext_ser k
  end.

Definition decode_Nonce : Reader Nonce :=
  prefix <<- read_u8;;
  if prefix =? 0 then rd_ret NonceNull
  else if prefix =? 1 then
    e <<- read_exact 32;; rd_ret (NonceExplicit e)
  else if (prefix =? 0x02) || (prefix =? 0x03) then
    rest <<- read_exact 32;;
    k <<- rd_lift (ext_parse (z2b prefix :: rest)) Secp256k1;;
    rd_ret (NonceConfidential k)
  else rd_fail (InvalidConfidentialPrefix prefix).

Definition Nonce_wf (n : Nonce) : Prop :=
  match n with NonceExplicit e => hash_wf e | _ => True end.

#[export] Instance Value_eq_dec : EqDecision Value.
Proof. solve_decision. Defined.
#[export] Instance Asset_eq_dec : EqDecision Asset.
Proof. solve_decision. Defined.
#[export] Instance Nonce_eq_dec : EqDecision Nonce.
Proof. solve_decision. Defined.

(** ** Codecs *)

Lemma swapped_u64_codec :
  codec_ok (fun n => emit_u64 (swap_bytes_u64 n))
    (n <<- read_u64;; rd_ret (swap_bytes_u64 n)) (fun n => is_u64 n).
Proof.
  split.
  - intros n rest Hn. rewrite (codec_step u64_codec) by apply swap_bytes_u64_range.
    unfold rd_ret. by rewrite swap_bytes_u64_involutive.
  - intros bs n rest (m & mid & Hm & E)%rd_bind_ok.
    apply rd_ret_ok in E as [<- <-]. apply (codec_canonical u64_codec) in Hm as [Hm ->].
    split; [apply swap_bytes_u64_range|]. by rewrite swap_bytes_u64_involutive.
Qed.

(** Run the decoder on both sides of a [codec_iso] side condition. *)
Ltac tagged_decode :=
  intros bs; unfold rd_bind, rd_ret, rd_fail, rd_lift;
  repeat (case_match; simplify_eq/=; try done).

Lemma Value_codec : codec_ok encode_Value decode_Value Value_wf.
Proof.
  apply (codec_iso
    (fun v => match v with ValueNull => inl (inl tt) | ValueExplicit n => inl (inr n)
              | ValueConfidential c => inr c end)
    (fun s => match s with inl (inl _) => ValueNull | inl (inr n) => ValueExplicit n
              | inr c => ValueConfidential c end)
    _ _ _
    (tagged_codec _ _ _ swapped_u64_codec 0x08 0x09 Secp256k1zkp ltac:(lia) ltac:(lia)
       pedersen_format (fun bs c _ => pedersen_strict bs c))).
  - by intros [].
  - by intros [[[]|]|].
  - by intros [].
  - unfold decode_tagged, decode_Value. tagged_decode.
  - by intros [].
Qed.
#[export] Instance Value_Encodable : Encodable Value := encode_Value.
#[export] Instance Value_Decodable : Decodable Value := decode_Value.
#[export] Instance Value_Codec : Codec Value Value_wf := Value_codec.

Lemma Asset_codec : codec_ok encode_Asset decode_Asset Asset_wf.
Proof.
  apply (codec_iso
    (fun v => match v with AssetNull => inl (inl tt) | AssetExplicit n => inl (inr n)
              | AssetConfidential c => inr c end)
    (fun s => match s with inl (inl _) => AssetNull | inl (inr n) => AssetExplicit n
              | inr c => AssetConfidential c end)
    _ _ _
    (tagged_codec _ _ _ (array_codec 32) 0x0a 0x0b Secp256k1zkp ltac:(lia) ltac:(lia)
       generator_format (fun bs c _ => generator_strict bs c))).
  - by intros [].
  - by intros [[[]|]|].
  - by intros [].
  - unfold decode_tagged, decode_Asset. tagged_decode.
  - by intros [].
Qed.
#[export] Instance Asset_Encodable : Encodable Asset := encode_Asset.
#[export] Instance Asset_Decodable : Decodable Asset := decode_Asset.
#[export] Instance Asset_Codec : Codec Asset Asset_wf := Asset_codec.

Lemma Nonce_codec : codec_ok encode_Nonce decode_Nonce Nonce_wf.
Proof.
  apply (codec_iso
    (fun v => match v with NonceNull => inl (inl tt) | NonceExplicit n => inl (inr n)
              | NonceConfidential c => inr c end)
    (fun s => match s with inl (inl _) => NonceNull | inl (inr n) => NonceExplicit n
              | inr c => NonceConfidential c end)
    _ _ _
    (tagged_codec _ _ _ (array_codec 32) 0x02 0x03 Secp256k1 ltac:(lia) ltac:(lia)
       pubkey_format pubkey_strict)).
  - by intros [].
  - by intros [[[]|]|].
  - by intros [].
  - unfold decode_tagged, decode_Nonce. tagged_decode.
  - by intros [].
Qed.
#[export] Instance Nonce_Encodable : Encodable Nonce := encode_Nonce.
#[export] Instance Nonce_Decodable : Decodable Nonce := decode_Nonce.
#[export] Instance Nonce_Codec : Codec Nonce Nonce_wf := Nonce_codec.

(** ** [encoded_length] is the length of the encoding *)

Lemma Value_encoded_length_correct v :
  Z.of_nat (length (encode_Value v)) = Value_encoded_length v.
Proof.
  destruct v as [|n|c]; [done| |].
  - unfold encode_Value, emit_u64. by autorewrite with swk_len.
  - simpl. by rewrite (proj1 (pedersen_format c)).
Qed.

Lemma Asset_encoded_length_correct a :
  Asset_wf a -> Z.of_nat (length (encode_Asset a)) = Asset_encoded_length a.
Proof.
  destruct a as [|n|c]; intros Ha; [done| |]; simpl in *.
  - by rewrite Ha.
  - by rewrite (proj1 (generator_format c)).
Qed.

Lemma Nonce_encoded_length_correct n :
  Nonce_wf n -> Z.of_nat (length (encode_Nonce n)) = Nonce_encoded_length n.
Proof.
  destruct n as [|n|c]; intros Ha; [done| |]; simpl in *.
  - by rewrite Ha.
  - by rewrite (proj1 (pubkey_format c)).
Qed.

End Confidential.
