(* ===== verification/Transaction.v ===== *)
(** * Transactions

    [rust-elements/src/transaction.rs]: outpoints, asset issuances (with
    Sequentia's denomination byte), inputs, outputs, witnesses and the
    transaction itself, with their consensus encoding, sizes and fee
    accessors.  The [sequentia] feature is on, as in the workspace's manifest. *)

From S2P Require Import Prelude Encode Script Timelocks Confidential.

(** ** The flag bits of an outpoint index *)

Definition not_u32 (x : Z) : Z := Z.lxor x 0xffffffff.

(** [TxIn::consensus_encode], the computation of [vout]. *)
Definition pack_vout (vout : Z) (is_pegin has_issuance : bool) : Z :=
  let vout := if is_pegin then Z.lor vout (Z.shiftl 1 30) else vout in
  if has_issuance then Z.lor vout (Z.shiftl 1 31) else vout.

(** [TxIn::consensus_decode], the flags read back from [outp.vout]. *)
Definition unpack_vout (vout : Z) : Z * bool * bool :=
  if vout =? 0xffffffff then (vout, false, false)
  else (Z.land vout (not_u32 (Z.lor (Z.shiftl 1 30) (Z.shiftl 1 31))),
        negb (Z.land vout (Z.shiftl 1 30) =? 0),
        negb (Z.land vout (Z.shiftl 1 31) =? 0)).

(** The triples that survive: the coinbase index carries no flag, and no other
    index reaches the flag bits or packs to the coinbase index. *)
Definition vout_ok (vout : Z) (is_pegin has_issuance : bool) : Prop :=
  (vout = 0xffffffff /\ is_pegin = false /\ has_issuance = false) \/
  (0 <= vout < 2 ^ 30 /\
   ~ (vout = 2 ^ 30 - 1 /\ is_pegin = true /\ has_issuance = true)).

Definition flag (n : Z) (b : bool) : Z := if b then 2 ^ n else 0.

Lemma pack_vout_sum v p i : 0 <= v < 2 ^ 30 -> pack_vout v p i = v + flag 30 p + flag 31 i.
Proof.
  intros Hv. unfold pack_vout, flag. rewrite !Z.shiftl_1_l. destruct p, i.
  all: rewrite ?(lor_below_pow2 v 30), ?(lor_below_pow2 _ 31) by lia; lia.
Qed.

Lemma unpack_vout_div w :
  is_u32 w -> w <> 0xffffffff ->
  unpack_vout w = (w mod 2 ^ 30, negb ((w / 2 ^ 30) mod 2 =? 0), negb (w / 2 ^ 31 =? 0)).
Proof.
  intros Hw Hne. unfold unpack_vout. rewrite (proj2 (Z.eqb_neq _ _) Hne).
  change (not_u32 _) with (Z.ones 30). rewrite !Z.shiftl_1_l, Z.land_ones by lia.
  rewrite !land_pow2 by lia.
  replace ((w / 2 ^ 31) mod 2) with (w / 2 ^ 31) by (symmetry; apply Z.mod_small; split;
    [apply Z.div_pos; lia|apply Z.div_lt_upper_bound; lia]).
  assert (H : forall k x, 0 < k -> (k * x =? 0) = (x =? 0)).
  { intros k x Hk. destruct (Z.eqb_spec x 0), (Z.eqb_spec (k * x) 0); nia || done. }
  by rewrite !H by lia.
Qed.

Lemma pack_vout_range v p i : vout_ok v p i -> is_u32 (pack_vout v p i).
Proof.
  intros [(-> & -> & ->)|[Hv _]]; [done|].
  rewrite pack_vout_sum by done. unfold flag. destruct p, i; lia.
Qed.

Lemma unpack_pack_vout v p i : vout_ok v p i -> unpack_vout (pack_vout v p i) = (v, p, i).
Proof.
  intros Hok. pose proof (pack_vout_range _ _ _ Hok) as Hr.
  destruct Hok as [(-> & -> & ->)|[Hv Hn]]; [done|].
  rewrite pack_vout_sum in * by done.
  rewrite unpack_vout_div; [|done|destruct p, i; simpl; try lia; intros E; apply Hn; lia].
  assert (E0 : (v + flag 30 p + flag 31 i) mod 2 ^ 30 = v).
  { symmetry. apply Z.mod_unique with (flag 0 p + flag 1 i); [lia|].
    unfold flag; destruct p, i; lia. }
  assert (E1 : (v + flag 30 p + flag 31 i) / 2 ^ 30 = flag 0 p + flag 1 i).
  { symmetry. apply Z.div_unique with v; [lia|]. unfold flag; destruct p, i; lia. }
  assert (E2 : (v + flag 30 p + flag 31 i) / 2 ^ 31 = flag 0 i).
  { symmetry. apply Z.div_unique with (v + flag 30 p); unfold flag; destruct p, i; lia. }
  rewrite E0, E1, E2. by destruct p, i.
Qed.

Lemma pack_unpack_vout w v p i :
  is_u32 w -> unpack_vout w = (v, p, i) -> vout_ok v p i /\ pack_vout v p i = w.
Proof.
  intros Hw. destruct (decide (w = 0xffffffff)) as [->|Hne].
  { intros [= <- <- <-]. split; [by left|done]. }
  rewrite unpack_vout_div by done. intros [= Ev Ep Ei].
  pose proof (Z.mod_pos_bound w (2 ^ 30)). pose proof (Z.div_mod w (2 ^ 30)).
  pose proof (Z.div_mod (w / 2 ^ 30) 2). pose proof (Z.mod_pos_bound (w / 2 ^ 30) 2).
  rewrite Z.div_div in * by lia. change (2 ^ 30 * 2) with (2 ^ 31) in *.
  assert (Hs : w = v + flag 30 p + flag 31 i).
  { unfold flag. subst p i.
    destruct (Z.eqb_spec ((w / 2 ^ 30) mod 2) 0), (Z.eqb_spec (w / 2 ^ 31) 0); simpl; lia. }
  assert (Hv : 0 <= v < 2 ^ 30) by lia.
  rewrite pack_vout_sum by done. split; [|done]. right. split; [done|].
  intros (-> & -> & ->). unfold flag in Hs. lia.
Qed.

(** ** Data *)

(** [OutPoint]. *)
Record OutPoint := mkOutPoint { txid : bytes; vout : Z }.
#[export] Instance OutPoint_eq_dec : EqDecision OutPoint.
Proof. solve_decision. Defined.
#[export] Instance OutPoint_countable : Countable OutPoint.
Proof.
  apply (inj_countable' (fun o => (txid o, vout o)) (fun '(t, v) => mkOutPoint t v)).
  by intros [].
Defined.

Definition zero_hash : bytes := replicate 32 Byte.x00.
Definition OutPoint_null : OutPoint := mkOutPoint zero_hash u32_max.
Definition OutPoint_is_null (o : OutPoint) : bool := bool_decide (o = OutPoint_null).
Definition OutPoint_wf (o : OutPoint) : Prop := hash_wf (txid o) /\ is_u32 (vout o).

Definition encode_OutPoint (o : OutPoint) : bytes := txid o ++ emit_u32 (vout o).
Definition decode_OutPoint : Reader OutPoint :=
  txid <<- read_exact 32;; vout <<- read_u32;; rd_ret (mkOutPoint txid vout).

Lemma OutPoint_codec : codec_ok encode_OutPoint decode_OutPoint OutPoint_wf.
Proof.
  split.
  - intros [t v] rest [Ht Hv]. unfold encode_OutPoint, decode_OutPoint. simpl in *.
    rewrite <-app_assoc. rewrite (codec_step (array_codec 32)) by done.
    by rewrite (codec_step u32_codec).
  - intros bs o rest E. codec_inv E with (array_codec 32) as t Ht.
    codec_inv E with u32_codec as v Hv. apply rd_ret_ok in E as [<- <-].
    split; [done|]. unfold encode_OutPoint. by rewrite <-app_assoc.
Qed.

Section Transaction.
Context {P : Platform} {S : Secp}.

(** [AssetIssuance]. *)
Record AssetIssuance := mkIssuance
  { asset_blinding_nonce : Tweak;
    asset_entropy : bytes;
    amount : Value;
    inflation_keys : Value;
    denomination : Z }.
#[export] Instance AssetIssuance_eq_dec : EqDecision AssetIssuance.
Proof. solve_decision. Defined.

Definition AssetIssuance_null : AssetIssuance :=
  mkIssuance ZERO_TWEAK zero_hash ValueNull ValueNull 8.

Definition AssetIssuance_is_null (i : AssetIssuance) : bool :=
  Value_is_null (amount i) && Value_is_null (inflation_keys i).

Definition encode_AssetIssuance (i : AssetIssuance) : bytes :=
  encode_tweak (asset_blinding_nonce i) ++ asset_entropy i ++ encode_Value (amount i) ++
  encode_Value (inflation_keys i) ++ emit_u8 (denomination i).

Definition decode_AssetIssuance : Reader AssetIssuance :=
  asset_blinding_nonce <<- decode_tweak;;
  asset_entropy <<- read_exact 32;;
  amount <<- decode_Value;;
  inflation_keys <<- decode_Value;;
  denomination <<- read_u8;;
  rd_ret (mkIssuance asset_blinding_nonce asset_entropy amount inflation_keys denomination).

Definition AssetIssuance_wf (i : AssetIssuance) : Prop :=
  hash_wf (asset_entropy i) /\ Value_wf (amount i) /\ Value_wf (inflation_keys i) /\
  is_u8 (denomination i).

(** [TxInWitness] and [TxOutWitness]. *)
Record TxInWitness := mkTxInWitness
  { amount_rangeproof : option RangeProof;
    inflation_keys_rangeproof : option RangeProof;
    script_witness : list bytes;
    pegin_witness : list bytes }.
#[export] Instance TxInWitness_eq_dec : EqDecision TxInWitness.
Proof. solve_decision. Defined.

Definition TxInWitness_empty : TxInWitness := mkTxInWitness None None [] [].

Definition is_none {A} (o : option A) : bool := match o with None => true | Some _ => false end.
Definition is_empty {A} (l : list A) : bool := match l with [] => true | _ => false end.

Definition TxInWitness_is_empty (w : TxInWitness) : bool :=
  is_none (amount_rangeproof w) && is_none (inflation_keys_rangeproof w) &&
  is_empty (script_witness w) && is_empty (pegin_witness w).

Definition encode_TxInWitness (w : TxInWitness) : bytes :=
  encode_box_option (amount_rangeproof w) ++
  encode_box_option (inflation_keys_rangeproof w) ++
  encode_vec_vec (script_witness w) ++ encode_vec_vec (pegin_witness w).

Definition decode_TxInWitness : Reader TxInWitness :=
  amount_rangeproof <<- decode_box_option RangeProof;;
  inflation_keys_rangeproof <<- decode_box_option RangeProof;;
  script_witness <<- decode_vec_vec;;
  pegin_witness <<- decode_vec_vec;;
  rd_ret (mkTxInWitness amount_rangeproof inflation_keys_rangeproof script_witness pegin_witness).

Definition TxInWitness_wf (w : TxInWitness) : Prop :=
  box_option_wf (amount_rangeproof w) /\ box_option_wf (inflation_keys_rangeproof w) /\
  vec_vec_wf (script_witness w) /\ vec_vec_wf (pegin_witness w).

Record TxOutWitness := mkTxOutWitness
  { surjection_proof : option SurjectionProof;
    rangeproof : option RangeProof }.
#[export] Instance TxOutWitness_eq_dec : EqDecision TxOutWitness.
Proof. solve_decision. Defined.

Definition TxOutWitness_empty : TxOutWitness := mkTxOutWitness None None.
Definition TxOutWitness_is_empty (w : TxOutWitness) : bool :=
  is_none (surjection_proof w) && is_none (rangeproof w).

Definition ext_len {T : ext_type} (o : option T) : Z :=
  match o with Some p => Z.of_nat (length (ext_ser p)) | None => 0 end.
Definition rangeproof_len (w : TxOutWitness) : Z := ext_len (rangeproof w).
Definition surjectionproof_len (w : TxOutWitness) : Z := ext_len (surjection_proof w).

Definition encode_TxOutWitness (w : TxOutWitness) : bytes :=
  encode_box_option (surjection_proof w) ++ encode_box_option (rangeproof w).

Definition decode_TxOutWitness : Reader TxOutWitness :=
  surjection_proof <<- decode_box_option SurjectionProof;;
  rangeproof <<- decode_box_option RangeProof;;
  rd_ret (mkTxOutWitness surjection_proof rangeproof).

Definition TxOutWitness_wf (w : TxOutWitness) : Prop :=
  box_option_wf (surjection_proof w) /\ box_option_wf (rangeproof w).

(** [TxIn].  The witness travels with the transaction, not with the input. *)
Record TxIn := mkTxIn
  { previous_output : OutPoint;
    is_pegin : bool;
    script_sig : Script;
    sequence : Sequence;
    asset_issuance : AssetIssuance;
    in_witness : TxInWitness }.
#[export] Instance TxIn_eq_dec : EqDecision TxIn.
Proof. solve_decision. Defined.

Definition TxIn_default : TxIn :=
  mkTxIn OutPoint_null false [] Sequence_MAX AssetIssuance_null TxInWitness_empty.

Definition has_issuance (i : TxIn) : bool := negb (AssetIssuance_is_null (asset_issuance i)).

Definition TxIn_is_coinbase (i : TxIn) : bool :=
  bool_decide (previous_output i = OutPoint_null).

(** [TxIn::pegin_prevout]: the same reference read as a Bitcoin outpoint. *)
Definition pegin_prevout (i : TxIn) : option OutPoint :=
  if is_pegin i then Some (previous_output i) else None.

Definition bool_u8 (b : bool) : Z := if b then 1 else 0.

Definition outpoint_flag (i : TxIn) : Z :=
  Z.lor (Z.shiftl (bool_u8 (is_pegin i)) 6) (Z.shiftl (bool_u8 (has_issuance i)) 7).

Definition encode_TxIn (i : TxIn) : bytes :=
  txid (previous_output i) ++
  emit_u32 (pack_vout (vout (previous_output i)) (is_pegin i) (has_issuance i)) ++
  encode_vec_u8 (script_sig i) ++
  encode_Sequence (sequence i) ++
  (if has_issuance i then encode_AssetIssuance (asset_issuance i) else []).

Definition decode_TxIn : Reader TxIn :=
  outp <<- decode_OutPoint;;
  script_sig <<- decode_vec_u8;;
  sequence <<- decode_Sequence;;
  let '(v, is_pegin, has_issuance) := unpack_vout (vout outp) in
  let outp := mkOutPoint (txid outp) v in
  if has_issuance : bool then
    issuance <<- decode_AssetIssuance;;
    if AssetIssuance_is_null issuance
    then rd_fail (ParseFailed "superfluous asset issuance")
    else rd_ret (mkTxIn outp is_pegin script_sig sequence issuance TxInWitness_empty)
  else rd_ret (mkTxIn outp is_pegin script_sig sequence AssetIssuance_null TxInWitness_empty).

Definition set_in_witness (i : TxIn) (w : TxInWitness) : TxIn :=
  mkTxIn (previous_output i) (is_pegin i) (script_sig i) (sequence i) (asset_issuance i) w.

(** Everything of an input but its witness. *)
Definition TxIn_base_wf (i : TxIn) : Prop :=
  hash_wf (txid (previous_output i)) /\
  vout_ok (vout (previous_output i)) (is_pegin i) (has_issuance i) /\
  vec_u8_wf (script_sig i) /\ Sequence_wf (sequence i) /\
  (if has_issuance i then AssetIssuance_wf (asset_issuance i)
   else asset_issuance i = AssetIssuance_null).

(** [TxOut]. *)
Record TxOut := mkTxOut
  { asset : Asset;
    value : Value;
    nonce : Nonce;
    script_pubkey : Script;
    out_witness : TxOutWitness }.
#[export] Instance TxOut_eq_dec : EqDecision TxOut.
Proof. solve_decision. Defined.

Definition encode_TxOut (o : TxOut) : bytes :=
  encode_Asset (asset o) ++ encode_Value (value o) ++ encode_Nonce (nonce o) ++
  encode_vec_u8 (script_pubkey o).

Definition decode_TxOut : Reader TxOut :=
  asset <<- decode_Asset;;
  value <<- decode_Value;;
  nonce <<- decode_Nonce;;
  script_pubkey <<- decode_vec_u8;;
  rd_ret (mkTxOut asset value nonce script_pubkey TxOutWitness_empty).

Definition set_out_witness (o : TxOut) (w : TxOutWitness) : TxOut :=
  mkTxOut (asset o) (value o) (nonce o) (script_pubkey o) w.

Definition TxOut_base_wf (o : TxOut) : Prop :=
  Asset_wf (asset o) /\ Value_wf (value o) /\ Nonce_wf (nonce o) /\ vec_u8_wf (script_pubkey o).

(** [Transaction]. *)
Record Transaction := mkTransaction
  { version : Z;
    lock_time : LockTime;
    input : list TxIn;
    output : list TxOut }.
#[export] Instance Transaction_eq_dec : EqDecision Transaction.
Proof. solve_decision. Defined.

Definition Transaction_is_coinbase (tx : Transaction) : bool :=
  match input tx with
  | [i] => TxIn_is_coinbase i
  | _ => false
  end.

Definition has_witness (tx : Transaction) : bool :=
  existsb (fun i => negb (TxInWitness_is_empty (in_witness i))) (input tx) ||
  existsb (fun o => negb (TxOutWitness_is_empty (out_witness o))) (output tx).

Definition encode_Transaction (tx : Transaction) : bytes :=
  let wit_flag := has_witness tx in
  emit_u32 (version tx) ++
  (if wit_flag then emit_u8 1 else emit_u8 0) ++
  encode_vec encode_TxIn (input tx) ++
  encode_vec encode_TxOut (output tx) ++
  encode_LockTime (lock_time tx) ++
  (if wit_flag
   then concat (map (fun i => encode_TxInWitness (in_witness i)) (input tx)) ++
        concat (map (fun o => encode_TxOutWitness (out_witness o)) (output tx))
   else []).

(** The loops that read one witness per input and per output. *)
Fixpoint decode_in_witnesses (l : list TxIn) : Reader (list TxIn) :=
  match l with
  | [] => rd_ret []
  | i :: l =>
      w <<- decode_TxInWitness;;
      l <<- decode_in_witnesses l;;
      rd_ret (set_in_witness i w :: l)
  end.

Fixpoint decode_out_witnesses (l : list TxOut) : Reader (list TxOut) :=
  match l with
  | [] => rd_ret []
  | o :: l =>
      w <<- decode_TxOutWitness;;
      l <<- decode_out_witnesses l;;
      rd_ret (set_out_witness o w :: l)
  end.

Definition decode_Transaction : Reader Transaction :=
  version <<- read_u32;;
  wit_flag <<- read_u8;;
  input <<- decode_vec size_of_TxIn decode_TxIn;;
  output <<- decode_vec size_of_TxOut decode_TxOut;;
  lock_time <<- decode_LockTime;;
  if wit_flag =? 0 then rd_ret (mkTransaction version lock_time input output)
  else if wit_flag =? 1 then
    input <<- decode_in_witnesses input;;
    output <<- decode_out_witnesses output;;
    if forallb (fun i => TxInWitness_is_empty (in_witness i)) input &&
       forallb (fun o => TxOutWitness_is_empty (out_witness o)) output
    then rd_fail (ParseFailed "witness flag set but no witnesses were given")
    else rd_ret (mkTransaction version lock_time input output)
  else rd_fail (ParseFailed "bad witness flag in tx").

Definition Transaction_wf (tx : Transaction) : Prop :=
  is_u32 (version tx) /\ LockTime_wf (lock_time tx) /\
  vec_wf size_of_TxIn (fun i => TxIn_base_wf i /\ TxInWitness_wf (in_witness i)) (input tx) /\
  vec_wf size_of_TxOut (fun o => TxOut_base_wf o /\ TxOutWitness_wf (out_witness o)) (output tx).

(** The bytes [Transaction::txid] feeds the hash engine: the encoding without
    the witness. *)
Definition encode_base (tx : Transaction) : bytes :=
  emit_u32 (version tx) ++ emit_u8 0 ++ encode_vec encode_TxIn (input tx) ++
  encode_vec encode_TxOut (output tx) ++ encode_LockTime (lock_time tx).

(** ** Codecs of the parts *)

#[local] Opaque emit_u8 emit_u16 emit_u32 emit_u64 emit_varint pack_vout unpack_vout.

(** Run a decoder on an encoding whose first component has codec [c]. *)
Ltac run c := rewrite (codec_step c) by done.

Lemma AssetIssuance_codec :
  codec_ok encode_AssetIssuance decode_AssetIssuance AssetIssuance_wf.
Proof.
  split.
  - intros [n e a k d] rest (He & Ha & Hk & Hd).
    unfold encode_AssetIssuance, decode_AssetIssuance. simpl in *. rewrite <-!app_assoc.
    run tweak_codec. run (array_codec 32). run Value_codec.
    run Value_codec. by run u8_codec.
  - intros bs o rest E. codec_inv E with tweak_codec as n Hn.
    codec_inv E with (array_codec 32) as e He. codec_inv E with Value_codec as a Ha.
    codec_inv E with Value_codec as k Hk. codec_inv E with u8_codec as d Hd.
    apply rd_ret_ok in E as [<- <-]. split; [done|].
    unfold encode_AssetIssuance. by rewrite <-!app_assoc.
Qed.

Lemma TxInWitness_codec : codec_ok encode_TxInWitness decode_TxInWitness TxInWitness_wf.
Proof.
  split.
  - intros [a k s p] rest (Ha & Hk & Hs & Hp).
    unfold encode_TxInWitness, decode_TxInWitness. simpl in *. rewrite <-!app_assoc.
    run rangeproof_codec. run rangeproof_codec. run vec_vec_codec. by run vec_vec_codec.
  - intros bs o rest E. codec_inv E with rangeproof_codec as a Ha.
    codec_inv E with rangeproof_codec as k Hk. codec_inv E with vec_vec_codec as s Hs.
    codec_inv E with vec_vec_codec as p Hp. apply rd_ret_ok in E as [<- <-].
    split; [done|]. unfold encode_TxInWitness. by rewrite <-!app_assoc.
Qed.

Lemma TxOutWitness_codec : codec_ok encode_TxOutWitness decode_TxOutWitness TxOutWitness_wf.
Proof.
  split.
  - intros [s r] rest (Hs & Hr). unfold encode_TxOutWitness, decode_TxOutWitness. simpl in *.
    rewrite <-!app_assoc. run surjectionproof_codec. by run rangeproof_codec.
  - intros bs o rest E. codec_inv E with surjectionproof_codec as s Hs.
    codec_inv E with rangeproof_codec as r Hr. apply rd_ret_ok in E as [<- <-].
    split; [done|]. unfold encode_TxOutWitness. by rewrite <-!app_assoc.
Qed.

Lemma TxIn_codec :
  codec_ok encode_TxIn decode_TxIn
    (fun i => TxIn_base_wf i /\ in_witness i = TxInWitness_empty).
Proof.
  split.
  - intros [[t v] p s q iss w] rest [(Ht & Hv & Hs & Hq & Hi) Hw].
    unfold encode_TxIn, decode_TxIn. simpl in *. rewrite <-!app_assoc. subst w.
    change (has_issuance _) with (negb (AssetIssuance_is_null iss)) in *.
    rewrite app_assoc. set (pv := pack_vout v p _).
    change (t ++ emit_u32 pv) with (encode_OutPoint (mkOutPoint t pv)). unfold pv.
    rewrite (codec_step OutPoint_codec) by (split; [done|by apply pack_vout_range]).
    run vec_u8_codec. run Sequence_codec. simpl.
    rewrite unpack_pack_vout by done.
    destruct (AssetIssuance_is_null iss) eqn:En; simpl in *; [by subst|].
    run AssetIssuance_codec. by rewrite En.
  - intros bs o rest E. codec_inv E with OutPoint_codec as op Ho.
    codec_inv E with vec_u8_codec as s Hs. codec_inv E with Sequence_codec as q Hq.
    destruct op as [t w]. destruct Ho as [Ht Hw]. simpl in *.
    destruct (unpack_vout w) as [[v p] b] eqn:Eu.
    destruct (pack_unpack_vout _ _ _ _ Hw Eu) as [Hok Hpack]. destruct b.
    + codec_inv E with AssetIssuance_codec as iss Hiss.
      destruct (AssetIssuance_is_null iss) eqn:En; [done|].
      apply rd_ret_ok in E as [<- <-].
      unfold TxIn_base_wf, encode_TxIn, has_issuance. simpl. rewrite En. simpl.
      split; [done|]. rewrite Hpack. unfold encode_OutPoint. simpl. by rewrite <-!app_assoc.
    + apply rd_ret_ok in E as [<- <-].
      unfold TxIn_base_wf, encode_TxIn, has_issuance. simpl.
      split; [done|]. rewrite Hpack. unfold encode_OutPoint. simpl. by rewrite <-!app_assoc.
Qed.

Lemma TxOut_codec :
  codec_ok encode_TxOut decode_TxOut
    (fun o => TxOut_base_wf o /\ out_witness o = TxOutWitness_empty).
Proof.
  split.
  - intros [a v n s w] rest [(Ha & Hv & Hn & Hs) Hw]. unfold encode_TxOut, decode_TxOut.
    simpl in *. rewrite <-!app_assoc. subst w. run Asset_codec.
    run Value_codec. run Nonce_codec. by run vec_u8_codec.
  - intros bs o rest E. codec_inv E with Asset_codec as a Ha.
    codec_inv E with Value_codec as v Hv. codec_inv E with Nonce_codec as n Hn.
    codec_inv E with vec_u8_codec as s Hs. apply rd_ret_ok in E as [<- <-].
    split; [done|]. unfold encode_TxOut. simpl. by rewrite <-!app_assoc.
Qed.
(** ** The transaction codec *)

(** An input or output as the first pass of the decoder sees it. *)
Definition strip_in (i : TxIn) : TxIn := set_in_witness i TxInWitness_empty.
Definition strip_out (o : TxOut) : TxOut := set_out_witness o TxOutWitness_empty.

Lemma strip_in_id i : in_witness i = TxInWitness_empty -> strip_in i = i.
Proof. destruct i; simpl; by intros ->. Qed.
Lemma strip_out_id o : out_witness o = TxOutWitness_empty -> strip_out o = o.
Proof. destruct o; simpl; by intros ->. Qed.

Lemma TxInWitness_is_empty_spec w : TxInWitness_is_empty w = true <-> w = TxInWitness_empty.
Proof. destruct w as [[] [] [] []]; split; by intros. Qed.
Lemma TxOutWitness_is_empty_spec w : TxOutWitness_is_empty w = true <-> w = TxOutWitness_empty.
Proof. destruct w as [[] []]; split; by intros. Qed.

Lemma TxInWitness_empty_wf : TxInWitness_wf TxInWitness_empty.
Proof.
  pose proof max_vec_size_usize.
  repeat split; simpl; try constructor; lia.
Qed.

Lemma has_witness_false tx :
  has_witness tx = false <->
  Forall (fun i => in_witness i = TxInWitness_empty) (input tx) /\
  Forall (fun o => out_witness o = TxOutWitness_empty) (output tx).
Proof.
  unfold has_witness. rewrite orb_false_iff.
  rewrite (existsb_negb_false (fun i => TxInWitness_is_empty (in_witness i))).
  rewrite (existsb_negb_false (fun o => TxOutWitness_is_empty (out_witness o))).
  f_equiv; apply Forall_iff; intros x.
  - apply TxInWitness_is_empty_spec.
  - apply TxOutWitness_is_empty_spec.
Qed.

Lemma no_witness_forallb tx :
  forallb (fun i => TxInWitness_is_empty (in_witness i)) (input tx) &&
  forallb (fun o => TxOutWitness_is_empty (out_witness o)) (output tx) =
  negb (has_witness tx).
Proof.
  unfold has_witness. rewrite negb_orb. f_equal.
  - induction (input tx) as [|i l IH]; simpl; [done|]. rewrite IH, negb_orb, negb_involutive. done.
  - induction (output tx) as [|i l IH]; simpl; [done|]. rewrite IH, negb_orb, negb_involutive. done.
Qed.

Lemma decode_in_witnesses_app l rest :
  Forall (fun i => TxInWitness_wf (in_witness i)) l ->
  decode_in_witnesses (map strip_in l)
    (concat (map (fun i => encode_TxInWitness (in_witness i)) l) ++ rest) = Ok (l, rest).
Proof.
  induction 1 as [|i l Hi Hl IH]; simpl; [done|]. rewrite <-app_assoc.
  run TxInWitness_codec. unfold rd_bind. rewrite IH. by destruct i.
Qed.

Lemma decode_out_witnesses_app l rest :
  Forall (fun o => TxOutWitness_wf (out_witness o)) l ->
  decode_out_witnesses (map strip_out l)
    (concat (map (fun o => encode_TxOutWitness (out_witness o)) l) ++ rest) = Ok (l, rest).
Proof.
  induction 1 as [|i l Hi Hl IH]; simpl; [done|]. rewrite <-app_assoc.
  run TxOutWitness_codec. unfold rd_bind. rewrite IH. by destruct i.
Qed.

Lemma decode_in_witnesses_inv l0 bs l rest :
  decode_in_witnesses l0 bs = Ok (l, rest) ->
  Forall (fun i => TxInWitness_wf (in_witness i)) l /\
  map strip_in l = map strip_in l0 /\
  bs = concat (map (fun i => encode_TxInWitness (in_witness i)) l) ++ rest.
Proof.
  revert bs l. induction l0 as [|i l0 IH]; intros bs l E; simpl in E.
  { apply rd_ret_ok in E as [<- <-]. done. }
  codec_inv E with TxInWitness_codec as w Hw.
  apply rd_bind_ok in E as (l' & mid' & Hl & E). apply rd_ret_ok in E as [<- <-].
  apply IH in Hl as (Hf & Hs & ->). split; [by constructor|]. simpl.
  rewrite Hs, <-app_assoc. done.
Qed.

Lemma decode_out_witnesses_inv l0 bs l rest :
  decode_out_witnesses l0 bs = Ok (l, rest) ->
  Forall (fun o => TxOutWitness_wf (out_witness o)) l /\
  map strip_out l = map strip_out l0 /\
  bs = concat (map (fun o => encode_TxOutWitness (out_witness o)) l) ++ rest.
Proof.
  revert bs l. induction l0 as [|i l0 IH]; intros bs l E; simpl in E.
  { apply rd_ret_ok in E as [<- <-]. done. }
  codec_inv E with TxOutWitness_codec as w Hw.
  apply rd_bind_ok in E as (l' & mid' & Hl & E). apply rd_ret_ok in E as [<- <-].
  apply IH in Hl as (Hf & Hs & ->). split; [by constructor|]. simpl.
  rewrite Hs, <-app_assoc. done.
Qed.

(** The encoding of a vector ignores witnesses. *)
Lemma encode_inputs_strip l : encode_vec encode_TxIn l = encode_vec encode_TxIn (map strip_in l).
Proof. unfold encode_vec. by rewrite length_map, map_map. Qed.
Lemma encode_outputs_strip l :
  encode_vec encode_TxOut l = encode_vec encode_TxOut (map strip_out l).
Proof. unfold encode_vec. by rewrite length_map, map_map. Qed.

Lemma inputs_strip_wf l :
  vec_wf size_of_TxIn (fun i => TxIn_base_wf i /\ TxInWitness_wf (in_witness i)) l ->
  vec_wf size_of_TxIn (fun i => TxIn_base_wf i /\ in_witness i = TxInWitness_empty)
    (map strip_in l).
Proof.
  intros [Hl Hs]. split; [|by rewrite length_map].
  apply Forall_fmap. eapply Forall_impl; [exact Hl|]. intros i [Hi _]. by split.
Qed.

Lemma outputs_strip_wf l :
  vec_wf size_of_TxOut (fun o => TxOut_base_wf o /\ TxOutWitness_wf (out_witness o)) l ->
  vec_wf size_of_TxOut (fun o => TxOut_base_wf o /\ out_witness o = TxOutWitness_empty)
    (map strip_out l).
Proof.
  intros [Hl Hs]. split; [|by rewrite length_map].
  apply Forall_fmap. eapply Forall_impl; [exact Hl|]. intros i [Hi _]. by split.
Qed.

(** A list decoded in two passes is well formed when both passes were. *)
Lemma filled_wf {A W} (sz : Z) (strip : A -> A) (wit : A -> W) (base : A -> Prop) (wwf : W -> Prop)
    (e : W) (l0 l : list A) :
  (forall a, base (strip a) -> base a) ->
  (forall a, wit a = e -> strip a = a) ->
  vec_wf sz (fun a => base a /\ wit a = e) l0 ->
  map strip l = map strip l0 ->
  Forall (fun a => wwf (wit a)) l ->
  map strip l = l0 /\ vec_wf sz (fun a => base a /\ wwf (wit a)) l.
Proof.
  intros Hb Hs [H0 Hsz] Hm Hw.
  assert (E0 : map strip l0 = l0).
  { clear -H0 Hs. induction H0 as [|a l [_ Ha] Hl IH]; simpl; [done|]. by rewrite IH, Hs. }
  rewrite E0 in Hm. split; [done|]. split.
  - rewrite <-Hm in H0. apply Forall_fmap in H0. apply Forall_and. split; [|done].
    eapply Forall_impl; [exact H0|]. intros a [Ha _]. by apply Hb.
  - apply (f_equal length) in Hm. rewrite length_map in Hm. by rewrite Hm.
Qed.
Lemma inputs_codec :
  codec_ok (encode_vec encode_TxIn) (decode_vec size_of_TxIn decode_TxIn)
    (vec_wf size_of_TxIn (fun i => TxIn_base_wf i /\ in_witness i = TxInWitness_empty)).
Proof. apply vec_codec; [apply size_of_TxIn_pos|apply TxIn_codec]. Qed.

Lemma outputs_codec :
  codec_ok (encode_vec encode_TxOut) (decode_vec size_of_TxOut decode_TxOut)
    (vec_wf size_of_TxOut (fun o => TxOut_base_wf o /\ out_witness o = TxOutWitness_empty)).
Proof. apply vec_codec; [apply size_of_TxOut_pos|apply TxOut_codec]. Qed.

Lemma map_strip_in_id l : Forall (fun i => in_witness i = TxInWitness_empty) l -> map strip_in l = l.
Proof. induction 1 as [|i l Hi _ IH]; simpl; [done|]. by rewrite IH, strip_in_id. Qed.
Lemma map_strip_out_id l :
  Forall (fun o => out_witness o = TxOutWitness_empty) l -> map strip_out l = l.
Proof. induction 1 as [|i l Hi _ IH]; simpl; [done|]. by rewrite IH, strip_out_id. Qed.

Lemma decode_encode_Transaction tx rest :
  Transaction_wf tx -> decode_Transaction (encode_Transaction tx ++ rest) = Ok (tx, rest).
Proof.
  intros (Hv & Hl & Hi & Ho). unfold encode_Transaction, decode_Transaction.
  rewrite <-!app_assoc. run u32_codec.
  assert (Hflag : (if has_witness tx then emit_u8 1 else emit_u8 0) =
                  emit_u8 (if has_witness tx then 1 else 0)) by by destruct (has_witness tx).
  rewrite Hflag, (codec_step u8_codec) by (destruct (has_witness tx); done).
  rewrite encode_inputs_strip, encode_outputs_strip.
  rewrite (codec_step inputs_codec) by by apply inputs_strip_wf.
  rewrite (codec_step outputs_codec) by by apply outputs_strip_wf.
  run LockTime_codec. destruct (has_witness tx) eqn:Hw; simpl.
  - rewrite <-app_assoc. unfold rd_bind.
    rewrite decode_in_witnesses_app
      by (eapply Forall_impl; [apply Hi|]; by intros ? []).
    rewrite decode_out_witnesses_app
      by (eapply Forall_impl; [apply Ho|]; by intros ? []).
    rewrite no_witness_forallb, Hw. by destruct tx.
  - apply has_witness_false in Hw as [Hwi Hwo].
    rewrite map_strip_in_id, map_strip_out_id by done. by destruct tx.
Qed.

Lemma Transaction_canonical bs tx rest :
  decode_Transaction bs = Ok (tx, rest) ->
  Transaction_wf tx /\ bs = encode_Transaction tx ++ rest.
Proof.
  intros E. codec_inv E with u32_codec as v Hv. codec_inv E with u8_codec as f Hf.
  codec_inv E with inputs_codec as i Hi. codec_inv E with outputs_codec as o Ho.
  codec_inv E with LockTime_codec as l Hl.
  destruct (Z.eqb_spec f 0) as [->|_]; [|destruct (Z.eqb_spec f 1) as [->|_]; [|done]].
  - apply rd_ret_ok in E as [<- <-].
    assert (Hw : has_witness (mkTransaction v l i o) = false).
    { apply has_witness_false. split; (eapply Forall_impl; [apply Hi || apply Ho|]; by intros ? []). }
    split.
    + split; [done|]. split; [done|]. split.
      * destruct Hi as [Hi Hs]. split; [|done]. eapply Forall_impl; [exact Hi|].
        intros x [Hx ->]. split; [done|apply TxInWitness_empty_wf].
      * destruct Ho as [Ho Hs]. split; [|done]. eapply Forall_impl; [exact Ho|].
        intros x [Hx ->]. by split.
    + unfold encode_Transaction. rewrite Hw. simpl. by rewrite app_nil_r, <-!app_assoc.
  - apply rd_bind_ok in E as (i' & ? & Ei & E). apply rd_bind_ok in E as (o' & ? & Eo & E).
    apply decode_in_witnesses_inv in Ei as (Wi & Si & ->).
    apply decode_out_witnesses_inv in Eo as (Wo & So & ->).
    destruct (filled_wf _ strip_in in_witness TxIn_base_wf TxInWitness_wf _ _ _
      (fun a H => H) strip_in_id Hi Si Wi) as [<- Hi'].
    destruct (filled_wf _ strip_out out_witness TxOut_base_wf TxOutWitness_wf _ _ _
      (fun a H => H) strip_out_id Ho So Wo) as [<- Ho'].
    pose proof (no_witness_forallb (mkTransaction v l i' o')) as Hw. simpl in Hw.
    rewrite Hw in E.
    destruct (has_witness (mkTransaction v l i' o')) eqn:Hwt; [|done].
    apply rd_ret_ok in E as [<- <-]. split; [done|].
    unfold encode_Transaction. rewrite Hwt. simpl.
    by rewrite (encode_inputs_strip i'), (encode_outputs_strip o'), <-!app_assoc.
Qed.

Lemma Transaction_codec : codec_ok encode_Transaction decode_Transaction Transaction_wf.
Proof. split; [apply decode_encode_Transaction|apply Transaction_canonical]. Qed.

#[export] Instance Transaction_Encodable : Encodable Transaction := encode_Transaction.
#[export] Instance Transaction_Decodable : Decodable Transaction := decode_Transaction.
#[export] Instance Transaction_Codec : Codec Transaction Transaction_wf := Transaction_codec.
End Transaction.

(** ** Claims *)

(** C2: A byte string parses as a transaction exactly when it is the
    serialization of a well-formed transaction.  So parsing inverts
    serialization, no two transactions share a serialization, and no accepted
    byte string is malleable: the flag bits packed into the outpoint index, the
    witness marker, the compact sizes and the issuance presence are all forced. *)
Theorem transaction_deserialize_iff `{Platform} `{Secp} (data : bytes) (tx : Transaction) :
  deserialize data = Ok tx <-> Transaction_wf tx /\ data = serialize tx.
Proof. exact (deserialize_ok data tx). Qed.

Module TxSample.
#[export] Existing Instance Model.Secp_model.
#[export] Existing Instance Model.Platform_model.

Definition hash (b : byte) : bytes := replicate 32 b.

(** A peg-in input that also issues an asset of denomination 2, an ordinary
    input with a script witness, a payment and a fee. *)
Definition sample_tx : Transaction :=
  mkTransaction 2 (LockTime_from_consensus 500000001)
    [mkTxIn (mkOutPoint (hash Byte.x11) 5) true [] (mkSequence 0xfffffffe)
       (mkIssuance ZERO_TWEAK (hash Byte.x22) (ValueExplicit 1000) ValueNull 2)
       TxInWitness_empty;
     mkTxIn (mkOutPoint (hash Byte.x33) 0) false [Byte.x51] Sequence_MAX AssetIssuance_null
       (mkTxInWitness None None [[Byte.x01]; []] [])]
    [mkTxOut (AssetExplicit (hash Byte.x44)) (ValueExplicit 21) NonceNull [Byte.x00; Byte.x14]
       TxOutWitness_empty;
     mkTxOut (AssetExplicit (hash Byte.x44)) (ValueExplicit 3) NonceNull [] TxOutWitness_empty].

Lemma sample_tx_wf : Transaction_wf sample_tx.
Proof.
  split; [done|]. split; [done|].
  repeat (cbn; first [done | split | apply List.Forall_cons | apply List.Forall_nil |
    right; split; [done|by intros (? & ? & ?)]]).
Defined.
End TxSample.
Import TxSample.

Lemma transaction_deserialize_iff_witness :
  deserialize (serialize sample_tx) = Ok sample_tx.
Proof.
  apply (proj2 (transaction_deserialize_iff (serialize sample_tx) sample_tx)).
  split; [exact sample_tx_wf|reflexivity].
Defined.
