(* ===== verification/TxMetrics.v ===== *)
(** * Sizes, weights, fees and special outputs of a transaction

    The methods of [Transaction] and [TxOut] in
    [rust-elements/src/transaction.rs] that are computed from the fields:
    [scaled_size] and what is built on it, the fee accessors, and the
    recognition of fee, null-data and peg-out outputs. *)

From S2P Require Import Prelude Encode Script Timelocks Confidential Transaction.

Section Metrics.
Context {P : Platform} {S : Secp}.

(** ** Sizes *)

(** The size of an optional proof and of a stack of witness items, as
    [scaled_size] counts them. *)
Definition proof_size (len : Z) : Z := varint_size len + len.
Definition stack_size (l : list bytes) : Z :=
  varint_size (zlen l) + sum_map (fun wit => varint_size (zlen wit) + zlen wit) l.

(** The closure mapped over the inputs. *)
Definition input_weight (scale_factor : Z) (witness_flag : bool) (i : TxIn) : Z :=
  scale_factor *
    (32 + 4 + 4 + varint_size (zlen (script_sig i)) + zlen (script_sig i) +
     (if has_issuance i
      then 64 + Value_encoded_length (amount (asset_issuance i)) +
           Value_encoded_length (inflation_keys (asset_issuance i))
      else 0)) +
  (if witness_flag
   then proof_size (ext_len (amount_rangeproof (in_witness i))) +
        proof_size (ext_len (inflation_keys_rangeproof (in_witness i))) +
        stack_size (script_witness (in_witness i)) +
        stack_size (pegin_witness (in_witness i))
   else 0).

(** The closure mapped over the outputs. *)
Definition output_weight (scale_factor : Z) (witness_flag : bool) (o : TxOut) : Z :=
  scale_factor *
    (Asset_encoded_length (asset o) + Value_encoded_length (value o) +
     Nonce_encoded_length (nonce o) +
     varint_size (zlen (script_pubkey o)) + zlen (script_pubkey o)) +
  (if witness_flag
   then proof_size (surjectionproof_len (out_witness o)) +
        proof_size (rangeproof_len (out_witness o))
   else 0).

Definition scaled_size (tx : Transaction) (scale_factor : Z) : Z :=
  let witness_flag := has_witness tx in
  scale_factor *
    (4 + 4 + varint_size (zlen (input tx)) + varint_size (zlen (output tx)) + 1) +
  sum_map (input_weight scale_factor witness_flag) (input tx) +
  sum_map (output_weight scale_factor witness_flag) (output tx).

Definition weight (tx : Transaction) : Z := scaled_size tx 4.
Definition size (tx : Transaction) : Z := scaled_size tx 1.
Definition vsize (tx : Transaction) : Z := (weight tx + 4 - 1) / 4.

(** One iteration of the loop of [discount_weight]; [usize] subtraction wraps. *)
Definition discount_output (weight : Z) (out : TxOut) : Z :=
  let rp_len := rangeproof_len (out_witness out) in
  let sp_len := surjectionproof_len (out_witness out) in
  let witness_weight := varint_size sp_len + sp_len + varint_size rp_len + rp_len in
  let weight := wrap_u64 (weight - saturating_sub witness_weight 2) in
  let weight := if Value_is_confidential (value out)
                then wrap_u64 (weight - (33 - 9) * 4) else weight in
  if Nonce_is_confidential (nonce out) then wrap_u64 (weight - (33 - 1) * 4) else weight.

Definition discount_weight (tx : Transaction) : Z :=
  fold_left discount_output (output tx) (scaled_size tx 4).

Definition discount_vsize (tx : Transaction) : Z := (discount_weight tx + 4 - 1) / 4.

(** ** Fees *)

Definition new_fee (amount : Z) (asset : AssetId) : TxOut :=
  mkTxOut (AssetExplicit asset) (ValueExplicit amount) NonceNull [] TxOutWitness_empty.

Definition is_fee (o : TxOut) : bool :=
  is_empty (script_pubkey o) && Value_is_explicit (value o) && Asset_is_explicit (asset o).

(** [fee_in]: [expect] on [None] is unreachable behind [is_fee]. *)
Definition fee_in (tx : Transaction) (a : AssetId) : Z :=
  foldl (fun acc o => wrap_u64 (acc + default 0 (Value_explicit (value o)))) 0
    (filter (fun o => is_fee o = true /\ Asset_explicit (asset o) = Some a) (output tx)).

Definition all_fees (tx : Transaction) : gmap AssetId Z :=
  foldl (fun fees out =>
           match Asset_explicit (asset out), Value_explicit (value out) with
           | Some a, Some v => <[a := wrap_u64 (default 0 (fees !! a) + v)]> fees
           | _, _ => fees
           end) ∅ (filter (fun o => is_fee o = true) (output tx)).

(** ** Null data and peg-outs *)

(** The loop of [is_null_data] over the instructions after [OP_RETURN]. *)
Definition null_data_push (push : result Instruction script_error) : bool :=
  match push with
  | Ok (Op op) => op <=? OP_PUSHNUM_16
  | Err _ => false
  | Ok (PushBytes _) => true
  end.

Definition is_null_data (o : TxOut) : bool :=
  match instructions (script_pubkey o) with
  | Ok (Op op) :: iter => (op =? OP_RETURN) && forallb null_data_push iter
  | _ => false
  end.

Record PegoutData := mkPegout
  { pegout_value : Z;
    pegout_asset : Asset;
    pegout_genesis_hash : bytes;
    pegout_script_pubkey : Script;
    pegout_extra_data : list bytes }.

Definition as_push (x : result Instruction script_error) : option bytes :=
  match x with
  | Ok (PushBytes data) => Some data
  | _ => None
  end.

Definition pegout_data (o : TxOut) : option PegoutData :=
  if negb (is_null_data o) then None
  else
    v ← Value_explicit (value o);
    match drop 1 (instructions (script_pubkey o)) with
    | h :: d :: iter =>
        genesis_hash ← as_push h;
        if negb (length genesis_hash =? 32)%nat then None else
        spk ← as_push d;
        if (length spk =? 0)%nat then None else
        remainder ← mapM as_push iter;
        Some (mkPegout v (asset o) genesis_hash spk remainder)
    | _ => None
    end.

Definition is_pegout (o : TxOut) : bool := bool_decide (is_Some (pegout_data o)).
(** ** Lengths of encodings *)

Lemma zlen_le_bytes n v : zlen (le_bytes n v) = Z.of_nat n.
Proof. unfold zlen. by rewrite length_le_bytes. Qed.

Lemma vec_len_u64 {A} (l : list A) : zlen l <= MAX_VEC_SIZE -> is_u64 (zlen l).
Proof. pose proof max_vec_size_usize. unfold zlen. lia. Qed.

Lemma zlen_vec_u8 d : vec_u8_wf d -> zlen (encode_vec_u8 d) = varint_size (zlen d) + zlen d.
Proof.
  intros Hd. unfold encode_vec_u8. rewrite zlen_app. f_equal.
  apply varint_size_correct. by apply vec_len_u64.
Qed.

Lemma zlen_concat {A} (enc : A -> bytes) (f : A -> Z) l :
  Forall (fun a => zlen (enc a) = f a) l -> zlen (concat (map enc l)) = sum_map f l.
Proof. induction 1 as [|a l Ha _ IH]; simpl; [done|]. by rewrite zlen_app, Ha, IH. Qed.

Lemma zlen_vec {A} (enc : A -> bytes) (f : A -> Z) (wf : A -> Prop) sz l :
  1 <= sz -> vec_wf sz wf l -> (forall a, wf a -> zlen (enc a) = f a) ->
  zlen (encode_vec enc l) = varint_size (zlen l) + sum_map f l.
Proof.
  intros Hsz [Hl Hn] Hf. unfold encode_vec. rewrite zlen_app. f_equal.
  - apply varint_size_correct, vec_len_u64. unfold zlen. nia.
  - apply zlen_concat. eapply Forall_impl; [exact Hl|exact Hf].
Qed.

Lemma zlen_box_option {T : ext_type} (o : option T) :
  box_option_wf o -> zlen (encode_box_option o) = proof_size (ext_len o).
Proof. destruct o; intros Ho; [by apply zlen_vec_u8|done]. Qed.

Lemma zlen_vec_vec l : vec_vec_wf l -> zlen (encode_vec_vec l) = stack_size l.
Proof.
  intros Hl. eapply zlen_vec; [apply size_of_VecU8_pos|exact Hl|]. apply zlen_vec_u8.
Qed.

Lemma zlen_Value v : zlen (encode_Value v) = Value_encoded_length v.
Proof. apply Value_encoded_length_correct. Qed.

Lemma zlen_emit_u8 v : zlen (emit_u8 v) = 1.
Proof. done. Qed.

Lemma zlen_emit_u32 v : zlen (emit_u32 v) = 4.
Proof. apply zlen_le_bytes. Qed.

Lemma zlen_hash h : hash_wf h -> zlen h = 32.
Proof. unfold hash_wf, zlen. by intros ->. Qed.

Lemma zlen_tweak t : zlen (encode_tweak t) = 32.
Proof. unfold encode_tweak, zlen. by rewrite tweak_format. Qed.

(** Bytes an input with an issuance takes that [scaled_size] does not count. *)
Definition uncounted (i : TxIn) : Z := if has_issuance i then 1 else 0.

Definition issuance_inputs (tx : Transaction) : Z := sum_map uncounted (input tx).

Lemma zlen_TxIn i :
  TxIn_base_wf i -> zlen (encode_TxIn i) = input_weight 1 false i + uncounted i.
Proof.
  intros (Ht & _ & Hs & _ & Hi). unfold encode_TxIn, input_weight, uncounted, encode_Sequence.
  rewrite !zlen_app, !zlen_emit_u32, zlen_vec_u8, (zlen_hash (txid _)) by done.
  destruct (has_issuance i).
  - destruct Hi as (He & _ & _ & _). unfold encode_AssetIssuance.
    rewrite !zlen_app, !zlen_Value, zlen_tweak, zlen_emit_u8, (zlen_hash (asset_entropy _)) by done.
    lia.
  - change (zlen []) with 0. lia.
Qed.

Lemma zlen_TxOut o : TxOut_base_wf o -> zlen (encode_TxOut o) = output_weight 1 false o.
Proof.
  intros (Ha & _ & Hn & Hs). unfold encode_TxOut, output_weight.
  rewrite !zlen_app, zlen_Value, zlen_vec_u8 by done. unfold zlen at 1 2.
  rewrite Asset_encoded_length_correct, Nonce_encoded_length_correct by done. lia.
Qed.

Lemma input_weight_split k i :
  TxInWitness_wf (in_witness i) ->
  input_weight k true i = k * input_weight 1 false i + zlen (encode_TxInWitness (in_witness i)) /\
  input_weight k false i = k * input_weight 1 false i.
Proof.
  intros (Ha & Hk & Hs & Hp). unfold input_weight, encode_TxInWitness.
  rewrite !zlen_app, !zlen_box_option, !zlen_vec_vec by done. lia.
Qed.

Lemma output_weight_split k o :
  TxOutWitness_wf (out_witness o) ->
  output_weight k true o = k * output_weight 1 false o + zlen (encode_TxOutWitness (out_witness o)) /\
  output_weight k false o = k * output_weight 1 false o.
Proof.
  intros (Hs & Hr). unfold output_weight, encode_TxOutWitness, surjectionproof_len, rangeproof_len.
  rewrite !zlen_app, !zlen_box_option by done. lia.
Qed.

Lemma sum_map_concat {A} (f : A -> bytes) l :
  sum_map (fun a => zlen (f a)) l = zlen (concat (map f l)).
Proof. symmetry. apply zlen_concat. by apply Forall_true. Qed.

(** The witness section of the encoding. *)
Definition witness_bytes (tx : Transaction) : bytes :=
  if has_witness tx
  then concat (map (fun i => encode_TxInWitness (in_witness i)) (input tx)) ++
       concat (map (fun o => encode_TxOutWitness (out_witness o)) (output tx))
  else [].

Lemma zlen_encode_Transaction tx :
  zlen (encode_Transaction tx) = zlen (encode_base tx) + zlen (witness_bytes tx).
Proof.
  unfold encode_Transaction, encode_base, witness_bytes. rewrite !zlen_app.
  destruct (has_witness tx); rewrite ?zlen_app, !zlen_emit_u8; lia.
Qed.

Lemma zlen_encode_base tx :
  Transaction_wf tx ->
  zlen (encode_base tx) =
    9 + varint_size (zlen (input tx)) + varint_size (zlen (output tx)) +
    sum_map (input_weight 1 false) (input tx) + issuance_inputs tx +
    sum_map (output_weight 1 false) (output tx).
Proof.
  intros (_ & _ & Hi & Ho). unfold encode_base, encode_LockTime.
  rewrite !zlen_app.
  rewrite (zlen_vec encode_TxIn (fun i => 1 * input_weight 1 false i + uncounted i) _ _ _
             size_of_TxIn_pos Hi)
    by (intros i [Hb _]; rewrite zlen_TxIn by done; lia).
  rewrite (zlen_vec encode_TxOut (output_weight 1 false) _ _ _ size_of_TxOut_pos Ho)
    by (intros o [Hb _]; by apply zlen_TxOut).
  rewrite sum_map_lin. unfold issuance_inputs.
  rewrite !zlen_emit_u32, zlen_emit_u8. lia.
Qed.

Lemma scaled_size_encoding tx k :
  Transaction_wf tx ->
  scaled_size tx k + k * issuance_inputs tx =
  k * zlen (encode_base tx) + zlen (witness_bytes tx).
Proof.
  intros Hwf. rewrite zlen_encode_base by done.
  destruct Hwf as (_ & _ & [Hi _] & [Ho _]). unfold scaled_size, witness_bytes.
  destruct (has_witness tx).
  - rewrite (sum_map_ext (input_weight k true)
      (fun i => k * input_weight 1 false i + zlen (encode_TxInWitness (in_witness i))))
      by (eapply Forall_impl; [exact Hi|]; intros i [_ H]; by apply input_weight_split).
    rewrite (sum_map_ext (output_weight k true)
      (fun o => k * output_weight 1 false o + zlen (encode_TxOutWitness (out_witness o))))
      by (eapply Forall_impl; [exact Ho|]; intros o [_ H]; by apply output_weight_split).
    rewrite !sum_map_lin, zlen_app, <-!sum_map_concat. lia.
  - rewrite (sum_map_ext (input_weight k false) (fun i => k * input_weight 1 false i + 0))
      by (eapply Forall_impl; [exact Hi|]; intros i [_ H];
          rewrite Z.add_0_r; by apply input_weight_split).
    rewrite (sum_map_ext (output_weight k false) (fun o => k * output_weight 1 false o + 0))
      by (eapply Forall_impl; [exact Ho|]; intros o [_ H];
          rewrite Z.add_0_r; by apply output_weight_split).
    rewrite !sum_map_lin. change (zlen []) with 0.
    assert (Hz : forall A (l : list A), sum_map (fun _ => 0) l = 0)
      by (intros A l; induction l; simpl; lia).
    rewrite !Hz. lia.
Qed.

(** ** The discounted weight *)

(** What one output takes off the weight. *)
Definition discount (o : TxOut) : Z :=
  Z.max 0 (proof_size (surjectionproof_len (out_witness o)) +
           proof_size (rangeproof_len (out_witness o)) - 2) +
  (if Value_is_confidential (value o) then 96 else 0) +
  (if Nonce_is_confidential (nonce o) then 128 else 0).

Lemma varint_size_pos v : 1 <= varint_size v.
Proof. unfold varint_size. repeat case_match; lia. Qed.

Lemma discount_nonneg o : 0 <= discount o.
Proof. unfold discount. repeat case_match; lia. Qed.

Lemma discount_le wit o :
  (wit = false -> out_witness o = TxOutWitness_empty) -> discount o <= output_weight 4 wit o.
Proof.
  intros Hw. unfold discount, output_weight.
  pose proof (varint_size_pos (zlen (script_pubkey o))). assert (0 <= zlen (script_pubkey o)) by (unfold zlen; lia).
  assert (96 * (if Value_is_confidential (value o) then 1 else 0) <= 4 * Value_encoded_length (value o))
    by (destruct (value o); simpl; lia).
  assert (128 * (if Nonce_is_confidential (nonce o) then 1 else 0) <= 4 * Nonce_encoded_length (nonce o))
    by (destruct (nonce o); simpl; lia).
  assert (1 <= Asset_encoded_length (asset o)) by (destruct (asset o); simpl; lia).
  destruct wit.
  - assert (Hp : forall T (x : option (ext_car T)), 1 <= proof_size (ext_len x)).
    { intros T x. unfold proof_size. pose proof (varint_size_pos (ext_len x)).
      destruct x; simpl in *; lia. }
    pose proof (Hp _ (surjection_proof (out_witness o))). pose proof (Hp _ (rangeproof (out_witness o))).
    unfold surjectionproof_len, rangeproof_len in *. do 2 case_match; lia.
  - rewrite Hw by done.
    change (proof_size (surjectionproof_len TxOutWitness_empty)) with 1.
    change (proof_size (rangeproof_len TxOutWitness_empty)) with 1.
    do 2 case_match; lia.
Qed.

Lemma discount_output_sub w o :
  discount o <= w < 2 ^ 64 -> discount_output w o = w - discount o.
Proof.
  intros Hw. pose proof (discount_nonneg o) as Hn.
  unfold discount_output, discount, proof_size, wrap_u64 in *.
  unfold saturating_sub. set (s := Z.max 0 _).
  replace (Z.max 0 _) with s in * by (unfold s; f_equal; lia).
  destruct (Value_is_confidential (value o)), (Nonce_is_confidential (nonce o)).
  all: rewrite (Z.mod_small (w - s)) by lia.
  all: rewrite ?(Z.mod_small (w - s - (33 - 9) * 4)) by lia.
  all: rewrite ?Z.mod_small by lia; lia.
Qed.

Lemma discount_fold (f : TxOut -> Z) l w :
  Forall (fun o => discount o <= f o) l -> sum_map f l <= w < 2 ^ 64 ->
  fold_left discount_output l w = w - sum_map discount l /\ sum_map discount l <= sum_map f l.
Proof.
  intros Hl. revert w. induction Hl as [|o l Ho Hl IH]; intros w Hw; simpl in *; [lia|].
  assert (Hpos : 0 <= sum_map discount l <= sum_map f l).
  { clear -Hl. induction Hl as [|a l Ha _ IH]; simpl; [lia|]. pose proof (discount_nonneg a). lia. }
  pose proof (discount_nonneg o). rewrite discount_output_sub by lia.
  destruct (IH (w - discount o)) as [-> ?]; lia.
Qed.

Lemma varint_sizes_pos tx :
  8 < 4 * (4 + 4 + varint_size (zlen (input tx)) + varint_size (zlen (output tx)) + 1).
Proof.
  pose proof (varint_size_pos (zlen (input tx))). pose proof (varint_size_pos (zlen (output tx))). lia.
Qed.

Lemma input_weight_nonneg wit i : 0 <= input_weight 4 wit i.
Proof.
  assert (Hs : forall l, 0 <= stack_size l).
  { intros l. unfold stack_size. pose proof (varint_size_pos (zlen l)).
    pose proof (sum_map_nonneg (fun wit => varint_size (zlen wit) + zlen wit) l) as Hn.
    apply Z.add_nonneg_nonneg; [lia|]. apply Hn. intros x.
    pose proof (varint_size_pos (zlen x)). unfold zlen in *. lia. }
  assert (Hp : forall T (x : option (ext_car T)), 0 <= proof_size (ext_len x)).
  { intros T x. unfold proof_size. pose proof (varint_size_pos (ext_len x)). destruct x; simpl in *; lia. }
  unfold input_weight. pose proof (Hs (script_witness (in_witness i))).
  pose proof (Hs (pegin_witness (in_witness i))).
  pose proof (Hp _ (amount_rangeproof (in_witness i))).
  pose proof (Hp _ (inflation_keys_rangeproof (in_witness i))).
  pose proof (varint_size_pos (zlen (script_sig i))).
  assert (forall v, 1 <= Value_encoded_length v) as Hv by (intros []; simpl; lia).
  pose proof (Hv (amount (asset_issuance i))). pose proof (Hv (inflation_keys (asset_issuance i))).
  assert (0 <= zlen (script_sig i)) by (unfold zlen; lia).
  do 2 case_match; lia.
Qed.

Lemma discount_weight_exact tx :
  weight tx < 2 ^ 64 ->
  discount_weight tx = weight tx - sum_map discount (output tx) /\ 0 < discount_weight tx.
Proof.
  intros Hw. unfold discount_weight, weight in *.
  pose proof (varint_sizes_pos tx).
  pose proof (sum_map_nonneg (input_weight 4 (has_witness tx)) (input tx)
    (input_weight_nonneg (has_witness tx))).
  destruct (discount_fold (output_weight 4 (has_witness tx)) (output tx) (scaled_size tx 4))
    as [-> Hle]; [|unfold scaled_size in *; lia|unfold scaled_size in *; lia].
  apply Forall_forall. intros o Ho. apply discount_le. intros Hf.
  apply has_witness_false in Hf as [_ Hf]. rewrite Forall_forall in Hf. by apply Hf.
Qed.

(** ** Fees *)

Lemma is_fee_explicit o :
  is_fee o = true -> exists a v, Asset_explicit (asset o) = Some a /\ Value_explicit (value o) = Some v.
Proof.
  unfold is_fee. destruct (asset o), (value o); rewrite ?andb_false_r; simpl; naive_solver.
Qed.

Lemma all_fees_fold (l : list TxOut) (m : gmap AssetId Z) (a : AssetId) :
  default 0 (foldl (fun fees out =>
           match Asset_explicit (asset out), Value_explicit (value out) with
           | Some a, Some v => <[a := wrap_u64 (default 0 (fees !! a) + v)]> fees
           | _, _ => fees
           end) m (filter (fun o => is_fee o = true) l) !! a) =
  foldl (fun acc o => wrap_u64 (acc + default 0 (Value_explicit (value o)))) (default 0 (m !! a))
    (filter (fun o => is_fee o = true /\ Asset_explicit (asset o) = Some a) l).
Proof.
  revert m. induction l as [|o l IH]; intros m; simpl; [done|].
  rewrite !filter_cons. destruct (decide (is_fee o = true)) as [Hf|Hf].
  - destruct (is_fee_explicit o Hf) as (a' & v & Ea & Ev). simpl.
    rewrite IH. clear IH. rewrite Ea, Ev.
    destruct (decide (is_fee o = true /\ Some a' = Some a)) as [[_ [= ->]]|Hne]; simpl.
    + by rewrite lookup_insert, Ev, decide_True by done.
    + rewrite lookup_insert_ne by naive_solver. done.
  - rewrite IH. rewrite decide_False by naive_solver. done.
Qed.
End Metrics.

(** ** Claims *)

Import TxSample.

(** C36: [Transaction::size] and [Transaction::weight] against the bytes that are
    actually written: they agree with the serialization up to one byte (four
    weight units) for every input that carries an issuance, because
    [scaled_size] does not count Sequentia's denomination byte. *)
Theorem sizes_of_serialization `{Platform} `{Secp} (tx : Transaction) :
  Transaction_wf tx ->
  size tx + issuance_inputs tx = zlen (serialize tx) /\
  weight tx + 4 * issuance_inputs tx = 3 * zlen (encode_base tx) + zlen (serialize tx).
Proof.
  intros Hwf. unfold serialize, consensus_encode, Transaction_Encodable.
  rewrite zlen_encode_Transaction. unfold size, weight.
  pose proof (scaled_size_encoding tx 1 Hwf). pose proof (scaled_size_encoding tx 4 Hwf). lia.
Qed.

Lemma sizes_of_serialization_witness :
  size sample_tx + 1 = zlen (serialize sample_tx) /\ size sample_tx <> zlen (serialize sample_tx).
Proof.
  destruct (sizes_of_serialization sample_tx sample_tx_wf) as [E _].
  change (issuance_inputs sample_tx) with 1 in E. split; [exact E|]. vm_compute. discriminate.
Defined.

(** [Transaction::discount_weight] never underflows: each of its [usize]
    subtractions takes off at most what the output contributed to the weight, so
    the result is the weight less the discounts and stays positive. *)
Theorem discount_weight_no_underflow `{Platform} `{Secp} (tx : Transaction) :
  weight tx < 2 ^ 64 ->
  discount_weight tx = weight tx - sum_map discount (output tx) /\
  0 < discount_weight tx <= weight tx.
Proof.
  intros Hw. destruct (discount_weight_exact tx Hw) as [E Hpos].
  pose proof (sum_map_nonneg discount (output tx) discount_nonneg). lia.
Qed.

Lemma discount_weight_no_underflow_witness : 0 < discount_weight sample_tx <= weight sample_tx.
Proof. apply (discount_weight_no_underflow sample_tx). vm_compute. reflexivity. Defined.

(** The per-asset totals of [Transaction::all_fees] are those of
    [Transaction::fee_in], for every asset, absent assets counting as zero. *)
Theorem all_fees_agrees_with_fee_in `{Platform} `{Secp} (tx : Transaction) (a : AssetId) :
  default 0 (all_fees tx !! a) = fee_in tx a.
Proof. unfold all_fees, fee_in. rewrite all_fees_fold. by rewrite lookup_empty. Qed.

Lemma all_fees_agrees_with_fee_in_witness :
  fee_in sample_tx (hash Byte.x44) = 3 /\ all_fees sample_tx !! hash Byte.x44 = Some 3.
Proof.
  split; [|vm_compute; reflexivity].
  rewrite <-(all_fees_agrees_with_fee_in sample_tx (hash Byte.x44)). vm_compute. reflexivity.
Defined.

(** An output whose script is [OP_RETURN], a 32-byte push, a non-empty push
    and further pushes, and whose value is explicit, is a peg-out, and
    [pegout_data] recovers every field. *)
Theorem pegout_data_recovers `{Platform} `{Secp} (h spk : bytes) (extra : list bytes)
    (b : Builder) (v : Z) (a : Asset) (n : Nonce) (w : TxOutWitness) :
  length h = 32%nat -> spk <> [] ->
  push_items (Op OP_RETURN :: PushBytes h :: PushBytes spk :: map PushBytes extra) Builder_new
    = Some b ->
  pegout_data (mkTxOut a (ValueExplicit v) n (into_script b) w) = Some (mkPegout v a h spk extra).
Proof.
  intros Hh Hs Hb.
  assert (Hi : instructions (into_script b) =
    map Ok (Op OP_RETURN :: PushBytes h :: PushBytes spk :: map PushBytes extra)).
  { apply instructions_push_items; [|done].
    repeat (constructor; try done). by apply Forall_fmap, Forall_true. }
  assert (Hn : is_null_data (mkTxOut a (ValueExplicit v) n (into_script b) w) = true).
  { unfold is_null_data. simpl script_pubkey. rewrite Hi. simpl.
    apply forallb_forall. intros x Hx. apply in_map_iff in Hx as (y & <- & Hy).
    by apply in_map_iff in Hy as (z & <- & _). }
  unfold pegout_data. rewrite Hn. simpl. rewrite Hi. simpl. rewrite Hh. simpl.
  destruct spk as [|s spk]; [done|]. simpl.
  assert (Hm : mapM as_push (map Ok (map PushBytes extra)) = Some extra).
  { clear. induction extra as [|x l IH]; simpl; [done|]. by rewrite IH. }
  by rewrite Hm.
Qed.

Lemma pegout_data_recovers_witness :
  exists b, push_items [Op OP_RETURN; PushBytes (hash Byte.x07); PushBytes [Byte.x51];
                        PushBytes [Byte.x01; Byte.x02]] Builder_new = Some b /\
    pegout_data (mkTxOut AssetNull (ValueExplicit 9) NonceNull (into_script b) TxOutWitness_empty)
    = Some (mkPegout 9 AssetNull (hash Byte.x07) [Byte.x51] [[Byte.x01; Byte.x02]]).
Proof.
  eexists. split; [reflexivity|].
  apply (pegout_data_recovers (hash Byte.x07) [Byte.x51] [[Byte.x01; Byte.x02]]);
    [reflexivity|discriminate|reflexivity].
Defined.
