(* ===== verification/Block.v ===== *)
(** * Blocks

    [rust-elements/src/block.rs] and the wire part of
    [rust-elements/src/dynafed.rs]: dynamic-federation parameters, the block
    header with Sequentia's Bitcoin anchor, and the block.  The most significant
    bit of the version on the wire tells a dynafed header from a proof header. *)

From S2P Require Import Prelude Encode Script Timelocks Confidential Transaction TxMetrics.

#[local] Opaque emit_u8 emit_u16 emit_u32 emit_u64 emit_varint.

Ltac run c := rewrite (codec_step c) by done.

Section Block.
Context {P : Platform} {S : Secp}.

(** ** Dynamic-federation parameters *)

Record FullParams := mkFullParams
  { signblockscript : Script;
    signblock_witness_limit : Z;
    fedpeg_program : bytes;
    fedpegscript : bytes;
    extension_space : list bytes }.

Inductive Params : Type :=
| ParamsNull
| ParamsCompact (signblockscript : Script) (signblock_witness_limit : Z) (elided_root : bytes)
| ParamsFull (f : FullParams).

Definition encode_FullParams (f : FullParams) : bytes :=
  encode_vec_u8 (signblockscript f) ++ emit_u32 (signblock_witness_limit f) ++
  encode_vec_u8 (fedpeg_program f) ++ encode_vec_u8 (fedpegscript f) ++
  encode_vec_vec (extension_space f).

Definition decode_FullParams : Reader FullParams :=
  signblockscript <<- decode_vec_u8;;
  signblock_witness_limit <<- read_u32;;
  fedpeg_program <<- decode_vec_u8;;
  fedpegscript <<- decode_vec_u8;;
  extension_space <<- decode_vec_vec;;
  rd_ret (mkFullParams signblockscript signblock_witness_limit fedpeg_program fedpegscript
            extension_space).

Definition FullParams_wf (f : FullParams) : Prop :=
  vec_u8_wf (signblockscript f) /\ is_u32 (signblock_witness_limit f) /\
  vec_u8_wf (fedpeg_program f) /\ vec_u8_wf (fedpegscript f) /\ vec_vec_wf (extension_space f).

Definition encode_Params (p : Params) : bytes :=
  match p with
  | ParamsNull => emit_u8 0
  | ParamsCompact signblockscript signblock_witness_limit elided_root =>
      emit_u8 1 ++ encode_vec_u8 signblockscript ++ emit_u32 signblock_witness_limit ++ elided_root
  | ParamsFull f => emit_u8 2 ++ encode_FullParams f
  end.

Definition decode_Params : Reader Params :=
  ser_type <<- read_u8;;
  if ser_type =? 0 then rd_ret ParamsNull
  else if ser_type =? 1 then
    signblockscript <<- decode_vec_u8;;
    signblock_witness_limit <<- read_u32;;
    elided_root <<- read_exact 32;;
    rd_ret (ParamsCompact signblockscript signblock_witness_limit elided_root)
  else if ser_type =? 2 then f <<- decode_FullParams;; rd_ret (ParamsFull f)
  else rd_fail (ParseFailed "bad serialize type for dynafed parameters").

Definition Params_wf (p : Params) : Prop :=
  match p with
  | ParamsNull => True
  | ParamsCompact s l r => vec_u8_wf s /\ is_u32 l /\ hash_wf r
  | ParamsFull f => FullParams_wf f
  end.

(** ** Headers *)

Inductive ExtData : Type :=
| Proof_ (challenge solution : Script)
| Dynafed (current proposed : Params) (signblock_witness : list bytes).

Definition encode_ExtData (e : ExtData) : bytes :=
  match e with
  | Proof_ challenge solution => encode_vec_u8 challenge ++ encode_vec_u8 solution
  | Dynafed current proposed signblock_witness =>
      encode_Params current ++ encode_Params proposed ++ encode_vec_vec signblock_witness
  end.

Definition ExtData_wf (e : ExtData) : Prop :=
  match e with
  | Proof_ c s => vec_u8_wf c /\ vec_u8_wf s
  | Dynafed c p w => Params_wf c /\ Params_wf p /\ vec_vec_wf w
  end.

Record BlockHeader := mkHeader
  { hdr_version : Z;
    prev_blockhash : bytes;
    merkle_root : bytes;
    hdr_time : Z;
    hdr_height : Z;
    ext : ExtData;
    bitcoin_anchor : option (Z * bytes) }.

Definition is_dynafed (h : BlockHeader) : bool :=
  match ext h with Dynafed _ _ _ => true | Proof_ _ _ => false end.

(** The version as it is written: bit 31 marks a dynafed header. *)
Definition wire_version (h : BlockHeader) : Z :=
  if is_dynafed h then Z.lor (hdr_version h) 0x80000000 else hdr_version h.

(** [BlockHeader::consensus_encode]; [None] is the panic of [expect] on a header
    without an anchor. *)
Definition encode_BlockHeader (h : BlockHeader) : option bytes :=
  '(anchor_height, anchor_hash) ← bitcoin_anchor h;
  Some (emit_u32 (wire_version h) ++ prev_blockhash h ++ merkle_root h ++
        emit_u32 (hdr_time h) ++ emit_u32 (hdr_height h) ++
        emit_u32 anchor_height ++ anchor_hash ++ encode_ExtData (ext h)).

(** The preimage of [BlockHeader::block_hash]: no solution, no signblock
    witness. *)
Definition block_hash_preimage (h : BlockHeader) : option bytes :=
  '(anchor_height, anchor_hash) ← bitcoin_anchor h;
  Some (emit_u32 (wire_version h) ++ prev_blockhash h ++ merkle_root h ++
        emit_u32 (hdr_time h) ++ emit_u32 (hdr_height h) ++
        emit_u32 anchor_height ++ anchor_hash ++
        match ext h with
        | Proof_ challenge _ => encode_vec_u8 challenge
        | Dynafed current proposed _ => encode_Params current ++ encode_Params proposed
        end).

Definition clear_witness (h : BlockHeader) : BlockHeader :=
  mkHeader (hdr_version h) (prev_blockhash h) (merkle_root h) (hdr_time h) (hdr_height h)
    (match ext h with
     | Proof_ challenge _ => Proof_ challenge []
     | Dynafed current proposed _ => Dynafed current proposed []
     end) (bitcoin_anchor h).

Definition dynafed_current (h : BlockHeader) : option Params :=
  match ext h with Dynafed current _ _ => Some current | Proof_ _ _ => None end.
Definition dynafed_proposed (h : BlockHeader) : option Params :=
  match ext h with Dynafed _ proposed _ => Some proposed | Proof_ _ _ => None end.

Definition decode_BlockHeader : Reader BlockHeader :=
  version <<- read_u32;;
  let is_dyna := Z.shiftr version 31 =? 1 in
  let version := if is_dyna then Z.land version 0x7fffffff else version in
  prev_blockhash <<- read_exact 32;;
  merkle_root <<- read_exact 32;;
  time <<- read_u32;;
  height <<- read_u32;;
  anchor_height <<- read_u32;;
  anchor_hash <<- read_exact 32;;
  let anchor := Some (anchor_height, anchor_hash) in
  if is_dyna then
    current <<- decode_Params;;
    proposed <<- decode_Params;;
    signblock_witness <<- decode_vec_vec;;
    rd_ret (mkHeader version prev_blockhash merkle_root time height
              (Dynafed current proposed signblock_witness) anchor)
  else
    challenge <<- decode_vec_u8;;
    solution <<- decode_vec_u8;;
    rd_ret (mkHeader version prev_blockhash merkle_root time height
              (Proof_ challenge solution) anchor).

(** The headers that survive a round trip: 31-bit version, anchor present. *)
Definition BlockHeader_wf (h : BlockHeader) : Prop :=
  0 <= hdr_version h < 2 ^ 31 /\ hash_wf (prev_blockhash h) /\ hash_wf (merkle_root h) /\
  is_u32 (hdr_time h) /\ is_u32 (hdr_height h) /\ ExtData_wf (ext h) /\
  match bitcoin_anchor h with
  | Some (anchor_height, anchor_hash) => is_u32 anchor_height /\ hash_wf anchor_hash
  | None => False
  end.

(** ** Blocks *)

Record Block := mkBlock { header : BlockHeader; txdata : list Transaction }.

Definition encode_Block (b : Block) : option bytes :=
  h ← encode_BlockHeader (header b);
  Some (h ++ encode_vec encode_Transaction (txdata b)).

Definition decode_Block : Reader Block :=
  header <<- decode_BlockHeader;;
  txdata <<- decode_vec size_of_Transaction decode_Transaction;;
  rd_ret (mkBlock header txdata).

Definition Block_wf (b : Block) : Prop :=
  BlockHeader_wf (header b) /\ vec_wf size_of_Transaction Transaction_wf (txdata b).

(** [Block::size] and [Block::weight]; serializing the header can panic. *)
Definition Block_size (b : Block) : option Z :=
  h ← encode_BlockHeader (header b);
  let base_size := zlen h + varint_size (zlen (txdata b)) in
  Some (base_size + sum_map size (txdata b)).

Definition Block_weight (b : Block) : option Z :=
  h ← encode_BlockHeader (header b);
  let base_weight := 4 * (zlen h + varint_size (zlen (txdata b))) in
  Some (base_weight + sum_map weight (txdata b)).

(** ** Codecs *)

Lemma FullParams_codec : codec_ok encode_FullParams decode_FullParams FullParams_wf.
Proof.
  split.
  - intros [s l p f e] rest (Hs & Hl & Hp & Hf & He).
    unfold encode_FullParams, decode_FullParams. simpl in *. rewrite <-!app_assoc.
    run vec_u8_codec. run u32_codec. run vec_u8_codec. run vec_u8_codec. by run vec_vec_codec.
  - intros bs x rest E. codec_inv E with vec_u8_codec as s Hs. codec_inv E with u32_codec as l Hl.
    codec_inv E with vec_u8_codec as p Hp. codec_inv E with vec_u8_codec as f Hf.
    codec_inv E with vec_vec_codec as e He. apply rd_ret_ok in E as [<- <-].
    split; [done|]. unfold encode_FullParams. by rewrite <-!app_assoc.
Qed.

Lemma Params_codec : codec_ok encode_Params decode_Params Params_wf.
Proof.
  split.
  - intros [|s l r|f] rest Hp; unfold encode_Params, decode_Params; rewrite <-?app_assoc;
      run u8_codec; simpl in *.
    + done.
    + destruct Hp as (Hs & Hl & Hr). run vec_u8_codec. run u32_codec.
      by rewrite (codec_step (array_codec 32)).
    + by run FullParams_codec.
  - intros bs p rest E. codec_inv E with u8_codec as t Ht.
    destruct (Z.eqb_spec t 0) as [->|]; [by apply rd_ret_ok in E as [<- <-]|].
    destruct (Z.eqb_spec t 1) as [->|].
    { codec_inv E with vec_u8_codec as s Hs. codec_inv E with u32_codec as l Hl.
      codec_inv E with (array_codec 32) as r Hr. apply rd_ret_ok in E as [<- <-].
      split; [done|]. simpl. by rewrite <-!app_assoc. }
    destruct (Z.eqb_spec t 2) as [->|]; [|done].
    codec_inv E with FullParams_codec as f Hf. apply rd_ret_ok in E as [<- <-].
    split; [done|]. simpl. by rewrite <-!app_assoc.
Qed.

(** Bit 31 of the version is written and read back. *)
Lemma wire_version_dyna v :
  0 <= v < 2 ^ 31 -> is_u32 (Z.lor v 0x80000000) /\
  (Z.shiftr (Z.lor v 0x80000000) 31 =? 1) = true /\ Z.land (Z.lor v 0x80000000) 0x7fffffff = v.
Proof.
  intros Hv. change 0x80000000 with (2 ^ 31). rewrite lor_below_pow2 by done.
  change 0x7fffffff with (Z.ones 31). rewrite Z.land_ones, Z.shiftr_div_pow2 by lia.
  split; [lia|]. split.
  - apply Z.eqb_eq. symmetry. apply Z.div_unique with v; lia.
  - symmetry. apply Z.mod_unique with 1; lia.
Qed.

Lemma wire_version_proof v :
  0 <= v < 2 ^ 31 -> (Z.shiftr v 31 =? 1) = false.
Proof. intros Hv. rewrite Z.shiftr_div_pow2, Z.div_small by lia. done. Qed.

Lemma unwire_version w :
  is_u32 w ->
  if Z.shiftr w 31 =? 1
  then 0 <= Z.land w 0x7fffffff < 2 ^ 31 /\ Z.lor (Z.land w 0x7fffffff) 0x80000000 = w
  else 0 <= w < 2 ^ 31.
Proof.
  intros Hw. rewrite Z.shiftr_div_pow2 by lia.
  pose proof (Z.div_mod w (2 ^ 31)). pose proof (Z.mod_pos_bound w (2 ^ 31)).
  assert (0 <= w / 2 ^ 31 < 2)
    by (split; [apply Z.div_pos|apply Z.div_lt_upper_bound]; lia).
  destruct (Z.eqb_spec (w / 2 ^ 31) 1) as [E|E]; [|lia].
  change 0x7fffffff with (Z.ones 31). change 0x80000000 with (2 ^ 31).
  rewrite Z.land_ones by lia. rewrite lor_below_pow2 by lia. lia.
Qed.

Lemma decode_encode_BlockHeader h b rest :
  BlockHeader_wf h -> encode_BlockHeader h = Some b ->
  decode_BlockHeader (b ++ rest) = Ok (h, rest).
Proof.
  destruct h as [v ph mr t ht e [[ah ah']|]]; intros (Hv & Hp & Hm & Ht & Hh & He & Ha) [= <-];
    cbn in Hv, Hp, Hm, Ht, Hh, He, Ha. destruct Ha as [Ha1 Ha2].
  unfold decode_BlockHeader, wire_version. rewrite <-!app_assoc.
  destruct e as [c s|c p w];
    cbn [is_dynafed ext hdr_version prev_blockhash merkle_root hdr_time hdr_height encode_ExtData].
  - rewrite (codec_step u32_codec) by lia. rewrite wire_version_proof by done.
    run (array_codec 32). run (array_codec 32). do 3 run u32_codec. run (array_codec 32).
    destruct He as [Hc Hs]. rewrite <-!app_assoc. run vec_u8_codec. by run vec_u8_codec.
  - destruct (wire_version_dyna v Hv) as (Hr & E1 & E2). run u32_codec. rewrite E1, E2.
    run (array_codec 32). run (array_codec 32). do 3 run u32_codec. run (array_codec 32).
    destruct He as (Hc & Hq & Hw). rewrite <-!app_assoc. run Params_codec. run Params_codec.
    by run vec_vec_codec.
Qed.

Lemma BlockHeader_canonical bs h rest :
  decode_BlockHeader bs = Ok (h, rest) ->
  BlockHeader_wf h /\ exists b, encode_BlockHeader h = Some b /\ bs = b ++ rest.
Proof.
  intros E. codec_inv E with u32_codec as v Hv. codec_inv E with (array_codec 32) as ph Hp.
  codec_inv E with (array_codec 32) as mr Hm. codec_inv E with u32_codec as t Ht.
  codec_inv E with u32_codec as ht Hh. codec_inv E with u32_codec as ah Ha.
  codec_inv E with (array_codec 32) as ah' Ha'.
  pose proof (unwire_version v Hv) as Hu.
  destruct (Z.shiftr v 31 =? 1).
  - destruct Hu as [Hr Hu]. codec_inv E with Params_codec as c Hc.
    codec_inv E with Params_codec as p Hq. codec_inv E with vec_vec_codec as w Hw.
    apply rd_ret_ok in E as [<- <-]. split; [done|].
    eexists. split; [reflexivity|]. unfold wire_version. simpl. by rewrite Hu, <-!app_assoc.
  - codec_inv E with vec_u8_codec as c Hc. codec_inv E with vec_u8_codec as s Hs.
    apply rd_ret_ok in E as [<- <-]. split; [done|].
    eexists. split; [reflexivity|]. unfold wire_version. simpl. by rewrite <-!app_assoc.
Qed.

Lemma txdata_codec :
  codec_ok (encode_vec encode_Transaction) (decode_vec size_of_Transaction decode_Transaction)
    (vec_wf size_of_Transaction Transaction_wf).
Proof. apply vec_codec; [apply size_of_Transaction_pos|apply Transaction_codec]. Qed.

Lemma encode_BlockHeader_total h : BlockHeader_wf h -> is_Some (encode_BlockHeader h).
Proof.
  intros (_ & _ & _ & _ & _ & _ & Ha). unfold encode_BlockHeader.
  destruct (bitcoin_anchor h) as [[]|]; [|done]. simpl. eauto.
Qed.

(** Clearing the witness keeps the hash preimage, and the cleared header is the
    preimage followed by an empty vector. *)
Lemma clear_witness_wf h : BlockHeader_wf h -> BlockHeader_wf (clear_witness h).
Proof.
  pose proof max_vec_size_usize. destruct h as [v p m t ht [c s|c q w] a];
    intros (Hv & Hp & Hm & Ht & Hh & He & Ha); do 5 (split; [done|]); (split; [|done]); simpl in *.
  - split; [apply He|unfold vec_u8_wf; simpl; lia].
  - destruct He as (Hc & Hq & _). do 2 (split; [done|]). split; [constructor|simpl; lia].
Qed.

Lemma clear_witness_preimage h : block_hash_preimage (clear_witness h) = block_hash_preimage h.
Proof. destruct h as [v p m t ht [c s|c q w] a]; done. Qed.

Lemma clear_witness_encoding h p :
  block_hash_preimage h = Some p -> encode_BlockHeader (clear_witness h) = Some (p ++ [Byte.x00]).
Proof.
  destruct h as [v ph m t ht e [[ah ah']|]]; [|done]. unfold block_hash_preimage, encode_BlockHeader.
  simpl. intros [= <-]. f_equal. destruct e as [c s|c q w]; simpl; by rewrite <-!app_assoc.
Qed.

Lemma encode_BlockHeader_inj h k :
  BlockHeader_wf h -> BlockHeader_wf k -> encode_BlockHeader h = encode_BlockHeader k -> h = k.
Proof.
  intros Hh Hk E. destruct (encode_BlockHeader_total h Hh) as [b Eb].
  pose proof (decode_encode_BlockHeader h b [] Hh Eb) as E1. rewrite E in Eb.
  pose proof (decode_encode_BlockHeader k b [] Hk Eb) as E2. congruence.
Qed.

Lemma Block_sizes b e :
  Block_wf b -> encode_Block b = Some e ->
  exists n w, Block_size b = Some n /\ Block_weight b = Some w /\
    n + sum_map issuance_inputs (txdata b) = zlen e /\
    w + 4 * sum_map issuance_inputs (txdata b) =
      4 * zlen e - 3 * sum_map (fun tx => zlen (witness_bytes tx)) (txdata b).
Proof.
  intros [_ Htx] Ee. unfold encode_Block, Block_size, Block_weight in *.
  apply bind_Some in Ee as (hb & Eh & [= <-]). rewrite Eh. simpl.
  do 2 eexists. split; [done|]. split; [done|].
  rewrite zlen_app.
  rewrite (zlen_vec encode_Transaction (fun tx => 1 * scaled_size tx 1 + issuance_inputs tx) _ _ _
             size_of_Transaction_pos Htx)
    by (intros tx Hwf; pose proof (scaled_size_encoding tx 1 Hwf);
        rewrite zlen_encode_Transaction; lia).
  rewrite sum_map_lin. unfold size, weight.
  rewrite (sum_map_ext (fun tx => scaled_size tx 4)
    (fun tx => 4 * (scaled_size tx 1) + (-3) * zlen (witness_bytes tx)))
    by (eapply Forall_impl; [apply Htx|]; intros tx Hwf;
        pose proof (scaled_size_encoding tx 1 Hwf); pose proof (scaled_size_encoding tx 4 Hwf); lia).
  rewrite sum_map_lin, sum_map_scale. lia.
Qed.
End Block.

(** ** Claims *)

(** C28: A byte string followed by anything parses as a block exactly when it is
    the encoding of a well-formed block: header (bit 31 of the version and the
    36-byte Bitcoin anchor included), transaction count and transactions. *)
Theorem block_decode_iff `{Platform} `{Secp} (bs rest : bytes) (b : Block) :
  decode_Block bs = Ok (b, rest) <->
  Block_wf b /\ exists e, encode_Block b = Some e /\ bs = e ++ rest.
Proof.
  unfold decode_Block, encode_Block, Block_wf. split.
  - intros (h & mid & Hh & E)%rd_bind_ok.
    apply BlockHeader_canonical in Hh as (Hwf & hb & Eh & ->).
    codec_inv E with txdata_codec as txs Htx. apply rd_ret_ok in E as [<- <-].
    split; [done|]. simpl. rewrite Eh. simpl. eexists. split; [done|]. by rewrite <-app_assoc.
  - destruct b as [h txs]. intros [[Hh Htx] (e & Ee & ->)]. simpl in *.
    apply bind_Some in Ee as (hb & Eh & [= <-]). rewrite <-app_assoc. unfold rd_bind.
    rewrite (decode_encode_BlockHeader h hb) by done.
    by rewrite (codec_decode txdata_codec).
Qed.

(** The block hash commits to everything but the block signature: two
    well-formed headers have the same hash preimage exactly when they agree once
    [clear_witness] has removed the solution or the signblock witness. *)
Theorem block_hash_preimage_iff `{Platform} `{Secp} (h k : BlockHeader) :
  BlockHeader_wf h -> BlockHeader_wf k ->
  block_hash_preimage h = block_hash_preimage k <-> clear_witness h = clear_witness k.
Proof.
  intros Hh Hk. split.
  - intros E. apply encode_BlockHeader_inj; [by apply clear_witness_wf..|].
    destruct (block_hash_preimage h) as [p|] eqn:Ep.
    + by rewrite (clear_witness_encoding h p), (clear_witness_encoding k p).
    + destruct (encode_BlockHeader_total h Hh) as [b Eb]. unfold encode_BlockHeader in Eb.
      unfold block_hash_preimage in Ep. by destruct (bitcoin_anchor h) as [[]|].
  - intros E. rewrite <-(clear_witness_preimage h), <-(clear_witness_preimage k). by rewrite E.
Qed.

(** [Block::size] is the number of bytes of the block's encoding and
    [Block::weight] its BIP-141 weight, up to the denomination byte that
    [Transaction::scaled_size] misses for each issuance. *)
Theorem block_sizes_of_encoding `{Platform} `{Secp} (b : Block) (e : bytes) :
  Block_wf b -> encode_Block b = Some e ->
  exists n w, Block_size b = Some n /\ Block_weight b = Some w /\
    n + sum_map issuance_inputs (txdata b) = zlen e /\
    w + 4 * sum_map issuance_inputs (txdata b) =
      4 * zlen e - 3 * sum_map (fun tx => zlen (witness_bytes tx)) (txdata b).
Proof. apply Block_sizes. Qed.

Module BlockSample.
Export TxSample.

Definition sample_header (sol : Script) : BlockHeader :=
  mkHeader 0x20000000 (hash Byte.x01) (hash Byte.x02) 1700000000 77 (Proof_ [Byte.x51] sol)
    (Some (800000, hash Byte.x03)).

Definition sample_block : Block := mkBlock (sample_header []) [sample_tx].

Lemma sample_header_wf : BlockHeader_wf (sample_header []) /\ BlockHeader_wf (sample_header [Byte.x00]).
Proof. by repeat split. Defined.

Lemma sample_block_wf : Block_wf sample_block.
Proof.
  split; [apply sample_header_wf|]. split; [|done]. apply List.Forall_cons; [|by apply List.Forall_nil].
  exact sample_tx_wf.
Defined.
End BlockSample.
Import BlockSample.

Lemma block_decode_iff_witness :
  exists e, encode_Block sample_block = Some e /\ decode_Block (e ++ [Byte.xff]) = Ok (sample_block, [Byte.xff]).
Proof.
  eexists. split; [reflexivity|]. apply (proj2 (block_decode_iff _ [Byte.xff] sample_block)).
  split; [exact sample_block_wf|]. eexists. split; reflexivity.
Defined.

Lemma block_hash_preimage_iff_witness :
  block_hash_preimage (sample_header []) = block_hash_preimage (sample_header [Byte.x00]).
Proof.
  apply (block_hash_preimage_iff (sample_header []) (sample_header [Byte.x00]));
    [apply sample_header_wf..|reflexivity].
Defined.

Lemma block_sizes_of_encoding_witness :
  exists e n, encode_Block sample_block = Some e /\ Block_size sample_block = Some n /\ n + 1 = zlen e.
Proof.
  eexists. destruct (block_sizes_of_encoding sample_block _ sample_block_wf eq_refl)
    as (n & w & Hn & _ & E & _).
  exists n. split; [reflexivity|]. split; [exact Hn|exact E].
Defined.
