(* ===== verification/Sighash.v ===== *)
(** * Signature hashes

    [rust-elements/src/sighash.rs] for ECDSA signatures (legacy and segwit v0),
    with the lazily filled [SighashCache] (its taproot part is used in [TapSighash]), and [EcdsaSighashType] of
    [rust-elements/src/transaction.rs].  SHA-256 is a parameter. *)

From S2P Require Import Prelude Encode Script Timelocks Confidential Transaction.

(** SHA-256 as the [bitcoin_hashes] crate provides it: 32 bytes out. *)
Class Hashes :=
  { sha256 : bytes -> bytes;
    sha256_length l : length (sha256 l) = 32%nat }.

Definition sha256d `{Hashes} (l : bytes) : bytes := sha256 (sha256 l).

(** [sha256t_hash_newtype!]: the hash tagged with a name. *)
Definition tagged_hash `{Hashes} (tag msg : bytes) : bytes := sha256 (sha256 tag ++ sha256 tag ++ msg).

(** ** Sighash types *)

Inductive EcdsaSighashType :=
| SighashAll
| SighashNone
| SighashSingle
| AllPlusAnyoneCanPay
| NonePlusAnyoneCanPay
| SinglePlusAnyoneCanPay.
#[export] Instance EcdsaSighashType_eq_dec : EqDecision EcdsaSighashType.
Proof. solve_decision. Defined.

Definition sighash_as_u32 (t : EcdsaSighashType) : Z :=
  match t with
  | SighashAll => 0x01
  | SighashNone => 0x02
  | SighashSingle => 0x03
  | AllPlusAnyoneCanPay => 0x81
  | NonePlusAnyoneCanPay => 0x82
  | SinglePlusAnyoneCanPay => 0x83
  end.

Definition split_anyonecanpay_flag (t : EcdsaSighashType) : EcdsaSighashType * bool :=
  match t with
  | SighashAll => (SighashAll, false)
  | SighashNone => (SighashNone, false)
  | SighashSingle => (SighashSingle, false)
  | AllPlusAnyoneCanPay => (SighashAll, true)
  | NonePlusAnyoneCanPay => (SighashNone, true)
  | SinglePlusAnyoneCanPay => (SighashSingle, true)
  end.

(** [EcdsaSighashType::from_u32]: the masked value, then the catch-alls. *)
Definition sighash_from_u32 (n : Z) : EcdsaSighashType :=
  let x := Z.land n 0x9f in
  if x =? 0x01 then SighashAll
  else if x =? 0x02 then SighashNone
  else if x =? 0x03 then SighashSingle
  else if x =? 0x81 then AllPlusAnyoneCanPay
  else if x =? 0x82 then NonePlusAnyoneCanPay
  else if x =? 0x83 then SinglePlusAnyoneCanPay
  else if Z.land x 0x80 =? 0x80 then AllPlusAnyoneCanPay
  else SighashAll.

(** [EcdsaSighashType::from_standard]; the error carries the rejected value. *)
Definition sighash_from_standard (n : Z) : result EcdsaSighashType Z :=
  if n =? 0x01 then Ok SighashAll
  else if n =? 0x02 then Ok SighashNone
  else if n =? 0x03 then Ok SighashSingle
  else if n =? 0x81 then Ok AllPlusAnyoneCanPay
  else if n =? 0x82 then Ok NonePlusAnyoneCanPay
  else if n =? 0x83 then Ok SinglePlusAnyoneCanPay
  else Err n.

Definition sighash_to_string (t : EcdsaSighashType) : string :=
  match t with
  | SighashAll => "SIGHASH_ALL"
  | SighashNone => "SIGHASH_NONE"
  | SighashSingle => "SIGHASH_SINGLE"
  | AllPlusAnyoneCanPay => "SIGHASH_ALL|SIGHASH_ANYONECANPAY"
  | NonePlusAnyoneCanPay => "SIGHASH_NONE|SIGHASH_ANYONECANPAY"
  | SinglePlusAnyoneCanPay => "SIGHASH_SINGLE|SIGHASH_ANYONECANPAY"
  end.

Definition sighash_from_str (s : string) : result EcdsaSighashType string :=
  if String.eqb s "SIGHASH_ALL" then Ok SighashAll
  else if String.eqb s "SIGHASH_NONE" then Ok SighashNone
  else if String.eqb s "SIGHASH_SINGLE" then Ok SighashSingle
  else if String.eqb s "SIGHASH_ALL|SIGHASH_ANYONECANPAY" then Ok AllPlusAnyoneCanPay
  else if String.eqb s "SIGHASH_NONE|SIGHASH_ANYONECANPAY" then Ok NonePlusAnyoneCanPay
  else if String.eqb s "SIGHASH_SINGLE|SIGHASH_ANYONECANPAY" then Ok SinglePlusAnyoneCanPay
  else Err "can't recognize SIGHASH string"%string.

Section Sighash.
Context {P : Platform} {S : Secp} {H : Hashes}.

(** ** Legacy *)

Definition sighash_single_bug : bytes := Byte.x01 :: replicate 31 Byte.x00.

Definition TxOut_default : TxOut := mkTxOut AssetNull ValueNull NonceNull [] TxOutWitness_empty.

(** The inputs of the transaction to sign. *)
Definition legacy_input (input_index : nat) (script : Script) (blank_sequences : bool)
    (n : nat) (i : TxIn) : TxIn :=
  mkTxIn (previous_output i) (is_pegin i)
    (if (n =? input_index)%nat then script else [])
    (if negb (n =? input_index)%nat && blank_sequences then Sequence_ZERO else sequence i)
    (asset_issuance i) TxInWitness_empty.

(** [encode_legacy_signing_data_to]; [None] is the assertion failure. *)
Definition legacy_signing_data (tx : Transaction) (input_index : nat) (script : Script)
    (sighash_type : EcdsaSighashType) : option bytes :=
  this ← input tx !! input_index;
  let '(sighash, anyone_can_pay) := split_anyonecanpay_flag sighash_type in
  if bool_decide (sighash = SighashSingle) && (length (output tx) <=? input_index)%nat
  then Some sighash_single_bug
  else
    let inputs :=
      if anyone_can_pay : bool
      then [mkTxIn (previous_output this) (is_pegin this) script (sequence this)
              (asset_issuance this) TxInWitness_empty]
      else imap (legacy_input input_index script
                   (bool_decide (sighash = SighashSingle) || bool_decide (sighash = SighashNone)))
             (input tx) in
    let outputs :=
      match sighash with
      | SighashSingle =>
          imap (fun n out => if (n =? input_index)%nat then out else TxOut_default)
            (take (input_index + 1) (output tx))
      | SighashNone => []
      | _ => output tx
      end in
    Some (emit_u32 (version tx) ++ encode_vec encode_TxIn inputs ++
          encode_vec encode_TxOut outputs ++ encode_LockTime (lock_time tx) ++
          emit_u32 (sighash_as_u32 sighash_type)).

Definition legacy_sighash (tx : Transaction) (input_index : nat) (script : Script)
    (sighash_type : EcdsaSighashType) : option bytes :=
  sha256d <$> legacy_signing_data tx input_index script sighash_type.

(** ** Segwit v0, with the cache *)

Record CommonCache := mkCommon
  { cc_prevouts : bytes; cc_sequences : bytes; cc_outputs : bytes; cc_issuances : bytes }.
Record SegwitCache := mkSegwit
  { sc_prevouts : bytes; sc_sequences : bytes; sc_issuances : bytes; sc_outputs : bytes }.

Record TaprootCache := mkTaproot
  { tc_script_pubkeys : bytes; tc_outpoint_flags : bytes; tc_asset_amounts : bytes;
    tc_issuance_rangeproofs : bytes; tc_output_witnesses : bytes }.

Record SighashCache := mkCache
  { cache_tx : Transaction;
    common_cache : option CommonCache;
    segwit_cache : option SegwitCache;
    taproot_cache : option TaprootCache }.

Definition SighashCache_new (tx : Transaction) : SighashCache := mkCache tx None None None.

Definition compute_common (tx : Transaction) : CommonCache :=
  mkCommon
    (sha256 (concat (map (fun i => encode_OutPoint (previous_output i)) (input tx))))
    (sha256 (concat (map (fun i => encode_Sequence (sequence i)) (input tx))))
    (sha256 (concat (map encode_TxOut (output tx))))
    (sha256 (concat (map (fun i => if has_issuance i then encode_AssetIssuance (asset_issuance i)
                                   else emit_u8 0) (input tx)))).

(** [common_cache_minimal_borrow] and [segwit_cache]: [get_or_insert_with]. *)
Definition get_common (c : SighashCache) : CommonCache * SighashCache :=
  match common_cache c with
  | Some cc => (cc, c)
  | None => let cc := compute_common (cache_tx c) in
            (cc, mkCache (cache_tx c) (Some cc) (segwit_cache c) (taproot_cache c))
  end.

Definition segwit_of_common (cc : CommonCache) : SegwitCache :=
  mkSegwit (sha256 (cc_prevouts cc)) (sha256 (cc_sequences cc)) (sha256 (cc_issuances cc))
    (sha256 (cc_outputs cc)).

Definition get_segwit (c : SighashCache) : SegwitCache * SighashCache :=
  match segwit_cache c with
  | Some sc => (sc, c)
  | None => let '(cc, c) := get_common c in
            let sc := segwit_of_common cc in
            (sc, mkCache (cache_tx c) (common_cache c) (Some sc) (taproot_cache c))
  end.

(** [encode_segwitv0_signing_data_to]; [None] is the out-of-range panic. *)
Definition segwitv0_signing_data (c : SighashCache) (input_index : nat) (script_code : Script)
    (value : Value) (sighash_type : EcdsaSighashType) : option (bytes * SighashCache) :=
  let '(sighash, anyone_can_pay) := split_anyonecanpay_flag sighash_type in
  let all := bool_decide (sighash <> SighashSingle) && bool_decide (sighash <> SighashNone) in
  let '(prevouts, c) :=
    if negb anyone_can_pay then let '(sc, c) := get_segwit c in (sc_prevouts sc, c)
    else (zero_hash, c) in
  let '(sequences, c) :=
    if negb anyone_can_pay && all then let '(sc, c) := get_segwit c in (sc_sequences sc, c)
    else (zero_hash, c) in
  let '(issuances, c) :=
    if negb anyone_can_pay then let '(sc, c) := get_segwit c in (sc_issuances sc, c)
    else (zero_hash, c) in
  txin ← input (cache_tx c) !! input_index;
  let '(outputs, c) :=
    if all then let '(sc, c) := get_segwit c in (sc_outputs sc, c)
    else match output (cache_tx c) !! input_index with
         | Some out => if bool_decide (sighash = SighashSingle)
                       then (sha256d (encode_TxOut out), c) else (zero_hash, c)
         | None => (zero_hash, c)
         end in
  Some (emit_u32 (version (cache_tx c)) ++ prevouts ++ sequences ++ issuances ++
        encode_OutPoint (previous_output txin) ++ encode_vec_u8 script_code ++
        encode_Value value ++ encode_Sequence (sequence txin) ++
        (if has_issuance txin then encode_AssetIssuance (asset_issuance txin) else []) ++
        outputs ++ encode_LockTime (lock_time (cache_tx c)) ++
        emit_u32 (sighash_as_u32 sighash_type), c).

Definition segwitv0_sighash (c : SighashCache) (input_index : nat) (script_code : Script)
    (value : Value) (sighash_type : EcdsaSighashType) : option (bytes * SighashCache) :=
  '(data, c) ← segwitv0_signing_data c input_index script_code value sighash_type;
  Some (sha256d data, c).

(** [witness_mut] hands out the script witness of an input; [f] is what the
    caller does with it. *)
Definition witness_mut (c : SighashCache) (input_index : nat) (f : list bytes -> list bytes)
  : option SighashCache :=
  i ← input (cache_tx c) !! input_index;
  let w := in_witness i in
  let w' := mkTxInWitness (amount_rangeproof w) (inflation_keys_rangeproof w)
              (f (script_witness w)) (pegin_witness w) in
  Some (mkCache (mkTransaction (version (cache_tx c)) (lock_time (cache_tx c))
                   (<[input_index := set_in_witness i w']> (input (cache_tx c)))
                   (output (cache_tx c)))
          (common_cache c) (segwit_cache c) (taproot_cache c)).

(** The operations a signer interleaves on one cache. *)
Inductive cache_step : SighashCache -> SighashCache -> Prop :=
| step_sighash c c' i s v t h :
    segwitv0_sighash c i s v t = Some (h, c') -> cache_step c c'
| step_witness c c' i f :
    witness_mut c i f = Some c' -> cache_step c c'.

(** ** Lemmas *)

(** What an input contributes to the signing data, its script aside. *)
Definition input_commitment (i : TxIn) : OutPoint * bool * Sequence * AssetIssuance :=
  (previous_output i, is_pegin i, sequence i, asset_issuance i).

Lemma legacy_input_wf idx s n i :
  vec_u8_wf s -> TxIn_base_wf i ->
  TxIn_base_wf (legacy_input idx s false n i) /\
  in_witness (legacy_input idx s false n i) = TxInWitness_empty.
Proof.
  intros Hs (Ht & Hv & _ & Hq & Hi). split; [|done].
  split; [exact Ht|]. split; [exact Hv|]. simpl. rewrite andb_false_r. split; [|by split].
  destruct (n =? idx)%nat; [done|]. unfold vec_u8_wf. pose proof max_vec_size_usize. simpl. lia.
Qed.

Lemma legacy_inputs_wf idx s l :
  vec_u8_wf s ->
  vec_wf size_of_TxIn (fun i => TxIn_base_wf i /\ TxInWitness_wf (in_witness i)) l ->
  vec_wf size_of_TxIn (fun i => TxIn_base_wf i /\ in_witness i = TxInWitness_empty)
    (imap (legacy_input idx s false) l).
Proof.
  intros Hs [Hl Hn]. split; [|by rewrite length_imap].
  apply Forall_lookup_2. intros k x Hk. rewrite list_lookup_imap in Hk.
  apply fmap_Some in Hk as (i & Hi & ->).
  apply (Forall_lookup_1 _ _ _ _ Hl) in Hi as [Hb _]. by apply legacy_input_wf.
Qed.

Lemma legacy_data_all tx idx s d :
  legacy_signing_data tx idx s SighashAll = Some d ->
  is_Some (input tx !! idx) /\
  d = emit_u32 (version tx) ++ encode_vec encode_TxIn (imap (legacy_input idx s false) (input tx)) ++
      encode_vec encode_TxOut (map strip_out (output tx)) ++ encode_LockTime (lock_time tx) ++
      emit_u32 1.
Proof.
  unfold legacy_signing_data. intros (i & Hi & E)%bind_Some. simpl in E.
  injection E as <-. split; [eauto|]. by rewrite <-encode_outputs_strip.
Qed.

Lemma imap_legacy_commitments idx s l :
  map input_commitment (imap (legacy_input idx s false) l) = map input_commitment l.
Proof.
  apply list_eq. intros k. change (map ?f ?l) with (f <$> l).
  rewrite !list_lookup_fmap, list_lookup_imap. destruct (l !! k); simpl; [|done].
  unfold input_commitment, legacy_input. simpl. by rewrite andb_false_r.
Qed.

(** The cache agrees with its transaction. *)
Definition cache_ok (c : SighashCache) : Prop :=
  (forall cc, common_cache c = Some cc -> cc = compute_common (cache_tx c)) /\
  (forall sc, segwit_cache c = Some sc -> sc = segwit_of_common (compute_common (cache_tx c))).

Lemma get_common_ok c cc c' :
  cache_ok c -> get_common c = (cc, c') ->
  cc = compute_common (cache_tx c) /\ cache_ok c' /\ cache_tx c' = cache_tx c /\
  segwit_cache c' = segwit_cache c.
Proof.
  unfold get_common. intros Hok E. destruct (common_cache c) as [x|] eqn:Ec.
  - injection E as <- <-. split; [by apply Hok|]. done.
  - injection E as <- <-. split; [done|]. split; [|done]. destruct Hok as [_ Hs].
    split; simpl; naive_solver.
Qed.

Lemma get_segwit_ok c sc c' :
  cache_ok c -> get_segwit c = (sc, c') ->
  sc = segwit_of_common (compute_common (cache_tx c)) /\ cache_ok c' /\ cache_tx c' = cache_tx c.
Proof.
  unfold get_segwit. intros Hok E. destruct (segwit_cache c) as [x|] eqn:Ec.
  - injection E as <- <-. split; [by apply Hok|]. done.
  - destruct (get_common c) as [cc c1] eqn:E1.
    destruct (get_common_ok _ _ _ Hok E1) as (-> & [Hc Hs] & Ht & _).
    injection E as <- <-. split; [done|]. split; [|done]. split; simpl; rewrite Ht in *; naive_solver.
Qed.

Lemma get_segwit_twice c sc c1 : get_segwit c = (sc, c1) -> get_segwit c1 = (sc, c1).
Proof.
  unfold get_segwit. destruct (segwit_cache c) as [x|] eqn:Es.
  - intros [= -> ->]. by rewrite Es.
  - destruct (get_common c) as [cc c2]. by intros [= <- <-].
Qed.

Lemma get_segwit_idem c :
  cache_ok c -> exists c1,
    get_segwit c = (segwit_of_common (compute_common (cache_tx c)), c1) /\
    get_segwit c1 = (segwit_of_common (compute_common (cache_tx c)), c1) /\
    cache_ok c1 /\ cache_tx c1 = cache_tx c.
Proof.
  intros Hok. destruct (get_segwit c) as [sc c1] eqn:E1.
  pose proof (get_segwit_twice _ _ _ E1) as E2.
  destruct (get_segwit_ok _ _ _ Hok E1) as (-> & Hok1 & Ht). by exists c1.
Qed.

(** The signing data as a function of the transaction alone (BIP 143 with the
    Elements additions): what the cached computation has to agree with. *)
Definition bip143_data (tx : Transaction) (idx : nat) (script_code : Script)
    (value : Value) (t : EcdsaSighashType) : option bytes :=
  let sc := segwit_of_common (compute_common tx) in
  let sighash := fst (split_anyonecanpay_flag t) in
  let acp := snd (split_anyonecanpay_flag t) in
  let all := bool_decide (sighash <> SighashSingle) && bool_decide (sighash <> SighashNone) in
  txin ← input tx !! idx;
  Some (emit_u32 (version tx) ++
        (if acp then zero_hash else sc_prevouts sc) ++
        (if negb acp && all then sc_sequences sc else zero_hash) ++
        (if acp then zero_hash else sc_issuances sc) ++
        encode_OutPoint (previous_output txin) ++ encode_vec_u8 script_code ++
        encode_Value value ++ encode_Sequence (sequence txin) ++
        (if has_issuance txin then encode_AssetIssuance (asset_issuance txin) else []) ++
        (if all then sc_outputs sc
         else match output tx !! idx with
              | Some out => if bool_decide (sighash = SighashSingle)
                            then sha256d (encode_TxOut out) else zero_hash
              | None => zero_hash
              end) ++
        encode_LockTime (lock_time tx) ++ emit_u32 (sighash_as_u32 t)).

Lemma segwitv0_data_pure c i s v t :
  cache_ok c -> exists c', cache_ok c' /\ cache_tx c' = cache_tx c /\
    segwitv0_signing_data c i s v t =
    (fun d => (d, c')) <$> bip143_data (cache_tx c) i s v t.
Proof.
  intros Hok. destruct (get_segwit_idem c Hok) as (c1 & G0 & G1 & Hok1 & Ht).
  unfold segwitv0_signing_data, bip143_data.
  destruct (split_anyonecanpay_flag t) as [sh acp]. cbn beta iota zeta delta [fst snd].
  set (sc := segwit_of_common _) in *. set (all := bool_decide (sh <> _) && bool_decide (sh <> _)).
  destruct acp, all; cbn beta iota zeta delta [negb andb]; rewrite ?G0;
    cbn beta iota zeta; rewrite ?G1; cbn beta iota zeta; rewrite ?G1; cbn beta iota zeta;
    rewrite ?Ht; destruct (input (cache_tx c) !! i) as [txin|] eqn:Ei;
    cbn [mbind option_bind fmap option_fmap option_map];
    try (first [by exists c1|by exists c]).
  all: rewrite ?G0, ?G1; cbn beta iota zeta; rewrite ?Ht; try (first [by exists c1|by exists c]).
  all: destruct (output (cache_tx c) !! i); try case_bool_decide; rewrite ?Ht;
    first [by exists c1|by exists c].
Qed.

(** Signing data does not depend on witnesses. *)
Definition strip_tx (tx : Transaction) : Transaction :=
  mkTransaction (version tx) (lock_time tx) (map strip_in (input tx)) (output tx).

Lemma bip143_strip tx i s v t : bip143_data (strip_tx tx) i s v t = bip143_data tx i s v t.
Proof.
  unfold bip143_data, compute_common, strip_tx. cbn [input output version lock_time].
  rewrite !map_map. change (map strip_in (input tx)) with (strip_in <$> input tx).
  rewrite list_lookup_fmap. by destruct (input tx !! i).
Qed.

Lemma compute_common_strip tx tx' :
  strip_tx tx = strip_tx tx' -> compute_common tx = compute_common tx'.
Proof.
  assert (Hs : forall t, compute_common (strip_tx t) = compute_common t)
    by (intros; unfold compute_common, strip_tx; simpl; by rewrite !map_map).
  intros E. by rewrite <-(Hs tx), <-(Hs tx'), E.
Qed.

Lemma witness_mut_ok c i f c' :
  cache_ok c -> witness_mut c i f = Some c' ->
  cache_ok c' /\ strip_tx (cache_tx c') = strip_tx (cache_tx c).
Proof.
  intros [Hc Hs] (x & Hx & [= <-])%bind_Some. 
  assert (E : strip_tx (cache_tx (mkCache (mkTransaction (version (cache_tx c)) (lock_time (cache_tx c))
      (<[i := set_in_witness x (mkTxInWitness (amount_rangeproof (in_witness x))
         (inflation_keys_rangeproof (in_witness x)) (f (script_witness (in_witness x)))
         (pegin_witness (in_witness x)))]> (input (cache_tx c))) (output (cache_tx c)))
      (common_cache c) (segwit_cache c) (taproot_cache c))) = strip_tx (cache_tx c)).
  { unfold strip_tx. simpl. f_equal. change (map strip_in ?l) with (strip_in <$> l).
    rewrite list_fmap_insert. apply list_insert_id. by rewrite list_lookup_fmap, Hx. }
  split; [|done]. apply compute_common_strip in E. simpl in E.
  split; simpl; intros ? H1; rewrite E; auto.
Qed.

Lemma cache_steps_ok c c' :
  rtc cache_step c c' -> cache_ok c ->
  cache_ok c' /\ strip_tx (cache_tx c') = strip_tx (cache_tx c).
Proof.
  induction 1 as [c|c c1 c' Hstep _ IH]; intros Hok; [done|].
  destruct Hstep as [c c1 i s v t h E|c c1 i f E].
  - unfold segwitv0_sighash in E. apply bind_Some in E as ([d c2] & E & [= _ <-]).
    destruct (segwitv0_data_pure c i s v t Hok) as (c3 & Hok3 & Ht & E').
    rewrite E' in E. apply fmap_Some in E as (? & _ & [= -> ->]).
    destruct (IH Hok3) as [? ->]. by rewrite Ht.
  - destruct (witness_mut_ok _ _ _ _ Hok E) as [Hok1 Es].
    destruct (IH Hok1) as [? ->]. done.
Qed.
End Sighash.

(** ** Claims *)

(** The legacy [SIGHASH_ALL] message is a commitment: two well-formed
    transactions with the same message for the same input index agree on the
    version, the lock time, every output, and the outpoint, peg-in flag, sequence
    and issuance of every input, and they were signed for the same script.  Only
    script signatures and witnesses stay free. *)
Theorem legacy_sighash_all_commits `{Platform} `{Secp} (tx tx' : Transaction) (idx : nat)
    (s s' : Script) (d : bytes) :
  Transaction_wf tx -> Transaction_wf tx' -> vec_u8_wf s -> vec_u8_wf s' ->
  legacy_signing_data tx idx s SighashAll = Some d ->
  legacy_signing_data tx' idx s' SighashAll = Some d ->
  s = s' /\ version tx = version tx' /\ lock_time tx = lock_time tx' /\
  map input_commitment (input tx) = map input_commitment (input tx') /\
  map strip_out (output tx) = map strip_out (output tx').
Proof.
  intros (Hv & Hl & Hi & Ho) (Hv' & Hl' & Hi' & Ho') Hs Hs' E E'.
  apply legacy_data_all in E as [[x Hx] ->]. apply legacy_data_all in E' as [[y Hy] E'].
  apply (codec_inj u32_codec) in E' as [? E']; [|done..].
  apply (codec_inj inputs_codec) in E' as [Ei E']; [|by apply legacy_inputs_wf..].
  apply (codec_inj outputs_codec) in E' as [Eo E']; [|by apply outputs_strip_wf..].
  apply (codec_inj LockTime_codec) in E' as [El _]; [|done..].
  assert (Es : s = s').
  { apply (f_equal (lookup idx)) in Ei. rewrite !list_lookup_imap, Hx, Hy in Ei. simpl in Ei.
    apply (inj Some), (f_equal script_sig) in Ei. simpl in Ei. by rewrite Nat.eqb_refl in Ei. }
  repeat (split; [done|]). split; [|done].
  rewrite <-(imap_legacy_commitments idx s), <-(imap_legacy_commitments idx s' (input tx')).
  by rewrite Ei.
Qed.

Import TxSample.

Lemma legacy_sighash_all_commits_witness :
  exists d, legacy_signing_data sample_tx 1 [Byte.x51] SighashAll = Some d /\
    map input_commitment (input sample_tx) = map input_commitment (input sample_tx).
Proof.
  eexists. split; [reflexivity|].
  eapply (legacy_sighash_all_commits sample_tx sample_tx 1 [Byte.x51] [Byte.x51]);
    [exact sample_tx_wf|exact sample_tx_wf|done|done|reflexivity|reflexivity].
Defined.

(** [SighashCache] is coherent: after any interleaving of signature-hash
    computations and witness updates starting from a fresh cache, the segwit v0
    signature hash of an input is the BIP-143 hash of the original transaction;
    the only failure is the index being out of range. *)
Theorem segwit_cache_coherent `{Platform} `{Secp} `{Hashes} (tx : Transaction) (c : SighashCache)
    (i : nat) (s : Script) (v : Value) (t : EcdsaSighashType) :
  rtc cache_step (SighashCache_new tx) c ->
  fst <$> segwitv0_sighash c i s v t = sha256d <$> bip143_data tx i s v t /\
  (is_Some (segwitv0_sighash c i s v t) <-> (i < length (input tx))%nat).
Proof.
  intros Hsteps. destruct (cache_steps_ok _ _ Hsteps) as [Hok Es]; [done|]. simpl in Es.
  destruct (segwitv0_data_pure c i s v t Hok) as (c' & _ & _ & E).
  unfold segwitv0_sighash. rewrite E, <-(bip143_strip (cache_tx c)), Es, bip143_strip.
  rewrite <-lookup_lt_is_Some. unfold bip143_data.
  destruct (input tx !! i) as [x|]; simpl; [by split|]. split; [done|].
  by split; intros [? ?].
Qed.

Module SighashSample.
Export TxSample.

(** A concrete digest of the right length, to evaluate the definitions with. *)
Program Definition Hashes_model : Hashes :=
  {| sha256 l := le_bytes 32 (le_val l * 1000003 + Z.of_nat (length l)) |}.
Next Obligation. intros l. apply length_le_bytes. Qed.
#[export] Existing Instance Hashes_model.
End SighashSample.
Import SighashSample.

Lemma segwit_cache_coherent_witness :
  exists c, rtc cache_step (SighashCache_new sample_tx) c /\
    cache_tx c <> sample_tx /\
    fst <$> segwitv0_sighash c 1 [Byte.x51] (ValueExplicit 5) SighashAll =
    sha256d <$>
      bip143_data sample_tx 1 [Byte.x51] (ValueExplicit 5) SighashAll.
Proof.
  pose (c0 := SighashCache_new sample_tx).
  pose (c1 := match segwitv0_sighash c0 0 [] (ValueExplicit 5) SighashSingle with
              | Some (_, c) => c | None => c0 end).
  pose (c2 := default c1 (witness_mut c1 0 (cons [Byte.x02]))).
  exists c2.
  assert (Hr : rtc cache_step c0 c2).
  { eapply rtc_l; [eapply (step_sighash c0 c1 0 [] (ValueExplicit 5) SighashSingle); reflexivity|].
    eapply rtc_l; [apply (step_witness c1 c2 0 (cons [Byte.x02])); reflexivity|]. apply rtc_refl. }
  split; [exact Hr|]. split; [discriminate|].
  exact (proj1 (segwit_cache_coherent sample_tx c2 1 [Byte.x51] (ValueExplicit 5) SighashAll Hr)).
Defined.
