(* ===== verification/Merkle.v ===== *)
(** * The fast merkle root, and the identifiers computed with it

    Models [fast_merkle_root.rs] (the binary-counter algorithm over an array of 32
    subtree hashes), [issuance.rs] (entropy, asset and reissuance-token ids),
    [TxIn::issuance_ids] of [transaction.rs], and the dynafed roots of [dynafed.rs] and
    [block.rs].  SHA-256's midstate is a parameter.  [merkle_spec] is the textbook
    construction (hash neighbours level by level, an odd node at the end moves up
    unchanged); the theorems show that the counter computes it, that the roots of full
    and compact parameters agree, and that equal ids come from equal entropies unless
    two of the hashed blocks collide. *)

From S2P Require Import Prelude Encode Timelocks Confidential Transaction Block Sighash.

(** The state of the SHA-256 engine after whole blocks of 64 bytes
    ([HashEngine::midstate]). *)
Class Midstates :=
  { sha256_midstate : bytes -> bytes;
    sha256_midstate_length : forall l, length (sha256_midstate l) = 32%nat }.

Section code.
Context {M : Midstates}.

Definition sha256midstate (left right : bytes) : bytes := sha256_midstate (left ++ right).

(** The loops over [level].  [None] stands for the panics: an index or a shift of 32 and
    an overflow of [count]; a level is at most 31, so 33 rounds of fuel are never
    exhausted before the index is out of range. *)
Definition bit_clear (count : Z) (level : nat) : bool :=
  Z.land count (Z.shiftl 1 (Z.of_nat level)) =? 0.

Fixpoint carry (fuel : nat) (inner : list bytes) (count : Z) (level : nat) (temp_hash : bytes)
    : option (nat * bytes) :=
  match fuel with
  | O => None
  | S fuel =>
      if (32 <=? level)%nat then None
      else if bit_clear count level then
        x ← inner !! level;
        carry fuel inner count (S level) (sha256midstate x temp_hash)
      else Some (level, temp_hash)
  end.

(** One leaf of the first loop: [count += 1], the carries, [inner[level] = temp_hash]. *)
Definition add_leaf (st : list bytes * Z) (leaf : bytes) : option (list bytes * Z) :=
  let '(inner, count) := st in
  if u32_max <=? count then None
  else
    '(level, temp_hash) ← carry 33 inner (count + 1) 0 leaf;
    Some (<[level := temp_hash]> inner, count + 1).

Fixpoint add_leaves (st : list bytes * Z) (leaves : list bytes) : option (list bytes * Z) :=
  match leaves with
  | [] => Some st
  | leaf :: leaves => st ← add_leaf st leaf; add_leaves st leaves
  end.

Fixpoint lowest_level (fuel : nat) (count : Z) (level : nat) : option nat :=
  match fuel with
  | O => None
  | S fuel =>
      if (32 <=? level)%nat then None
      else if bit_clear count level then lowest_level fuel count (S level) else Some level
  end.

(** The last loop: while [count] is not [1 << level]. *)
Fixpoint sweep (fuel : nat) (inner : list bytes) (count : Z) (level : nat) (result_hash : bytes)
    : option bytes :=
  match fuel with
  | O => None
  | S fuel =>
      if (32 <=? level)%nat then None
      else if count =? Z.shiftl 1 (Z.of_nat level) then Some result_hash
      else
        let count := count + Z.shiftl 1 (Z.of_nat level) in
        if u32_max <? count then None
        else
          '(level, result_hash) ← carry 33 inner count (S level) result_hash;
          sweep fuel inner count level result_hash
  end.

Definition fast_merkle_root (leaves : list bytes) : option bytes :=
  match leaves with
  | [] => Some zero_hash
  | _ =>
      '(inner, count) ← add_leaves (replicate 32 zero_hash, 0) leaves;
      level ← lowest_level 33 count 0;
      result_hash ← inner !! level;
      sweep 33 inner count level result_hash
  end.

(** ** Issuance *)

Context {H : Hashes}.

Definition ZERO32 : bytes := zero_hash.
Definition ONE32 : bytes := Byte.x01 :: replicate 31 Byte.x00.
Definition TWO32 : bytes := Byte.x02 :: replicate 31 Byte.x00.

Definition generate_asset_entropy (prevout : OutPoint) (contract_hash : bytes) : option bytes :=
  fast_merkle_root [sha256d (encode_OutPoint prevout); contract_hash].

Definition from_entropy (entropy : bytes) : option bytes := fast_merkle_root [entropy; ZERO32].

Definition reissuance_token_from_entropy (entropy : bytes) (confidential : bool) : option bytes :=
  fast_merkle_root [entropy; if confidential then TWO32 else ONE32].

Definition new_issuance (prevout : OutPoint) (contract_hash : bytes) : option bytes :=
  entropy ← generate_asset_entropy prevout contract_hash; from_entropy entropy.

Definition new_reissuance_token (prevout : OutPoint) (contract_hash : bytes)
    (confidential : bool) : option bytes :=
  entropy ← generate_asset_entropy prevout contract_hash;
  reissuance_token_from_entropy entropy confidential.

Section ids.
Context {P : Platform} {S : Secp}.

(** [TxIn::issuance_ids]: the asset and the token of an issuance, or of a reissuance,
    whose entropy is in the input. *)
Definition issuance_entropy (i : TxIn) : option bytes :=
  let a := asset_issuance i in
  if bool_decide (asset_blinding_nonce a = ZERO_TWEAK)
  then generate_asset_entropy (previous_output i) (asset_entropy a)
  else Some (asset_entropy a).

Definition issuance_ids (i : TxIn) : option (bytes * bytes) :=
  entropy ← issuance_entropy i;
  asset_id ← from_entropy entropy;
  token_id ← reissuance_token_from_entropy entropy
               (Value_is_confidential (amount (asset_issuance i)));
  Some (asset_id, token_id).

End ids.

(** ** Dynamic-federation roots *)

Definition full_extra_root (f : FullParams) : option bytes :=
  fast_merkle_root [sha256d (encode_vec_u8 (fedpeg_program f));
                    sha256d (encode_vec_u8 (fedpegscript f));
                    sha256d (encode_vec_vec (extension_space f))].

Definition full_calculate_root (f : FullParams) : option bytes :=
  compact_root ← fast_merkle_root [sha256d (encode_vec_u8 (signblockscript f));
                                   sha256d (emit_u32 (signblock_witness_limit f))];
  extra_root ← full_extra_root f;
  fast_merkle_root [compact_root; extra_root].

Definition full_into_compact (f : FullParams) : option Params :=
  extra_root ← full_extra_root f;
  Some (ParamsCompact (signblockscript f) (signblock_witness_limit f) extra_root).

Definition Params_signblockscript (p : Params) : option bytes :=
  match p with
  | ParamsNull => None
  | ParamsCompact s _ _ => Some s
  | ParamsFull f => Some (signblockscript f)
  end.

Definition Params_signblock_witness_limit (p : Params) : option Z :=
  match p with
  | ParamsNull => None
  | ParamsCompact _ l _ => Some l
  | ParamsFull f => Some (signblock_witness_limit f)
  end.

Definition Params_extra_root (p : Params) : option bytes :=
  match p with
  | ParamsNull => Some zero_hash
  | ParamsCompact _ _ elided_root => Some elided_root
  | ParamsFull f => full_extra_root f
  end.

(** [Params::calculate_root]; the two [unwrap]s panic on null parameters only. *)
Definition Params_calculate_root (p : Params) : option bytes :=
  match p with
  | ParamsNull => Some zero_hash
  | _ =>
      s ← Params_signblockscript p;
      l ← Params_signblock_witness_limit p;
      compact_root ← fast_merkle_root [sha256d (encode_vec_u8 s); sha256d (emit_u32 l)];
      extra_root ← Params_extra_root p;
      fast_merkle_root [compact_root; extra_root]
  end.

(** [Params::into_compact]: the outer [None] is a panic, the inner one the result for
    null parameters. *)
Definition Params_into_compact (p : Params) : option (option Params) :=
  match p with
  | ParamsNull => Some None
  | ParamsCompact s l r => Some (Some (ParamsCompact s l r))
  | ParamsFull f => p ← full_into_compact f; Some (Some p)
  end.

Definition calculate_dynafed_params_root (h : BlockHeader) : option (option bytes) :=
  match ext h with
  | Proof_ _ _ => Some None
  | Dynafed current proposed _ =>
      c ← Params_calculate_root current;
      p ← Params_calculate_root proposed;
      r ← fast_merkle_root [c; p];
      Some (Some r)
  end.

End code.

(** ** The reference: level by level *)

Section spec.
Context {M : Midstates}.

(** Neighbours are hashed together; a last node without neighbour is kept. *)
Fixpoint pair_up (xs : list bytes) : list bytes :=
  match xs with
  | a :: b :: xs => sha256midstate a b :: pair_up xs
  | _ => xs
  end.

(** The same, but the node without neighbour is left out: the complete subtrees. *)
Fixpoint full_pairs (xs : list bytes) : list bytes :=
  match xs with
  | a :: b :: xs => sha256midstate a b :: full_pairs xs
  | _ => []
  end.

(** One level less at each of [length xs] rounds; a single node stays as it is. *)
Definition merkle_spec (xs : list bytes) : bytes :=
  default zero_hash (head (Nat.iter (length xs) pair_up xs)).

Lemma pairs_ind (Q : list bytes -> Prop) :
  Q [] -> (forall a, Q [a]) -> (forall a b xs, Q xs -> Q (a :: b :: xs)) -> forall xs, Q xs.
Proof.
  intros H0 H1 H2. fix IH 1. intros [|a [|b xs]]; [done|apply H1|]. apply H2, IH.
Qed.

Lemma length_full_pairs xs : zlen (full_pairs xs) = zlen xs / 2.
Proof.
  unfold zlen. induction xs as [| |a b xs IH] using pairs_ind; simpl length; [done..|].
  rewrite !Nat2Z.inj_succ, IH.
  replace (Z.succ (Z.succ (Z.of_nat (length xs)))) with (Z.of_nat (length xs) + 1 * 2) by lia.
  rewrite Z.div_add by lia. lia.
Qed.

Lemma pairs_app xs ys : Z.Even (zlen xs) ->
  full_pairs (xs ++ ys) = full_pairs xs ++ full_pairs ys /\
  pair_up (xs ++ ys) = full_pairs xs ++ pair_up ys.
Proof.
  unfold zlen. induction xs as [| |a b xs IH] using pairs_ind; intros He; simpl; [done| |].
  - destruct He as [k Hk]. simpl in Hk. lia.
  - destruct IH as [-> ->]; [|done].
    destruct He as [k Hk]. exists (k - 1). simpl length in Hk. lia.
Qed.

Lemma pairs_even xs : Z.Even (zlen xs) -> pair_up xs = full_pairs xs.
Proof. intros He. rewrite <-(app_nil_r xs) at 1. by rewrite (proj2 (pairs_app xs [] He)), app_nil_r. Qed.

Lemma pair_up_snoc xs r : Z.Even (zlen xs) -> pair_up (xs ++ [r]) = full_pairs xs ++ [r].
Proof. intros He. by rewrite (proj2 (pairs_app xs [r] He)). Qed.

Lemma full_pairs_snoc xs r : Z.Even (zlen xs) -> full_pairs (xs ++ [r]) = full_pairs xs.
Proof. intros He. by rewrite (proj1 (pairs_app xs [r] He)), app_nil_r. Qed.

Lemma zlen_snoc {A} (xs : list A) x : zlen (xs ++ [x]) = zlen xs + 1.
Proof. unfold zlen. rewrite length_app. simpl. lia. Qed.

(** An odd number of nodes ends with one that has no neighbour. *)
Lemma odd_snoc (xs : list bytes) : Z.Odd (zlen xs) ->
  exists ys y, xs = ys ++ [y] /\ Z.Even (zlen ys).
Proof.
  destruct xs as [|y ys _] using rev_ind; intros [k Hk]; [unfold zlen in Hk; simpl in Hk; lia|].
  rewrite zlen_snoc in Hk. exists ys, y. split; [done|]. exists k. lia.
Qed.

Lemma full_pairs_odd_snoc xs y r : Z.Even (zlen xs) ->
  full_pairs ((xs ++ [y]) ++ [r]) = full_pairs (xs ++ [y]) ++ [sha256midstate y r].
Proof.
  intros He. rewrite <-app_assoc. simpl.
  by rewrite (proj1 (pairs_app xs [y; r] He)), full_pairs_snoc.
Qed.

(** *** Reducing to a single node *)

Lemma length_pair_up xs : length (pair_up xs) = ((length xs + 1) / 2)%nat.
Proof.
  induction xs as [| |a b xs IH] using pairs_ind; simpl length; [done..|].
  rewrite IH. replace (S (S (length xs)) + 1)%nat with (length xs + 1 + 1 * 2)%nat by lia.
  rewrite Nat.div_add by lia. lia.
Qed.

Lemma length_iter_pair_up n xs : (0 < length xs)%nat ->
  (0 < length (Nat.iter n pair_up xs) /\ length (Nat.iter n pair_up xs) <= 1 \/ 
   0 < length (Nat.iter n pair_up xs) /\ length (Nat.iter n pair_up xs) + n <= length xs)%nat.
Proof.
  intros Hxs. induction n as [|n IH]; simpl; [lia|].
  rewrite length_pair_up. set (m := length (Nat.iter n pair_up xs)) in *.
  pose proof (Nat.div_mod_eq (m + 1) 2). pose proof (Nat.mod_upper_bound (m + 1) 2). lia.
Qed.

Lemma iter_single n r : Nat.iter n pair_up [r] = [r].
Proof. induction n as [|n IH]; simpl; [done|]. by rewrite IH. Qed.

(** However the reduction to one node is reached, the node is the reference root. *)
Lemma merkle_spec_iter n xs r : xs <> [] -> Nat.iter n pair_up xs = [r] -> merkle_spec xs = r.
Proof.
  intros Hne Hr. unfold merkle_spec.
  assert (Hlen : (0 < length xs)%nat) by (destruct xs; simpl; [done|lia]).
  assert (exists r', Nat.iter (length xs) pair_up xs = [r']) as [r' Hr'].
  { pose proof (length_iter_pair_up (length xs) xs Hlen) as Hl.
    destruct (Nat.iter (length xs) pair_up xs) as [|r' [|]]; simpl in Hl; [lia|eauto|lia]. }
  rewrite Hr'. simpl. set (m := length xs) in *.
  destruct (decide (n <= m)%nat).
  - replace m with ((m - n) + n)%nat in Hr' by lia. rewrite Nat.iter_add, Hr, iter_single in Hr'.
    congruence.
  - replace n with ((n - m) + m)%nat in Hr by lia. rewrite Nat.iter_add, Hr', iter_single in Hr.
    congruence.
Qed.
End spec.

(** ** The binary counter computes it *)

#[local] Arguments carry : simpl never.
#[local] Arguments sweep : simpl never.
#[local] Arguments lowest_level : simpl never.

Section counter.
Context {M : Midstates}.

Lemma bit_clear_even count l :
  bit_clear count l = Z.even (count / 2 ^ Z.of_nat l).
Proof.
  unfold bit_clear. rewrite Z.shiftl_1_l, land_pow2 by lia.
  rewrite Zmod_even. destruct (Z.even _); [by rewrite Z.mul_0_r|].
  rewrite Z.mul_1_r. apply Z.eqb_neq. lia.
Qed.

Definition lev (xs : list bytes) (j : nat) : list bytes := Nat.iter j full_pairs xs.

(** [inner], read from level [l] on, holds the last node of every odd level above [xs]. *)
Definition ok_from (l : nat) (inner xs : list bytes) : Prop :=
  forall j, (l + j < 32)%nat -> Z.Odd (zlen (lev xs j)) -> inner !! (l + j)%nat = last (lev xs j).

Lemma lev_full xs j : lev (full_pairs xs) j = lev xs (S j).
Proof. unfold lev. by rewrite Nat.iter_succ_r. Qed.

Lemma ok_from_S l inner xs : ok_from l inner xs -> ok_from (S l) inner (full_pairs xs).
Proof.
  intros Hok j Hj Ho. rewrite lev_full in *. replace (S l + j)%nat with (l + S j)%nat in * by lia.
  by apply Hok.
Qed.

Lemma ok_from_0 l inner xs : ok_from l inner xs -> (l < 32)%nat -> Z.Odd (zlen xs) ->
  inner !! l = last xs.
Proof. intros Hok Hl Ho. rewrite <-(Nat.add_0_r l). apply Hok; [lia|done]. Qed.

Lemma div_pow_S a (l : nat) : a / 2 ^ Z.of_nat (S l) = a / 2 ^ Z.of_nat l / 2.
Proof.
  rewrite Nat2Z.inj_succ, Z.pow_succ_r, (Z.mul_comm 2) by lia. by rewrite Z.div_div by lia.
Qed.

Lemma zlen_lev xs j : zlen (lev xs j) = zlen xs / 2 ^ Z.of_nat j.
Proof.
  induction j as [|j IH]; [by rewrite Z.div_1_r|].
  rewrite div_pow_S, <-IH. apply length_full_pairs.
Qed.

(** What the loop over clear bits does: it climbs from level [l], where the nodes are
    [xs] and the new one [t], to the first level [l'] whose nodes [xs'] pair up without
    the climbing node [t']. *)
Record climbed (count : Z) (l : nat) (xs : list bytes) (t : bytes)
    (l' : nat) (xs' : list bytes) (t' : bytes) : Prop :=
  { cl_level : (l <= l' < 32)%nat;
    cl_nodes : xs' = lev xs (l' - l);
    cl_even : Z.Even (zlen xs');
    cl_count : count / 2 ^ Z.of_nat l' = zlen xs' + 1;
    cl_clear : forall j, (l <= j < l')%nat -> Z.Even (count / 2 ^ Z.of_nat j);
    cl_iter (f : list bytes -> list bytes) :
      (forall ys, Z.Even (zlen ys) -> f ys = full_pairs ys) ->
      Nat.iter (l' - l) f (xs ++ [t]) = xs' ++ [t'] }.

Lemma carry_climbs fuel inner count l xs t :
  (33 <= fuel + l)%nat -> count < 2 ^ 32 -> ok_from l inner xs ->
  count / 2 ^ Z.of_nat l = zlen xs + 1 ->
  exists l' xs' t', carry fuel inner count l t = Some (l', t') /\ ok_from l' inner xs' /\
    climbed count l xs t l' xs' t'.
Proof.
  revert l xs t. induction fuel as [|fuel IH]; intros l xs t Hf Hc Hok Hlen.
  all: assert (Hl : (l < 32)%nat).
  1, 3: destruct (decide (l < 32)%nat) as [?|Hge]; [done|exfalso];
    assert (2 ^ 32 <= 2 ^ Z.of_nat l) by (apply Z.pow_le_mono_r; lia);
    pose proof (Z.div_lt_upper_bound count (2 ^ Z.of_nat l) 1);
    unfold zlen in Hlen; lia.
  { lia. }
  unfold carry; fold carry. rewrite (proj2 (Nat.leb_gt 32 l)), bit_clear_even by lia.
  destruct (Z.even (count / 2 ^ Z.of_nat l)) eqn:Ev.
  - apply Z.even_spec in Ev. rewrite Hlen in Ev.
    assert (Ho : Z.Odd (zlen xs)) by (destruct Ev as [k Hk]; exists (k - 1); lia).
    rewrite (ok_from_0 _ _ _ Hok Hl Ho). destruct (odd_snoc _ Ho) as (ys & y & -> & Hys).
    rewrite last_snoc. simpl.
    destruct (IH (S l) (full_pairs (ys ++ [y])) (sha256midstate y t))
      as (l' & xs' & t' & E & Hok' & [Hl' Hn He Hc' Hcl Hit]); [lia|done|by apply ok_from_S| |].
    { rewrite div_pow_S, Hlen, length_full_pairs. rewrite zlen_snoc in *.
      destruct Hys as [k Hk]. rewrite Hk.
      replace (2 * k + 1 + 1) with ((k + 1) * 2) by lia.
      replace (2 * k + 1) with (1 + k * 2) by lia. rewrite Z.div_mul, Z.div_add by lia. done. }
    exists l', xs', t'. split_and!; [done..|].
    assert (Hs : (l' - l = S (l' - S l))%nat) by lia.
    split; [lia| |done|done| |].
    + by rewrite Hs, Hn, lev_full.
    + intros j Hj. destruct (decide (j = l)) as [->|]; [by rewrite Hlen|apply Hcl; lia].
    + intros f Hf'. rewrite Hs, Nat.iter_succ_r, Hf', full_pairs_odd_snoc by (by rewrite ?zlen_snoc in *).
      by apply Hit.
  - exists l, xs, t. split_and!; [done..|].
    assert (He : Z.Even (zlen xs)).
    { destruct (Z.Even_or_Odd (zlen xs)) as [?|[k Hk]]; [done|].
      rewrite Hlen, Hk in Ev. replace (2 * k + 1 + 1) with (2 * (k + 1)) in Ev by lia.
      by rewrite Z.even_mul in Ev. }
    split; [lia| |done|done|lia|]; rewrite Nat.sub_diag; done.
Qed.

(** *** The first loop *)

Definition counter_ok (st : list bytes * Z) (xs : list bytes) : Prop :=
  st.2 = zlen xs /\ length st.1 = 32%nat /\ ok_from 0 st.1 xs.

Lemma lev_add xs i j : lev xs (i + j) = lev (lev xs i) j.
Proof. unfold lev. by rewrite Nat.add_comm, Nat.iter_add. Qed.

Lemma Even_not_Odd n : Z.Even n -> Z.Odd n -> False.
Proof. intros [a Ha] [b Hb]. lia. Qed.

Lemma lev_above xs x l xs' t k :
  lev (xs ++ [x]) l = xs' ++ [t] -> xs' = lev xs l -> Z.Even (zlen xs') ->
  lev (xs ++ [x]) (l + S k) = lev xs (l + S k).
Proof.
  intros E E' He. rewrite !lev_add, E, <-E', <-!lev_full. by rewrite full_pairs_snoc.
Qed.

Lemma add_leaf_ok st xs x : counter_ok st xs -> zlen xs < u32_max ->
  exists st', add_leaf st x = Some st' /\ counter_ok st' (xs ++ [x]).
Proof.
  destruct st as [inner count]. intros (Hc & Hlen & Hok) Hmax. simpl in *. subst count.
  unfold add_leaf. destruct (Z.leb_spec u32_max (zlen xs)) as [|_]; [lia|].
  destruct (carry_climbs 33 inner (zlen xs + 1) 0 xs x)
    as (l & xs' & t & -> & _ & [Hl Hn He Hc Hcl Hit]);
    [lia|unfold u32_max in Hmax; lia|done|by rewrite Z.div_1_r|].
  simpl. eexists. split; [done|]. rewrite Nat.sub_0_r in *.
  specialize (Hit full_pairs (fun _ _ => eq_refl)). fold (lev (xs ++ [x]) l) in Hit.
  split_and!; simpl; [by rewrite zlen_snoc|by rewrite length_insert|].
  intros j Hj Ho. simpl. destruct (Nat.lt_trichotomy j l) as [Hjl|[->|Hjl]].
  - exfalso. eapply Even_not_Odd, Ho. rewrite zlen_lev, zlen_snoc. apply Hcl. lia.
  - rewrite list_lookup_insert_eq by lia. by rewrite Hit, last_snoc.
  - rewrite list_lookup_insert_ne by lia. replace j with (l + S (j - l - 1))%nat in * by lia.
    rewrite (lev_above _ _ _ _ _ _ Hit Hn He) in *. by apply (Hok (l + S (j - l - 1))%nat).
Qed.

Lemma add_leaves_ok leaves st xs : counter_ok st xs -> zlen xs + zlen leaves <= u32_max ->
  exists st', add_leaves st leaves = Some st' /\ counter_ok st' (xs ++ leaves).
Proof.
  revert st xs. induction leaves as [|x leaves IH]; intros st xs Hok Hmax; simpl.
  - exists st. by rewrite app_nil_r.
  - unfold zlen in Hmax. simpl in Hmax.
    destruct (add_leaf_ok st xs x) as (st' & -> & Hok'); [done|unfold zlen; lia|]. simpl.
    destruct (IH st' (xs ++ [x])) as (st'' & -> & Hok''); [done|rewrite zlen_snoc; unfold zlen; lia|].
    exists st''. by rewrite <-app_assoc in Hok''.
Qed.

Lemma counter_start : counter_ok (replicate 32 zero_hash, 0) [].
Proof.
  split_and!; [done..|]. intros j _ Ho. exfalso. eapply Even_not_Odd, Ho.
  rewrite zlen_lev. exists 0. apply Z.div_0_l. lia.
Qed.

(** *** The sweep *)

Lemma lowest_level_ok fuel count l : (33 <= fuel + l)%nat -> 0 < count < 2 ^ 32 ->
  0 < count / 2 ^ Z.of_nat l -> 
  exists l', lowest_level fuel count l = Some l' /\ (l <= l' < 32)%nat /\
    (forall j, (l <= j < l')%nat -> Z.Even (count / 2 ^ Z.of_nat j)) /\
    Z.Odd (count / 2 ^ Z.of_nat l').
Proof.
  revert l. induction fuel as [|fuel IH]; intros l Hf Hc Hpos.
  all: assert (Hl : (l < 32)%nat).
  1, 3: destruct (decide (l < 32)%nat) as [?|Hge]; [done|exfalso];
    assert (2 ^ 32 <= 2 ^ Z.of_nat l) by (apply Z.pow_le_mono_r; lia);
    rewrite Z.div_small in Hpos; lia.
  { lia. }
  unfold lowest_level; fold lowest_level. rewrite (proj2 (Nat.leb_gt 32 l)), bit_clear_even by lia.
  destruct (Z.even _) eqn:Ev.
  - apply Z.even_spec in Ev. destruct (IH (S l)) as (l' & E & Hl' & Hb & Ho); [lia|done| |].
    { rewrite div_pow_S. destruct Ev as [k Hk]. rewrite Hk, (Z.mul_comm 2), Z.div_mul by lia. lia. }
    exists l'. split_and!; [done|lia..| |done].
    intros j Hj. destruct (decide (j = l)) as [->|]; [done|apply Hb; lia].
  - exists l. split_and!; [done|lia..|]. apply Z.odd_spec. by rewrite <-Z.negb_even, Ev.
Qed.

(** A count that is an odd multiple of [2^l], within [2^31], stays within it when it is
    rounded up. *)
Lemma round_up_bound count (l : nat) k : (l < 32)%nat -> count <= 2 ^ 31 ->
  count = 2 ^ Z.of_nat l * (2 * k + 1) -> 0 < k ->
  count + 2 ^ Z.of_nat l = 2 ^ Z.of_nat (S l) * (k + 1) /\ count + 2 ^ Z.of_nat l <= 2 ^ 31.
Proof.
  intros Hl Hb -> Hk. split; [rewrite Nat2Z.inj_succ, Z.pow_succ_r by lia; nia|].
  assert (Hl' : (l <= 30)%nat) by (assert (l <> 31)%nat by (intros ->; nia); lia).
  assert (2 ^ 31 = 2 ^ Z.of_nat l * (2 * 2 ^ (30 - Z.of_nat l))) as Hp.
  { rewrite <-Z.pow_succ_r, <-Z.pow_add_r by lia. f_equal. lia. }
  rewrite Hp in *. assert (0 < 2 ^ Z.of_nat l) by lia.
  set (p := 2 ^ (30 - Z.of_nat l)) in *. assert (2 * k + 1 <= 2 * p) by nia. nia.
Qed.

Lemma sweep_ok fuel inner count l xs r :
  (33 <= fuel + l)%nat -> (l < 32)%nat -> count <= 2 ^ 31 -> ok_from l inner xs ->
  Z.Even (zlen xs) -> count = 2 ^ Z.of_nat l * (zlen xs + 1) ->
  exists n root, sweep fuel inner count l r = Some root /\ Nat.iter n pair_up (xs ++ [r]) = [root].
Proof.
  revert count l xs r. induction fuel as [|fuel IH]; intros count l xs r Hf Hl Hb Hok He Hc; [lia|].
  unfold sweep; fold sweep. rewrite (proj2 (Nat.leb_gt 32 l)), Z.shiftl_1_l by lia.
  destruct He as [k Hk]. assert (0 <= zlen xs) by (unfold zlen; lia).
  destruct (Z.eqb_spec count (2 ^ Z.of_nat l)) as [E|Hne].
  - exists 0%nat, r. split; [done|]. assert (zlen xs = 0) as E0 by nia.
    destruct xs; [done|unfold zlen in E0; simpl in E0; lia].
  - assert (Hk0 : 0 < k) by (assert (k <> 0) by (intros ->; nia); lia).
    rewrite Hk in Hc. destruct (round_up_bound count l k) as [Hup Hb']; [done..|].
    unfold u32_max. destruct (Z.ltb_spec 4294967295 (count + 2 ^ Z.of_nat l)); [lia|].
    set (count' := count + 2 ^ Z.of_nat l) in *.
    assert (Hfp : zlen (full_pairs xs) = k).
    { rewrite length_full_pairs, Hk, (Z.mul_comm 2). by apply Z.div_mul. }
    destruct (carry_climbs 33 inner count' (S l) (full_pairs xs) r)
      as (l' & xs' & t & -> & Hok' & [Hl' Hn He' Hc' Hcl Hit]); [lia|lia|by apply ok_from_S| |].
    { rewrite Hup, (Z.mul_comm (2 ^ _)), Z.div_mul by lia. by rewrite Hfp. }
    simpl. destruct (IH count' l' xs' t) as (n & root & E & Hn'); [lia|lia|done|done|done| |].
    { rewrite <-Hc', Hup. replace (Z.of_nat l') with (Z.of_nat (S l) + Z.of_nat (l' - S l)) by lia.
      rewrite Z.pow_add_r by lia.
      assert (Hdiv : forall m, (m <= l' - S l)%nat -> exists q, k + 1 = 2 ^ Z.of_nat m * q).
      { induction m as [|m IHm]; intros Hm; [exists (k + 1); lia|].
        destruct IHm as [q Hq]; [lia|]. destruct (Hcl (S l + m)%nat) as [q' Hq']; [lia|].
        exists q'. rewrite Hup, Hq, Nat2Z.inj_add, Z.pow_add_r, Z.mul_assoc in Hq' by lia.
        rewrite (Z.mul_comm _ q), Z.div_mul in Hq' by lia.
        rewrite Hq, Hq', Nat2Z.inj_succ, Z.pow_succ_r by lia. lia. }
      destruct (Hdiv (l' - S l)%nat) as [q ->]; [lia|].
      rewrite !Z.mul_assoc. rewrite (Z.mul_comm _ q), Z.div_mul by lia. lia. }
    exists (n + (l' - l))%nat, root. split; [done|].
    replace (l' - l)%nat with (S (l' - S l)) by lia.
    rewrite Nat.iter_add, Nat.iter_succ_r, pair_up_snoc by (by exists k).
    by rewrite Hit by apply pairs_even.
Qed.

Lemma fast_merkle_root_ok leaves : leaves <> [] -> zlen leaves <= 2 ^ 31 ->
  fast_merkle_root leaves = Some (merkle_spec leaves).
Proof.
  intros Hne Hlen. unfold fast_merkle_root. destruct leaves as [|x0 ls] eqn:El; [done|].
  rewrite <-El in *. clear El.
  destruct (add_leaves_ok leaves (replicate 32 zero_hash, 0) [])
    as ([inner count] & -> & Hc & Hin & Hok); [apply counter_start|unfold u32_max, zlen in *; simpl; lia|].
  simpl in *. subst count. assert (0 < zlen leaves) by (destruct leaves; [done|unfold zlen; simpl; lia]).
  destruct (lowest_level_ok 33 (zlen leaves) 0) as (l & -> & Hl & Hb & Ho);
    [lia|lia|rewrite Z.div_1_r; lia|]. simpl.
  rewrite <-zlen_lev in Ho. pose proof (Hok l ltac:(lia) Ho) as El. simpl in El. rewrite El.
  destruct (odd_snoc _ Ho) as (ys & r & Hlev & Hys). rewrite Hlev, last_snoc. simpl.
  assert (Hlow : forall j, (j <= l)%nat -> Nat.iter j pair_up leaves = lev leaves j /\
            zlen leaves = 2 ^ Z.of_nat j * zlen (lev leaves j)).
  { induction j as [|j IH]; intros Hj; [split; [done|simpl; lia]|].
    destruct IH as [E1 E2]; [lia|]. assert (He : Z.Even (zlen (lev leaves j))).
    { rewrite zlen_lev. apply Hb. lia. }
    simpl. rewrite E1, pairs_even by done. split; [done|].
    destruct He as [q Hq]. rewrite E2 at 1. rewrite length_full_pairs, Hq.
    rewrite (Z.mul_comm 2 q), Z.div_mul, Nat2Z.inj_succ, Z.pow_succ_r by lia. lia. }
  destruct (Hlow l) as [E1 E2]; [lia|]. rewrite Hlev in E2.
  destruct (sweep_ok 33 inner (zlen leaves) l ys r) as (n & root & -> & Hn);
    [lia|lia|done| |done|by rewrite zlen_snoc in E2|].
  - intros j Hj Hoj. destruct j as [|k]; [by destruct (Even_not_Odd _ Hys Hoj)|].
    assert (E : lev ys (S k) = lev leaves (l + S k)).
    { rewrite lev_add, Hlev, <-!lev_full. by rewrite full_pairs_snoc. }
    rewrite E in *. by apply (Hok (l + S k)%nat).
  - f_equal. symmetry. apply (merkle_spec_iter (n + l)); [done|].
    by rewrite Nat.iter_add, E1, Hlev.
Qed.
End counter.

(** ** Identifiers *)

Section identifiers.
Context {M : Midstates} {H : Hashes} {P : Platform} {S : Secp}.

Lemma fast_merkle_root_2 x y : fast_merkle_root [x; y] = Some (sha256midstate x y).
Proof. reflexivity. Qed.

Lemma fast_merkle_root_3 x y z :
  fast_merkle_root [x; y; z] = Some (sha256midstate (sha256midstate x y) z).
Proof. reflexivity. Qed.

Definition token_tag (confidential : bool) : bytes := if confidential then TWO32 else ONE32.

(** The 64-byte blocks hashed for the ids of an input. *)
Definition entropy_blocks (i : TxIn) : list bytes :=
  if bool_decide (asset_blinding_nonce (asset_issuance i) = ZERO_TWEAK)
  then [sha256d (encode_OutPoint (previous_output i)) ++ asset_entropy (asset_issuance i)]
  else [].

Definition entropy_of (i : TxIn) : bytes :=
  if bool_decide (asset_blinding_nonce (asset_issuance i) = ZERO_TWEAK)
  then sha256midstate (sha256d (encode_OutPoint (previous_output i))) (asset_entropy (asset_issuance i))
  else asset_entropy (asset_issuance i).

Definition is_conf (i : TxIn) : bool := Value_is_confidential (amount (asset_issuance i)).

Definition issuance_blocks (i : TxIn) : list bytes :=
  entropy_blocks i ++ [entropy_of i ++ ZERO32; entropy_of i ++ token_tag (is_conf i)].

Definition collide (f : bytes -> bytes) (xs ys : list bytes) : Prop :=
  exists x y, x ∈ xs /\ y ∈ ys /\ x <> y /\ f x = f y.

#[export] Instance collide_dec f xs ys : Decision (collide f xs ys).
Proof.
  refine (cast_if (decide (Exists (fun x => Exists (fun y => x <> y /\ f x = f y) ys) xs))).
  - abstract (match goal with H : Exists _ _ |- _ => rewrite Exists_exists in H;
      destruct H as (x & Hx & (y & Hy & Hne & E)%Exists_exists) end; by exists x, y).
  - abstract (intros (x & y & Hx & Hy & Hne & E);
      match goal with H : ~ Exists _ _ |- _ => apply H end;
      rewrite Exists_exists; exists x; split; [done|]; rewrite Exists_exists; by exists y).
Defined.

Lemma not_collide f xs ys x y : ~ collide f xs ys -> x ∈ xs -> y ∈ ys -> f x = f y -> x = y.
Proof. intros Hn Hx Hy E. destruct (decide (x = y)); [done|]. destruct Hn. by exists x, y. Qed.

Definition issuing (i : TxIn) : Prop :=
  OutPoint_wf (previous_output i) /\ hash_wf (asset_entropy (asset_issuance i)).

Lemma entropy_length i : issuing i -> length (entropy_of i) = 32%nat.
Proof.
  intros [_ Hc]. unfold entropy_of. case_bool_decide; [apply sha256_midstate_length|done].
Qed.

Lemma issuance_ids_eq i : issuance_ids i =
  Some (sha256midstate (entropy_of i) ZERO32, sha256midstate (entropy_of i) (token_tag (is_conf i))).
Proof.
  unfold issuance_ids, issuance_entropy, entropy_of, generate_asset_entropy, from_entropy,
    reissuance_token_from_entropy.
  case_bool_decide; rewrite ?fast_merkle_root_2; cbn [mbind option_bind];
    by rewrite !fast_merkle_root_2.
Qed.

Lemma tags_differ : ZERO32 <> ONE32 /\ ZERO32 <> TWO32 /\ ONE32 <> TWO32.
Proof. split_and!; discriminate. Qed.

Lemma token_tag_inj b c : token_tag b = token_tag c -> b = c.
Proof. destruct b, c; try done; intros E; by destruct (proj2 (proj2 tags_differ)). Qed.

Lemma token_tag_nonzero b : token_tag b <> ZERO32.
Proof. destruct b; discriminate. Qed.

Lemma issuance_entropy_eq i : issuance_entropy i = Some (entropy_of i).
Proof.
  unfold issuance_entropy, entropy_of, generate_asset_entropy.
  case_bool_decide; [apply fast_merkle_root_2|done].
Qed.

(** The ids separate entropies and tags unless two blocks collide. *)
Lemma ids_inj i j x y :
  issuing i -> issuing j -> ~ collide sha256_midstate (issuance_blocks i) (issuance_blocks j) ->
  x ∈ [ZERO32; token_tag (is_conf i)] -> y ∈ [ZERO32; token_tag (is_conf j)] ->
  sha256midstate (entropy_of i) x = sha256midstate (entropy_of j) y ->
  entropy_of i = entropy_of j /\ x = y.
Proof.
  intros Hi Hj Hn Hx Hy E. apply app_inj_1; [by rewrite !entropy_length|].
  apply (not_collide _ _ _ _ _ Hn); [| |done]; unfold issuance_blocks; set_solver.
Qed.

Lemma sha256d_inj x y : ~ collide sha256 [x; sha256 x] [y; sha256 y] -> sha256d x = sha256d y -> x = y.
Proof.
  intros Hn E. apply (not_collide _ _ _ _ _ Hn); [set_solver..|].
  apply (not_collide _ _ _ _ _ Hn); [set_solver..|done].
Qed.

Lemma OutPoint_encode_inj o o' : OutPoint_wf o -> OutPoint_wf o' ->
  encode_OutPoint o = encode_OutPoint o' -> o = o'.
Proof.
  intros Hw Hw' E. apply (f_equal (.++ [])) in E. by apply (codec_inj OutPoint_codec) in E as [? _].
Qed.

(** An entropy generated by two issuances comes from the same contract and outpoint. *)
Lemma entropy_inj i j :
  issuing i -> issuing j -> ~ collide sha256_midstate (issuance_blocks i) (issuance_blocks j) ->
  (let p := encode_OutPoint (previous_output i) in
   let q := encode_OutPoint (previous_output j) in
   ~ collide sha256 [p; sha256 p] [q; sha256 q]) ->
  asset_blinding_nonce (asset_issuance i) = ZERO_TWEAK ->
  asset_blinding_nonce (asset_issuance j) = ZERO_TWEAK ->
  entropy_of i = entropy_of j ->
  previous_output i = previous_output j /\
  asset_entropy (asset_issuance i) = asset_entropy (asset_issuance j).
Proof.
  intros [Hi Hci] [Hj Hcj] Hn Hs Ni Nj E. unfold entropy_of in E.
  rewrite !bool_decide_eq_true_2 in E by done.
  apply (not_collide _ _ _ _ _ Hn) in E;
    [|by unfold issuance_blocks, entropy_blocks; rewrite bool_decide_eq_true_2 by done; set_solver..].
  apply app_inj_1 in E as [E ->]; [|by unfold sha256d; rewrite !sha256_length].
  apply sha256d_inj, OutPoint_encode_inj in E; done.
Qed.
End identifiers.

(** ** Properties *)

(** C29: the binary counter of [fast_merkle_root] computes the merkle root: for one leaf or
    more, up to 2^31, it returns (no index, shift or addition overflows) and the result is
    the single node that is left when neighbours are hashed together level by level, where
    a last node without a neighbour moves up unchanged.  With no leaves it is the zero
    hash. *)
Theorem fast_merkle_root_correct `{Midstates} leaves :
  zlen leaves <= 2 ^ 31 ->
  fast_merkle_root leaves =
  Some (match leaves with [] => zero_hash | _ => merkle_spec leaves end).
Proof. destruct leaves as [|x l]; [done|]. intros. by apply fast_merkle_root_ok. Qed.

(** The ids of issued assets identify the issuance.  For two inputs whose hashed blocks
    do not collide, the asset ids are equal exactly when the entropies are, the token ids
    exactly when the entropies and the confidentiality of the issued amounts are, an asset
    id is never a token id, and two new issuances with the same asset spend the same
    outpoint under the same contract hash. *)
Theorem issuance_ids_bind `{Midstates} `{Hashes} `{Platform} `{Secp} (i j : TxIn) e e' a t a' t' :
  issuing i -> issuing j ->
  ~ collide sha256_midstate (issuance_blocks i) (issuance_blocks j) ->
  issuance_entropy i = Some e -> issuance_entropy j = Some e' ->
  issuance_ids i = Some (a, t) -> issuance_ids j = Some (a', t') ->
  (a = a' <-> e = e') /\
  (t = t' <-> e = e' /\ is_conf i = is_conf j) /\
  a <> t' /\
  (a = a' -> asset_blinding_nonce (asset_issuance i) = ZERO_TWEAK ->
   asset_blinding_nonce (asset_issuance j) = ZERO_TWEAK ->
   let p := encode_OutPoint (previous_output i) in
   let q := encode_OutPoint (previous_output j) in
   ~ collide sha256 [p; sha256 p] [q; sha256 q] ->
   previous_output i = previous_output j /\
   asset_entropy (asset_issuance i) = asset_entropy (asset_issuance j)).
Proof.
  intros Hi Hj Hn. rewrite !issuance_entropy_eq, !issuance_ids_eq. intros [= <-] [= <-] [= <- <-] [= <- <-].
  pose proof (ids_inj i j) as Hinj. split_and!.
  - split; [intros E|by intros ->]. eapply Hinj in E as [? _]; [done..|set_solver|set_solver].
  - split; [intros E|by intros [-> ->]].
    eapply Hinj in E as [? E%token_tag_inj]; [done..|set_solver|set_solver].
  - intros E. eapply Hinj in E as [_ E]; [|done..|set_solver|set_solver].
    by destruct (token_tag_nonzero (is_conf j)).
  - intros E Ni Nj p q Hs. eapply Hinj in E as [E _]; [|done..|set_solver|set_solver].
    by apply (entropy_inj i j).
Qed.

(** Replacing full dynafed parameters by their compact form changes no root.  The
    compact form exists, keeps the block-signing script and its limit, and its root (like
    that of the full parameters computed by either type) is the tree over the five
    serialized fields; a dynafed header keeps its parameter root when both of its
    parameters are compacted. *)
Theorem compact_params_keep_root `{Midstates} `{Hashes} (f : FullParams) :
  exists r, full_into_compact f =
      Some (ParamsCompact (signblockscript f) (signblock_witness_limit f) r) /\
    Params_extra_root (ParamsFull f) = Some r /\
    full_calculate_root f =
      Some (sha256midstate
              (sha256midstate (sha256d (encode_vec_u8 (signblockscript f)))
                              (sha256d (emit_u32 (signblock_witness_limit f)))) r) /\
    Params_calculate_root (ParamsFull f) = full_calculate_root f /\
    Params_calculate_root (ParamsCompact (signblockscript f) (signblock_witness_limit f) r) =
      full_calculate_root f /\
    (forall h q w q', ext h = Dynafed (ParamsFull f) q w -> Params_into_compact q = Some (Some q') ->
       calculate_dynafed_params_root h =
       calculate_dynafed_params_root
         (mkHeader (hdr_version h) (prev_blockhash h) (merkle_root h) (hdr_time h) (hdr_height h)
            (Dynafed (ParamsCompact (signblockscript f) (signblock_witness_limit f) r) q' w)
            (bitcoin_anchor h))).
Proof.
  unfold full_into_compact, full_calculate_root, full_extra_root. rewrite fast_merkle_root_3.
  eexists. split_and!; try done.
  intros h q w q' E Hq. unfold calculate_dynafed_params_root. rewrite E. cbn [ext].
  unfold Params_into_compact in Hq. destruct q as [|s l r|g]; [done|injection Hq as <-; done|].
  unfold full_into_compact, full_extra_root in Hq. rewrite fast_merkle_root_3 in Hq.
  injection Hq as <-. reflexivity.
Qed.

(** ** A concrete instance *)

Module MerkleSample.
Export SighashSample.

(** A stand-in for the midstate, enough to evaluate the definitions: the two halves of
    the block, added byte by byte with weights 1 and 3. *)
Definition toy (l : bytes) : bytes :=
  take 32 (zip_with (fun a b => z2b (b2z a + 3 * b2z b)) (take 32 l) (drop 32 l) ++
           replicate 32 Byte.x00).

Lemma toy_length l : length (toy l) = 32%nat.
Proof. unfold toy. rewrite length_take, length_app, length_replicate. lia. Qed.

#[export] Instance Midstates_model : Midstates :=
  {| sha256_midstate := toy; sha256_midstate_length := toy_length |}.

Definition leaf (n : Z) : bytes := le_bytes 32 n.
Definition leaves : list bytes := map leaf [5; 300; 7; 70000; 11].

(** Two new issuances, of a public and of a committed amount, on different outpoints. *)
Definition issue (vout : Z) (nonce : Tweak) (contract : Z) (v : Value) : TxIn :=
  mkTxIn (mkOutPoint (leaf 99) vout) false [] Sequence_MAX
    (mkIssuance nonce (leaf contract) v (ValueExplicit 1) 8) TxInWitness_empty.

Definition issue1 : TxIn := issue 0 ZERO_TWEAK 1000 (ValueExplicit 50).
Definition issue2 : TxIn := issue 1 ZERO_TWEAK 2000 (ValueExplicit 60).

Definition ids (i : TxIn) : bytes * bytes := default ([], []) (issuance_ids i).

End MerkleSample.
Import MerkleSample.

Lemma fast_merkle_root_correct_witness :
  fast_merkle_root leaves = Some (merkle_spec leaves) /\ length leaves = 5%nat /\
  merkle_spec leaves =
    sha256midstate (sha256midstate (sha256midstate (leaf 5) (leaf 300))
                                   (sha256midstate (leaf 7) (leaf 70000))) (leaf 11).
Proof. split; [apply (fast_merkle_root_correct leaves); by vm_compute|by vm_compute]. Defined.

Lemma issuance_ids_bind_witness :
  issuing issue1 /\ issuing issue2 /\ (ids issue1).1 <> (ids issue2).1 /\
  (ids issue1).1 <> (ids issue2).2.
Proof.
  assert (H1 : issuing issue1) by (split; [split|]; vm_compute; intuition congruence).
  assert (H2 : issuing issue2) by (split; [split|]; vm_compute; intuition congruence).
  split; [exact H1|]. split; [exact H2|].
  destruct (issuance_ids_bind issue1 issue2 (entropy_of issue1) (entropy_of issue2)
              (ids issue1).1 (ids issue1).2 (ids issue2).1 (ids issue2).2 H1 H2) as (Ha & _ & Hat & _).
  - apply (proj1 (bool_decide_eq_false _)). by vm_compute.
  - apply issuance_entropy_eq.
  - apply issuance_entropy_eq.
  - unfold ids. by rewrite issuance_ids_eq.
  - unfold ids. by rewrite issuance_ids_eq.
  - split; [|exact Hat]. rewrite Ha. apply (proj1 (bool_decide_eq_false _)). by vm_compute.
Defined.
