(* ===== verification/Taproot.v ===== *)
(** * Taproot trees and control blocks

    [rust-elements/src/taproot.rs] and the key tweak of [schnorr.rs]: leaf and branch
    hashes, the builder that takes the nodes of a script tree in depth-first order, the
    Huffman construction, spending information, control blocks with their encoding and
    their verification.

    The theorems: the builder completes exactly on the depth-first listings of binary
    trees of depth at most 128, and computes the tree's root; every control block the
    spending information hands out proves its script; control blocks decode exactly from
    their encodings.  Curve points and their tweaking are parameters. *)

From S2P Require Import Prelude Order Encode Script Sighash.

(** x-only keys: 32 bytes, parsed strictly.  [add_tweak] fails only where the sum is the
    point at infinity; [tweak_add_check] accepts exactly its result, as the library
    documents. *)
Class TapEnv :=
  { XOnlyPublicKey : ext_type;
    xonly_length (k : XOnlyPublicKey) : length (ext_ser k) = 32%nat;
    xonly_strict bs (k : XOnlyPublicKey) : ext_parse bs = Some k -> ext_ser k = bs;
    add_tweak : XOnlyPublicKey -> bytes -> option (XOnlyPublicKey * bool);
    tweak_add_check : XOnlyPublicKey -> XOnlyPublicKey -> bool -> bytes -> bool;
    tweak_check_iff k t q parity :
      tweak_add_check k q parity t = true <-> add_tweak k t = Some (q, parity) }.

Definition TAPROOT_CONTROL_MAX_NODE_COUNT : nat := 128.
Definition TAPROOT_CONTROL_NODE_SIZE : nat := 32.
Definition TAPROOT_LEAF_MASK : Z := 0xfe.
Definition TAPROOT_LEAF_TAPSCRIPT : Z := 0xc4.
Definition TAPROOT_CONTROL_BASE_SIZE : nat := 33.

Inductive TaprootBuilderError : Type :=
| InvalidMerkleTreeDepth (d : nat)
| NodeNotInDfsOrder
| OverCompleteTree
| IncompleteTree
| EmptyTree.

Inductive TaprootError : Type :=
| InvalidMerkleBranchSize (n : nat)
| InvalidTreeDepth (d : nat)
| InvalidTaprootLeafVersion (v : Z)
| InvalidControlBlockSize (n : nat)
| InvalidInternalKey.

(** [LeafVersion]. *)
Definition LeafVersion_from_u8 (ver : Z) : result Z TaprootError :=
  if (Z.land ver TAPROOT_LEAF_MASK =? ver) && negb (ver =? 0x50) then Ok ver
  else Err (InvalidTaprootLeafVersion ver).

(** [LeafInfo] and [NodeInfo]; a [TaprootMerkleBranch] is the list of its hashes, from
    the leaf up. *)
Record LeafInfo := mkLeaf { leaf_script : Script; leaf_ver : Z; merkle_branch : list bytes }.
Record NodeInfo := mkNode { node_hash : bytes; leaves : list LeafInfo }.

#[export] Instance LeafInfo_eq_dec : EqDecision LeafInfo.
Proof. solve_decision. Defined.
#[export] Instance NodeInfo_eq_dec : EqDecision NodeInfo.
Proof. solve_decision. Defined.

Section code.
Context {P : Platform} {H : Hashes}.

Definition TapLeafHash_from_script (script : Script) (ver : Z) : bytes :=
  tagged_hash (str "TapLeaf/elements") (emit_u8 ver ++ encode_vec_u8 script).

(** The two hashes are written in increasing order. *)
Definition TapNodeHash_of (a b : bytes) : bytes :=
  tagged_hash (str "TapBranch/elements")
    (match bytes_cmp a b with Lt => a ++ b | _ => b ++ a end).

Definition push_hash (branch : list bytes) (h : bytes) : result (list bytes) TaprootBuilderError :=
  if (TAPROOT_CONTROL_MAX_NODE_COUNT <=? length branch)%nat
  then Err (InvalidMerkleTreeDepth (length branch)) else Ok (branch ++ [h]).

Definition new_hidden (hash : bytes) : NodeInfo := mkNode hash [].

Definition new_leaf_with_ver (script : Script) (ver : Z) : NodeInfo :=
  mkNode (TapLeafHash_from_script script ver) [mkLeaf script ver []].

Definition with_partner (h : bytes) (l : LeafInfo) : result LeafInfo TaprootBuilderError :=
  let? b := push_hash (merkle_branch l) h in Ok (mkLeaf (leaf_script l) (leaf_ver l) b).

(** [NodeInfo::combine]. *)
Definition combine_nodes (a b : NodeInfo) : result NodeInfo TaprootBuilderError :=
  let? la := rmapM (with_partner (node_hash b)) (leaves a) in
  let? lb := rmapM (with_partner (node_hash a)) (leaves b) in
  Ok (mkNode (TapNodeHash_of (node_hash a) (node_hash b)) (la ++ lb)).

(** ** The builder: [branch], one optional node per level *)

Abbreviation TaprootBuilder := (list (option NodeInfo)).

Definition is_complete (b : TaprootBuilder) : bool :=
  match b with [Some _] => true | _ => false end.

(** The loop of [insert]: while a sibling waits at the node's depth, combine with it and
    move one level up. *)
Fixpoint settle (branch : TaprootBuilder) (node : NodeInfo) (depth : nat)
  : result (TaprootBuilder * NodeInfo * nat) TaprootBuilderError :=
  if (length branch =? depth + 1)%nat then
    match last branch with
    | Some (Some child) =>
        match depth with
        | O => Err OverCompleteTree
        | S depth =>
            let? node := combine_nodes node child in
            settle (removelast branch) node depth
        end
    | _ => Ok (branch, node, depth)
    end
  else Ok (branch, node, depth).

Definition insert_node (branch : TaprootBuilder) (node : NodeInfo) (depth : nat)
  : result TaprootBuilder TaprootBuilderError :=
  if (TAPROOT_CONTROL_MAX_NODE_COUNT <? depth)%nat then Err (InvalidMerkleTreeDepth depth)
  else if (depth + 1 <? length branch)%nat then Err NodeNotInDfsOrder
  else
    let? (branch, node, depth) := settle branch node depth in
    Ok (<[depth := Some node]> (branch ++ replicate (depth + 1 - length branch) None)).

Definition add_leaf_with_ver (b : TaprootBuilder) (depth : nat) (script : Script) (ver : Z) :=
  insert_node b (new_leaf_with_ver script ver) depth.
Definition add_leaf (b : TaprootBuilder) (depth : nat) (script : Script) :=
  add_leaf_with_ver b depth script TAPROOT_LEAF_TAPSCRIPT.
Definition add_hidden (b : TaprootBuilder) (depth : nat) (hash : bytes) :=
  insert_node b (new_hidden hash) depth.

(** ** Keys and spending information *)

Context {T : TapEnv}.

Definition from_key_and_tweak (internal_key : XOnlyPublicKey) (merkle_root : option bytes) : bytes :=
  tagged_hash (str "TapTweak/elements") (ext_ser internal_key ++ default [] merkle_root).

(** [Scalar::from_be_bytes]: a hash that is not below the curve order panics. *)
Definition CURVE_ORDER : Z := 0xfffffffffffffffffffffffffffffffebaaedce6af48a03bbfd25e8cd0364141.
Definition to_scalar (h : bytes) : option bytes :=
  if le_val (rev h) <? CURVE_ORDER then Some h else None.

Definition tap_tweak (internal_key : XOnlyPublicKey) (merkle_root : option bytes)
  : option (XOnlyPublicKey * bool) :=
  tweak ← to_scalar (from_key_and_tweak internal_key merkle_root);
  add_tweak internal_key tweak.

Record TaprootSpendInfo := mkSpendInfo
  { internal_key : XOnlyPublicKey;
    spend_merkle_root : option bytes;
    output_key_parity : bool;
    output_key : XOnlyPublicKey;
    script_map : gmap (Script * Z) (gset (list bytes)) }.

Definition new_key_spend (internal_key : XOnlyPublicKey) (merkle_root : option bytes)
  : option TaprootSpendInfo :=
  '(output_key, parity) ← tap_tweak internal_key merkle_root;
  Some (mkSpendInfo internal_key merkle_root parity output_key ∅).

Definition add_branch (m : gmap (Script * Z) (gset (list bytes))) (l : LeafInfo)
  : gmap (Script * Z) (gset (list bytes)) :=
  <[(leaf_script l, leaf_ver l) :=
      {[merkle_branch l]} ∪ default ∅ (m !! (leaf_script l, leaf_ver l))]> m.

Definition from_node_info (key : XOnlyPublicKey) (node : NodeInfo)
  : option TaprootSpendInfo :=
  info ← new_key_spend key (Some (node_hash node));
  Some (mkSpendInfo (internal_key info) (spend_merkle_root info) (output_key_parity info)
          (output_key info) (foldl add_branch (script_map info) (leaves node))).

(** [TaprootBuilder::finalize]; [None]: the panics of [expect] on a missing last node, on a
    tweak that is not a scalar and on the point at infinity. *)
Definition finalize_builder (b : TaprootBuilder) (internal_key : XOnlyPublicKey)
  : option (result TaprootSpendInfo TaprootBuilderError) :=
  if (1 <? length b)%nat then Some (Err IncompleteTree)
  else
    match last b with
    | None => Some (Err EmptyTree)
    | Some None => None
    | Some (Some node) => info ← from_node_info internal_key node; Some (Ok info)
    end.

(** ** Huffman trees *)

(** The derived orders of [LeafInfo] and [NodeInfo], and that of the heap's entries: the
    smallest weight is the greatest entry. *)
Definition LeafInfo_cmp : LeafInfo -> LeafInfo -> comparison :=
  then_with (cmp_by leaf_script bytes_cmp)
    (then_with (cmp_by leaf_ver Z.compare) (cmp_by merkle_branch (list_cmp bytes_cmp))).
Definition NodeInfo_cmp : NodeInfo -> NodeInfo -> comparison :=
  then_with (cmp_by node_hash bytes_cmp) (cmp_by leaves (list_cmp LeafInfo_cmp)).
Definition entry_cmp : Z * NodeInfo -> Z * NodeInfo -> comparison :=
  then_with (cmp_rev (cmp_by fst Z.compare)) (cmp_by snd NodeInfo_cmp).

(** [BinaryHeap::pop]: a greatest entry and the others. *)
Fixpoint pop_max {A} (cmp : A -> A -> comparison) (l : list A) : option (A * list A) :=
  match l with
  | [] => None
  | x :: l =>
      match pop_max cmp l with
      | None => Some (x, [])
      | Some (y, rest) =>
          match cmp x y with
          | Lt => Some (y, x :: rest)
          | _ => Some (x, y :: rest)
          end
      end
  end.

(** One round per entry: each combines the two lightest nodes. *)
Fixpoint huffman (fuel : nat) (heap : list (Z * NodeInfo))
  : option (result NodeInfo TaprootBuilderError) :=
  match fuel with
  | O => None
  | S fuel =>
      match pop_max entry_cmp heap with
      | None => Some (Err IncompleteTree)
      | Some ((_, s1), []) => Some (Ok s1)
      | Some ((p1, s1), rest) =>
          match pop_max entry_cmp rest with
          | None => None
          | Some ((p2, s2), rest) =>
              match combine_nodes s1 s2 with
              | Err e => Some (Err e)
              | Ok node => huffman fuel ((saturating_add u64_max p1 p2, node) :: rest)
              end
          end
      end
  end.

Definition with_huffman_tree (internal_key : XOnlyPublicKey) (script_weights : list (Z * Script))
  : option (result TaprootSpendInfo TaprootBuilderError) :=
  let heap :=
    map (fun '(p, leaf) => (p, new_leaf_with_ver leaf TAPROOT_LEAF_TAPSCRIPT)) script_weights in
  r ← huffman (S (length heap)) heap;
  match r with
  | Err e => Some (Err e)
  | Ok node => info ← from_node_info internal_key node; Some (Ok info)
  end.

(** ** Control blocks *)

Record ControlBlock := mkControlBlock
  { cb_leaf_version : Z;
    cb_parity : bool;
    cb_internal_key : XOnlyPublicKey;
    cb_branch : list bytes }.

(** The shortest branch; among several, the first in the order of the set. *)
Definition branch_cmp : list bytes -> list bytes -> comparison :=
  cmp_rev (then_with (cmp_by length Nat.compare) (list_cmp bytes_cmp)).

(** [TaprootSpendInfo::control_block]; the outer [None] is the panic of [expect]. *)
Definition control_block (info : TaprootSpendInfo) (script_ver : Script * Z)
  : option (option ControlBlock) :=
  match script_map info !! script_ver with
  | None => Some None
  | Some branches =>
      '(smallest, _) ← pop_max branch_cmp (elements branches);
      Some (Some (mkControlBlock script_ver.2 (output_key_parity info) (internal_key info) smallest))
  end.

(** [sl.chunks(32)]. *)
Fixpoint chunks32 (fuel : nat) (sl : bytes) : list bytes :=
  match fuel, sl with
  | S fuel, _ :: _ => take 32 sl :: chunks32 fuel (drop 32 sl)
  | _, _ => []
  end.

Definition TaprootMerkleBranch_from_slice (sl : bytes) : result (list bytes) TaprootError :=
  if negb (length sl mod TAPROOT_CONTROL_NODE_SIZE =? 0)%nat
  then Err (InvalidMerkleBranchSize (length sl))
  else if (TAPROOT_CONTROL_NODE_SIZE * TAPROOT_CONTROL_MAX_NODE_COUNT <? length sl)%nat
  then Err (InvalidTreeDepth (length sl / TAPROOT_CONTROL_NODE_SIZE))
  else Ok (chunks32 (length sl) sl).

Definition ControlBlock_from_slice (sl : bytes) : result ControlBlock TaprootError :=
  match sl with
  | first :: rest =>
      if (length sl <? TAPROOT_CONTROL_BASE_SIZE)%nat ||
         negb ((length sl - TAPROOT_CONTROL_BASE_SIZE) mod TAPROOT_CONTROL_NODE_SIZE =? 0)%nat
      then Err (InvalidControlBlockSize (length sl))
      else
        let parity := Z.land (b2z first) 1 =? 1 in
        let? leaf_version := LeafVersion_from_u8 (Z.land (b2z first) TAPROOT_LEAF_MASK) in
        let? key := ok_or (ext_parse (take 32 rest)) InvalidInternalKey in
        let? branch := TaprootMerkleBranch_from_slice (drop 32 rest) in
        Ok (mkControlBlock leaf_version parity key branch)
  | [] => Err (InvalidControlBlockSize 0)
  end.

Definition ControlBlock_size (cb : ControlBlock) : nat :=
  TAPROOT_CONTROL_BASE_SIZE + TAPROOT_CONTROL_NODE_SIZE * length (cb_branch cb).

Definition ControlBlock_serialize (cb : ControlBlock) : bytes :=
  z2b (Z.lor (if cb_parity cb then 1 else 0) (cb_leaf_version cb)) ::
  ext_ser (cb_internal_key cb) ++ concat (cb_branch cb).

Definition verify_taproot_commitment (cb : ControlBlock) (output_key : XOnlyPublicKey)
    (script : Script) : option bool :=
  let curr := foldl TapNodeHash_of (TapLeafHash_from_script script (cb_leaf_version cb)) (cb_branch cb) in
  tweak ← to_scalar (from_key_and_tweak (cb_internal_key cb) (Some curr));
  Some (tweak_add_check (cb_internal_key cb) output_key (cb_parity cb) tweak).

End code.

(** ** Trees *)

Section trees.
Context {P : Platform} {H : Hashes}.

(** What can be added to a builder: a script with its version, or the hash of a part of
    the tree that is not disclosed. *)
Inductive tap_item : Type :=
| ItemLeaf (script : Script) (ver : Z)
| ItemHidden (hash : bytes).

Inductive tap_tree : Type :=
| Tip (i : tap_item)
| Fork (l r : tap_tree).

Definition item_node (i : tap_item) : NodeInfo :=
  match i with
  | ItemLeaf s v => new_leaf_with_ver s v
  | ItemHidden h => new_hidden h
  end.

Fixpoint height (t : tap_tree) : nat :=
  match t with
  | Tip _ => 0
  | Fork l r => S (Nat.max (height l) (height r))
  end.

Fixpoint items (t : tap_tree) : list tap_item :=
  match t with
  | Tip i => [i]
  | Fork l r => items l ++ items r
  end.

(** The root hash, and the depth-first listing with depths. *)
Fixpoint tree_hash (t : tap_tree) : bytes :=
  match t with
  | Tip i => node_hash (item_node i)
  | Fork l r => TapNodeHash_of (tree_hash l) (tree_hash r)
  end.

Fixpoint dfs (t : tap_tree) (d : nat) : list (nat * tap_item) :=
  match t with
  | Tip i => [(d, i)]
  | Fork l r => dfs l (S d) ++ dfs r (S d)
  end.

Fixpoint tree_node (t : tap_tree) : result NodeInfo TaprootBuilderError :=
  match t with
  | Tip i => Ok (item_node i)
  | Fork l r =>
      let? nl := tree_node l in
      let? nr := tree_node r in
      combine_nodes nr nl
  end.

Fixpoint inserts (b : list (option NodeInfo)) (l : list (nat * tap_item))
  : result (list (option NodeInfo)) TaprootBuilderError :=
  match l with
  | [] => Ok b
  | (d, i) :: l => let? b := insert_node b (item_node i) d in inserts b l
  end.

Lemma inserts_app b l l' : inserts b (l ++ l') = (let? b := inserts b l in inserts b l').
Proof.
  revert b. induction l as [|[d i] l IH]; intros b; simpl; [done|].
  destruct (insert_node b (item_node i) d); simpl; [apply IH|done].
Qed.

Lemma TapNodeHash_comm a b : TapNodeHash_of a b = TapNodeHash_of b a.
Proof.
  unfold TapNodeHash_of. rewrite (cmp_anti bytes_cmp_ok a b).
  destruct (bytes_cmp a b) eqn:E; simpl; [|done|done]. apply bytes_cmp_eq in E as ->. done.
Qed.

(** *** Nodes *)

(** Every leaf carries the path that leads from its hash to the node's. *)
Definition leaf_ok (h : bytes) (l : LeafInfo) : Prop :=
  foldl TapNodeHash_of (TapLeafHash_from_script (leaf_script l) (leaf_ver l)) (merkle_branch l) = h /\
  (length (merkle_branch l) <= 128)%nat.
Definition node_ok (n : NodeInfo) : Prop := Forall (leaf_ok (node_hash n)) (leaves n).

Lemma with_partner_ok h l l' :
  with_partner h l = Ok l' <->
  (length (merkle_branch l) < 128)%nat /\ l' = mkLeaf (leaf_script l) (leaf_ver l) (merkle_branch l ++ [h]).
Proof.
  unfold with_partner, push_hash. destruct (Nat.leb_spec TAPROOT_CONTROL_MAX_NODE_COUNT (length (merkle_branch l))) as [E|E];
    unfold TAPROOT_CONTROL_MAX_NODE_COUNT in E; simpl; naive_solver lia.
Qed.

Lemma with_partners_ok h ls ls' :
  rmapM (with_partner h) ls = Ok ls' <->
  Forall (fun l => (length (merkle_branch l) < 128)%nat) ls /\
  ls' = map (fun l => mkLeaf (leaf_script l) (leaf_ver l) (merkle_branch l ++ [h])) ls.
Proof.
  revert ls'. induction ls as [|l ls IH]; intros ls'; simpl.
  - split; [intros [= <-]; by split|by intros [_ ->]].
  - rewrite Forall_cons. split.
    + intros (? & [Hl ->]%with_partner_ok & (? & [Hls ->]%IH & [= <-])%rbind_ok)%rbind_ok. done.
    + intros [[Hl Hls] ->]. rewrite (proj2 (with_partner_ok h l _) (conj Hl eq_refl)). simpl.
      by rewrite (proj2 (IH _) (conj Hls eq_refl)).
Qed.

Definition partnered (h : bytes) (l : LeafInfo) : LeafInfo :=
  mkLeaf (leaf_script l) (leaf_ver l) (merkle_branch l ++ [h]).

Lemma combine_ok a b n :
  combine_nodes a b = Ok n <->
  Forall (fun l => (length (merkle_branch l) < 128)%nat) (leaves a ++ leaves b) /\
  n = mkNode (TapNodeHash_of (node_hash a) (node_hash b))
        (map (partnered (node_hash b)) (leaves a) ++ map (partnered (node_hash a)) (leaves b)).
Proof.
  unfold combine_nodes. rewrite Forall_app. split.
  - intros (? & [Ha ->]%with_partners_ok & (? & [Hb ->]%with_partners_ok & [= <-])%rbind_ok)%rbind_ok.
    done.
  - intros [[Ha Hb] ->].
    rewrite (proj2 (with_partners_ok (node_hash b) (leaves a) _) (conj Ha eq_refl)). simpl.
    by rewrite (proj2 (with_partners_ok (node_hash a) (leaves b) _) (conj Hb eq_refl)).
Qed.

Lemma combine_node_ok a b n : node_ok a -> node_ok b -> combine_nodes a b = Ok n -> node_ok n.
Proof.
  intros Ha Hb [Hlen ->]%combine_ok. apply Forall_app in Hlen as [La Lb].
  unfold node_ok in *. simpl. rewrite Forall_app, !Forall_map.
  split; rewrite Forall_forall in *; intros l Hl; split; simpl.
  - rewrite foldl_app. simpl. by rewrite (proj1 (Ha l Hl)).
  - rewrite length_app. simpl. specialize (La l Hl). simpl in La. lia.
  - rewrite foldl_app. simpl. rewrite (proj1 (Hb l Hl)). apply TapNodeHash_comm.
  - rewrite length_app. simpl. specialize (Lb l Hl). simpl in Lb. lia.
Qed.

Lemma item_node_ok i : node_ok (item_node i).
Proof. destruct i; [|constructor]. constructor; [|constructor]. split; [done|simpl; lia]. Qed.

(** The node of a tree exists within the depth limit and has the tree's hash and leaves. *)
Definition item_leaf (i : tap_item) : option (Script * Z) :=
  match i with ItemLeaf s v => Some (s, v) | ItemHidden _ => None end.

Definition leaf_key (l : LeafInfo) : Script * Z := (leaf_script l, leaf_ver l).

Lemma tree_node_spec t n : tree_node t = Ok n ->
  node_hash n = tree_hash t /\ node_ok n /\
  Forall (fun l => (length (merkle_branch l) <= height t)%nat) (leaves n) /\
  map leaf_key (leaves n) ≡ₚ omap item_leaf (items t).
Proof.
  revert n. induction t as [i|l IHl r IHr]; intros n; simpl.
  - intros [= <-]. split_and!; [done|apply item_node_ok| |]; destruct i; simpl; auto.
  - intros (nl & El & (nr & Er & E)%rbind_ok)%rbind_ok.
    destruct (IHl nl El) as (Hl & Okl & Ll & Kl), (IHr nr Er) as (Hr & Okr & Lr & Kr).
    pose proof (combine_node_ok _ _ _ Okr Okl E) as Hok. apply combine_ok in E as [_ ->].
    simpl. split_and!; [by rewrite Hl, Hr, TapNodeHash_comm|done| |].
    + rewrite Forall_app, !Forall_map. split; (eapply Forall_impl; [eassumption|]);
        intros x Hx; simpl in *; rewrite length_app; simpl; lia.
    + rewrite map_app, !map_map, omap_app, <-Kl, <-Kr. apply Permutation_app_comm.
Qed.

Lemma tree_node_total t : (height t <= 128)%nat -> exists n, tree_node t = Ok n.
Proof.
  induction t as [i|l IHl r IHr]; simpl; [eauto|]. intros Ht.
  destruct IHl as [nl El]; [lia|]. destruct IHr as [nr Er]; [lia|]. rewrite El, Er. simpl.
  eexists. apply combine_ok. split; [|done].
  destruct (tree_node_spec l nl El) as (_ & _ & Ll & _), (tree_node_spec r nr Er) as (_ & _ & Lr & _).
  rewrite Forall_app. split; (eapply Forall_impl; [eassumption|]); simpl; intros; lia.
Qed.

(** *** A listing of a tree acts like its node *)

Definition place (b : list (option NodeInfo)) (n : NodeInfo) (d : nat) : list (option NodeInfo) :=
  <[d := Some n]> (b ++ replicate (d + 1 - length b) None).

Lemma place_short b n d : (length b <= d)%nat ->
  place b n d = b ++ replicate (d - length b) None ++ [Some n].
Proof.
  intros Hl. unfold place. rewrite insert_app_r_alt by done. f_equal.
  replace (d + 1 - length b)%nat with (S (d - length b)) by lia.
  rewrite replicate_S_end, insert_app_r_alt by (rewrite length_replicate; lia).
  by rewrite length_replicate, Nat.sub_diag.
Qed.

Lemma place_full b n d : length b = (d + 1)%nat -> place b n d = removelast b ++ [Some n].
Proof.
  intros Hl. unfold place. replace (d + 1 - length b)%nat with O by lia. rewrite app_nil_r.
  destruct b as [|x b _] using rev_ind; [simpl in Hl; lia|].
  rewrite removelast_last. rewrite length_app in Hl. simpl in Hl.
  rewrite insert_app_r_alt by lia. by replace (d - length b)%nat with O by lia.
Qed.

Lemma settle_unfold b n d :
  settle b n d =
  if (length b =? d + 1)%nat then
    match last b with
    | Some (Some child) =>
        match d with
        | O => Err OverCompleteTree
        | S d => let? n := combine_nodes n child in settle (removelast b) n d
        end
    | _ => Ok (b, n, d)
    end
  else Ok (b, n, d).
Proof. by destruct d. Qed.

Lemma settle_short b n d : (length b <= d)%nat -> settle b n d = Ok (b, n, d).
Proof. intros Hl. rewrite settle_unfold. by destruct (Nat.eqb_spec (length b) (d + 1)); [lia|]. Qed.

Lemma settle_pending b n d x : length b = d -> settle (b ++ [Some x]) n d =
  match d with
  | O => Err OverCompleteTree
  | S d => let? n := combine_nodes n x in settle b n d
  end.
Proof.
  intros Hl. rewrite settle_unfold, length_app. simpl. rewrite Hl, Nat.eqb_refl, last_snoc.
  by rewrite removelast_last.
Qed.

(** Missing levels may be filled in beforehand. *)
Lemma settle_pad b n d : (length b <= d + 1)%nat ->
  (let? (b, n, d) := settle (b ++ replicate (d + 1 - length b) None) n d in Ok (place b n d)) =
  (let? (b, n, d) := settle b n d in Ok (place b n d)).
Proof.
  intros Hl. destruct (decide (length b = d + 1)%nat) as [E|Hne].
  - replace (d + 1 - length b)%nat with O by lia. by rewrite app_nil_r.
  - rewrite (settle_short b) by lia. rewrite settle_unfold, length_app, length_replicate.
    destruct (Nat.eqb_spec (length b + (d + 1 - length b)) (d + 1)); [|lia].
    replace (d + 1 - length b)%nat with (S (d - length b)) by lia.
    rewrite replicate_S_end, app_assoc, last_snoc. simpl. f_equal.
    rewrite place_full, removelast_last, place_short, <-app_assoc by
      (rewrite ?length_app, ?length_replicate; simpl; lia). done.
Qed.

Lemma insert_node_ok_eq b n d : (d <= 128)%nat -> (length b <= d + 1)%nat ->
  insert_node b n d = (let? (b, n, d) := settle b n d in Ok (place b n d)).
Proof.
  intros Hd Hl. unfold insert_node, TAPROOT_CONTROL_MAX_NODE_COUNT.
  destruct (Nat.ltb_spec 128 d), (Nat.ltb_spec (d + 1) (length b)); [lia..|done].
Qed.

Lemma inserts_dfs t b d : (d + height t <= 128)%nat -> (length b <= d + 1)%nat ->
  inserts b (dfs t d) = (let? n := tree_node t in insert_node b n d).
Proof.
  revert b d. induction t as [i|l IHl r IHr]; intros b d Hd Hl; simpl.
  { by destruct (insert_node b (item_node i) d). }
  simpl in Hd. rewrite inserts_app, IHl by lia.
  destruct (tree_node_total l) as [nl ->]; [lia|]. destruct (tree_node_total r) as [nr Er]; [lia|].
  rewrite Er. cbn [rbind]. rewrite (insert_node_ok_eq b nl) by lia.
  rewrite settle_short by lia. cbn [rbind]. rewrite place_short by lia.
  rewrite IHr, Er by (rewrite ?length_app, ?length_replicate; simpl; lia). cbn [rbind].
  rewrite insert_node_ok_eq by (rewrite ?length_app, ?length_replicate; simpl; lia).
  rewrite app_assoc, settle_pending by (rewrite length_app, length_replicate; lia).
  destruct (combine_nodes nr nl) as [n|e]; cbn [rbind]; [|done].
  replace (S d - length b)%nat with (d + 1 - length b)%nat by lia.
  by rewrite settle_pad, insert_node_ok_eq by lia.
Qed.

(** *** Every state of the builder is a forest *)

Fixpoint listing (ts : list (option tap_tree)) (k : nat) : list (nat * tap_item) :=
  match ts with
  | [] => []
  | None :: ts => listing ts (S k)
  | Some t :: ts => dfs t k ++ listing ts (S k)
  end.

Lemma listing_snoc ts t k : listing (ts ++ [t]) k =
  listing ts k ++ match t with Some t => dfs t (k + length ts) | None => [] end.
Proof.
  revert k. induction ts as [|[u|] ts IH]; intros k; simpl.
  - rewrite Nat.add_0_r. destruct t; [by rewrite app_nil_r|done].
  - rewrite IH, <-app_assoc. by replace (S k + length ts)%nat with (k + S (length ts))%nat by lia.
  - rewrite IH. by replace (S k + length ts)%nat with (k + S (length ts))%nat by lia.
Qed.

Lemma listing_nones ts m k : listing (ts ++ replicate m None) k = listing ts k.
Proof.
  induction m as [|m IH]; [by rewrite app_nil_r|].
  by rewrite replicate_S_end, app_assoc, listing_snoc, IH, app_nil_r.
Qed.

Definition stands (o : option NodeInfo) (t : option tap_tree) : Prop :=
  match o, t with
  | Some n, Some t => tree_node t = Ok n
  | None, None => True
  | _, _ => False
  end.

Lemma settle_forest ts b t n d b' n' d' :
  Forall2 stands b ts -> tree_node t = Ok n -> (length b <= d + 1)%nat ->
  settle b n d = Ok (b', n', d') ->
  exists ts' t', Forall2 stands b' ts' /\ tree_node t' = Ok n' /\
    listing ts 0 ++ dfs t d = listing ts' 0 ++ dfs t' d' /\
    ((length b' <= d')%nat \/ length b' = (d' + 1)%nat /\ last b' = Some None).
Proof.
  revert ts b t n. induction d as [|d IH]; intros ts b t n Hb Ht Hl; rewrite settle_unfold;
    match goal with |- context [(length ?x =? ?m)%nat] =>
      destruct (Nat.eqb_spec (length x) m) as [E|Hne] end;
    try (intros [= <- <- <-]; exists ts, t; split_and!; [done..|left; lia]);
    destruct (last b) as [[x|]|] eqn:Eb;
    try (intros [= <- <- <-]; exists ts, t; split_and!; [done..|by right]);
    try (apply last_None in Eb as ->; simpl in E; lia).
  { done. }
  intros (m & Em & Es)%rbind_ok.
  destruct b as [|x' b _] using rev_ind; [done|]. rewrite last_snoc in Eb. injection Eb as ->.
  rewrite removelast_last in Es. rewrite length_app in E. simpl in E.
  apply Forall2_app_inv_l in Hb as (ts0 & tl & Hb & Htl & ->).
  apply Forall2_cons_inv_l in Htl as (o & ? & Ho & ->%Forall2_nil_inv_l & ->).
  destruct o as [t0|]; [|done]. simpl in Ho. pose proof (Forall2_length _ _ _ Hb) as Hlen.
  destruct (IH ts0 b (Fork t0 t) m) as (ts' & t' & Hb' & Ht' & Els & Hend); [done| |lia|done|].
  { simpl. by rewrite Ho, Ht. }
  exists ts', t'. split_and!; [done..| |done]. rewrite <-Els, listing_snoc, <-app_assoc. simpl.
  by replace (length ts0) with (S d) by lia.
Qed.

Lemma insert_forest ts b i d b' :
  Forall2 stands b ts -> insert_node b (item_node i) d = Ok b' ->
  (d <= 128)%nat /\ exists ts', Forall2 stands b' ts' /\ listing ts' 0 = listing ts 0 ++ [(d, i)].
Proof.
  intros Hb E.
  assert ((d <= 128)%nat /\ (length b <= d + 1)%nat) as [Hd Hl].
  { unfold insert_node, TAPROOT_CONTROL_MAX_NODE_COUNT in E.
    destruct (Nat.ltb_spec 128 d); [done|]. destruct (Nat.ltb_spec (d + 1) (length b)); [done|]. lia. }
  split; [done|]. rewrite insert_node_ok_eq in E by done.
  apply rbind_ok in E as ([[b1 n1] d1] & Es & [= <-]).
  destruct (settle_forest ts b (Tip i) (item_node i) d b1 n1 d1) as (ts1 & t1 & Hb1 & Ht1 & Els & Hend);
    [done..|]. pose proof (Forall2_length _ _ _ Hb1) as Hlen.
  change [(d, i)] with (dfs (Tip i) d). rewrite Els. destruct Hend as [Hs|[Hf Hlast]].
  - rewrite place_short by done. exists (ts1 ++ replicate (d1 - length b1) None ++ [Some t1]). split.
    + apply Forall2_app; [done|]. apply Forall2_app; [by apply Forall2_replicate|by repeat constructor].
    + rewrite app_assoc, listing_snoc, listing_nones, length_app, length_replicate. simpl.
      by replace (length ts1 + (d1 - length b1))%nat with d1 by lia.
  - rewrite place_full by done.
    destruct b1 as [|x b1 _] using rev_ind; [simpl in Hf; lia|]. rewrite last_snoc in Hlast.
    injection Hlast as ->. rewrite removelast_last. rewrite length_app in Hf. simpl in Hf.
    apply Forall2_app_inv_l in Hb1 as (ts0 & tl & Hb1 & Htl & ->).
    apply Forall2_cons_inv_l in Htl as (o & ? & Ho & ->%Forall2_nil_inv_l & ->).
    destruct o; [done|]. pose proof (Forall2_length _ _ _ Hb1) as Hl0.
    exists (ts0 ++ [Some t1]). split; [apply Forall2_app; [done|by repeat constructor]|].
    rewrite !listing_snoc, app_nil_r. simpl. by replace (length ts0) with d1 by lia.
Qed.

Lemma inserts_forest l ts b b' :
  Forall2 stands b ts -> inserts b l = Ok b' ->
  Forall (fun x => (x.1 <= 128)%nat) l /\
  exists ts', Forall2 stands b' ts' /\ listing ts' 0 = listing ts 0 ++ l.
Proof.
  revert ts b. induction l as [|[d i] l IH]; intros ts b Hb E; simpl in E.
  - injection E as <-. split; [done|]. exists ts. by rewrite app_nil_r.
  - apply rbind_ok in E as (b1 & E1 & E). destruct (insert_forest _ _ _ _ _ Hb E1) as [Hd (ts1 & Hb1 & L1)].
    destruct (IH ts1 b1 Hb1 E) as [Hl (ts' & Hb' & L')]. split; [by constructor|].
    exists ts'. by rewrite L', L1, <-app_assoc.
Qed.

Lemma dfs_height t d : Forall (fun x => (x.1 <= 128)%nat) (dfs t d) -> (d + height t <= 128)%nat.
Proof.
  revert d. induction t as [i|l IHl r IHr]; intros d; simpl.
  - rewrite Forall_cons. simpl. lia.
  - rewrite Forall_app. intros [Hl%IHl Hr%IHr]. lia.
Qed.

(** The builder is complete exactly after the listing of a tree. *)
Lemma complete_iff l n :
  inserts [] l = Ok [Some n] <->
  exists t, l = dfs t 0 /\ (height t <= 128)%nat /\ tree_node t = Ok n.
Proof.
  split.
  - intros E. destruct (inserts_forest l [] [] _ (proj2 (Forall2_nil _) I) E) as [Hd (ts & Hb & L)].
    apply Forall2_cons_inv_l in Hb as (o & ? & Ho & ->%Forall2_nil_inv_l & ->).
    destruct o as [t|]; [|done]. simpl in Ho, L. rewrite app_nil_r in L. exists t.
    split_and!; [done| |done]. rewrite <-L in Hd. by apply dfs_height in Hd.
  - intros (t & -> & Ht & En). rewrite inserts_dfs, En by (simpl; lia). simpl.
    by rewrite insert_node_ok_eq, settle_short by (simpl; lia).
Qed.
End trees.

(** ** Spending information *)

Section spending.
Context {P : Platform} {H : Hashes} {T : TapEnv}.

Lemma pop_max_spec {A} (cmp : A -> A -> comparison) l :
  match pop_max cmp l with
  | None => l = []
  | Some (x, rest) => l ≡ₚ x :: rest
  end.
Proof.
  induction l as [|x l IH]; simpl; [done|].
  destruct (pop_max cmp l) as [[y rest]|]; [|by subst].
  destruct (cmp x y); rewrite IH; solve_Permutation.
Qed.

Lemma pop_max_greatest {A} (cmp : A -> A -> comparison) l x rest :
  cmp_ok cmp -> pop_max cmp l = Some (x, rest) -> Forall (fun y => cmp x y <> Lt) l.
Proof.
  intros Hc. revert x rest. induction l as [|a l IH]; intros x rest; simpl; [done|].
  assert (Hrefl : forall z, cmp z z <> Lt).
  { intros z E. pose proof (cmp_anti Hc z z) as Ez. rewrite E in Ez. done. }
  pose proof (pop_max_spec cmp l) as Hp. destruct (pop_max cmp l) as [[y r]|];
    [|intros [= <- <-]; subst l; by repeat constructor].
  specialize (IH y r eq_refl). destruct (cmp a y) eqn:E; intros [= <- <-]; constructor;
    try apply Hrefl.
  - eapply Forall_impl; [exact IH|]. intros z Hz. simpl. by rewrite (cmp_eq_l Hc a y z E).
  - rewrite (cmp_anti Hc a y), E. done.
  - done.
  - eapply Forall_impl; [exact IH|]. simpl. intros z Hz Elt. apply Hz.
    destruct (cmp a y) eqn:E2; [done|done|].
    apply (cmp_trans Hc y a z); [by rewrite (cmp_anti Hc a y), E2|done].
Qed.

Lemma exists_cons {A} (Q : A -> Prop) a l :
  (exists x, x ∈ a :: l /\ Q x) <-> Q a \/ exists x, x ∈ l /\ Q x.
Proof.
  split; [intros (x & [->|]%elem_of_cons & ?); eauto|].
  intros [?|(x & ? & ?)]; eexists; (split; [|eassumption]); rewrite elem_of_cons; auto.
Qed.

Lemma add_branches_lookup (ls : list LeafInfo) (m : gmap (Script * Z) (gset (list bytes))) k :
  (forall br, br ∈ default ∅ (foldl add_branch m ls !! k) <->
     br ∈ default ∅ (m !! k) \/ exists l, l ∈ ls /\ leaf_key l = k /\ merkle_branch l = br) /\
  (is_Some (foldl add_branch m ls !! k) <-> is_Some (m !! k) \/ k ∈ map leaf_key ls).
Proof.
  revert m. induction ls as [|l ls IH]; intros m; simpl.
  { split; [intros br; split; [by left|]|split; [by left|]];
      intros [?|Hx]; [done| |done|]; [destruct Hx as (? & Hx & _)|]; by apply elem_of_nil in Hx. }
  destruct (IH (add_branch m l)) as [H1 H2].
  assert (E : add_branch m l !! k =
    if decide (leaf_key l = k) then Some ({[merkle_branch l]} ∪ default ∅ (m !! k)) else m !! k).
  { unfold add_branch. fold (leaf_key l). case_decide as Hk; [by rewrite <-Hk, lookup_insert_eq|].
    by rewrite lookup_insert_ne. }
  rewrite E in H1, H2. split.
  - intros br. rewrite H1, exists_cons. case_decide as Hk; simpl; [|tauto].
    rewrite elem_of_union, elem_of_singleton. split; [|intuition congruence].
    intros [[->|?]|?]; auto.
  - rewrite H2, elem_of_cons. case_decide as Hk.
    + split; [by intros _; right; left|]. intros _. left. by eexists.
    + split; [tauto|]. intros [?|[?|?]]; [tauto|congruence|tauto].
Qed.

Lemma branch_cmp_ok : cmp_ok branch_cmp.
Proof.
  apply cmp_rev_ok, then_with_ok; [apply cmp_by_ok, Nat_compare_ok|apply list_cmp_ok, bytes_cmp_ok].
Qed.

(** The control block of a script proves it, and no branch to the script is shorter. *)
Definition proves (info : TaprootSpendInfo) (n : NodeInfo) (k : Script * Z) (cb : ControlBlock) : Prop :=
  verify_taproot_commitment cb (output_key info) k.1 = Some true /\
  cb_leaf_version cb = k.2 /\ (length (cb_branch cb) <= 128)%nat /\
  (exists l, l ∈ leaves n /\ leaf_key l = k /\ merkle_branch l = cb_branch cb) /\
  (forall l, l ∈ leaves n -> leaf_key l = k -> (length (cb_branch cb) <= length (merkle_branch l))%nat).

Lemma from_node_info_ok key n info : from_node_info key n = Some info ->
  internal_key info = key /\ spend_merkle_root info = Some (node_hash n) /\
  script_map info = foldl add_branch ∅ (leaves n) /\
  exists t, to_scalar (from_key_and_tweak key (Some (node_hash n))) = Some t /\
    add_tweak key t = Some (output_key info, output_key_parity info).
Proof.
  unfold from_node_info, new_key_spend, tap_tweak.
  destruct (to_scalar _) as [t|]; simpl; [|done].
  destruct (add_tweak key t) as [[q par]|] eqn:E; simpl; [|done]. intros [= <-]. simpl. eauto 10.
Qed.

Lemma control_block_ok key n info k :
  node_ok n -> from_node_info key n = Some info ->
  (k ∉ map leaf_key (leaves n) /\ control_block info k = Some None) \/
  (k ∈ map leaf_key (leaves n) /\ exists cb, control_block info k = Some (Some cb) /\ proves info n k cb).
Proof.
  intros Hn (Ek & _ & Em & t & Et & Ea)%from_node_info_ok. unfold control_block. rewrite Em.
  destruct (add_branches_lookup (leaves n) ∅ k) as [H1 H2]. rewrite lookup_empty in H1, H2.
  destruct (foldl add_branch ∅ (leaves n) !! k) as [brs|] eqn:El.
  - right. split. { destruct (proj1 H2) as [[? ?]|?]; [eauto|done|done]. }
    simpl in H1. pose proof (pop_max_spec branch_cmp (elements brs)) as Hp.
    assert (Hne : brs <> ∅).
    { intros ->. destruct (proj1 H2) as [[? ?]|Hk]; [eauto|done|].
      apply list_elem_of_fmap in Hk as (l & -> & Hl).
      assert (Hin : merkle_branch l ∈ (∅ : gset (list bytes))) by (apply H1; right; eauto).
      by apply elem_of_empty in Hin. }
    destruct (pop_max branch_cmp (elements brs)) as [[br rest]|] eqn:Ep;
      [|destruct Hne; by apply leibniz_equiv, elements_empty_inv].
    eexists. split; [done|].
    assert (Hbr : br ∈ brs) by (rewrite <-elem_of_elements, Hp; set_solver).
    destruct (proj1 (H1 br) Hbr) as [?|(l & Hl & Hkl & Hbl)]; [set_solver|].
    unfold node_ok in Hn. rewrite Forall_forall in Hn. destruct (Hn l Hl) as [Hroot Hlen].
    split_and!; simpl; [|done|by rewrite <-Hbl|by exists l|].
    + unfold verify_taproot_commitment. simpl. rewrite <-Hkl, <-Hbl. simpl.
      rewrite Hroot, Ek, Et. simpl. f_equal. by apply tweak_check_iff.
    + intros l' Hl' Hk'. pose proof (pop_max_greatest _ _ _ _ branch_cmp_ok Ep) as Hmin.
      rewrite Forall_forall in Hmin. specialize (Hmin (merkle_branch l')).
      rewrite elem_of_elements, H1 in Hmin. specialize (Hmin ltac:(eauto)).
      unfold branch_cmp, cmp_rev, then_with, cmp_by in Hmin.
      destruct (Nat.compare_spec (length (merkle_branch l')) (length br)); simpl in *; try lia. done.
  - left. split; [|done]. intros Hk. destruct (proj2 H2) as [? ?]; [by right|done].
Qed.
End spending.

(** ** The encoding of control blocks *)

Section encoding.
Context {T : TapEnv}.

Definition hashes_wf (l : list bytes) : Prop := Forall (fun h => length h = 32%nat) l.

Definition ControlBlock_wf (cb : ControlBlock) : Prop :=
  is_u8 (cb_leaf_version cb) /\ LeafVersion_from_u8 (cb_leaf_version cb) = Ok (cb_leaf_version cb) /\
  (length (cb_branch cb) <= 128)%nat /\ hashes_wf (cb_branch cb).

Lemma first_byte_split b :
  Z.lor (if Z.land (b2z b) 1 =? 1 then 1 else 0) (Z.land (b2z b) TAPROOT_LEAF_MASK) = b2z b.
Proof. by destruct b. Qed.

Lemma first_byte_join b (p : bool) : Z.land (b2z b) TAPROOT_LEAF_MASK = b2z b ->
  let f := z2b (Z.lor (if p then 1 else 0) (b2z b)) in
  (Z.land (b2z f) 1 =? 1) = p /\ Z.land (b2z f) TAPROOT_LEAF_MASK = b2z b.
Proof. by destruct p, b; vm_compute. Qed.

Lemma length_hashes l : hashes_wf l -> length (concat l) = (32 * length l)%nat.
Proof.
  induction 1 as [|h l Hh Hl IH]; simpl; [done|]. rewrite length_app, Hh, IH. lia.
Qed.

Lemma chunks32_concat fuel l : hashes_wf l -> (length l <= fuel)%nat -> chunks32 fuel (concat l) = l.
Proof.
  intros Hl. revert fuel. induction Hl as [|h l Hh Hl IH]; intros fuel Hf; simpl.
  - by destruct fuel.
  - destruct fuel as [|fuel]; [simpl in Hf; lia|]. destruct h as [|b h]; [done|].
    simpl app. cbn [chunks32]. change (b :: h ++ concat l) with ((b :: h) ++ concat l).
    rewrite take_app_length', drop_app_length' by done. rewrite IH; [done|simpl in Hf; lia].
Qed.

Lemma concat_chunks32 fuel sl q : length sl = (32 * q)%nat -> (length sl <= fuel)%nat ->
  concat (chunks32 fuel sl) = sl /\ hashes_wf (chunks32 fuel sl) /\ length (chunks32 fuel sl) = q.
Proof.
  revert sl q. induction fuel as [|fuel IH]; intros sl q Hq Hf; destruct sl as [|b sl]; cbn [chunks32].
  1, 3: assert (q = 0)%nat as -> by (simpl in Hq; lia); by repeat constructor.
  { simpl in Hf. lia. }
  set (l := b :: sl) in *. destruct q as [|q]; [simpl in Hq; lia|].
  destruct (IH (drop 32 l) q) as (E & Hw & Hl); [rewrite length_drop; lia|rewrite length_drop; lia|].
  cbn [concat length]. rewrite E, Hl, take_drop. split_and!; [done| |done]. constructor; [|done].
  rewrite length_take. lia.
Qed.

Lemma LeafVersion_ok v w : LeafVersion_from_u8 v = Ok w <->
  w = v /\ Z.land v TAPROOT_LEAF_MASK = v /\ v <> 0x50.
Proof.
  unfold LeafVersion_from_u8.
  destruct (Z.eqb_spec (Z.land v TAPROOT_LEAF_MASK) v), (Z.eqb_spec v 0x50); simpl; naive_solver.
Qed.

Lemma branch_from_slice sl br :
  TaprootMerkleBranch_from_slice sl = Ok br <->
  (length br <= 128)%nat /\ hashes_wf br /\ sl = concat br.
Proof.
  unfold TaprootMerkleBranch_from_slice, TAPROOT_CONTROL_NODE_SIZE, TAPROOT_CONTROL_MAX_NODE_COUNT. split.
  - destruct (Nat.eqb_spec (length sl mod 32) 0) as [Hm|]; [|done]. cbn [negb].
    destruct (Nat.ltb_spec (32 * 128) (length sl)) as [|Hl]; [done|]. intros [= <-].
    pose proof (Nat.div_mod_eq (length sl) 32).
    destruct (concat_chunks32 (length sl) sl (length sl / 32)) as (E & Hw & Hlen); [lia|lia|].
    rewrite Hlen. split_and!; [lia|done|done].
  - intros (Hlen & Hw & ->). rewrite length_hashes by done.
    rewrite (Nat.mul_comm 32 (length br)), Nat.Div0.mod_mul. cbn [Nat.eqb negb].
    destruct (Nat.ltb_spec (32 * 128) (length br * 32)); [lia|].
    f_equal. apply chunks32_concat; [done|lia].
Qed.

Lemma control_block_size cb : hashes_wf (cb_branch cb) ->
  length (ControlBlock_serialize cb) = ControlBlock_size cb.
Proof.
  intros Hw. unfold ControlBlock_serialize, ControlBlock_size. simpl length.
  rewrite length_app, xonly_length, length_hashes by done. done.
Qed.

Lemma control_block_codec sl cb :
  ControlBlock_from_slice sl = Ok cb <-> ControlBlock_wf cb /\ sl = ControlBlock_serialize cb.
Proof.
  split.
  - destruct sl as [|f rest]; [done|]. unfold ControlBlock_from_slice. case_match eqn:Es; [done|].
    apply orb_false_iff in Es as [Hl%Nat.ltb_ge _]. unfold TAPROOT_CONTROL_BASE_SIZE in Hl. simpl in Hl.
    intros (v & (-> & Hv & Hv')%LeafVersion_ok & (k & Hk%ok_or_ok & (br & (Hbl & Hbw & Hb)%branch_from_slice &
      [= <-])%rbind_ok)%rbind_ok)%rbind_ok.
    unfold ControlBlock_wf, ControlBlock_serialize. simpl. split_and!; [| | |done|done|].
    + apply Z.land_nonneg. left. apply b2z_range.
    + pose proof (b2z_range f). rewrite <-(z2b_b2z f). by destruct f.
    + by apply LeafVersion_ok.
    + rewrite first_byte_split, z2b_b2z, (xonly_strict _ _ Hk), <-Hb, take_drop. done.
  - intros [(Hu & (_ & Hv & Hv')%LeafVersion_ok & Hl & Hw) ->].
    unfold ControlBlock_from_slice, ControlBlock_serialize.
    destruct cb as [v p k br]. cbn [cb_leaf_version cb_parity cb_internal_key cb_branch] in *.
    rewrite <-(b2z_z2b_small v Hu) in Hv. destruct (first_byte_join (z2b v) p Hv) as [Hp Hm].
    rewrite (b2z_z2b_small v Hu) in Hp, Hm. rewrite Hm, Hp.
    match goal with |- context [if ?c then Err (InvalidControlBlockSize _) else _] =>
      assert (c = false) as -> end.
    { cbn [length]. rewrite length_app, xonly_length, length_hashes by done.
      unfold TAPROOT_CONTROL_BASE_SIZE, TAPROOT_CONTROL_NODE_SIZE.
      replace (S (32 + 32 * length br) - 33)%nat with (length br * 32)%nat by lia.
      rewrite Nat.Div0.mod_mul, orb_false_r. apply Nat.ltb_ge. lia. }
    rewrite (proj2 (LeafVersion_ok v v)); [|split_and!; [done| |done]; by rewrite (b2z_z2b_small v Hu) in Hv].
    cbn [rbind]. rewrite take_app_length', drop_app_length' by (by rewrite xonly_length).
    rewrite ext_parse_ser. cbn [ok_or rbind].
    by rewrite (proj2 (branch_from_slice (concat br) br)).
Qed.
End encoding.

(** ** Huffman trees *)

Section huffman.
Context {P : Platform} {H : Hashes}.

Lemma with_partners_err h ls e : Forall (fun l => (length (merkle_branch l) <= 128)%nat) ls ->
  rmapM (with_partner h) ls = Err e -> e = InvalidMerkleTreeDepth 128.
Proof.
  intros Hls. induction Hls as [|l ls Hl Hls IH]; [done|]. simpl.
  intros [E|(? & _ & [E|(? & _ & E)]%rbind_err)]%rbind_err; [|by apply IH|done].
  unfold with_partner, push_hash, TAPROOT_CONTROL_MAX_NODE_COUNT in E.
  destruct (Nat.leb_spec 128 (length (merkle_branch l))); [|done]. injection E as <-. f_equal. lia.
Qed.

Lemma combine_err a b e : node_ok a -> node_ok b -> combine_nodes a b = Err e ->
  e = InvalidMerkleTreeDepth 128.
Proof.
  assert (Hlens : forall n, node_ok n -> Forall (fun l => (length (merkle_branch l) <= 128)%nat) (leaves n)).
  { intros n Hn. eapply Forall_impl; [exact Hn|]. by intros l [_ ?]. }
  intros Ha Hb. unfold combine_nodes.
  intros [E|(? & _ & [E|(? & _ & E)]%rbind_err)]%rbind_err; [| |done];
    eapply with_partners_err; [|exact E| |exact E]; auto.
Qed.

(** [huffman] never runs out of rounds, keeps the leaves and the paths, and fails only on
    the depth limit. *)
Lemma huffman_ok fuel heap : heap <> [] -> (length heap <= fuel)%nat ->
  Forall (fun x => node_ok x.2) heap ->
  (exists n, huffman fuel heap = Some (Ok n) /\ node_ok n /\
     map leaf_key (leaves n) ≡ₚ concat (map (fun x => map leaf_key (leaves x.2)) heap)) \/
  huffman fuel heap = Some (Err (InvalidMerkleTreeDepth 128)).
Proof.
  revert heap. induction fuel as [|fuel IH]; intros heap Hne Hf Hok.
  { destruct heap; [done|simpl in Hf; lia]. }
  cbn [huffman]. pose proof (pop_max_spec entry_cmp heap) as Hp.
  destruct (pop_max entry_cmp heap) as [[[p1 s1] rest]|]; [|done].
  assert (Hperm : concat (map (fun x => map leaf_key (leaves x.2)) heap) ≡ₚ
     concat (map (fun x => map leaf_key (leaves x.2)) ((p1, s1) :: rest))).
  { rewrite <-!flat_map_concat_map. by apply Permutation_flat_map. }
  rewrite Hp in Hok. apply Forall_cons in Hok as [H1 Hok].
  assert (Hlen : length heap = S (length rest)) by (by rewrite Hp).
  destruct rest as [|y rest'].
  { left. exists s1. split_and!; [done|done|]. rewrite Hperm. simpl. by rewrite app_nil_r. }
  set (rest := y :: rest') in *.
  pose proof (pop_max_spec entry_cmp rest) as Hp2.
  destruct (pop_max entry_cmp rest) as [[[p2 s2] rest2]|]; [|done].
  rewrite Hp2 in Hok. apply Forall_cons in Hok as [H2 Hok].
  destruct (combine_nodes s1 s2) as [n|e] eqn:Ec.
  - destruct (IH ((saturating_add u64_max p1 p2, n) :: rest2)) as [(m & Em & Hm & Hk)|Em];
      [done| |constructor; [by apply (combine_node_ok s1 s2)|done]| |by right].
    { assert (length rest = S (length rest2)) by (by rewrite Hp2). simpl. lia. }
    left. exists m. split_and!; [done..|]. rewrite Hk, Hperm. cbn [map concat snd].
    apply combine_ok in Ec as [_ ->]. cbn [leaves]. rewrite map_app, !map_map, <-app_assoc.
    apply Permutation_app_head.
    assert (E2 : concat (map (fun x => map leaf_key (leaves x.2)) rest) ≡ₚ
      concat (map (fun x => map leaf_key (leaves x.2)) ((p2, s2) :: rest2))).
    { rewrite <-!flat_map_concat_map. by apply Permutation_flat_map. }
    rewrite E2. done.
  - right. do 2 f_equal. by apply (combine_err s1 s2).
Qed.
End huffman.

(** ** Properties *)

Section properties.
Context {P : Platform} {H : Hashes} {T : TapEnv}.

(** An item that can be part of a tree: a leaf version that is one, a hash of 32 bytes. *)
Definition item_wf (i : tap_item) : Prop :=
  match i with
  | ItemLeaf _ v => is_u8 v /\ LeafVersion_from_u8 v = Ok v
  | ItemHidden h => length h = 32%nat
  end.

Lemma node_hash_length t : Forall item_wf (items t) -> length (tree_hash t) = 32%nat.
Proof.
  destruct t as [[s v|h]|l r]; simpl; [intros _; apply sha256_length| |intros _; apply sha256_length].
  rewrite Forall_cons. by intros [? _].
Qed.

Lemma tree_branches_wf t n : tree_node t = Ok n -> Forall item_wf (items t) ->
  Forall (fun l => hashes_wf (merkle_branch l)) (leaves n).
Proof.
  revert n. induction t as [i|l IHl r IHr]; intros n; simpl.
  - intros [= <-] _. destruct i; simpl; [constructor; constructor|constructor].
  - intros (nl & El & (nr & Er & E)%rbind_ok)%rbind_ok [Wl Wr]%Forall_app.
    apply combine_ok in E as [_ ->]. simpl.
    destruct (tree_node_spec l nl El) as (Hl & _), (tree_node_spec r nr Er) as (Hr & _).
    rewrite Forall_app, !Forall_map, Hl, Hr.
    split; (eapply Forall_impl; [eauto|]); intros x Hx; apply Forall_app; (split; [done|]);
      (constructor; [by apply node_hash_length|constructor]).
Qed.

Lemma finalize_complete n key info :
  finalize_builder [Some n] key = Some (Ok info) -> from_node_info key n = Some info.
Proof. unfold finalize_builder. simpl. destruct (from_node_info key n); naive_solver. Qed.

Lemma spendable t n key info k :
  Forall item_wf (items t) -> tree_node t = Ok n -> from_node_info key n = Some info ->
  if decide (k ∈ omap item_leaf (items t)) then
    exists cb, control_block info k = Some (Some cb) /\ proves info n k cb /\
      ControlBlock_from_slice (ControlBlock_serialize cb) = Ok cb
  else control_block info k = Some None.
Proof.
  intros Hw En Ei. destruct (tree_node_spec t n En) as (_ & Hok & _ & Hk).
  destruct (control_block_ok key n info k Hok Ei) as [[Hn E]|[Hin (cb & E & Hp)]]; rewrite Hk in *.
  - case_decide; [done|done].
  - case_decide as Hd; [|done]. exists cb. split_and!; [done|done|].
    destruct Hp as (_ & Hv & Hl & (l & Hlin & _ & Hbr) & _).
    apply control_block_codec. split; [|done].
    apply list_elem_of_omap in Hd as (i & Hi & Ek).
    pose proof (proj1 (Forall_forall _ _) Hw i Hi) as Wi.
    destruct i as [s v|]; [|done]. injection Ek as <-. destruct Wi as [Hu Hv'].
    pose proof (proj1 (Forall_forall _ _) (tree_branches_wf t n En Hw) l Hlin) as Hb. simpl in *.
    unfold ControlBlock_wf. rewrite Hv, <-Hbr in *. done.
Qed.

(** C30: the builder completes on trees, and only on them.  A sequence of added leaves and
    hidden nodes, each with its depth, leaves the builder with a single finished node
    exactly when it is the depth-first listing of a binary tree of depth at most 128; that
    node then has the root hash of the tree, and its leaves are the tree's scripts. *)
Theorem taproot_builder_iff_tree (l : list (nat * tap_item)) (n : NodeInfo) :
  inserts [] l = Ok [Some n] <->
  exists t, l = dfs t 0 /\ (height t <= 128)%nat /\ tree_node t = Ok n /\
    node_hash n = tree_hash t /\ map leaf_key (leaves n) ≡ₚ omap item_leaf (items t).
Proof.
  rewrite complete_iff. split.
  - intros (t & El & Ht & En). exists t.
    destruct (tree_node_spec t n En) as (Hh & _ & _ & Hk). done.
  - intros (t & El & Ht & En & _). by exists t.
Qed.

(** C31: what a finished tree hands out can be spent.  For a tree of depth at most 128, the
    builder accepts the tree's listing; when finalizing returns (the tweak is a scalar and
    the sum a point), the output key commits to the tree's root, every script of the tree
    has a control block that verifies against the output key, survives its encoding and is
    no longer than any other path to the script, and no other script has one. *)
Theorem taproot_scripts_spendable (t : tap_tree) (key : XOnlyPublicKey) :
  (height t <= 128)%nat -> Forall item_wf (items t) ->
  exists n, inserts [] (dfs t 0) = Ok [Some n] /\
    forall info, finalize_builder [Some n] key = Some (Ok info) ->
      internal_key info = key /\ spend_merkle_root info = Some (tree_hash t) /\
      forall k, if decide (k ∈ omap item_leaf (items t)) then
        exists cb, control_block info k = Some (Some cb) /\ proves info n k cb /\
          ControlBlock_from_slice (ControlBlock_serialize cb) = Ok cb
      else control_block info k = Some None.
Proof.
  intros Ht Hw. destruct (tree_node_total t Ht) as [n En]. exists n.
  split; [apply complete_iff; eauto|]. intros info Ef%finalize_complete.
  destruct (from_node_info_ok _ _ _ Ef) as (Hi & Hr & _).
  destruct (tree_node_spec t n En) as (Hh & _). split_and!; [done|by rewrite Hr, Hh|].
  intros k. by eapply spendable.
Qed.

(** A byte string is a control block exactly when it is the encoding of one whose leaf
    version is valid and whose path has at most 128 hashes; the size is the one reported. *)
Theorem control_block_decode_iff (sl : bytes) (cb : ControlBlock) :
  (ControlBlock_from_slice sl = Ok cb <-> ControlBlock_wf cb /\ sl = ControlBlock_serialize cb) /\
  (ControlBlock_from_slice sl = Ok cb -> length sl = ControlBlock_size cb).
Proof.
  split; [apply control_block_codec|].
  intros [(_ & _ & _ & Hw) ->]%control_block_codec. by apply control_block_size.
Qed.

(** The Huffman construction returns on every list of weighted scripts: an error for the
    empty list, the depth error for a tree deeper than 128 levels, and otherwise spending
    information in which exactly the given scripts have control blocks, each verifying
    against the output key. *)
Theorem huffman_scripts_spendable (key : XOnlyPublicKey) (ws : list (Z * Script)) :
  (ws = [] /\ with_huffman_tree key ws = Some (Err IncompleteTree)) \/
  with_huffman_tree key ws = Some (Err (InvalidMerkleTreeDepth 128)) \/
  exists n, map leaf_key (leaves n) ≡ₚ map (fun x => (x.2, TAPROOT_LEAF_TAPSCRIPT)) ws /\
    with_huffman_tree key ws = Ok <$> from_node_info key n /\
    forall info k, from_node_info key n = Some info ->
      if decide (k ∈ map (fun x => (x.2, TAPROOT_LEAF_TAPSCRIPT)) ws) then
        exists cb, control_block info k = Some (Some cb) /\ proves info n k cb
      else control_block info k = Some None.
Proof.
  destruct ws as [|w ws0] eqn:Ew; [by left|]. rewrite <-Ew. right. unfold with_huffman_tree.
  set (heap := map _ ws).
  assert (Hok : Forall (fun x => node_ok x.2) heap).
  { unfold heap. rewrite Forall_map. apply Forall_true. intros [p s]. apply (item_node_ok (ItemLeaf s _)). }
  assert (Hkeys : concat (map (fun x => map leaf_key (leaves x.2)) heap) =
                  map (fun x => (x.2, TAPROOT_LEAF_TAPSCRIPT)) ws).
  { unfold heap. rewrite map_map. clear. induction ws as [|[p s] ws IH]; simpl; [done|]. by rewrite IH. }
  destruct (huffman_ok (Datatypes.S (length heap)) heap) as [(n & -> & Hn & Hk)|Eh];
    [by unfold heap; rewrite Ew|lia|done| |left; by rewrite Eh].
  right. exists n. rewrite Hkeys in Hk. split_and!; [done|by simpl; destruct (from_node_info key n)|].
  intros info k Ei. destruct (control_block_ok key n info k Hn Ei) as [[Hnot E]|[Hin (cb & E & Hp)]];
    rewrite Hk in *; case_decide; try done. by exists cb.
Qed.
End properties.

(** ** A concrete instance *)

Module TaprootSample.
Export SighashSample.

(** Keys are 32-byte strings, and tweaking adds the tweak to the key modulo 2^256. *)
Definition key_check (l : bytes) : bool := (length l =? 32)%nat.

Definition toy_add (k : Model.checked_ext key_check) (t : bytes)
  : option (Model.checked_ext key_check * bool) :=
  q ← ext_parse (le_bytes 32 (le_val (ext_ser k) + le_val t)); Some (q, Z.odd (le_val t)).

Program Definition TapEnv_model : TapEnv :=
  {| XOnlyPublicKey := Model.checked_ext key_check;
     xonly_strict := Model.checked_strict _;
     add_tweak := toy_add;
     tweak_add_check k q parity t := bool_decide (toy_add k t = Some (q, parity)) |}.
Next Obligation. intros [l Hl]. by apply Nat.eqb_eq. Qed.
Next Obligation. intros. apply bool_decide_eq_true. Qed.
#[export] Existing Instance TapEnv_model.

Definition sample_key : XOnlyPublicKey := exist _ (replicate 32 Byte.x07) eq_refl.

(** Three scripts, one of them twice, and a hidden part. *)
Definition tip (b : byte) : tap_tree := Tip (ItemLeaf [b] TAPROOT_LEAF_TAPSCRIPT).
Definition sample_tree : tap_tree :=
  Fork (Fork (tip Byte.x51) (Fork (tip Byte.x52) (tip Byte.x53)))
       (Fork (Tip (ItemHidden (hash Byte.x44))) (tip Byte.x52)).

Definition sample_cb : ControlBlock :=
  mkControlBlock TAPROOT_LEAF_TAPSCRIPT true sample_key [hash Byte.x44; hash Byte.x45].
End TaprootSample.
Import TaprootSample.

Lemma taproot_scripts_spendable_witness :
  exists n, inserts [] (dfs sample_tree 0) = Ok [Some n] /\
    forall info, finalize_builder [Some n] sample_key = Some (Ok info) ->
      spend_merkle_root info = Some (tree_hash sample_tree) /\
      is_Some (control_block info ([Byte.x52], TAPROOT_LEAF_TAPSCRIPT)).
Proof.
  destruct (taproot_scripts_spendable sample_tree sample_key) as (n & En & Hn).
  - apply (proj1 (Nat.leb_le _ _)). by vm_compute.
  - repeat constructor; by vm_compute.
  - exists n. split; [exact En|]. intros info Hi. destruct (Hn info Hi) as (_ & Hr & Hk).
    split; [exact Hr|]. specialize (Hk ([Byte.x52], TAPROOT_LEAF_TAPSCRIPT)).
    case_decide; [destruct Hk as (cb & -> & _); eauto|rewrite Hk; eauto].
Defined.

Lemma control_block_decode_iff_witness :
  ControlBlock_from_slice (ControlBlock_serialize sample_cb) = Ok sample_cb /\
  length (ControlBlock_serialize sample_cb) = 97%nat.
Proof.
  assert (E : ControlBlock_from_slice (ControlBlock_serialize sample_cb) = Ok sample_cb).
  { apply (proj1 (control_block_decode_iff (ControlBlock_serialize sample_cb) sample_cb)).
    split; [|reflexivity]. split; [by vm_compute|]. split; [reflexivity|]. split; [simpl; lia|].
    repeat constructor. }
  split; [exact E|]. exact (proj2 (control_block_decode_iff _ sample_cb) E).
Defined.

(** The sample finalizes, and its three scripts have control blocks. *)
Example sample_finalizes :
  match inserts [] (dfs sample_tree 0) with
  | Ok b => match finalize_builder b sample_key with
            | Some (Ok info) => map (fun x => match control_block info (x, TAPROOT_LEAF_TAPSCRIPT) with
                Some (Some cb) => length (cb_branch cb) | _ => 0%nat end)
                [[Byte.x51]; [Byte.x52]; [Byte.x53]; [Byte.x54]] = [2; 2; 3; 0]%nat
            | _ => False
            end
  | Err _ => False
  end.
Proof. by vm_compute. Qed.
