(* ===== verification/TapSighash.v ===== *)
(** * Taproot signature hashes

    The BIP-341 part of [rust-elements/src/sighash.rs] ([Prevouts], [ScriptPath],
    [Annex], [SchnorrSighashType], the signing data and its cache) and the serialized
    signatures of [schnorr.rs].

    The theorems: which calls succeed; the digests computed on one cache, interleaved
    with others and with witness edits, are those of the transaction alone; a message
    commits to what BIP 341 says it does; which byte strings are signatures. *)

From S2P Require Import Prelude Encode Script Timelocks Confidential Transaction Sighash Taproot.

(** ** Sighash types *)

Inductive SchnorrSighashType :=
| SchnorrDefault
| SchnorrAll
| SchnorrNone
| SchnorrSingle
| SchnorrAllPlusAnyoneCanPay
| SchnorrNonePlusAnyoneCanPay
| SchnorrSinglePlusAnyoneCanPay
| SchnorrReserved.
#[export] Instance SchnorrSighashType_eq_dec : EqDecision SchnorrSighashType.
Proof. solve_decision. Defined.

Definition schnorr_as_u8 (t : SchnorrSighashType) : Z :=
  match t with
  | SchnorrDefault => 0x00
  | SchnorrAll => 0x01
  | SchnorrNone => 0x02
  | SchnorrSingle => 0x03
  | SchnorrAllPlusAnyoneCanPay => 0x81
  | SchnorrNonePlusAnyoneCanPay => 0x82
  | SchnorrSinglePlusAnyoneCanPay => 0x83
  | SchnorrReserved => 0xff
  end.

Definition schnorr_split (t : SchnorrSighashType) : SchnorrSighashType * bool :=
  match t with
  | SchnorrAllPlusAnyoneCanPay => (SchnorrAll, true)
  | SchnorrNonePlusAnyoneCanPay => (SchnorrNone, true)
  | SchnorrSinglePlusAnyoneCanPay => (SchnorrSingle, true)
  | t => (t, false)
  end.

Definition schnorr_from_u8 (hash_ty : Z) : option SchnorrSighashType :=
  if hash_ty =? 0x00 then Some SchnorrDefault
  else if hash_ty =? 0x01 then Some SchnorrAll
  else if hash_ty =? 0x02 then Some SchnorrNone
  else if hash_ty =? 0x03 then Some SchnorrSingle
  else if hash_ty =? 0x81 then Some SchnorrAllPlusAnyoneCanPay
  else if hash_ty =? 0x82 then Some SchnorrNonePlusAnyoneCanPay
  else if hash_ty =? 0x83 then Some SchnorrSinglePlusAnyoneCanPay
  else None.

Definition schnorr_to_string (t : SchnorrSighashType) : string :=
  match t with
  | SchnorrDefault => "SIGHASH_DEFAULT"
  | SchnorrAll => "SIGHASH_ALL"
  | SchnorrNone => "SIGHASH_NONE"
  | SchnorrSingle => "SIGHASH_SINGLE"
  | SchnorrAllPlusAnyoneCanPay => "SIGHASH_ALL|SIGHASH_ANYONECANPAY"
  | SchnorrNonePlusAnyoneCanPay => "SIGHASH_NONE|SIGHASH_ANYONECANPAY"
  | SchnorrSinglePlusAnyoneCanPay => "SIGHASH_SINGLE|SIGHASH_ANYONECANPAY"
  | SchnorrReserved => "SIGHASH_RESERVED"
  end.

Definition schnorr_from_str (s : string) : option SchnorrSighashType :=
  if String.eqb s "SIGHASH_DEFAULT" then Some SchnorrDefault
  else if String.eqb s "SIGHASH_ALL" then Some SchnorrAll
  else if String.eqb s "SIGHASH_NONE" then Some SchnorrNone
  else if String.eqb s "SIGHASH_SINGLE" then Some SchnorrSingle
  else if String.eqb s "SIGHASH_ALL|SIGHASH_ANYONECANPAY" then Some SchnorrAllPlusAnyoneCanPay
  else if String.eqb s "SIGHASH_NONE|SIGHASH_ANYONECANPAY" then Some SchnorrNonePlusAnyoneCanPay
  else if String.eqb s "SIGHASH_SINGLE|SIGHASH_ANYONECANPAY" then Some SchnorrSinglePlusAnyoneCanPay
  else if String.eqb s "SIGHASH_RESERVED" then Some SchnorrReserved
  else None.

(** ** Prevouts and errors *)

Inductive sighash_error :=
| IndexOutOfInputsBounds (index inputs_size : nat)
| SingleWithoutCorrespondingOutput (index outputs_size : nat)
| PrevoutsSize
| PrevoutIndex
| PrevoutKind
| WrongAnnex.

Section code.
Context {P : Platform} {S : Secp} {H : Hashes}.

Inductive Prevouts :=
| One (index : nat) (prevout : TxOut)
| All (prevouts : list TxOut).

Definition check_all (p : Prevouts) (tx : Transaction) : result () sighash_error :=
  match p with
  | All prevouts => if (length prevouts =? length (input tx))%nat then Ok () else Err PrevoutsSize
  | One _ _ => Ok ()
  end.

Definition get_all (p : Prevouts) : result (list TxOut) sighash_error :=
  match p with
  | All prevouts => Ok prevouts
  | One _ _ => Err PrevoutKind
  end.

Definition get_prevout (p : Prevouts) (input_index : nat) : result TxOut sighash_error :=
  match p with
  | One index prevout => if (input_index =? index)%nat then Ok prevout else Err PrevoutIndex
  | All prevouts => ok_or (prevouts !! input_index) PrevoutIndex
  end.

(** [ScriptPath]. *)
Record ScriptPath := mkScriptPath
  { sp_script : Script; code_separator_pos : Z; leaf_version : Z }.

Definition ScriptPath_with_defaults (script : Script) : ScriptPath :=
  mkScriptPath script 0xffffffff 0xc4.

Definition leaf_hash (s : ScriptPath) : bytes :=
  tagged_hash (str "TapLeaf/elements") (emit_u8 (leaf_version s) ++ encode_vec_u8 (sp_script s)).

(** [Annex]: bytes that start with 0x50. *)
Definition Annex_new (annex_bytes : bytes) : result bytes sighash_error :=
  match annex_bytes with
  | Byte.x50 :: _ => Ok annex_bytes
  | _ => Err WrongAnnex
  end.

(** [taproot_cache_minimal_borrow]. *)
Definition compute_taproot (tx : Transaction) (prevouts : list TxOut) : TaprootCache :=
  mkTaproot
    (sha256 (concat (map (fun o => encode_vec_u8 (script_pubkey o)) prevouts)))
    (sha256 (concat (map (fun i => emit_u8 (outpoint_flag i)) (input tx))))
    (sha256 (concat (map (fun o => encode_Asset (asset o) ++ encode_Value (value o)) prevouts)))
    (sha256 (concat (map (fun i => encode_box_option (amount_rangeproof (in_witness i)) ++
                                   encode_box_option (inflation_keys_rangeproof (in_witness i)))
                       (input tx))))
    (sha256 (concat (map (fun o => encode_box_option (surjection_proof (out_witness o)) ++
                                   encode_box_option (rangeproof (out_witness o)))
                       (output tx)))).

Definition get_taproot (prevouts : list TxOut) (c : SighashCache) : TaprootCache * SighashCache :=
  match taproot_cache c with
  | Some tc => (tc, c)
  | None => let tc := compute_taproot (cache_tx c) prevouts in
            (tc, mkCache (cache_tx c) (common_cache c) (segwit_cache c) (Some tc))
  end.

(** Computations on the cache that may fail: what was cached before the failure stays. *)
Definition SM (A : Type) : Type := SighashCache -> result A sighash_error * SighashCache.
Definition sm_ret {A} (a : A) : SM A := fun c => (Ok a, c).
Definition sm_lift {A} (r : result A sighash_error) : SM A := fun c => (r, c).
Definition sm_bind {A B} (m : SM A) (k : A -> SM B) : SM B :=
  fun c => match m c with
           | (Ok a, c) => k a c
           | (Err e, c) => (Err e, c)
           end.
End code.

Notation "x <-- m ;; k" := (sm_bind m (fun x => k))
  (at level 100, m at next level, right associativity) : swk_scope.

Section signing.
Context {P : Platform} {S : Secp} {H : Hashes}.

(** A field of the common cache, and of the taproot cache, which needs all prevouts. *)
Definition from_common (f : CommonCache -> bytes) : SM bytes :=
  fun c => let '(cc, c) := get_common c in (Ok (f cc), c).
Definition from_taproot (prevouts : Prevouts) (f : TaprootCache -> bytes) : SM bytes :=
  ps <-- sm_lift (get_all prevouts);;
  fun c => let '(tc, c) := get_taproot ps c in (Ok (f tc), c).

(** The three parts of the message that depend on the sighash type. *)
Definition inputs_part (prevouts : Prevouts) : SM bytes :=
  flags <-- from_taproot prevouts tc_outpoint_flags;;
  outpoints <-- from_common cc_prevouts;;
  asset_amounts <-- from_taproot prevouts tc_asset_amounts;;
  script_pubkeys <-- from_taproot prevouts tc_script_pubkeys;;
  sequences <-- from_common cc_sequences;;
  issuances <-- from_common cc_issuances;;
  rangeproofs <-- from_taproot prevouts tc_issuance_rangeproofs;;
  sm_ret (flags ++ outpoints ++ asset_amounts ++ script_pubkeys ++ sequences ++ issuances ++
          rangeproofs).

Definition outputs_part (prevouts : Prevouts) : SM bytes :=
  outputs <-- from_common cc_outputs;;
  witnesses <-- from_taproot prevouts tc_output_witnesses;;
  sm_ret (outputs ++ witnesses).

Definition issuance_part (txin : TxIn) : bytes :=
  if has_issuance txin then
    encode_AssetIssuance (asset_issuance txin) ++
    sha256 (encode_box_option (amount_rangeproof (in_witness txin)) ++
            encode_box_option (inflation_keys_rangeproof (in_witness txin)))
  else emit_u8 0.

Definition this_input (tx : Transaction) (input_index : nat) (prevouts : Prevouts)
  : result bytes sighash_error :=
  let? txin := ok_or (input tx !! input_index)
                 (IndexOutOfInputsBounds input_index (length (input tx))) in
  let? previous_output' := get_prevout prevouts input_index in
  Ok (emit_u8 (outpoint_flag txin) ++ encode_OutPoint (previous_output txin) ++
      encode_Asset (asset previous_output') ++ encode_Value (value previous_output') ++
      encode_vec_u8 (script_pubkey previous_output') ++ encode_Sequence (sequence txin) ++
      issuance_part txin).

Definition single_part (tx : Transaction) (input_index : nat) : result bytes sighash_error :=
  let? out := ok_or (output tx !! input_index)
                (SingleWithoutCorrespondingOutput input_index (length (output tx))) in
  Ok (sha256 (encode_TxOut out) ++ sha256 (encode_TxOutWitness (out_witness out))).

(** [spend_type]: the presence of an annex and of a script path. *)
Definition spend_type (annex : option bytes) (leaf : option (bytes * Z)) : Z :=
  Z.lor (if annex then 1 else 0) (if leaf then 2 else 0).

Definition annex_part (annex : option bytes) : bytes :=
  match annex with Some a => sha256 (encode_vec_u8 a) | None => [] end.
Definition leaf_part (leaf : option (bytes * Z)) : bytes :=
  match leaf with
  | Some (hash, code_separator_pos) => hash ++ emit_u8 0 ++ emit_u32 code_separator_pos
  | None => []
  end.

(** [taproot_encode_signing_data_to]: the bytes written, when nothing fails. *)
Definition taproot_signing_data (input_index : nat) (prevouts : Prevouts)
    (annex : option bytes) (leaf : option (bytes * Z)) (sighash_type : SchnorrSighashType)
    (genesis_hash : bytes) : SM bytes :=
  fun c =>
  let tx := cache_tx c in
  let '(sighash, anyone_can_pay) := schnorr_split sighash_type in
  (_ <-- sm_lift (check_all prevouts tx);;
   ins <-- (if negb anyone_can_pay then inputs_part prevouts else sm_ret []);;
   outs <-- (if bool_decide (sighash <> SchnorrNone) && bool_decide (sighash <> SchnorrSingle)
             then outputs_part prevouts else sm_ret []);;
   this <-- (if anyone_can_pay : bool then sm_lift (this_input tx input_index prevouts)
             else sm_ret (emit_u32 (wrap_u32 (Z.of_nat input_index))));;
   single <-- (if bool_decide (sighash = SchnorrSingle) then sm_lift (single_part tx input_index)
               else sm_ret []);;
   sm_ret (genesis_hash ++ genesis_hash ++ emit_u8 (schnorr_as_u8 sighash_type) ++
           emit_u32 (version tx) ++ encode_LockTime (lock_time tx) ++ ins ++ outs ++
           emit_u8 (spend_type annex leaf) ++ this ++ annex_part annex ++ single ++
           leaf_part leaf)) c.

(** [taproot_sighash] and its two short forms. *)
Definition taproot_sighash (input_index : nat) (prevouts : Prevouts)
    (annex : option bytes) (leaf : option (bytes * Z)) (sighash_type : SchnorrSighashType)
    (genesis_hash : bytes) : SM bytes :=
  data <-- taproot_signing_data input_index prevouts annex leaf sighash_type genesis_hash;;
  sm_ret (tagged_hash (str "TapSighash/elements") data).

Definition taproot_key_spend_signature_hash (input_index : nat) (prevouts : Prevouts)
    (sighash_type : SchnorrSighashType) (genesis_hash : bytes) : SM bytes :=
  data <-- taproot_signing_data input_index prevouts None None sighash_type genesis_hash;;
  sm_ret (tagged_hash (str "TapSighash/elements") data).

Definition taproot_script_spend_signature_hash (input_index : nat) (prevouts : Prevouts)
    (leaf : bytes) (sighash_type : SchnorrSighashType) (genesis_hash : bytes) : SM bytes :=
  data <-- taproot_signing_data input_index prevouts None (Some (leaf, 0xffffffff)) sighash_type
             genesis_hash;;
  sm_ret (tagged_hash (str "TapSighash/elements") data).
End signing.

(** ** The message as a function of the transaction *)

Section reference.
Context {P : Platform} {S : Secp} {H : Hashes}.

(** BIP 341 with the Elements additions, computed from the transaction and the spent
    outputs alone. *)
Definition bip341_data (tx : Transaction) (idx : nat) (pv : Prevouts) (annex : option bytes)
    (leaf : option (bytes * Z)) (t : SchnorrSighashType) (genesis : bytes)
  : result bytes sighash_error :=
  let cc := compute_common tx in
  let sighash := fst (schnorr_split t) in
  let acp := snd (schnorr_split t) in
  let all := bool_decide (sighash <> SchnorrNone) && bool_decide (sighash <> SchnorrSingle) in
  let? _ := check_all pv tx in
  let? ins := if acp then Ok [] else
    let? ps := get_all pv in
    let tc := compute_taproot tx ps in
    Ok (tc_outpoint_flags tc ++ cc_prevouts cc ++ tc_asset_amounts tc ++ tc_script_pubkeys tc ++
        cc_sequences cc ++ cc_issuances cc ++ tc_issuance_rangeproofs tc) in
  let? outs := if all then
      let? ps := get_all pv in Ok (cc_outputs cc ++ tc_output_witnesses (compute_taproot tx ps))
    else Ok [] in
  let? this := if acp then this_input tx idx pv else Ok (emit_u32 (wrap_u32 (Z.of_nat idx))) in
  let? single := if bool_decide (sighash = SchnorrSingle) then single_part tx idx else Ok [] in
  Ok (genesis ++ genesis ++ emit_u8 (schnorr_as_u8 t) ++ emit_u32 (version tx) ++
      encode_LockTime (lock_time tx) ++ ins ++ outs ++ emit_u8 (spend_type annex leaf) ++ this ++
      annex_part annex ++ single ++ leaf_part leaf).

(** The cache agrees with its transaction and the spent outputs [ps]. *)
Definition tap_ok (ps : list TxOut) (c : SighashCache) : Prop :=
  cache_ok c /\ forall tc, taproot_cache c = Some tc -> tc = compute_taproot (cache_tx c) ps.

(** A computation on the cache that only depends on the transaction. *)
Definition pure_on {A} (ps : list TxOut) (m : SM A) (r : Transaction -> result A sighash_error)
  : Prop :=
  forall c, tap_ok ps c -> exists c', m c = (r (cache_tx c), c') /\ tap_ok ps c' /\
    cache_tx c' = cache_tx c.

Lemma pure_lift {A} ps (r : result A sighash_error) : pure_on ps (sm_lift r) (fun _ => r).
Proof. intros c Hc. by exists c. Qed.

Lemma pure_ret {A} ps (a : A) : pure_on ps (sm_ret a) (fun _ => Ok a).
Proof. apply pure_lift. Qed.

Lemma pure_bind {A B} ps (m : SM A) (k : A -> SM B) r s :
  pure_on ps m r -> (forall a, pure_on ps (k a) (s a)) ->
  pure_on ps (sm_bind m k) (fun tx => let? a := r tx in s a tx).
Proof.
  intros Hm Hk c Hc. destruct (Hm c Hc) as (c1 & E1 & Hc1 & Ht1).
  unfold sm_bind. rewrite E1. destruct (r (cache_tx c)) as [a|e]; [|by exists c1].
  destruct (Hk a c1 Hc1) as (c2 & E2 & Hc2 & Ht2). exists c2. rewrite E2. simpl.
  by rewrite Ht2, Ht1.
Qed.

Lemma pure_common ps f : pure_on ps (from_common f) (fun tx => Ok (f (compute_common tx))).
Proof.
  intros c [Hc Ht]. unfold from_common. destruct (get_common c) as [cc c1] eqn:E.
  destruct (get_common_ok _ _ _ Hc E) as (-> & Hc1 & Htx & _). exists c1. split; [done|].
  split; [|done]. split; [done|].
  assert (Es : taproot_cache c1 = taproot_cache c).
  { revert E. unfold get_common. destruct (common_cache c); intros [=]; by subst. }
  rewrite Htx, Es. exact Ht.
Qed.

Lemma pure_taproot ps pv f :
  (forall l, pv = All l -> l = ps) ->
  pure_on ps (from_taproot pv f)
    (fun tx => let? l := get_all pv in Ok (f (compute_taproot tx l))).
Proof.
  intros Hpv c [Hc Ht]. destruct pv as [i o|l]; [by exists c|].
  rewrite (Hpv l eq_refl). unfold from_taproot, sm_bind, get_taproot. simpl.
  destruct (taproot_cache c) as [tc|] eqn:E.
  - exists c. rewrite (Ht tc eq_refl). split; [done|]. split; [|done]. split; [done|].
    by rewrite E.
  - eexists. split; [reflexivity|]. split; [|done]. split; [exact Hc|]. simpl. intros ? [=]. by subst.
Qed.

Lemma pure_if {A} ps (b : bool) (m m' : SM A) r r' :
  pure_on ps m r -> pure_on ps m' r' ->
  pure_on ps (if b then m else m') (fun tx => if b then r tx else r' tx).
Proof. by destruct b. Qed.

Lemma pure_ext {A} ps (m : SM A) r r' :
  (forall tx, r tx = r' tx) -> pure_on ps m r -> pure_on ps m r'.
Proof. intros E Hm c Hc. rewrite <-E. by apply Hm. Qed.

Lemma rbind_assoc {A B C E} (m : result A E) (k : A -> result B E) (h : B -> result C E) :
  rbind (rbind m k) h = rbind m (fun a => rbind (k a) h).
Proof. by destruct m. Qed.

Lemma pure_inputs ps pv :
  (forall l, pv = All l -> l = ps) ->
  pure_on ps (inputs_part pv) (fun tx =>
    let? l := get_all pv in
    let tc := compute_taproot tx l in
    let cc := compute_common tx in
    Ok (tc_outpoint_flags tc ++ cc_prevouts cc ++ tc_asset_amounts tc ++ tc_script_pubkeys tc ++
        cc_sequences cc ++ cc_issuances cc ++ tc_issuance_rangeproofs tc)).
Proof.
  intros Hpv. unfold inputs_part.
  eapply pure_ext; [|repeat first
    [eapply pure_bind; [apply pure_taproot, Hpv|intros ?]
    |eapply pure_bind; [apply pure_common|intros ?]
    |apply pure_ret]].
  intros tx. by destruct pv.
Qed.

Lemma pure_outputs ps pv :
  (forall l, pv = All l -> l = ps) ->
  pure_on ps (outputs_part pv) (fun tx =>
    let? l := get_all pv in
    Ok (cc_outputs (compute_common tx) ++ tc_output_witnesses (compute_taproot tx l))).
Proof.
  intros Hpv. unfold outputs_part.
  eapply pure_ext; [|eapply pure_bind; [apply pure_common|intros ?];
    eapply pure_bind; [apply pure_taproot, Hpv|intros ?]; apply pure_ret].
  intros tx. by destruct pv.
Qed.

Lemma pure_signing_data ps idx pv annex leaf t genesis :
  (forall l, pv = All l -> l = ps) ->
  pure_on ps (taproot_signing_data idx pv annex leaf t genesis)
    (fun tx => bip341_data tx idx pv annex leaf t genesis).
Proof.
  intros Hpv c Hc. unfold taproot_signing_data, bip341_data.
  destruct (schnorr_split t) as [sh acp]. cbn [fst snd].
  set (m := sm_bind (sm_lift (check_all pv (cache_tx c))) _).
  assert (Hm : pure_on ps m (fun tx0 =>
    let tx := cache_tx c in
    let? _ := check_all pv tx in
    let? ins := if negb acp then let? l := get_all pv in
      let tc := compute_taproot tx0 l in
      let cc := compute_common tx0 in
      Ok (tc_outpoint_flags tc ++ cc_prevouts cc ++ tc_asset_amounts tc ++ tc_script_pubkeys tc ++
          cc_sequences cc ++ cc_issuances cc ++ tc_issuance_rangeproofs tc) else Ok [] in
    let? outs := if bool_decide (sh <> SchnorrNone) && bool_decide (sh <> SchnorrSingle) then
      let? l := get_all pv in
      Ok (cc_outputs (compute_common tx0) ++ tc_output_witnesses (compute_taproot tx0 l))
      else Ok [] in
    let? this := if acp then this_input tx idx pv else Ok (emit_u32 (wrap_u32 (Z.of_nat idx))) in
    let? single := if bool_decide (sh = SchnorrSingle) then single_part tx idx else Ok [] in
    Ok (genesis ++ genesis ++ emit_u8 (schnorr_as_u8 t) ++ emit_u32 (version tx) ++
        encode_LockTime (lock_time tx) ++ ins ++ outs ++ emit_u8 (spend_type annex leaf) ++ this ++
        annex_part annex ++ single ++ leaf_part leaf))).
  { unfold m. repeat first
      [apply (pure_lift ps)|apply pure_ret|apply pure_inputs, Hpv|apply pure_outputs, Hpv
      |apply pure_if|apply pure_bind; [|intros ?]]. }
  destruct (Hm c Hc) as (c' & E & Hc' & Ht). exists c'. split; [|done]. rewrite E.
  by destruct acp.
Qed.

(** ** What the message depends on *)

(** An input without its script witness, the only thing [witness_mut] reaches. *)
Definition clear_script_witness (i : TxIn) : TxIn :=
  let w := in_witness i in
  set_in_witness i (mkTxInWitness (amount_rangeproof w) (inflation_keys_rangeproof w) []
                      (pegin_witness w)).

Definition signed_part (tx : Transaction) : Transaction :=
  mkTransaction (version tx) (lock_time tx) (map clear_script_witness (input tx)) (output tx).

Lemma compute_common_signed tx : compute_common (signed_part tx) = compute_common tx.
Proof. unfold compute_common, signed_part. simpl. by rewrite !map_map. Qed.

Lemma compute_taproot_signed tx ps : compute_taproot (signed_part tx) ps = compute_taproot tx ps.
Proof. unfold compute_taproot, signed_part. simpl. by rewrite !map_map. Qed.

Lemma bip341_signed tx idx pv annex leaf t genesis :
  bip341_data (signed_part tx) idx pv annex leaf t genesis =
  bip341_data tx idx pv annex leaf t genesis.
Proof.
  unfold bip341_data. rewrite compute_common_signed.
  assert (Ec : check_all pv (signed_part tx) = check_all pv tx).
  { unfold check_all, signed_part. simpl. by rewrite length_map. }
  assert (Et : this_input (signed_part tx) idx pv = this_input tx idx pv).
  { unfold this_input, signed_part. simpl. rewrite length_map.
    change (map ?f ?l !! idx) with ((f <$> l) !! idx). rewrite list_lookup_fmap.
    by destruct (input tx !! idx). }
  rewrite Ec, Et. destruct (check_all pv tx); [|done].
  destruct pv; [done|]. cbn [rbind get_all]. by rewrite compute_taproot_signed.
Qed.

Lemma witness_mut_signed ps c i f c' :
  tap_ok ps c -> witness_mut c i f = Some c' ->
  tap_ok ps c' /\ signed_part (cache_tx c') = signed_part (cache_tx c).
Proof.
  intros [Hc Ht] E. destruct (witness_mut_ok _ _ _ _ Hc E) as [Hc' _].
  assert (Es : signed_part (cache_tx c') = signed_part (cache_tx c) /\
               taproot_cache c' = taproot_cache c).
  { apply bind_Some in E as (x & Hx & [= <-]). split; [|done].
    unfold signed_part. simpl. f_equal. change (map ?g ?l) with (g <$> l).
    rewrite list_fmap_insert. apply list_insert_id. by rewrite list_lookup_fmap, Hx. }
  destruct Es as [Es Etc]. split; [|done]. split; [done|].
  rewrite Etc. intros tc Htc. rewrite (Ht tc Htc).
  by rewrite <-compute_taproot_signed, <-Es, compute_taproot_signed.
Qed.

(** ** Interleavings on one cache: segwit and taproot digests, failing ones included, and
    witness edits; every call is given the same spent outputs, or a single one. *)
Inductive tap_step (ps : list TxOut) : SighashCache -> SighashCache -> Prop :=
| tap_step_ecdsa c c' : cache_step c c' -> tap_step ps c c'
| tap_step_taproot c c' idx pv annex leaf t genesis r :
    (forall l, pv = All l -> l = ps) ->
    taproot_sighash idx pv annex leaf t genesis c = (r, c') -> tap_step ps c c'.

Lemma segwit_keeps_taproot c i s v t h c' :
  segwitv0_sighash c i s v t = Some (h, c') -> taproot_cache c' = taproot_cache c.
Proof.
  assert (Hg : forall c, taproot_cache (snd (get_segwit c)) = taproot_cache c).
  { intros d. unfold get_segwit, get_common. by destruct (segwit_cache d), (common_cache d). }
  unfold segwitv0_sighash, segwitv0_signing_data.
  intros ([d c1] & E & [= _ <-])%bind_Some. revert E.
  destruct (split_anyonecanpay_flag t) as [sh acp].
  set (all := bool_decide _ && bool_decide _).
  pose proof (Hg c) as G0. destruct (get_segwit c) as [sc0 d0] eqn:E0.
  pose proof (get_segwit_twice _ _ _ E0) as E1. simpl in G0.
  destruct acp, all; cbn beta iota zeta delta [negb andb]; rewrite ?E0, ?E1;
    intros (x & _ & E)%bind_Some; revert E; rewrite ?E0, ?E1; simpl;
    repeat (case_match; simplify_eq/=); intros; simplify_eq/=; done.
Qed.

Lemma tap_steps_ok ps c c' :
  rtc (tap_step ps) c c' -> tap_ok ps c ->
  tap_ok ps c' /\ signed_part (cache_tx c') = signed_part (cache_tx c).
Proof.
  induction 1 as [c|c c1 c' Hstep _ IH]; intros Hok; [done|].
  assert (Hok1 : tap_ok ps c1 /\ signed_part (cache_tx c1) = signed_part (cache_tx c)).
  { destruct Hstep as [c c1 Hstep|c c1 idx pv annex leaf t genesis r Hpv E].
    1: destruct Hstep as [c c1 i s v t h E|c c1 i f E].
    - pose proof (segwit_keeps_taproot _ _ _ _ _ _ _ E) as Ek. revert E. unfold segwitv0_sighash.
      intros ([d c2] & E & [= _ <-])%bind_Some.
      destruct (segwitv0_data_pure c i s v t (proj1 Hok)) as (c3 & Hok3 & Ht & E').
      rewrite E' in E. apply fmap_Some in E as (? & _ & [= -> ->]). rewrite Ht.
      split; [|done]. split; [done|]. rewrite Ek, Ht. apply Hok.
    - by apply (witness_mut_signed ps c i f).
    - destruct (pure_signing_data ps idx pv annex leaf t genesis Hpv c Hok) as (c2 & E2 & Hc2 & Ht2).
      revert E. unfold taproot_sighash, sm_bind. rewrite E2.
      destruct (bip341_data _ _ _ _ _ _ _); intros [= _ <-]; by rewrite Ht2. }
  destruct Hok1 as [Hok1 <-]. by apply IH.
Qed.
End reference.

(** ** Serialized signatures *)

(** [secp256k1_zkp::schnorr::Signature]: any 64 bytes. *)
Class SchnorrEnv :=
  { SchnorrSignature : ext_type;
    schnorr_length (s : SchnorrSignature) : length (ext_ser s) = 64%nat;
    schnorr_strict bs (s : SchnorrSignature) : ext_parse bs = Some s -> ext_ser s = bs }.

Section schnorr.
Context {E : SchnorrEnv}.

Record SchnorrSig := mkSchnorrSig { sig : SchnorrSignature; hash_ty : SchnorrSighashType }.

Inductive SchnorrSigError :=
| InvalidSighashType (t : Z)
| InvalidSchnorrSig.

Definition SCHNORR_SIGNATURE_SIZE : nat := 64.

Definition SchnorrSig_from_slice (sl : bytes) : result SchnorrSig SchnorrSigError :=
  if (length sl =? SCHNORR_SIGNATURE_SIZE)%nat then
    let? sig := ok_or (ext_parse sl) InvalidSchnorrSig in Ok (mkSchnorrSig sig SchnorrDefault)
  else
    let? t := ok_or (last sl) InvalidSchnorrSig in
    let? hash_ty := ok_or (schnorr_from_u8 (b2z t)) (InvalidSighashType (b2z t)) in
    let? sig := ok_or (ext_parse (removelast sl)) InvalidSchnorrSig in
    Ok (mkSchnorrSig sig hash_ty).

Definition SchnorrSig_to_vec (s : SchnorrSig) : bytes :=
  ext_ser (sig s) ++
  match hash_ty s with SchnorrDefault => [] | t => emit_u8 (schnorr_as_u8 t) end.

Lemma schnorr_from_u8_spec z t :
  schnorr_from_u8 z = Some t <-> z = schnorr_as_u8 t /\ t <> SchnorrReserved.
Proof.
  unfold schnorr_from_u8.
  repeat match goal with |- context [if ?b then _ else _] => destruct b eqn:?Eb end;
    rewrite ?Z.eqb_eq, ?Z.eqb_neq in *;
    (split; [intros [= <-]; split; [done|discriminate]|]) || (split; [done|]);
    intros [-> Hr]; destruct t; simpl in *; congruence.
Qed.
End schnorr.

(** ** What a message commits to *)

(** Equal concatenations of self-delimiting pieces have equal pieces, up to what the
    pieces determine. *)
Lemma concat_pieces {A B} (enc : A -> bytes) (f : A -> B) (wf : A -> Prop) :
  (forall a b r s, wf a -> wf b -> enc a ++ r = enc b ++ s -> f a = f b /\ r = s) ->
  (forall a, wf a -> enc a <> []) ->
  forall l l', Forall wf l -> Forall wf l' ->
  concat (map enc l) = concat (map enc l') -> map f l = map f l'.
Proof.
  intros Hinj Hne. induction l as [|a l IH]; intros [|b l'] Hl Hl' E; simpl in *;
    rewrite ?Forall_cons in *; [done|..].
  - destruct Hl' as [Hb _]. apply Hne in Hb. by destruct (enc b).
  - destruct Hl as [Ha _]. apply Hne in Ha. by destruct (enc a).
  - destruct Hl as [Ha Hl], Hl' as [Hb Hl'].
    apply Hinj in E as [-> E]; [|done..]. f_equal. by apply IH.
Qed.

Lemma codec_nonempty {A} {enc : A -> bytes} {dec wf} e :
  codec_ok enc dec wf -> dec [] = Err e -> forall a, wf a -> enc a <> [].
Proof.
  intros Hc He a Ha E. pose proof (codec_last Hc a Ha) as D. rewrite E, He in D. done.
Qed.

Section commitment.
Context {P : Platform} {S : Secp} {H : Hashes}.

(** The strings that a [SIGHASH_DEFAULT] message contains the hashes of. *)
Definition hashed_parts (tx : Transaction) (ps : list TxOut) (annex : option bytes) : list bytes :=
  [ concat (map (fun i => emit_u8 (outpoint_flag i)) (input tx));
    concat (map (fun i => encode_OutPoint (previous_output i)) (input tx));
    concat (map (fun o => encode_Asset (asset o) ++ encode_Value (value o)) ps);
    concat (map (fun o => encode_vec_u8 (script_pubkey o)) ps);
    concat (map (fun i => encode_Sequence (sequence i)) (input tx));
    concat (map (fun i => if has_issuance i then encode_AssetIssuance (asset_issuance i)
                          else emit_u8 0) (input tx));
    concat (map (fun i => encode_box_option (amount_rangeproof (in_witness i)) ++
                          encode_box_option (inflation_keys_rangeproof (in_witness i)))
              (input tx));
    concat (map encode_TxOut (output tx));
    concat (map (fun o => encode_box_option (surjection_proof (out_witness o)) ++
                          encode_box_option (rangeproof (out_witness o))) (output tx));
    match annex with Some a => encode_vec_u8 a | None => [] end ].

(** No two different strings at the same place have the same hash. *)
Definition no_collision : list bytes -> list bytes -> Prop :=
  Forall2 (fun a b => sha256 a = sha256 b -> a = b).

(** Everything of an input but its script signature, script and peg-in witnesses. *)
Definition input_signed (i : TxIn) :=
  (input_commitment i, amount_rangeproof (in_witness i), inflation_keys_rangeproof (in_witness i)).
Definition spent_signed (o : TxOut) : Asset * Value * Script := (asset o, value o, script_pubkey o).

Definition prevout_wf (o : TxOut) : Prop :=
  Asset_wf (asset o) /\ Value_wf (value o) /\ vec_u8_wf (script_pubkey o).

Definition leaf_wf (leaf : option (bytes * Z)) : Prop :=
  match leaf with Some (h, p) => length h = 32%nat /\ is_u32 p | None => True end.
Definition annex_wf (annex : option bytes) : Prop :=
  match annex with Some a => vec_u8_wf a | None => True end.

Definition in_wf (i : TxIn) : Prop := TxIn_base_wf i /\ TxInWitness_wf (in_witness i).
Definition out_wf (o : TxOut) : Prop := TxOut_base_wf o /\ TxOutWitness_wf (out_witness o).

Lemma map_pair {A B C} (f : A -> B) (g : A -> C) l l' :
  map f l = map f l' -> map g l = map g l' ->
  map (fun x => (f x, g x)) l = map (fun x => (f x, g x)) l'.
Proof.
  revert l'. induction l as [|a l IH]; intros [|b l']; try done. simpl.
  intros [= -> Ef] [= -> Eg]. f_equal. by apply IH.
Qed.

Lemma in_outpoint_wf i : in_wf i -> OutPoint_wf (previous_output i).
Proof. intros [(Ht & Hv & _) _]. split; [done|]. destruct Hv as [(-> & _)|[? _]]; lia. Qed.

Lemma flags_part l l' :
  concat (map (fun i => emit_u8 (outpoint_flag i)) l) =
  concat (map (fun i => emit_u8 (outpoint_flag i)) l') ->
  map is_pegin l = map is_pegin l' /\ map has_issuance l = map has_issuance l'.
Proof.
  revert l'. induction l as [|i l IH]; intros [|j l']; try done.
  cbn [map concat]. intros E. apply (codec_inj u8_codec) in E as [Ef E].
  - destruct (IH _ E) as [-> ->]. revert Ef. unfold outpoint_flag.
    by destruct (is_pegin i), (has_issuance i), (is_pegin j), (has_issuance j).
  - unfold outpoint_flag. destruct (is_pegin i), (has_issuance i); vm_compute; by split.
  - unfold outpoint_flag. destruct (is_pegin j), (has_issuance j); vm_compute; by split.
Qed.

Lemma issuances_part l l' :
  Forall in_wf l -> Forall in_wf l' -> map has_issuance l = map has_issuance l' ->
  concat (map (fun i => if has_issuance i then encode_AssetIssuance (asset_issuance i)
                        else emit_u8 0) l) =
  concat (map (fun i => if has_issuance i then encode_AssetIssuance (asset_issuance i)
                        else emit_u8 0) l') ->
  map asset_issuance l = map asset_issuance l'.
Proof.
  revert l'. induction l as [|i l IH]; intros [|j l'] Hl Hl'; try done.
  apply Forall_cons in Hl as [[(_ & _ & _ & _ & Hi) _] Hl].
  apply Forall_cons in Hl' as [[(_ & _ & _ & _ & Hj) _] Hl'].
  cbn [map concat]. intros [= Eh Em]. rewrite <-Eh in *. destruct (has_issuance i).
  - intros E. apply (codec_inj AssetIssuance_codec) in E as [-> E]; [|done..].
    f_equal. by apply IH.
  - intros E. apply app_inj_1 in E as [_ E]; [|done]. rewrite Hi, Hj. f_equal. by apply IH.
Qed.

Lemma pieces_box_options {A} {T T' : ext_type} (f : A -> option T) (g : A -> option T')
    (dec : Reader (option T)) (dec' : Reader (option T')) (l l' : list A) :
  codec_ok encode_box_option dec box_option_wf -> codec_ok encode_box_option dec' box_option_wf ->
  (exists e, dec [] = Err e) ->
  Forall (fun a => box_option_wf (f a) /\ box_option_wf (g a)) l ->
  Forall (fun a => box_option_wf (f a) /\ box_option_wf (g a)) l' ->
  concat (map (fun a => encode_box_option (f a) ++ encode_box_option (g a)) l) =
  concat (map (fun a => encode_box_option (f a) ++ encode_box_option (g a)) l') ->
  map (fun a => (f a, g a)) l = map (fun a => (f a, g a)) l'.
Proof.
  intros Hf Hg [e He]. apply concat_pieces.
  - intros a b r s [Hfa Hga] [Hfb Hgb]. rewrite <-!app_assoc. intros E.
    apply (codec_inj Hf) in E as [-> E]; [|done..].
    by apply (codec_inj Hg) in E as [-> ->].
  - intros a [Ha _] E. apply app_eq_nil in E as [E _]. by eapply (codec_nonempty e Hf He (f a)).
Qed.

Lemma outputs_part_inj l l' :
  Forall out_wf l -> Forall out_wf l' ->
  concat (map encode_TxOut l) = concat (map encode_TxOut l') ->
  map strip_out l = map strip_out l'.
Proof.
  apply concat_pieces.
  - intros [? ? ? ? ?] [? ? ? ? ?] r s [(Ha & Hv & Hn & Hs) _] [(Ha' & Hv' & Hn' & Hs') _].
    unfold encode_TxOut, strip_out, set_out_witness. simpl in *. rewrite <-!app_assoc. intros E.
    apply (codec_inj Asset_codec) in E as [-> E]; [|done..].
    apply (codec_inj Value_codec) in E as [-> E]; [|done..].
    apply (codec_inj Nonce_codec) in E as [-> E]; [|done..].
    by apply (codec_inj vec_u8_codec) in E as [-> ->].
  - intros o [(Ha & _) _] E. apply app_eq_nil in E as [E _].
    by eapply (codec_nonempty _ Asset_codec eq_refl (asset o)).
Qed.

Lemma spent_part ps ps' :
  Forall prevout_wf ps -> Forall prevout_wf ps' ->
  concat (map (fun o => encode_Asset (asset o) ++ encode_Value (value o)) ps) =
  concat (map (fun o => encode_Asset (asset o) ++ encode_Value (value o)) ps') ->
  concat (map (fun o => encode_vec_u8 (script_pubkey o)) ps) =
  concat (map (fun o => encode_vec_u8 (script_pubkey o)) ps') ->
  map spent_signed ps = map spent_signed ps'.
Proof.
  intros Hp Hp' E1 E2. apply (map_pair (fun o => (asset o, value o)) script_pubkey).
  - revert ps ps' Hp Hp' E1 E2. intros ps ps' Hp Hp' E1 _. revert ps ps' Hp Hp' E1.
    apply concat_pieces.
    + intros a b r s (Ha & Hv & _) (Ha' & Hv' & _). rewrite <-!app_assoc. intros E.
      apply (codec_inj Asset_codec) in E as [-> E]; [|done..].
      by apply (codec_inj Value_codec) in E as [-> ->].
    + intros o (Ha & _) E. apply app_eq_nil in E as [E _].
      by eapply (codec_nonempty _ Asset_codec eq_refl (asset o)).
  - revert E2. revert ps ps' Hp Hp' E1. intros ps ps' Hp Hp' _. revert ps ps' Hp Hp'.
    apply (concat_pieces _ script_pubkey prevout_wf).
    + intros a b r s (_ & _ & Hs) (_ & _ & Hs') E. by apply (codec_inj vec_u8_codec) in E.
    + intros o (_ & _ & Hs). by apply (codec_nonempty _ vec_u8_codec eq_refl).
Qed.

Lemma inputs_part_inj l l' :
  Forall in_wf l -> Forall in_wf l' ->
  concat (map (fun i => emit_u8 (outpoint_flag i)) l) =
  concat (map (fun i => emit_u8 (outpoint_flag i)) l') ->
  concat (map (fun i => encode_OutPoint (previous_output i)) l) =
  concat (map (fun i => encode_OutPoint (previous_output i)) l') ->
  concat (map (fun i => encode_Sequence (sequence i)) l) =
  concat (map (fun i => encode_Sequence (sequence i)) l') ->
  concat (map (fun i => if has_issuance i then encode_AssetIssuance (asset_issuance i)
                        else emit_u8 0) l) =
  concat (map (fun i => if has_issuance i then encode_AssetIssuance (asset_issuance i)
                        else emit_u8 0) l') ->
  concat (map (fun i => encode_box_option (amount_rangeproof (in_witness i)) ++
                        encode_box_option (inflation_keys_rangeproof (in_witness i))) l) =
  concat (map (fun i => encode_box_option (amount_rangeproof (in_witness i)) ++
                        encode_box_option (inflation_keys_rangeproof (in_witness i))) l') ->
  map input_signed l = map input_signed l'.
Proof.
  intros Hl Hl' Ef Eo Es Ei Er. apply flags_part in Ef as [Ep Eh].
  apply issuances_part in Ei; [|done..].
  apply (concat_pieces _ previous_output in_wf) in Eo; [|..|done|done].
  2: { intros a b r s Ha Hb E. by apply (codec_inj OutPoint_codec) in E; [|apply in_outpoint_wf..]. }
  2: { intros a Ha. by apply (codec_nonempty _ OutPoint_codec eq_refl), in_outpoint_wf. }
  apply (concat_pieces _ sequence in_wf) in Es; [|..|done|done].
  2: { intros a b r s [(_&_&_&Ha&_) _] [(_&_&_&Hb&_) _] E.
       by apply (codec_inj Sequence_codec) in E. }
  2: { intros a [(_&_&_&Ha&_) _]. by apply (codec_nonempty _ Sequence_codec eq_refl). }
  apply (pieces_box_options _ _ _ _ _ _ rangeproof_codec rangeproof_codec) in Er.
  2: by eexists.
  2, 3: eapply Forall_impl; [eassumption|]; intros i [_ (? & ? & _)]; by split.
  pose proof (map_pair _ _ _ _ (map_pair _ _ _ _ (map_pair _ _ _ _ (map_pair _ _ _ _ Eo Ep) Es) Ei) Er)
    as E.
  apply (f_equal (map (fun '(c, (a, b)) => (c, a, b)))) in E. rewrite !map_map in E. exact E.
Qed.
End commitment.

Section layout.
Context {P : Platform} {S : Secp} {H : Hashes}.

Definition signs_all (t : SchnorrSighashType) : Prop := t = SchnorrDefault \/ t = SchnorrAll.

(** The message that signs everything, with its hashed strings named. *)
Lemma bip341_all_layout tx idx ps annex leaf t g d :
  signs_all t -> bip341_data tx idx (All ps) annex leaf t g = Ok d ->
  let hs := take 9 (hashed_parts tx ps annex) in
  let ax := match annex with Some a => encode_vec_u8 a | None => [] end in
    d = g ++ g ++ emit_u8 (schnorr_as_u8 t) ++ emit_u32 (version tx) ++
        encode_LockTime (lock_time tx) ++ concat (map sha256 hs) ++
        emit_u8 (spend_type annex leaf) ++ emit_u32 (wrap_u32 (Z.of_nat idx)) ++
        (if annex then sha256 ax else []) ++ leaf_part leaf.
Proof.
  intros Ht. unfold bip341_data, check_all.
  assert (Es : schnorr_split t = (t, false)) by (by destruct Ht as [-> | ->]).
  rewrite Es. cbn [fst snd].
  assert (E1 : bool_decide (t <> SchnorrNone) && bool_decide (t <> SchnorrSingle) = true)
    by (by destruct Ht as [-> | ->]).
  assert (E2 : bool_decide (t = SchnorrSingle) = false) by (by destruct Ht as [-> | ->]).
  rewrite E1, E2. destruct (length ps =? length (input tx))%nat; [|done].
  cbn [rbind get_all]. intros [= <-].
  unfold hashed_parts. cbn [take map concat]. rewrite !app_nil_r, <-!app_assoc.
  by destruct annex.
Qed.

Lemma concat_hashes l l' r r' :
  length l = length l' -> concat (map sha256 l) ++ r = concat (map sha256 l') ++ r' ->
  map sha256 l = map sha256 l' /\ r = r'.
Proof.
  revert l'. induction l as [|a l IH]; intros [|b l'] Hl; try done. cbn [map concat].
  rewrite <-!app_assoc. intros E. injection Hl as Hl.
  apply app_inj_1 in E as [-> E]; [|by rewrite !sha256_length].
  by destruct (IH l' Hl E) as [-> ->].
Qed.

Lemma no_collision_eq hs hs' :
  no_collision hs hs' -> map sha256 hs = map sha256 hs' -> hs = hs'.
Proof.
  induction 1 as [|a b l l' Hab _ IH]; [done|]. intros [= E El]. rewrite (Hab E). f_equal. auto.
Qed.

Lemma spend_type_inj annex leaf annex' leaf' :
  spend_type annex leaf = spend_type annex' leaf' ->
  (is_none annex = is_none annex') /\ (is_none leaf = is_none leaf').
Proof. by destruct annex, annex', leaf, leaf'. Qed.

Lemma tail_inj (annex annex' : option bytes) (leaf leaf' : option (bytes * Z)) (ax ax' : bytes) :
  leaf_wf leaf -> leaf_wf leaf' -> is_none annex = is_none annex' -> is_none leaf = is_none leaf' ->
  (if annex then sha256 ax else []) ++ leaf_part leaf =
  (if annex' then sha256 ax' else []) ++ leaf_part leaf' ->
  leaf = leaf' /\ (annex <> None -> sha256 ax = sha256 ax').
Proof.
  intros Hl Hl' Ea El E.
  assert (E' : leaf_part leaf = leaf_part leaf' /\ (annex <> None -> sha256 ax = sha256 ax')).
  { destruct annex, annex'; try done. by apply app_inj_1 in E as [-> ->]; [|rewrite !sha256_length]. }
  destruct E' as [E' Ex]. split; [|done].
  destruct leaf as [[h p]|], leaf' as [[h' p']|]; try done. destruct Hl as [Hh Hp], Hl' as [Hh' Hp'].
  apply app_inj_1 in E' as [-> E']; [|by rewrite Hh, Hh'].
  apply app_inj_1 in E' as [_ E']; [|done].
  rewrite <-(app_nil_r (emit_u32 p)), <-(app_nil_r (emit_u32 p')) in E'.
  by apply (codec_inj u32_codec) in E' as [-> _].
Qed.

(** When a computation succeeds, whatever the cache holds. *)
Definition succeeds {A} (m : SM A) (Q : Prop) : Prop :=
  forall c, (exists a, fst (m c) = Ok a) <-> Q.

Lemma succeeds_lift {A} (r : result A sighash_error) (Q : Prop) :
  ((exists a, r = Ok a) <-> Q) -> succeeds (sm_lift r) Q.
Proof. by intros HQ c. Qed.

Lemma succeeds_ret {A} (a : A) : succeeds (sm_ret a) True.
Proof. intros c. simpl. naive_solver. Qed.

Lemma succeeds_bind {A B} (m : SM A) (k : A -> SM B) Q R :
  succeeds m Q -> (forall a, succeeds (k a) R) -> succeeds (sm_bind m k) (Q /\ R).
Proof.
  intros Hm Hk c. specialize (Hm c). unfold sm_bind.
  destruct (m c) as [[a|e] c1]; simpl in *; [|naive_solver].
  rewrite (Hk a c1). naive_solver.
Qed.

Lemma succeeds_if {A} (b : bool) (m m' : SM A) Q Q' :
  succeeds m Q -> succeeds m' Q' -> succeeds (if b then m else m') (if b then Q else Q').
Proof. by destruct b. Qed.

Lemma succeeds_iff {A} (m : SM A) Q R : (Q <-> R) -> succeeds m Q -> succeeds m R.
Proof. intros E Hm c. by rewrite (Hm c). Qed.

Lemma succeeds_common f : succeeds (from_common f) True.
Proof. intros c. unfold from_common. destruct (get_common c). simpl. naive_solver. Qed.

Definition is_all (pv : Prevouts) : Prop := exists ps, pv = All ps.

Lemma succeeds_taproot pv f : succeeds (from_taproot pv f) (is_all pv).
Proof.
  intros c. unfold from_taproot, sm_bind, is_all. destruct pv; simpl; [naive_solver|].
  destruct (get_taproot _ c). simpl. naive_solver.
Qed.

Lemma succeeds_parts pv :
  succeeds (inputs_part pv) (is_all pv) /\ succeeds (outputs_part pv) (is_all pv).
Proof.
  unfold inputs_part, outputs_part.
  split; (eapply succeeds_iff; [|repeat first
    [apply succeeds_bind; [first [apply succeeds_taproot|apply succeeds_common]|intros ?]
    |apply succeeds_ret]]); tauto.
Qed.

Lemma this_input_ok tx idx pv :
  (exists d, this_input tx idx pv = Ok d) <->
  (idx < length (input tx))%nat /\ exists o, get_prevout pv idx = Ok o.
Proof.
  unfold this_input. rewrite <-lookup_lt_is_Some.
  destruct (input tx !! idx) as [i|]; simpl; [|naive_solver].
  destruct (get_prevout pv idx); simpl; naive_solver.
Qed.

Lemma single_part_ok tx idx :
  (exists d, single_part tx idx = Ok d) <-> (idx < length (output tx))%nat.
Proof.
  unfold single_part. rewrite <-lookup_lt_is_Some.
  destruct (output tx !! idx) as [i|]; simpl; naive_solver.
Qed.

Lemma get_prevout_ok pv idx :
  (exists o, get_prevout pv idx = Ok o) <->
  match pv with One i _ => i = idx | All ps => (idx < length ps)%nat end.
Proof.
  destruct pv as [i o|ps]; simpl.
  - destruct (Nat.eqb_spec idx i); naive_solver.
  - rewrite <-lookup_lt_is_Some. destruct (ps !! idx); simpl; naive_solver.
Qed.

Lemma check_all_ok pv tx :
  (exists u, check_all pv tx = Ok u) <-> (forall ps, pv = All ps -> length ps = length (input tx)).
Proof.
  destruct pv as [i o|ps]; simpl; [naive_solver|].
  destruct (Nat.eqb_spec (length ps) (length (input tx))); naive_solver.
Qed.

Lemma succeeds_signing_data idx pv annex leaf t genesis c :
  let '(sighash, acp) := schnorr_split t in
  (exists d, fst (taproot_signing_data idx pv annex leaf t genesis c) = Ok d) <->
  (forall ps, pv = All ps -> length ps = length (input (cache_tx c))) /\
  (if negb acp then is_all pv else True) /\
  (if bool_decide (sighash <> SchnorrNone) && bool_decide (sighash <> SchnorrSingle)
   then is_all pv else True) /\
  (if acp : bool then (idx < length (input (cache_tx c)))%nat /\ exists o, get_prevout pv idx = Ok o
   else True) /\
  (if bool_decide (sighash = SchnorrSingle) then (idx < length (output (cache_tx c)))%nat
   else True) /\ True.
Proof.
  destruct (schnorr_split t) as [sighash acp] eqn:Es. unfold taproot_signing_data. rewrite Es.
  destruct (succeeds_parts pv) as [Hin Hout].
  match goal with |- (exists d, fst (?m c) = Ok d) <-> ?Q => cut (succeeds m Q); [by intros Hm|] end.
  apply succeeds_bind; [apply succeeds_lift, check_all_ok|intros _].
  repeat first [apply succeeds_ret|exact Hin|exact Hout|apply succeeds_lift, this_input_ok
    |apply succeeds_lift, single_part_ok|apply succeeds_if|apply succeeds_bind; [|intros ?]].
Qed.

Lemma sighash_of_data idx pv annex leaf t genesis c :
  (exists h, fst (taproot_sighash idx pv annex leaf t genesis c) = Ok h) <->
  (exists d, fst (taproot_signing_data idx pv annex leaf t genesis c) = Ok d).
Proof.
  unfold taproot_sighash, sm_bind.
  destruct (taproot_signing_data idx pv annex leaf t genesis c) as [[d|e] c']; simpl; naive_solver.
Qed.

Lemma fresh_tap_ok tx ps : tap_ok ps (SighashCache_new tx).
Proof. by split. Qed.

Lemma fresh_data tx idx ps annex leaf t g :
  fst (taproot_signing_data idx (All ps) annex leaf t g (SighashCache_new tx)) =
  bip341_data tx idx (All ps) annex leaf t g.
Proof.
  destruct (pure_signing_data ps idx (All ps) annex leaf t g) with (c := SighashCache_new tx)
    as (c' & -> & _); [by intros l [= ->]|apply fresh_tap_ok|done].
Qed.

(** The hashed strings determine what they are made of. *)
Lemma hashed_parts_inj tx tx' ps ps' annex annex' :
  Transaction_wf tx -> Transaction_wf tx' -> Forall prevout_wf ps -> Forall prevout_wf ps' ->
  take 9 (hashed_parts tx ps annex) = take 9 (hashed_parts tx' ps' annex') ->
  map input_signed (input tx) = map input_signed (input tx') /\
  map spent_signed ps = map spent_signed ps' /\ output tx = output tx'.
Proof.
  intros (_ & _ & [Hi _] & [Ho _]) (_ & _ & [Hi' _] & [Ho' _]) Hp Hp' E.
  unfold hashed_parts in E. cbn [take] in E. injection E as E1 E2 E3 E4 E5 E6 E7 E8 E9.
  split; [by apply inputs_part_inj|]. split; [by apply spent_part|].
  apply outputs_part_inj in E8; [|done..].
  apply (pieces_box_options _ _ _ _ _ _ surjectionproof_codec rangeproof_codec) in E9.
  2: by eexists.
  2, 3: eapply Forall_impl; [eassumption|]; intros o [_ [? ?]]; by split.
  pose proof (map_pair _ _ _ _ E8 E9) as E.
  apply (f_equal (map (fun '(o, (s, r)) => set_out_witness o (mkTxOutWitness s r)))) in E.
  rewrite !map_map in E. revert E.
  rewrite <-(map_id (output tx)) at 2. rewrite <-(map_id (output tx')) at 2.
  assert (Hm : forall o : TxOut, set_out_witness (strip_out o) (mkTxOutWitness
    (surjection_proof (out_witness o)) (rangeproof (out_witness o))) = o) by (by intros [? ? ? ? []]).
  rewrite !(map_ext _ _ Hm). done.
Qed.
End layout.

(** ** Claims *)

(** C22: One [SighashCache] serves every digest of a transaction: after any interleaving of
    segwit and taproot digests (failed ones included) and witness edits, a taproot digest
    is the BIP-341 digest of the original transaction, or the error it would give, provided
    the calls agree on the spent outputs. *)
Theorem taproot_cache_coherent `{Platform} `{Secp} `{Hashes} (tx : Transaction)
    (ps : list TxOut) (c : SighashCache) (idx : nat) (pv : Prevouts) (annex : option bytes)
    (leaf : option (bytes * Z)) (t : SchnorrSighashType) (genesis : bytes) :
  rtc (tap_step ps) (SighashCache_new tx) c -> (forall l, pv = All l -> l = ps) ->
  fst (taproot_sighash idx pv annex leaf t genesis c) =
  (let? d := bip341_data tx idx pv annex leaf t genesis in
   Ok (tagged_hash (str "TapSighash/elements") d)).
Proof.
  intros Hr Hpv. destruct (tap_steps_ok ps _ _ Hr) as [Hok Es]; [apply fresh_tap_ok|].
  destruct (pure_signing_data ps idx pv annex leaf t genesis Hpv c Hok) as (c' & E & _).
  unfold taproot_sighash, sm_bind. rewrite E, <-(bip341_signed (cache_tx c)), Es, bip341_signed.
  change (cache_tx (SighashCache_new tx)) with tx.
  by destruct (bip341_data tx idx pv annex leaf t genesis).
Qed.

(** A taproot digest is computed exactly when the spent outputs given are one per input,
    or the one of this input under ANYONECANPAY with NONE or SINGLE; the input exists when
    ANYONECANPAY asks for it; and the output exists for SINGLE.  In particular a single
    prevout is never enough for ALL|ANYONECANPAY, whose message needs no other input, and
    without ANYONECANPAY an index outside the inputs is not noticed. *)
Theorem taproot_sighash_ok_iff `{Platform} `{Secp} `{Hashes} (c : SighashCache) (idx : nat)
    (pv : Prevouts) (annex : option bytes) (leaf : option (bytes * Z))
    (t : SchnorrSighashType) (genesis : bytes) :
  let '(sighash, acp) := schnorr_split t in
  (exists h, fst (taproot_sighash idx pv annex leaf t genesis c) = Ok h) <->
  match pv with
  | All ps => length ps = length (input (cache_tx c))
  | One i _ => i = idx /\ acp = true /\ (sighash = SchnorrNone \/ sighash = SchnorrSingle)
  end /\
  (acp = true -> (idx < length (input (cache_tx c)))%nat) /\
  (sighash = SchnorrSingle -> (idx < length (output (cache_tx c)))%nat).
Proof.
  pose proof (succeeds_signing_data idx pv annex leaf t genesis c) as Hd.
  destruct (schnorr_split t) as [sighash acp] eqn:Es. rewrite sighash_of_data, Hd. clear Hd.
  unfold is_all.
  assert (Hall : (exists ps, pv = All ps) <-> match pv with All _ => True | One _ _ => False end).
  { destruct pv; naive_solver. }
  assert (Hlen : (forall ps, pv = All ps -> length ps = length (input (cache_tx c))) <->
    match pv with All ps => length ps = length (input (cache_tx c)) | One _ _ => True end).
  { destruct pv; naive_solver. }
  pose proof (get_prevout_ok pv idx) as Hget.
  destruct t; simpl in Es; injection Es as <- <-; cbn -[get_prevout];
    rewrite ?Hget, ?Hall, Hlen; destruct pv; intuition (try congruence; try lia).
Qed.

(** C23: A taproot signature with the default type or with ALL commits to the transaction:
    where no two strings hashed into the messages collide, equal messages come from the same
    chain, type, version, lock time, outputs with their witnesses, annex and script leaf,
    the same input index (as a 32-bit number), inputs equal but for script signatures,
    script and peg-in witnesses, and spent outputs with the same assets, values and
    scripts. *)
Theorem taproot_all_commits `{Platform} `{Secp} `{Hashes} (tx tx' : Transaction)
    (ps ps' : list TxOut) (idx idx' : nat) (annex annex' : option bytes)
    (leaf leaf' : option (bytes * Z)) (t t' : SchnorrSighashType) (g g' d : bytes) :
  Transaction_wf tx -> Transaction_wf tx' -> Forall prevout_wf ps -> Forall prevout_wf ps' ->
  annex_wf annex -> annex_wf annex' -> leaf_wf leaf -> leaf_wf leaf' ->
  length g = 32%nat -> length g' = 32%nat -> signs_all t -> signs_all t' ->
  no_collision (hashed_parts tx ps annex) (hashed_parts tx' ps' annex') ->
  fst (taproot_signing_data idx (All ps) annex leaf t g (SighashCache_new tx)) = Ok d ->
  fst (taproot_signing_data idx' (All ps') annex' leaf' t' g' (SighashCache_new tx')) = Ok d ->
  g = g' /\ t = t' /\ version tx = version tx' /\ lock_time tx = lock_time tx' /\
  map input_signed (input tx) = map input_signed (input tx') /\
  map spent_signed ps = map spent_signed ps' /\ output tx = output tx' /\
  wrap_u32 (Z.of_nat idx) = wrap_u32 (Z.of_nat idx') /\ annex = annex' /\ leaf = leaf'.
Proof.
  intros Hw Hw' Hp Hp' Ha Ha' Hl Hl' Hg Hg' Ht Ht' Hn. rewrite !fresh_data. intros D D'.
  apply bip341_all_layout in D as ->; [|done]. apply bip341_all_layout in D'; [|done].
  pose proof (Forall2_take _ _ _ 9 Hn) as Hn9. pose proof (Forall2_drop _ _ _ 9 Hn) as Hna.
  destruct Hw as (Hv & Hlt & Hrest), Hw' as (Hv' & Hlt' & Hrest').
  apply app_inj_1 in D' as [-> D']; [|by rewrite Hg, Hg']. apply app_inv_head in D'.
  apply (codec_inj u8_codec) in D' as [Et D'];
    [|destruct Ht as [-> | ->]; by split|destruct Ht' as [-> | ->]; by split].
  apply (codec_inj u32_codec) in D' as [Ev D']; [|done..].
  apply (codec_inj LockTime_codec) in D' as [El D']; [|done..].
  apply concat_hashes in D' as [Eh D']; [|done].
  apply (no_collision_eq _ _ Hn9) in Eh. apply hashed_parts_inj in Eh as (Ei & Es & Eo); [|done..].
  apply (codec_inj u8_codec) in D' as [Ey D'];
    [|by destruct annex, leaf|by destruct annex', leaf'].
  apply spend_type_inj in Ey as [Ea Ef].
  apply (codec_inj u32_codec) in D' as [Ex D']; [|apply Z.mod_pos_bound; lia..].
  apply tail_inj in D' as [Elf Eax]; [|done..].
  assert (annex = annex').
  { destruct annex as [a|], annex' as [a'|]; try done. cbn in Hna. apply Forall2_cons in Hna as [Hna _].
    specialize (Hna (Eax ltac:(done))). rewrite <-(app_nil_r (encode_vec_u8 a)),
      <-(app_nil_r (encode_vec_u8 a')) in Hna. by apply (codec_inj vec_u8_codec) in Hna as [-> _]. }
  repeat (split; [done|]). split; [by destruct Ht as [-> | ->], Ht' as [-> | ->]|].
  done.
Qed.

(** The byte strings read as Schnorr signatures are the serializations of the signatures
    with a type other than the reserved one, and one more for the default type: the
    signature followed by a zero byte, which BIP 341 rejects and which does not serialize
    back. *)
Theorem schnorr_sig_from_slice_iff `{SchnorrEnv} (sl : bytes) (s : SchnorrSig) :
  SchnorrSig_from_slice sl = Ok s <->
  hash_ty s <> SchnorrReserved /\
  (sl = SchnorrSig_to_vec s \/
   (hash_ty s = SchnorrDefault /\ sl = SchnorrSig_to_vec s ++ [Byte.x00])).
Proof.
  unfold SchnorrSig_from_slice, SchnorrSig_to_vec, SCHNORR_SIGNATURE_SIZE.
  destruct (Nat.eqb_spec (length sl) 64) as [E|N]; split.
  - intros (x & Hx%ok_or_ok & [= <-])%rbind_ok. simpl. split; [done|]. left.
    rewrite app_nil_r. symmetry. by apply schnorr_strict.
  - destruct s as [x t]. simpl. intros [Hr Hs].
    assert (t = SchnorrDefault /\ sl = ext_ser x) as [-> ->].
    { destruct Hs as [-> |[-> ->]]; [destruct t|];
        simpl in E; rewrite ?length_app, schnorr_length in E; simpl in E; try lia; try done.
      by rewrite app_nil_r. }
    by rewrite ext_parse_ser.
  - intros (t & Ht%ok_or_ok & (ty & Hty%ok_or_ok%schnorr_from_u8_spec & (x & Hx%ok_or_ok & [= <-])
      %rbind_ok)%rbind_ok)%rbind_ok.
    simpl. destruct Hty as [Hty Hr]. split; [done|].
    apply schnorr_strict in Hx. rewrite Hx.
    assert (Es : sl = removelast sl ++ emit_u8 (schnorr_as_u8 ty)).
    { apply last_Some in Ht as [l ->]. rewrite removelast_last. f_equal. rewrite <-Hty. unfold emit_u8.
      by rewrite z2b_b2z. }
    destruct ty; (right; split; [done|]; rewrite app_nil_r; exact Es) || (left; exact Es).
  - destruct s as [x t]. simpl. intros [Hr Hs].
    assert (Es : sl = ext_ser x ++ emit_u8 (schnorr_as_u8 t)).
    { destruct Hs as [-> |[-> ->]]; [|by rewrite app_nil_r].
      destruct t; try done. rewrite app_nil_r, schnorr_length in N. done. }
    assert (Eb : exists b, emit_u8 (schnorr_as_u8 t) = [b] /\ b2z b = schnorr_as_u8 t)
      by (exists (z2b (schnorr_as_u8 t)); split; [done|by destruct t]).
    destruct Eb as (b & Eb & Hb). rewrite Es, Eb, last_snoc, removelast_last. simpl.
    rewrite Hb, (proj2 (schnorr_from_u8_spec _ t)) by done. simpl. by rewrite ext_parse_ser.
Qed.

Import SighashSample.

Module TapSighashSample.
Export SighashSample.
Definition sample_spent : list TxOut := map (fun _ => mkTxOut (AssetExplicit (replicate 32 Byte.x05))
  (ValueExplicit 9) NonceNull [Byte.x51] TxOutWitness_empty) (input sample_tx).
Definition sample_genesis : bytes := replicate 32 Byte.x06.
(** The sample transaction with an input's witness edited. *)
Definition edited : SighashCache :=
  let c0 := SighashCache_new sample_tx in
  let c1 := snd (taproot_sighash 0 (All sample_spent) None None SchnorrSingle sample_genesis c0) in
  default c1 (witness_mut c1 0 (cons [Byte.x02])).
Lemma edited_wf : Transaction_wf (cache_tx edited).
Proof.
  split; [done|]. split; [done|].
  repeat (cbn; first [done | split | apply List.Forall_cons | apply List.Forall_nil |
    right; split; [done|by intros (? & ? & ?)]]).
Defined.

Lemma sample_spent_wf : Forall prevout_wf sample_spent.
Proof. repeat (cbn; first [done | split | apply List.Forall_cons | apply List.Forall_nil]). Defined.

Lemma no_sample_collision :
  no_collision (hashed_parts sample_tx sample_spent (Some [Byte.x50]))
    (hashed_parts (cache_tx edited) sample_spent (Some [Byte.x50])).
Proof. repeat (apply Forall2_cons; split; [intros _; reflexivity|]). apply Forall2_nil. done. Defined.
End TapSighashSample.
Import TapSighashSample.

Lemma taproot_cache_coherent_witness :
  rtc (tap_step sample_spent) (SighashCache_new sample_tx) edited /\ cache_tx edited <> sample_tx /\
  fst (taproot_sighash 1 (All sample_spent) None None SchnorrDefault sample_genesis edited) =
  (let? d := bip341_data sample_tx 1 (All sample_spent) None None SchnorrDefault sample_genesis in
   Ok (tagged_hash (str "TapSighash/elements") d)).
Proof.
  assert (Hr : rtc (tap_step sample_spent) (SighashCache_new sample_tx) edited).
  { eapply rtc_l; [eapply (tap_step_taproot _ _ _ 0 (All sample_spent) None None SchnorrSingle
      sample_genesis); [by intros l [= ->]|apply surjective_pairing]|].
    eapply rtc_l; [apply tap_step_ecdsa, (step_witness _ edited 0 (cons [Byte.x02])); reflexivity|].
    apply rtc_refl. }
  split; [exact Hr|]. split; [discriminate|].
  apply (taproot_cache_coherent sample_tx sample_spent edited 1 (All sample_spent)); [exact Hr|].
  by intros l [= ->].
Defined.

Lemma taproot_all_commits_witness :
  exists d, fst (taproot_signing_data 1 (All sample_spent) (Some [Byte.x50]) None SchnorrAll
    sample_genesis (SighashCache_new sample_tx)) = Ok d /\
  fst (taproot_signing_data 1 (All sample_spent) (Some [Byte.x50]) None SchnorrAll
    sample_genesis (SighashCache_new (cache_tx edited))) = Ok d /\
  map input_signed (input sample_tx) = map input_signed (input (cache_tx edited)).
Proof.
  eexists. split; [reflexivity|]. split; [reflexivity|].
  eapply (taproot_all_commits sample_tx (cache_tx edited) sample_spent sample_spent 1 1
    (Some [Byte.x50]) (Some [Byte.x50]) None None SchnorrAll SchnorrAll sample_genesis sample_genesis);
    first [exact sample_tx_wf|exact edited_wf|exact sample_spent_wf|exact no_sample_collision
          |right; reflexivity|reflexivity|exact I|done].
Defined.
