(* ===== verification/Pset.v ===== *)
(** * Partially signed transactions

    [rust-elements/src/pset]: the maps of a PSET ([map/global.rs], [map/input.rs],
    [map/output.rs]), their conversions from and to transactions, and the operations of
    [mod.rs]: adding, inserting and removing inputs and outputs, the lock time, the unique
    id, extraction and merging.  The key-value encoding is in [PsetCodec].

    The theorems: the counts follow the lists; the lock time is the least one that meets
    the inputs' requirements; what survives a trip from a transaction to a PSET and back;
    what a merge keeps, and where it departs from its comments. *)

From S2P Require Import Prelude Order Encode Script Timelocks Confidential Transaction Sighash Merkle Taproot TapSighash.

(** What the [bitcoin] crate provides: transactions, extended public keys and their order. *)
Class PsetEnv `{Secp} :=
  { BtcTx : ext_type;
    Xpub : ext_type;
    xpub_cmp : Xpub -> Xpub -> comparison;
    tweak_cmp : Tweak -> Tweak -> comparison }.

Section keys.
Context {S : Secp} {T : TapEnv}.

(** [bitcoin::PublicKey]: a point and whether it is written compressed. *)
Record BtcPublicKey := mkBtcPk { pk_inner : PublicKey; pk_compressed : bool }.
#[export] Instance BtcPublicKey_eq_dec : EqDecision BtcPublicKey.
Proof. solve_decision. Defined.
#[export] Program Instance BtcPublicKey_countable : Countable BtcPublicKey :=
  inj_countable' (fun k => (pk_inner k, pk_compressed k)) (fun '(i, c) => mkBtcPk i c) _.
Next Obligation. by intros []. Qed.

#[export] Instance ControlBlock_eq_dec : EqDecision ControlBlock.
Proof. solve_decision. Defined.
#[export] Program Instance ControlBlock_countable : Countable ControlBlock :=
  inj_countable' (fun c => (cb_leaf_version c, cb_parity c, cb_internal_key c, cb_branch c))
    (fun '(v, p, k, b) => mkControlBlock v p k b) _.
Next Obligation. by intros []. Qed.
End keys.

(** Fingerprint and derivation path. *)
Abbreviation KeySource := (bytes * list Z)%type.

(** [raw::Key] and [raw::ProprietaryKey]. *)
Record raw_key := mkKey { type_value : Z; key_data : bytes }.
Record ProprietaryKey := mkPropKey { prop_prefix : bytes; subtype : Z; prop_key : bytes }.
#[export] Instance raw_key_eq_dec : EqDecision raw_key.
Proof. solve_decision. Defined.
#[export] Program Instance raw_key_countable : Countable raw_key :=
  inj_countable' (fun k => (type_value k, key_data k)) (fun '(t, d) => mkKey t d) _.
Next Obligation. by intros []. Qed.
#[export] Instance ProprietaryKey_eq_dec : EqDecision ProprietaryKey.
Proof. solve_decision. Defined.
#[export] Program Instance ProprietaryKey_countable : Countable ProprietaryKey :=
  inj_countable' (fun k => (prop_prefix k, subtype k, prop_key k))
    (fun '(p, s, d) => mkPropKey p s d) _.
Next Obligation. by intros []. Qed.

(** ** The sighash type of an input: any 32-bit number. *)
Record PsbtSighashType := mkPsbtSighash { ty_inner : Z }.

Definition psbt_from_ecdsa (t : EcdsaSighashType) : PsbtSighashType := mkPsbtSighash (sighash_as_u32 t).
Definition psbt_from_schnorr (t : SchnorrSighashType) : PsbtSighashType :=
  mkPsbtSighash (schnorr_as_u8 t).
Definition psbt_ecdsa_hash_ty (t : PsbtSighashType) : option EcdsaSighashType :=
  ok_opt (sighash_from_standard (ty_inner t)).
Definition psbt_schnorr_hash_ty (t : PsbtSighashType) : option SchnorrSighashType :=
  if 0xff <? ty_inner t then None else schnorr_from_u8 (wrap_u8 (ty_inner t)).

Inductive PsetHash := Ripemd | Sha256 | Hash160 | Hash256.
#[export] Instance PsetHash_eq_dec : EqDecision PsetHash.
Proof. solve_decision. Defined.

(** [pset::Error]; the messages are dropped.  [PsetPanic] stands for a panic of the code. *)
Inductive pset_error :=
| InvalidMagic
| InvalidSeparator
| InvalidKey (k : raw_key)
| InvalidProprietaryKey
| DuplicateKey (k : raw_key)
| LocktimeConflict
| UnsignedTxHasScriptSigs
| UnsignedTxHasScriptWitnesses
| MustHaveUnsignedTx
| NoMorePairs
| UniqueIdMismatch (expected actual : bytes)
| NonStandardSighashType (n : Z)
| HashParseError
| InvalidPreimageHashPair (hash_type : PsetHash) (preimage hash : bytes)
| MergeConflict
| ConsensusEncoding
| TooLargePset
| ExpiredPsbtv0Field
| IncorrectPsetVersion
| MissingTxVersion
| MissingInputCount
| MissingOutputCount
| MissingInputPrevTxId
| MissingInputPrevVout
| SecpScalarSizeError (n : Z)
| MissingOutputValue
| MissingOutputAsset
| MissingOutputSpk
| MissingBlinderIndex
| MissingBlindingInfo
| InputCountMismatch
| OutputCountMismatch
| PsetPanic.
#[export] Instance pset_error_eq_dec : EqDecision pset_error.
Proof. solve_decision. Defined.

Section data.
Context {P : Platform} {S : Secp} {T : TapEnv} {C : SchnorrEnv} {E : PsetEnv}.

(** ** The maps *)

Record GlobalTxData := mkTxData
  { tx_version : Z;
    fallback_locktime : option LockTime;
    input_count : nat;
    output_count : nat;
    tx_modifiable : option Z }.

Record Global := mkGlobal
  { tx_data : GlobalTxData;
    pset_version : Z;
    xpub : gmap Xpub KeySource;
    scalars : list Tweak;
    elements_tx_modifiable_flag : option Z;
    g_proprietary : gmap ProprietaryKey bytes;
    g_unknown : gmap raw_key bytes }.

(** [Input], its fields in the order of the source. *)
Record PsetInput := mkInput
  { non_witness_utxo : option Transaction;
    witness_utxo : option TxOut;
    partial_sigs : gmap BtcPublicKey bytes;
    sighash_type : option PsbtSighashType;
    i_redeem_script : option Script;
    i_witness_script : option Script;
    i_bip32_derivation : gmap BtcPublicKey KeySource;
    final_script_sig : option Script;
    final_script_witness : option (list bytes);
    ripemd160_preimages : gmap bytes bytes;
    sha256_preimages : gmap bytes bytes;
    hash160_preimages : gmap bytes bytes;
    hash256_preimages : gmap bytes bytes;
    previous_txid : bytes;
    previous_output_index : Z;
    i_sequence : option Sequence;
    required_time_locktime : option Time;
    required_height_locktime : option Height;
    tap_key_sig : option SchnorrSig;
    tap_script_sigs : gmap (XOnlyPublicKey * bytes) SchnorrSig;
    tap_scripts : gmap ControlBlock (Script * Z);
    i_tap_key_origins : gmap XOnlyPublicKey (list bytes * KeySource);
    i_tap_internal_key : option XOnlyPublicKey;
    tap_merkle_root : option bytes;
    issuance_value_amount : option Z;
    issuance_value_comm : option PedersenCommitment;
    issuance_value_rangeproof : option RangeProof;
    issuance_keys_rangeproof : option RangeProof;
    pegin_tx : option BtcTx;
    pegin_txout_proof : option bytes;
    pegin_genesis_hash : option bytes;
    pegin_claim_script : option Script;
    pegin_value : option Z;
    i_pegin_witness : option (list bytes);
    issuance_inflation_keys : option Z;
    issuance_inflation_keys_comm : option PedersenCommitment;
    issuance_blinding_nonce : option Tweak;
    issuance_asset_entropy : option bytes;
    in_utxo_rangeproof : option RangeProof;
    in_issuance_blind_value_proof : option RangeProof;
    in_issuance_blind_inflation_keys_proof : option RangeProof;
    i_amount : option Z;
    i_blind_value_proof : option RangeProof;
    i_asset : option AssetId;
    i_blind_asset_proof : option SurjectionProof;
    blinded_issuance : option Z;
    i_proprietary : gmap ProprietaryKey bytes;
    i_unknown : gmap raw_key bytes }.

(** [Output]; a [TapTree] is a complete builder. *)
Record PsetOutput := mkOutput
  { o_redeem_script : option Script;
    o_witness_script : option Script;
    o_bip32_derivation : gmap BtcPublicKey KeySource;
    o_tap_internal_key : option XOnlyPublicKey;
    tap_tree_ : option (list (option NodeInfo));
    o_tap_key_origins : gmap XOnlyPublicKey (list bytes * KeySource);
    o_amount : option Z;
    amount_comm : option PedersenCommitment;
    o_script_pubkey : Script;
    o_asset : option AssetId;
    asset_comm : option Generator;
    value_rangeproof : option RangeProof;
    asset_surjection_proof : option SurjectionProof;
    blinding_key : option BtcPublicKey;
    ecdh_pubkey : option BtcPublicKey;
    blinder_index : option Z;
    o_blind_value_proof : option RangeProof;
    o_blind_asset_proof : option SurjectionProof;
    o_proprietary : gmap ProprietaryKey bytes;
    o_unknown : gmap raw_key bytes }.

Record PartiallySignedTransaction := mkPset
  { global : Global;
    inputs : list PsetInput;
    outputs : list PsetOutput }.

Definition TxData_default : GlobalTxData := mkTxData 2 None 0 0 None.
Definition Global_default : Global := mkGlobal TxData_default 2 ∅ [] None ∅ ∅.

Definition Input_default : PsetInput :=
  mkInput None None ∅ None None None ∅ None None ∅ ∅ ∅ ∅ zero_hash 0 None None None None ∅ ∅ ∅
    None None None None None None None None None None None None None None None None None None
    None None None None None None ∅ ∅.

Definition Output_default : PsetOutput :=
  mkOutput None None ∅ None None ∅ None None [] None None None None None None None None None ∅ ∅.
End data.

(** ** Record update: [set_field f v r] is [r] with field [f] replaced by [v]. *)

Class Setter {R A : Type} (f : R -> A) := set_field : A -> R -> R.
Arguments set_field {R A} f {_} v r.

Definition eta_input {P : Platform} {S : Secp} {T : TapEnv} {C : SchnorrEnv} {E : PsetEnv}
    (i : PsetInput) : PsetInput :=
  mkInput (non_witness_utxo i) (witness_utxo i) (partial_sigs i) (sighash_type i)
    (i_redeem_script i) (i_witness_script i) (i_bip32_derivation i) (final_script_sig i)
    (final_script_witness i) (ripemd160_preimages i) (sha256_preimages i) (hash160_preimages i)
    (hash256_preimages i) (previous_txid i) (previous_output_index i) (i_sequence i)
    (required_time_locktime i) (required_height_locktime i) (tap_key_sig i) (tap_script_sigs i)
    (tap_scripts i) (i_tap_key_origins i) (i_tap_internal_key i) (tap_merkle_root i)
    (issuance_value_amount i) (issuance_value_comm i) (issuance_value_rangeproof i)
    (issuance_keys_rangeproof i) (pegin_tx i) (pegin_txout_proof i) (pegin_genesis_hash i)
    (pegin_claim_script i) (pegin_value i) (i_pegin_witness i) (issuance_inflation_keys i)
    (issuance_inflation_keys_comm i) (issuance_blinding_nonce i) (issuance_asset_entropy i)
    (in_utxo_rangeproof i) (in_issuance_blind_value_proof i)
    (in_issuance_blind_inflation_keys_proof i) (i_amount i) (i_blind_value_proof i) (i_asset i)
    (i_blind_asset_proof i) (blinded_issuance i) (i_proprietary i) (i_unknown i).

Definition eta_output {P : Platform} {S : Secp} {T : TapEnv} {C : SchnorrEnv} {E : PsetEnv}
    (o : PsetOutput) : PsetOutput :=
  mkOutput (o_redeem_script o) (o_witness_script o) (o_bip32_derivation o) (o_tap_internal_key o)
    (tap_tree_ o) (o_tap_key_origins o) (o_amount o) (amount_comm o) (o_script_pubkey o)
    (o_asset o) (asset_comm o) (value_rangeproof o) (asset_surjection_proof o) (blinding_key o)
    (ecdh_pubkey o) (blinder_index o) (o_blind_value_proof o) (o_blind_asset_proof o)
    (o_proprietary o) (o_unknown o).

Ltac solve_setter :=
  lazymatch goal with
  | |- @Setter ?R _ ?f =>
      let v := fresh "v" in let r := fresh "r" in
      intros v r;
      let e := lazymatch R with
               | PsetInput => eval cbv beta delta [eta_input] in (eta_input r)
               | PsetOutput => eval cbv beta delta [eta_output] in (eta_output r)
               end in
      lazymatch eval pattern (f r) in e with
      | ?g _ => exact (g v)
      end
  end.
#[export] Hint Extern 0 (Setter _) => solve_setter : typeclass_instances.

Notation "r <| f := v |>" := (set_field f v r) (at level 12, left associativity) : swk_scope.

Section code.
Context {P : Platform} {S : Secp} {H : Hashes} {M : Midstates} {T : TapEnv} {C : SchnorrEnv}
  {E : PsetEnv}.

(** ** Inputs *)

Definition from_prevout (outpoint : OutPoint) : PsetInput :=
  Input_default <| previous_output_index := vout outpoint |> <| previous_txid := txid outpoint |>.

(** The two fields a confidential value may go to. *)
Definition explicit_part (v : Value) : option Z :=
  match v with ValueExplicit x => Some x | _ => None end.
Definition commitment_part (v : Value) : option PedersenCommitment :=
  match v with ValueConfidential c => Some c | _ => None end.

Definition from_txin (txin : TxIn) : PsetInput :=
  let w := in_witness txin in
  let ret := from_prevout (previous_output txin)
    <| i_sequence := Some (sequence txin) |>
    <| final_script_sig := Some (script_sig txin) |>
    <| final_script_witness := Some (script_witness w) |> in
  let ret :=
    if is_pegin txin then
      ret <| previous_output_index := Z.lor (previous_output_index ret) (Z.shiftl 1 30) |>
          <| i_pegin_witness := Some (pegin_witness w) |>
    else ret in
  if has_issuance txin then
    let a := asset_issuance txin in
    ret <| previous_output_index := Z.lor (previous_output_index ret) (Z.shiftl 1 31) |>
        <| issuance_blinding_nonce := Some (asset_blinding_nonce a) |>
        <| issuance_asset_entropy := Some (asset_entropy a) |>
        <| issuance_value_amount := explicit_part (amount a) |>
        <| issuance_value_comm := commitment_part (amount a) |>
        <| issuance_inflation_keys := explicit_part (inflation_keys a) |>
        <| issuance_inflation_keys_comm := commitment_part (inflation_keys a) |>
        <| issuance_keys_rangeproof := inflation_keys_rangeproof w |>
        <| issuance_value_rangeproof := amount_rangeproof w |>
  else ret.

(** An explicit amount and a commitment as one value; the commitment wins. *)
Definition value_of (amount : option Z) (comm : option PedersenCommitment) : Value :=
  match amount, comm with
  | None, None => ValueNull
  | _, Some c => ValueConfidential c
  | Some x, None => ValueExplicit x
  end.

(** [Input::asset_issuance]; the denomination is not part of a PSET. *)
Definition pset_asset_issuance (i : PsetInput) : AssetIssuance :=
  mkIssuance (default ZERO_TWEAK (issuance_blinding_nonce i))
    (default zero_hash (issuance_asset_entropy i))
    (value_of (issuance_value_amount i) (issuance_value_comm i))
    (value_of (issuance_inflation_keys i) (issuance_inflation_keys_comm i)) 8.

Definition pset_has_issuance (i : PsetInput) : bool :=
  negb (AssetIssuance_is_null (pset_asset_issuance i)).

Definition pset_is_pegin (i : PsetInput) : bool :=
  negb (Z.land (previous_output_index i) (Z.shiftl 1 30) =? 0).

(** [Input::issuance_ids]; [None] is a panic of the merkle root. *)
Definition pset_issuance_ids (i : PsetInput) : option (bytes * bytes) :=
  let issue_nonce := default ZERO_TWEAK (issuance_blinding_nonce i) in
  entropy ←
    (if bool_decide (issue_nonce = ZERO_TWEAK) then
       generate_asset_entropy (mkOutPoint (previous_txid i) (previous_output_index i))
         (default zero_hash (issuance_asset_entropy i))
     else Some (default zero_hash (issuance_asset_entropy i)));
  asset_id ← from_entropy entropy;
  token_id ← reissuance_token_from_entropy entropy
               (bool_decide (is_Some (issuance_value_comm i)));
  Some (asset_id, token_id).

Definition input_ecdsa_hash_ty (i : PsetInput) : option EcdsaSighashType :=
  match sighash_type i with Some t => psbt_ecdsa_hash_ty t | None => Some SighashAll end.
Definition input_schnorr_hash_ty (i : PsetInput) : option SchnorrSighashType :=
  match sighash_type i with Some t => psbt_schnorr_hash_ty t | None => Some SchnorrDefault end.

(** ** Outputs *)

Definition new_explicit (script : Script) (amount : Z) (asset : AssetId)
    (blinding : option BtcPublicKey) : PsetOutput :=
  Output_default <| o_script_pubkey := script |> <| o_amount := Some amount |>
    <| blinding_key := blinding |> <| o_asset := Some asset |>.

Definition Nonce_commitment (n : Nonce) : option PublicKey :=
  match n with NonceConfidential k => Some k | _ => None end.

(** [TxOut::is_partially_blinded]. *)
Definition txout_is_partially_blinded (o : TxOut) : bool :=
  Asset_is_confidential (asset o) || Value_is_confidential (value o) ||
  negb (TxOutWitness_is_empty (out_witness o)).

Definition from_txout (o : TxOut) : PsetOutput :=
  let rv := Output_default
    <| o_amount := explicit_part (value o) |>
    <| amount_comm := commitment_part (value o) |>
    <| o_asset := match asset o with AssetExplicit x => Some x | _ => None end |>
    <| asset_comm := match asset o with AssetConfidential c => Some c | _ => None end |> in
  let pk := (fun k => mkBtcPk k true) <$> Nonce_commitment (nonce o) in
  let rv := if txout_is_partially_blinded o then rv <| ecdh_pubkey := pk |>
            else rv <| blinding_key := pk |> in
  rv <| o_script_pubkey := script_pubkey o |>
     <| value_rangeproof := rangeproof (out_witness o) |>
     <| asset_surjection_proof := surjection_proof (out_witness o) |>.

Definition is_marked_for_blinding (o : PsetOutput) : bool := negb (is_none (blinding_key o)).

Definition is_partially_blinded (o : PsetOutput) : bool :=
  is_marked_for_blinding o &&
  (negb (is_none (amount_comm o)) || negb (is_none (asset_comm o)) ||
   negb (is_none (value_rangeproof o)) || negb (is_none (asset_surjection_proof o)) ||
   negb (is_none (ecdh_pubkey o))).

Definition is_fully_blinded (o : PsetOutput) : bool :=
  is_marked_for_blinding o && negb (is_none (amount_comm o)) && negb (is_none (asset_comm o)) &&
  negb (is_none (value_rangeproof o)) && negb (is_none (asset_surjection_proof o)) &&
  negb (is_none (ecdh_pubkey o)).

Definition nonce_of (k : option BtcPublicKey) : Nonce :=
  match k with Some k => NonceConfidential (pk_inner k) | None => NonceNull end.

Definition to_txout (o : PsetOutput) : TxOut :=
  mkTxOut
    (match asset_comm o, o_asset o with
     | Some gen, _ => AssetConfidential gen
     | None, Some id => AssetExplicit id
     | None, None => AssetNull
     end)
    (match amount_comm o, o_amount o with
     | Some comm, _ => ValueConfidential comm
     | None, Some x => ValueExplicit x
     | None, None => ValueNull
     end)
    (nonce_of (if is_partially_blinded o then ecdh_pubkey o else blinding_key o))
    (o_script_pubkey o)
    (mkTxOutWitness (asset_surjection_proof o) (value_rangeproof o)).

(** ** The transaction under construction *)

Definition pset_from_tx (tx : Transaction) : PartiallySignedTransaction :=
  mkPset
    (mkGlobal (mkTxData (version tx) (Some (lock_time tx)) (length (input tx)) (length (output tx)) None)
       2 ∅ [] None ∅ ∅)
    (map from_txin (input tx)) (map from_txout (output tx)).

Definition new_v2 : PartiallySignedTransaction := mkPset Global_default [] [].

Definition set_counts (g : Global) (ins outs : nat) : Global :=
  let d := tx_data g in
  mkGlobal (mkTxData (tx_version d) (fallback_locktime d) ins outs (tx_modifiable d))
    (pset_version g) (xpub g) (scalars g) (elements_tx_modifiable_flag g) (g_proprietary g)
    (g_unknown g).

Definition n_inputs (p : PartiallySignedTransaction) : nat := input_count (tx_data (global p)).
Definition n_outputs (p : PartiallySignedTransaction) : nat := output_count (tx_data (global p)).

Definition add_input (inp : PsetInput) (p : PartiallySignedTransaction) : PartiallySignedTransaction :=
  mkPset (set_counts (global p) (n_inputs p + 1) (n_outputs p)) (inputs p ++ [inp]) (outputs p).

(** The blinder index of an output, when an input is inserted at [pos]; [i + 1] in [u32]. *)
Definition shift_blinder (pos : nat) (o : PsetOutput) : PsetOutput :=
  match blinder_index o with
  | Some i => if wrap_u32 (Z.of_nat pos) <=? i
              then o <| blinder_index := Some (wrap_u32 (i + 1)) |> else o
  | None => o
  end.

(** [Vec::insert], which panics beyond the end. *)
Definition vec_insert {A} (pos : nat) (a : A) (l : list A) : option (list A) :=
  if (pos <=? length l)%nat then Some (take pos l ++ a :: drop pos l) else None.

Definition insert_input (inp : PsetInput) (pos : nat) (p : PartiallySignedTransaction)
  : option PartiallySignedTransaction :=
  ins ← vec_insert pos inp (inputs p);
  Some (mkPset (set_counts (global p) (n_inputs p + 1) (n_outputs p)) ins
          (map (shift_blinder pos) (outputs p))).

Definition remove_input (index : nat) (p : PartiallySignedTransaction)
  : option PsetInput * PartiallySignedTransaction :=
  match inputs p !! index with
  | Some i => (Some i, mkPset (set_counts (global p) (n_inputs p - 1) (n_outputs p))
                         (delete index (inputs p)) (outputs p))
  | None => (None, p)
  end.

Definition add_output (out : PsetOutput) (p : PartiallySignedTransaction) : PartiallySignedTransaction :=
  mkPset (set_counts (global p) (n_inputs p) (n_outputs p + 1)) (inputs p) (outputs p ++ [out]).

Definition insert_output (out : PsetOutput) (pos : nat) (p : PartiallySignedTransaction)
  : option PartiallySignedTransaction :=
  outs ← vec_insert pos out (outputs p);
  Some (mkPset (set_counts (global p) (n_inputs p) (n_outputs p + 1)) (inputs p) outs).

Definition remove_output (index : nat) (p : PartiallySignedTransaction)
  : option PsetOutput * PartiallySignedTransaction :=
  match outputs p !! index with
  | Some o => (Some o, mkPset (set_counts (global p) (n_inputs p) (n_outputs p - 1))
                         (inputs p) (delete index (outputs p)))
  | None => (None, p)
  end.

(** ** The lock time *)

Inductive Locktime :=
| Unconstrained
| Minimum (n : Z)
| Disallowed.

(** The derived order, and its maximum. *)
Definition Locktime_max (a b : Locktime) : Locktime :=
  match a, b with
  | Unconstrained, _ => b
  | _, Unconstrained => a
  | Minimum x, Minimum y => Minimum (Z.max x y)
  | Disallowed, _ | _, Disallowed => Disallowed
  end.

Definition add_requirement (acc : Locktime * Locktime) (inp : PsetInput) : Locktime * Locktime :=
  let '(time_locktime, height_locktime) := acc in
  match required_time_locktime inp, required_height_locktime inp with
  | Some rt, Some rh => (Locktime_max time_locktime (Minimum (time_u32 rt)),
                         Locktime_max height_locktime (Minimum (height_u32 rh)))
  | Some rt, None => (Locktime_max time_locktime (Minimum (time_u32 rt)), Disallowed)
  | None, Some rh => (Disallowed, Locktime_max height_locktime (Minimum (height_u32 rh)))
  | None, None => acc
  end.

Definition locktime (p : PartiallySignedTransaction) : result LockTime pset_error :=
  match foldl add_requirement (Unconstrained, Unconstrained) (inputs p) with
  | (Unconstrained, Unconstrained) => Ok (default LockTime_ZERO (fallback_locktime (tx_data (global p))))
  | (Minimum x, _) => Ok (Seconds (mkTime x))
  | (_, Minimum x) => Ok (Blocks (mkHeight x))
  | (Disallowed, Disallowed) => Err LocktimeConflict
  | (Unconstrained, Disallowed) | (Disallowed, Unconstrained) => Err PsetPanic
  end.

(** ** Extraction *)

Definition sanity_check (p : PartiallySignedTransaction) : result () pset_error :=
  if negb (n_inputs p =? length (inputs p))%nat then Err InputCountMismatch
  else if negb (n_outputs p =? length (outputs p))%nat then Err OutputCountMismatch
  else Ok ().

Definition extract_input (i : PsetInput) : TxIn :=
  mkTxIn (mkOutPoint (previous_txid i) (previous_output_index i)) (pset_is_pegin i)
    (default [] (final_script_sig i)) (default Sequence_MAX (i_sequence i)) (pset_asset_issuance i)
    (mkTxInWitness (issuance_value_rangeproof i) (issuance_keys_rangeproof i)
       (default [] (final_script_witness i)) (default [] (i_pegin_witness i))).

Definition extract_output (o : PsetOutput) : result TxOut pset_error :=
  let? asset := match asset_comm o, o_asset o with
                | Some gen, _ => Ok (AssetConfidential gen)
                | None, Some a => Ok (AssetExplicit a)
                | None, None => Err MissingOutputValue
                end in
  let? value := match amount_comm o, o_amount o with
                | Some comm, _ => Ok (ValueConfidential comm)
                | None, Some x => Ok (ValueExplicit x)
                | None, None => Err MissingOutputAsset
                end in
  Ok (mkTxOut asset value (nonce_of (ecdh_pubkey o)) (o_script_pubkey o)
        (mkTxOutWitness (asset_surjection_proof o) (value_rangeproof o))).

Definition extract_tx (p : PartiallySignedTransaction) : result Transaction pset_error :=
  let? _ := sanity_check p in
  let? lock := locktime p in
  let? outs := rmapM extract_output (outputs p) in
  Ok (mkTransaction (tx_version (tx_data (global p))) lock (map extract_input (inputs p)) outs).

Definition zero_sequence (i : TxIn) : TxIn :=
  mkTxIn (previous_output i) (is_pegin i) (script_sig i) Sequence_ZERO (asset_issuance i) (in_witness i).

Definition unique_id (p : PartiallySignedTransaction) : result bytes pset_error :=
  let? tx := extract_tx p in
  Ok (sha256d (encode_base (mkTransaction (version tx) (lock_time tx)
                              (map zero_sequence (input tx)) (output tx)))).
End code.

(** ** Merging *)

(** The [merge!] macro: keep one's own value. *)
Definition or_else {A} (mine theirs : option A) : option A :=
  match mine with Some _ => mine | None => theirs end.

(** [BTreeMap::extend]: the other's entries replace one's own. *)
Definition extend `{Countable K} {A} (mine theirs : gmap K A) : gmap K A := theirs ∪ mine.

(** [cmp::max] on optional numbers. *)
Definition option_max (f : Z -> Z -> Z) (a b : option Z) : option Z :=
  match a, b with
  | None, _ => b
  | _, None => a
  | Some x, Some y => Some (f x y)
  end.

(** [Vec::dedup]: equal neighbours once. *)
Fixpoint dedup {A} `{EqDecision A} (l : list A) : list A :=
  match l with
  | a :: ((b :: _) as l') => if bool_decide (a = b) then dedup l' else a :: dedup l'
  | _ => l
  end.

#[export] Instance result_eq_dec {A B} `{EqDecision A, EqDecision B} : EqDecision (result A B).
Proof. solve_decision. Defined.

Section merge.
Context {P : Platform} {S : Secp} {H : Hashes} {M : Midstates} {T : TapEnv} {C : SchnorrEnv}
  {E : PsetEnv}.

Definition merge_input (a b : PsetInput) : PsetInput :=
  let m {A} (f : PsetInput -> option A) : option A := or_else (f a) (f b) in
  let non_witness := m non_witness_utxo in
  mkInput
    (match witness_utxo a, witness_utxo b with None, Some _ => None | _, _ => non_witness end)
    (m witness_utxo)
    (extend (partial_sigs a) (partial_sigs b))
    (sighash_type a)
    (m i_redeem_script) (m i_witness_script)
    (extend (i_bip32_derivation a) (i_bip32_derivation b))
    (m final_script_sig) (m final_script_witness)
    (extend (ripemd160_preimages a) (ripemd160_preimages b))
    (extend (sha256_preimages a) (sha256_preimages b))
    (extend (hash160_preimages a) (hash160_preimages b))
    (extend (hash256_preimages a) (hash256_preimages b))
    (previous_txid a) (previous_output_index a) (i_sequence a)
    (mkTime <$> option_max Z.max (time_u32 <$> required_time_locktime a)
                                 (time_u32 <$> required_time_locktime b))
    (mkHeight <$> option_max Z.max (height_u32 <$> required_height_locktime a)
                                   (height_u32 <$> required_height_locktime b))
    (m tap_key_sig)
    (extend (tap_script_sigs a) (tap_script_sigs b))
    (extend (tap_scripts a) (tap_scripts b))
    (extend (i_tap_key_origins a) (i_tap_key_origins b))
    (m i_tap_internal_key) (m tap_merkle_root)
    (m issuance_value_amount) (m issuance_value_comm) (m issuance_value_rangeproof)
    (m issuance_keys_rangeproof) (m pegin_tx) (m pegin_txout_proof) (m pegin_genesis_hash)
    (m pegin_claim_script) (m pegin_value) (m i_pegin_witness) (m issuance_inflation_keys)
    (m issuance_inflation_keys_comm) (m issuance_blinding_nonce) (m issuance_asset_entropy)
    (m in_utxo_rangeproof) (m in_issuance_blind_value_proof)
    (m in_issuance_blind_inflation_keys_proof) (m i_amount) (m i_blind_value_proof) (m i_asset)
    (m i_blind_asset_proof) (m blinded_issuance)
    (extend (i_proprietary a) (i_proprietary b)) (extend (i_unknown a) (i_unknown b)).

(** Amounts, assets and the script are left as they are. *)
Definition merge_output (a b : PsetOutput) : PsetOutput :=
  let m {A} (f : PsetOutput -> option A) : option A := or_else (f a) (f b) in
  mkOutput (m o_redeem_script) (m o_witness_script)
    (extend (o_bip32_derivation a) (o_bip32_derivation b))
    (m o_tap_internal_key) (m tap_tree_)
    (extend (o_tap_key_origins a) (o_tap_key_origins b))
    (o_amount a) (amount_comm a) (o_script_pubkey a) (o_asset a) (asset_comm a)
    (m value_rangeproof) (m asset_surjection_proof) (m blinding_key) (m ecdh_pubkey)
    (m blinder_index) (m o_blind_value_proof) (m o_blind_asset_proof)
    (extend (o_proprietary a) (o_proprietary b)) (extend (o_unknown a) (o_unknown b)).

(** The conflict of two key sources of one extended key, as the branches are written:
    [theirs] is [derivation1], [mine] is [derivation2].  The subtraction of the third branch
    panics when [theirs] is the shorter path. *)
Definition merge_key_source (mine theirs : KeySource) : result KeySource pset_error :=
  let '(fingerprint2, derivation2) := mine in
  let '(fingerprint1, derivation1) := theirs in
  if bool_decide (derivation1 = derivation2) && bool_decide (fingerprint1 = fingerprint2)
  then Ok mine
  else if (length derivation1 <? length derivation2)%nat &&
          bool_decide (derivation1 = drop (length derivation2 - length derivation1) derivation2)
  then Ok mine
  else if (length derivation1 <? length derivation2)%nat then Err PsetPanic
  else if bool_decide (derivation2 = drop (length derivation1 - length derivation2) derivation1)
  then Ok theirs
  else Err MergeConflict.

(** The loop over the other's extended keys; what was merged before an error stays. *)
Fixpoint merge_xpubs (mine : gmap Xpub KeySource) (theirs : list (Xpub * KeySource))
  : result () pset_error * gmap Xpub KeySource :=
  match theirs with
  | [] => (Ok (), mine)
  | (x, src) :: theirs =>
      match mine !! x with
      | None => merge_xpubs (<[x := src]> mine) theirs
      | Some old =>
          match merge_key_source old src with
          | Ok new => merge_xpubs (<[x := new]> mine) theirs
          | Err e => (Err e, mine)
          end
      end
  end.

(** [Global::merge]. *)
Definition merge_global (a b : Global) : result () pset_error * Global :=
  let d := tx_data a in
  let d := mkTxData (tx_version d) (fallback_locktime d) (input_count d) (output_count d)
             (Some (Z.lor (default 0 (tx_modifiable d)) (default 0 (tx_modifiable (tx_data b))))) in
  let version := Z.max (pset_version a) (pset_version b) in
  let '(r, xs) := merge_xpubs (xpub a) (sort_by (cmp_by fst xpub_cmp) (map_to_list (xpub b))) in
  match r with
  | Err e => (Err e, mkGlobal d version xs (scalars a) (elements_tx_modifiable_flag a)
                       (g_proprietary a) (g_unknown a))
  | Ok _ =>
      (Ok (), mkGlobal d version xs (dedup (sort_by tweak_cmp (scalars a ++ scalars b)))
                (or_else (elements_tx_modifiable_flag a) (elements_tx_modifiable_flag b))
                (extend (g_proprietary a) (g_proprietary b)) (extend (g_unknown a) (g_unknown b)))
  end.

(** [iter_mut().zip(..)]: the elements that have a counterpart are merged. *)
Fixpoint zip_merge {A} (f : A -> A -> A) (l l' : list A) : list A :=
  match l, l' with
  | a :: l, b :: l' => f a b :: zip_merge f l l'
  | _, _ => l
  end.

(** [PartiallySignedTransaction::merge]: the result, and the PSET after it. *)
Definition pset_merge (a b : PartiallySignedTransaction)
  : result () pset_error * PartiallySignedTransaction :=
  if negb (bool_decide (unique_id a = unique_id b)) then
    (let? expected := unique_id a in
     let? actual := unique_id b in
     Err (UniqueIdMismatch expected actual), a)
  else
    let '(r, g) := merge_global (global a) (global b) in
    match r with
    | Err e => (Err e, mkPset g (inputs a) (outputs a))
    | Ok _ => (Ok (), mkPset g (zip_merge merge_input (inputs a) (inputs b))
                        (zip_merge merge_output (outputs a) (outputs b)))
    end.
End merge.

(** ** Counts *)

Section invariants.
Context {P : Platform} {S : Secp} {H : Hashes} {M : Midstates} {T : TapEnv} {C : SchnorrEnv}
  {E : PsetEnv}.

(** The operations through which a PSET is built. *)
Inductive pset_step : PartiallySignedTransaction -> PartiallySignedTransaction -> Prop :=
| step_add_input i p : pset_step p (add_input i p)
| step_insert_input i k p p' : insert_input i k p = Some p' -> pset_step p p'
| step_remove_input k p : pset_step p (snd (remove_input k p))
| step_add_output o p : pset_step p (add_output o p)
| step_insert_output o k p p' : insert_output o k p = Some p' -> pset_step p p'
| step_remove_output k p : pset_step p (snd (remove_output k p))
| step_merge p q : pset_step p (snd (pset_merge p q)).

Definition counts_ok (p : PartiallySignedTransaction) : Prop :=
  n_inputs p = length (inputs p) /\ n_outputs p = length (outputs p).

Lemma sanity_check_ok p : sanity_check p = Ok () <-> counts_ok p.
Proof.
  unfold sanity_check, counts_ok.
  destruct (Nat.eqb_spec (n_inputs p) (length (inputs p))),
    (Nat.eqb_spec (n_outputs p) (length (outputs p))); simpl; naive_solver.
Qed.

Lemma vec_insert_length {A} k (a : A) l l' : vec_insert k a l = Some l' -> length l' = (length l + 1)%nat.
Proof.
  unfold vec_insert. destruct (Nat.leb_spec k (length l)) as [Hk|]; [|done]. intros [= <-].
  rewrite length_app. simpl. rewrite length_take, length_drop. lia.
Qed.

Lemma zip_merge_length {A} (f : A -> A -> A) l l' : length (zip_merge f l l') = length l.
Proof. revert l'. induction l as [|a l IH]; intros [|b l']; simpl; auto. Qed.

Lemma merge_global_counts a b :
  input_count (tx_data (snd (merge_global a b))) = input_count (tx_data a) /\
  output_count (tx_data (snd (merge_global a b))) = output_count (tx_data a).
Proof. unfold merge_global. destruct (merge_xpubs _ _) as [[]]; done. Qed.

Lemma pset_step_counts p p' : pset_step p p' -> counts_ok p -> counts_ok p'.
Proof.
  unfold counts_ok, n_inputs, n_outputs.
  destruct 1 as [i p|i k p p' Hi|k p|o p|o k p p' Ho|k p|p q]; intros [Hin Hout]; simpl; unfold n_inputs, n_outputs in *.
  - rewrite length_app. simpl. lia.
  - apply bind_Some in Hi as (l & Hl%vec_insert_length & [= <-]). simpl. rewrite length_map. unfold n_inputs, n_outputs. lia.
  - unfold remove_input. destruct (inputs p !! k) eqn:Ek; simpl; [|done].
    apply lookup_lt_Some in Ek as Hk. rewrite length_delete by (by eexists). unfold n_inputs, n_outputs. lia.
  - rewrite length_app. simpl. lia.
  - apply bind_Some in Ho as (l & Hl%vec_insert_length & [= <-]). simpl. unfold n_inputs, n_outputs. lia.
  - unfold remove_output. destruct (outputs p !! k) eqn:Ek; simpl; [|done].
    apply lookup_lt_Some in Ek as Hk. rewrite length_delete by (by eexists). unfold n_inputs, n_outputs. lia.
  - unfold pset_merge. destruct (negb _); [done|].
    destruct (merge_global_counts (global p) (global q)) as [Hi Ho].
    destruct (merge_global (global p) (global q)) as [[] g]; simpl in *; rewrite Hi, Ho, ?zip_merge_length; done.
Qed.

(** ** The lock time *)

Definition allows (k : Locktime) (y : Z) : Prop :=
  match k with Unconstrained => True | Minimum x => x <= y | Disallowed => False end.

Lemma allows_max a b y : allows (Locktime_max a b) y <-> allows a y /\ allows b y.
Proof. destruct a, b; simpl; rewrite ?Z.max_lub_iff; tauto. Qed.

(** When a lock time meets the requirements of an input. *)
Definition meets (l : LockTime) (i : PsetInput) : Prop :=
  match required_time_locktime i, required_height_locktime i, l with
  | None, None, _ => True
  | Some t, _, Seconds y => time_u32 t <= time_u32 y
  | _, Some h, Blocks y => height_u32 h <= height_u32 y
  | _, _, _ => False
  end.

Definition requires_nothing (i : PsetInput) : Prop :=
  required_time_locktime i = None /\ required_height_locktime i = None.

(** What an input says about each kind of lock time. *)
Definition time_req (i : PsetInput) : Locktime :=
  match required_time_locktime i, required_height_locktime i with
  | Some t, _ => Minimum (time_u32 t)
  | None, Some _ => Disallowed
  | None, None => Unconstrained
  end.
Definition height_req (i : PsetInput) : Locktime :=
  match required_height_locktime i, required_time_locktime i with
  | Some h, _ => Minimum (height_u32 h)
  | None, Some _ => Disallowed
  | None, None => Unconstrained
  end.

Lemma add_requirement_max acc i :
  add_requirement acc i = (Locktime_max acc.1 (time_req i), Locktime_max acc.2 (height_req i)).
Proof.
  destruct acc as [t h]. unfold add_requirement, time_req, height_req. simpl.
  destruct (required_time_locktime i), (required_height_locktime i), t, h; reflexivity.
Qed.

Lemma req_spec i :
  (forall y, meets (Seconds y) i <-> allows (time_req i) (time_u32 y)) /\
  (forall y, meets (Blocks y) i <-> allows (height_req i) (height_u32 y)) /\
  (time_req i = Unconstrained <-> requires_nothing i) /\
  (height_req i = Unconstrained <-> requires_nothing i).
Proof.
  unfold meets, time_req, height_req, requires_nothing.
  destruct (required_time_locktime i), (required_height_locktime i); simpl;
    repeat split; intros; try done; naive_solver.
Qed.

Lemma max_unconstrained a b :
  Locktime_max a b = Unconstrained <-> a = Unconstrained /\ b = Unconstrained.
Proof. destruct a, b; simpl; naive_solver. Qed.

Lemma requirements_spec l :
  let '(t, h) := foldl add_requirement (Unconstrained, Unconstrained) l in
  (forall y, Forall (meets (Seconds y)) l <-> allows t (time_u32 y)) /\
  (forall y, Forall (meets (Blocks y)) l <-> allows h (height_u32 y)) /\
  (t = Unconstrained <-> Forall requires_nothing l) /\
  (h = Unconstrained <-> Forall requires_nothing l).
Proof.
  induction l as [|i l IH] using rev_ind.
  { repeat split; intros; simpl; try done; apply List.Forall_nil. }
  rewrite foldl_app. simpl. rewrite add_requirement_max.
  destruct (foldl _ _ l) as [t h]. destruct IH as (Ht & Hh & Ut & Uh). simpl.
  destruct (req_spec i) as (It & Ih & Vt & Vh).
  split; [|split; [|split]]; [intros y..| |]; rewrite Forall_app, Forall_singleton.
  - by rewrite Ht, It, allows_max.
  - by rewrite Hh, Ih, allows_max.
  - by rewrite max_unconstrained, Ut, Vt.
  - by rewrite max_unconstrained, Uh, Vh.
Qed.
End invariants.

Section extraction.
Context {P : Platform} {S : Secp} {H : Hashes} {M : Midstates} {T : TapEnv} {C : SchnorrEnv}
  {E : PsetEnv}.

Lemma locktime_conflict p e : locktime p = Err e -> e = LocktimeConflict.
Proof.
  unfold locktime. pose proof (requirements_spec (inputs p)) as Hs.
  destruct (foldl _ _ _) as [t h]. destruct Hs as (_ & _ & [U1 U2] & [U3 U4]).
  destruct t, h; simpl; try done; try congruence;
    first [discriminate (U4 (U1 eq_refl)) | discriminate (U2 (U3 eq_refl))].
Qed.

Lemma value_of_parts v : value_of (explicit_part v) (commitment_part v) = v.
Proof. by destruct v. Qed.

(** The index a PSET input gets from a transaction input: with the flag bits. *)
Definition flagged_vout (i : TxIn) : Z := pack_vout (vout (previous_output i)) (is_pegin i) (has_issuance i).

(** Everything of an input that a transaction id covers, as the extraction gives it back. *)
Lemma extract_from_txin i :
  let x := extract_input (from_txin i) in
  previous_output x = mkOutPoint (txid (previous_output i)) (flagged_vout i) /\
  script_sig x = script_sig i /\ sequence x = sequence i /\
  asset_issuance x =
    (if has_issuance i then
       let a := asset_issuance i in
       mkIssuance (asset_blinding_nonce a) (asset_entropy a) (amount a) (inflation_keys a) 8
     else AssetIssuance_null) /\
  in_witness x = mkTxInWitness (if has_issuance i then amount_rangeproof (in_witness i) else None)
                   (if has_issuance i then inflation_keys_rangeproof (in_witness i) else None)
                   (script_witness (in_witness i))
                   (if is_pegin i then pegin_witness (in_witness i) else []).
Proof.
  destruct i as [op pg sc sq iss w]. unfold from_txin, extract_input, flagged_vout, pack_vout,
    pset_asset_issuance. simpl.
  destruct pg, (has_issuance _); simpl; rewrite ?value_of_parts; by split_and!.
Qed.

Lemma pack_vout_idem v p i : pack_vout (pack_vout v p i) p i = pack_vout v p i.
Proof.
  unfold pack_vout. destruct p, i; try done; rewrite <-!Z.lor_assoc; f_equal;
    rewrite ?Z.lor_diag; done.
Qed.

Lemma flagged_pegin v p i : 0 <= v < 2 ^ 30 ->
  negb (Z.land (pack_vout v p i) (Z.shiftl 1 30) =? 0) = p.
Proof.
  intros Hv. rewrite pack_vout_sum by done. rewrite Z.shiftl_1_l, land_pow2 by lia.
  replace (v + flag 30 p + flag 31 i) with (v + ((if p then 1 else 0) + (if i then 2 else 0)) * 2 ^ 30)
    by (unfold flag; destruct p, i; lia).
  rewrite Z.div_add, Z.div_small by lia. by destruct p, i.
Qed.

(** An input that a PSET can carry: not a coinbase, and of the usual denomination. *)
Definition carried_in (i : TxIn) : Prop :=
  0 <= vout (previous_output i) < 2 ^ 30 /\
  (has_issuance i = true -> denomination (asset_issuance i) = 8).

(** An output that survives: with an asset and a value, and a nonce only if it is blinded. *)
Definition carried_out (o : TxOut) : Prop :=
  asset o <> AssetNull /\ value o <> ValueNull /\
  match nonce o with
  | NonceNull => True
  | NonceExplicit _ => False
  | NonceConfidential _ => txout_is_partially_blinded o = true
  end.

(** An input that keeps every field. *)
Definition plain_in (i : TxIn) : Prop :=
  is_pegin i = false /\ asset_issuance i = AssetIssuance_null /\
  amount_rangeproof (in_witness i) = None /\ inflation_keys_rangeproof (in_witness i) = None /\
  pegin_witness (in_witness i) = [].

Lemma extract_from_txin_issuance i : has_issuance (extract_input (from_txin i)) = has_issuance i.
Proof.
  unfold has_issuance at 1. destruct (extract_from_txin i) as (_ & _ & _ & -> & _).
  destruct (has_issuance i) eqn:E0; [|done]. exact E0.
Qed.

Lemma extract_from_txin_encode i :
  carried_in i -> encode_TxIn (extract_input (from_txin i)) = encode_TxIn i.
Proof.
  intros [Hv Hd]. unfold encode_TxIn. rewrite extract_from_txin_issuance.
  destruct (extract_from_txin i) as (Ho & Hs & Hq & Ha & _).
  assert (Hp : is_pegin (extract_input (from_txin i)) = is_pegin i).
  { change (negb (Z.land (vout (previous_output (extract_input (from_txin i)))) (Z.shiftl 1 30) =? 0)
      = is_pegin i). rewrite Ho. by apply flagged_pegin. }
  rewrite Hp, Ho, Hs, Hq, Ha. cbn [txid vout]. unfold flagged_vout. rewrite pack_vout_idem.
  destruct (has_issuance i); [|done]. unfold encode_AssetIssuance. simpl. by rewrite Hd.
Qed.

Lemma extract_plain i : 0 <= vout (previous_output i) < 2 ^ 30 -> plain_in i ->
  extract_input (from_txin i) = i.
Proof.
  intros Hv (Hp & Hi & Ha & Hk & Hw).
  assert (Hn : has_issuance i = false) by (unfold has_issuance; by rewrite Hi).
  destruct (extract_from_txin i) as (Eo & Es & Eq & Ea & Ew).
  assert (Epg : is_pegin (extract_input (from_txin i)) = false).
  { change (negb (Z.land (vout (previous_output (extract_input (from_txin i)))) (Z.shiftl 1 30) =? 0)
      = false). rewrite Eo. simpl. unfold flagged_vout. rewrite Hp. by apply flagged_pegin. }
  unfold flagged_vout in Eo. rewrite Hn, Hp in *. destruct (extract_input (from_txin i)) as [? ? ? ? ? ?].
  destruct i as [[] ? ? ? ? []]. simpl in *. by subst.
Qed.

Lemma extract_from_txout o : carried_out o -> extract_output (from_txout o) = Ok o.
Proof.
  intros (Ha & Hv & Hn). destruct o as [a v n spk [sp rp]]. unfold from_txout, extract_output.
  simpl in *. destruct (txout_is_partially_blinded _) eqn:Eb; destruct a, v, n; simpl in *; done.
Qed.

Lemma locktime_from_tx tx : locktime (pset_from_tx tx) = Ok (lock_time tx).
Proof.
  unfold locktime. simpl.
  assert (Hn : Forall requires_nothing (map from_txin (input tx))).
  { apply Forall_map, Forall_true. intros i. unfold from_txin, requires_nothing.
    by destruct (is_pegin i), (has_issuance i). }
  pose proof (requirements_spec (map from_txin (input tx))) as Hs.
  destruct (foldl _ _ _) as [t h]. destruct Hs as (_ & _ & Ut & Uh).
  by rewrite (proj2 Ut Hn), (proj2 Uh Hn).
Qed.

Lemma rmapM_map_id {A B F} (f : B -> result A F) (g : A -> B) l :
  Forall (fun a => f (g a) = Ok a) l -> rmapM f (map g l) = Ok l.
Proof. induction 1 as [|a l Ha _ IH]; simpl; [done|]. by rewrite Ha, IH. Qed.

(** ** Merging and the unsigned transaction *)

Lemma or_else_default {A} (d : A) a b : default d a = default d b -> default d (or_else a b) = default d a.
Proof. by destruct a. Qed.

Lemma value_of_or a b c d :
  value_of a b = value_of c d -> value_of (or_else a c) (or_else b d) = value_of a b.
Proof. destruct a, b, c, d; simpl; congruence. Qed.

(** What of an extracted input the id of a PSET covers. *)
Definition id_input (i : TxIn) : TxIn := strip_in (zero_sequence i).

Lemma merge_input_id a b :
  id_input (extract_input a) = id_input (extract_input b) ->
  id_input (extract_input (merge_input a b)) = id_input (extract_input a).
Proof.
  unfold id_input, strip_in, zero_sequence, set_in_witness, extract_input, pset_asset_issuance,
    pset_is_pegin. simpl. intros [=]. f_equal.
  - by apply or_else_default.
  - f_equal; [by apply or_else_default..|by apply value_of_or|by apply value_of_or].
Qed.

Lemma merge_output_id a b x y :
  extract_output a = Ok x -> extract_output b = Ok y -> strip_out x = strip_out y ->
  exists z, extract_output (merge_output a b) = Ok z /\ strip_out z = strip_out x.
Proof.
  unfold extract_output. intros (as1 & Ea & (v1 & Ev & [= <-])%rbind_ok)%rbind_ok.
  intros (as2 & Eb & (v2 & Ew & [= <-])%rbind_ok)%rbind_ok.
  unfold strip_out, set_out_witness. simpl. intros [= -> -> Hn Hs].
  rewrite Ea. simpl. rewrite Ev. simpl. eexists. split; [done|]. simpl. f_equal.
  destruct (ecdh_pubkey a), (ecdh_pubkey b); simpl in *; congruence.
Qed.

(** The transaction whose id identifies a PSET. *)
Definition unsigned (p : PartiallySignedTransaction) : result Transaction pset_error :=
  let? tx := extract_tx p in
  Ok (mkTransaction (version tx) (lock_time tx) (map id_input (input tx)) (map strip_out (output tx))).

Lemma unique_id_unsigned p :
  unique_id p = (let? tx := unsigned p in Ok (sha256d (encode_base tx))).
Proof.
  unfold unique_id, unsigned. destruct (extract_tx p) as [tx|]; [|done]. simpl. do 2 f_equal.
  unfold encode_base, encode_vec. simpl. by rewrite !length_map, !map_map.
Qed.

Definition same_requirements (i j : PsetInput) : Prop :=
  required_time_locktime i = required_time_locktime j /\
  required_height_locktime i = required_height_locktime j.

Lemma merge_requirements i j :
  same_requirements i j ->
  required_time_locktime (merge_input i j) = required_time_locktime i /\
  required_height_locktime (merge_input i j) = required_height_locktime i.
Proof.
  intros [Ht Hh]. simpl. rewrite <-Ht, <-Hh. split.
  - destruct (required_time_locktime i) as [[]|]; simpl; [by rewrite Z.max_id|done].
  - destruct (required_height_locktime i) as [[]|]; simpl; [by rewrite Z.max_id|done].
Qed.

Lemma add_requirement_same acc i j :
  same_requirements i j -> add_requirement acc i = add_requirement acc j.
Proof. intros [Ht Hh]. unfold add_requirement. by rewrite Ht, Hh. Qed.

Lemma requirements_same l l' acc :
  Forall2 same_requirements l l' -> foldl add_requirement acc l = foldl add_requirement acc l'.
Proof.
  intros Hl. revert acc. induction Hl as [|i j l l' Hij _ IH]; intros acc; simpl; [done|].
  by rewrite (add_requirement_same acc i j).
Qed.

Lemma zip_merge_Forall2 {A} (f : A -> A -> A) (R Q : A -> A -> Prop) l l' :
  (forall a b, R a b -> Q (f a b) a) -> Forall2 R l l' -> Forall2 Q (zip_merge f l l') l.
Proof. intros Hf. induction 1; simpl; constructor; auto. Qed.

Lemma merge_global_keeps a b :
  let g := snd (merge_global a b) in
  tx_version (tx_data g) = tx_version (tx_data a) /\
  fallback_locktime (tx_data g) = fallback_locktime (tx_data a).
Proof. unfold merge_global. destruct (merge_xpubs _ _) as [[]]; done. Qed.

Lemma unsigned_ok p t :
  unsigned p = Ok t <->
  counts_ok p /\ locktime p = Ok (lock_time t) /\ tx_version (tx_data (global p)) = version t /\
  map (fun i => id_input (extract_input i)) (inputs p) = input t /\
  exists outs, Forall2 (fun o x => extract_output o = Ok x) (outputs p) outs /\
    map strip_out outs = output t.
Proof.
  unfold unsigned, extract_tx. rewrite <-sanity_check_ok. split.
  - intros (tx & ([] & Hs & (lk & Hl & (outs & Ho%rmapM_ok & [= <-])%rbind_ok)%rbind_ok)%rbind_ok
      & [= <-])%rbind_ok. simpl. rewrite map_map. eauto 10.
  - intros (Hs & Hl & Hv & Hi & outs & Ho%rmapM_ok & Hw). rewrite Hs, Hl, Ho. simpl.
    rewrite map_map, Hv, Hi, Hw. by destruct t.
Qed.

Lemma zip_merge_outputs l l' xs ys :
  Forall2 (fun o x => extract_output o = Ok x) l xs ->
  Forall2 (fun o x => extract_output o = Ok x) l' ys -> map strip_out xs = map strip_out ys ->
  exists zs, Forall2 (fun o x => extract_output o = Ok x) (zip_merge merge_output l l') zs /\
    map strip_out zs = map strip_out xs.
Proof.
  intros Hl. revert l' ys. induction Hl as [|o x l xs Hx _ IH]; intros l' ys Hl' E0.
  { exists []. by split. }
  destruct Hl' as [|o' y l' ys Hy Hl']; [done|]. cbn [map] in E0. injection E0 as E1 E2.
  destruct (merge_output_id o o' x y Hx Hy) as (z & Hz & Ez).
  { unfold strip_out, set_out_witness. congruence. }
  destruct (IH l' ys Hl' ltac:(done)) as (zs & Hzs & Ezs).
  exists (z :: zs). cbn [zip_merge map]. split; [by constructor|]. by rewrite Ez, Ezs.
Qed.

Lemma zip_merge_inputs l l' :
  map (fun i => id_input (extract_input i)) l = map (fun i => id_input (extract_input i)) l' ->
  map (fun i => id_input (extract_input i)) (zip_merge merge_input l l') =
  map (fun i => id_input (extract_input i)) l.
Proof.
  revert l'. induction l as [|i l IH]; intros [|j l']; try done. cbn [map zip_merge].
  intros E0. assert (E1 : id_input (extract_input i) = id_input (extract_input j)) by congruence.
  rewrite (merge_input_id i j E1). f_equal. apply IH. congruence.
Qed.
End extraction.

(** ** Claims *)

Section claims.
Context {P : Platform} {S : Secp} {H : Hashes} {M : Midstates} {T : TapEnv} {C : SchnorrEnv}
  {E : PsetEnv}.

(** The input and output counts of the global map always agree with the lists: a PSET
    made empty or from a transaction, and then changed by adding, inserting, removing and
    merging (also by merges that fail), passes [sanity_check]. *)
Theorem pset_counts_invariant (p0 p : PartiallySignedTransaction) :
  (p0 = new_v2 \/ exists tx, p0 = pset_from_tx tx) -> rtc pset_step p0 p ->
  sanity_check p = Ok ().
Proof.
  intros H0 Hr. apply sanity_check_ok.
  assert (Hc : counts_ok p0).
  { destruct H0 as [-> |[tx ->]]; [done|]. unfold counts_ok. simpl. by rewrite !length_map. }
  clear H0. induction Hr as [p|p q r Hs _ IH]; [done|]. by apply IH, (pset_step_counts p).
Qed.

(** [locktime] is the least lock time that meets every input's requirement: with no
    requirement it is the fallback (or zero); otherwise, if some time meets all of them,
    the least such time; otherwise the least such height; it reports a conflict exactly
    when no lock time does, and the branches marked unreachable are. *)
Theorem pset_locktime_least (p : PartiallySignedTransaction) :
  match locktime p with
  | Ok l =>
      Forall (meets l) (inputs p) /\
      (Forall requires_nothing (inputs p) ->
       l = default LockTime_ZERO (fallback_locktime (tx_data (global p)))) /\
      (~ Forall requires_nothing (inputs p) ->
       match l with
       | Seconds t => forall y, Forall (meets (Seconds y)) (inputs p) -> time_u32 t <= time_u32 y
       | Blocks h => (forall y, ~ Forall (meets (Seconds y)) (inputs p)) /\
                     forall y, Forall (meets (Blocks y)) (inputs p) -> height_u32 h <= height_u32 y
       end)
  | Err e => e = LocktimeConflict /\ forall l, ~ Forall (meets l) (inputs p)
  end.
Proof.
  unfold locktime. pose proof (requirements_spec (inputs p)) as Hs.
  destruct (foldl _ _ _) as [t h]. destruct Hs as (Ht & Hh & Ut & Uh).
  destruct t as [|x|], h as [|y|]; simpl.
  all: try (exfalso; destruct Ut as [U1 U2], Uh as [U3 U4]; (discriminate (U4 (U1 eq_refl))
         || discriminate (U2 (U3 eq_refl)))).
  - pose proof (proj1 Ut eq_refl) as Hn. split; [|by split].
    eapply Forall_impl; [exact Hn|]. intros i [Hi Hj]. unfold meets. by rewrite Hi, Hj.
  - split; [apply Ht; simpl; lia|]. split; [intros Hn; by apply Ut in Hn|]. intros _ z. by rewrite Ht.
  - split; [apply Ht; simpl; lia|]. split; [intros Hn; by apply Ut in Hn|]. intros _ z. by rewrite Ht.
  - split; [apply Hh; simpl; lia|]. split; [intros Hn; by apply Ut in Hn|]. intros _.
    split; intros z; rewrite ?Ht, ?Hh; auto.
  - split; [done|]. intros [z|z]; rewrite ?Ht, ?Hh; auto.
Qed.

(** C18: From a transaction to a PSET and back.  If no input is a coinbase or issues with an
    unusual denomination, and every output has an asset, a value and no nonce unless it is
    blinded, the extraction succeeds with the same id and the same outputs, and gives back
    the very transaction when no input is a peg-in or an issuance. *)
Theorem pset_from_tx_extract (tx : Transaction) :
  Forall carried_in (input tx) -> Forall carried_out (output tx) ->
  exists tx', extract_tx (pset_from_tx tx) = Ok tx' /\ output tx' = output tx /\
    encode_base tx' = encode_base tx /\ (Forall plain_in (input tx) -> tx' = tx).
Proof.
  intros Hi Ho. unfold extract_tx. rewrite locktime_from_tx.
  rewrite (proj2 (sanity_check_ok (pset_from_tx tx))).
  2: { unfold counts_ok. simpl. by rewrite !length_map. }
  simpl. rewrite rmapM_map_id.
  2: { eapply Forall_impl; [exact Ho|]. intros o. apply extract_from_txout. }
  simpl. eexists. split; [done|]. split; [done|]. split.
  - unfold encode_base, encode_vec. simpl. rewrite !length_map, !map_map.
    assert (Em : map (fun x => encode_TxIn (extract_input (from_txin x))) (input tx) =
                 map encode_TxIn (input tx)); [|by rewrite Em].
    apply map_ext_Forall. eapply Forall_impl; [exact Hi|]. intros i. apply extract_from_txin_encode.
  - intros Hp. destruct tx as [v l ins outs]. simpl in *. f_equal.
    rewrite map_map. etransitivity; [|apply map_id]. apply map_ext_Forall.
    apply Forall_forall. intros i Hin. rewrite Forall_forall in Hi, Hp.
    apply extract_plain; [apply (Hi i Hin)|apply (Hp i Hin)].
Qed.

(** C19: Merging does not change what is signed: when two PSETs describe the same unsigned
    transaction and their inputs require the same lock times, a successful merge describes
    it too, and keeps the unique id. *)
Theorem pset_merge_keeps_transaction (a b : PartiallySignedTransaction) (t : Transaction) :
  unsigned a = Ok t -> unsigned b = Ok t -> Forall2 same_requirements (inputs a) (inputs b) ->
  fst (pset_merge a b) = Ok () ->
  unsigned (snd (pset_merge a b)) = Ok t /\ unique_id (snd (pset_merge a b)) = unique_id a.
Proof.
  intros Ha Hb Hreq Hm.
  assert (Hu : unsigned (snd (pset_merge a b)) = Ok t);
    [|by rewrite !unique_id_unsigned, Hu, Ha].
  revert Hm. unfold pset_merge. rewrite !unique_id_unsigned, Ha, Hb, bool_decide_true by done. simpl.
  pose proof (merge_global_counts (global a) (global b)) as [Hci Hco].
  pose proof (merge_global_keeps (global a) (global b)) as [Hv Hf].
  destruct (merge_global (global a) (global b)) as [[u|e] g]; simpl in *; [|done]. intros _.
  apply unsigned_ok in Ha as ([Hi Ho] & Hl & Hver & Hins & xs & Hxs & Ex).
  apply unsigned_ok in Hb as (_ & _ & _ & Hins' & ys & Hys & Ey).
  apply unsigned_ok. unfold counts_ok, n_inputs, n_outputs in *. simpl.
  rewrite !zip_merge_length, Hci, Hco, Hv. split; [done|]. split.
  { unfold locktime in *. simpl. rewrite Hf.
    rewrite (requirements_same (zip_merge merge_input (inputs a) (inputs b)) (inputs a)); [done|].
    eapply zip_merge_Forall2; [|exact Hreq]. intros i j Hij. apply merge_requirements in Hij as [? ?].
    by split. }
  split; [done|]. split; [rewrite zip_merge_inputs; congruence|].
  destruct (zip_merge_outputs _ _ _ _ Hxs Hys ltac:(congruence)) as (zs & Hzs & Ezs).
  exists zs. split; [done|congruence].
Qed.

(** How two key sources of one extended key are merged.  Equal sources stay; of a path
    and a longer one it ends, the longer wins.  The two remaining cases depart from what is
    documented as an error: with equal paths the other's fingerprint silently replaces
    one's own, and when the other's path is shorter and not a suffix the merge panics
    instead of reporting the conflict it reports in the opposite direction. *)
Theorem merge_key_source_cases (f1 f2 : bytes) (d1 d2 : list Z) :
  merge_key_source (f2, d2) (f1, d1) =
  if bool_decide (d1 = d2) then Ok (f1, d2)
  else if (length d1 <? length d2)%nat then
    if bool_decide (d1 `suffix_of` d2) then Ok (f2, d2) else Err PsetPanic
  else if bool_decide (d2 `suffix_of` d1) then Ok (f1, d1) else Err MergeConflict.
Proof.
  assert (Hsuf : forall d d' : list Z, (length d <= length d')%nat ->
    bool_decide (d = drop (length d' - length d) d') = bool_decide (d `suffix_of` d')).
  { intros d d' Hl. apply bool_decide_ext. split.
    - intros Ed. exists (take (length d' - length d) d').
      transitivity (take (length d' - length d) d' ++ drop (length d' - length d) d');
        [by rewrite take_drop|by rewrite <-Ed].
    - intros [k ->]. rewrite length_app, Nat.add_sub. by rewrite drop_app_length. }
  unfold merge_key_source. case_bool_decide as Ed.
  - subst d2. rewrite Nat.ltb_irrefl, Nat.sub_diag, drop_0, (bool_decide_true (d1 = d1)) by done.
    simpl. case_bool_decide; [by subst|done].
  - simpl. destruct (Nat.ltb_spec (length d1) (length d2)) as [Hl|Hl]; simpl.
    + rewrite Hsuf by lia. by case_bool_decide.
    + by rewrite Hsuf by lia.
Qed.

(** An output written to a PSET and read back with [to_txout]: a nonce survives only on an
    output that is not blinded, since [Output::is_partially_blinded] asks for a blinding key
    that [from_txout] does not set on blinded outputs. *)
Theorem txout_round_trip (o : TxOut) :
  to_txout (from_txout o) =
  mkTxOut (asset o) (value o)
    (if txout_is_partially_blinded o then NonceNull
     else match nonce o with NonceConfidential k => NonceConfidential k | _ => NonceNull end)
    (script_pubkey o) (out_witness o).
Proof.
  destruct o as [a v n spk [sp rp]]. unfold from_txout, to_txout, is_partially_blinded, is_marked_for_blinding.
  destruct (txout_is_partially_blinded _) eqn:Eb; simpl.
  - by destruct a, v.
  - revert Eb. unfold txout_is_partially_blinded, TxOutWitness_is_empty. simpl.
    destruct a, v, n, sp, rp; simpl; done.
Qed.

(** The issuance ids of a PSET input made from a transaction input are computed from the
    index with its flag bits: they are those of another outpoint. *)
Theorem pset_issuance_ids_flagged (i : TxIn) :
  has_issuance i = true -> 0 <= vout (previous_output i) < 2 ^ 30 ->
  flagged_vout i = vout (previous_output i) + flag 30 (is_pegin i) + 2 ^ 31 /\
  pset_issuance_ids (from_txin i) =
  issuance_ids (mkTxIn (mkOutPoint (txid (previous_output i)) (flagged_vout i)) (is_pegin i)
    (script_sig i) (sequence i) (asset_issuance i) (in_witness i)).
Proof.
  intros Hi Hv. split; [unfold flagged_vout; by rewrite Hi, pack_vout_sum|].
  unfold pset_issuance_ids, issuance_ids, issuance_entropy, from_txin, flagged_vout, pack_vout.
  assert (Hc : bool_decide (is_Some (commitment_part (amount (asset_issuance i)))) =
               Value_is_confidential (amount (asset_issuance i))).
  { by destruct (amount (asset_issuance i)). }
  rewrite Hi. destruct (is_pegin i); cbn -[from_entropy reissuance_token_from_entropy]; by rewrite Hc.
Qed.

(** Errors count as equal ids: two PSETs that cannot be extracted for the same reason are
    merged whatever they describe. *)
Theorem merge_of_unextractable (a b : PartiallySignedTransaction) (e : pset_error) :
  unique_id a = Err e -> unique_id b = Err e ->
  fst (pset_merge a b) = fst (merge_global (global a) (global b)).
Proof.
  intros Ha Hb. unfold pset_merge. rewrite Ha, Hb, bool_decide_true by done. simpl.
  by destruct (merge_global (global a) (global b)) as [[[]|] g].
Qed.

(** Inserting an input moves the blinder indices with it: every output that named an
    input names the same input afterwards, at any position. *)
Theorem insert_input_keeps_blinders (p p' : PartiallySignedTransaction) (x : PsetInput) (pos : nat) :
  insert_input x pos p = Some p' -> Z.of_nat (length (inputs p)) < u32_max ->
  Forall2 (fun o o' => forall i y, blinder_index o = Some i -> 0 <= i ->
    inputs p !! Z.to_nat i = Some y ->
    exists i', blinder_index o' = Some i' /\ inputs p' !! Z.to_nat i' = Some y)
    (outputs p) (outputs p').
Proof.
  unfold insert_input, vec_insert. intros Hi Hlen.
  destruct (Nat.leb_spec pos (length (inputs p))) as [Hp|]; [|done]. injection Hi as <-. simpl.
  apply Forall2_fmap_r, Forall_Forall2_diag, Forall_forall. intros o _ i y Hb H0 Hy. unfold shift_blinder. rewrite Hb.
  unfold u32_max in Hlen. unfold wrap_u32. rewrite (Z.mod_small (Z.of_nat pos)) by lia.
  apply lookup_lt_Some in Hy as Hlt.
  destruct (Z.leb_spec (Z.of_nat pos) i) as [Hge|Hlow].
  - exists (i + 1). simpl. rewrite Z.mod_small by lia. split; [done|].
    rewrite lookup_app_r by (rewrite length_take; lia). rewrite length_take.
    replace (Z.to_nat (i + 1) - min pos (length (inputs p)))%nat with (Datatypes.S (Z.to_nat i - pos)) by lia.
    simpl. rewrite lookup_drop. rewrite <-Hy. f_equal. lia.
  - exists i. split; [done|]. rewrite lookup_app_l by (rewrite length_take; lia).
    by rewrite lookup_take_lt by lia.
Qed.
End claims.

(** ** A concrete instance *)

Import TaprootSample MerkleSample.

Module PsetSample.
Export TapSighashSample TaprootSample MerkleSample.

Definition sig_check (l : bytes) : bool := (length l =? 64)%nat.
Program Definition SchnorrEnv_model : SchnorrEnv :=
  {| SchnorrSignature := Model.checked_ext sig_check; schnorr_strict := Model.checked_strict _ |}.
Next Obligation. intros [l Hl]. by apply Nat.eqb_eq. Qed.
#[export] Existing Instance SchnorrEnv_model.

Definition xpub_check (l : bytes) : bool := (length l =? 78)%nat.
#[export] Instance PsetEnv_model : PsetEnv :=
  {| BtcTx := Model.checked_ext key_check;
     Xpub := Model.checked_ext xpub_check;
     xpub_cmp := cmp_by ext_ser bytes_cmp;
     tweak_cmp := cmp_by ext_ser bytes_cmp |}.

Definition point (n : Z) (v : Z) : OutPoint := mkOutPoint (le_bytes 32 n) v.
Definition out (n : Z) : PsetOutput := new_explicit [Byte.x51] n (hash Byte.x44) None.

(** Two inputs, and an output that the owner of the second one blinds. *)
Definition two_inputs : PartiallySignedTransaction :=
  add_output (out 7 <| blinder_index := Some 1 |>)
    (add_input (from_prevout (point 2 0)) (add_input (from_prevout (point 1 0)) new_v2)).

(** The same with the first input final. *)
Definition with_script_sig (p : PartiallySignedTransaction) (s : Script) : PartiallySignedTransaction :=
  mkPset (global p)
    (match inputs p with i :: l => i <| final_script_sig := Some s |> :: l | [] => [] end) (outputs p).

Definition requiring (i : PsetInput) (t : option Z) (h : option Z) : PsetInput :=
  i <| required_time_locktime := mkTime <$> t |> <| required_height_locktime := mkHeight <$> h |>.
Definition locked_pair (t1 h1 t2 h2 : option Z) : PartiallySignedTransaction :=
  add_output (out 7) (add_input (requiring (from_prevout (point 2 0)) t2 h2)
    (add_input (requiring (from_prevout (point 1 0)) t1 h1) new_v2)).

Definition plain_tx : Transaction :=
  mkTransaction 2 (Blocks (mkHeight 77))
    [mkTxIn (point 1 5) false [Byte.x51] Sequence_MAX AssetIssuance_null
       (mkTxInWitness None None [[Byte.x01]] [])]
    [mkTxOut (AssetExplicit (hash Byte.x44)) (ValueExplicit 21) NonceNull [Byte.x00] TxOutWitness_empty].
End PsetSample.
Import PsetSample.

Lemma pset_counts_invariant_witness :
  rtc pset_step new_v2 (snd (remove_input 0 two_inputs)) /\
  sanity_check (snd (remove_input 0 two_inputs)) = Ok ().
Proof.
  assert (Hr : rtc pset_step new_v2 (snd (remove_input 0 two_inputs))).
  { eapply rtc_l; [apply step_add_input|]. eapply rtc_l; [apply step_add_input|].
    eapply rtc_l; [apply step_add_output|]. eapply rtc_l; [apply step_remove_input|]. apply rtc_refl. }
  split; [exact Hr|]. apply (pset_counts_invariant new_v2 _ (or_introl eq_refl) Hr).
Defined.

Lemma pset_from_tx_extract_witness : extract_tx (pset_from_tx plain_tx) = Ok plain_tx.
Proof.
  destruct (pset_from_tx_extract plain_tx) as (tx' & -> & _ & _ & Hp).
  - repeat constructor; simpl; try lia; done.
  - repeat constructor; simpl; done.
  - rewrite Hp; [reflexivity|]. repeat constructor.
Defined.

Lemma pset_merge_keeps_transaction_witness :
  unique_id (snd (pset_merge two_inputs two_inputs)) = unique_id two_inputs.
Proof.
  destruct (unsigned two_inputs) as [t|e] eqn:Eu.
  - apply (pset_merge_keeps_transaction two_inputs two_inputs t Eu Eu).
    + repeat constructor.
    + vm_compute. reflexivity.
  - apply (f_equal is_ok) in Eu. vm_compute in Eu. discriminate Eu.
Defined.

Lemma insert_input_keeps_blinders_witness :
  exists p', insert_input (from_prevout (point 3 0)) 1 two_inputs = Some p' /\
    Forall2 (fun o o' => forall i y, blinder_index o = Some i -> 0 <= i ->
      inputs two_inputs !! Z.to_nat i = Some y ->
      exists i', blinder_index o' = Some i' /\ inputs p' !! Z.to_nat i' = Some y)
    (outputs two_inputs) (outputs p').
Proof.
  eexists. split; [reflexivity|].
  apply (insert_input_keeps_blinders two_inputs _ (from_prevout (point 3 0)) 1); [reflexivity|].
  vm_compute. reflexivity.
Defined.

(** Removing an input leaves the indices alone: after the first input is removed, the
    output names an input that is not there. *)
Example remove_input_breaks_blinders :
  let p := snd (remove_input 0 two_inputs) in
  map blinder_index (outputs p) = [Some 1] /\ length (inputs p) = 1%nat.
Proof. split; reflexivity. Qed.

(** The unique id covers final script signatures, although it is described as the id of the
    unsigned transaction: a PSET cannot be merged with a copy in which an input that needs a
    script signature has been finalized. *)
Example unique_id_covers_script_sig :
  exists e a, fst (pset_merge two_inputs (with_script_sig two_inputs [Byte.x51])) =
    Err (UniqueIdMismatch e a).
Proof. do 2 eexists. vm_compute. reflexivity. Qed.

(** Two PSETs with the same id, and the lock time 5 as a height, whose merge has a time as
    its lock time: each of them has one input that accepts no time, and not the same one. *)
Example merge_changes_lock_time :
  let a := locked_pair None (Some 5) (Some 500000000) (Some 5) in
  let b := locked_pair (Some 500000000) (Some 5) None (Some 5) in
  unique_id a = unique_id b /\ locktime a = Ok (Blocks (mkHeight 5)) /\
  fst (pset_merge a b) = Ok () /\ locktime (snd (pset_merge a b)) = Ok (Seconds (mkTime 500000000)).
Proof. vm_compute. repeat split. Qed.

(** Merging is not commutative, even without a conflict: a non-witness UTXO is dropped when
    the witness UTXO comes from the other side, and kept when it is one's own. *)
Example merge_input_not_commutative :
  let a := from_prevout (point 1 0) in
  let b := a <| non_witness_utxo := Some plain_tx |>
             <| witness_utxo := head (output plain_tx) |> in
  non_witness_utxo (merge_input a b) = None /\
  non_witness_utxo (merge_input b a) = Some plain_tx.
Proof. split; reflexivity. Qed.
