(* ===== verification/PsetValue.v ===== *)
(** * Values of PSET key-value pairs

    [rust-elements/src/pset/serialize.rs]: how each type that appears in a PSET is written
    and read back.  A [serde] is such a pair of functions with the values it is meant for
    and the proof that these are read back.  Only the script trees of taproot outputs are
    not read back as they were: they come back mirrored, which the equality of [TapTree]
    (by root hash) does not see. *)

From S2P Require Import Prelude Order Encode Script Timelocks Confidential Transaction Sighash Merkle Taproot TapSighash Pset.

(** Bitcoin public keys as the [bitcoin] crate writes them, the hash functions of preimage
    fields and the orders of the keys of maps. *)
Class PsetCodecEnv `{PsetEnv} `{TapEnv} :=
  { btc_pk_ser : BtcPublicKey -> bytes;
    btc_pk_parse : bytes -> option BtcPublicKey;
    btc_pk_parse_ser k : btc_pk_parse (btc_pk_ser k) = Some k;
    btc_pk_nonempty k : btc_pk_ser k <> [];
    xpub_length (x : Xpub) : length (ext_ser x) = 78%nat;
    pk_cmp : BtcPublicKey -> BtcPublicKey -> comparison;
    xonly_cmp : XOnlyPublicKey -> XOnlyPublicKey -> comparison;
    ripemd160 : bytes -> bytes;
    pset_hash160 : bytes -> bytes }.

#[local] Obligation Tactic := idtac.

(** [encode::Error], with the PSET error it may carry. *)
Inductive codec_error :=
| EncodeErr (e : encode_error)
| PsetErr (e : pset_error).

Definition lift_enc {A} (r : result A encode_error) : result A codec_error :=
  match r with Ok a => Ok a | Err e => Err (EncodeErr e) end.
Definition lift_pset {A} (r : result A pset_error) : result A codec_error :=
  match r with Ok a => Ok a | Err e => Err (PsetErr e) end.

(** [Serialize] and [Deserialize] of one type. *)
Record serde (A : Type) := mkSerde
  { ser : A -> bytes;
    de : bytes -> result A codec_error;
    sd_wf : A -> Prop;
    sd_ok v : sd_wf v -> de (ser v) = Ok v }.
Arguments ser {A} _ _.
Arguments de {A} _ _.
Arguments sd_wf {A} _ _.
Arguments sd_ok {A} _ _ _.

(** [impl_pset_de_serialize!]: the consensus encoding, consumed entirely. *)
Program Definition sd_codec {A} (enc : A -> bytes) (dec : Reader A) (wf : A -> Prop)
    (H : codec_ok enc dec wf) : serde A :=
  {| ser := enc; de bs := lift_enc (@deserialize A dec bs); sd_wf := wf |}.
Next Obligation.
  intros A enc dec wf H v Hv. simpl.
  by rewrite (proj2 (@deserialize_ok A enc dec wf H (enc v) v) (conj Hv eq_refl)).
Qed.

(** [impl_pset_hash_de_serialize!]: hashes of [n] bytes. *)
Program Definition sd_hash (n : nat) : serde bytes :=
  {| ser h := h;
     de bs := if (length bs =? n)%nat then Ok bs else Err (PsetErr HashParseError);
     sd_wf h := length h = n |}.
Next Obligation. intros n v <-. cbn beta. by rewrite Nat.eqb_refl. Qed.

(** [Script] and [Vec<u8>]. *)
Program Definition sd_raw : serde bytes :=
  {| ser b := b; de bs := Ok bs; sd_wf _ := True |}.
Next Obligation. done. Qed.

(** Types of other crates with [serialize] and [from_slice]. *)
Program Definition sd_ext (T : ext_type) (e : encode_error) : serde T :=
  {| ser := ext_ser; de bs := ok_or (ext_parse bs) (EncodeErr e); sd_wf _ := True |}.
Next Obligation. intros T e v _. simpl. by rewrite ext_parse_ser. Qed.

(** [locktime::Height] and [locktime::Time] go through [LockTime]. *)
Definition encode_Height (h : Height) : bytes := encode_LockTime (Blocks h).
Definition decode_Height : Reader Height :=
  l <<- decode_LockTime;;
  match l with
  | Blocks h => rd_ret h
  | Seconds _ => rd_fail (BadLockTime (LockTime_to_consensus_u32 l))
  end.
Definition encode_Time (t : Time) : bytes := encode_LockTime (Seconds t).
Definition decode_Time : Reader Time :=
  l <<- decode_LockTime;;
  match l with
  | Seconds t => rd_ret t
  | Blocks _ => rd_fail (BadLockTime (LockTime_to_consensus_u32 l))
  end.

Lemma Height_codec : codec_ok encode_Height decode_Height (fun h => LockTime_wf (Blocks h)).
Proof.
  unfold decode_Height. split.
  - intros h rest Hh. unfold encode_Height. by rewrite (codec_step LockTime_codec).
  - intros bs h rest E. codec_inv E with LockTime_codec as l W. destruct l as [h'|t]; [|done].
    by apply rd_ret_ok in E as [<- <-].
Qed.

Lemma Time_codec : codec_ok encode_Time decode_Time (fun t => LockTime_wf (Seconds t)).
Proof.
  unfold decode_Time. split.
  - intros h rest Hh. unfold encode_Time. by rewrite (codec_step LockTime_codec).
  - intros bs h rest E. codec_inv E with LockTime_codec as l W. destruct l as [h'|t]; [done|].
    by apply rd_ret_ok in E as [<- <-].
Qed.

Section values.
Context {P : Platform} {S : Secp} {H : Hashes} {T : TapEnv} {C : SchnorrEnv} {E : PsetEnv}
  {X : PsetCodecEnv}.

Definition sd_tx : serde Transaction := sd_codec _ _ _ Transaction_codec.
Definition sd_u8 : serde Z := sd_codec _ _ _ u8_codec.
Definition sd_u32 : serde Z := sd_codec _ _ _ u32_codec.
Definition sd_u64 : serde Z := sd_codec _ _ _ u64_codec.
Definition sd_locktime : serde LockTime := sd_codec _ _ _ LockTime_codec.
Definition sd_sequence : serde Sequence := sd_codec _ _ _ Sequence_codec.
Definition sd_height : serde Height := sd_codec _ _ _ Height_codec.
Definition sd_time : serde Time := sd_codec _ _ _ Time_codec.
Definition sd_array32 : serde bytes := sd_codec _ _ _ (array_codec 32).
Definition sd_witness : serde (list bytes) := sd_codec _ _ _ vec_vec_codec.
Definition sd_btc_tx : serde BtcTx := sd_ext BtcTx Bitcoin.
Definition sd_pedersen : serde PedersenCommitment := sd_ext _ Secp256k1zkp.
Definition sd_generator : serde Generator := sd_ext _ Secp256k1zkp.
Definition sd_rangeproof : serde RangeProof := sd_ext _ (ParseFailed "Invalid Rangeproof").
Definition sd_surjection : serde SurjectionProof := sd_ext _ (ParseFailed "Invalid SurjectionProof").
Definition sd_xonly : serde XOnlyPublicKey := sd_ext _ (ParseFailed "Invalid xonly public key").

(** [TxOut]: the witness is not part of the encoding. *)
Definition sd_txout : serde TxOut := sd_codec _ _ _ TxOut_codec.

(** [VarInt]: bytes after the number are ignored. *)
Program Definition sd_varint : serde Z :=
  {| ser := emit_varint;
     de bs := lift_enc (let? (n, _) := read_varint bs in Ok n);
     sd_wf v := is_u64 v |}.
Next Obligation. intros v Hv. simpl. by rewrite (codec_last varint_codec). Qed.

Program Definition sd_tweak : serde Tweak :=
  {| ser := ext_ser;
     de bs := let? x := de sd_array32 bs in
              ok_or (ext_parse x) (EncodeErr (ParseFailed "invalid Tweak"));
     sd_wf _ := True |}.
Next Obligation.
  intros t _. cbn beta.
  rewrite (sd_ok sd_array32 (ext_ser t) (tweak_format t) : de sd_array32 (ext_ser t) = _).
  simpl. by rewrite ext_parse_ser.
Qed.

(** [AssetBlindingFactor], a tweak with an error of its own. *)
Program Definition sd_abf : serde Tweak :=
  {| ser := ext_ser;
     de bs := let? x := de sd_array32 bs in
              ok_or (ext_parse x) (EncodeErr (ParseFailed "invalid AssetBlindingFactor"));
     sd_wf _ := True |}.
Next Obligation.
  intros t _. cbn beta.
  rewrite (sd_ok sd_array32 (ext_ser t) (tweak_format t) : de sd_array32 (ext_ser t) = _).
  simpl. by rewrite ext_parse_ser.
Qed.

Program Definition sd_pubkey : serde BtcPublicKey :=
  {| ser := btc_pk_ser;
     de bs := ok_or (btc_pk_parse bs) (EncodeErr (ParseFailed "invalid public key"));
     sd_wf _ := True |}.
Next Obligation. intros k _. simpl. by rewrite btc_pk_parse_ser. Qed.

Program Definition sd_psbt_sighash : serde PsbtSighashType :=
  {| ser t := emit_u32 (ty_inner t);
     de bs := let? raw := de sd_u32 bs in Ok (mkPsbtSighash raw);
     sd_wf t := is_u32 (ty_inner t) |}.
Next Obligation.
  intros [n] Hn. cbn [ty_inner] in *. by rewrite (sd_ok sd_u32 n Hn : de sd_u32 (emit_u32 n) = _).
Qed.

(** [KeySource]: the fingerprint, then the child numbers up to the end. *)
Definition ser_key_source (k : KeySource) : bytes := k.1 ++ concat (map emit_u32 k.2).

Fixpoint de_path (fuel : nat) (rest : bytes) : result (list Z) codec_error :=
  match fuel, rest with
  | Datatypes.S fuel, _ :: _ =>
      let? (index, rest) := lift_enc (read_u32 rest) in
      let? dpath := de_path fuel rest in
      Ok (index :: dpath)
  | _, _ => Ok []
  end.

Definition de_key_source (bs : bytes) : result KeySource codec_error :=
  if (length bs <? 4)%nat then Err (EncodeErr Io)
  else let? dpath := de_path (length bs) (drop 4 bs) in Ok (take 4 bs, dpath).

Definition key_source_wf (k : KeySource) : Prop := length k.1 = 4%nat /\ Forall (fun n => is_u32 n) k.2.

Lemma de_path_ok fuel l : Forall (fun n => is_u32 n) l -> (length l <= fuel)%nat ->
  de_path fuel (concat (map emit_u32 l)) = Ok l.
Proof.
  intros Hl. revert fuel. induction Hl as [|n l Hn Hl IH]; intros fuel Hf; [by destruct fuel|].
  destruct fuel as [|fuel]; [simpl in Hf; lia|]. cbn [map concat].
  pose proof (codec_decode u32_codec n (concat (map emit_u32 l)) Hn) as Er.
  destruct (emit_u32 n ++ concat (map emit_u32 l)) as [|b bs] eqn:Eb.
  { apply (f_equal length) in Eb. rewrite length_app in Eb. unfold emit_u32 in Eb.
    rewrite length_le_bytes in Eb. simpl in Eb. lia. }
  simpl. rewrite Er. simpl. rewrite IH; [done|simpl in Hf; lia].
Qed.

Lemma length_path l : length (concat (map emit_u32 l)) = (4 * length l)%nat.
Proof.
  induction l as [|n l IH]; [done|]. cbn [map concat length]. rewrite length_app, IH.
  unfold emit_u32. rewrite length_le_bytes. lia.
Qed.

Program Definition sd_key_source : serde KeySource :=
  {| ser := ser_key_source; de := de_key_source; sd_wf := key_source_wf |}.
Next Obligation.
  intros [f l] [Hf Hl]. unfold de_key_source, ser_key_source. simpl in *.
  rewrite length_app, length_path, Hf.
  destruct (Nat.ltb_spec (4 + 4 * length l) 4); [lia|].
  rewrite drop_app_length', take_app_length' by done. rewrite de_path_ok by (done || lia). done.
Qed.

Definition de_schnorr (bs : bytes) : result SchnorrSig codec_error :=
  let parse b := ok_or (ext_parse b) (EncodeErr (ParseFailed "Invalid Schnorr signature")) in
  if (length bs =? 65)%nat then
    let? hash_ty := ok_or (schnorr_from_u8 (b2z (nth 64 bs Byte.x00)))
                      (EncodeErr (ParseFailed "Invalid Sighash type")) in
    let? sig := parse (take 64 bs) in
    Ok (mkSchnorrSig sig hash_ty)
  else if (length bs =? 64)%nat then
    let? sig := parse (take 64 bs) in Ok (mkSchnorrSig sig SchnorrDefault)
  else Err (EncodeErr (ParseFailed "Invalid Schnorr signature len")).

Program Definition sd_schnorr : serde SchnorrSig :=
  {| ser := SchnorrSig_to_vec; de := de_schnorr; sd_wf s := hash_ty s <> SchnorrReserved |}.
Next Obligation.
  intros [x t] Ht. cbn [hash_ty] in Ht. unfold de_schnorr.
  destruct (decide (t = SchnorrDefault)) as [->|Hd].
  - unfold SchnorrSig_to_vec. cbn [sig hash_ty].
    rewrite app_nil_r, schnorr_length, take_ge, ext_parse_ser by (rewrite schnorr_length; lia). done.
  - assert (SchnorrSig_to_vec (mkSchnorrSig x t) = ext_ser x ++ emit_u8 (schnorr_as_u8 t)) as ->
      by (by destruct t).
    rewrite length_app, schnorr_length. simpl.
    rewrite take_app_length', app_nth2 by (rewrite schnorr_length; lia).
    rewrite schnorr_length. simpl. rewrite b2z_z2b_small by (destruct t; cbv; by split).
    rewrite (proj2 (schnorr_from_u8_spec _ t) (conj eq_refl Ht)). simpl. by rewrite ext_parse_ser.
Qed.

Program Definition sd_xonly_leaf : serde (XOnlyPublicKey * bytes) :=
  {| ser k := ext_ser k.1 ++ k.2;
     de bs := if (length bs <? 32)%nat then Err (EncodeErr Io)
              else let? a := de sd_xonly (take 32 bs) in
                   let? b := de (sd_hash 32) (drop 32 bs) in
                   Ok (a, b);
     sd_wf k := length k.2 = 32%nat |}.
Next Obligation.
  intros [k h] Hh. cbn [fst snd] in *. rewrite length_app, xonly_length.
  destruct (Nat.ltb_spec (32 + length h) 32); [lia|].
  rewrite take_app_length', drop_app_length' by by rewrite xonly_length.
  rewrite (sd_ok sd_xonly k I : de sd_xonly (ext_ser k) = _).
  cbn [rbind]. by rewrite (sd_ok (sd_hash 32) h Hh : de (sd_hash 32) h = _).
Qed.

Program Definition sd_control_block : serde ControlBlock :=
  {| ser := ControlBlock_serialize;
     de bs := match ControlBlock_from_slice bs with
              | Ok cb => Ok cb
              | Err _ => Err (EncodeErr (ParseFailed "Invalid control block"))
              end;
     sd_wf := ControlBlock_wf |}.
Next Obligation. intros cb Hcb. cbn beta. by rewrite (proj2 (control_block_codec _ cb) (conj Hcb eq_refl)). Qed.

Definition leaf_version_wf (v : Z) : Prop := is_u8 v /\ LeafVersion_from_u8 v = Ok v.

(** A script and its leaf version, which is the last byte. *)
Program Definition sd_script_ver : serde (Script * Z) :=
  {| ser s := s.1 ++ emit_u8 s.2;
     de bs := match last bs with
              | None => Err (EncodeErr Io)
              | Some ver =>
                  match LeafVersion_from_u8 (b2z ver) with
                  | Ok v => Ok (removelast bs, v)
                  | Err _ => Err (EncodeErr (ParseFailed "invalid leaf version"))
                  end
              end;
     sd_wf s := leaf_version_wf s.2 |}.
Next Obligation.
  intros [s v] [Hu Hv]. unfold emit_u8. cbn [fst snd] in *.
  rewrite last_snoc, b2z_z2b_small, Hv by done. by rewrite removelast_last.
Qed.

(** [impl_vec!(TapLeafHash)]. *)
Definition encode_leaf_hashes : list bytes -> bytes := encode_vec (fun h => h).
Definition decode_leaf_hashes : Reader (list bytes) := decode_vec 32 (read_exact 32).
Definition leaf_hashes_wf : list bytes -> Prop := vec_wf 32 (fun h => length h = 32%nat).

Lemma leaf_hashes_codec : codec_ok encode_leaf_hashes decode_leaf_hashes leaf_hashes_wf.
Proof. apply vec_codec; [lia|apply array_codec]. Qed.

Program Definition sd_origin : serde (list bytes * KeySource) :=
  {| ser o := encode_leaf_hashes o.1 ++ ser_key_source o.2;
     de bs := let? (hs, consumed) :=
                lift_enc (@deserialize_partial _ decode_leaf_hashes bs) in
              let? k := de_key_source (drop consumed bs) in
              Ok (hs, k);
     sd_wf o := leaf_hashes_wf o.1 /\ key_source_wf o.2 |}.
Next Obligation.
  intros [hs k] [Hh Hk]. cbn [fst snd] in *. unfold deserialize_partial, consensus_decode.
  rewrite (codec_decode leaf_hashes_codec) by done. cbn [rbind lift_enc].
  rewrite length_app, Nat.add_sub, drop_app_length.
  by rewrite (sd_ok sd_key_source k Hk : de_key_source (ser_key_source k) = _).
Qed.

(** ** Script trees *)

(** [TapTree]: a builder with a single node, whose leaves are written with their depths.
    On any other builder, which no constructor of [TapTree] lets through, [serialize] is
    [unreachable!]. *)
Definition ser_leaf (l : LeafInfo) : bytes :=
  emit_u8 (Z.of_nat (length (merkle_branch l))) ++ emit_u8 (leaf_ver l) ++
  encode_vec_u8 (leaf_script l).

Definition ser_tap_tree (b : list (option NodeInfo)) : bytes :=
  match b with
  | [Some root] => concat (map ser_leaf (leaves root))
  | _ => []
  end.

Fixpoint de_tap_leaves (fuel : nat) (builder : list (option NodeInfo)) (bs : bytes)
  : result (list (option NodeInfo)) codec_error :=
  match fuel, bs with
  | Datatypes.S fuel, depth :: bs =>
      match bs with
      | [] => Err (EncodeErr (ParseFailed "Invalid Taproot Builder"))
      | version :: bs =>
          let? (script, bs) := lift_enc (decode_vec_u8 bs) in
          match LeafVersion_from_u8 (b2z version) with
          | Err _ => Err (EncodeErr (ParseFailed "Leaf Version Error"))
          | Ok v =>
              match add_leaf_with_ver builder (Z.to_nat (b2z depth)) script v with
              | Err _ => Err (EncodeErr (ParseFailed "Tree not in DFS order"))
              | Ok builder => de_tap_leaves fuel builder bs
              end
          end
      end
  | _, _ => Ok builder
  end.

Definition de_tap_tree (bs : bytes) : result (list (option NodeInfo)) codec_error :=
  let? builder := de_tap_leaves (length bs) [] bs in
  if is_complete builder then Ok builder
  else Err (EncodeErr (ParseFailed "Incomplete taproot Tree")).

(** The equality of [TapTree]: that of the root hashes. *)
Definition tap_hash (b : list (option NodeInfo)) : option bytes :=
  match b with Some n :: _ => Some (node_hash n) | _ => None end.

Fixpoint mirror (t : tap_tree) : tap_tree :=
  match t with
  | Tip i => Tip i
  | Fork l r => Fork (mirror r) (mirror l)
  end.

Lemma mirror_hash t : tree_hash (mirror t) = tree_hash t.
Proof. induction t as [|l IHl r IHr]; simpl; [done|]. by rewrite IHl, IHr, TapNodeHash_comm. Qed.

Lemma mirror_height t : height (mirror t) = height t.
Proof. induction t as [|l IHl r IHr]; simpl; [done|]. rewrite IHl, IHr. lia. Qed.

(** Leaves as the serializer lists them. *)
Definition leaf_entry (d : nat) (l : LeafInfo) : nat * tap_item :=
  ((d + length (merkle_branch l))%nat, ItemLeaf (leaf_script l) (leaf_ver l)).

Definition no_hidden (t : tap_tree) : Prop :=
  Forall (fun i => match i with ItemLeaf _ _ => True | ItemHidden _ => False end) (items t).

Lemma leaf_entry_partnered h d ls :
  map (leaf_entry d) (map (partnered h) ls) = map (leaf_entry (Datatypes.S d)) ls.
Proof.
  rewrite map_map. apply map_ext. intros l. unfold leaf_entry, partnered. simpl.
  rewrite length_app. simpl. f_equal. lia.
Qed.

Lemma leaves_mirrored t n d : tree_node t = Ok n -> no_hidden t ->
  map (leaf_entry d) (leaves n) = dfs (mirror t) d.
Proof.
  revert n d. induction t as [i|l IHl r IHr]; intros n d; simpl.
  - intros [= <-] Hi. apply Forall_inv in Hi. destruct i; [|done].
    simpl. unfold leaf_entry. simpl. by rewrite Nat.add_0_r.
  - intros (nl & El & (nr & Er & Ec)%rbind_ok)%rbind_ok [Hl Hr]%Forall_app.
    apply combine_ok in Ec as [_ ->]. simpl.
    by rewrite map_app, !leaf_entry_partnered, (IHl nl _ El Hl), (IHr nr _ Er Hr).
Qed.

(** A tree of scripts with versions, within the depth limit, and its builder. *)
Definition item_wf (i : tap_item) : Prop :=
  match i with
  | ItemLeaf s v => vec_u8_wf s /\ leaf_version_wf v
  | ItemHidden _ => False
  end.

Definition tap_tree_wf (t : tap_tree) : Prop := (height t <= 128)%nat /\ Forall item_wf (items t).

Definition is_tree (b : list (option NodeInfo)) (t : tap_tree) : Prop :=
  exists n, tree_node t = Ok n /\ b = [Some n].

Lemma de_tap_leaves_ok fuel b ls :
  Forall (fun l => item_wf (ItemLeaf (leaf_script l) (leaf_ver l)) /\ (length (merkle_branch l) <= 128)%nat) ls ->
  (length ls <= fuel)%nat -> is_ok (inserts b (map (leaf_entry 0) ls)) ->
  de_tap_leaves fuel b (concat (map ser_leaf ls)) = Ok (default [] (ok_opt (inserts b (map (leaf_entry 0) ls)))).
Proof.
  intros Hls. revert fuel b. induction Hls as [|l ls [[Hs [Hu Hv]] Hd] _ IH]; intros fuel b Hf Hok.
  { by destruct fuel. }
  destruct fuel as [|fuel]; [simpl in Hf; lia|]. cbn [map concat inserts leaf_entry] in *.
  unfold ser_leaf. rewrite <-!app_assoc.
  cbn [emit_u8 app de_tap_leaves]. rewrite (codec_decode vec_u8_codec) by done. cbn [lift_enc rbind].
  rewrite b2z_z2b_small, Hv by done. rewrite b2z_z2b_small, Nat2Z.id by lia.
  change (add_leaf_with_ver b (length (merkle_branch l)) (leaf_script l) (leaf_ver l))
    with (insert_node b (item_node (ItemLeaf (leaf_script l) (leaf_ver l))) (0 + length (merkle_branch l))).
  destruct (insert_node b _ _) as [b'|e] eqn:Eb; [|done]. cbn [rbind] in *. apply IH; [simpl in Hf; lia|done].
Qed.

Lemma ser_leaf_nonempty ls : (length ls <= length (concat (map ser_leaf ls)))%nat.
Proof. induction ls as [|l ls IH]; simpl; [done|]. rewrite !length_app. lia. Qed.

(** A script tree is read back as its mirror image. *)
Lemma tap_tree_mirrored b t : is_tree b t -> tap_tree_wf t ->
  exists n, tree_node (mirror t) = Ok n /\ de_tap_tree (ser_tap_tree b) = Ok [Some n].
Proof.
  intros (n & En & ->) [Hh Hw].
  destruct (tree_node_total (mirror t)) as [m Em]; [by rewrite mirror_height|].
  exists m. split; [done|]. unfold de_tap_tree, ser_tap_tree.
  assert (Hnh : no_hidden t) by (eapply Forall_impl; [exact Hw|]; by intros []).
  pose proof (tree_node_spec t n En) as (_ & _ & Hl & Hp).
  assert (Ei : inserts [] (map (leaf_entry 0) (leaves n)) = Ok [Some m]).
  { rewrite (leaves_mirrored t n 0 En Hnh), inserts_dfs, Em by (rewrite ?mirror_height; simpl; lia).
    done. }
  rewrite de_tap_leaves_ok, Ei; [done| | apply ser_leaf_nonempty|by rewrite Ei].
  apply Forall_forall. intros l Hin. split.
  - assert (Hk : leaf_key l ∈ omap item_leaf (items t)) by (rewrite <-Hp; by apply (list_elem_of_fmap_2 leaf_key)).
    apply list_elem_of_omap in Hk as (i & Hi & Ek). rewrite Forall_forall in Hw. specialize (Hw i Hi).
    destruct i as [s v|]; [|done]. by injection Ek as -> ->.
  - rewrite Forall_forall in Hl. specialize (Hl l Hin). simpl in Hl. lia.
Qed.

(** ... which [TapTree]'s equality does not distinguish from it. *)
Lemma tap_tree_read_back b t : is_tree b t -> tap_tree_wf t ->
  exists b', de_tap_tree (ser_tap_tree b) = Ok b' /\ is_tree b' (mirror t) /\ tap_hash b' = tap_hash b.
Proof.
  intros Hb Hw. destruct (tap_tree_mirrored b t Hb Hw) as (m & Em & E0).
  exists [Some m]. split_and!; [done|by exists m|]. destruct Hb as (n & En & ->). simpl. f_equal.
  rewrite (proj1 (tree_node_spec _ _ En)), (proj1 (tree_node_spec _ _ Em)). apply mirror_hash.
Qed.
End values.
