(* ===== verification/PsetCodec.v ===== *)
(** * The key-value encoding of PSETs

    [rust-elements/src/pset]: raw keys and pairs ([raw.rs]), the insertion macros
    ([macros.rs]), [insert_pair], [get_pairs] and the decoders of the three maps ([map/]),
    and the encoding of a whole PSET ([mod.rs]).  A [BTreeMap] is written in the order of
    its keys.

    The main theorem: a well-formed PSET is read back, whatever follows it, as a PSET equal
    to it in the sense of [PartialEq]. *)

From S2P Require Import Prelude Order Encode Script Timelocks Confidential Transaction Sighash Merkle Taproot TapSighash Pset PsetValue.

(** ** Raw keys and pairs *)

Record Pair := mkPair { p_key : raw_key; p_value : bytes }.

Section raw.
Context {P : Platform}.

Definition encode_raw_key (k : raw_key) : bytes :=
  emit_varint (Z.of_nat (length (key_data k) + 1)) ++ emit_u8 (type_value k) ++ key_data k.

Definition decode_raw_key (bs : bytes) : result (raw_key * bytes) codec_error :=
  let? (byte_size, bs) := lift_enc (read_varint bs) in
  if byte_size =? 0 then Err (PsetErr NoMorePairs)
  else
    let key_byte_size := byte_size - 1 in
    if MAX_VEC_SIZE <? key_byte_size
    then Err (EncodeErr (OversizedVectorAllocation key_byte_size MAX_VEC_SIZE))
    else
      let? (type_value, bs) := lift_enc (read_u8 bs) in
      let? (key, bs) := lift_enc (read_exact (Z.to_nat key_byte_size) bs) in
      Ok (mkKey type_value key, bs).

Definition encode_Pair (p : Pair) : bytes := encode_raw_key (p_key p) ++ encode_vec_u8 (p_value p).

Definition decode_Pair (bs : bytes) : result (Pair * bytes) codec_error :=
  let? (key, bs) := decode_raw_key bs in
  let? (value, bs) := lift_enc (decode_vec_u8 bs) in
  Ok (mkPair key value, bs).

Definition pset_prefix : bytes := str "pset".

Definition encode_prop_key (k : ProprietaryKey) : bytes :=
  encode_vec_u8 (prop_prefix k) ++ emit_u8 (subtype k) ++ prop_key k.

(** The key of a proprietary key is all that is left. *)
Definition decode_prop_key (bs : bytes) : result ProprietaryKey encode_error :=
  let? (prefix, bs) := decode_vec_u8 bs in
  let? (subtype, bs) := read_u8 bs in
  Ok (mkPropKey prefix subtype bs).

(** [pset::Error::from] of an encoding error. *)
Definition prop_from_key (k : raw_key) : result ProprietaryKey pset_error :=
  if negb (type_value k =? 0xFC) then Err InvalidProprietaryKey
  else match decode_prop_key (key_data k) with
       | Ok p => Ok p
       | Err _ => Err ConsensusEncoding
       end.

Definition prop_to_key (k : ProprietaryKey) : raw_key := mkKey 0xFC (encode_prop_key k).
Definition is_pset_key (k : ProprietaryKey) : bool := bool_decide (prop_prefix k = pset_prefix).
Definition from_pset_pair (subtype : Z) (key : bytes) : ProprietaryKey :=
  mkPropKey pset_prefix subtype key.

(** What fits the encoding. *)
Definition fits (bs : bytes) : Prop := Z.of_nat (length bs) <= MAX_VEC_SIZE.
Definition pair_wf (p : Pair) : Prop :=
  is_u8 (type_value (p_key p)) /\ fits (key_data (p_key p)) /\ fits (p_value p) /\
  Z.of_nat (length (key_data (p_key p))) + 1 <= u64_max.
Definition prop_wf (k : ProprietaryKey) : Prop := fits (prop_prefix k) /\ is_u8 (subtype k).

Lemma decode_raw_key_ok p rest : pair_wf p ->
  decode_raw_key (encode_raw_key (p_key p) ++ rest) = Ok (p_key p, rest).
Proof.
  destruct p as [[t k] v]. intros (Ht & Hk & _ & Hu). unfold fits, u64_max in *. simpl in *.
  unfold decode_raw_key, encode_raw_key. cbn [type_value key_data]. rewrite <-!app_assoc.
  rewrite (codec_decode varint_codec) by lia. cbn [lift_enc rbind].
  destruct (Z.eqb_spec (Z.of_nat (length k + 1)) 0); [lia|].
  destruct (Z.ltb_spec MAX_VEC_SIZE (Z.of_nat (length k + 1) - 1)); [lia|].
  rewrite (codec_decode u8_codec) by done. cbn [lift_enc rbind].
  rewrite read_exact_app by lia. done.
Qed.

Lemma decode_Pair_ok p rest : pair_wf p -> decode_Pair (encode_Pair p ++ rest) = Ok (p, rest).
Proof.
  intros Hp. unfold decode_Pair, encode_Pair. rewrite <-app_assoc, decode_raw_key_ok by done.
  cbn [rbind]. rewrite (codec_decode vec_u8_codec) by apply Hp. by destruct p.
Qed.

Lemma prop_from_to_key k : prop_wf k -> prop_from_key (prop_to_key k) = Ok k.
Proof.
  intros [Hp Hs]. unfold prop_from_key, prop_to_key, decode_prop_key, encode_prop_key.
  cbn [type_value key_data]. rewrite Z.eqb_refl. cbn [negb].
  rewrite (codec_decode vec_u8_codec) by done. cbn [rbind].
  rewrite (codec_decode u8_codec) by done. by destruct k.
Qed.

Lemma pset_pair_wf t k : is_u8 t -> prop_wf (from_pset_pair t k).
Proof. intros Ht. split; [|done]. unfold fits. pose proof max_vec_size_large. simpl. lia. Qed.

(** The separator of a map is a zero byte: the number of pairs is not announced. *)
Lemma no_more_pairs bs : decode_Pair bs = Err (PsetErr NoMorePairs) <-> exists rest, bs = Byte.x00 :: rest.
Proof.
  unfold decode_Pair, decode_raw_key. split.
  - destruct (read_varint bs) as [[n mid]|e] eqn:Er; [|done]. cbn [lift_enc rbind].
    destruct (Z.eqb_spec n 0) as [->|Hn].
    + intros _. apply (codec_canonical varint_codec) in Er as [_ ->]. by exists mid.
    + case_match; [done|]. destruct (read_u8 mid) as [[t m2]|]; [|done]. cbn [lift_enc rbind].
      destruct (read_exact _ m2) as [[k m3]|]; [|done]. cbn [lift_enc rbind].
      by destruct (decode_vec_u8 m3) as [[v m4]|].
  - intros [rest ->].
    by rewrite (codec_decode varint_codec 0 rest ltac:(done) : read_varint (Byte.x00 :: rest) = _).
Qed.

(** ** The loop of the decoders *)

Section loop.
Context {R : Type} (step : R -> Pair -> result R codec_error).

(** Pairs are read and inserted until the separator, which is one byte.  A pair takes at
    least three bytes, so that the length of the input bounds the rounds. *)
Fixpoint decode_pairs (fuel : nat) (rv : R) (bs : bytes) : result (R * bytes) codec_error :=
  match fuel with
  | O => Err (EncodeErr Io)
  | Datatypes.S fuel =>
      match decode_Pair bs with
      | Ok (kv, bs) => let? rv := step rv kv in decode_pairs fuel rv bs
      | Err (PsetErr NoMorePairs) => Ok (rv, drop 1 bs)
      | Err e => Err e
      end
  end.

Definition decode_map (rv : R) (bs : bytes) : result (R * bytes) codec_error :=
  decode_pairs (Datatypes.S (length bs)) rv bs.

Fixpoint insert_all (rv : R) (ps : list Pair) : result R codec_error :=
  match ps with
  | [] => Ok rv
  | p :: ps => let? rv := step rv p in insert_all rv ps
  end.

Lemma insert_all_app rv ps qs :
  insert_all rv (ps ++ qs) = (let? rv := insert_all rv ps in insert_all rv qs).
Proof.
  revert rv. induction ps as [|p ps IH]; intros rv; simpl; [done|].
  destruct (step rv p); simpl; [apply IH|done].
Qed.

Lemma decode_Pair_shorter bs p rest : decode_Pair bs = Ok (p, rest) -> (length rest < length bs)%nat.
Proof.
  unfold decode_Pair, decode_raw_key.
  destruct (read_varint bs) as [[n mid]|e] eqn:Er; [|done]. cbn [lift_enc rbind].
  apply (codec_canonical varint_codec) in Er as [_ ->].
  case_match; [done|]. case_match; [done|].
  destruct (read_u8 mid) as [[t m2]|] eqn:E2; [|done]. cbn [lift_enc rbind].
  apply (codec_canonical u8_codec) in E2 as [_ ->].
  destruct (read_exact _ m2) as [[k m3]|] eqn:E3; [|done]. cbn [lift_enc rbind].
  apply read_exact_ok in E3 as [_ ->].
  destruct (decode_vec_u8 m3) as [[v m4]|] eqn:E4; [|done]. cbn [lift_enc rbind].
  apply (codec_canonical vec_u8_codec) in E4 as [_ ->]. intros [= _ <-].
  rewrite !length_app. simpl. lia.
Qed.

(** More rounds change nothing: running out of them is never the answer. *)
Lemma decode_pairs_fuel fuel rv bs : (length bs < fuel)%nat ->
  decode_pairs fuel rv bs = decode_map rv bs.
Proof.
  unfold decode_map. assert (Hgen : forall f1 f2 rv bs, (length bs < f1)%nat -> (length bs < f2)%nat ->
    decode_pairs f1 rv bs = decode_pairs f2 rv bs); [|intros; apply Hgen; lia].
  clear. induction f1 as [|f1 IH]; intros [|f2] rv bs H1 H2; [lia..|]. simpl.
  destruct (decode_Pair bs) as [[p rest]|e] eqn:Ep; [|done].
  apply decode_Pair_shorter in Ep. destruct (step rv p); simpl; [|done]. apply IH; lia.
Qed.

Definition encode_pairs (ps : list Pair) : bytes := concat (map encode_Pair ps) ++ emit_u8 0.

Lemma decode_map_ok rv rv' ps rest :
  Forall pair_wf ps -> insert_all rv ps = Ok rv' ->
  decode_map rv (encode_pairs ps ++ rest) = Ok (rv', rest).
Proof.
  intros Hps. revert rv. unfold encode_pairs. induction Hps as [|p ps Hp Hps IH]; intros rv; cbn [insert_all map concat app].
  - intros [= <-]. unfold decode_map. cbn [decode_pairs].
    rewrite (proj2 (no_more_pairs _)) by eauto. done.
  - intros (rv1 & E1 & E2)%rbind_ok. specialize (IH rv1 E2).
    unfold decode_map. rewrite <-!app_assoc. cbn [decode_pairs]. rewrite decode_Pair_ok by done.
    rewrite E1. cbn [rbind]. rewrite decode_pairs_fuel.
    + by rewrite app_assoc.
    + rewrite !length_app. unfold encode_Pair, encode_raw_key, emit_u8. rewrite !length_app. simpl. lia.
Qed.
End loop.
End raw.

(** ** The insertion macros *)

Section macros.
Context {P : Platform} {R : Type}.

(** [impl_pset_insert_pair!] for a field without key data, and its proprietary form. *)
Definition insert_unkeyed {A} (f : R -> option A) `{Setter R (option A) f} (sd : serde A)
    (raw : raw_key) (value : bytes) (slf : R) : result R codec_error :=
  if is_empty (key_data raw) then
    match f slf with
    | None => let? val := de sd value in Ok (slf <| f := Some val |>)
    | Some _ => Err (PsetErr (DuplicateKey raw))
    end
  else Err (PsetErr (InvalidKey raw)).

Definition insert_prop_unkeyed {A} (f : R -> option A) `{Setter R (option A) f} (sd : serde A)
    (raw : raw_key) (value : bytes) (slf : R) : result R codec_error :=
  let? k := lift_pset (prop_from_key raw) in
  if is_empty (prop_key k) then
    match f slf with
    | None => let? val := de sd value in Ok (slf <| f := Some val |>)
    | Some _ => Err (PsetErr (DuplicateKey raw))
    end
  else Err (PsetErr (InvalidKey raw)).

(** [impl_pset_insert_pair!] for a map. *)
Definition insert_keyed {K A} `{Countable K} (f : R -> gmap K A) `{Setter R (gmap K A) f}
    (kd : serde K) (sd : serde A) (raw : raw_key) (value : bytes) (slf : R) : result R codec_error :=
  if negb (is_empty (key_data raw)) then
    let? key_val := de kd (key_data raw) in
    match f slf !! key_val with
    | None => let? val := de sd value in Ok (slf <| f := <[key_val := val]> (f slf) |>)
    | Some _ => Err (PsetErr (DuplicateKey raw))
    end
  else Err (PsetErr (InvalidKey raw)).

(** [pset_insert_hash_pair]. *)
Definition pset_insert_hash_pair (f : R -> gmap bytes bytes) `{Setter R (gmap bytes bytes) f}
    (size : nat) (hash : bytes -> bytes) (hash_type : PsetHash)
    (raw : raw_key) (value : bytes) (slf : R) : result R codec_error :=
  if is_empty (key_data raw) then Err (PsetErr (InvalidKey raw))
  else
    let? key_val := de (sd_hash size) (key_data raw) in
    match f slf !! key_val with
    | None =>
        let? val := de sd_raw value in
        if negb (bool_decide (hash val = key_val))
        then Err (PsetErr (InvalidPreimageHashPair hash_type val key_val))
        else Ok (slf <| f := <[key_val := val]> (f slf) |>)
    | Some _ => Err (PsetErr (DuplicateKey raw))
    end.

(** The maps of proprietary and of unknown pairs. *)
Definition insert_entry {K} `{Countable K} (f : R -> gmap K bytes) `{Setter R (gmap K bytes) f}
    (key : K) (raw : raw_key) (value : bytes) (slf : R) : result R codec_error :=
  match f slf !! key with
  | None => Ok (slf <| f := <[key := value]> (f slf) |>)
  | Some _ => Err (PsetErr (DuplicateKey raw))
  end.

(** ** What [get_pairs] pushes *)

(** [impl_pset_get_pair!] with [push], [push_prop] and for a map. *)
Definition push_opt {A} (type_value : Z) (sd : serde A) (o : option A) : list Pair :=
  match o with Some v => [mkPair (mkKey type_value []) (ser sd v)] | None => [] end.
Definition push_prop {A} (subtype : Z) (sd : serde A) (o : option A) : list Pair :=
  match o with
  | Some v => [mkPair (prop_to_key (from_pset_pair subtype [])) (ser sd v)]
  | None => []
  end.

(** The entries of a [BTreeMap], in the order of the keys. *)
Definition btree_iter {K A} `{Countable K} (cmp : K -> K -> comparison) (m : gmap K A)
  : list (K * A) :=
  sort_by (cmp_by fst cmp) (map_to_list m).

Definition push_map {K A} `{Countable K} (type_value : Z) (cmp : K -> K -> comparison)
    (kd : serde K) (sd : serde A) (m : gmap K A) : list Pair :=
  map (fun '(k, v) => mkPair (mkKey type_value (ser kd k)) (ser sd v)) (btree_iter cmp m).

(** The derived orders of the keys. *)
Definition raw_key_cmp : raw_key -> raw_key -> comparison :=
  then_with (cmp_by type_value Z.compare) (cmp_by key_data bytes_cmp).
Definition prop_key_cmp : ProprietaryKey -> ProprietaryKey -> comparison :=
  then_with (cmp_by prop_prefix bytes_cmp)
    (then_with (cmp_by subtype Z.compare) (cmp_by prop_key bytes_cmp)).

Definition push_proprietary (m : gmap ProprietaryKey bytes) : list Pair :=
  map (fun '(k, v) => mkPair (prop_to_key k) v) (btree_iter prop_key_cmp m).
Definition push_unknown (m : gmap raw_key bytes) : list Pair :=
  map (fun '(k, v) => mkPair k v) (btree_iter raw_key_cmp m).

(** ** One field written and read back *)

Definition reads {A} (sd : serde A) (o o' : option A) : Prop :=
  match o, o' with
  | Some v, Some v' => de sd (ser sd v) = Ok v'
  | None, None => True
  | _, _ => False
  end.

Definition opt_wf {A} (sd : serde A) (o : option A) : Prop :=
  match o with Some v => sd_wf sd v | None => True end.

Lemma reads_wf {A} (sd : serde A) o : opt_wf sd o -> reads sd o o.
Proof. destruct o; [apply sd_ok|done]. Qed.

Context (step : R -> Pair -> result R codec_error).

(** Setting a field to what it is changes nothing. *)
Class SetterEta {A} (f : R -> A) `{Setter R A f} : Prop := set_eta r : r <| f := f r |> = r.

Lemma opt_segment {A} (f : R -> option A) `{SetterEta _ f} (sd : serde A) T o o' rv ps :
  (forall v, step rv (mkPair (mkKey T []) v) = insert_unkeyed f sd (mkKey T []) v rv) ->
  f rv = None -> reads sd o o' ->
  insert_all step rv (push_opt T sd o ++ ps) = insert_all step (rv <| f := o' |>) ps.
Proof.
  intros Hs Hn Hr. destruct o as [v|], o' as [v'|]; try done; simpl.
  - rewrite Hs. unfold insert_unkeyed. simpl. rewrite Hn. simpl in Hr. by rewrite Hr.
  - rewrite <-(set_eta (f := f) rv) at 1. by rewrite Hn.
Qed.

Lemma prop_segment {A} (f : R -> option A) `{SetterEta _ f} (sd : serde A) T o o' rv ps :
  is_u8 T ->
  (forall v, step rv (mkPair (prop_to_key (from_pset_pair T [])) v) =
             insert_prop_unkeyed f sd (prop_to_key (from_pset_pair T [])) v rv) ->
  f rv = None -> reads sd o o' ->
  insert_all step rv (push_prop T sd o ++ ps) = insert_all step (rv <| f := o' |>) ps.
Proof.
  intros HT Hs Hn Hr. destruct o as [v|], o' as [v'|]; try done; simpl.
  - rewrite Hs. unfold insert_prop_unkeyed. rewrite prop_from_to_key by by apply pset_pair_wf. simpl.
    rewrite Hn. simpl in Hr. by rewrite Hr.
  - rewrite <-(set_eta (f := f) rv) at 1. by rewrite Hn.
Qed.

Lemma opt_segment_same {A} (f : R -> option A) `{SetterEta _ f} (sd : serde A) T o rv ps :
  (forall v, step rv (mkPair (mkKey T []) v) = insert_unkeyed f sd (mkKey T []) v rv) ->
  f rv = None -> opt_wf sd o ->
  insert_all step rv (push_opt T sd o ++ ps) = insert_all step (rv <| f := o |>) ps.
Proof. intros Hs Hn Ho. by apply opt_segment; [..|apply reads_wf]. Qed.

Lemma prop_segment_same {A} (f : R -> option A) `{SetterEta _ f} (sd : serde A) T o rv ps :
  is_u8 T ->
  (forall v, step rv (mkPair (prop_to_key (from_pset_pair T [])) v) =
             insert_prop_unkeyed f sd (prop_to_key (from_pset_pair T [])) v rv) ->
  f rv = None -> opt_wf sd o ->
  insert_all step rv (push_prop T sd o ++ ps) = insert_all step (rv <| f := o |>) ps.
Proof. intros HT Hs Hn Ho. by apply prop_segment; [..|apply reads_wf]. Qed.

(** The entries of a map, in any order, one after the other. *)
Class SetterGet {A} (f : R -> A) `{Setter R A f} : Prop :=
  { get_set r v : f (r <| f := v |>) = v;
    set_set r v w : r <| f := v |> <| f := w |> = r <| f := w |> }.

Lemma entries_segment {K A} `{Countable K} (f : R -> gmap K A) `{SetterEta _ f} `{!SetterGet f}
    (pr : K * A -> Pair) l rv ps :
  (forall k v m, m !! k = None -> (k, v) ∈ l ->
     step (rv <| f := m |>) (pr (k, v)) = Ok (rv <| f := <[k := v]> m |>)) ->
  NoDup (l.*1) -> forall m, f rv = m -> (forall k, k ∈ l.*1 -> m !! k = None) ->
  insert_all step rv (map pr l ++ ps) = insert_all step (rv <| f := list_to_map l ∪ m |>) ps.
Proof.
  intros Hs Hnd m Hm Hdisj.
  assert (Hgen : forall m, (forall k, k ∈ l.*1 -> m !! k = None) ->
    insert_all step (rv <| f := m |>) (map pr l ++ ps) =
    insert_all step (rv <| f := list_to_map l ∪ m |>) ps).
  { clear m Hm Hdisj. induction l as [|[k v] l IH]; intros m Hdisj.
    - simpl. by rewrite (left_id_L ∅ (∪)).
    - simpl in *. apply NoDup_cons in Hnd as [Hk Hnd].
      rewrite Hs by (try apply Hdisj; set_solver). cbn [rbind]. rewrite IH; [|naive_solver set_solver|done|].
      + f_equal. f_equal. rewrite <-insert_union_l, insert_union_r; [done|]. by apply not_elem_of_list_to_map_1.
      + intros k' Hk'. rewrite lookup_insert_ne by (intros ->; done). apply Hdisj. set_solver. }
  rewrite <-Hgen by done. by rewrite <-Hm, (set_eta (f := f)).
Qed.

Lemma btree_iter_perm {K A} `{Countable K} cmp (m : gmap K A) : btree_iter cmp m ≡ₚ map_to_list m.
Proof. apply sort_by_perm. Qed.

Lemma btree_iter_nodup {K A} `{Countable K} cmp (m : gmap K A) : NoDup ((btree_iter cmp m).*1).
Proof. rewrite btree_iter_perm. apply NoDup_fst_map_to_list. Qed.

Lemma btree_iter_map {K A} `{Countable K} cmp (m : gmap K A) : list_to_map (btree_iter cmp m) = m.
Proof.
  rewrite (list_to_map_proper _ (map_to_list m)); [apply list_to_map_to_list|apply btree_iter_nodup|].
  apply btree_iter_perm.
Qed.

Lemma btree_iter_elem {K A} `{Countable K} cmp (m : gmap K A) k v :
  (k, v) ∈ btree_iter cmp m <-> m !! k = Some v.
Proof. rewrite btree_iter_perm. apply elem_of_map_to_list. Qed.

Lemma btree_segment {K A} `{Countable K} (f : R -> gmap K A) `{SetterEta _ f} `{!SetterGet f}
    cmp (pr : K * A -> Pair) (m : gmap K A) rv ps :
  f rv = ∅ ->
  (forall k v m', m' !! k = None -> m !! k = Some v ->
     step (rv <| f := m' |>) (pr (k, v)) = Ok (rv <| f := <[k := v]> m' |>)) ->
  insert_all step rv (map pr (btree_iter cmp m) ++ ps) = insert_all step (rv <| f := m |>) ps.
Proof.
  intros Hf Hs.
  rewrite (fun a b => entries_segment f pr (btree_iter cmp m) rv ps a (btree_iter_nodup cmp m) ∅ Hf b).
  - by rewrite (right_id_L ∅ (∪)), btree_iter_map.
  - intros k v m' Hm' Hin%btree_iter_elem. by apply Hs.
  - intros k _. by rewrite lookup_empty.
Qed.

Definition map_wf {K A} `{Countable K} (kd : serde K) (sd : serde A) (m : gmap K A) : Prop :=
  map_Forall (fun k v => sd_wf kd k /\ ser kd k <> [] /\ sd_wf sd v) m.

Lemma keyed_segment {K A} `{Countable K} (f : R -> gmap K A) `{SetterEta _ f} `{!SetterGet f}
    (kd : serde K) (sd : serde A) (cmp : K -> K -> comparison) (T : Z) (m : gmap K A) (rv : R) ps :
  (forall k v rv, step rv (mkPair (mkKey T k) v) = insert_keyed f kd sd (mkKey T k) v rv) ->
  f rv = ∅ -> map_wf kd sd m ->
  insert_all step rv (push_map T cmp kd sd m ++ ps) = insert_all step (rv <| f := m |>) ps.
Proof.
  intros Hs Hf Hw. unfold push_map. apply (btree_segment f); [done|].
  intros k v m' Hm' Hk. destruct (Hw k v Hk) as (Hkw & Hne & Hvw).
  rewrite Hs. unfold insert_keyed. cbn [key_data].
  destruct (ser kd k) as [|b bs] eqn:Ek; [done|]. rewrite <-Ek.
  assert (is_empty (ser kd k) = false) as -> by (by rewrite Ek). cbn [negb].
  rewrite (sd_ok kd k Hkw). cbn [rbind]. rewrite get_set, Hm', (sd_ok sd v Hvw). cbn [rbind].
  by rewrite set_set.
Qed.

Definition preimages_wf (size : nat) (hash : bytes -> bytes) (m : gmap bytes bytes) : Prop :=
  map_Forall (fun k v => length k = size /\ hash v = k) m.

Lemma hash_segment (f : R -> gmap bytes bytes) `{SetterEta _ f} `{!SetterGet f} (size : nat) (hash : bytes -> bytes) (ty : PsetHash)
    (cmp : bytes -> bytes -> comparison) (T : Z)
    (m : gmap bytes bytes) (rv : R) ps :
  (size <> 0)%nat ->
  (forall k v rv, step rv (mkPair (mkKey T k) v) =
                  pset_insert_hash_pair f size hash ty (mkKey T k) v rv) ->
  f rv = ∅ -> preimages_wf size hash m ->
  insert_all step rv (push_map T cmp (sd_hash size) sd_raw m ++ ps) =
  insert_all step (rv <| f := m |>) ps.
Proof.
  intros Hz Hs Hf Hw. unfold push_map. apply (btree_segment f); [done|].
  intros k v m' Hm' Hk. destruct (Hw k v Hk) as [Hl Hh]. rewrite Hs. unfold pset_insert_hash_pair.
  cbn [key_data]. assert (is_empty (ser (sd_hash size) k) = false) as ->
    by (destruct k; simpl in *; [lia|done]).
  rewrite (sd_ok (sd_hash size) k Hl). cbn [rbind]. rewrite get_set, Hm'. simpl.
  by rewrite bool_decide_true, set_set.
Qed.

Lemma proprietary_segment (f : R -> gmap ProprietaryKey bytes) `{SetterEta _ f} `{!SetterGet f}
    (m : gmap ProprietaryKey bytes) rv ps :
  (forall k v rv, is_Some (m !! k) ->
     step rv (mkPair (prop_to_key k) v) = insert_entry f k (prop_to_key k) v rv) ->
  f rv = ∅ ->
  insert_all step rv (push_proprietary m ++ ps) = insert_all step (rv <| f := m |>) ps.
Proof.
  intros Hs Hf. unfold push_proprietary. apply (btree_segment f); [done|].
  intros k v m' Hm' Hk. rewrite Hs by eauto. unfold insert_entry. by rewrite get_set, Hm', set_set.
Qed.

Lemma unknown_segment (f : R -> gmap raw_key bytes) `{SetterEta _ f} `{!SetterGet f}
    (m : gmap raw_key bytes) rv ps :
  (forall k v rv, is_Some (m !! k) -> step rv (mkPair k v) = insert_entry f k k v rv) ->
  f rv = ∅ ->
  insert_all step rv (push_unknown m ++ ps) = insert_all step (rv <| f := m |>) ps.
Proof.
  intros Hs Hf. unfold push_unknown. apply (btree_segment f); [done|].
  intros k v m' Hm' Hk. rewrite Hs by eauto. unfold insert_entry. by rewrite get_set, Hm', set_set.
Qed.
End macros.

#[export] Hint Extern 0 (SetterEta _) => (intros []; reflexivity) : typeclass_instances.
#[export] Hint Extern 0 (SetterGet _) => (split; [intros [] ?|intros [] ? ?]; reflexivity) : typeclass_instances.

(** ** Inputs *)

Definition PSET_PROPRIETARY : Z := 0xFC.

Definition PSET_IN_NON_WITNESS_UTXO : Z := 0x00.
Definition PSET_IN_WITNESS_UTXO : Z := 0x01.
Definition PSET_IN_PARTIAL_SIG : Z := 0x02.
Definition PSET_IN_SIGHASH_TYPE : Z := 0x03.
Definition PSET_IN_REDEEM_SCRIPT : Z := 0x04.
Definition PSET_IN_WITNESS_SCRIPT : Z := 0x05.
Definition PSET_IN_BIP32_DERIVATION : Z := 0x06.
Definition PSET_IN_FINAL_SCRIPTSIG : Z := 0x07.
Definition PSET_IN_FINAL_SCRIPTWITNESS : Z := 0x08.
Definition PSET_IN_RIPEMD160 : Z := 0x0a.
Definition PSET_IN_SHA256 : Z := 0x0b.
Definition PSET_IN_HASH160 : Z := 0x0c.
Definition PSET_IN_HASH256 : Z := 0x0d.
Definition PSET_IN_PREVIOUS_TXID : Z := 0x0e.
Definition PSET_IN_OUTPUT_INDEX : Z := 0x0f.
Definition PSET_IN_SEQUENCE : Z := 0x10.
Definition PSET_IN_REQUIRED_TIME_LOCKTIME : Z := 0x11.
Definition PSET_IN_REQUIRED_HEIGHT_LOCKTIME : Z := 0x12.
Definition PSBT_IN_TAP_KEY_SIG : Z := 0x13.
Definition PSBT_IN_TAP_SCRIPT_SIG : Z := 0x14.
Definition PSBT_IN_TAP_LEAF_SCRIPT : Z := 0x15.
Definition PSBT_IN_TAP_BIP32_DERIVATION : Z := 0x16.
Definition PSBT_IN_TAP_INTERNAL_KEY : Z := 0x17.
Definition PSBT_IN_TAP_MERKLE_ROOT : Z := 0x18.
Definition PSBT_ELEMENTS_IN_ISSUANCE_VALUE : Z := 0x00.
Definition PSBT_ELEMENTS_IN_ISSUANCE_VALUE_COMMITMENT : Z := 0x01.
Definition PSBT_ELEMENTS_IN_ISSUANCE_VALUE_RANGEPROOF : Z := 0x02.
Definition PSBT_ELEMENTS_IN_ISSUANCE_KEYS_RANGEPROOF : Z := 0x03.
Definition PSBT_ELEMENTS_IN_PEG_IN_TX : Z := 0x04.
Definition PSBT_ELEMENTS_IN_PEG_IN_TXOUT_PROOF : Z := 0x05.
Definition PSBT_ELEMENTS_IN_PEG_IN_GENESIS : Z := 0x06.
Definition PSBT_ELEMENTS_IN_PEG_IN_CLAIM_SCRIPT : Z := 0x07.
Definition PSBT_ELEMENTS_IN_PEG_IN_VALUE : Z := 0x08.
Definition PSBT_ELEMENTS_IN_PEG_IN_WITNESS : Z := 0x09.
Definition PSBT_ELEMENTS_IN_ISSUANCE_INFLATION_KEYS : Z := 0x0a.
Definition PSBT_ELEMENTS_IN_ISSUANCE_INFLATION_KEYS_COMMITMENT : Z := 0x0b.
Definition PSBT_ELEMENTS_IN_ISSUANCE_BLINDING_NONCE : Z := 0x0c.
Definition PSBT_ELEMENTS_IN_ISSUANCE_ASSET_ENTROPY : Z := 0x0d.
Definition PSBT_ELEMENTS_IN_UTXO_RANGEPROOF : Z := 0x0e.
Definition PSBT_ELEMENTS_IN_ISSUANCE_BLIND_VALUE_PROOF : Z := 0x0f.
Definition PSBT_ELEMENTS_IN_ISSUANCE_BLIND_INFLATION_KEYS_PROOF : Z := 0x10.
Definition PSBT_ELEMENTS_IN_EXPLICIT_VALUE : Z := 0x11.
Definition PSBT_ELEMENTS_IN_VALUE_PROOF : Z := 0x12.
Definition PSBT_ELEMENTS_IN_EXPLICIT_ASSET : Z := 0x13.
Definition PSBT_ELEMENTS_IN_ASSET_PROOF : Z := 0x14.
Definition PSBT_ELEMENTS_IN_BLINDED_ISSUANCE : Z := 0x15.

Section input.
Context {P : Platform} {S : Secp} {H : Hashes} {T : TapEnv} {C : SchnorrEnv} {E : PsetEnv}
  {X : PsetCodecEnv}.

(** The fields under the prefix [pset]. *)
Definition input_insert_pset (pk : ProprietaryKey) (raw : raw_key) (value : bytes) (slf : PsetInput)
  : result PsetInput codec_error :=
  let ty := subtype pk in
  if ty =? PSBT_ELEMENTS_IN_ISSUANCE_VALUE then
    insert_prop_unkeyed issuance_value_amount sd_u64 raw value slf else
  if ty =? PSBT_ELEMENTS_IN_ISSUANCE_VALUE_COMMITMENT then
    insert_prop_unkeyed issuance_value_comm sd_pedersen raw value slf else
  if ty =? PSBT_ELEMENTS_IN_ISSUANCE_VALUE_RANGEPROOF then
    insert_prop_unkeyed issuance_value_rangeproof sd_rangeproof raw value slf else
  if ty =? PSBT_ELEMENTS_IN_ISSUANCE_KEYS_RANGEPROOF then
    insert_prop_unkeyed issuance_keys_rangeproof sd_rangeproof raw value slf else
  if ty =? PSBT_ELEMENTS_IN_PEG_IN_TX then
    insert_prop_unkeyed pegin_tx sd_btc_tx raw value slf else
  if ty =? PSBT_ELEMENTS_IN_PEG_IN_TXOUT_PROOF then
    insert_prop_unkeyed pegin_txout_proof sd_raw raw value slf else
  if ty =? PSBT_ELEMENTS_IN_PEG_IN_GENESIS then
    insert_prop_unkeyed pegin_genesis_hash (sd_hash 32) raw value slf else
  if ty =? PSBT_ELEMENTS_IN_PEG_IN_CLAIM_SCRIPT then
    insert_prop_unkeyed pegin_claim_script sd_raw raw value slf else
  if ty =? PSBT_ELEMENTS_IN_PEG_IN_VALUE then
    insert_prop_unkeyed pegin_value sd_u64 raw value slf else
  if ty =? PSBT_ELEMENTS_IN_PEG_IN_WITNESS then
    insert_prop_unkeyed i_pegin_witness sd_witness raw value slf else
  if ty =? PSBT_ELEMENTS_IN_ISSUANCE_INFLATION_KEYS then
    insert_prop_unkeyed issuance_inflation_keys sd_u64 raw value slf else
  if ty =? PSBT_ELEMENTS_IN_ISSUANCE_INFLATION_KEYS_COMMITMENT then
    insert_prop_unkeyed issuance_inflation_keys_comm sd_pedersen raw value slf else
  if ty =? PSBT_ELEMENTS_IN_ISSUANCE_BLINDING_NONCE then
    insert_prop_unkeyed issuance_blinding_nonce sd_tweak raw value slf else
  if ty =? PSBT_ELEMENTS_IN_ISSUANCE_ASSET_ENTROPY then
    insert_prop_unkeyed issuance_asset_entropy sd_array32 raw value slf else
  if ty =? PSBT_ELEMENTS_IN_UTXO_RANGEPROOF then
    insert_prop_unkeyed in_utxo_rangeproof sd_rangeproof raw value slf else
  if ty =? PSBT_ELEMENTS_IN_ISSUANCE_BLIND_VALUE_PROOF then
    insert_prop_unkeyed in_issuance_blind_value_proof sd_rangeproof raw value slf else
  if ty =? PSBT_ELEMENTS_IN_ISSUANCE_BLIND_INFLATION_KEYS_PROOF then
    insert_prop_unkeyed in_issuance_blind_inflation_keys_proof sd_rangeproof raw value slf else
  if ty =? PSBT_ELEMENTS_IN_EXPLICIT_VALUE then
    insert_prop_unkeyed i_amount sd_u64 raw value slf else
  if ty =? PSBT_ELEMENTS_IN_VALUE_PROOF then
    insert_prop_unkeyed i_blind_value_proof sd_rangeproof raw value slf else
  if ty =? PSBT_ELEMENTS_IN_EXPLICIT_ASSET then
    insert_prop_unkeyed i_asset sd_array32 raw value slf else
  if ty =? PSBT_ELEMENTS_IN_ASSET_PROOF then
    insert_prop_unkeyed i_blind_asset_proof sd_surjection raw value slf else
  if ty =? PSBT_ELEMENTS_IN_BLINDED_ISSUANCE then
    insert_prop_unkeyed blinded_issuance sd_u8 raw value slf else
  insert_entry i_proprietary pk raw value slf.

Definition input_insert_pair (slf : PsetInput) (kv : Pair) : result PsetInput codec_error :=
  let raw := p_key kv in
  let value := p_value kv in
  let ty := type_value raw in
  if ty =? PSET_IN_NON_WITNESS_UTXO then insert_unkeyed non_witness_utxo sd_tx raw value slf else
  if ty =? PSET_IN_WITNESS_UTXO then insert_unkeyed witness_utxo sd_txout raw value slf else
  if ty =? PSET_IN_PARTIAL_SIG then insert_keyed partial_sigs sd_pubkey sd_raw raw value slf else
  if ty =? PSET_IN_SIGHASH_TYPE then insert_unkeyed sighash_type sd_psbt_sighash raw value slf else
  if ty =? PSET_IN_REDEEM_SCRIPT then insert_unkeyed i_redeem_script sd_raw raw value slf else
  if ty =? PSET_IN_WITNESS_SCRIPT then insert_unkeyed i_witness_script sd_raw raw value slf else
  if ty =? PSET_IN_BIP32_DERIVATION then insert_keyed i_bip32_derivation sd_pubkey sd_key_source raw value slf else
  if ty =? PSET_IN_FINAL_SCRIPTSIG then insert_unkeyed final_script_sig sd_raw raw value slf else
  if ty =? PSET_IN_FINAL_SCRIPTWITNESS then insert_unkeyed final_script_witness sd_witness raw value slf else
  if ty =? PSET_IN_RIPEMD160 then pset_insert_hash_pair ripemd160_preimages 20 ripemd160 Ripemd raw value slf else
  if ty =? PSET_IN_SHA256 then pset_insert_hash_pair sha256_preimages 32 sha256 Sha256 raw value slf else
  if ty =? PSET_IN_HASH160 then pset_insert_hash_pair hash160_preimages 20 pset_hash160 Hash160 raw value slf else
  if ty =? PSET_IN_HASH256 then pset_insert_hash_pair hash256_preimages 32 sha256d Hash256 raw value slf else
  if ty =? PSET_IN_PREVIOUS_TXID then Err (PsetErr (DuplicateKey raw)) else
  if ty =? PSET_IN_OUTPUT_INDEX then Err (PsetErr (DuplicateKey raw)) else
  if ty =? PSET_IN_SEQUENCE then insert_unkeyed i_sequence sd_sequence raw value slf else
  if ty =? PSET_IN_REQUIRED_TIME_LOCKTIME then insert_unkeyed required_time_locktime sd_time raw value slf else
  if ty =? PSET_IN_REQUIRED_HEIGHT_LOCKTIME then insert_unkeyed required_height_locktime sd_height raw value slf else
  if ty =? PSBT_IN_TAP_KEY_SIG then insert_unkeyed tap_key_sig sd_schnorr raw value slf else
  if ty =? PSBT_IN_TAP_SCRIPT_SIG then insert_keyed tap_script_sigs sd_xonly_leaf sd_schnorr raw value slf else
  if ty =? PSBT_IN_TAP_LEAF_SCRIPT then insert_keyed tap_scripts sd_control_block sd_script_ver raw value slf else
  if ty =? PSBT_IN_TAP_BIP32_DERIVATION then insert_keyed i_tap_key_origins sd_xonly sd_origin raw value slf else
  if ty =? PSBT_IN_TAP_INTERNAL_KEY then insert_unkeyed i_tap_internal_key sd_xonly raw value slf else
  if ty =? PSBT_IN_TAP_MERKLE_ROOT then insert_unkeyed tap_merkle_root (sd_hash 32) raw value slf else
  if ty =? PSET_PROPRIETARY then
    let? pk := lift_pset (prop_from_key raw) in
    if is_pset_key pk then input_insert_pset pk raw value slf
    else insert_entry i_proprietary pk raw value slf
  else insert_entry i_unknown raw raw value slf.

(** The derived orders of the keys of an input's maps. *)
Definition xonly_leaf_cmp : XOnlyPublicKey * bytes -> XOnlyPublicKey * bytes -> comparison :=
  then_with (cmp_by fst xonly_cmp) (cmp_by snd bytes_cmp).
Definition parity_cmp (a b : bool) : comparison :=
  match a, b with false, true => Lt | true, false => Gt | _, _ => Eq end.
Definition control_block_cmp : ControlBlock -> ControlBlock -> comparison :=
  then_with (cmp_by cb_leaf_version Z.compare)
    (then_with (cmp_by cb_parity parity_cmp)
       (then_with (cmp_by cb_internal_key xonly_cmp) (cmp_by cb_branch (list_cmp bytes_cmp)))).

(** [get_pairs], up to the two mandatory fields and from there on. *)
Definition input_pairs_before (i : PsetInput) : list Pair :=
  push_opt PSET_IN_NON_WITNESS_UTXO sd_tx (non_witness_utxo i) ++
  push_opt PSET_IN_WITNESS_UTXO sd_txout (witness_utxo i) ++
  push_map PSET_IN_PARTIAL_SIG pk_cmp sd_pubkey sd_raw (partial_sigs i) ++
  push_opt PSET_IN_SIGHASH_TYPE sd_psbt_sighash (sighash_type i) ++
  push_opt PSET_IN_REDEEM_SCRIPT sd_raw (i_redeem_script i) ++
  push_opt PSET_IN_WITNESS_SCRIPT sd_raw (i_witness_script i) ++
  push_map PSET_IN_BIP32_DERIVATION pk_cmp sd_pubkey sd_key_source (i_bip32_derivation i) ++
  push_opt PSET_IN_FINAL_SCRIPTSIG sd_raw (final_script_sig i) ++
  push_opt PSET_IN_FINAL_SCRIPTWITNESS sd_witness (final_script_witness i) ++
  push_map PSET_IN_RIPEMD160 bytes_cmp (sd_hash 20) sd_raw (ripemd160_preimages i) ++
  push_map PSET_IN_SHA256 bytes_cmp (sd_hash 32) sd_raw (sha256_preimages i) ++
  push_map PSET_IN_HASH160 bytes_cmp (sd_hash 20) sd_raw (hash160_preimages i) ++
  push_map PSET_IN_HASH256 bytes_cmp (sd_hash 32) sd_raw (hash256_preimages i).

Definition input_pairs_after (i : PsetInput) : list Pair :=
  push_opt PSET_IN_SEQUENCE sd_sequence (i_sequence i) ++
  push_opt PSET_IN_REQUIRED_TIME_LOCKTIME sd_time (required_time_locktime i) ++
  push_opt PSET_IN_REQUIRED_HEIGHT_LOCKTIME sd_height (required_height_locktime i) ++
  push_opt PSBT_IN_TAP_KEY_SIG sd_schnorr (tap_key_sig i) ++
  push_map PSBT_IN_TAP_SCRIPT_SIG xonly_leaf_cmp sd_xonly_leaf sd_schnorr (tap_script_sigs i) ++
  push_map PSBT_IN_TAP_LEAF_SCRIPT control_block_cmp sd_control_block sd_script_ver (tap_scripts i) ++
  push_map PSBT_IN_TAP_BIP32_DERIVATION xonly_cmp sd_xonly sd_origin (i_tap_key_origins i) ++
  push_opt PSBT_IN_TAP_INTERNAL_KEY sd_xonly (i_tap_internal_key i) ++
  push_opt PSBT_IN_TAP_MERKLE_ROOT (sd_hash 32) (tap_merkle_root i) ++
  push_prop PSBT_ELEMENTS_IN_ISSUANCE_VALUE sd_u64 (issuance_value_amount i) ++
  push_prop PSBT_ELEMENTS_IN_ISSUANCE_VALUE_COMMITMENT sd_pedersen (issuance_value_comm i) ++
  push_prop PSBT_ELEMENTS_IN_ISSUANCE_VALUE_RANGEPROOF sd_rangeproof (issuance_value_rangeproof i) ++
  push_prop PSBT_ELEMENTS_IN_ISSUANCE_KEYS_RANGEPROOF sd_rangeproof (issuance_keys_rangeproof i) ++
  push_prop PSBT_ELEMENTS_IN_PEG_IN_TX sd_btc_tx (pegin_tx i) ++
  push_prop PSBT_ELEMENTS_IN_PEG_IN_TXOUT_PROOF sd_raw (pegin_txout_proof i) ++
  push_prop PSBT_ELEMENTS_IN_PEG_IN_GENESIS (sd_hash 32) (pegin_genesis_hash i) ++
  push_prop PSBT_ELEMENTS_IN_PEG_IN_CLAIM_SCRIPT sd_raw (pegin_claim_script i) ++
  push_prop PSBT_ELEMENTS_IN_PEG_IN_VALUE sd_u64 (pegin_value i) ++
  push_prop PSBT_ELEMENTS_IN_PEG_IN_WITNESS sd_witness (i_pegin_witness i) ++
  push_prop PSBT_ELEMENTS_IN_ISSUANCE_INFLATION_KEYS sd_u64 (issuance_inflation_keys i) ++
  push_prop PSBT_ELEMENTS_IN_ISSUANCE_INFLATION_KEYS_COMMITMENT sd_pedersen (issuance_inflation_keys_comm i) ++
  push_prop PSBT_ELEMENTS_IN_ISSUANCE_BLINDING_NONCE sd_tweak (issuance_blinding_nonce i) ++
  push_prop PSBT_ELEMENTS_IN_ISSUANCE_ASSET_ENTROPY sd_array32 (issuance_asset_entropy i) ++
  push_prop PSBT_ELEMENTS_IN_UTXO_RANGEPROOF sd_rangeproof (in_utxo_rangeproof i) ++
  push_prop PSBT_ELEMENTS_IN_ISSUANCE_BLIND_VALUE_PROOF sd_rangeproof (in_issuance_blind_value_proof i) ++
  push_prop PSBT_ELEMENTS_IN_ISSUANCE_BLIND_INFLATION_KEYS_PROOF sd_rangeproof (in_issuance_blind_inflation_keys_proof i) ++
  push_prop PSBT_ELEMENTS_IN_EXPLICIT_VALUE sd_u64 (i_amount i) ++
  push_prop PSBT_ELEMENTS_IN_VALUE_PROOF sd_rangeproof (i_blind_value_proof i) ++
  push_prop PSBT_ELEMENTS_IN_EXPLICIT_ASSET sd_array32 (i_asset i) ++
  push_prop PSBT_ELEMENTS_IN_ASSET_PROOF sd_surjection (i_blind_asset_proof i) ++
  push_prop PSBT_ELEMENTS_IN_BLINDED_ISSUANCE sd_u8 (blinded_issuance i) ++
  push_proprietary (i_proprietary i) ++
  push_unknown (i_unknown i).

Definition input_get_pairs (i : PsetInput) : list Pair :=
  input_pairs_before i ++
  [mkPair (mkKey PSET_IN_PREVIOUS_TXID []) (ser (sd_hash 32) (previous_txid i));
   mkPair (mkKey PSET_IN_OUTPUT_INDEX []) (ser sd_u32 (previous_output_index i))] ++
  input_pairs_after i.

Definition encode_Input (i : PsetInput) : bytes := encode_pairs (input_get_pairs i).

(** The local variables of the decoder. *)
Record InputAcc := mkInputAcc
  { in_rv : PsetInput; prev_vout : option Z; prev_txid : option bytes }.
#[export] Instance prev_vout_setter : Setter prev_vout := fun v a => mkInputAcc (in_rv a) v (prev_txid a).
#[export] Instance prev_txid_setter : Setter prev_txid := fun v a => mkInputAcc (in_rv a) (prev_vout a) v.

Definition input_step (acc : InputAcc) (kv : Pair) : result InputAcc codec_error :=
  let ty := type_value (p_key kv) in
  if ty =? PSET_IN_PREVIOUS_TXID then
    insert_unkeyed prev_txid (sd_hash 32) (p_key kv) (p_value kv) acc
  else if ty =? PSET_IN_OUTPUT_INDEX then
    insert_unkeyed prev_vout sd_u32 (p_key kv) (p_value kv) acc
  else
    let? rv := input_insert_pair (in_rv acc) kv in
    Ok (mkInputAcc rv (prev_vout acc) (prev_txid acc)).

Definition decode_Input (bs : bytes) : result (PsetInput * bytes) codec_error :=
  let? (acc, rest) := decode_map input_step (mkInputAcc Input_default None None) bs in
  let? txid := ok_or (prev_txid acc) (PsetErr MissingInputPrevTxId) in
  let? vout := ok_or (prev_vout acc) (PsetErr MissingInputPrevVout) in
  Ok (in_rv acc <| previous_txid := txid |> <| previous_output_index := vout |>, rest).

(** ** Inputs that survive the encoding *)

Definition input_known (ty : Z) : bool := (ty <=? 0x18) && negb (ty =? 0x09) || (ty =? PSET_PROPRIETARY).
Definition input_prop_known (k : ProprietaryKey) : bool := is_pset_key k && (subtype k <=? 0x15).

Record input_wf (i : PsetInput) : Prop :=
  { iw_non_witness_utxo : opt_wf sd_tx (non_witness_utxo i);
    iw_witness_utxo : opt_wf sd_txout (witness_utxo i);
    iw_sighash_type : opt_wf sd_psbt_sighash (sighash_type i);
    iw_bip32_derivation : map_Forall (fun _ s => key_source_wf s) (i_bip32_derivation i);
    iw_final_script_witness : opt_wf sd_witness (final_script_witness i);
    iw_ripemd160 : preimages_wf 20 ripemd160 (ripemd160_preimages i);
    iw_sha256 : preimages_wf 32 sha256 (sha256_preimages i);
    iw_hash160 : preimages_wf 20 pset_hash160 (hash160_preimages i);
    iw_hash256 : preimages_wf 32 sha256d (hash256_preimages i);
    iw_previous_txid : length (previous_txid i) = 32%nat;
    iw_previous_output_index : is_u32 (previous_output_index i);
    iw_sequence : opt_wf sd_sequence (i_sequence i);
    iw_time : opt_wf sd_time (required_time_locktime i);
    iw_height : opt_wf sd_height (required_height_locktime i);
    iw_tap_key_sig : opt_wf sd_schnorr (tap_key_sig i);
    iw_tap_script_sigs :
      map_Forall (fun k s => length k.2 = 32%nat /\ hash_ty s <> SchnorrReserved) (tap_script_sigs i);
    iw_tap_scripts : map_Forall (fun k s => ControlBlock_wf k /\ leaf_version_wf s.2) (tap_scripts i);
    iw_tap_key_origins :
      map_Forall (fun _ o => leaf_hashes_wf o.1 /\ key_source_wf o.2) (i_tap_key_origins i);
    iw_tap_merkle_root : opt_wf (sd_hash 32) (tap_merkle_root i);
    iw_issuance_value_amount : opt_wf sd_u64 (issuance_value_amount i);
    iw_pegin_genesis_hash : opt_wf (sd_hash 32) (pegin_genesis_hash i);
    iw_pegin_value : opt_wf sd_u64 (pegin_value i);
    iw_pegin_witness : opt_wf sd_witness (i_pegin_witness i);
    iw_issuance_inflation_keys : opt_wf sd_u64 (issuance_inflation_keys i);
    iw_issuance_asset_entropy : opt_wf sd_array32 (issuance_asset_entropy i);
    iw_amount : opt_wf sd_u64 (i_amount i);
    iw_asset : opt_wf sd_array32 (i_asset i);
    iw_blinded_issuance : opt_wf sd_u8 (blinded_issuance i);
    iw_proprietary : map_Forall (fun k _ => prop_wf k /\ input_prop_known k = false) (i_proprietary i);
    iw_unknown : map_Forall (fun k _ => is_u8 (type_value k) /\ input_known (type_value k) = false) (i_unknown i);
    iw_fits : Forall pair_wf (input_get_pairs i) }.

(** *** Reading an input back *)

(** The pairs of a segment have one type. *)
Lemma push_opt_types {A} (Q : Z -> Prop) ty (sd : serde A) o :
  Q ty -> Forall (fun p => Q (type_value (p_key p))) (push_opt ty sd o).
Proof. destruct o; simpl; auto. Qed.

Lemma push_prop_types {A} (Q : Z -> Prop) ty (sd : serde A) o :
  Q PSET_PROPRIETARY -> Forall (fun p => Q (type_value (p_key p))) (push_prop ty sd o).
Proof. destruct o; simpl; auto. Qed.

Lemma push_map_types {K A} `{Countable K} (Q : Z -> Prop) ty cmp (kd : serde K) (sd : serde A) m :
  Q ty -> Forall (fun p => Q (type_value (p_key p))) (push_map ty cmp kd sd m).
Proof. intros HQ. unfold push_map. apply Forall_map, Forall_forall. by intros [] _. Qed.

Lemma push_proprietary_types (Q : Z -> Prop) m :
  Q PSET_PROPRIETARY -> Forall (fun p => Q (type_value (p_key p))) (push_proprietary m).
Proof. intros HQ. unfold push_proprietary. apply Forall_map, Forall_forall. by intros [] _. Qed.

Lemma push_unknown_types (Q : Z -> Prop) m :
  map_Forall (fun k _ => Q (type_value k)) m ->
  Forall (fun p => Q (type_value (p_key p))) (push_unknown m).
Proof.
  intros HQ. unfold push_unknown. apply Forall_map, Forall_forall. intros [k v] Hin.
  apply btree_iter_elem in Hin. exact (HQ k v Hin).
Qed.

Lemma pubkey_map_wf {A} (sd : serde A) (m : gmap BtcPublicKey A) :
  map_Forall (fun _ v => sd_wf sd v) m -> map_wf sd_pubkey sd m.
Proof. intros Hm k v Hk. split_and!; [done|apply btc_pk_nonempty|exact (Hm k v Hk)]. Qed.

Lemma xonly_map_wf {A} (sd : serde A) (m : gmap XOnlyPublicKey A) :
  map_Forall (fun _ v => sd_wf sd v) m -> map_wf sd_xonly sd m.
Proof.
  intros Hm k v Hk. split_and!; [done| |exact (Hm k v Hk)].
  intros Hn%(f_equal length). simpl in Hn. rewrite xonly_length in Hn. done.
Qed.

(** The two mandatory fields have local variables of their own; all other pairs go to the
    map. *)
Lemma input_step_lift acc ps :
  Forall (fun p => type_value (p_key p) <> PSET_IN_PREVIOUS_TXID /\
                   type_value (p_key p) <> PSET_IN_OUTPUT_INDEX) ps ->
  insert_all input_step acc ps =
  (let? rv := insert_all input_insert_pair (in_rv acc) ps in
   Ok (mkInputAcc rv (prev_vout acc) (prev_txid acc))).
Proof.
  intros Hps. revert acc. induction Hps as [|p ps [H1 H2] _ IH]; intros acc; cbn [insert_all].
  { by destruct acc. }
  unfold input_step at 1. destruct (Z.eqb_spec (type_value (p_key p)) PSET_IN_PREVIOUS_TXID); [done|].
  destruct (Z.eqb_spec (type_value (p_key p)) PSET_IN_OUTPUT_INDEX); [done|].
  destruct (input_insert_pair (in_rv acc) p); cbn [rbind]; [by rewrite IH|done].
Qed.

Lemma input_prop_step k v rv : prop_wf k -> is_pset_key k = true ->
  input_insert_pair rv (mkPair (prop_to_key k) v) = input_insert_pset k (prop_to_key k) v rv.
Proof.
  intros Hk Hp. unfold input_insert_pair. cbn [p_key p_value].
  change (type_value (prop_to_key k)) with PSET_PROPRIETARY. rewrite prop_from_to_key by done.
  cbn -[input_insert_pset]. by rewrite Hp.
Qed.

Lemma input_proprietary_step k v rv : prop_wf k -> input_prop_known k = false ->
  input_insert_pair rv (mkPair (prop_to_key k) v) = insert_entry i_proprietary k (prop_to_key k) v rv.
Proof.
  intros Hk Hn. unfold input_insert_pair. cbn [p_key p_value].
  change (type_value (prop_to_key k)) with PSET_PROPRIETARY. rewrite prop_from_to_key by done.
  cbn -[input_insert_pset insert_entry]. destruct (is_pset_key k) eqn:Ep; [|done].
  unfold input_prop_known in Hn. rewrite Ep in Hn. apply Z.leb_gt in Hn.
  unfold input_insert_pset. cbv zeta.
  repeat match goal with
  | |- context [subtype k =? ?c] => destruct (Z.eqb_spec (subtype k) c) as [Ec|_];
      [rewrite Ec in Hn; by cbv in Hn|]
  end. done.
Qed.

Lemma input_unknown_step k v rv : is_u8 (type_value k) -> input_known (type_value k) = false ->
  input_insert_pair rv (mkPair k v) = insert_entry i_unknown k k v rv.
Proof.
  intros Hu Hn. unfold input_insert_pair. cbn [p_key p_value]. cbv zeta.
  repeat match goal with
  | |- context [type_value k =? ?c] => destruct (Z.eqb_spec (type_value k) c) as [Ec|_];
      [rewrite Ec in Hn; by cbv in Hn|]
  end. done.
Qed.

Ltac opt_seg f := rewrite (opt_segment_same input_insert_pair f); [|reflexivity|reflexivity|].
Ltac map_seg f := rewrite (keyed_segment input_insert_pair f); [|reflexivity|reflexivity|].
Ltac hash_seg f h ty := rewrite (hash_segment input_insert_pair f _ h ty); [|done|reflexivity|reflexivity|].
Ltac prop_seg f :=
  rewrite (prop_segment_same input_insert_pair f);
    [|done|intros v; rewrite input_prop_step; [reflexivity|by apply pset_pair_wf|reflexivity]
     |reflexivity|].

Lemma opt_wf_trivial {A} (sd : serde A) o : (forall v, sd_wf sd v) -> opt_wf sd o.
Proof. intros Hv. destruct o; [apply Hv|done]. Qed.

Lemma input_partial_sigs_wf i : map_wf sd_pubkey sd_raw (partial_sigs i).
Proof. apply pubkey_map_wf. by intros k v _. Qed.

Lemma input_i_bip32_derivation_wf i : input_wf i -> map_wf sd_pubkey sd_key_source (i_bip32_derivation i).
Proof. intros W. apply pubkey_map_wf. exact (iw_bip32_derivation i W). Qed.

Lemma input_i_tap_key_origins_wf i : input_wf i -> map_wf sd_xonly sd_origin (i_tap_key_origins i).
Proof. intros W. apply xonly_map_wf. exact (iw_tap_key_origins i W). Qed.

Lemma input_tap_script_sigs_wf i : input_wf i -> map_wf sd_xonly_leaf sd_schnorr (tap_script_sigs i).
Proof.
  intros W k v Hk. destruct (iw_tap_script_sigs i W k v Hk) as [Hl Hr]. split_and!; [done| |done].
  intros Hn%(f_equal length). simpl in Hn. rewrite length_app, xonly_length in Hn. simpl in Hn. lia.
Qed.

Lemma input_tap_scripts_wf i : input_wf i -> map_wf sd_control_block sd_script_ver (tap_scripts i).
Proof. intros W k v Hk. by destruct (iw_tap_scripts i W k v Hk). Qed.

Lemma input_fields_read i : input_wf i ->
  insert_all input_insert_pair Input_default (input_pairs_before i ++ input_pairs_after i) =
  Ok (i <| previous_txid := zero_hash |> <| previous_output_index := 0 |>).
Proof.
  intros W. unfold input_pairs_before, input_pairs_after. rewrite <-!app_assoc.
  opt_seg non_witness_utxo; [|apply iw_non_witness_utxo; done].
  opt_seg witness_utxo; [|apply iw_witness_utxo; done].
  map_seg partial_sigs; [|by apply input_partial_sigs_wf].
  opt_seg sighash_type; [|apply iw_sighash_type; done].
  opt_seg i_redeem_script; [|by apply opt_wf_trivial].
  opt_seg i_witness_script; [|by apply opt_wf_trivial].
  map_seg i_bip32_derivation; [|by apply input_i_bip32_derivation_wf].
  opt_seg final_script_sig; [|by apply opt_wf_trivial].
  opt_seg final_script_witness; [|apply iw_final_script_witness; done].
  hash_seg ripemd160_preimages ripemd160 Ripemd; [|by apply iw_ripemd160].
  hash_seg sha256_preimages sha256 Sha256; [|by apply iw_sha256].
  hash_seg hash160_preimages pset_hash160 Hash160; [|by apply iw_hash160].
  hash_seg hash256_preimages sha256d Hash256; [|by apply iw_hash256].
  opt_seg i_sequence; [|apply iw_sequence; done].
  opt_seg required_time_locktime; [|apply iw_time; done].
  opt_seg required_height_locktime; [|apply iw_height; done].
  opt_seg tap_key_sig; [|apply iw_tap_key_sig; done].
  map_seg tap_script_sigs; [|by apply input_tap_script_sigs_wf].
  map_seg tap_scripts; [|by apply input_tap_scripts_wf].
  map_seg i_tap_key_origins; [|by apply input_i_tap_key_origins_wf].
  opt_seg i_tap_internal_key; [|by apply opt_wf_trivial].
  opt_seg tap_merkle_root; [|apply iw_tap_merkle_root; done].
  prop_seg issuance_value_amount; [|apply iw_issuance_value_amount; done].
  prop_seg issuance_value_comm; [|by apply opt_wf_trivial].
  prop_seg issuance_value_rangeproof; [|by apply opt_wf_trivial].
  prop_seg issuance_keys_rangeproof; [|by apply opt_wf_trivial].
  prop_seg pegin_tx; [|by apply opt_wf_trivial].
  prop_seg pegin_txout_proof; [|by apply opt_wf_trivial].
  prop_seg pegin_genesis_hash; [|apply iw_pegin_genesis_hash; done].
  prop_seg pegin_claim_script; [|by apply opt_wf_trivial].
  prop_seg pegin_value; [|apply iw_pegin_value; done].
  prop_seg i_pegin_witness; [|apply iw_pegin_witness; done].
  prop_seg issuance_inflation_keys; [|apply iw_issuance_inflation_keys; done].
  prop_seg issuance_inflation_keys_comm; [|by apply opt_wf_trivial].
  prop_seg issuance_blinding_nonce; [|by apply opt_wf_trivial].
  prop_seg issuance_asset_entropy; [|apply iw_issuance_asset_entropy; done].
  prop_seg in_utxo_rangeproof; [|by apply opt_wf_trivial].
  prop_seg in_issuance_blind_value_proof; [|by apply opt_wf_trivial].
  prop_seg in_issuance_blind_inflation_keys_proof; [|by apply opt_wf_trivial].
  prop_seg i_amount; [|apply iw_amount; done].
  prop_seg i_blind_value_proof; [|by apply opt_wf_trivial].
  prop_seg i_asset; [|apply iw_asset; done].
  prop_seg i_blind_asset_proof; [|by apply opt_wf_trivial].
  prop_seg blinded_issuance; [|apply iw_blinded_issuance; done].
  rewrite (proprietary_segment input_insert_pair i_proprietary); [| |reflexivity].
  2: { intros k v rv [x Hx]. apply input_proprietary_step; apply (iw_proprietary i W k x Hx). }
  rewrite <-(app_nil_r (push_unknown _)).
  rewrite (unknown_segment input_insert_pair i_unknown); [| |reflexivity].
  2: { intros k v rv [x Hx]. apply input_unknown_step; apply (iw_unknown i W k x Hx). }
  destruct i. reflexivity.
Qed.

Lemma input_types i : input_wf i ->
  Forall (fun p => type_value (p_key p) <> PSET_IN_PREVIOUS_TXID /\
                   type_value (p_key p) <> PSET_IN_OUTPUT_INDEX)
    (input_pairs_before i ++ input_pairs_after i).
Proof.
  intros W. set (Q := fun t => t <> PSET_IN_PREVIOUS_TXID /\ t <> PSET_IN_OUTPUT_INDEX).
  unfold input_pairs_before, input_pairs_after. rewrite <-!app_assoc.
  repeat apply Forall_app_2;
    first [apply (push_opt_types Q); done | apply (push_map_types Q); done
          |apply (push_prop_types Q); done | apply (push_proprietary_types Q); done
          |apply (push_unknown_types Q)].
  intros k v Hk. destruct (iw_unknown i W k v Hk) as [_ Hn].
  split; intros Ht; rewrite Ht in Hn; by cbv in Hn.
Qed.

Lemma input_mandatory i rv : input_wf i ->
  insert_all input_step (mkInputAcc rv None None)
    [mkPair (mkKey PSET_IN_PREVIOUS_TXID []) (ser (sd_hash 32) (previous_txid i));
     mkPair (mkKey PSET_IN_OUTPUT_INDEX []) (ser sd_u32 (previous_output_index i))] =
  Ok (mkInputAcc rv (Some (previous_output_index i)) (Some (previous_txid i))).
Proof.
  intros W. transitivity
    (let? txid := de (sd_hash 32) (ser (sd_hash 32) (previous_txid i)) in
     let? vout := de sd_u32 (ser sd_u32 (previous_output_index i)) in
     Ok (mkInputAcc rv (Some vout) (Some txid))).
  - cbn [insert_all]. unfold input_step, insert_unkeyed.
    destruct (de (sd_hash 32) (ser (sd_hash 32) (previous_txid i))) as [t|e] eqn:Et;
      cbn -[sd_hash sd_u32 ser de]; rewrite Et; cbn -[sd_hash sd_u32 ser de]; [|done].
    by destruct (de sd_u32 (ser sd_u32 (previous_output_index i))).
  - rewrite (sd_ok (sd_hash 32)) by apply W. cbn [rbind]. by rewrite (sd_ok sd_u32) by apply W.
Qed.

Lemma decode_Input_ok i rest : input_wf i -> decode_Input (encode_Input i ++ rest) = Ok (i, rest).
Proof.
  intros W. unfold decode_Input, encode_Input.
  pose proof (input_fields_read i W) as Hf. rewrite insert_all_app in Hf.
  apply rbind_ok in Hf as (rv & Hb & Ha).
  pose proof (input_types i W) as [Tb Ta]%Forall_app.
  rewrite (decode_map_ok input_step _
    (mkInputAcc (i <| previous_txid := zero_hash |> <| previous_output_index := 0 |>)
       (Some (previous_output_index i)) (Some (previous_txid i)))); [by destruct i|apply W|].
  unfold input_get_pairs. rewrite insert_all_app, input_step_lift by done. cbn [in_rv].
  rewrite Hb. cbn [rbind prev_vout prev_txid]. rewrite insert_all_app, input_mandatory by done. cbn [rbind].
  rewrite input_step_lift by done. cbn. by rewrite Ha.
Qed.
End input.

(** ** Outputs *)

Definition PSET_OUT_REDEEM_SCRIPT : Z := 0x00.
Definition PSET_OUT_WITNESS_SCRIPT : Z := 0x01.
Definition PSET_OUT_BIP32_DERIVATION : Z := 0x02.
Definition PSET_OUT_AMOUNT : Z := 0x03.
Definition PSET_OUT_SCRIPT : Z := 0x04.
Definition PSBT_OUT_TAP_INTERNAL_KEY : Z := 0x05.
Definition PSBT_OUT_TAP_TREE : Z := 0x06.
Definition PSBT_OUT_TAP_BIP32_DERIVATION : Z := 0x07.
Definition PSBT_ELEMENTS_OUT_VALUE_COMMITMENT : Z := 0x01.
Definition PSBT_ELEMENTS_OUT_ASSET : Z := 0x02.
Definition PSBT_ELEMENTS_OUT_ASSET_COMMITMENT : Z := 0x03.
Definition PSBT_ELEMENTS_OUT_VALUE_RANGEPROOF : Z := 0x04.
Definition PSBT_ELEMENTS_OUT_ASSET_SURJECTION_PROOF : Z := 0x05.
Definition PSBT_ELEMENTS_OUT_BLINDING_PUBKEY : Z := 0x06.
Definition PSBT_ELEMENTS_OUT_ECDH_PUBKEY : Z := 0x07.
Definition PSBT_ELEMENTS_OUT_BLINDER_INDEX : Z := 0x08.
Definition PSBT_ELEMENTS_OUT_BLIND_VALUE_PROOF : Z := 0x09.
Definition PSBT_ELEMENTS_OUT_BLIND_ASSET_PROOF : Z := 0x0a.

Section output.
Context {P : Platform} {S : Secp} {H : Hashes} {T : TapEnv} {C : SchnorrEnv} {E : PsetEnv}
  {X : PsetCodecEnv}.

(** Script trees; [sd_wf] holds of the trees that are their own mirror image. *)
Definition sd_tap_tree : serde (list (option NodeInfo)) :=
  {| ser := ser_tap_tree; de := de_tap_tree; sd_wf b := de_tap_tree (ser_tap_tree b) = Ok b;
     sd_ok _ Hb := Hb |}.

(** The fields under the prefix [pset]. *)
Definition output_insert_pset (pk : ProprietaryKey) (raw : raw_key) (value : bytes) (slf : PsetOutput)
  : result PsetOutput codec_error :=
  let ty := subtype pk in
  if ty =? PSBT_ELEMENTS_OUT_VALUE_COMMITMENT then
    insert_prop_unkeyed amount_comm sd_pedersen raw value slf else
  if ty =? PSBT_ELEMENTS_OUT_ASSET then
    insert_prop_unkeyed o_asset sd_array32 raw value slf else
  if ty =? PSBT_ELEMENTS_OUT_ASSET_COMMITMENT then
    insert_prop_unkeyed asset_comm sd_generator raw value slf else
  if ty =? PSBT_ELEMENTS_OUT_VALUE_RANGEPROOF then
    insert_prop_unkeyed value_rangeproof sd_rangeproof raw value slf else
  if ty =? PSBT_ELEMENTS_OUT_ASSET_SURJECTION_PROOF then
    insert_prop_unkeyed asset_surjection_proof sd_surjection raw value slf else
  if ty =? PSBT_ELEMENTS_OUT_BLINDING_PUBKEY then
    insert_prop_unkeyed blinding_key sd_pubkey raw value slf else
  if ty =? PSBT_ELEMENTS_OUT_ECDH_PUBKEY then
    insert_prop_unkeyed ecdh_pubkey sd_pubkey raw value slf else
  if ty =? PSBT_ELEMENTS_OUT_BLINDER_INDEX then
    insert_prop_unkeyed blinder_index sd_u32 raw value slf else
  if ty =? PSBT_ELEMENTS_OUT_BLIND_VALUE_PROOF then
    insert_prop_unkeyed o_blind_value_proof sd_rangeproof raw value slf else
  if ty =? PSBT_ELEMENTS_OUT_BLIND_ASSET_PROOF then
    insert_prop_unkeyed o_blind_asset_proof sd_surjection raw value slf else
  insert_entry o_proprietary pk raw value slf.

Definition output_insert_pair (slf : PsetOutput) (kv : Pair) : result PsetOutput codec_error :=
  let raw := p_key kv in
  let value := p_value kv in
  let ty := type_value raw in
  if ty =? PSET_OUT_REDEEM_SCRIPT then insert_unkeyed o_redeem_script sd_raw raw value slf else
  if ty =? PSET_OUT_WITNESS_SCRIPT then insert_unkeyed o_witness_script sd_raw raw value slf else
  if ty =? PSET_OUT_BIP32_DERIVATION then insert_keyed o_bip32_derivation sd_pubkey sd_key_source raw value slf else
  if ty =? PSET_OUT_AMOUNT then insert_unkeyed o_amount sd_u64 raw value slf else
  if ty =? PSET_OUT_SCRIPT then Err (PsetErr (DuplicateKey raw)) else
  if ty =? PSBT_OUT_TAP_INTERNAL_KEY then insert_unkeyed o_tap_internal_key sd_xonly raw value slf else
  if ty =? PSBT_OUT_TAP_TREE then insert_unkeyed tap_tree_ sd_tap_tree raw value slf else
  if ty =? PSBT_OUT_TAP_BIP32_DERIVATION then insert_keyed o_tap_key_origins sd_xonly sd_origin raw value slf else
  if ty =? PSET_PROPRIETARY then
    let? pk := lift_pset (prop_from_key raw) in
    if is_pset_key pk then output_insert_pset pk raw value slf
    else insert_entry o_proprietary pk raw value slf
  else insert_entry o_unknown raw raw value slf.

(** [get_pairs], up to the mandatory script and from there on. *)
Definition output_pairs_before (o : PsetOutput) : list Pair :=
  push_opt PSET_OUT_REDEEM_SCRIPT sd_raw (o_redeem_script o) ++
  push_opt PSET_OUT_WITNESS_SCRIPT sd_raw (o_witness_script o) ++
  push_map PSET_OUT_BIP32_DERIVATION pk_cmp sd_pubkey sd_key_source (o_bip32_derivation o) ++
  push_opt PSBT_OUT_TAP_INTERNAL_KEY sd_xonly (o_tap_internal_key o) ++
  push_opt PSBT_OUT_TAP_TREE sd_tap_tree (tap_tree_ o) ++
  push_map PSBT_OUT_TAP_BIP32_DERIVATION xonly_cmp sd_xonly sd_origin (o_tap_key_origins o) ++
  push_opt PSET_OUT_AMOUNT sd_u64 (o_amount o) ++
  push_prop PSBT_ELEMENTS_OUT_VALUE_COMMITMENT sd_pedersen (amount_comm o) ++
  push_prop PSBT_ELEMENTS_OUT_ASSET sd_array32 (o_asset o) ++
  push_prop PSBT_ELEMENTS_OUT_ASSET_COMMITMENT sd_generator (asset_comm o).

Definition output_pairs_after (o : PsetOutput) : list Pair :=
  push_prop PSBT_ELEMENTS_OUT_VALUE_RANGEPROOF sd_rangeproof (value_rangeproof o) ++
  push_prop PSBT_ELEMENTS_OUT_ASSET_SURJECTION_PROOF sd_surjection (asset_surjection_proof o) ++
  push_prop PSBT_ELEMENTS_OUT_BLINDING_PUBKEY sd_pubkey (blinding_key o) ++
  push_prop PSBT_ELEMENTS_OUT_ECDH_PUBKEY sd_pubkey (ecdh_pubkey o) ++
  push_prop PSBT_ELEMENTS_OUT_BLINDER_INDEX sd_u32 (blinder_index o) ++
  push_prop PSBT_ELEMENTS_OUT_BLIND_VALUE_PROOF sd_rangeproof (o_blind_value_proof o) ++
  push_prop PSBT_ELEMENTS_OUT_BLIND_ASSET_PROOF sd_surjection (o_blind_asset_proof o) ++
  push_proprietary (o_proprietary o) ++
  push_unknown (o_unknown o).

Definition output_get_pairs (o : PsetOutput) : list Pair :=
  output_pairs_before o ++
  [mkPair (mkKey PSET_OUT_SCRIPT []) (ser sd_raw (o_script_pubkey o))] ++
  output_pairs_after o.

Definition encode_Output (o : PsetOutput) : bytes := encode_pairs (output_get_pairs o).

Record OutputAcc := mkOutputAcc { out_rv : PsetOutput; out_spk : option Script }.
#[export] Instance out_spk_setter : Setter out_spk := fun v a => mkOutputAcc (out_rv a) v.

Definition output_step (acc : OutputAcc) (kv : Pair) : result OutputAcc codec_error :=
  if type_value (p_key kv) =? PSET_OUT_SCRIPT then
    insert_unkeyed out_spk sd_raw (p_key kv) (p_value kv) acc
  else
    let? rv := output_insert_pair (out_rv acc) kv in
    Ok (mkOutputAcc rv (out_spk acc)).

(** The checks after the loop. *)
Definition output_missing (rv : PsetOutput) : option pset_error :=
  if is_none (o_amount rv) && is_none (amount_comm rv) then Some MissingOutputValue
  else if is_none (o_asset rv) && is_none (asset_comm rv) then Some MissingOutputAsset
  else if negb (is_none (blinding_key rv)) && is_none (blinder_index rv)
  then Some MissingBlinderIndex
  else if is_marked_for_blinding rv && is_partially_blinded rv && negb (is_fully_blinded rv)
  then Some MissingBlindingInfo
  else None.

Definition decode_Output (bs : bytes) : result (PsetOutput * bytes) codec_error :=
  let? (acc, rest) := decode_map output_step (mkOutputAcc Output_default None) bs in
  let? spk := ok_or (out_spk acc) (PsetErr MissingOutputSpk) in
  let rv := out_rv acc <| o_script_pubkey := spk |> in
  match output_missing rv with
  | Some e => Err (PsetErr e)
  | None => Ok (rv, rest)
  end.

(** *** Outputs that survive the encoding *)

Definition output_known (ty : Z) : bool := (ty <=? 0x07) || (ty =? PSET_PROPRIETARY).
Definition output_prop_known (k : ProprietaryKey) : bool :=
  is_pset_key k && (1 <=? subtype k) && (subtype k <=? 0x0a).

Record output_wf (o : PsetOutput) : Prop :=
  { ow_bip32_derivation : map_Forall (fun _ s => key_source_wf s) (o_bip32_derivation o);
    ow_tap_tree : match tap_tree_ o with
                  | Some b => exists t, is_tree b t /\ tap_tree_wf t
                  | None => True
                  end;
    ow_tap_key_origins :
      map_Forall (fun _ o => leaf_hashes_wf o.1 /\ key_source_wf o.2) (o_tap_key_origins o);
    ow_amount : opt_wf sd_u64 (o_amount o);
    ow_asset : opt_wf sd_array32 (o_asset o);
    ow_blinder_index : opt_wf sd_u32 (blinder_index o);
    ow_proprietary : map_Forall (fun k _ => prop_wf k /\ output_prop_known k = false) (o_proprietary o);
    ow_unknown : map_Forall (fun k _ => is_u8 (type_value k) /\ output_known (type_value k) = false) (o_unknown o);
    ow_check : output_missing o = None;
    ow_fits : Forall pair_wf (output_get_pairs o) }.

(** [PartialEq] of outputs: script trees are compared by their root hash. *)
Definition output_eq (o o' : PsetOutput) : Prop :=
  o' = o <| tap_tree_ := tap_tree_ o' |> /\
  match tap_tree_ o, tap_tree_ o' with
  | Some b, Some b' => tap_hash b = tap_hash b'
  | None, None => True
  | _, _ => False
  end.

Lemma output_step_lift acc ps :
  Forall (fun p => type_value (p_key p) <> PSET_OUT_SCRIPT) ps ->
  insert_all output_step acc ps =
  (let? rv := insert_all output_insert_pair (out_rv acc) ps in
   Ok (mkOutputAcc rv (out_spk acc))).
Proof.
  intros Hps. revert acc. induction Hps as [|p ps Hp _ IH]; intros acc; cbn [insert_all].
  { by destruct acc. }
  unfold output_step at 1. destruct (Z.eqb_spec (type_value (p_key p)) PSET_OUT_SCRIPT); [done|].
  destruct (output_insert_pair (out_rv acc) p); cbn [rbind]; [by rewrite IH|done].
Qed.

Lemma output_prop_step k v rv : prop_wf k -> is_pset_key k = true ->
  output_insert_pair rv (mkPair (prop_to_key k) v) = output_insert_pset k (prop_to_key k) v rv.
Proof.
  intros Hk Hp. unfold output_insert_pair. cbn [p_key p_value].
  change (type_value (prop_to_key k)) with PSET_PROPRIETARY. rewrite prop_from_to_key by done.
  cbn -[output_insert_pset]. by rewrite Hp.
Qed.

Lemma output_proprietary_step k v rv : prop_wf k -> output_prop_known k = false ->
  output_insert_pair rv (mkPair (prop_to_key k) v) = insert_entry o_proprietary k (prop_to_key k) v rv.
Proof.
  intros Hk Hn. unfold output_insert_pair. cbn [p_key p_value].
  change (type_value (prop_to_key k)) with PSET_PROPRIETARY. rewrite prop_from_to_key by done.
  cbn -[output_insert_pset insert_entry]. destruct (is_pset_key k) eqn:Ep; [|done].
  unfold output_prop_known in Hn. rewrite Ep in Hn.
  unfold output_insert_pset. cbv zeta.
  repeat match goal with
  | |- context [subtype k =? ?c] => destruct (Z.eqb_spec (subtype k) c) as [Ec|_];
      [rewrite Ec in Hn; by cbv in Hn|]
  end. done.
Qed.

Lemma output_unknown_step k v rv : is_u8 (type_value k) -> output_known (type_value k) = false ->
  output_insert_pair rv (mkPair k v) = insert_entry o_unknown k k v rv.
Proof.
  intros Hu Hn. unfold output_insert_pair. cbn [p_key p_value]. cbv zeta.
  repeat match goal with
  | |- context [type_value k =? ?c] => destruct (Z.eqb_spec (type_value k) c) as [Ec|_];
      [rewrite Ec in Hn; by cbv in Hn|]
  end. done.
Qed.

Ltac opt_seg f := rewrite (opt_segment_same output_insert_pair f); [|reflexivity|reflexivity|].
Ltac map_seg f := rewrite (keyed_segment output_insert_pair f); [|reflexivity|reflexivity|].
Ltac prop_seg f :=
  rewrite (prop_segment_same output_insert_pair f);
    [|done|intros v; rewrite output_prop_step; [reflexivity|by apply pset_pair_wf|reflexivity]
     |reflexivity|].

Lemma output_fields_read o tree : output_wf o -> reads sd_tap_tree (tap_tree_ o) tree ->
  insert_all output_insert_pair Output_default (output_pairs_before o ++ output_pairs_after o) =
  Ok (o <| tap_tree_ := tree |> <| o_script_pubkey := [] |>).
Proof.
  intros W Htree. unfold output_pairs_before, output_pairs_after. rewrite <-!app_assoc.
  opt_seg o_redeem_script; [|by apply opt_wf_trivial].
  opt_seg o_witness_script; [|by apply opt_wf_trivial].
  map_seg o_bip32_derivation; [|apply pubkey_map_wf, (ow_bip32_derivation o W)].
  opt_seg o_tap_internal_key; [|by apply opt_wf_trivial].
  rewrite (opt_segment output_insert_pair tap_tree_ sd_tap_tree _ _ tree); [|reflexivity|reflexivity|done].
  map_seg o_tap_key_origins; [|apply xonly_map_wf, (ow_tap_key_origins o W)].
  opt_seg o_amount; [|by apply ow_amount].
  prop_seg amount_comm; [|by apply opt_wf_trivial].
  prop_seg o_asset; [|by apply ow_asset].
  prop_seg asset_comm; [|by apply opt_wf_trivial].
  prop_seg value_rangeproof; [|by apply opt_wf_trivial].
  prop_seg asset_surjection_proof; [|by apply opt_wf_trivial].
  prop_seg blinding_key; [|by apply opt_wf_trivial].
  prop_seg ecdh_pubkey; [|by apply opt_wf_trivial].
  prop_seg blinder_index; [|by apply ow_blinder_index].
  prop_seg o_blind_value_proof; [|by apply opt_wf_trivial].
  prop_seg o_blind_asset_proof; [|by apply opt_wf_trivial].
  rewrite (proprietary_segment output_insert_pair o_proprietary); [| |reflexivity].
  2: { intros k v rv [x Hx]. apply output_proprietary_step; apply (ow_proprietary o W k x Hx). }
  rewrite <-(app_nil_r (push_unknown _)).
  rewrite (unknown_segment output_insert_pair o_unknown); [| |reflexivity].
  2: { intros k v rv [x Hx]. apply output_unknown_step; apply (ow_unknown o W k x Hx). }
  destruct o. reflexivity.
Qed.

Lemma output_types o : output_wf o ->
  Forall (fun p => type_value (p_key p) <> PSET_OUT_SCRIPT) (output_pairs_before o ++ output_pairs_after o).
Proof.
  intros W. set (Q := fun t => t <> PSET_OUT_SCRIPT).
  unfold output_pairs_before, output_pairs_after. rewrite <-!app_assoc.
  repeat apply Forall_app_2;
    first [apply (push_opt_types Q); done | apply (push_map_types Q); done
          |apply (push_prop_types Q); done | apply (push_proprietary_types Q); done
          |apply (push_unknown_types Q)].
  intros k v Hk Ht. destruct (ow_unknown o W k v Hk) as [_ Hn]. rewrite Ht in Hn. by cbv in Hn.
Qed.

Lemma output_script_step (rv : PsetOutput) (s : Script) :
  insert_all output_step (mkOutputAcc rv None) [mkPair (mkKey PSET_OUT_SCRIPT []) (ser sd_raw s)] =
  Ok (mkOutputAcc rv (Some s)).
Proof. reflexivity. Qed.

Lemma tree_reads o : output_wf o -> exists tree, reads sd_tap_tree (tap_tree_ o) tree /\
  output_eq o (o <| tap_tree_ := tree |>).
Proof.
  intros W. pose proof (ow_tap_tree o W) as Ht. destruct (tap_tree_ o) as [b|] eqn:Eb.
  - destruct Ht as (t & Hb & Hw). destruct (tap_tree_read_back b t Hb Hw) as (b' & Hde & _ & Hh).
    exists (Some b'). split; [done|]. split; [by destruct o|]. rewrite Eb. by destruct o.
  - exists None. split; [done|]. split; [by destruct o|]. rewrite Eb. by destruct o.
Qed.

Lemma decode_Output_ok o rest : output_wf o ->
  exists o', decode_Output (encode_Output o ++ rest) = Ok (o', rest) /\ output_eq o o'.
Proof.
  intros W. destruct (tree_reads o W) as (tree & Htree & Heq). exists (o <| tap_tree_ := tree |>).
  split; [|done]. unfold decode_Output, encode_Output.
  pose proof (output_fields_read o tree W Htree) as Hf. rewrite insert_all_app in Hf.
  apply rbind_ok in Hf as (rv & Hb & Ha).
  pose proof (output_types o W) as [Tb Ta]%Forall_app.
  rewrite (decode_map_ok output_step _
    (mkOutputAcc (o <| tap_tree_ := tree |> <| o_script_pubkey := [] |>) (Some (o_script_pubkey o))));
    [|apply W|].
  - cbn [rbind ok_or out_spk out_rv].
    change (output_missing (o <| tap_tree_ := tree |> <| o_script_pubkey := [] |>
                              <| o_script_pubkey := o_script_pubkey o |>)) with (output_missing o).
    rewrite (ow_check o W). by destruct o.
  - unfold output_get_pairs. rewrite insert_all_app, output_step_lift by done. cbn [out_rv].
    rewrite Hb. cbn [rbind out_spk]. rewrite insert_all_app, output_script_step. cbn [rbind].
    rewrite output_step_lift by done. cbn [out_rv out_spk]. by rewrite Ha.
Qed.
End output.

(** ** The global map *)

Definition PSET_GLOBAL_UNSIGNED_TX : Z := 0x00.
Definition PSET_GLOBAL_XPUB : Z := 0x01.
Definition PSET_GLOBAL_TX_VERSION : Z := 0x02.
Definition PSET_GLOBAL_FALLBACK_LOCKTIME : Z := 0x03.
Definition PSET_GLOBAL_INPUT_COUNT : Z := 0x04.
Definition PSET_GLOBAL_OUTPUT_COUNT : Z := 0x05.
Definition PSET_GLOBAL_TX_MODIFIABLE : Z := 0x06.
Definition PSET_GLOBAL_VERSION : Z := 0xFB.
Definition PSBT_ELEMENTS_GLOBAL_SCALAR : Z := 0x00.
Definition PSBT_ELEMENTS_GLOBAL_TX_MODIFIABLE : Z := 0x01.

(** The local variables of the decoder. *)
Record GlobalAcc `{PsetEnv} := mkGlobalAcc
  { ga_version : option Z;
    ga_unknowns : gmap raw_key bytes;
    ga_xpub_map : gmap Xpub KeySource;
    ga_proprietary : gmap ProprietaryKey bytes;
    ga_scalars : list Tweak;
    ga_tx_version : option Z;
    ga_input_count : option Z;
    ga_output_count : option Z;
    ga_fallback_locktime : option LockTime;
    ga_tx_modifiable : option Z;
    ga_elements_flag : option Z }.

Definition eta_global `{PsetEnv} (a : GlobalAcc) : GlobalAcc :=
  mkGlobalAcc _ _ (ga_version a) (ga_unknowns a) (ga_xpub_map a) (ga_proprietary a) (ga_scalars a)
    (ga_tx_version a) (ga_input_count a) (ga_output_count a) (ga_fallback_locktime a)
    (ga_tx_modifiable a) (ga_elements_flag a).

Ltac solve_global_setter :=
  lazymatch goal with
  | |- @Setter GlobalAcc _ ?f =>
      let v := fresh "v" in let r := fresh "r" in
      intros v r;
      let e := eval cbv beta delta [eta_global] in (eta_global r) in
      lazymatch eval pattern (f r) in e with
      | ?g _ => exact (g v)
      end
  end.
#[export] Hint Extern 0 (Setter _) => solve_global_setter : typeclass_instances.

Section global.
Context {P : Platform} {S : Secp} {H : Hashes} {T : TapEnv} {C : SchnorrEnv} {E : PsetEnv}
  {X : PsetCodecEnv}.

Definition push_mandatory {A} (type_value : Z) (sd : serde A) (v : A) : list Pair :=
  [mkPair (mkKey type_value []) (ser sd v)].

Definition push_xpubs (m : gmap Xpub KeySource) : list Pair :=
  map (fun '(x, s) => mkPair (mkKey PSET_GLOBAL_XPUB (ext_ser x)) (ser_key_source s)) (btree_iter xpub_cmp m).

Definition push_scalars (l : list Tweak) : list Pair :=
  map (fun t => mkPair (prop_to_key (from_pset_pair PSBT_ELEMENTS_GLOBAL_SCALAR (ext_ser t))) []) l.

Definition global_get_pairs (g : Global) : list Pair :=
  let d := tx_data g in
  push_mandatory PSET_GLOBAL_TX_VERSION sd_u32 (tx_version d) ++
  push_opt PSET_GLOBAL_FALLBACK_LOCKTIME sd_locktime (fallback_locktime d) ++
  push_mandatory PSET_GLOBAL_INPUT_COUNT sd_varint (Z.of_nat (input_count d)) ++
  push_mandatory PSET_GLOBAL_OUTPUT_COUNT sd_varint (Z.of_nat (output_count d)) ++
  push_opt PSET_GLOBAL_TX_MODIFIABLE sd_u8 (tx_modifiable d) ++
  push_xpubs (xpub g) ++
  push_mandatory PSET_GLOBAL_VERSION sd_u32 (pset_version g) ++
  push_scalars (scalars g) ++
  push_prop PSBT_ELEMENTS_GLOBAL_TX_MODIFIABLE sd_u8 (elements_tx_modifiable_flag g) ++
  push_proprietary (g_proprietary g) ++
  push_unknown (g_unknown g).

Definition encode_Global (g : Global) : bytes := encode_pairs (global_get_pairs g).

(** [while let Ok(index) = u32::consensus_decode(..)]. *)
Fixpoint read_path (fuel : nat) (bs : bytes) : list Z :=
  match fuel with
  | O => []
  | Datatypes.S fuel =>
      match read_u32 bs with
      | Ok (index, bs) => index :: read_path fuel bs
      | Err _ => []
      end
  end.

Definition global_xpub (raw : raw_key) (value : bytes) (acc : GlobalAcc) : result GlobalAcc codec_error :=
  if negb (is_empty (key_data raw)) then
    let? x := ok_or (ext_parse (key_data raw))
                (EncodeErr (ParseFailed "Can't deserialize Xpub from global XPUB key data")) in
    if is_empty value || negb (length value mod 4 =? 0)%nat
    then Err (EncodeErr (ParseFailed "Incorrect length of global xpub derivation data"))
    else
      let? (fingerprint, rest) := lift_enc (read_exact 4 value) in
      let source := (fingerprint, read_path (length rest) rest) in
      match ga_xpub_map acc !! x with
      | None => Ok (acc <| ga_xpub_map := <[x := source]> (ga_xpub_map acc) |>)
      | Some _ => Err (EncodeErr (ParseFailed "Repeated global xpub key"))
      end
  else Err (EncodeErr (ParseFailed "Xpub global key must contain serialized Xpub data")).

Definition global_prop (raw : raw_key) (value : bytes) (acc : GlobalAcc) : result GlobalAcc codec_error :=
  let? k := lift_pset (prop_from_key raw) in
  if is_pset_key k && (subtype k =? PSBT_ELEMENTS_GLOBAL_SCALAR) then
    if is_empty value && (length (prop_key k) =? 32)%nat then
      let? scalar := ok_or (ext_parse (prop_key k)) (EncodeErr Secp256k1zkp) in
      if bool_decide (scalar ∈ ga_scalars acc) then Err (PsetErr (DuplicateKey raw))
      else Ok (acc <| ga_scalars := ga_scalars acc ++ [scalar] |>)
    else Err (PsetErr (InvalidKey raw))
  else if is_pset_key k && (subtype k =? PSBT_ELEMENTS_GLOBAL_TX_MODIFIABLE) then
    match value with
    | [flag] => if is_empty (prop_key k) then Ok (acc <| ga_elements_flag := Some (b2z flag) |>)
                else Err (PsetErr (InvalidKey raw))
    | _ => Err (PsetErr (InvalidKey raw))
    end
  else insert_entry ga_proprietary k raw value acc.

Definition global_step (acc : GlobalAcc) (kv : Pair) : result GlobalAcc codec_error :=
  let raw := p_key kv in
  let value := p_value kv in
  let ty := type_value raw in
  if ty =? PSET_GLOBAL_TX_VERSION then insert_unkeyed ga_tx_version sd_u32 raw value acc else
  if ty =? PSET_GLOBAL_FALLBACK_LOCKTIME then insert_unkeyed ga_fallback_locktime sd_locktime raw value acc else
  if ty =? PSET_GLOBAL_INPUT_COUNT then insert_unkeyed ga_input_count sd_varint raw value acc else
  if ty =? PSET_GLOBAL_OUTPUT_COUNT then insert_unkeyed ga_output_count sd_varint raw value acc else
  if ty =? PSET_GLOBAL_TX_MODIFIABLE then insert_unkeyed ga_tx_modifiable sd_u8 raw value acc else
  if ty =? PSET_GLOBAL_XPUB then global_xpub raw value acc else
  if ty =? PSET_GLOBAL_VERSION then insert_unkeyed ga_version sd_u32 raw value acc else
  if ty =? PSET_PROPRIETARY then global_prop raw value acc
  else insert_entry ga_unknowns raw raw value acc.

Definition GlobalAcc_new : GlobalAcc :=
  mkGlobalAcc _ _ None ∅ ∅ ∅ [] None None None None None None.

Definition decode_Global (bs : bytes) : result (Global * bytes) codec_error :=
  let? (acc, rest) := decode_map global_step GlobalAcc_new bs in
  let? version := ok_or (ga_version acc) (PsetErr IncorrectPsetVersion) in
  if negb (version =? 2) then Err (PsetErr IncorrectPsetVersion)
  else
    let? tx_version := ok_or (ga_tx_version acc) (PsetErr MissingTxVersion) in
    let? input_count := ok_or (ga_input_count acc) (PsetErr MissingInputCount) in
    let? output_count := ok_or (ga_output_count acc) (PsetErr MissingOutputCount) in
    Ok (mkGlobal
          (mkTxData tx_version (ga_fallback_locktime acc) (Z.to_nat input_count)
             (Z.to_nat output_count) (ga_tx_modifiable acc))
          version (ga_xpub_map acc) (ga_scalars acc) (ga_elements_flag acc)
          (ga_proprietary acc) (ga_unknowns acc), rest).

(** *** Global maps that survive the encoding *)

Definition global_known (ty : Z) : bool :=
  (1 <=? ty) && (ty <=? 6) || (ty =? PSET_GLOBAL_VERSION) || (ty =? PSET_PROPRIETARY).
Definition global_prop_known (k : ProprietaryKey) : bool :=
  is_pset_key k && (subtype k <=? 1).

Record global_wf (g : Global) : Prop :=
  { gw_tx_version : is_u32 (tx_version (tx_data g));
    gw_fallback_locktime : opt_wf sd_locktime (fallback_locktime (tx_data g));
    gw_input_count : is_u64 (Z.of_nat (input_count (tx_data g)));
    gw_output_count : is_u64 (Z.of_nat (output_count (tx_data g)));
    gw_tx_modifiable : opt_wf sd_u8 (tx_modifiable (tx_data g));
    gw_xpub : map_Forall (fun _ s => key_source_wf s) (xpub g);
    gw_version : pset_version g = 2;
    gw_scalars : NoDup (scalars g);
    gw_flag : opt_wf sd_u8 (elements_tx_modifiable_flag g);
    gw_proprietary : map_Forall (fun k _ => prop_wf k /\ global_prop_known k = false) (g_proprietary g);
    gw_unknown : map_Forall (fun k _ => is_u8 (type_value k) /\ global_known (type_value k) = false) (g_unknown g);
    gw_fits : Forall pair_wf (global_get_pairs g) }.

Lemma read_path_ok fuel l : Forall (fun n => is_u32 n) l -> (length l <= fuel)%nat ->
  read_path fuel (concat (map emit_u32 l)) = l.
Proof.
  intros Hl. revert fuel. induction Hl as [|n l Hn Hl IH]; intros [|fuel] Hf; try done;
    [simpl in Hf; lia|].
  cbn [map concat read_path]. rewrite (codec_decode u32_codec n) by done.
  by rewrite IH by (simpl in Hf; lia).
Qed.

Lemma global_xpub_ok x s m acc : key_source_wf s -> m !! x = None ->
  global_step (acc <| ga_xpub_map := m |>) (mkPair (mkKey PSET_GLOBAL_XPUB (ext_ser x)) (ser_key_source s)) =
  Ok (acc <| ga_xpub_map := <[x := s]> m |>).
Proof using X T.
  intros [Hf Hp] Hm. destruct s as [f l]. simpl in Hf, Hp.
  change (global_xpub (mkKey PSET_GLOBAL_XPUB (ext_ser x)) (ser_key_source (f, l))
            (acc <| ga_xpub_map := m |>) = Ok (acc <| ga_xpub_map := <[x := (f, l)]> m |>)).
  unfold global_xpub. cbn [key_data].
  assert (is_empty (ext_ser x) = false) as ->
    by (pose proof (xpub_length x); by destruct (ext_ser x)).
  cbn [negb]. rewrite ext_parse_ser. cbn [ok_or rbind]. unfold ser_key_source. cbn [fst snd].
  assert (is_empty (f ++ concat (map emit_u32 l)) = false) as -> by (by destruct f).
  assert ((length (f ++ concat (map emit_u32 l)) mod 4 =? 0)%nat = true) as ->.
  { rewrite length_app, length_path, Hf. apply Nat.eqb_eq.
    replace (4 + 4 * length l)%nat with ((1 + length l) * 4)%nat by lia. apply Nat.Div0.mod_mul. }
  cbn [orb negb]. rewrite read_exact_app by done. cbn [lift_enc rbind].
  rewrite read_path_ok by (rewrite ?length_path; done || lia).
  change (ga_xpub_map (acc <| ga_xpub_map := m |>)) with m. by rewrite Hm.
Qed.

Lemma scalars_read l acc ps : NoDup (ga_scalars acc ++ l) ->
  insert_all global_step acc (push_scalars l ++ ps) =
  insert_all global_step (acc <| ga_scalars := ga_scalars acc ++ l |>) ps.
Proof.
  revert acc. induction l as [|t l IH]; intros acc Hnd; cbn [push_scalars map app].
  { rewrite app_nil_r. by destruct acc. }
  cbn [insert_all].
  assert (global_step acc (mkPair (prop_to_key (from_pset_pair PSBT_ELEMENTS_GLOBAL_SCALAR (ext_ser t))) []) =
          Ok (acc <| ga_scalars := ga_scalars acc ++ [t] |>)) as ->.
  { change (global_prop (prop_to_key (from_pset_pair PSBT_ELEMENTS_GLOBAL_SCALAR (ext_ser t))) [] acc =
            Ok (acc <| ga_scalars := ga_scalars acc ++ [t] |>)).
    unfold global_prop. rewrite prop_from_to_key by by apply pset_pair_wf. cbn [lift_pset rbind].
    change (is_pset_key (from_pset_pair PSBT_ELEMENTS_GLOBAL_SCALAR (ext_ser t))) with true.
    cbn [from_pset_pair prop_key subtype is_empty andb].
    change (PSBT_ELEMENTS_GLOBAL_SCALAR =? PSBT_ELEMENTS_GLOBAL_SCALAR) with true.
    rewrite tweak_format, Nat.eqb_refl, ext_parse_ser. cbn [ok_or rbind].
    rewrite bool_decide_false; [done|]. intros Hin. apply NoDup_app in Hnd as (_ & Hd & _).
    exact (Hd t Hin ltac:(left)). }
  cbn [rbind]. unfold push_scalars in IH. rewrite IH; [by destruct acc; cbn; rewrite <-app_assoc|].
  destruct acc. cbn in *. by rewrite <-app_assoc.
Qed.

Lemma flag_read o acc ps : opt_wf sd_u8 o -> ga_elements_flag acc = None ->
  insert_all global_step acc (push_prop PSBT_ELEMENTS_GLOBAL_TX_MODIFIABLE sd_u8 o ++ ps) =
  insert_all global_step (acc <| ga_elements_flag := o |>) ps.
Proof.
  intros Ho Hn. destruct o as [v|]; cbn [push_prop app insert_all].
  2: { destruct acc. cbn in Hn. by subst. }
  assert (global_step acc (mkPair (prop_to_key (from_pset_pair PSBT_ELEMENTS_GLOBAL_TX_MODIFIABLE [])) (ser sd_u8 v)) =
          Ok (acc <| ga_elements_flag := Some v |>)) as ->; [|done].
  change (global_prop (prop_to_key (from_pset_pair PSBT_ELEMENTS_GLOBAL_TX_MODIFIABLE [])) [z2b v] acc =
          Ok (acc <| ga_elements_flag := Some v |>)).
  unfold global_prop. rewrite prop_from_to_key by by apply pset_pair_wf. cbn [lift_pset rbind].
  change (is_pset_key (from_pset_pair PSBT_ELEMENTS_GLOBAL_TX_MODIFIABLE [])) with true.
  cbn [from_pset_pair prop_key subtype is_empty andb].
  change (PSBT_ELEMENTS_GLOBAL_TX_MODIFIABLE =? PSBT_ELEMENTS_GLOBAL_SCALAR) with false.
  change (PSBT_ELEMENTS_GLOBAL_TX_MODIFIABLE =? PSBT_ELEMENTS_GLOBAL_TX_MODIFIABLE) with true.
  by rewrite b2z_z2b_small.
Qed.

Lemma global_proprietary_step k v acc : prop_wf k -> global_prop_known k = false ->
  global_step acc (mkPair (prop_to_key k) v) = insert_entry ga_proprietary k (prop_to_key k) v acc.
Proof.
  intros Hk Hn. change (global_prop (prop_to_key k) v acc = insert_entry ga_proprietary k (prop_to_key k) v acc).
  unfold global_prop. rewrite prop_from_to_key by done. cbn [lift_pset rbind].
  unfold global_prop_known in Hn. destruct (is_pset_key k); [|done]. cbn [andb] in *.
  apply Z.leb_gt in Hn. unfold PSBT_ELEMENTS_GLOBAL_SCALAR, PSBT_ELEMENTS_GLOBAL_TX_MODIFIABLE.
  destruct (Z.eqb_spec (subtype k) 0), (Z.eqb_spec (subtype k) 1); try lia. done.
Qed.

Lemma global_unknown_step k v acc : global_known (type_value k) = false ->
  global_step acc (mkPair k v) = insert_entry ga_unknowns k k v acc.
Proof.
  intros Hn. unfold global_step. cbn [p_key p_value]. cbv zeta.
  repeat match goal with
  | |- context [type_value k =? ?c] => destruct (Z.eqb_spec (type_value k) c) as [Ec|_];
      [rewrite Ec in Hn; by cbv in Hn|]
  end. done.
Qed.

Ltac opt_seg f := rewrite (opt_segment_same global_step f); [|reflexivity|reflexivity|].
Ltac mandatory_seg f sd T v := change (push_mandatory T sd v) with (push_opt T sd (Some v)); opt_seg f.

Lemma global_fields_read g : global_wf g ->
  insert_all global_step GlobalAcc_new (global_get_pairs g) =
  Ok (mkGlobalAcc _ _ (Some (pset_version g)) (g_unknown g) (xpub g) (g_proprietary g) (scalars g)
        (Some (tx_version (tx_data g))) (Some (Z.of_nat (input_count (tx_data g))))
        (Some (Z.of_nat (output_count (tx_data g)))) (fallback_locktime (tx_data g))
        (tx_modifiable (tx_data g)) (elements_tx_modifiable_flag g)).
Proof using X T.
  intros W. unfold global_get_pairs. cbv zeta.
  mandatory_seg ga_tx_version sd_u32 PSET_GLOBAL_TX_VERSION (tx_version (tx_data g)); [|apply W].
  opt_seg ga_fallback_locktime; [|apply W].
  mandatory_seg ga_input_count sd_varint PSET_GLOBAL_INPUT_COUNT (Z.of_nat (input_count (tx_data g))); [|apply W].
  mandatory_seg ga_output_count sd_varint PSET_GLOBAL_OUTPUT_COUNT (Z.of_nat (output_count (tx_data g))); [|apply W].
  opt_seg ga_tx_modifiable; [|apply W].
  unfold push_xpubs. rewrite (btree_segment global_step ga_xpub_map); [|reflexivity|].
  2: { intros x s m' Hm' Hx. apply global_xpub_ok; [exact (gw_xpub g W x s Hx)|done]. }
  mandatory_seg ga_version sd_u32 PSET_GLOBAL_VERSION (pset_version g); [|rewrite (gw_version g W); done].
  rewrite scalars_read by apply W.
  rewrite flag_read; [|apply W|reflexivity].
  rewrite (proprietary_segment global_step ga_proprietary); [| |reflexivity].
  2: { intros k v acc [x Hx]. apply global_proprietary_step; apply (gw_proprietary g W k x Hx). }
  rewrite <-(app_nil_r (push_unknown _)).
  rewrite (unknown_segment global_step ga_unknowns); [| |reflexivity].
  2: { intros k v acc [x Hx]. apply global_unknown_step; apply (gw_unknown g W k x Hx). }
  reflexivity.
Qed.

Lemma decode_Global_ok g rest : global_wf g -> decode_Global (encode_Global g ++ rest) = Ok (g, rest).
Proof using X T.
  intros W. unfold decode_Global, encode_Global.
  rewrite (decode_map_ok global_step _ _ _ _ (gw_fits g W) (global_fields_read g W)).
  cbn [rbind ga_version ok_or]. rewrite (gw_version g W). change (negb (2 =? 2)) with false.
  cbn [rbind ok_or ga_tx_version ga_input_count ga_output_count ga_fallback_locktime ga_tx_modifiable
       ga_xpub_map ga_scalars ga_elements_flag ga_proprietary ga_unknowns].
  rewrite !Nat2Z.id. pose proof (gw_version g W). destruct g as [[]]. simpl in *. by subst.
Qed.
End global.

(** ** The whole PSET *)

Section pset.
Context {P : Platform} {S : Secp} {H : Hashes} {T : TapEnv} {C : SchnorrEnv} {E : PsetEnv}
  {X : PsetCodecEnv}.

(** The decoder refuses more than 10 000 inputs or outputs. *)
Definition MAX_PSET_LEN : nat := 100 * 100.

Definition encode_Pset (p : PartiallySignedTransaction) : bytes :=
  pset_prefix ++ emit_u8 0xff ++ encode_Global (global p) ++
  concat (map encode_Input (inputs p)) ++ concat (map encode_Output (outputs p)).

Fixpoint decode_times {A} (dec : bytes -> result (A * bytes) codec_error) (n : nat) (bs : bytes)
  : result (list A * bytes) codec_error :=
  match n with
  | O => Ok ([], bs)
  | Datatypes.S n =>
      let? (a, bs) := dec bs in
      let? (l, bs) := decode_times dec n bs in
      Ok (a :: l, bs)
  end.

Definition decode_Pset (bs : bytes) : result (PartiallySignedTransaction * bytes) codec_error :=
  let? (magic, bs) := lift_enc (read_exact 4 bs) in
  if negb (bool_decide (magic = pset_prefix)) then Err (PsetErr InvalidMagic)
  else
    let? (separator, bs) := lift_enc (read_u8 bs) in
    if negb (separator =? 0xff) then Err (PsetErr InvalidSeparator)
    else
      let? (g, bs) := decode_Global bs in
      if (MAX_PSET_LEN <? input_count (tx_data g))%nat then Err (PsetErr TooLargePset)
      else
        let? (ins, bs) := decode_times decode_Input (input_count (tx_data g)) bs in
        if (MAX_PSET_LEN <? output_count (tx_data g))%nat then Err (PsetErr TooLargePset)
        else
          let? (outs, bs) := decode_times decode_Output (output_count (tx_data g)) bs in
          let p := mkPset g ins outs in
          let? _ := lift_pset (sanity_check p) in
          Ok (p, bs).

Record pset_wf (p : PartiallySignedTransaction) : Prop :=
  { pw_global : global_wf (global p);
    pw_inputs : Forall input_wf (inputs p);
    pw_outputs : Forall output_wf (outputs p);
    pw_counts : counts_ok p;
    pw_limits : (length (inputs p) <= MAX_PSET_LEN)%nat /\ (length (outputs p) <= MAX_PSET_LEN)%nat }.

(** [PartialEq] of PSETs. *)
Definition pset_eq (p q : PartiallySignedTransaction) : Prop :=
  global q = global p /\ inputs q = inputs p /\ Forall2 output_eq (outputs p) (outputs q).

Lemma decode_times_ok {A} (enc : A -> bytes) dec (wf : A -> Prop) (R : A -> A -> Prop) l rest :
  (forall a rest, wf a -> exists b, dec (enc a ++ rest) = Ok (b, rest) /\ R a b) ->
  Forall wf l ->
  exists l', decode_times dec (length l) (concat (map enc l) ++ rest) = Ok (l', rest) /\ Forall2 R l l'.
Proof.
  intros Hd Hl. induction Hl as [|a l Ha Hl (l' & IH & Hr)]; [by exists []|].
  destruct (Hd a (concat (map enc l) ++ rest) Ha) as (b & Eb & Hab).
  exists (b :: l'). cbn [map concat length decode_times]. rewrite <-app_assoc, Eb. cbn [rbind].
  rewrite IH. split; [done|by constructor].
Qed.

End pset.

(** C17: a well-formed PSET is read back from its encoding, whatever bytes follow: the
    decoder consumes exactly the encoding and returns a PSET equal to the one written in
    the sense of [PartialEq], every field of the global map and of the inputs included; only
    the script trees of taproot outputs may come back mirrored, with the same root hash. *)
Theorem pset_decode_encode {P : Platform} {S : Secp} {H : Hashes} {T : TapEnv} {C : SchnorrEnv}
    {E : PsetEnv} {X : PsetCodecEnv} (p : PartiallySignedTransaction) (rest : bytes) :
  pset_wf p ->
  exists q, decode_Pset (encode_Pset p ++ rest) = Ok (q, rest) /\ pset_eq p q.
Proof.
  intros [Wg Wi Wo Wc [Li Lo]]. unfold decode_Pset, encode_Pset. rewrite <-!app_assoc.
  rewrite read_exact_app by done. cbn [lift_enc rbind]. rewrite bool_decide_true by done. cbn [negb].
  rewrite (codec_decode u8_codec) by done. cbn [lift_enc rbind]. change (0xff =? 0xff) with true.
  cbn [negb]. rewrite decode_Global_ok by done. cbn [rbind]. pose proof Wc as [Ci Co].
  unfold n_inputs, n_outputs in Ci, Co. rewrite Ci, Co.
  destruct (Nat.ltb_spec MAX_PSET_LEN (length (inputs p))); [lia|].
  destruct (decode_times_ok encode_Input decode_Input input_wf eq (inputs p)
    (concat (map encode_Output (outputs p)) ++ rest)) as (ins & Ei & Hi); [|done|].
  { intros i r Wi'. exists i. by rewrite decode_Input_ok. }
  rewrite Ei. cbn [rbind]. destruct (Nat.ltb_spec MAX_PSET_LEN (length (outputs p))); [lia|].
  destruct (decode_times_ok encode_Output decode_Output output_wf output_eq (outputs p) rest)
    as (outs & Eo & Ho); [intros; by apply decode_Output_ok|done|].
  rewrite Eo. cbn [rbind]. apply list_eq_Forall2 in Hi. subst ins.
  assert (Hc : counts_ok (mkPset (global p) (inputs p) outs)).
  { split; [done|]. simpl. rewrite <-(Forall2_length _ _ _ Ho). done. }
  apply sanity_check_ok in Hc. rewrite Hc. by eexists.
Qed.

(** ** What the decoder guarantees *)

Section decoded.
Context {P : Platform} {S : Secp} {H : Hashes} {M : Midstates} {T : TapEnv} {C : SchnorrEnv}
  {E : PsetEnv} {X : PsetCodecEnv}.

Lemma decode_Global_version bs g rest : decode_Global bs = Ok (g, rest) -> pset_version g = 2.
Proof.
  unfold decode_Global. intros ([acc r] & _ & Hd)%rbind_ok.
  apply rbind_ok in Hd as (v & _ & Hd). destruct (v =? 2) eqn:Ev; [|done]. cbn [negb] in Hd.
  apply rbind_ok in Hd as (? & _ & (? & _ & (? & _ & Hd)%rbind_ok)%rbind_ok).
  injection Hd as <- <-. by apply Z.eqb_eq.
Qed.

Lemma decode_Output_checked bs o rest : decode_Output bs = Ok (o, rest) -> output_missing o = None.
Proof.
  unfold decode_Output. intros ([acc r] & _ & Hd)%rbind_ok.
  apply rbind_ok in Hd as (spk & _ & Hd). cbv zeta in Hd.
  destruct (output_missing _) eqn:Eo; [done|]. by injection Hd as <- <-.
Qed.

Lemma decode_times_all {A} (dec : bytes -> result (A * bytes) codec_error) (Q : A -> Prop) n bs l rest :
  (forall bs a rest, dec bs = Ok (a, rest) -> Q a) ->
  decode_times dec n bs = Ok (l, rest) -> length l = n /\ Forall Q l.
Proof.
  intros HQ. revert bs l. induction n as [|n IH]; intros bs l; cbn [decode_times].
  - intros [= <- <-]. auto.
  - intros ([a bs1] & Ea & ([l1 bs2] & El & [= <- <-])%rbind_ok)%rbind_ok.
    destruct (IH _ _ El) as [<- Hl]. split; [done|]. constructor; [by eapply HQ|done].
Qed.

Lemma decode_Pset_checked bs p rest : decode_Pset bs = Ok (p, rest) ->
  pset_version (global p) = 2 /\ counts_ok p /\
  (length (inputs p) <= MAX_PSET_LEN)%nat /\ (length (outputs p) <= MAX_PSET_LEN)%nat /\
  Forall (fun o => output_missing o = None) (outputs p).
Proof.
  unfold decode_Pset. intros ([m b1] & _ & Hd)%rbind_ok. case_match; [done|].
  apply rbind_ok in Hd as ([sep b2] & _ & Hd). case_match; [done|].
  apply rbind_ok in Hd as ([g b3] & Hg%decode_Global_version & Hd).
  destruct (Nat.ltb_spec MAX_PSET_LEN (input_count (tx_data g))) as [|Li]; [done|].
  apply rbind_ok in Hd as ([ins b4] & Hi & Hd).
  apply (decode_times_all _ (fun _ => True)) in Hi as [Hi _]; [|done].
  destruct (Nat.ltb_spec MAX_PSET_LEN (output_count (tx_data g))) as [|Lo]; [done|].
  apply rbind_ok in Hd as ([outs b5] & Ho & Hd).
  apply (decode_times_all _ (fun o => output_missing o = None)) in Ho as [Ho Hm];
    [|exact decode_Output_checked].
  cbv zeta in Hd. destruct (sanity_check _) as [[]|] eqn:Es; [|done]. apply sanity_check_ok in Es.
  injection Hd as <- <-. simpl. rewrite <-Hi, <-Ho in *. done.
Qed.

Lemma extract_output_ok o : output_missing o = None -> exists t, extract_output o = Ok t.
Proof.
  unfold output_missing, extract_output. destruct (is_none (o_amount o) && is_none (amount_comm o)) eqn:Ea; [done|].
  destruct (is_none (o_asset o) && is_none (asset_comm o)) eqn:Eb; [done|]. intros _.
  destruct (o_amount o), (amount_comm o), (o_asset o), (asset_comm o); try done; simpl; eauto.
Qed.

Lemma extract_outputs_ok l : Forall (fun o => output_missing o = None) l ->
  exists ts, rmapM extract_output l = Ok ts.
Proof.
  induction 1 as [|o l Ho Hl [ts IH]]; [by exists []|].
  destruct (extract_output_ok o Ho) as [t Et]. exists (t :: ts). simpl. by rewrite Et, IH.
Qed.
End decoded.

(** C37: every PSET the decoder accepts has version 2, counts that match its lists, at most
    10 000 inputs and outputs, and can be turned into a transaction unless the lock time
    requirements of its inputs conflict: extraction fails with that error or not at all. *)
Theorem decoded_pset_extracts {P : Platform} {S : Secp} {H : Hashes} {M : Midstates} {T : TapEnv}
    {C : SchnorrEnv} {E : PsetEnv} {X : PsetCodecEnv}
    (bs : bytes) (p : PartiallySignedTransaction) (rest : bytes) :
  decode_Pset bs = Ok (p, rest) ->
  pset_version (global p) = 2 /\ sanity_check p = Ok () /\
  (length (inputs p) <= MAX_PSET_LEN)%nat /\ (length (outputs p) <= MAX_PSET_LEN)%nat /\
  match locktime p with
  | Ok l => exists tx, extract_tx p = Ok tx /\ lock_time tx = l /\
              length (input tx) = length (inputs p) /\ length (output tx) = length (outputs p)
  | Err e => e = LocktimeConflict /\ extract_tx p = Err LocktimeConflict
  end.
Proof.
  intros (Hv & Hc & Hi & Ho & Hm)%decode_Pset_checked. apply sanity_check_ok in Hc.
  split_and!; [done..|]. unfold extract_tx. rewrite Hc. cbn [rbind].
  destruct (locktime p) as [l|e] eqn:El; cbn [rbind]; [|apply locktime_conflict in El as ->; done].
  destruct (extract_outputs_ok (outputs p) Hm) as [ts Ets]. rewrite Ets. cbn [rbind].
  eexists. split_and!; [done..| |]; simpl; [apply length_map|].
  symmetry. by eapply Forall2_length, rmapM_ok.
Qed.

(** ** A concrete instance *)

Import PsetSample.

Module PsetCodecSample.

Definition pk_ser (k : BtcPublicKey) : bytes :=
  if pk_compressed k then ext_ser (pk_inner k) else Byte.x04 :: ext_ser (pk_inner k).
Definition pk_parse (bs : bytes) : option BtcPublicKey :=
  if (length bs =? 33)%nat then k ← ext_parse bs; Some (mkBtcPk k true)
  else match bs with
       | Byte.x04 :: bs => k ← ext_parse bs; Some (mkBtcPk k false)
       | _ => None
       end.
Program Definition PsetCodecEnv_model : PsetCodecEnv :=
  {| btc_pk_ser := pk_ser;
     btc_pk_parse := pk_parse;
     pk_cmp := cmp_by pk_ser bytes_cmp;
     xonly_cmp := cmp_by ext_ser bytes_cmp;
     ripemd160 l := take 20 (sha256 l);
     pset_hash160 l := take 20 (sha256 (sha256 l)) |}.
Next Obligation.
  intros [k []]; unfold pk_ser, pk_parse; cbn [pk_compressed pk_inner length];
    destruct (pubkey_format k) as [Hl _]; rewrite Hl; cbn [Nat.eqb]; by rewrite ext_parse_ser.
Qed.
Next Obligation.
  intros [k c]. destruct (pubkey_format k) as [Hl _]. unfold pk_ser. cbn [pk_compressed pk_inner].
  destruct c; [|done]. intros Hn. rewrite Hn in Hl. done.
Qed.
Next Obligation. intros [l Hl]. simpl. by apply Nat.eqb_eq. Qed.
#[export] Existing Instance PsetCodecEnv_model.

(** A PSET with a signature, a preimage, an unknown and a proprietary pair, an extended key
    path and an output with a tree of three scripts. *)
Definition tree : tap_tree :=
  Fork (Tip (ItemLeaf [Byte.x51] 0xc4)) (Fork (Tip (ItemLeaf [Byte.x52] 0xc4)) (Tip (ItemLeaf [] 0xc2))).
Definition tree_builder : list (option NodeInfo) :=
  match tree_node tree with Ok n => [Some n] | Err _ => [] end.
Definition preimage : bytes := [Byte.x07; Byte.x08].
Definition rich_input : PsetInput :=
  from_prevout (point 9 3) <| sha256_preimages := {[sha256 preimage := preimage]} |>
    <| final_script_sig := Some [Byte.x51] |> <| i_sequence := Some (mkSequence 5) |>
    <| required_height_locktime := Some (mkHeight 12) |>
    <| issuance_value_amount := Some 77 |>
    <| i_unknown := {[mkKey 0x60 [Byte.x01] := [Byte.x02]]} |>
    <| i_proprietary := {[mkPropKey (str "x") 1 [] := [Byte.x03]]} |>.
Definition rich : PartiallySignedTransaction :=
  add_output (out 7 <| tap_tree_ := Some tree_builder |>)
    (add_input rich_input (add_input (from_prevout (point 1 0)) new_v2)).
End PsetCodecSample.
Import PsetCodecSample.

Definition pair_fits (p : Pair) : bool :=
  (0 <=? type_value (p_key p)) && (type_value (p_key p) <? 256) &&
  (length (key_data (p_key p)) <? 1000)%nat && (length (p_value p) <? 1000)%nat.

Lemma pairs_fit l : forallb pair_fits l = true -> Forall pair_wf l.
Proof.
  rewrite forallb_forall, Forall_forall. intros Hl p Hp%list_elem_of_In. specialize (Hl p Hp).
  unfold pair_fits in Hl. rewrite !andb_true_iff, Z.leb_le, Z.ltb_lt, !Nat.ltb_lt in Hl.
  unfold pair_wf, fits, u64_max. simpl. lia.
Qed.

Ltac solve_wf :=
  lazymatch goal with |- Forall pair_wf _ => apply pairs_fit; vm_compute; reflexivity | _ => idtac end;
  first [done | apply map_Forall_empty | by apply NoDup_nil
        | by apply map_Forall_singleton; vm_compute; repeat split
        | vm_compute; repeat constructor; done].

Lemma plain_input_wf n v : is_u32 v -> Forall pair_wf (input_get_pairs (from_prevout (point n v))) ->
  input_wf (from_prevout (point n v)).
Proof. intros Hv Hf. constructor; solve_wf. Qed.

Lemma rich_wf : pset_wf rich.
Proof.
  constructor.
  - constructor; solve_wf.
  - change (inputs rich) with [from_prevout (point 1 0); rich_input].
    constructor; [apply (plain_input_wf 1 0); [done|solve_wf]|]. constructor; [|constructor].
    constructor; solve_wf.
  - change (outputs rich) with [out 7 <| tap_tree_ := Some tree_builder |>].
    constructor; [|constructor]. constructor; [solve_wf| |solve_wf..].
    exists tree. split; [eexists; split; [reflexivity|reflexivity]|]. split; [vm_compute; lia|].
    repeat constructor; done.
  - done.
  - vm_compute. lia.
Qed.

Lemma pset_decode_encode_witness :
  exists q, decode_Pset (encode_Pset rich ++ [Byte.x2a]) = Ok (q, [Byte.x2a]) /\ pset_eq rich q.
Proof. exact (pset_decode_encode rich [Byte.x2a] rich_wf). Defined.

Lemma decoded_pset_extracts_witness :
  exists p rest, decode_Pset (encode_Pset rich) = Ok (p, rest) /\
    sanity_check p = Ok () /\ exists tx, extract_tx p = Ok tx /\ lock_time tx = Blocks (mkHeight 12).
Proof.
  destruct (decode_Pset (encode_Pset rich)) as [[p rest]|e] eqn:Ed.
  2: { apply (f_equal is_ok) in Ed. vm_compute in Ed. done. }
  exists p, rest. destruct (decoded_pset_extracts _ _ _ Ed) as (_ & Hs & _ & _ & Hl).
  split; [reflexivity|]. split; [exact Hs|].
  assert (Ht : locktime p = Ok (Blocks (mkHeight 12))).
  { apply (f_equal (fun r => match r with Ok (q, _) => locktime q | Err _ => Err PsetPanic end)) in Ed.
    rewrite <-Ed. vm_compute. done. }
  rewrite Ht in Hl. destruct Hl as (tx & Etx & El & _). exists tx. exact (conj Etx El).
Defined.

(** ** Departures from the format *)

(** Keys of a map must be unique, which every other field enforces: a second
    [elements_tx_modifiable_flag] silently replaces the first. *)
Example duplicate_flag_accepted :
  let flag v := mkPair (prop_to_key (from_pset_pair PSBT_ELEMENTS_GLOBAL_TX_MODIFIABLE [])) [v] in
  ga_elements_flag <$> ok_opt (insert_all global_step GlobalAcc_new [flag Byte.x01; flag Byte.x02]) =
  Some (Some 2).
Proof. vm_compute. reflexivity. Qed.

(** A complete builder with a hidden node is a [TapTree]; its encoding lists the known leaves
    only and is not read back. *)
Example hidden_tree_unreadable :
  exists b, inserts [] (dfs (Fork (Tip (ItemLeaf [Byte.x51] 0xc4)) (Tip (ItemHidden (hash Byte.x44)))) 0) = Ok b /\
    is_complete b = true /\
    de_tap_tree (ser_tap_tree b) = Err (EncodeErr (ParseFailed "Incomplete taproot Tree")).
Proof. eexists. split; [vm_compute; reflexivity|]. split; vm_compute; reflexivity. Qed.

(** [Output::new_explicit] with a blinding key sets no blinder index: no bytes are read as
    what it builds, its own encoding included. *)
Lemma explicit_blinded_unreadable script amount asset k bs rest :
  decode_Output bs <> Ok (new_explicit script amount asset (Some k), rest).
Proof. by intros Hd%decode_Output_checked. Qed.
