(* ===== verification/Store.v ===== *)
(** * Key-value stores

    [lwk_common/src/store.rs] and [lwk_common/src/encrypt.rs]: the [Store] trait as a
    record of operations on a world (the memory, the directory, the random generator
    behind [&self]), its implementations [MemoryStore], [FakeStore], [FileStore] and
    [EncryptedStore], and the contract a store fulfils, [store_laws]: on the keys it
    accepts it is a map.  The contract of [EncryptedStore] is proved from the contract
    of the store it wraps.

    A key is the list of its bytes.  The directory of a [FileStore] is a map from file
    names to contents: what [fs::read], [fs::remove_file] and a rename do when the
    operating system reports no failure.  AES-256-GCM-SIV ([Aead]) and the random
    generator ([Rng]) are parameters. *)

From S2P Require Import Prelude Encode Hex Sighash.

(** ** Errors *)

Inductive encrypt_error : Type :=
| MissingNonce
| AeadError.

(** [io::Error] of kind [InvalidInput], the UTF-8 error of [ArcDynStoreError] and
    [EncryptedStoreError]. *)
Inductive store_error : Type :=
| InvalidInput (msg : string)
| NotUtf8
| Store_ (e : store_error)
| Encrypt (e : encrypt_error).

(** ** The trait *)

(** [Store] and [DynStore]; [put] and [remove] return the world they leave, which on
    an error is not always the world they found. *)
Record Store (W : Type) := mkStore
  { get : bytes -> W -> result (option bytes) store_error;
    put : bytes -> bytes -> W -> result unit store_error * W;
    remove : bytes -> W -> result unit store_error * W;
    is_persisted : bool }.
Arguments mkStore {W} _ _ _ _.
Arguments get {W} _ _ _.
Arguments put {W} _ _ _ _.
Arguments remove {W} _ _ _.
Arguments is_persisted {W} _.

(** A store that lives in one part of a larger world. *)
Definition on_fst {W V} (st : Store W) : Store (W * V) :=
  mkStore (fun k '(w, _) => get st k w)
    (fun k v '(w, x) => let '(r, w) := put st k v w in (r, (w, x)))
    (fun k '(w, x) => let '(r, w) := remove st k w in (r, (w, x)))
    (is_persisted st).

Definition on_snd {W V} (st : Store W) : Store (V * W) :=
  mkStore (fun k '(_, w) => get st k w)
    (fun k v '(x, w) => let '(r, w) := put st k v w in (r, (x, w)))
    (fun k '(x, w) => let '(r, w) := remove st k w in (r, (x, w)))
    (is_persisted st).

(** [std::str::from_utf8], as a test: the well-formed byte sequences of the Unicode
    standard, table 3-7. *)
Definition within (lo hi : Z) (b : byte) : bool := (lo <=? b2z b) && (b2z b <=? hi).
Definition cont (b : byte) : bool := within 0x80 0xBF b.

Fixpoint utf8_valid (l : bytes) : bool :=
  match l with
  | [] => true
  | a :: l1 =>
      if within 0x00 0x7F a then utf8_valid l1
      else match l1 with
      | [] => false
      | b :: l2 =>
          if within 0xC2 0xDF a then cont b && utf8_valid l2
          else match l2 with
          | [] => false
          | c :: l3 =>
              if within 0xE0 0xE0 a then within 0xA0 0xBF b && cont c && utf8_valid l3
              else if within 0xE1 0xEC a || within 0xEE 0xEF a then cont b && cont c && utf8_valid l3
              else if within 0xED 0xED a then within 0x80 0x9F b && cont c && utf8_valid l3
              else match l3 with
              | [] => false
              | d :: l4 =>
                  if within 0xF0 0xF0 a then within 0x90 0xBF b && cont c && cont d && utf8_valid l4
                  else if within 0xF1 0xF3 a then cont b && cont c && cont d && utf8_valid l4
                  else if within 0xF4 0xF4 a then within 0x80 0x8F b && cont c && cont d && utf8_valid l4
                  else false
              end
          end
      end
  end.

(** [Store for Arc<dyn DynStore>]: the key must be text. *)
Definition arc_dyn {W} (st : Store W) : Store W :=
  mkStore
    (fun k w => if utf8_valid k then get st k w else Err NotUtf8)
    (fun k v w => if utf8_valid k then put st k v w else (Err NotUtf8, w))
    (fun k w => if utf8_valid k then remove st k w else (Err NotUtf8, w))
    (is_persisted st).

(** ** Implementations *)

Definition memory_store : Store (gmap bytes bytes) :=
  mkStore (fun k m => Ok (m !! k))
    (fun k v m => (Ok tt, <[k := v]> m))
    (fun k m => (Ok tt, delete k m))
    false.

Definition fake_store {W} (persisted : bool) : Store W :=
  mkStore (fun _ _ => Ok None) (fun _ _ w => (Ok tt, w)) (fun _ w => (Ok tt, w)) persisted.

Definition contains (name : bytes) (c : string) : bool :=
  existsb (fun b => bool_decide ([b] = str c)) name.

(** [FileStore::file_path]: the file name within the root directory. *)
Definition file_path (key : bytes) : result bytes store_error :=
  if negb (utf8_valid key) then Err (InvalidInput "store key is not valid UTF-8")
  else if (length key =? 0)%nat then Err (InvalidInput "store key is empty")
  else if (255 <? length key)%nat
  then Err (InvalidInput "store key exceeds maximum file name length (255 bytes)")
  else if bool_decide (key = str ".") || bool_decide (key = str "..") ||
          contains key "/" || contains key "\" || existsb (fun b => bool_decide (b = Byte.x00)) key ||
          contains key ":" || contains key "*" || contains key "?" || contains key "<" ||
          contains key ">" || contains key "|"
  then Err (InvalidInput "store key contains invalid file name characters")
  else Ok key.

Definition file_get (k : bytes) (dir : gmap bytes bytes) : result (option bytes) store_error :=
  let? path := file_path k in Ok (dir !! path).

Definition file_put (k v : bytes) (dir : gmap bytes bytes)
  : result unit store_error * gmap bytes bytes :=
  match file_path k with
  | Err e => (Err e, dir)
  | Ok path => (Ok tt, <[path := v]> dir)
  end.

Definition file_remove (k : bytes) (dir : gmap bytes bytes)
  : result unit store_error * gmap bytes bytes :=
  match file_path k with
  | Err e => (Err e, dir)
  | Ok path => (Ok tt, delete path dir)
  end.

Definition file_store : Store (gmap bytes bytes) := mkStore file_get file_put file_remove true.

(** ** Encryption *)

(** AES-256-GCM-SIV with empty associated data: sealing fails only on payloads beyond
    the documented limit, appends a 16-byte tag, and opening undoes it. *)
Class Aead :=
  { aead_seal : bytes -> bytes -> bytes -> option bytes;
    aead_open : bytes -> bytes -> bytes -> option bytes;
    aead_max : Z;
    aead_max_large : 2 ^ 32 <= aead_max;
    aead_seal_total key nonce pt : zlen pt <= aead_max -> is_Some (aead_seal key nonce pt);
    aead_length key nonce pt ct :
      aead_seal key nonce pt = Some ct -> length ct = (length pt + 16)%nat;
    aead_open_seal key nonce pt ct :
      aead_seal key nonce pt = Some ct -> aead_open key nonce ct = Some pt }.

(** [thread_rng().fill] of a 12-byte array. *)
Class Rng :=
  { rng_state : Type;
    draw : rng_state -> bytes * rng_state;
    draw_length r : length (draw r).1 = 12%nat }.

Section Encrypt.
Context {H : Hashes} {A : Aead} {G : Rng}.

Definition NONCE_LEN : nat := 12.

Definition encrypt_with_nonce (cipher plaintext nonce_bytes : bytes) : result bytes encrypt_error :=
  let? buffer := ok_or (aead_seal cipher nonce_bytes plaintext) AeadError in
  Ok (nonce_bytes ++ buffer).

Definition encrypt_with_random_nonce (cipher plaintext : bytes) (r : rng_state)
  : result bytes encrypt_error * rng_state :=
  let '(nonce_bytes, r) := draw r in
  (encrypt_with_nonce cipher plaintext nonce_bytes, r).

Definition decrypt_with_nonce_prefix (cipher ciphertext : bytes) : result bytes encrypt_error :=
  if (length ciphertext <? NONCE_LEN)%nat then Err MissingNonce
  else ok_or (aead_open cipher (take NONCE_LEN ciphertext) (drop NONCE_LEN ciphertext)) AeadError.

Definition encrypt_with_deterministic_nonce (cipher plaintext : bytes) : result bytes encrypt_error :=
  let hash := tagged_hash (str "LWK-Deterministic-Nonce/1.0") plaintext in
  encrypt_with_nonce cipher plaintext (take NONCE_LEN hash).

Definition map_err {T E F} (f : E -> F) (r : result T E) : result T F :=
  match r with Ok a => Ok a | Err e => Err (f e) end.

(** [EncryptedStore::effective_key]. *)
Definition effective_key (key_bytes : bytes) (encrypt_keys : bool) (key : bytes)
  : result bytes store_error :=
  if encrypt_keys then
    let? encrypted := map_err Encrypt (encrypt_with_deterministic_nonce key_bytes key) in
    Ok (to_hex encrypted)
  else Ok key.

Section Encrypted.
Context {W : Type} (key_bytes : bytes) (encrypt_keys : bool) (inner : Store W).

Definition encrypted_get (k : bytes) (w : W * rng_state) : result (option bytes) store_error :=
  let? key := effective_key key_bytes encrypt_keys k in
  let? found := map_err Store_ (get inner key w.1) in
  match found with
  | Some ciphertext =>
      let? plaintext := map_err Encrypt (decrypt_with_nonce_prefix key_bytes ciphertext) in
      Ok (Some plaintext)
  | None => Ok None
  end.

Definition encrypted_put (k v : bytes) (w : W * rng_state)
  : result unit store_error * (W * rng_state) :=
  match effective_key key_bytes encrypt_keys k with
  | Err e => (Err e, w)
  | Ok key =>
      let '(sealed, r) := encrypt_with_random_nonce key_bytes v w.2 in
      match sealed with
      | Err e => (Err (Encrypt e), (w.1, r))
      | Ok ciphertext =>
          let '(res, w') := put inner key ciphertext w.1 in (map_err Store_ res, (w', r))
      end
  end.

Definition encrypted_remove (k : bytes) (w : W * rng_state)
  : result unit store_error * (W * rng_state) :=
  match effective_key key_bytes encrypt_keys k with
  | Err e => (Err e, w)
  | Ok key => let '(res, w') := remove inner key w.1 in (map_err Store_ res, (w', w.2))
  end.

(** [EncryptedStore]. *)
Definition encrypted : Store (W * rng_state) :=
  mkStore encrypted_get encrypted_put encrypted_remove (is_persisted inner).
End Encrypted.
End Encrypt.

(** ** The contract

    [store_laws st K V wf view]: in a world that satisfies [wf], on keys in [K], every
    operation acts on [view] as on a map; a [put] that fails changes nothing that can be
    seen, and one of a value in [V] does not fail. *)
Definition upd_view (view : bytes -> option bytes) (k : bytes) (v : option bytes) : bytes -> option bytes :=
  fun k' => if decide (k' = k) then v else view k'.

Record store_laws {W} (st : Store W) (K V : bytes -> Prop) (wf : W -> Prop)
    (view : W -> bytes -> option bytes) : Prop :=
  { law_get k w : wf w -> K k -> get st k w = Ok (view w k);
    law_put k v w r w' : wf w -> K k -> put st k v w = (r, w') -> wf w' /\
      forall k', K k' -> view w' k' = if is_ok r then upd_view (view w) k (Some v) k' else view w k';
    law_put_total k v w : wf w -> K k -> V v -> (put st k v w).1 = Ok tt;
    law_remove k w : wf w -> K k -> exists w', remove st k w = (Ok tt, w') /\ wf w' /\
      forall k', K k' -> view w' k' = upd_view (view w) k None k' }.
Arguments law_get {W st K V wf view} _ k w _ _.
Arguments law_put {W st K V wf view} _ k v w r w' _ _ _.
Arguments law_put_total {W st K V wf view} _ k v w _ _ _.
Arguments law_remove {W st K V wf view} _ k w _ _.

Lemma law_put_ok {W} {st : Store W} {K V wf view} (L : store_laws st K V wf view) k v w :
  wf w -> K k -> V v -> exists w', put st k v w = (Ok tt, w') /\ wf w' /\
    forall k', K k' -> view w' k' = upd_view (view w) k (Some v) k'.
Proof.
  intros Hw Hk Hv. destruct (put st k v w) as [r w'] eqn:E.
  pose proof (law_put_total L k v w Hw Hk Hv) as Hr. rewrite E in Hr. simpl in Hr. subst r.
  exists w'. split; [done|]. by apply (law_put L k v w (Ok tt) w').
Qed.

Lemma insert_view (m : gmap bytes bytes) k v k' :
  <[k := v]> m !! k' = upd_view (fun j => m !! j) k (Some v) k'.
Proof. unfold upd_view. case_decide as E; [subst; by rewrite lookup_insert_eq|by rewrite lookup_insert_ne]. Qed.

Lemma delete_view (m : gmap bytes bytes) k k' :
  delete k m !! k' = upd_view (fun j => m !! j) k None k'.
Proof. unfold upd_view. case_decide as E; [subst; by rewrite lookup_delete_eq|by rewrite lookup_delete_ne]. Qed.

Lemma memory_laws :
  store_laws memory_store (fun _ => True) (fun _ => True) (fun _ => True) (fun m k => m !! k).
Proof.
  split; simpl; [done| |done|].
  - intros k v m r m' _ _ [= <- <-]. split; [done|]. intros. apply insert_view.
  - intros k m _ _. eexists; split_and!; [done|done|]. intros. apply delete_view.
Qed.

Lemma file_path_id k p : file_path k = Ok p -> p = k.
Proof. unfold file_path. repeat case_match; naive_solver. Qed.

Lemma file_laws :
  store_laws file_store (fun k => file_path k = Ok k) (fun _ => True) (fun _ => True) (fun m k => m !! k).
Proof.
  split; simpl; unfold file_get, file_put, file_remove.
  - intros k m _ ->. done.
  - intros k v m r m' _ -> [= <- <-]. split; [done|]. intros. apply insert_view.
  - intros k v m _ -> _. done.
  - intros k m _ ->. eexists; split_and!; [done|done|]. intros. apply delete_view.
Qed.

Lemma arc_dyn_laws {W} (st : Store W) K V wf view :
  store_laws st K V wf view ->
  store_laws (arc_dyn st) (fun k => K k /\ utf8_valid k = true) V wf view.
Proof.
  intros L. split; simpl.
  - intros k w Hw [Hk ->]. by apply L.
  - intros k v w r w' Hw [Hk ->] E. destruct (law_put L k v w r w' Hw Hk E) as [Hw' Hv'].
    split; [done|]. intros k' [Hk' _]. by apply Hv'.
  - intros k v w Hw [Hk ->]. by apply L.
  - intros k w Hw [Hk ->]. destruct (law_remove L k w Hw Hk) as (w' & E & Hw' & Hv').
    exists w'. split_and!; [done|done|]. intros k' [Hk' _]. by apply Hv'.
Qed.

(** ** Encrypted stores *)

Section EncryptedLaws.
Context {H : Hashes} {A : Aead} {G : Rng}.

Lemma take_nonce (nonce l : bytes) :
  length nonce = NONCE_LEN -> take NONCE_LEN (nonce ++ l) = nonce /\ drop NONCE_LEN (nonce ++ l) = l.
Proof. intros <-. by rewrite take_app_length, drop_app_length. Qed.

Lemma decrypt_encrypt cipher pt nonce ct :
  length nonce = NONCE_LEN -> encrypt_with_nonce cipher pt nonce = Ok ct ->
  decrypt_with_nonce_prefix cipher ct = Ok pt.
Proof.
  intros Hn. unfold encrypt_with_nonce, decrypt_with_nonce_prefix.
  destruct (aead_seal cipher nonce pt) as [c|] eqn:E; [|done]. intros [= <-].
  destruct (take_nonce nonce c Hn) as [-> ->].
  destruct (Nat.ltb_spec (length (nonce ++ c)) NONCE_LEN) as [Hlt|]; [rewrite length_app in Hlt; lia|].
  by rewrite (aead_open_seal _ _ _ _ E).
Qed.

Lemma det_nonce_length pt :
  length (take NONCE_LEN (tagged_hash (str "LWK-Deterministic-Nonce/1.0") pt)) = NONCE_LEN.
Proof. rewrite length_take. unfold tagged_hash. rewrite sha256_length. done. Qed.

Lemma to_hex_inj x y : to_hex x = to_hex y -> x = y.
Proof. intros E%(f_equal hex_collect). rewrite !hex_collect_to_hex in E. congruence. Qed.

(** Distinct keys stay distinct when they are encrypted: the nonce is a function of
    the key and the ciphertext decrypts. *)
Lemma effective_key_inj kb ek x y z :
  effective_key kb ek x = Ok z -> effective_key kb ek y = Ok z -> x = y.
Proof.
  unfold effective_key. destruct ek; [|naive_solver].
  intros (cx & Ex & [= <-])%rbind_ok (cy & Ey & [= E%to_hex_inj])%rbind_ok. subst cy.
  destruct (encrypt_with_deterministic_nonce kb x) as [c|] eqn:Ex'; [|done].
  destruct (encrypt_with_deterministic_nonce kb y) as [c'|] eqn:Ey'; [|done].
  simplify_eq/=.
  apply (decrypt_encrypt kb x) in Ex'; [|apply det_nonce_length].
  apply (decrypt_encrypt kb y) in Ey'; [|apply det_nonce_length]. congruence.
Qed.

(** An encrypted key exists and has the length of its hexadecimal text. *)
Lemma effective_key_total kb ek k :
  zlen k <= aead_max -> exists k', effective_key kb ek k = Ok k' /\
    if ek then exists c, k' = to_hex c /\ length c = (length k + 28)%nat else k' = k.
Proof.
  intros Hk. unfold effective_key. destruct ek; [|by eauto].
  unfold encrypt_with_deterministic_nonce, encrypt_with_nonce.
  destruct (aead_seal_total kb (take NONCE_LEN (tagged_hash (str "LWK-Deterministic-Nonce/1.0") k)) k Hk)
    as [c E]. rewrite E. simpl. eexists; split; [done|]. eexists; split; [done|].
  rewrite length_app, det_nonce_length, (aead_length _ _ _ _ E). unfold NONCE_LEN. lia.
Qed.

Section Laws.
Context {W : Type} (kb : bytes) (ek : bool) (inner : Store W).
Context (Ki Vi : bytes -> Prop) (wfi : W -> Prop) (viewi : W -> bytes -> option bytes).
Context (L : store_laws inner Ki Vi wfi viewi).
Context (K V : bytes -> Prop).
Context (HK : forall k, K k -> exists k', effective_key kb ek k = Ok k' /\ Ki k').
Context (HV : forall v ct nonce, V v -> aead_seal kb nonce v = Some ct -> Vi (nonce ++ ct)).
Context (Hmax : forall v, V v -> zlen v <= aead_max).

(** What a reader of the encrypted store sees, and the worlds where it can be read. *)
Definition enc_view (w : W * rng_state) (k : bytes) : option bytes :=
  match effective_key kb ek k with
  | Ok k' => ct ← viewi w.1 k'; ok_opt (decrypt_with_nonce_prefix kb ct)
  | Err _ => None
  end.

Definition enc_wf (w : W * rng_state) : Prop :=
  wfi w.1 /\ forall k k' ct, K k -> effective_key kb ek k = Ok k' -> viewi w.1 k' = Some ct ->
    is_ok (decrypt_with_nonce_prefix kb ct) = true.

(** Changing the inner store at the image of a key changes the view at that key. *)
Lemma enc_view_upd w w' r k k' v d :
  K k -> effective_key kb ek k = Ok k' ->
  (forall j, Ki j -> viewi w' j = upd_view (viewi w) k' v j) ->
  (match v with Some ct => ok_opt (decrypt_with_nonce_prefix kb ct) | None => None end) = d ->
  forall r' j, K j -> enc_view (w', r') j = upd_view (enc_view (w, r)) k d j.
Proof using HK.
  intros Hk Ek Hview <- r' j Hj. destruct (HK j Hj) as (j' & Ej & Hj'). unfold enc_view, upd_view.
  rewrite Ej. simpl. rewrite Hview by done. unfold upd_view. destruct (decide (j' = k')) as [->|Hne].
  - rewrite (effective_key_inj kb ek j k k') by done. by rewrite decide_True.
  - destruct (decide (j = k)) as [->|]; [|done]. congruence.
Qed.

Lemma enc_put k v w r res w2 r2 :
  enc_wf (w, r) -> K k -> encrypted_put kb ek inner k v (w, r) = (res, (w2, r2)) ->
  enc_wf (w2, r2) /\ forall k', K k' -> enc_view (w2, r2) k' =
    if is_ok res then upd_view (enc_view (w, r)) k (Some v) k' else enc_view (w, r) k'.
Proof using HK L.
  intros [Hw Hd] Hk. destruct (HK k Hk) as (k' & Ek & Hk').
  unfold encrypted_put, encrypt_with_random_nonce. rewrite Ek. simpl.
  pose proof (draw_length r) as Hn. destruct (draw r) as [nonce r'] eqn:Er. simpl in Hn.
  destruct (encrypt_with_nonce kb v nonce) as [ct|e] eqn:Ec; [|by intros [= <- <- <-]].
  assert (Hdec : decrypt_with_nonce_prefix kb ct = Ok v) by by apply decrypt_encrypt with nonce.
  destruct (put inner k' ct w) as [x w'] eqn:Ep. intros [= <- <- <-].
  destruct (law_put L k' ct w x w' Hw Hk' Ep) as [Hw' Hview].
  destruct x as [[]|e]; simpl in *.
  - split.
    + split; [done|]. simpl. intros j j' c Hj Ej Ej'. destruct (HK j Hj) as (j2 & Ej2 & Hj2).
      rewrite Ej in Ej2. injection Ej2 as <-. rewrite Hview in Ej' by done. unfold upd_view in Ej'.
      case_decide; simplify_eq; [by rewrite Hdec|]. by eapply Hd.
    + eapply enc_view_upd; [done|done|done|]. simpl. by rewrite Hdec.
  - split.
    + split; [done|]. simpl. intros j j' c Hj Ej Ej'. destruct (HK j Hj) as (j2 & Ej2 & Hj2).
      rewrite Ej in Ej2. injection Ej2 as <-. rewrite Hview in Ej' by done. by eapply Hd.
    + intros j Hj. destruct (HK j Hj) as (j' & Ej & Hj'). unfold enc_view. rewrite Ej. simpl.
      by rewrite Hview.
Qed.

Lemma encrypted_laws : store_laws (encrypted kb ek inner) K V enc_wf enc_view.
Proof using HK HV Hmax L.
  split.
  - intros k [w r] [Hw Hd] Hk. destruct (HK k Hk) as (k' & Ek & Hk').
    simpl. unfold encrypted_get, enc_view. rewrite Ek. simpl in *. rewrite (law_get L k' w Hw Hk'). simpl.
    destruct (viewi w k') as [ct|] eqn:Ev; [|done]. simpl.
    specialize (Hd k k' ct Hk Ek Ev). by destruct (decrypt_with_nonce_prefix kb ct).
  - intros k v [w r] res [w2 r2] [Hw Hd] Hk. by apply enc_put.
  - intros k v [w r] [Hw Hd] Hk Hv. destruct (HK k Hk) as (k' & Ek & Hk').
    simpl in *. unfold encrypted_put, encrypt_with_random_nonce. rewrite Ek.
    simpl. destruct (draw r) as [nonce r'].
    unfold encrypt_with_nonce. destruct (aead_seal_total kb nonce v (Hmax v Hv)) as [c Ec].
    rewrite Ec. simpl.
    pose proof (law_put_total L k' (nonce ++ c) w Hw Hk' (HV v c nonce Hv Ec)) as Hr.
    destruct (put inner k' (nonce ++ c) w) as [x w']. simpl in *. by subst.
  - intros k [w r] [Hw Hd] Hk. destruct (HK k Hk) as (k' & Ek & Hk').
    simpl in *. unfold encrypted_remove. rewrite Ek. simpl.
    destruct (law_remove L k' w Hw Hk') as (w' & -> & Hw' & Hview).
    simpl. eexists; split_and!; [done| |].
    + split; [done|]. simpl. intros j j' ct Hj Ej Ej'. destruct (HK j Hj) as (j2 & Ej2 & Hj2).
      rewrite Ej in Ej2. injection Ej2 as <-. rewrite Hview in Ej' by done. unfold upd_view in Ej'.
      case_decide; simplify_eq. by eapply Hd.
    + by eapply enc_view_upd.
Qed.
End Laws.
End EncryptedLaws.

(** ** Sequences of operations *)

Inductive store_op : Type :=
| OpGet (k : bytes)
| OpPut (k v : bytes)
| OpRemove (k : bytes).

(** What a caller observes of a sequence of operations. *)
Fixpoint run_ops {W} (st : Store W) (ops : list store_op) (w : W)
  : list (result (option bytes) store_error) :=
  match ops with
  | [] => []
  | OpGet k :: ops => get st k w :: run_ops st ops w
  | OpPut k v :: ops =>
      let '(r, w) := put st k v w in (let? _ := r in Ok None) :: run_ops st ops w
  | OpRemove k :: ops =>
      let '(r, w) := remove st k w in (let? _ := r in Ok None) :: run_ops st ops w
  end.

(** The same sequence on an abstract map. *)
Fixpoint map_ops (ops : list store_op) (m : gmap bytes bytes) : list (option bytes) :=
  match ops with
  | [] => []
  | OpGet k :: ops => m !! k :: map_ops ops m
  | OpPut k v :: ops => None :: map_ops ops (<[k := v]> m)
  | OpRemove k :: ops => None :: map_ops ops (delete k m)
  end.

Definition op_ok (K V : bytes -> Prop) (o : store_op) : Prop :=
  match o with
  | OpGet k | OpRemove k => K k
  | OpPut k v => K k /\ V v
  end.

(** A store that fulfils the contract cannot be told from the map it shows. *)
Lemma store_laws_run {W} (st : Store W) K V wf view ops w m :
  store_laws st K V wf view -> Forall (op_ok K V) ops -> wf w ->
  (forall k, K k -> view w k = m !! k) -> run_ops st ops w = map Ok (map_ops ops m).
Proof.
  intros L Hops. revert w m. induction Hops as [|[k|k v|k] ops Ho Hops IH]; intros w m Hw Hm; simpl in *.
  - done.
  - rewrite (law_get L), Hm by done. f_equal. by apply IH.
  - destruct Ho as [Hk Hv]. destruct (law_put_ok L k v w Hw Hk Hv) as (w' & -> & Hw' & Hview). simpl.
    f_equal. apply IH; [done|]. intros k' Hk'. rewrite Hview, insert_view by done.
    unfold upd_view. case_decide; [done|]. by apply Hm.
  - destruct (law_remove L k w Hw Ho) as (w' & -> & Hw' & Hview). simpl.
    f_equal. apply IH; [done|]. intros k' Hk'. rewrite Hview, delete_view by done.
    unfold upd_view. case_decide; [done|]. by apply Hm.
Qed.

(** ** File names *)

Definition is_hex_digit (b : byte) : bool := within 48 57 b || within 97 102 b.

Lemma hex_digit_is n : 0 <= n < 16 -> is_hex_digit (hex_digit n) = true.
Proof.
  intros Hn. unfold is_hex_digit, within, hex_digit.
  destruct (Z.ltb_spec n 10); rewrite b2z_z2b_small by lia; apply orb_true_iff; [left|right];
    apply andb_true_iff; rewrite !Z.leb_le; lia.
Qed.

Lemma to_hex_digits d : Forall (fun b => is_hex_digit b = true) (to_hex d).
Proof.
  unfold to_hex. induction d as [|b d IH]; [constructor|]. cbn [map concat app].
  pose proof (b2z_range b).
  repeat apply Forall_cons_2; [apply hex_digit_is|apply hex_digit_is|done].
  - split; [apply Z.div_pos; lia|apply Z.div_lt_upper_bound; lia].
  - apply Z.mod_pos_bound; lia.
Qed.

Lemma hex_utf8 l : Forall (fun b => is_hex_digit b = true) l -> utf8_valid l = true.
Proof.
  induction 1 as [|b l Hb Hl IH]; [done|]. simpl.
  assert (within 0x00 0x7F b = true) as ->; [|done]. destruct b; try done; discriminate Hb.
Qed.

Lemma existsb_hex_false (f : byte -> bool) l :
  (forall b, is_hex_digit b = true -> f b = false) ->
  Forall (fun b => is_hex_digit b = true) l -> existsb f l = false.
Proof. intros Hf. induction 1 as [|b l Hb Hl IH]; [done|]. simpl. by rewrite Hf, IH. Qed.

(** Any text of 1 to 255 hexadecimal digits is a file name. *)
Lemma hex_file_path l :
  Forall (fun b => is_hex_digit b = true) l -> (0 < length l <= 255)%nat -> file_path l = Ok l.
Proof.
  intros Hl Hlen. unfold file_path. rewrite hex_utf8 by done. simpl.
  destruct (Nat.eqb_spec (length l) 0); [lia|]. destruct (Nat.ltb_spec 255 (length l)); [lia|].
  unfold contains. rewrite !existsb_hex_false by (done || intros []; done).
  destruct Hl as [|b l Hb Hl]; [simpl in *; lia|].
  rewrite !bool_decide_eq_false_2; [done| |]; intros E; inversion E; subst; discriminate Hb.
Qed.

(** The keys an encrypted [FileStore] accepts: with encrypted keys, the hexadecimal
    text of nonce, ciphertext and tag must fit a file name. *)
Definition file_key_ok (encrypt_keys : bool) (k : bytes) : Prop :=
  if encrypt_keys then (length k <= 99)%nat else file_path k = Ok k.

Lemma file_path_short k p : file_path k = Ok p -> (length k <= 255)%nat.
Proof.
  unfold file_path. case_match; [done|]. case_match; [done|]. case_match eqn:E; [done|].
  intros _. apply Nat.ltb_ge in E. lia.
Qed.

Lemma file_path_utf8 k p : file_path k = Ok p -> utf8_valid k = true.
Proof. unfold file_path. by destruct (utf8_valid k). Qed.

Lemma file_effective_key `{Hashes} `{Aead} kb ek k :
  file_key_ok ek k -> exists k', effective_key kb ek k = Ok k' /\ file_path k' = Ok k'.
Proof.
  intros Hk. pose proof aead_max_large.
  destruct (effective_key_total kb ek k) as (k' & E & Hk').
  { unfold zlen. destruct ek; simpl in Hk; [lia|]. apply file_path_short in Hk. lia. }
  exists k'. split; [done|]. destruct ek; simpl in *; [|by subst].
  destruct Hk' as (c & -> & Hc). apply hex_file_path; [apply to_hex_digits|].
  rewrite length_to_hex. lia.
Qed.

(** ** Claims *)

(** C35: An encrypted [FileStore] is a map: starting from an empty directory, every
    sequence of [get], [put] and [remove] answers what the map answers, with every
    call successful, whatever the random nonces are, with or without encrypted keys,
    provided the keys are accepted (file names, or at most 99 bytes when encrypted)
    and the values are within the cipher's limit. *)
Theorem encrypted_file_store_is_map `{Hashes} `{Aead} `{Rng} (kb : bytes) (ek : bool)
    (ops : list store_op) (r : rng_state) :
  Forall (op_ok (file_key_ok ek) (fun v => zlen v <= aead_max)) ops ->
  run_ops (encrypted kb ek (arc_dyn file_store)) ops (∅, r) = map Ok (map_ops ops ∅).
Proof.
  intros Hops. eapply store_laws_run; [|exact Hops| |].
  - eapply (encrypted_laws kb ek _ _ (fun _ => True)); [apply arc_dyn_laws, file_laws| |done|done].
    intros k Hk. destruct (file_effective_key kb ek k Hk) as (k' & E & Hk').
    exists k'. split_and!; [done|done|]. by eapply file_path_utf8.
  - split; [done|]. intros k k' ct _ _ E. simpl in E. by rewrite lookup_empty in E.
  - intros k _. unfold enc_view. case_match; [|by rewrite lookup_empty].
    simpl. by rewrite !lookup_empty.
Qed.

Module StoreSample.
Export SighashSample.

(** A stand-in cipher: it reverses the payload and appends a tag made of the nonce. *)
Program Definition Aead_model : Aead :=
  {| aead_seal key nonce pt :=
       if zlen pt <=? 2 ^ 36 then Some (rev pt ++ le_bytes 16 (le_val nonce)) else None;
     aead_open key nonce ct := Some (rev (take (length ct - 16) ct));
     aead_max := 2 ^ 36 |}.
Next Obligation. done. Qed.
Next Obligation.
  intros key nonce pt Hp. cbv beta. case_match eqn:E; [by eexists|]. apply Z.leb_gt in E. lia.
Qed.
Next Obligation.
  intros key nonce pt ct. cbv beta. case_match; [|done]. intros <-%(inj Some).
  by rewrite length_app, length_rev, length_le_bytes.
Qed.
Next Obligation.
  intros key nonce pt ct. cbv beta. case_match; [|done]. intros <-%(inj Some).
  rewrite length_app, length_le_bytes, Nat.add_sub, take_app_length, rev_involutive. done.
Qed.
#[export] Existing Instance Aead_model.

Program Definition Rng_model : Rng := {| rng_state := Z; draw r := (le_bytes 12 r, r + 1) |}.
Next Obligation. intros r. apply length_le_bytes. Qed.
#[export] Existing Instance Rng_model.

Definition sample_rng : @rng_state Rng_model := 41.

Definition sample_ops : list store_op :=
  [OpGet (str "a:b"); OpPut (str "a:b") [Byte.x05]; OpPut (str "c") [Byte.x06; Byte.x07];
   OpGet (str "a:b"); OpRemove (str "a:b"); OpGet (str "a:b"); OpGet (str "c")].
End StoreSample.
Import StoreSample.

Lemma encrypted_file_store_is_map_witness :
  run_ops (encrypted (str "key") true (arc_dyn file_store)) sample_ops (∅, sample_rng) =
  [Ok None; Ok None; Ok None; Ok (Some [Byte.x05]); Ok None; Ok None; Ok (Some [Byte.x06; Byte.x07])].
Proof.
  rewrite (encrypted_file_store_is_map (str "key") true sample_ops sample_rng); [reflexivity|].
  repeat constructor; vm_compute; discriminate.
Defined.
