(* ===== verification/PsetMeta.v ===== *)
(** * Extensions of PSETs

    Data that wallets exchange in the proprietary fields of a PSET: the metadata of assets and
    reissuance tokens (ELIP 100, [pset/elip100.rs]), the blinding factors of LiquiDEX
    (ELIP 102, [pset/elip102.rs]) and the genesis hash (ELIP 101, [lwk_common/src/pset.rs]).

    The theorem: what one of the extensions stores is what it reads back, and it leaves what
    the others, other assets and every standard field hold as it was. *)

From S2P Require Import Prelude Encode Script Confidential Transaction Sighash Taproot TapSighash Merkle Store Pset PsetValue PsetCodec.

Definition PSBT_ELEMENTS_HWW_GLOBAL_ASSET_METADATA : Z := 0x00.
Definition PSBT_ELEMENTS_HWW_GLOBAL_REISSUANCE_TOKEN : Z := 0x01.
Definition PSET_HWW_PREFIX : bytes := str "pset_hww".
Definition PSBT_ELEMENTS_LIQUIDEX_IN_ABF : Z := 0x00.
Definition PSBT_ELEMENTS_LIQUIDEX_OUT_ABF : Z := 0x00.
Definition PSET_LIQUIDEX_PREFIX : bytes := str "pset_liquidex".
Definition PSBT_ELEMENTS_GLOBAL_GENESIS_HASH : Z := 0x02.

(** ** ELIP 100 *)

Record AssetMetadata := mkAssetMeta { contract : bytes; issuance_prevout : OutPoint }.
Record TokenMetadata := mkTokenMeta { tm_asset_id : AssetId; issuance_blinded : bool }.

Definition hww_key (asset_id : AssetId) (keytype : Z) : ProprietaryKey :=
  mkPropKey PSET_HWW_PREFIX keytype asset_id.

Section meta.
Context {P : Platform} {S : Secp} {T : TapEnv} {C : SchnorrEnv} {E : PsetEnv}.

Definition AssetMetadata_serialize (m : AssetMetadata) : bytes :=
  encode_vec_u8 (contract m) ++ encode_OutPoint (issuance_prevout m).

(** Bytes after the outpoint are ignored. *)
Definition AssetMetadata_deserialize (data : bytes) : result AssetMetadata encode_error :=
  let? (str_bytes, cursor) := decode_vec_u8 data in
  if negb (utf8_valid str_bytes)
  then Err (ParseFailed "utf8 conversion fail on the contract string")
  else
    let? (prevout, _) := decode_OutPoint cursor in
    Ok (mkAssetMeta str_bytes prevout).

Definition TokenMetadata_serialize (m : TokenMetadata) : bytes :=
  emit_u8 (if issuance_blinded m then 1 else 0) ++ tm_asset_id m.

Definition TokenMetadata_deserialize (data : bytes) : result TokenMetadata encode_error :=
  let? (byte, cursor) := read_u8 data in
  if 1 <? byte then Err (ParseFailed "invalid issuanceBlinded")
  else
    let? (asset_id, _) := read_exact 32 cursor in
    Ok (mkTokenMeta asset_id (byte =? 1)).

Definition set_global_prop (k : ProprietaryKey) (v : bytes) (p : PartiallySignedTransaction)
  : PartiallySignedTransaction :=
  let g := global p in
  mkPset (mkGlobal (tx_data g) (pset_version g) (xpub g) (scalars g) (elements_tx_modifiable_flag g)
            (<[k := v]> (g_proprietary g)) (g_unknown g)) (inputs p) (outputs p).

(** The entry that was there before, and the PSET with the new one. *)
Definition add_asset_metadata (asset_id : AssetId) (m : AssetMetadata) (p : PartiallySignedTransaction)
  : option (result AssetMetadata encode_error) * PartiallySignedTransaction :=
  let key := hww_key asset_id PSBT_ELEMENTS_HWW_GLOBAL_ASSET_METADATA in
  (AssetMetadata_deserialize <$> g_proprietary (global p) !! key,
   set_global_prop key (AssetMetadata_serialize m) p).

Definition get_asset_metadata (asset_id : AssetId) (p : PartiallySignedTransaction)
  : option (result AssetMetadata encode_error) :=
  AssetMetadata_deserialize <$>
    g_proprietary (global p) !! hww_key asset_id PSBT_ELEMENTS_HWW_GLOBAL_ASSET_METADATA.

Definition add_token_metadata (token_id : AssetId) (m : TokenMetadata) (p : PartiallySignedTransaction)
  : option (result TokenMetadata encode_error) * PartiallySignedTransaction :=
  let key := hww_key token_id PSBT_ELEMENTS_HWW_GLOBAL_REISSUANCE_TOKEN in
  (TokenMetadata_deserialize <$> g_proprietary (global p) !! key,
   set_global_prop key (TokenMetadata_serialize m) p).

Definition get_token_metadata (token_id : AssetId) (p : PartiallySignedTransaction)
  : option (result TokenMetadata encode_error) :=
  TokenMetadata_deserialize <$>
    g_proprietary (global p) !! hww_key token_id PSBT_ELEMENTS_HWW_GLOBAL_REISSUANCE_TOKEN.

(** ** ELIP 101 *)

Definition set_genesis_hash (genesis_block_hash : bytes) (p : PartiallySignedTransaction)
  : PartiallySignedTransaction :=
  set_global_prop (from_pset_pair PSBT_ELEMENTS_GLOBAL_GENESIS_HASH []) genesis_block_hash p.

(** All zeros when the field is absent or has another length. *)
Definition get_genesis_hash (p : PartiallySignedTransaction) : bytes :=
  match g_proprietary (global p) !! from_pset_pair PSBT_ELEMENTS_GLOBAL_GENESIS_HASH [] with
  | Some v => if (length v =? 32)%nat then v else zero_hash
  | None => zero_hash
  end.

(** ** ELIP 102 *)

Definition liquidex_key (keytype : Z) : ProprietaryKey := mkPropKey PSET_LIQUIDEX_PREFIX keytype [].

Definition set_abf_in (abf : Tweak) (i : PsetInput) : PsetInput :=
  i <| i_proprietary := <[liquidex_key PSBT_ELEMENTS_LIQUIDEX_IN_ABF := ext_ser abf]> (i_proprietary i) |>.
Definition get_abf_in (i : PsetInput) : option (result Tweak codec_error) :=
  de sd_abf <$> i_proprietary i !! liquidex_key PSBT_ELEMENTS_LIQUIDEX_IN_ABF.
Definition set_abf_out (abf : Tweak) (o : PsetOutput) : PsetOutput :=
  o <| o_proprietary := <[liquidex_key PSBT_ELEMENTS_LIQUIDEX_OUT_ABF := ext_ser abf]> (o_proprietary o) |>.
Definition get_abf_out (o : PsetOutput) : option (result Tweak codec_error) :=
  de sd_abf <$> o_proprietary o !! liquidex_key PSBT_ELEMENTS_LIQUIDEX_OUT_ABF.

(** ** What is stored is read back *)

Lemma asset_metadata_round_trip m :
  vec_u8_wf (contract m) -> utf8_valid (contract m) = true -> OutPoint_wf (issuance_prevout m) ->
  AssetMetadata_deserialize (AssetMetadata_serialize m) = Ok m.
Proof.
  intros Hc Hu Ho. unfold AssetMetadata_deserialize, AssetMetadata_serialize.
  rewrite (codec_decode vec_u8_codec) by done. cbn [rbind]. rewrite Hu. cbn [negb].
  rewrite (codec_last OutPoint_codec) by done. by destruct m.
Qed.

Lemma token_metadata_round_trip m :
  length (tm_asset_id m) = 32%nat -> TokenMetadata_deserialize (TokenMetadata_serialize m) = Ok m.
Proof.
  intros Ha. unfold TokenMetadata_deserialize, TokenMetadata_serialize.
  rewrite (codec_decode u8_codec) by (by destruct (issuance_blinded m)). cbn [rbind].
  rewrite <-(app_nil_r (tm_asset_id m)), read_exact_app by done.
  by destruct m as [a []].
Qed.

Lemma abf_round_trip abf i o :
  get_abf_in (set_abf_in abf i) = Some (Ok abf) /\ get_abf_out (set_abf_out abf o) = Some (Ok abf).
Proof.
  unfold get_abf_in, set_abf_in, get_abf_out, set_abf_out.
  pose proof (sd_ok sd_abf abf I : de sd_abf (ext_ser abf) = Ok abf) as Ha.
  split; [destruct i|destruct o]; (etransitivity; [|apply (f_equal Some Ha)]); apply fmap_Some_2, lookup_insert_eq.
Qed.

(** Keys of different extensions, assets and kinds differ. *)
Lemma hww_key_inj a a' k k' : hww_key a k = hww_key a' k' -> a = a' /\ k = k'.
Proof. by intros [= -> ->]. Qed.

Lemma hww_key_not_genesis a k : hww_key a k <> from_pset_pair PSBT_ELEMENTS_GLOBAL_GENESIS_HASH [].
Proof. done. Qed.
End meta.

(** The asset, token and genesis fields of a PSET are independent stores: what is stored
    for an asset is returned for it (with the entry it replaces), the entries of all other
    assets, of the other kind and the genesis hash stay, and the transaction is not touched. *)
Theorem pset_metadata_stored {P : Platform} {S : Secp} {H : Hashes} {M : Midstates} {T : TapEnv}
    {C : SchnorrEnv} {E : PsetEnv}
    (p : PartiallySignedTransaction) (a t g : bytes) (m : AssetMetadata) (n : TokenMetadata) :
  vec_u8_wf (contract m) -> utf8_valid (contract m) = true -> OutPoint_wf (issuance_prevout m) ->
  length (tm_asset_id n) = 32%nat -> length g = 32%nat ->
  let p1 := snd (add_asset_metadata a m p) in
  let p2 := snd (add_token_metadata t n p1) in
  let p3 := set_genesis_hash g p2 in
  get_asset_metadata a p3 = Some (Ok m) /\
  get_token_metadata t p3 = Some (Ok n) /\
  get_genesis_hash p3 = g /\
  fst (add_asset_metadata a m p3) = Some (Ok m) /\
  (forall a', a' <> a -> get_asset_metadata a' p3 = get_asset_metadata a' p) /\
  (forall t', t' <> t -> get_token_metadata t' p3 = get_token_metadata t' p) /\
  extract_tx p3 = extract_tx p /\ unique_id p3 = unique_id p.
Proof.
  intros Hc Hu Ho Hn Hg. cbv zeta.
  unfold get_asset_metadata, get_token_metadata, get_genesis_hash, add_asset_metadata, add_token_metadata,
    set_genesis_hash, set_global_prop. cbn [fst snd global g_proprietary].
  assert (Hx : forall k l : ProprietaryKey, k <> l -> forall (v : bytes) (mp : gmap ProprietaryKey bytes),
    <[k := v]> mp !! l = mp !! l) by (intros; by apply lookup_insert_ne).
  split_and!.
  - rewrite (Hx _ _ (not_eq_sym (hww_key_not_genesis _ _))), Hx by (by intros []%hww_key_inj).
    rewrite lookup_insert_eq. simpl. by rewrite asset_metadata_round_trip.
  - rewrite (Hx _ _ (not_eq_sym (hww_key_not_genesis _ _))), lookup_insert_eq. simpl.
    by rewrite token_metadata_round_trip.
  - by rewrite lookup_insert_eq, Hg.
  - rewrite (Hx _ _ (not_eq_sym (hww_key_not_genesis _ _))), Hx by (by intros []%hww_key_inj).
    rewrite lookup_insert_eq. simpl. by rewrite asset_metadata_round_trip.
  - intros a' Ha. rewrite (Hx _ _ (not_eq_sym (hww_key_not_genesis _ _))).
    rewrite !Hx by (by intros []%hww_key_inj). done.
  - intros t' Ht. rewrite (Hx _ _ (not_eq_sym (hww_key_not_genesis _ _))).
    rewrite !Hx by (by intros []%hww_key_inj). done.
  - done.
  - done.
Qed.

Import PsetSample.

Lemma pset_metadata_stored_witness :
  let m := mkAssetMeta (str "{}") (point 3 1) in
  let p1 := snd (add_asset_metadata (hash Byte.x01) m two_inputs) in
  let p2 := snd (add_token_metadata (hash Byte.x02) (mkTokenMeta (hash Byte.x01) true) p1) in
  get_asset_metadata (hash Byte.x01) (set_genesis_hash (hash Byte.x03) p2) = Some (Ok m).
Proof.
  apply (pset_metadata_stored two_inputs (hash Byte.x01) (hash Byte.x02) (hash Byte.x03)
    (mkAssetMeta (str "{}") (point 3 1)) (mkTokenMeta (hash Byte.x01) true));
    [vm_compute; congruence|vm_compute; reflexivity|split; [reflexivity|split; reflexivity || discriminate]|reflexivity..].
Defined.
