(* ===== verification/Update.v ===== *)
(** * Wallet updates

    [lwk_wollet/src/update.rs]: the [Update] a scan produces, its versioned binary
    encoding (with the panics of its decoder), pruning and merging; with [Chain] of
    [descriptor.rs], [LastUnused] of [clients/mod.rs] and the [ChildNumber] of BIP 32. *)

From S2P Require Import Prelude Encode Script Timelocks Confidential Transaction TxMetrics Block Sighash.

#[local] Opaque emit_u8 emit_u16 emit_u32 emit_u64 emit_varint.

(** ** Readers that can panic

    [None] is a panic or an abort of the process. *)

Definition PReader (A : Type) : Type := bytes -> option (result (A * bytes) encode_error).

Definition pr_ret {A} (a : A) : PReader A := fun bs => Some (Ok (a, bs)).
Definition pr_panic {A} : PReader A := fun _ => None.
Definition pr_lift {A} (r : Reader A) : PReader A := fun bs => Some (r bs).
Definition pr_bind {A B} (m : PReader A) (k : A -> PReader B) : PReader B :=
  fun bs => match m bs with
            | None => None
            | Some (Err e) => Some (Err e)
            | Some (Ok (a, rest)) => k a rest
            end.

Notation "x <~ m ;; k" := (pr_bind m (fun x => k))
  (at level 100, m at next level, right associativity) : swk_scope.

Fixpoint pr_n {A} (dec : PReader A) (n : nat) : PReader (list A) :=
  match n with
  | O => pr_ret []
  | S n => c <~ dec;; l <~ pr_n dec n;; pr_ret (c :: l)
  end.

Lemma pr_bind_ok {A B} (m : PReader A) (k : A -> PReader B) bs b rest :
  pr_bind m k bs = Some (Ok (b, rest)) <->
  exists a mid, m bs = Some (Ok (a, mid)) /\ k a mid = Some (Ok (b, rest)).
Proof. unfold pr_bind. destruct (m bs) as [[[a mid]|e]|]; naive_solver. Qed.

Lemma pr_ret_ok {A} (x : A) bs a rest : pr_ret x bs = Some (Ok (a, rest)) <-> x = a /\ bs = rest.
Proof. unfold pr_ret. naive_solver. Qed.

(** The codec contract for such readers. *)
Record pcodec {A} (enc : A -> bytes) (dec : PReader A) (wf : A -> Prop) : Prop :=
  { pcodec_decode a rest : wf a -> dec (enc a ++ rest) = Some (Ok (a, rest));
    pcodec_canonical bs a rest : dec bs = Some (Ok (a, rest)) -> wf a /\ bs = enc a ++ rest }.
Arguments pcodec_decode {A enc dec wf} _ a rest _.
Arguments pcodec_canonical {A enc dec wf} _ bs a rest _.

Lemma pcodec_lift {A} {enc : A -> bytes} {dec wf} :
  codec_ok enc dec wf -> pcodec enc (pr_lift dec) wf.
Proof.
  intros H. unfold pr_lift. split.
  - intros a rest Ha. by rewrite (codec_decode H).
  - intros bs a rest [= E]. by apply H.
Qed.

Lemma pcodec_step {A B} {enc : A -> bytes} {dec wf} (H : pcodec enc dec wf)
    (k : A -> PReader B) a rest : wf a -> pr_bind dec k (enc a ++ rest) = k a rest.
Proof. intros Ha. unfold pr_bind. by rewrite (pcodec_decode H). Qed.

(** Undo one step of such a decoder. *)
Tactic Notation "pcodec_inv" hyp(E) "with" constr(c) "as" ident(x) simple_intropattern(W) :=
  let D := fresh "D" in
  let mid := fresh "mid" in
  apply pr_bind_ok in E as (x & mid & D & E);
  apply (pcodec_canonical c) in D as [W ->].

Lemma pr_n_codec {A} {enc : A -> bytes} {dec wf} n :
  pcodec enc dec wf ->
  pcodec (fun l => concat (map enc l)) (pr_n dec n) (fun l => Forall wf l /\ length l = n).
Proof.
  intros H. split.
  - intros l rest [Hl <-]. revert rest.
    induction Hl as [|a l Ha Hl IH]; intros rest; simpl; [done|].
    rewrite <-app_assoc, (pcodec_step H) by done. unfold pr_bind. by rewrite IH.
  - induction n as [|n IH]; intros bs l rest; simpl.
    + intros [<- <-]%pr_ret_ok. by split.
    + intros E. pcodec_inv E with H as a Ha.
      apply pr_bind_ok in E as (l' & mid' & Hl' & E). apply pr_ret_ok in E as [<- <-].
      apply IH in Hl' as [[Hwl Hlen] ->]. simpl. rewrite <-app_assoc. split; [|done].
      split; [by constructor|]. by rewrite Hlen.
Qed.

(** The memory a process can reserve at once and the element sizes of the vectors the
    decoder reserves room for: [Vec::with_capacity] panics above [isize::MAX] bytes
    and aborts when the allocator refuses. *)
Class Heap :=
  { alloc_limit : Z;
    alloc_limit_range : 2 ^ 24 <= alloc_limit < 2 ^ 63;
    size_of_TxidHeight : Z;
    size_of_Txid : Z;
    size_of_HeightTimestamp : Z;
    size_of_ScriptEntry : Z;
    size_of_OutPoint : Z;
    sizes_pos : Forall (fun s => 1 <= s <= 1024)
      [size_of_TxidHeight; size_of_Txid; size_of_HeightTimestamp; size_of_ScriptEntry; size_of_OutPoint] }.

(** A count, then [Vec::with_capacity(len as usize)], then the elements. *)
Definition encode_counted {A} (enc : A -> bytes) (l : list A) : bytes :=
  emit_varint (zlen l) ++ concat (map enc l).

Definition decode_counted `{Heap} {A} (size_of : Z) (dec : PReader A) : PReader (list A) :=
  len <~ pr_lift read_varint;;
  if len * size_of <=? alloc_limit then pr_n dec (Z.to_nat len) else pr_panic.

(** The same without reserving ([vec![]]). *)
Definition decode_loop {A} (dec : PReader A) : PReader (list A) :=
  len <~ pr_lift read_varint;; pr_n dec (Z.to_nat len).

Lemma loop_codec {A} {enc : A -> bytes} {dec wf} :
  pcodec enc dec wf ->
  pcodec (encode_counted enc) (decode_loop dec) (fun l => Forall wf l /\ zlen l < 2 ^ 64).
Proof.
  intros H. unfold encode_counted, decode_loop, zlen. split.
  - intros l rest [Hl Hn]. rewrite <-app_assoc, (pcodec_step (pcodec_lift varint_codec)) by lia.
    apply (pcodec_decode (pr_n_codec _ H)). split; [done|lia].
  - intros bs l rest E. pcodec_inv E with (pcodec_lift varint_codec) as len Hlen.
    apply (pcodec_canonical (pr_n_codec _ H)) in E as [[Hwl Hl] ->].
    rewrite Hl, Z2Nat.id, <-app_assoc by lia. split; [|done]. split; [done|lia].
Qed.

Lemma counted_codec `{Heap} {A} {enc : A -> bytes} {dec wf} size_of :
  1 <= size_of -> pcodec enc dec wf ->
  pcodec (encode_counted enc) (decode_counted size_of dec)
    (fun l => Forall wf l /\ zlen l * size_of <= alloc_limit).
Proof.
  intros Hs H'. pose proof alloc_limit_range. unfold encode_counted, decode_counted, zlen. split.
  - intros l rest [Hl Hn]. assert (Z.of_nat (length l) <= alloc_limit) by nia.
    rewrite <-app_assoc, (pcodec_step (pcodec_lift varint_codec)) by lia.
    apply Z.leb_le in Hn as ->. apply (pcodec_decode (pr_n_codec _ H')). split; [done|lia].
  - intros bs l rest E. pcodec_inv E with (pcodec_lift varint_codec) as len Hlen.
    destruct (Z.leb_spec (len * size_of) alloc_limit) as [Hl'|]; [|done].
    apply (pcodec_canonical (pr_n_codec _ H')) in E as [[Hwl Hl] ->].
    rewrite Hl, Z2Nat.id, <-app_assoc by lia. by repeat split.
Qed.

(** ** Data *)

Inductive Chain : Type := External | Internal.
#[export] Instance Chain_eq_dec : EqDecision Chain.
Proof. solve_decision. Defined.
#[export] Instance Chain_countable : Countable Chain.
Proof.
  refine (inj_countable' (fun c => match c with External => true | Internal => false end)
            (fun b : bool => if b then External else Internal) _). by intros [].
Defined.

(** [bip32::ChildNumber] and its conversions from and to [u32]. *)
Inductive ChildNumber : Type :=
| Normal (index : Z)
| Hardened (index : Z).
#[export] Instance ChildNumber_eq_dec : EqDecision ChildNumber.
Proof. solve_decision. Defined.
#[export] Instance ChildNumber_countable : Countable ChildNumber.
Proof.
  refine (inj_countable' (fun c => match c with Normal i => inl i | Hardened i => inr i end)
            (fun s => match s with inl i => Normal i | inr i => Hardened i end) _). by intros [].
Defined.

Definition child_to_u32 (c : ChildNumber) : Z :=
  match c with
  | Normal index => index
  | Hardened index => Z.lor index 0x80000000
  end.

Definition child_from_u32 (n : Z) : ChildNumber :=
  if Z.land n 0x80000000 =? 0 then Normal n else Hardened (Z.lxor n 0x80000000).

Definition child_wf (c : ChildNumber) : Prop :=
  match c with Normal i | Hardened i => 0 <= i < 2 ^ 31 end.

Section Update.
Context {P : Platform} {S : Secp} {H : Hashes} {A : Heap}.

Abbreviation Txid := bytes (only parsing).
Abbreviation Height := Z (only parsing).

Record TxOutSecrets := mkSecrets
  { sec_asset : AssetId;
    asset_bf : Tweak;
    sec_value : Z;
    value_bf : Tweak }.
#[export] Instance TxOutSecrets_eq_dec : EqDecision TxOutSecrets.
Proof. solve_decision. Defined.

Record LastUnused := mkLastUnused { lu_internal : Z; lu_external : Z }.
#[export] Instance LastUnused_eq_dec : EqDecision LastUnused.
Proof. solve_decision. Defined.
Definition LastUnused_default : LastUnused := mkLastUnused 0 0.

Record DownloadTxResult := mkDownload
  { txs : list (Txid * Transaction);
    unblinds : list (OutPoint * TxOutSecrets) }.

#[export] Instance FullParams_eq_dec : EqDecision FullParams.
Proof. solve_decision. Defined.
#[export] Instance Params_eq_dec : EqDecision Params.
Proof. solve_decision. Defined.
#[export] Instance ExtData_eq_dec : EqDecision ExtData.
Proof. solve_decision. Defined.
#[export] Instance BlockHeader_eq_dec : EqDecision BlockHeader.
Proof. solve_decision. Defined.

Abbreviation ScriptEntry := (Chain * ChildNumber * Script * option PublicKey)%type (only parsing).

Record Update := mkUpdate
  { upd_version : Z;
    wollet_status : Z;
    new_txs : DownloadTxResult;
    txid_height_new : list (Txid * option Height);
    txid_height_delete : list Txid;
    timestamps : list (Height * Z);
    scripts_with_blinding_pubkey : list ScriptEntry;
    upd_tip : BlockHeader;
    upd_unspent : list OutPoint;
    upd_last_unused : LastUnused }.

Definition default_blockheader : BlockHeader :=
  mkHeader 0 zero_hash zero_hash 0 0 (Dynafed ParamsNull ParamsNull []) (Some (0, zero_hash)).

(** [Transaction::txid]. *)
Definition tx_txid (tx : Transaction) : Txid := sha256d (encode_base tx).

(** ** Tests and pruning *)

Definition only_tip (u : Update) : bool :=
  (is_empty (txs (new_txs u)) && is_empty (unblinds (new_txs u))) &&
  is_empty (txid_height_new u) && is_empty (txid_height_delete u) &&
  is_empty (scripts_with_blinding_pubkey u) && is_empty (upd_unspent u).

Definition set_txs (u : Update) (l : list (Txid * Transaction)) : Update :=
  mkUpdate (upd_version u) (wollet_status u) (mkDownload l (unblinds (new_txs u)))
    (txid_height_new u) (txid_height_delete u) (timestamps u) (scripts_with_blinding_pubkey u)
    (upd_tip u) (upd_unspent u) (upd_last_unused u).

(** [DownloadTxResult::prune]: input witnesses go, an own output keeps its range proof. *)
Definition prune_tx (mine : Script -> bool) (tx : Transaction) : Transaction :=
  mkTransaction (version tx) (lock_time tx) (map strip_in (input tx))
    (map (fun o => if mine (script_pubkey o)
                   then set_out_witness o (mkTxOutWitness None (rangeproof (out_witness o)))
                   else strip_out o) (output tx)).

Definition prune (mine : Script -> bool) (u : Update) : Update :=
  set_txs u (map (fun '(t, tx) => (t, prune_tx mine tx)) (txs (new_txs u))).

Definition prune_witnesses (u : Update) : Update :=
  set_txs u (map (fun '(t, tx) => (t, mkTransaction (version tx) (lock_time tx)
    (map strip_in (input tx)) (map strip_out (output tx)))) (txs (new_txs u))).

(** ** Merging *)

(** The heights of the following update override those of the first one. *)
Definition merge_heights (first : list (Txid * option Height)) (deleted : list Txid)
    (following : list (Txid * option Height)) : list (Txid * option Height) :=
  foldl (fun l '(t, h) => base.filter (fun x => x.1 <> t) l ++ [(t, h)])
    (base.filter (fun x => x.1 ∉ deleted) first) following.

Definition merge (u following : Update) : Update :=
  mkUpdate (upd_version following) (wollet_status u)
    (mkDownload (txs (new_txs u) ++ txs (new_txs following))
       (unblinds (new_txs u) ++ unblinds (new_txs following)))
    (merge_heights (txid_height_new u) (txid_height_delete following) (txid_height_new following))
    (txid_height_delete u ++ txid_height_delete following)
    (timestamps u ++ timestamps following)
    (scripts_with_blinding_pubkey u ++ scripts_with_blinding_pubkey following)
    (if bool_decide (upd_tip following <> default_blockheader) then upd_tip following else upd_tip u)
    (upd_unspent following)
    (mkLastUnused
       (Z.max (lu_internal (upd_last_unused u)) (lu_internal (upd_last_unused following)))
       (Z.max (lu_external (upd_last_unused u)) (lu_external (upd_last_unused following)))).

(** ** Encoding *)

Definition encode_secrets (s : TxOutSecrets) : bytes :=
  sec_asset s ++ ext_ser (asset_bf s) ++ emit_u64 (sec_value s) ++ ext_ser (value_bf s).

(** [from_slice(..).expect("bytes length is 32")]: 32 bytes that are not a scalar panic. *)
Definition decode_factor : PReader Tweak :=
  inner <~ pr_lift (read_exact 32);;
  match ext_parse inner with
  | Some t => pr_ret t
  | None => pr_panic
  end.

Definition decode_secrets : PReader TxOutSecrets :=
  asset <~ pr_lift (read_exact 32);;
  abf <~ decode_factor;;
  value <~ pr_lift read_u64;;
  vbf <~ decode_factor;;
  pr_ret (mkSecrets asset abf value vbf).

Definition encode_unblind (x : OutPoint * TxOutSecrets) : bytes :=
  encode_OutPoint x.1 ++ encode_secrets x.2.
Definition decode_unblind : PReader (OutPoint * TxOutSecrets) :=
  o <~ pr_lift decode_OutPoint;; s <~ decode_secrets;; pr_ret (o, s).

(** Transaction ids are not written: they are computed again. *)
Definition decode_downloaded : PReader (Txid * Transaction) :=
  tx <~ pr_lift decode_Transaction;; pr_ret (tx_txid tx, tx).

Definition encode_download (d : DownloadTxResult) : bytes :=
  encode_counted (fun x => encode_Transaction x.2) (txs d) ++ encode_counted encode_unblind (unblinds d).
Definition decode_download : PReader DownloadTxResult :=
  txs <~ decode_loop decode_downloaded;;
  unblinds <~ decode_loop decode_unblind;;
  pr_ret (mkDownload txs unblinds).

Definition encode_txid_height (x : Txid * option Height) : bytes :=
  x.1 ++ emit_u32 (default u32_max x.2).
Definition decode_txid_height : PReader (Txid * option Height) :=
  txid <~ pr_lift (read_exact 32);;
  h <~ pr_lift read_u32;;
  pr_ret (txid, if h =? u32_max then None else Some h).

Definition encode_timestamp (x : Height * Z) : bytes := emit_u32 x.1 ++ emit_u32 x.2.
Definition decode_timestamp : PReader (Height * Z) :=
  h <~ pr_lift read_u32;; t <~ pr_lift read_u32;; pr_ret (h, t).

Definition no_pubkey : bytes := replicate 33 Byte.x00.

Definition encode_script_entry (v : Z) (x : ScriptEntry) : bytes :=
  let '(chain, child_number, script, blinding_pubkey) := x in
  encode_vec_u8 script ++
  emit_u8 (match chain with External => 0 | Internal => 1 end) ++
  emit_u32 (child_to_u32 child_number) ++
  (if 2 <=? v then match blinding_pubkey with Some k => ext_ser k | None => no_pubkey end else []).

Definition decode_chain : Reader Chain :=
  c <<- read_u8;;
  if c =? 0 then rd_ret External else if c =? 1 then rd_ret Internal
  else rd_fail (ParseFailed "Invalid chain").

Definition decode_blinding_pubkey : Reader (option PublicKey) :=
  bs <<- read_exact 33;;
  if bool_decide (bs = no_pubkey) then rd_ret None
  else k <<- rd_lift (ext_parse bs) Secp256k1;; rd_ret (Some k).

Definition decode_script_entry (v : Z) : Reader ScriptEntry :=
  script <<- decode_vec_u8;;
  chain <<- decode_chain;;
  child <<- read_u32;;
  blinding_pubkey <<- (if 2 <=? v then decode_blinding_pubkey else rd_ret None);;
  rd_ret (chain, child_from_u32 child, script, blinding_pubkey).

Definition UPDATE_MAGIC_BYTES : bytes := [Byte.x89; Byte.x61; Byte.xb8; Byte.xc8].

Definition encode_last_unused (l : LastUnused) : bytes := emit_u32 (lu_external l) ++ emit_u32 (lu_internal l).

(** [Update::consensus_encode], [Update::serialize]; [None]: the tip has no anchor. *)
Definition encode_Update (u : Update) : option bytes :=
  tip ← encode_BlockHeader (upd_tip u);
  Some (UPDATE_MAGIC_BYTES ++ emit_u8 (upd_version u) ++
        (if 1 <=? upd_version u then emit_u64 (wollet_status u) else []) ++
        encode_download (new_txs u) ++
        encode_counted encode_txid_height (txid_height_new u) ++
        encode_counted id (txid_height_delete u) ++
        encode_counted encode_timestamp (timestamps u) ++
        encode_counted (encode_script_entry (upd_version u)) (scripts_with_blinding_pubkey u) ++
        tip ++
        (if 3 <=? upd_version u then encode_counted encode_OutPoint (upd_unspent u) else []) ++
        (if 4 <=? upd_version u then encode_last_unused (upd_last_unused u) else [])).

(** [Update::consensus_decode], [Update::deserialize]; bytes after the update are ignored. *)
Definition decode_Update : PReader Update :=
  magic_bytes <~ pr_lift (read_exact 4);;
  if bool_decide (magic_bytes <> UPDATE_MAGIC_BYTES)
  then pr_lift (rd_fail (ParseFailed "Invalid magic bytes"))
  else
    version <~ pr_lift read_u8;;
    if 4 <? version then pr_lift (rd_fail (ParseFailed "Unsupported version"))
    else
      wollet_status <~ (if 1 <=? version then pr_lift read_u64 else pr_ret 0);;
      new_txs <~ decode_download;;
      txid_height_new <~ decode_counted size_of_TxidHeight decode_txid_height;;
      txid_height_delete <~ decode_counted size_of_Txid (pr_lift (read_exact 32));;
      timestamps <~ decode_counted size_of_HeightTimestamp decode_timestamp;;
      scripts_with_blinding_pubkey <~ decode_counted size_of_ScriptEntry (pr_lift (decode_script_entry version));;
      tip <~ pr_lift decode_BlockHeader;;
      unspent <~ (if 3 <=? version then decode_counted size_of_OutPoint (pr_lift decode_OutPoint)
                  else pr_ret []);;
      last_unused <~ (if 4 <=? version
                      then external <~ pr_lift read_u32;; internal <~ pr_lift read_u32;;
                           pr_ret (mkLastUnused internal external)
                      else pr_ret LastUnused_default);;
      pr_ret (mkUpdate version wollet_status new_txs txid_height_new txid_height_delete timestamps
                scripts_with_blinding_pubkey tip unspent last_unused).

Definition Update_deserialize (bs : bytes) : option (result Update encode_error) :=
  match decode_Update bs with
  | None => None
  | Some (Err e) => Some (Err e)
  | Some (Ok (u, _)) => Some (Ok u)
  end.
End Update.

Section UpdateCodec.
Context {P : Platform} {S : Secp} {H : Hashes} {A : Heap}.

(** ** Well-formed updates: what survives a round trip *)

Definition secrets_wf (s : TxOutSecrets) : Prop := hash_wf (sec_asset s) /\ is_u64 (sec_value s).

Definition download_wf (d : DownloadTxResult) : Prop :=
  (Forall (fun x => Transaction_wf x.2 /\ x.1 = tx_txid x.2) (txs d) /\ zlen (txs d) < 2 ^ 64) /\
  (Forall (fun x => OutPoint_wf x.1 /\ secrets_wf x.2) (unblinds d) /\ zlen (unblinds d) < 2 ^ 64).

Definition txid_height_wf (x : bytes * option Z) : Prop :=
  hash_wf x.1 /\ from_option (fun h => is_u32 h /\ h <> u32_max) True x.2.

Definition timestamp_wf (x : Z * Z) : Prop := is_u32 x.1 /\ is_u32 x.2.

Definition script_entry_wf (v : Z) (x : Chain * ChildNumber * Script * option PublicKey) : Prop :=
  let '(_, child, script, k) := x in vec_u8_wf script /\ child_wf child /\ (v < 2 -> k = None).

Definition fits {T} (size : Z) (l : list T) : Prop := zlen l * size <= alloc_limit.

Definition Update_wf (u : Update) : Prop :=
  0 <= upd_version u <= 4 /\
  is_u64 (wollet_status u) /\ (upd_version u < 1 -> wollet_status u = 0) /\
  download_wf (new_txs u) /\
  (Forall txid_height_wf (txid_height_new u) /\ fits size_of_TxidHeight (txid_height_new u)) /\
  (Forall hash_wf (txid_height_delete u) /\ fits size_of_Txid (txid_height_delete u)) /\
  (Forall timestamp_wf (timestamps u) /\ fits size_of_HeightTimestamp (timestamps u)) /\
  (Forall (script_entry_wf (upd_version u)) (scripts_with_blinding_pubkey u) /\
   fits size_of_ScriptEntry (scripts_with_blinding_pubkey u)) /\
  BlockHeader_wf (upd_tip u) /\
  (if 3 <=? upd_version u then Forall OutPoint_wf (upd_unspent u) /\ fits size_of_OutPoint (upd_unspent u)
   else upd_unspent u = []) /\
  (if 4 <=? upd_version u
   then is_u32 (lu_external (upd_last_unused u)) /\ is_u32 (lu_internal (upd_last_unused u))
   else upd_last_unused u = LastUnused_default).

(** ** The parts *)

Lemma child_roundtrip c : child_wf c -> child_from_u32 (child_to_u32 c) = c.
Proof.
  unfold child_from_u32. change 0x80000000 with (2 ^ 31). destruct c as [i|i]; simpl; intros Hi.
  - change 2147483648 with (2 ^ 31). rewrite land_pow2, Z.div_small by lia. done.
  - change 2147483648 with (2 ^ 31). rewrite lor_below_pow2 by lia. rewrite land_pow2 by lia.
    replace ((i + 2 ^ 31) / 2 ^ 31) with 1 by (apply Z.div_unique with i; lia). simpl. f_equal.
    rewrite <-lor_below_pow2 by lia. apply Z.bits_inj'. intros n Hn.
    change 2147483648 with (2 ^ 31). rewrite Z.lxor_spec, Z.lor_spec, Z.pow2_bits_eqb by lia.
    destruct (Z.eqb_spec 31 n) as [<-|]; [|by rewrite orb_false_r, xorb_false_r].
    rewrite orb_true_r. cbn [xorb]. symmetry. apply Z.bits_above_log2; [lia|].
    destruct (decide (i = 0)) as [->|]; [done|]. apply Z.log2_lt_pow2; lia.
Qed.

Lemma child_from_u32_wf n : is_u32 n -> child_wf (child_from_u32 n) /\ child_to_u32 (child_from_u32 n) = n.
Proof.
  intros Hn. assert (Hh : exists h b, n = h + (if b : bool then 2 ^ 31 else 0) /\ 0 <= h < 2 ^ 31).
  { exists (n mod 2 ^ 31), (bool_decide (2 ^ 31 <= n)). pose proof (Z.mod_pos_bound n (2 ^ 31)).
    split; [|lia]. pose proof (Z.div_mod n (2 ^ 31)). case_bool_decide.
    - replace (n / 2 ^ 31) with 1 in * by (apply Z.div_unique with (n - 2 ^ 31); lia). lia.
    - rewrite Z.mod_small by lia. lia. }
  destruct Hh as (h & [] & -> & Hh).
  - assert (E : h + 2 ^ 31 = child_to_u32 (Hardened h)).
    { simpl. change 2147483648 with (2 ^ 31). by rewrite lor_below_pow2. }
    rewrite E, child_roundtrip by done. done.
  - rewrite Z.add_0_r. pose proof (child_roundtrip (Normal h) Hh) as E. simpl in E. by rewrite E.
Qed.

Lemma factor_codec : pcodec ext_ser decode_factor (fun _ => True).
Proof.
  unfold decode_factor. split.
  - intros t rest _. unfold pr_bind, pr_lift. rewrite read_exact_app by apply tweak_format.
    by rewrite ext_parse_ser.
  - intros bs t rest (inner & mid & [= Hi] & E)%pr_bind_ok.
    apply read_exact_ok in Hi as [_ ->]. destruct (ext_parse inner) eqn:Ei; [|done].
    apply pr_ret_ok in E as [-> ->]. split; [done|]. by rewrite (tweak_strict _ _ Ei).
Qed.

Lemma secrets_codec : pcodec encode_secrets decode_secrets secrets_wf.
Proof.
  unfold encode_secrets, decode_secrets, secrets_wf. split.
  - intros [a ab v vb] rest [Ha Hv]. simpl in *. rewrite <-!app_assoc.
    rewrite (pcodec_step (pcodec_lift (array_codec 32))), (pcodec_step factor_codec),
      (pcodec_step (pcodec_lift u64_codec)) by done.
    rewrite (pcodec_step factor_codec) by done. done.
  - intros bs s rest E.
    pcodec_inv E with (pcodec_lift (array_codec 32)) as a Ha. pcodec_inv E with factor_codec as ab Hab.
    pcodec_inv E with (pcodec_lift u64_codec) as v Hv. pcodec_inv E with factor_codec as vb Hvb.
    apply pr_ret_ok in E as [<- <-]. simpl. by rewrite <-!app_assoc.
Qed.

Lemma unblind_codec :
  pcodec encode_unblind decode_unblind (fun x => OutPoint_wf x.1 /\ secrets_wf x.2).
Proof.
  unfold encode_unblind, decode_unblind. split.
  - intros [o s] rest [Ho Hs]. simpl in *. rewrite <-app_assoc.
    rewrite (pcodec_step (pcodec_lift OutPoint_codec)), (pcodec_step secrets_codec) by done. done.
  - intros bs x rest E. pcodec_inv E with (pcodec_lift OutPoint_codec) as o Ho.
    pcodec_inv E with secrets_codec as s Hs. apply pr_ret_ok in E as [<- <-]. by rewrite <-app_assoc.
Qed.

Lemma downloaded_codec :
  pcodec (fun x => encode_Transaction x.2) decode_downloaded
    (fun x => Transaction_wf x.2 /\ x.1 = tx_txid x.2).
Proof.
  unfold decode_downloaded. split.
  - intros [t tx] rest [Hw Ht]. simpl in *. subst t.
    by rewrite (pcodec_step (pcodec_lift Transaction_codec)).
  - intros bs x rest E. pcodec_inv E with (pcodec_lift Transaction_codec) as tx Htx.
    by apply pr_ret_ok in E as [<- <-].
Qed.

Lemma download_codec : pcodec encode_download decode_download download_wf.
Proof.
  unfold encode_download, decode_download, download_wf. split.
  - intros [t u] rest [Ht Hu]. simpl in *. rewrite <-app_assoc.
    rewrite (pcodec_step (loop_codec downloaded_codec)), (pcodec_step (loop_codec unblind_codec)) by done.
    done.
  - intros bs d rest E. pcodec_inv E with (loop_codec downloaded_codec) as t Ht.
    pcodec_inv E with (loop_codec unblind_codec) as u Hu. apply pr_ret_ok in E as [<- <-].
    by rewrite <-app_assoc.
Qed.

Lemma txid_height_codec : pcodec encode_txid_height decode_txid_height txid_height_wf.
Proof.
  unfold encode_txid_height, decode_txid_height, txid_height_wf. split.
  - intros [t h] rest [Ht Hh]. simpl in *. rewrite <-app_assoc.
    rewrite (pcodec_step (pcodec_lift (array_codec 32))) by done.
    rewrite (pcodec_step (pcodec_lift u32_codec)) by (destruct h; simpl in *; [tauto|unfold u32_max; lia]).
    destruct h as [h|]; simpl in *; [|done]. destruct (Z.eqb_spec h u32_max); [naive_solver|done].
  - intros bs x rest E. pcodec_inv E with (pcodec_lift (array_codec 32)) as t Ht.
    pcodec_inv E with (pcodec_lift u32_codec) as h Hh. apply pr_ret_ok in E as [<- <-]. simpl.
    rewrite <-app_assoc. destruct (Z.eqb_spec h u32_max) as [->|]; done.
Qed.

Lemma timestamp_codec : pcodec encode_timestamp decode_timestamp timestamp_wf.
Proof.
  unfold encode_timestamp, decode_timestamp, timestamp_wf. split.
  - intros [h t] rest [Hh Ht]. simpl in *. rewrite <-app_assoc.
    by rewrite !(pcodec_step (pcodec_lift u32_codec)) by done.
  - intros bs x rest E. pcodec_inv E with (pcodec_lift u32_codec) as h Hh.
    pcodec_inv E with (pcodec_lift u32_codec) as t Ht. apply pr_ret_ok in E as [<- <-].
    by rewrite <-app_assoc.
Qed.

Lemma no_pubkey_ne (k : PublicKey) : ext_ser k <> no_pubkey.
Proof.
  destruct (pubkey_format k) as (_ & p & l & -> & Hp). intros [= -> _]. destruct Hp; done.
Qed.

Lemma blinding_pubkey_codec :
  codec_ok (fun o : option PublicKey => match o with Some k => ext_ser k | None => no_pubkey end)
    decode_blinding_pubkey (fun _ => True).
Proof.
  unfold decode_blinding_pubkey. split.
  - intros [k|] rest _; unfold rd_bind.
    + rewrite read_exact_app by apply pubkey_format.
      rewrite bool_decide_eq_false_2 by apply no_pubkey_ne. unfold rd_lift. by rewrite ext_parse_ser.
    + by rewrite read_exact_app.
  - intros bs o rest (b & mid & Hb & E)%rd_bind_ok. apply read_exact_ok in Hb as [Hl ->].
    case_bool_decide as Hn; [by apply rd_ret_ok in E as [<- <-]; subst|].
    apply rd_bind_ok in E as (k & mid' & Hk & E). apply rd_lift_ok in Hk as [Hk <-].
    apply rd_ret_ok in E as [<- <-]. by rewrite (pubkey_strict _ _ Hl Hk).
Qed.

Lemma chain_codec :
  codec_ok (fun c => emit_u8 (match c with External => 0 | Internal => 1 end)) decode_chain (fun _ => True).
Proof.
  unfold decode_chain. split.
  - intros [] rest _; rewrite (codec_step u8_codec) by lia; done.
  - intros bs c rest E. codec_inv E with u8_codec as n Hn.
    destruct (Z.eqb_spec n 0) as [->|]; [by apply rd_ret_ok in E as [<- <-]|].
    destruct (Z.eqb_spec n 1) as [->|]; [by apply rd_ret_ok in E as [<- <-]|done].
Qed.

Lemma script_entry_codec v :
  codec_ok (encode_script_entry v) (decode_script_entry v) (script_entry_wf v).
Proof.
  unfold encode_script_entry, decode_script_entry, script_entry_wf. split.
  - intros [[[c n] s] k] rest (Hs & Hn & Hk). rewrite <-!app_assoc.
    rewrite (codec_step vec_u8_codec), (codec_step chain_codec) by done.
    rewrite (codec_step u32_codec).
    2:{ destruct n; simpl in *; [lia|]. change 2147483648 with (2 ^ 31). rewrite lor_below_pow2; lia. }
    rewrite child_roundtrip by done. destruct (Z.leb_spec 2 v) as [|Hv].
    + by rewrite (codec_step blinding_pubkey_codec).
    + by rewrite (Hk Hv).
  - intros bs [[[c n] s] k] rest E. codec_inv E with vec_u8_codec as s' Hs.
    codec_inv E with chain_codec as c' Hc. codec_inv E with u32_codec as n' Hn.
    destruct (child_from_u32_wf n' Hn) as [Hw Hn']. apply rd_bind_ok in E as (k' & mid' & Hk & E).
    apply rd_ret_ok in E as [[= <- <- <- <-] <-]. rewrite Hn'. destruct (Z.leb_spec 2 v).
    + apply (codec_canonical blinding_pubkey_codec) in Hk as [_ ->]. rewrite <-!app_assoc.
      split; [|done]. split_and!; [done|done|lia].
    + apply rd_ret_ok in Hk as [<- <-]. rewrite <-!app_assoc. done.
Qed.
Lemma header_codec :
  pcodec (fun h => default [] (encode_BlockHeader h)) (pr_lift decode_BlockHeader) BlockHeader_wf.
Proof.
  apply pcodec_lift. split.
  - intros h rest Hh. destruct (encode_BlockHeader_total h Hh) as [b Eb]. rewrite Eb.
    by apply decode_encode_BlockHeader.
  - intros bs h rest E. apply BlockHeader_canonical in E as (Hwf & hb & Eh & ->). by rewrite Eh.
Qed.

(** A field that only some versions carry. *)
Lemma optional_codec {T} (b : bool) (enc : T -> bytes) dec wf d :
  pcodec enc dec wf ->
  pcodec (fun x => if b then enc x else []) (if b then dec else pr_ret d)
    (fun x => if b then wf x else x = d).
Proof.
  intros Hc. destruct b; [done|]. split.
  - by intros x rest ->.
  - intros bs x rest [<- <-]%pr_ret_ok. done.
Qed.

Lemma last_unused_codec :
  pcodec encode_last_unused
    (external <~ pr_lift read_u32;; internal <~ pr_lift read_u32;; pr_ret (mkLastUnused internal external))
    (fun l => is_u32 (lu_external l) /\ is_u32 (lu_internal l)).
Proof.
  unfold encode_last_unused. split.
  - intros [i e] rest [He Hi]. simpl in *. rewrite <-app_assoc.
    by rewrite !(pcodec_step (pcodec_lift u32_codec)) by done.
  - intros bs l rest E. pcodec_inv E with (pcodec_lift u32_codec) as e He.
    pcodec_inv E with (pcodec_lift u32_codec) as i Hi. apply pr_ret_ok in E as [<- <-].
    by rewrite <-app_assoc.
Qed.

Lemma size_pos s :
  s ∈ [size_of_TxidHeight; size_of_Txid; size_of_HeightTimestamp; size_of_ScriptEntry; size_of_OutPoint] ->
  1 <= s.
Proof. intros Hs. pose proof sizes_pos as Hp. rewrite Forall_forall in Hp. apply Hp in Hs. lia. Qed.

Lemma heights_codec :
  pcodec (encode_counted encode_txid_height) (decode_counted size_of_TxidHeight decode_txid_height)
    (fun l => Forall txid_height_wf l /\ fits size_of_TxidHeight l).
Proof. apply counted_codec; [apply size_pos; set_solver|apply txid_height_codec]. Qed.

Lemma txids_codec :
  pcodec (encode_counted id) (decode_counted size_of_Txid (pr_lift (read_exact 32)))
    (fun l => Forall hash_wf l /\ fits size_of_Txid l).
Proof. apply counted_codec; [apply size_pos; set_solver|exact (pcodec_lift (array_codec 32))]. Qed.

Lemma timestamps_codec :
  pcodec (encode_counted encode_timestamp) (decode_counted size_of_HeightTimestamp decode_timestamp)
    (fun l => Forall timestamp_wf l /\ fits size_of_HeightTimestamp l).
Proof. apply counted_codec; [apply size_pos; set_solver|apply timestamp_codec]. Qed.

Lemma scripts_codec v :
  pcodec (encode_counted (encode_script_entry v))
    (decode_counted size_of_ScriptEntry (pr_lift (decode_script_entry v)))
    (fun l => Forall (script_entry_wf v) l /\ fits size_of_ScriptEntry l).
Proof. apply counted_codec; [apply size_pos; set_solver|apply pcodec_lift, script_entry_codec]. Qed.

Lemma unspent_codec :
  pcodec (encode_counted encode_OutPoint) (decode_counted size_of_OutPoint (pr_lift decode_OutPoint))
    (fun l => Forall OutPoint_wf l /\ fits size_of_OutPoint l).
Proof. apply counted_codec; [apply size_pos; set_solver|apply pcodec_lift, OutPoint_codec]. Qed.

Lemma encode_Update_total u : BlockHeader_wf (upd_tip u) -> is_Some (encode_Update u).
Proof.
  intros Hh. destruct (encode_BlockHeader_total _ Hh) as [b Eb]. unfold encode_Update.
  rewrite Eb. by eexists.
Qed.

Lemma decode_encode_Update u e rest :
  Update_wf u -> encode_Update u = Some e -> decode_Update (e ++ rest) = Some (Ok (u, rest)).
Proof.
  intros (Hv & Hs & Hs0 & Hd & Hn & Hx & Ht & Hsc & Hh & Hu & Hl).
  unfold encode_Update. intros (tip & Etip & <-%(inj Some))%bind_Some.
  unfold decode_Update. rewrite <-!app_assoc.
  rewrite (pcodec_step (pcodec_lift (array_codec 4))) by done.
  rewrite bool_decide_eq_false_2 by (intros []; done).
  rewrite (pcodec_step (pcodec_lift u8_codec)) by lia.
  destruct (Z.ltb_spec 4 (upd_version u)); [lia|].
  rewrite (pcodec_step (optional_codec _ emit_u64 _ _ 0 (pcodec_lift u64_codec)));
    [|destruct (Z.leb_spec 1 (upd_version u)); auto].
  rewrite (pcodec_step download_codec), (pcodec_step heights_codec), (pcodec_step txids_codec),
    (pcodec_step timestamps_codec), (pcodec_step (scripts_codec (upd_version u))) by done.
  pose proof (pcodec_step (B := Update) header_codec) as Hstep. 
  replace tip with (default [] (encode_BlockHeader (upd_tip u))) by by rewrite Etip.
  rewrite Hstep by done. clear Hstep.
  rewrite (pcodec_step (optional_codec _ _ _ _ [] unspent_codec)) by done.
  rewrite (pcodec_step (optional_codec _ _ _ _ LastUnused_default last_unused_codec)) by done.
  by destruct u.
Qed.

Lemma Update_canonical bs u rest :
  decode_Update bs = Some (Ok (u, rest)) ->
  Update_wf u /\ exists e, encode_Update u = Some e /\ bs = e ++ rest.
Proof.
  unfold decode_Update. intros E.
  pcodec_inv E with (pcodec_lift (array_codec 4)) as m Hm.
  case_bool_decide as Em; [done|]. subst m.
  pcodec_inv E with (pcodec_lift u8_codec) as v Hv.
  destruct (Z.ltb_spec 4 v); [done|].
  pcodec_inv E with (optional_codec (1 <=? v) emit_u64 _ _ 0 (pcodec_lift u64_codec)) as st Hst.
  pcodec_inv E with download_codec as d Hd. pcodec_inv E with heights_codec as n Hn.
  pcodec_inv E with txids_codec as x Hx. pcodec_inv E with timestamps_codec as t Ht.
  pcodec_inv E with (scripts_codec v) as sc Hsc. pcodec_inv E with header_codec as h Hh.
  pcodec_inv E with (optional_codec (3 <=? v) _ _ _ [] unspent_codec) as us Hus.
  pcodec_inv E with (optional_codec (4 <=? v) _ _ _ LastUnused_default last_unused_codec) as lu Hlu.
  apply pr_ret_ok in E as [<- <-]. split.
  - unfold Update_wf. cbn [upd_version wollet_status new_txs txid_height_new txid_height_delete timestamps
      scripts_with_blinding_pubkey upd_tip upd_unspent upd_last_unused].
    split_and!; try done; try lia; try tauto.
    + destruct (Z.leb_spec 1 v); lia.
    + destruct (Z.leb_spec 1 v); lia.
    + destruct (Z.leb_spec 1 v); lia.
  - destruct (encode_BlockHeader_total h Hh) as [b Eb]. unfold encode_Update.
    cbn [upd_version wollet_status new_txs txid_height_new txid_height_delete timestamps
      scripts_with_blinding_pubkey upd_tip upd_unspent upd_last_unused]. rewrite Eb.
    eexists. split; [done|]. simpl default. by rewrite <-!app_assoc.
Qed.

(** ** Claims *)

(** The decoder of wallet updates accepts exactly the encodings of well-formed updates
    of the five versions, and returns the update that was encoded and what follows it:
    an update that was written is read back unchanged, and no update has two encodings. *)
Theorem update_decode_iff bs u rest :
  decode_Update bs = Some (Ok (u, rest)) <->
  Update_wf u /\ exists e, encode_Update u = Some e /\ bs = e ++ rest.
Proof.
  split; [apply Update_canonical|].
  intros (Hwf & e & He & ->). by apply decode_encode_Update.
Qed.

(** The beginning of an update of the current version. *)
Definition v4_prefix (st : Z) : bytes := UPDATE_MAGIC_BYTES ++ emit_u8 4 ++ emit_u64 st.

Lemma decode_v4_prefix st tail :
  is_u64 st ->
  decode_Update (v4_prefix st ++ tail) =
    (new_txs <~ decode_download;;
     txid_height_new <~ decode_counted size_of_TxidHeight decode_txid_height;;
     txid_height_delete <~ decode_counted size_of_Txid (pr_lift (read_exact 32));;
     timestamps <~ decode_counted size_of_HeightTimestamp decode_timestamp;;
     scripts <~ decode_counted size_of_ScriptEntry (pr_lift (decode_script_entry 4));;
     tip <~ pr_lift decode_BlockHeader;;
     unspent <~ decode_counted size_of_OutPoint (pr_lift decode_OutPoint);;
     last_unused <~ (external <~ pr_lift read_u32;; internal <~ pr_lift read_u32;;
                     pr_ret (mkLastUnused internal external));;
     pr_ret (mkUpdate 4 st new_txs txid_height_new txid_height_delete timestamps
               scripts tip unspent last_unused)) tail.
Proof.
  intros Hst. unfold decode_Update, v4_prefix. rewrite <-!app_assoc.
  rewrite (pcodec_step (pcodec_lift (array_codec 4))) by done.
  rewrite bool_decide_eq_false_2 by (intros []; done).
  rewrite (pcodec_step (pcodec_lift u8_codec)) by lia. cbv beta.
  change (4 <? 4) with false. change (1 <=? 4) with true. change (3 <=? 4) with true.
  change (4 <=? 4) with true. cbv iota. by rewrite (pcodec_step (pcodec_lift u64_codec)).
Qed.

(** The decoder of updates is not total on untrusted bytes.  After a valid prefix, a
    count of transaction heights that no memory can hold ends the process before a
    single element is read, whatever follows; and so does a 32-byte blinding factor that is not a scalar
    of the curve: neither is reported as an error. *)
Theorem update_decode_panics st rest :
  is_u64 st ->
  decode_Update (v4_prefix st ++ emit_varint 0 ++ emit_varint 0 ++ emit_varint u64_max ++ rest) = None /\
  forall o asset bf, OutPoint_wf o -> hash_wf asset -> length bf = 32%nat -> @ext_parse Tweak bf = None ->
    decode_Update (v4_prefix st ++ emit_varint 0 ++ emit_varint 1 ++ encode_OutPoint o ++ asset ++ bf ++ rest)
      = None.
Proof.
  intros Hst. split.
  - rewrite decode_v4_prefix by done.
    replace (emit_varint 0 ++ emit_varint 0 ++ emit_varint u64_max ++ rest)
      with (encode_download (mkDownload [] []) ++ emit_varint u64_max ++ rest) by done.
    rewrite (pcodec_step download_codec) by (by repeat split; try constructor).
    unfold decode_counted. unfold pr_bind at 1.
    rewrite (pcodec_step (pcodec_lift varint_codec)) by (unfold u64_max; lia).
    destruct (Z.leb_spec (u64_max * size_of_TxidHeight) alloc_limit); [|done].
    pose proof alloc_limit_range. assert (1 <= size_of_TxidHeight) by (apply size_pos; set_solver).
    unfold u64_max in *. nia.
  - intros o asset bf Ho Ha Hb Hp. rewrite decode_v4_prefix by done. unfold decode_download.
    unfold pr_bind at 1.
    replace (emit_varint 0 ++ emit_varint 1 ++ encode_OutPoint o ++ asset ++ bf ++ rest)
      with (encode_counted (fun x : bytes * Transaction => encode_Transaction x.2) [] ++ emit_varint 1 ++ encode_OutPoint o ++ asset ++ bf ++ rest) by done.
    rewrite (pcodec_step (loop_codec downloaded_codec)) by (by split).
    unfold decode_loop. unfold pr_bind at 1. unfold pr_bind at 1. unfold pr_lift at 1.
    rewrite (codec_decode varint_codec) by lia. change (Z.to_nat 1) with 1%nat. cbn [pr_n].
    unfold decode_unblind. unfold pr_bind at 1. unfold pr_bind at 1. unfold pr_lift at 1.
    rewrite (codec_decode OutPoint_codec) by done. unfold decode_secrets. unfold pr_bind at 1. unfold pr_bind at 1.
    unfold pr_lift at 1. rewrite (codec_decode (array_codec 32)) by done.
    unfold decode_factor. unfold pr_bind at 1. unfold pr_bind at 1. unfold pr_lift at 1.
    rewrite read_exact_app by done. by rewrite Hp.
Qed.
End UpdateCodec.

(** ** Samples *)

Module UpdateSample.
Import TxSample SighashSample.

(** A process that can reserve 16 MiB, on a 64-bit machine. *)
Program Definition Heap_model : Heap :=
  {| alloc_limit := 2 ^ 24;
     size_of_TxidHeight := 40; size_of_Txid := 32; size_of_HeightTimestamp := 8;
     size_of_ScriptEntry := 96; size_of_OutPoint := 36 |}.
Next Obligation. lia. Qed.
Next Obligation. repeat constructor; lia. Qed.
#[export] Existing Instance Heap_model.

Definition sample_outpoint : OutPoint := mkOutPoint (replicate 32 Byte.x07) 1.

Lemma update_decode_panics_witness :
  is_u64 5 /\
  decode_Update (v4_prefix 5 ++ emit_varint 0 ++ emit_varint 0 ++ emit_varint u64_max ++ []) = None /\
  decode_Update (v4_prefix 5 ++ emit_varint 0 ++ emit_varint 1 ++ encode_OutPoint sample_outpoint ++
                 replicate 32 Byte.x01 ++ replicate 32 Byte.xff ++ []) = None.
Proof.
  split; [done|]. destruct (update_decode_panics 5 [] ltac:(done)) as [H1 H2]. split; [exact H1|].
  by apply H2.
Defined.
End UpdateSample.
