(* ===== verification/Cache.v ===== *)
(** * The wallet cache

    [lwk_wollet/src/cache.rs]: the data of the wallet and the operations that change
    it.  The transaction store is a [Store] on a world that is passed along.  The
    unspent outputs are kept incrementally; [utxo_set] recomputes them from scratch,
    and is what the incremental computation is measured against.

    A hash map is a [gmap]; where the source iterates over one, the order is that of
    [map_to_list], and nothing observable depends on it. *)

From S2P Require Import Prelude Order Encode Hex Script Confidential Transaction Sighash Store Block Update.

(** [Err] of the wallet crate, by the cause. *)
Inductive wollet_error : Type :=
| StoreError (e : store_error)
| EncodeError (e : encode_error)
| UpdateOnDifferentStatus (wollet_status update_status : Z)
| UpdateHeightTooOld (update_tip_height cache_tip_height : Z)
| ScriptNotMine
| MissingTransaction
| DescriptorError
| UtxoOnlyIncompatible
| Generic (msg : string).

(** [serde_json] on a list of strings: what is written is read back. *)
Class JsonStrings :=
  { json_to_vec : list bytes -> bytes;
    json_from_slice : bytes -> option (list bytes);
    json_roundtrip l : json_from_slice (json_to_vec l) = Some l }.

Section Cache.
Context {P : Platform} {S : Secp} {H : Hashes} {J : JsonStrings}.
Context {W : Type} (txs_store : Store W).

Abbreviation Txid := bytes (only parsing).
Abbreviation Height := Z (only parsing).

Record Cache := mkWCache
  { txids : gset Txid;
    paths : gmap Script (Chain * ChildNumber);
    scripts : gmap (Chain * ChildNumber) (Script * option PublicKey);
    heights : gmap Txid (option Height);
    sorted_txids : list Txid;
    unspent : gmap OutPoint Script;
    unblinded : gmap OutPoint TxOutSecrets;
    tip : Height * bytes;
    cache_timestamps : gmap Height Z;
    last_unused_external : Z;
    last_unused_internal : Z }.

Definition Cache_default : Cache := mkWCache ∅ ∅ ∅ ∅ [] ∅ ∅ (0, zero_hash) ∅ 0 0.

Definition set_txids (c : Cache) (x : gset Txid) : Cache :=
  mkWCache x (paths c) (scripts c) (heights c) (sorted_txids c) (unspent c) (unblinded c) (tip c)
    (cache_timestamps c) (last_unused_external c) (last_unused_internal c).
Definition set_heights (c : Cache) (x : gmap Txid (option Height)) : Cache :=
  mkWCache (txids c) (paths c) (scripts c) x (sorted_txids c) (unspent c) (unblinded c) (tip c)
    (cache_timestamps c) (last_unused_external c) (last_unused_internal c).
Definition set_sorted (c : Cache) (x : list Txid) : Cache :=
  mkWCache (txids c) (paths c) (scripts c) (heights c) x (unspent c) (unblinded c) (tip c)
    (cache_timestamps c) (last_unused_external c) (last_unused_internal c).
Definition set_unspent (c : Cache) (x : gmap OutPoint Script) : Cache :=
  mkWCache (txids c) (paths c) (scripts c) (heights c) (sorted_txids c) x (unblinded c) (tip c)
    (cache_timestamps c) (last_unused_external c) (last_unused_internal c).

(** ** The transaction store *)

(** [Txid]'s [Display]: reversed hexadecimal. *)
Definition txid_display (t : Txid) : bytes := to_hex (rev t).
Definition txid_parse (s : bytes) : option Txid :=
  l ← ok_opt (from_hex_array 32 s); Some (rev l).

Definition TXIDS_KEY : bytes := str "wollet:txids".
Definition tx_key (t : Txid) : bytes := str "wollet:tx:" ++ txid_display t.

(** [Cache::tx].  A [Txid] has 32 bytes: other byte strings name no transaction. *)
Definition cache_tx (w : W) (t : Txid) : option Transaction :=
  if decide (length t = 32%nat) then
    match get txs_store (tx_key t) w with
    | Ok (Some b) => ok_opt (deserialize b)
    | _ => None
    end
  else None.

Definition tx_as_fallback (w : W) (t : Txid) (new_txs : list (Txid * Transaction)) : option Transaction :=
  match list_find (fun x => x.1 = t) new_txs with
  | Some (_, (_, tx)) => Some tx
  | None => cache_tx w t
  end.

(** [extend_all_txs]: every transaction is stored, then the list of the ids. *)
Fixpoint put_txs (l : list (Txid * Transaction)) (c : Cache) (w : W) : result unit wollet_error * Cache * W :=
  match l with
  | [] => (Ok tt, c, w)
  | (t, tx) :: l =>
      match put txs_store (tx_key t) (encode_Transaction tx) w with
      | (Err e, w) => (Err (StoreError e), c, w)
      | (Ok _, w) => put_txs l (set_txids c ({[t]} ∪ txids c)) w
      end
  end.

Definition extend_all_txs (l : list (Txid * Transaction)) (c : Cache) (w : W)
  : result unit wollet_error * Cache * W :=
  match put_txs l c w with
  | (Err e, c, w) => (Err e, c, w)
  | (Ok _, c, w) =>
      if is_empty l then (Ok tt, c, w)
      else match put txs_store TXIDS_KEY (json_to_vec (map txid_display (elements (txids c)))) w with
           | (Err e, w) => (Err (StoreError e), c, w)
           | (Ok _, w) => (Ok tt, c, w)
           end
  end.

(** [add_txids_from_txs_store]. *)
Definition stored_txids (w : W) : list Txid :=
  match get txs_store TXIDS_KEY w with
  | Ok (Some b) => omap txid_parse (default [] (json_from_slice b))
  | _ => []
  end.

Definition add_txids_from_txs_store (c : Cache) (w : W) : Cache :=
  set_txids c (txids c ∪ list_to_set (stored_txids w)).

(** ** Heights and order *)

Definition update_heights (c : Cache) (new : list (Txid * option Height)) (to_delete : list Txid) : Cache :=
  set_heights c (extend (base.filter (fun '(k, _) => k ∉ to_delete) (heights c)) new).

(** The order of the transaction list: unconfirmed first, then by decreasing height,
    then by decreasing id. *)
Definition sort_height (hs : gmap Txid (option Height)) (t : Txid) : Z := default u32_max (mjoin (hs !! t)).

Definition txid_cmp (hs : gmap Txid (option Height)) : Txid -> Txid -> comparison :=
  then_with (cmp_rev (cmp_by (sort_height hs) Z.compare)) (cmp_rev bytes_cmp).

Definition rebuild_sorted_txids (c : Cache) : Cache :=
  set_sorted c (sort_by (txid_cmp (heights c)) ((map_to_list (heights c)).*1)).

(** ** Unspent outputs *)

Definition outpoint_script (look : Txid -> option Transaction) (o : OutPoint) : option Script :=
  tx ← look (txid o); out ← output tx !! Z.to_nat (vout o); Some (script_pubkey out).

(** The outpoints a transaction spends. *)
Definition prevouts (tx : Transaction) : list OutPoint := map previous_output (input tx).

(** An output of the wallet, with its script: unblinded, and to a known script. *)
Definition own_script (c : Cache) (look : Txid -> option Transaction) (o : OutPoint) : option Script :=
  s ← outpoint_script look o;
  if decide (is_Some (paths c !! s)) then Some s else None.

Definition with_script (c : Cache) (look : Txid -> option Transaction) (o : OutPoint)
  : option (OutPoint * Script) :=
  s ← own_script c look o; Some (o, s).

(** The inputs of the transactions with the given ids, as far as they are known. *)
Definition inputs_of (look : Txid -> option Transaction) (l : list Txid) : list OutPoint :=
  concat (map prevouts (omap look l)).

Definition update_unspent (c : Cache) (look : Txid -> option Transaction)
    (txid_height_new : list (Txid * option Height)) (deleted_txids : list Txid) : Cache :=
  let txids_new := txid_height_new.*1 in
  let outputs_new :=
    omap (with_script c look)
      (base.filter (fun o => txid o ∈ txids_new) ((map_to_list (unblinded c)).*1)) in
  let inputs_new := inputs_of look txids_new in
  let inputs_to_restore :=
    omap (with_script c look)
      (base.filter (fun o => is_Some (unblinded c !! o)) (inputs_of look deleted_txids)) in
  let unspent := extend (extend (unspent c) outputs_new) inputs_to_restore in
  let unspent := base.filter (fun '(o, _) => o ∉ inputs_new) unspent in
  set_unspent c (base.filter (fun '(o, _) => txid o ∉ deleted_txids) unspent).

Definition update_unspent_utxos_only (c : Cache) (look : Txid -> option Transaction)
    (l : list OutPoint) : Cache :=
  set_unspent c (extend ∅ (omap (fun o =>
    s ← (match unspent c !! o with Some s => Some s | None => outpoint_script look o end);
    Some (o, s)) l)).

(** [Cache::update]. *)
Definition cache_update (txid_height_new : list (Txid * option Height)) (deleted_txids : list Txid)
    (new_txs : list (Txid * Transaction)) (utxo_only : bool) (l : list OutPoint) (c : Cache) (w : W)
  : result unit wollet_error * Cache * W :=
  match extend_all_txs new_txs c w with
  | (Err e, c, w) => (Err e, c, w)
  | (Ok _, c, w) =>
      let c := rebuild_sorted_txids (update_heights c txid_height_new deleted_txids) in
      let look t := tx_as_fallback w t new_txs in
      (Ok tt,
       if utxo_only then update_unspent_utxos_only c look l
       else update_unspent c look txid_height_new deleted_txids, w)
  end.

(** ** The unspent outputs, from scratch

    All that matters of a transaction here is its shape: the outpoints it spends and
    the scripts it pays to.  A ledger gives the shape of the known transactions. *)

Definition shape (tx : Transaction) : list OutPoint * list Script :=
  (prevouts tx, script_pubkey <$> output tx).

Abbreviation Ledger := (Txid -> option (list OutPoint * list Script)).

Definition ledger_of (look : Txid -> option Transaction) : Ledger := fun t => shape <$> look t.

(** The outpoints spent by a list of transactions. *)
Definition spent (L : Ledger) (l : list Txid) : list OutPoint := concat (map fst (omap L l)).

(** The script of an output, when the output is the wallet's. *)
Definition own (c : Cache) (L : Ledger) (o : OutPoint) : option Script :=
  if decide (is_Some (unblinded c !! o)) then
    x ← L (txid o); s ← x.2 !! Z.to_nat (vout o);
    if decide (is_Some (paths c !! s)) then Some s else None
  else None.

(** The wallet's transactions: those with a height, confirmed or not. *)
Definition live (c : Cache) : list Txid := (map_to_list (heights c)).*1.

(** The wallet's outputs in live transactions that no live transaction spends. *)
Definition utxo_set (c : Cache) (L : Ledger) : gmap OutPoint Script :=
  map_imap (fun o _ => if decide (txid o ∈ live c /\ o ∉ spent L (live c)) then own c L o else None)
    (unblinded c).

Lemma elem_of_live c t : t ∈ live c <-> is_Some (heights c !! t).
Proof.
  unfold live. rewrite list_elem_of_fmap. split.
  - intros ([k v] & -> & E%elem_of_map_to_list). by eexists.
  - intros [v E]. exists (t, v). split; [done|]. by apply elem_of_map_to_list.
Qed.

Lemma elem_of_spent L l o : o ∈ spent L l <-> exists t x, t ∈ l /\ L t = Some x /\ o ∈ x.1.
Proof.
  unfold spent. rewrite elem_of_concat_map. setoid_rewrite list_elem_of_omap. naive_solver.
Qed.

Lemma lookup_utxo_set c L o s :
  utxo_set c L !! o = Some s <-> txid o ∈ live c /\ o ∉ spent L (live c) /\ own c L o = Some s.
Proof.
  unfold utxo_set. rewrite map_lookup_imap. unfold own.
  destruct (unblinded c !! o) as [x|] eqn:E; simpl.
  - case_decide; naive_solver.
  - naive_solver.
Qed.

(** The code looks at whole transactions; the result depends on their shapes only. *)
Lemma inputs_of_spent look l : inputs_of look l = spent (ledger_of look) l.
Proof.
  unfold inputs_of, spent, ledger_of. f_equal.
  induction l as [|t l IH]; simpl; [done|]. destruct (look t); simpl; [f_equal|]; exact IH.
Qed.

Lemma outpoint_script_ledger look o :
  outpoint_script look o = x ← ledger_of look (txid o); x.2 !! Z.to_nat (vout o).
Proof.
  unfold outpoint_script, ledger_of. destruct (look (txid o)) as [tx|]; simpl; [|done].
  rewrite list_lookup_fmap. by destruct (output tx !! Z.to_nat (vout o)).
Qed.

Lemma own_script_own c look o :
  is_Some (unblinded c !! o) -> own_script c look o = own c (ledger_of look) o.
Proof.
  intros Hu. unfold own_script, own. rewrite decide_True by done. rewrite outpoint_script_ledger.
  by destruct (ledger_of look (txid o)).
Qed.

Lemma elem_of_with_script c look (l : list OutPoint) o s :
  (forall x, x ∈ l -> is_Some (unblinded c !! x)) ->
  (o, s) ∈ omap (with_script c look) l <-> o ∈ l /\ own c (ledger_of look) o = Some s.
Proof.
  intros Hl. rewrite list_elem_of_omap. unfold with_script. split.
  - intros (x & Hx & (s' & Es & [= <- <-])%bind_Some). rewrite own_script_own in Es by auto. done.
  - intros [Ho E]. exists o. split; [done|]. rewrite own_script_own by auto. by rewrite E.
Qed.

(** One extension by outputs of the wallet. *)
Lemma extend_with_script c look (l : list OutPoint) (m : gmap OutPoint Script) o :
  (forall x, x ∈ l -> is_Some (unblinded c !! x)) ->
  extend m (omap (with_script c look) l) !! o =
    match own c (ledger_of look) o with
    | Some s => if decide (o ∈ l) then Some s else m !! o
    | None => m !! o
    end.
Proof.
  intros Hl. pose proof (elem_of_with_script c look l o) as He.
  destruct (own c (ledger_of look) o) as [s|] eqn:Es.
  - rewrite (extend_lookup_functional _ _ _ s).
    + assert (Hi : o ∈ (omap (with_script c look) l).*1 <-> o ∈ l).
      { rewrite list_elem_of_fmap. split.
        - intros ([o' s'] & -> & Hin). by apply elem_of_with_script in Hin as [Hin _].
        - intros Ho. exists (o, s). split; [done|]. by apply He. }
      repeat case_decide; tauto.
    + intros s' Hs'. apply He in Hs'; [|done]. naive_solver.
  - rewrite lookup_extend. destruct (extend ∅ _ !! o) eqn:E; [|done].
    apply lookup_extend_empty, He in E; [|done]. naive_solver.
Qed.

Lemma elem_of_keys {V} (m : gmap OutPoint V) o : o ∈ (map_to_list m).*1 <-> is_Some (m !! o).
Proof.
  rewrite list_elem_of_fmap. split.
  - intros ([k v] & -> & E%elem_of_map_to_list). by eexists.
  - intros [v E]. exists (o, v). split; [done|]. by apply elem_of_map_to_list.
Qed.

(** What the incremental update does to each outpoint. *)
Lemma update_unspent_lookup c look new del o :
  unspent (update_unspent c look new del) !! o =
    if decide (o ∈ spent (ledger_of look) new.*1) then None
    else if decide (txid o ∈ del) then None
    else match own c (ledger_of look) o with
         | Some s => if decide (txid o ∈ new.*1 \/ o ∈ spent (ledger_of look) del) then Some s
                     else unspent c !! o
         | None => unspent c !! o
         end.
Proof.
  unfold update_unspent. cbn [unspent set_unspent].
  rewrite !map_lookup_filter, !inputs_of_spent.
  rewrite extend_with_script.
  2:{ intros x Hx. by apply list_elem_of_filter in Hx as [? _]. }
  rewrite extend_with_script.
  2:{ intros x Hx. apply list_elem_of_filter in Hx as [_ Hx]. by apply elem_of_keys. }
  pose proof (list_elem_of_filter (fun o => txid o ∈ new.*1) (map_to_list (unblinded c)).*1 o) as Hn.
  pose proof (list_elem_of_filter (fun o => is_Some (unblinded c !! o)) (spent (ledger_of look) del) o) as Hd.
  rewrite elem_of_keys in Hn.
  assert (Hu : is_Some (own c (ledger_of look) o) -> is_Some (unblinded c !! o)).
  { unfold own. case_decide; [done|]. by intros []. }
  destruct (own c (ledger_of look) o) as [s|]; [specialize (Hu ltac:(eauto))|clear Hu];
    destruct (unspent c !! o); repeat case_decide; simpl; repeat case_guard; simpl; repeat case_guard;
    simpl; tauto || done.
Qed.

(** ** When the incremental computation is right *)

(** Nothing that was known is forgotten. *)
Record grows (c0 c1 : Cache) (L0 L1 : Ledger) : Prop :=
  { grow_ledger t x : L0 t = Some x -> L1 t = Some x;
    grow_unblinded o : is_Some (unblinded c0 !! o) -> is_Some (unblinded c1 !! o);
    grow_paths s : is_Some (paths c0 !! s) -> is_Some (paths c1 !! s) }.

(** A live transaction that the update does not mention. *)
Definition kept (c0 : Cache) (new del : list Txid) (t : Txid) : Prop :=
  t ∈ live c0 /\ t ∉ del /\ t ∉ new.

(** An update is coherent when no transaction is both announced and deleted,
    announced transactions are known, nothing new is learnt about the outputs of the
    transactions it does not mention, none of those spends an output of an announced
    transaction or an input of a deleted one, and the parents of a deleted
    transaction are accounted for. *)
Record coherent (c0 c1 : Cache) (L0 L1 : Ledger) (new del : list Txid) : Prop :=
  { coh_disjoint t : t ∈ new -> t ∉ del;
    coh_known t : t ∈ new -> is_Some (L1 t);
    coh_quiet o s : kept c0 new del (txid o) -> own c1 L1 o = Some s -> own c0 L0 o = Some s;
    coh_children t x o : kept c0 new del t -> L1 t = Some x -> o ∈ x.1 -> txid o ∈ new ->
      own c1 L1 o = None;
    coh_conflicts t x o : kept c0 new del t -> L1 t = Some x -> o ∈ x.1 -> o ∈ spent L1 del ->
      txid o ∉ del -> own c1 L1 o = None;
    coh_parents o : o ∈ spent L1 del -> is_Some (own c1 L1 o) ->
      txid o ∈ del \/ txid o ∈ new \/ txid o ∈ live c0 }.

Lemma own_grows c0 c1 L0 L1 o s :
  grows c0 c1 L0 L1 -> own c0 L0 o = Some s -> own c1 L1 o = Some s.
Proof.
  intros [Gl Gu Gp]. unfold own. case_decide as Hu; [|done].
  intros (x & Ex & (s' & Es & E)%bind_Some)%bind_Some.
  case_decide as Hp; [|done]. injection E as ->.
  rewrite decide_True by auto. rewrite (Gl _ _ Ex). simpl. rewrite Es. simpl.
  by rewrite decide_True by auto.
Qed.

Lemma live_update c new del t :
  t ∈ live (update_heights c new del) <-> t ∈ new.*1 \/ (t ∈ live c /\ t ∉ del).
Proof.
  rewrite !elem_of_live. unfold update_heights. cbn [heights set_heights].
  rewrite extend_lookup_is_Some, map_lookup_filter. destruct (heights c !! t) as [h|]; simpl.
  - case_guard; simpl; naive_solver.
  - naive_solver.
Qed.

(** Under these conditions the incremental update computes the unspent outputs of the
    new state. *)
Lemma update_unspent_refines c0 c1 L0 look new del :
  unspent c0 = utxo_set c0 L0 -> (forall t, t ∈ live c0 -> is_Some (L0 t)) ->
  unspent c1 = unspent c0 -> heights c1 = heights (update_heights c0 new del) ->
  grows c0 c1 L0 (ledger_of look) -> coherent c0 c1 L0 (ledger_of look) new.*1 del ->
  unspent (update_unspent c1 look new del) = utxo_set c1 (ledger_of look).
Proof.
  intros Hu Hk Hc1 Hh G C. set (L1 := ledger_of look) in *.
  assert (Hlive : forall t, t ∈ live c1 <-> t ∈ new.*1 \/ (t ∈ live c0 /\ t ∉ del)).
  { intros t. rewrite <-live_update. unfold live. by rewrite Hh. }
  assert (Hold : forall o s, unspent c1 !! o = Some s <->
    txid o ∈ live c0 /\ o ∉ spent L0 (live c0) /\ own c0 L0 o = Some s).
  { intros o s. rewrite Hc1, Hu. apply lookup_utxo_set. }
  (* an outpoint spent by a live transaction of the old state *)
  assert (Hsp : forall o, o ∈ spent L0 (live c0) <->
    exists t x, t ∈ live c0 /\ L1 t = Some x /\ o ∈ x.1).
  { intros o. rewrite elem_of_spent. split; intros (t & x & Ht & Ex & Ho); exists t, x.
    - split_and!; [done|by apply G|done].
    - destruct (Hk t Ht) as [y Ey]. pose proof (grow_ledger _ _ _ _ G _ _ Ey). naive_solver. }
  assert (Hnew : forall o, o ∉ spent L1 new.*1 -> o ∉ spent L0 (live c0) -> o ∉ spent L1 (live c1)).
  { intros o Hn Ho (t & x & Ht & Ex & Hx)%elem_of_spent. apply Hlive in Ht as [Ht|[Ht _]].
    - apply Hn, elem_of_spent. eauto.
    - apply Ho, Hsp. eauto. }
  apply map_eq. intros o. apply option_eq. intros s. rewrite lookup_utxo_set, update_unspent_lookup.
  fold L1. split.
  - case_decide as Hin; [done|]. case_decide as Hdel; [done|].
    destruct (own c1 L1 o) as [s'|] eqn:Eo; [case_decide as Hcase|].
    + intros [= ->]. destruct Hcase as [Hcase|Hcase].
      * split_and!; [apply Hlive; by left| |done].
        intros (t & x & Ht & Ex & Hx)%elem_of_spent.
        destruct (decide (t ∈ new.*1)); [by apply Hin, elem_of_spent; eauto|].
        apply Hlive in Ht as [|[Ht Htd]]; [done|].
        pose proof (coh_children _ _ _ _ _ _ C t x o). unfold kept in *. naive_solver.
      * split_and!; [| |done].
        { apply Hlive. destruct (coh_parents _ _ _ _ _ _ C o); naive_solver. }
        intros (t & x & Ht & Ex & Hx)%elem_of_spent.
        destruct (decide (t ∈ new.*1)); [by apply Hin, elem_of_spent; eauto|].
        apply Hlive in Ht as [|[Ht Htd]]; [done|].
        pose proof (coh_conflicts _ _ _ _ _ _ C t x o). unfold kept in *. naive_solver.
    + intros (Hl & Hs & Ho)%Hold. apply (own_grows _ _ _ _ _ _ G) in Ho as Ho'. fold L1 in Ho'.
      split_and!; [apply Hlive; by right|by apply Hnew|naive_solver].
    + intros (Hl & Hs & Ho)%Hold. apply (own_grows _ _ _ _ _ _ G) in Ho. naive_solver.
  - intros (Hl & Hns & Eo). rewrite decide_False.
    2:{ intros (t & x & Ht & Ex & Hx)%elem_of_spent. apply Hns, elem_of_spent.
        exists t, x. split_and!; [apply Hlive; by left|done|done]. }
    apply Hlive in Hl as Hl'. rewrite decide_False by (destruct Hl'; [by apply (coh_disjoint _ _ _ _ _ _ C)|tauto]).
    rewrite Eo. case_decide as Hcase; [done|]. apply Decidable.not_or in Hcase as [Hnn Hnd].
    destruct Hl' as [|[Hl0 Hd0]]; [done|]. apply Hold. split_and!; [done| |].
    + intros (t & x & Ht & Ex & Hx)%Hsp. destruct (decide (t ∈ del)) as [Htd|Htd].
      * apply Hnd, elem_of_spent. eauto.
      * apply Hns, elem_of_spent. exists t, x. split_and!; [apply Hlive; by right|done|done].
    + apply (coh_quiet _ _ _ _ _ _ C); [by split_and!|done].
Qed.
End Cache.

(** ** The transactions in the store *)

Lemma tx_key_inj a b : tx_key a = tx_key b -> a = b.
Proof.
  unfold tx_key, txid_display. intros E%(app_inv_head (str "wollet:tx:")).
  apply to_hex_inj in E. rewrite <-(rev_involutive a), E. apply rev_involutive.
Qed.

Lemma tx_key_ne t : tx_key t <> TXIDS_KEY.
Proof.
  intros E. assert (Hp : take 10 (tx_key t) = str "wollet:tx:") by reflexivity.
  rewrite E in Hp. discriminate Hp.
Qed.

Section CacheStore.
Context {P : Platform} {S : Secp} {H : Hashes} {J : JsonStrings}.
Context {W : Type} (st : Store W) (K V : bytes -> Prop) (wf : W -> Prop) (view : W -> bytes -> option bytes).
Context (L : store_laws st K V wf view).
Context (Ktx : forall t, hash_wf t -> K (tx_key t)) (Kids : K TXIDS_KEY).

Lemma cache_tx_view w t :
  wf w -> cache_tx st w t =
    if decide (length t = 32%nat) then b ← view w (tx_key t); ok_opt (deserialize b) else None.
Proof using Ktx L.
  intros Hw. unfold cache_tx. case_decide as Ht; [|done]. rewrite (law_get L) by auto.
  by destruct (view w (tx_key t)).
Qed.

(** After storing a list of transactions, the last one under an id is found. *)
Lemma put_txs_ok l c w c' w' :
  put_txs st l c w = (Ok tt, c', w') -> wf w -> Forall (fun x => hash_wf x.1) l ->
  wf w' /\ c' = set_txids c (list_to_set l.*1 ∪ txids c) /\
  (forall t, hash_wf t -> view w' (tx_key t) =
     match (extend ∅ l : gmap bytes Transaction) !! t with
     | Some tx => Some (encode_Transaction tx)
     | None => view w (tx_key t)
     end).
Proof using Ktx L.
  intros Hput Hw Hl. revert c w Hput Hw. induction Hl as [|[t tx] l Ht Hl IH]; intros c w; cbn [put_txs].
  - intros [= <- <-] Hw. split_and!; [done| |done].
    destruct c. unfold set_txids. simpl. f_equal. clear. set_solver.
  - destruct (put st (tx_key t) (encode_Transaction tx) w) as [[[]|e] w1] eqn:E1; [|done].
    intros Hput Hw. destruct (law_put L _ _ _ _ _ Hw (Ktx t Ht) E1) as [Hw1 Hv1]. simpl in Hv1.
    apply IH in Hput as (Hw' & -> & Hv'); [|done]. split_and!; [done| |].
    + unfold set_txids. simpl. f_equal. clear. set_solver.
    + intros t' Ht'. rewrite Hv' by done. rewrite extend_cons, (lookup_extend (<[t:=tx]> ∅)).
      destruct ((extend ∅ l : gmap bytes Transaction) !! t'); [done|].
      rewrite Hv1 by (by apply Ktx). unfold upd_view. destruct (decide (t = t')) as [->|Hne].
      * rewrite decide_True by done. by rewrite lookup_insert_eq.
      * rewrite decide_False by (intros ->%tx_key_inj; done). by rewrite lookup_insert_ne, lookup_empty.
Qed.

Lemma extend_all_txs_ok l c w c' w' :
  extend_all_txs st l c w = (Ok tt, c', w') -> wf w -> Forall (fun x => hash_wf x.1) l ->
  wf w' /\ c' = set_txids c (list_to_set l.*1 ∪ txids c) /\
  (forall t, hash_wf t -> view w' (tx_key t) =
     match (extend ∅ l : gmap bytes Transaction) !! t with
     | Some tx => Some (encode_Transaction tx)
     | None => view w (tx_key t)
     end).
Proof using Kids Ktx L.
  unfold extend_all_txs. destruct (put_txs st l c w) as [[[[]|e] c1] w1] eqn:E1; [|done].
  intros Hrun Hw Hl. destruct (put_txs_ok l c w c1 w1 E1 Hw Hl) as (Hw1 & -> & Hv1).
  destruct (is_empty l); [by injection Hrun as <- <-|].
  destruct (put st TXIDS_KEY _ w1) as [[[]|e] w2] eqn:E2; [|done]. injection Hrun as <- <-.
  destruct (law_put L _ _ _ _ _ Hw1 Kids E2) as [Hw2 Hv2]. split_and!; [done|done|].
  intros t Ht. rewrite Hv2 by auto. simpl. unfold upd_view.
  rewrite decide_False by apply tx_key_ne. by apply Hv1.
Qed.

(** The transactions of an update can be stored and read back, and agree with each
    other and with what is stored on what an id spends and pays. *)
Record txs_agree (l : list (bytes * Transaction)) (w : W) : Prop :=
  { agree_wf t tx : (t, tx) ∈ l -> hash_wf t /\ Transaction_wf tx;
    agree_new t tx tx' : (t, tx) ∈ l -> (t, tx') ∈ l -> shape tx = shape tx';
    agree_old t tx tx' : (t, tx) ∈ l -> cache_tx st w t = Some tx' -> shape tx = shape tx' }.

Lemma stored_lookup l c w c' w' :
  extend_all_txs st l c w = (Ok tt, c', w') -> wf w -> txs_agree l w ->
  forall t, cache_tx st w' t = match (extend ∅ l : gmap bytes Transaction) !! t with
                               | Some tx => Some tx
                               | None => cache_tx st w t
                               end.
Proof using Kids Ktx L.
  intros Hrun Hw A t.
  assert (Hl : Forall (fun x => hash_wf x.1) l).
  { apply Forall_forall. intros [t' tx'] Hin. by apply A in Hin as [? _]. }
  destruct (extend_all_txs_ok l c w c' w' Hrun Hw Hl) as (Hw' & _ & Hv).
  rewrite !cache_tx_view by done. case_decide as Ht.
  - rewrite Hv by done. destruct (extend ∅ l !! t) as [tx|] eqn:Ex; [|done]. simpl.
    apply lookup_extend_empty, A in Ex as [_ Hwf].
    by rewrite (proj2 (deserialize_ok (encode_Transaction tx) tx)).
  - destruct (extend ∅ l !! t) as [tx|] eqn:Ex; [|done].
    apply lookup_extend_empty, A in Ex as [Hwf _]. done.
Qed.

(** The ledger after storing: old shapes are kept, and looking in the new
    transactions first makes no difference. *)
Lemma stored_ledger l c w c' w' :
  extend_all_txs st l c w = (Ok tt, c', w') -> wf w -> txs_agree l w ->
  (forall t x, ledger_of (cache_tx st w) t = Some x -> ledger_of (cache_tx st w') t = Some x) /\
  (forall t, ledger_of (fun t => tx_as_fallback st w' t l) t = ledger_of (cache_tx st w') t).
Proof using Kids Ktx L.
  intros Hrun Hw A. pose proof (stored_lookup l c w c' w' Hrun Hw A) as Hs. unfold ledger_of. split.
  - intros t x. rewrite Hs. destruct (cache_tx st w t) as [tx0|] eqn:E0; simpl; [|done]. intros [= <-].
    destruct (extend ∅ l !! t) as [tx|] eqn:Ex; simpl; [|done]. f_equal.
    apply lookup_extend_empty in Ex. by apply (agree_old _ _ A t).
  - intros t. unfold tx_as_fallback. destruct (list_find _ l) as [[i [t' tx]]|] eqn:Ef; [|done].
    apply list_find_Some in Ef as (Hi & Et & _). simpl in Et. subst t'.
    apply list_elem_of_lookup_2 in Hi. rewrite Hs.
    destruct (extend ∅ l !! t) as [tx'|] eqn:Ex.
    + simpl. f_equal. apply lookup_extend_empty in Ex. by apply (agree_new _ _ A t).
    + exfalso. apply eq_None_not_Some in Ex. apply Ex, extend_lookup_is_Some. left.
      apply list_elem_of_fmap. by exists (t, tx).
Qed.
End CacheStore.

Lemma file_path_colon key : contains key ":" = true -> exists e, file_path key = Err e.
Proof.
  intros Hc. unfold file_path. do 3 (case_match; [by eexists|]).
  rewrite Hc. rewrite !orb_true_r. by eexists.
Qed.

(** A [FileStore] that is not wrapped for encryption cannot hold the wallet's
    transactions: the keys of the transactions, and of the list of their ids, contain a
    colon, which the store refuses in a file name, so storing the first transaction of an
    update always fails and leaves the store and the list of ids as they were. *)
Theorem plain_file_store_rejects_txs `{Platform} `{Secp} `{Hashes} `{JsonStrings} t tx l c dir :
  (exists e, extend_all_txs (arc_dyn file_store) ((t, tx) :: l) c dir = (Err (StoreError e), c, dir)) /\
  exists e, put (arc_dyn file_store) TXIDS_KEY [] dir = (Err e, dir).
Proof.
  assert (Hput : forall k v, contains k ":" = true -> exists e, put (arc_dyn file_store) k v dir = (Err e, dir)).
  { intros k v Hk. cbn [put arc_dyn]. destruct (utf8_valid k); [|by eexists].
    cbn [put file_store]. unfold file_put. destruct (file_path_colon k Hk) as [e ->]. by eexists. }
  split; [|by apply Hput].
  destruct (Hput (tx_key t) (encode_Transaction tx)) as [e He]; [done|].
  exists e. unfold extend_all_txs. cbn [put_txs]. by rewrite He.
Qed.
