(* ===== verification/Address.v ===== *)
(** * Addresses and output scripts

    The output templates of [rust-elements/src/script.rs] ([is_p2pkh], [is_p2sh], the
    witness programs) and [Address] of [rust-elements/src/address.rs]: its payload, the
    script it stands for and the address of a script.  The text forms are not here. *)

From S2P Require Import Prelude Encode Script.

(** ** Templates *)

(** [self.0[i]]; every use is behind a length test. *)
Definition byte_at (s : Script) (i : nat) : Z := b2z (nth i s Byte.x00).

Definition is_p2sh (s : Script) : bool :=
  (length s =? 23)%nat && (byte_at s 0 =? OP_HASH160) && (byte_at s 1 =? OP_PUSHBYTES_20) &&
  (byte_at s 22 =? OP_EQUAL).

Definition is_p2pkh (s : Script) : bool :=
  (length s =? 25)%nat && (byte_at s 0 =? OP_DUP) && (byte_at s 1 =? OP_HASH160) &&
  (byte_at s 2 =? OP_PUSHBYTES_20) && (byte_at s 23 =? OP_EQUALVERIFY) && (byte_at s 24 =? OP_CHECKSIG).

Definition is_p2pk (s : Script) : bool :=
  ((length s =? 67)%nat && (byte_at s 0 =? OP_PUSHBYTES_65) && (byte_at s 66 =? OP_CHECKSIG)) ||
  ((length s =? 35)%nat && (byte_at s 0 =? OP_PUSHBYTES_33) && (byte_at s 34 =? OP_CHECKSIG)).

Definition is_witness_program (s : Script) : bool :=
  (4 <=? length s)%nat && (length s <=? 42)%nat &&
  ((byte_at s 0 =? 0) || ((OP_PUSHNUM_1 <=? byte_at s 0) && (byte_at s 0 <=? OP_PUSHNUM_16))) &&
  (OP_PUSHBYTES_2 <=? byte_at s 1) && (byte_at s 1 <=? OP_PUSHBYTES_40) &&
  (Z.of_nat (length s - 2) =? byte_at s 1).

Definition is_v0_p2wsh (s : Script) : bool :=
  (length s =? 34)%nat && (byte_at s 0 =? OP_PUSHBYTES_0) && (byte_at s 1 =? OP_PUSHBYTES_32).

Definition is_v1_p2tr (s : Script) : bool :=
  (length s =? 34)%nat && (byte_at s 0 =? OP_PUSHNUM_1) && (byte_at s 1 =? OP_PUSHBYTES_32).

Definition is_v1plus_p2witprog (s : Script) : bool :=
  (1 <? length s)%nat && (Z.of_nat (length s) =? byte_at s 1 + 2) &&
  (OP_PUSHNUM_1 <=? byte_at s 0) && (byte_at s 0 <=? OP_PUSHNUM_16) && (byte_at s 1 <=? OP_PUSHBYTES_40).

Definition is_v0_p2wpkh (s : Script) : bool :=
  (length s =? 22)%nat && (byte_at s 0 =? OP_PUSHBYTES_0) && (byte_at s 1 =? OP_PUSHBYTES_20).

Definition is_op_return (s : Script) : bool :=
  negb (length s =? 0)%nat && (byte_at s 0 =? OP_RETURN).

Definition MAX_SCRIPT_SIZE : Z := 10000.

Definition is_provably_unspendable (s : Script) : bool :=
  is_op_return s || (MAX_SCRIPT_SIZE <? zlen s) || (length s =? 0)%nat.

(** ** Builders; [None]: a push of 2^32 bytes or more, or the version assertion *)

Definition new_p2pkh (h : bytes) : option Script :=
  b ← push_slice h (push_opcode OP_HASH160 (push_opcode OP_DUP Builder_new));
  Some (into_script (push_opcode OP_CHECKSIG (push_opcode OP_EQUALVERIFY b))).

Definition new_p2sh (h : bytes) : option Script :=
  b ← push_slice h (push_opcode OP_HASH160 Builder_new);
  Some (into_script (push_opcode OP_EQUAL b)).

Definition new_witness_program (ver : Z) (program : bytes) : option Script :=
  if 16 <? ver then None
  else
    let verop := if 0 <? ver then ver + 0x50 else ver in
    b ← push_slice program (push_opcode verop Builder_new);
    Some (into_script b).

Definition new_op_return (data : bytes) : option Script :=
  b ← push_slice data (push_opcode OP_RETURN Builder_new); Some (into_script b).

(** ** Addresses *)

Record AddressParams := mkParams
  { p2pkh_prefix : Z;
    p2sh_prefix : Z;
    blinded_prefix : Z;
    bech_hrp : string;
    blech_hrp : string }.

Definition LIQUID : AddressParams := mkParams 57 39 12 "ex" "lq".
Definition ELEMENTS : AddressParams := mkParams 235 75 4 "ert" "el".
Definition LIQUID_TESTNET : AddressParams := mkParams 36 19 23 "tex" "tlq".
Definition SEQUENTIA_TESTNET : AddressParams := mkParams 111 196 70 "tb" "tsqb".

Inductive Payload : Type :=
| PubkeyHash (h : bytes)
| ScriptHash (h : bytes)
| WitnessProgram (version : Z) (program : bytes).

Section Address.
Context {S : Secp}.

Record Address := mkAddress
  { params : AddressParams;
    payload : Payload;
    blinding_pubkey : option PublicKey }.

(** [bytes[a..b]], within bounds where it is used. *)
Definition slice (a b : nat) (l : bytes) : bytes := take (b - a) (drop a l).

Definition payload_of_script (s : Script) : option Payload :=
  if is_p2pkh s then Some (PubkeyHash (slice 3 23 s))
  else if is_p2sh s then Some (ScriptHash (slice 2 22 s))
  else if is_v0_p2wpkh s then Some (WitnessProgram 0 (slice 2 22 s))
  else if is_v0_p2wsh s then Some (WitnessProgram 0 (slice 2 34 s))
  else if is_v1plus_p2witprog s then Some (WitnessProgram (byte_at s 0 - 0x50) (drop 2 s))
  else None.

Definition from_script (s : Script) (blinder : option PublicKey) (params : AddressParams) : option Address :=
  p ← payload_of_script s; Some (mkAddress params p blinder).

Definition payload_script (p : Payload) : option Script :=
  match p with
  | PubkeyHash h => new_p2pkh h
  | ScriptHash h => new_p2sh h
  | WitnessProgram witver witprog =>
      b ← push_int witver Builder_new;
      b ← push_slice witprog b;
      Some (into_script b)
  end.

Definition address_script_pubkey (a : Address) : option Script := payload_script (payload a).

Definition to_unconfidential (a : Address) : Address := mkAddress (params a) (payload a) None.
Definition to_confidential (a : Address) (k : PublicKey) : Address := mkAddress (params a) (payload a) (Some k).
Definition is_blinded (a : Address) : bool := bool_decide (is_Some (blinding_pubkey a)).
End Address.

(** ** A payload and its script determine each other *)

(** The payloads of standard outputs. *)
Definition payload_wf (p : Payload) : Prop :=
  match p with
  | PubkeyHash h | ScriptHash h => length h = 20%nat
  | WitnessProgram v w =>
      (v = 0 /\ (length w = 20%nat \/ length w = 32%nat)) \/ (1 <= v <= 16 /\ (length w <= 40)%nat)
  end.

Definition payload_bytes (p : Payload) : bytes :=
  match p with
  | PubkeyHash h => [z2b OP_DUP; z2b OP_HASH160; z2b 20] ++ h ++ [z2b OP_EQUALVERIFY; z2b OP_CHECKSIG]
  | ScriptHash h => [z2b OP_HASH160; z2b 20] ++ h ++ [z2b OP_EQUAL]
  | WitnessProgram v w => [z2b (if v =? 0 then 0 else v + 0x50); z2b (zlen w)] ++ w
  end.

Lemma push_slice_small d b :
  (length d < 76)%nat -> push_slice d b = Some (mkBuilder (b_script b ++ [z2b (zlen d)] ++ d) None).
Proof.
  intros Hd. unfold push_slice, push_prefix, zlen.
  destruct (Z.ltb_spec (Z.of_nat (length d)) OP_PUSHDATA1) as [|Hlt]; [done|]. unfold OP_PUSHDATA1 in Hlt. lia.
Qed.

Lemma payload_script_bytes p : payload_wf p -> payload_script p = Some (payload_bytes p).
Proof.
  destruct p as [h|h|v w]; simpl; intros Hp.
  - unfold new_p2pkh. rewrite push_slice_small by lia. unfold zlen. rewrite Hp. simpl.
    by rewrite <-app_assoc.
  - unfold new_p2sh. rewrite push_slice_small by lia. unfold zlen. rewrite Hp. done.
  - unfold push_int.
    destruct Hp as [[-> Hw]|[Hv Hw]].
    + simpl. rewrite push_slice_small by (destruct Hw; lia). done.
    + destruct (Z.leb_spec 1 v); [|lia]. destruct (Z.leb_spec v 16); [|lia].
      destruct (Z.eqb_spec v (-1)); [lia|]. destruct (Z.eqb_spec v 0); [lia|]. simpl.
      rewrite push_slice_small by lia. simpl. unfold wrap_u8, OP_TRUE, OP_PUSHNUM_1.
      rewrite Z.mod_small by lia. do 2 f_equal. f_equal. lia.
Qed.

Lemma b2z_eqb b c : is_u8 c -> (b2z b =? c) = true -> b = z2b c.
Proof. intros Hc E%Z.eqb_eq. apply b2z_inj. by rewrite b2z_z2b_small. Qed.

(** Take a script of known length apart. *)
Ltac spell s := repeat (destruct s as [|? s]; [done|]); destruct s; [|done].

Tactic Notation "spell_n" integer(n) ident(s) hyp(E) :=
  do n (destruct s as [|? s]; [discriminate E|]); destruct s; [clear E|discriminate E].

(** Read the fixed bytes off the tests. *)
Ltac fixed :=
  repeat match goal with
         | E : _ && _ = true |- _ => apply andb_prop in E as [? ?]
         end;
  unfold byte_at in *; simpl nth in *;
  repeat match goal with
         | E : (b2z ?b =? ?c) = true |- _ => apply (b2z_eqb b c) in E; [subst b|done]
         end.

Lemma template_bytes s p : payload_of_script s = Some p -> payload_wf p /\ s = payload_bytes p.
Proof.
  unfold payload_of_script.
  destruct (is_p2pkh s) eqn:E1; [|destruct (is_p2sh s) eqn:E2; [|destruct (is_v0_p2wpkh s) eqn:E3;
    [|destruct (is_v0_p2wsh s) eqn:E4; [|destruct (is_v1plus_p2witprog s) eqn:E5; [|done]]]]];
    intros [= <-].
  - unfold is_p2pkh in E1. fixed. spell s. fixed. done.
  - unfold is_p2sh in E2. fixed. spell s. fixed. done.
  - unfold is_v0_p2wpkh in E3. fixed. spell s. fixed. split; [by left; auto|done].
  - unfold is_v0_p2wsh in E4. fixed. spell s. fixed. split; [by left; auto|done].
  - unfold is_v1plus_p2witprog in E5. destruct s as [|a [|l w]]; [done|done|].
    repeat match goal with E : _ && _ = true |- _ => apply andb_prop in E as [E ?] end.
    unfold byte_at in *. cbn [nth drop length] in *.
    repeat match goal with
           | E : (_ <=? _) = true |- _ => apply Z.leb_le in E
           | E : (_ =? _) = true |- _ => apply Z.eqb_eq in E
           end.
    unfold OP_PUSHNUM_1, OP_PUSHNUM_16, OP_PUSHBYTES_40 in *.
    rewrite drop_0. split; [right; split; [lia|]; lia|]. simpl. unfold zlen.
    destruct (Z.eqb_spec (b2z a - 80) 0); [lia|]. rewrite Z.sub_add, z2b_b2z.
    replace (Z.of_nat (length w)) with (b2z l) by lia. by rewrite z2b_b2z.
Qed.

Lemma bytes_template p : payload_wf p -> payload_of_script (payload_bytes p) = Some p.
Proof.
  destruct p as [h|h|v w]; simpl; intros Hp.
  - spell_n 20 h Hp. reflexivity.
  - spell_n 20 h Hp. reflexivity.
  - destruct Hp as [[-> [Hw|Hw]]|[Hv Hw]]; [by spell_n 20 w Hw|by spell_n 32 w Hw|].
    assert (Hz : b2z (z2b (v + 80)) = v + 80) by (apply b2z_z2b_small; lia).
    assert (Hl : b2z (z2b (zlen w)) = zlen w) by (apply b2z_z2b_small; unfold zlen; lia).
    destruct (Z.eqb_spec v 0); [lia|].
    unfold payload_of_script, is_p2pkh, is_p2sh, is_v0_p2wpkh, is_v0_p2wsh, is_v1plus_p2witprog, byte_at.
    cbn [nth drop app length]. rewrite Hz, Hl.
    unfold OP_DUP, OP_HASH160, OP_PUSHBYTES_0, OP_PUSHNUM_1, OP_PUSHNUM_16, OP_PUSHBYTES_40, zlen in *.
    destruct (Z.eqb_spec (v + 80) 0x76); [lia|]. destruct (Z.eqb_spec (v + 80) 0xa9); [lia|].
    destruct (Z.eqb_spec (v + 80) 0); [lia|]. rewrite !andb_false_r. cbn [andb].
    destruct (Z.eqb_spec (Z.of_nat (Datatypes.S (Datatypes.S (length w)))) (Z.of_nat (length w) + 2)); [|lia].
    destruct (Z.leb_spec 81 (v + 80)); [|lia]. destruct (Z.leb_spec (v + 80) 96); [|lia].
    destruct (Z.leb_spec (Z.of_nat (length w)) 40); [|lia]. cbn [andb]. by rewrite Z.add_simpl_r, drop_0.
Qed.

(** ** Claims *)

(** Addresses and output scripts: a script has an address exactly when it is the
    script of a payload of standard form, and then the address is that payload; so
    [Address::script_pubkey] and [Address::from_script] invert each other, and the
    templates are tested in an order that loses nothing. *)
Theorem address_script_iff (s : Script) (p : Payload) :
  payload_of_script s = Some p <-> payload_wf p /\ payload_script p = Some s.
Proof.
  split.
  - intros E. apply template_bytes in E as [Hp ->]. split; [done|]. by apply payload_script_bytes.
  - intros [Hp E]. rewrite payload_script_bytes in E by done. injection E as <-. by apply bytes_template.
Qed.
