(* ===== verification/AddressText.v ===== *)
(** * The text of an address

    [rust-elements/src/blech32] (the segwit text of blinded addresses) and the text forms of
    [rust-elements/src/address.rs]: printing, parsing with given parameters and parsing among
    the built-in networks.

    Field elements, human-readable parts, checksum engines and the regrouping of bits are those
    of the [bech32] crate, base58 with its checksum that of [bitcoin]: parameters
    ([TextEnv]), with what is documented of them as laws ([TextLaws]).  A text is its bytes. *)

From S2P Require Import Prelude Encode Script Address.

(** ** Parameters *)

(** [bech32::Checksum]. *)
Record Checksum := mkChecksum
  { CHECKSUM_LENGTH : nat;
    GENERATOR_SH : list Z;
    TARGET_RESIDUE : Z;
    CODE_LENGTH : nat }.

Definition BLECH_GENERATOR_SH : list Z :=
  [0x7d52fba40bd886; 0x5e8dbf1a03950c; 0x1c3a3c74072a18; 0x385d72fa0e5139; 0x7093e5a608865b].
Definition Blech32 : Checksum := mkChecksum 12 BLECH_GENERATOR_SH 1 1024.
Definition Blech32m : Checksum := mkChecksum 12 BLECH_GENERATOR_SH 0x455972a3350f7a1 1024.

Definition lower (b : byte) : byte := if (65 <=? b2z b) && (b2z b <=? 90) then z2b (b2z b + 32) else b.
Definition is_ascii_uppercase (b : byte) : bool := (65 <=? b2z b) && (b2z b <=? 90).
Definition is_ascii_lowercase (b : byte) : bool := (97 <=? b2z b) && (b2z b <=? 122).

(** The crates: [Fe32], [Hrp::parse], the residue of a checksum engine after a human-readable
    part and field elements, the checksum that [with_checksum] appends, [bytes_to_fes] and
    [fes_to_bytes], the bech32 decoder and printer of segwit programs, base58. *)
Class TextEnv :=
  { fe_from_char : byte -> option Z;
    fe_to_char : Z -> byte;
    hrp_parse : bytes -> option bytes;
    residue : Checksum -> bytes -> list Z -> Z;
    checksum_fes : Checksum -> bytes -> list Z -> list Z;
    bytes_to_fes : bytes -> list Z;
    fes_to_bytes : list Z -> bytes;
    bech32_decode : bytes -> option (Z * bytes);
    bech32_text : bytes -> Z -> bytes -> bytes;
    base58_encode_check : bytes -> bytes;
    base58_decode_check : bytes -> option bytes }.

(** ** Errors *)

Inductive CharError :=
| MissingSeparator
| NothingAfterSeparator
| CharInvalidChecksum
| CharInvalidChecksumLength
| InvalidChar (c : byte)
| MixedCase.
Inductive UncheckedHrpstringError := CharErr (e : CharError) | HrpErr.
Inductive ChecksumError := InvalidChecksum | InvalidChecksumLength.
Inductive PaddingError := TooMuch | NonZero.
Inductive WitnessLengthError := TooShort | TooLong | InvalidSegwitV0.
Inductive SegwitHrpstringError :=
| Unchecked (e : UncheckedHrpstringError)
| MissingWitnessVersion
| InvalidWitnessVersion (v : Z)
| Padding (e : PaddingError)
| WitnessLength (e : WitnessLengthError)
| ChecksumErr (e : ChecksumError)
| SegwitPanic.
Inductive AddressError :=
| Base58Error
| Bech32Error
| Blech32Error (e : SegwitHrpstringError)
| InvalidAddress
| AddrInvalidWitnessVersion (v : Z)
| InvalidWitnessProgramLength (n : nat)
| InvalidSegwitV0ProgramLength (n : nat)
| InvalidWitnessEncoding
| InvalidSegwitV0Encoding
| InvalidBlindingPubKey
| InvalidLength (n : nat)
| InvalidAddressVersion (v : Z).

Definition SEP : byte := Byte.x31.

Section text.
Context {S : Secp} {TE : TextEnv}.

(** ** Blech32 *)

(** The scan of [check_characters], from the end: the position of the last separator, and
    whether letters of either case were seen. *)
Record scan := mkScan { has_upper : bool; has_lower : bool; req_bech32 : bool; sep_pos : option nat }.

Definition scan_char (st : scan) (n : nat) (ch : byte) : result scan CharError :=
  let st := if bool_decide (ch = SEP) && negb (bool_decide (is_Some (sep_pos st)))
            then mkScan (has_upper st) (has_lower st) false (Some n) else st in
  if req_bech32 st && negb (bool_decide (is_Some (fe_from_char ch))) then Err (InvalidChar ch)
  else Ok (mkScan (has_upper st || is_ascii_uppercase ch) (has_lower st || is_ascii_lowercase ch)
             (req_bech32 st) (sep_pos st)).

(** The characters from the end; [n] is the length of what is left. *)
Fixpoint scan_chars (st : scan) (rev_s : bytes) : result scan CharError :=
  match rev_s with
  | [] => Ok st
  | ch :: l => let? st := scan_char st (length l) ch in scan_chars st l
  end.

Definition check_characters (s : bytes) : result nat CharError :=
  let? st := scan_chars (mkScan false false true None) (rev s) in
  if has_upper st && has_lower st then Err MixedCase
  else ok_or (sep_pos st) MissingSeparator.

Record UncheckedHrpstring := mkUnchecked { u_hrp : bytes; u_data : bytes }.

Definition UncheckedHrpstring_new (s : bytes) : result UncheckedHrpstring UncheckedHrpstringError :=
  match check_characters s with
  | Err e => Err (CharErr e)
  | Ok pos =>
      let? h := ok_or (hrp_parse (take pos s)) HrpErr in
      Ok (mkUnchecked h (drop (Datatypes.S pos) s))
  end.

(** [AsciiToFe32Iter]; [None]: the [unwrap] on a character that is none of the alphabet. *)
Definition ascii_to_fes (data : bytes) : option (list Z) := mapM fe_from_char data.

Definition validate_checksum (ck : Checksum) (u : UncheckedHrpstring) : result () SegwitHrpstringError :=
  if (CHECKSUM_LENGTH ck =? 0)%nat then Ok ()
  else if (length (u_data u) <? CHECKSUM_LENGTH ck)%nat then Err (ChecksumErr InvalidChecksumLength)
  else
    let? fes := ok_or (ascii_to_fes (u_data u)) SegwitPanic in
    if residue ck (u_hrp u) fes =? TARGET_RESIDUE ck then Ok () else Err (ChecksumErr InvalidChecksum).

(** [CheckedHrpstring]: the human-readable part and the data without the checksum. *)
Definition remove_checksum (ck : Checksum) (u : UncheckedHrpstring) : bytes * bytes :=
  (u_hrp u, take (length (u_data u) - CHECKSUM_LENGTH ck) (u_data u)).

Definition validate_and_remove_checksum (ck : Checksum) (u : UncheckedHrpstring)
  : result (bytes * bytes) SegwitHrpstringError :=
  let? _ := validate_checksum ck u in Ok (remove_checksum ck u).

Definition validate_padding (data : bytes) : result () SegwitHrpstringError :=
  match data with
  | [] => Ok ()
  | _ =>
      let? fes := ok_or (ascii_to_fes data) SegwitPanic in
      let padding_len := Z.of_nat (length fes) * 5 mod 8 in
      if 4 <? padding_len then Err (Padding TooMuch)
      else
        let? last_byte := ok_or (last fes) SegwitPanic in
        if (padding_len =? 0) || (Z.land last_byte (2 ^ padding_len - 1) =? 0) then Ok () else Err (Padding NonZero)
  end.

(** The length of the bytes: [ByteIter::len]. *)
Definition validate_witness_program_length (witness_version : Z) (data : bytes) : result () SegwitHrpstringError :=
  let? fes := ok_or (ascii_to_fes data) SegwitPanic in
  let len := length (fes_to_bytes fes) in
  if (len <? 2)%nat then Err (WitnessLength TooShort)
  else if (40 + 33 <? len)%nat then Err (WitnessLength TooLong)
  else if (witness_version =? 0) && negb (len =? 53)%nat && negb (len =? 65)%nat then Err (WitnessLength InvalidSegwitV0)
  else Ok ().

Record SegwitHrpstring := mkSegwit { s_hrp : bytes; witness_version : Z; s_data : bytes }.

Definition validate_segwit (hd : bytes * bytes) : result SegwitHrpstring SegwitHrpstringError :=
  match hd.2 with
  | [] => Err MissingWitnessVersion
  | c :: data =>
      let? v := ok_or (fe_from_char c) SegwitPanic in
      let? _ := validate_padding data in
      let? _ := validate_witness_program_length v data in
      Ok (mkSegwit hd.1 v data)
  end.

Definition SegwitHrpstring_new (s : bytes) : result SegwitHrpstring SegwitHrpstringError :=
  match UncheckedHrpstring_new s with
  | Err e => Err (Unchecked e)
  | Ok u =>
      let? c := ok_or (head (u_data u)) MissingWitnessVersion in
      let? v := ok_or (fe_from_char c) SegwitPanic in
      if 16 <? v then Err (InvalidWitnessVersion v)
      else
        let? checked := validate_and_remove_checksum (if v =? 0 then Blech32 else Blech32m) u in
        validate_segwit checked
  end.

(** [new_bech32], for old texts; there is no test that the data is not empty. *)
Definition SegwitHrpstring_new_bech32 (s : bytes) : result SegwitHrpstring SegwitHrpstringError :=
  match UncheckedHrpstring_new s with
  | Err e => Err (Unchecked e)
  | Ok u =>
      let? c := ok_or (head (u_data u)) SegwitPanic in
      let? v := ok_or (fe_from_char c) SegwitPanic in
      if 16 <? v then Err (InvalidWitnessVersion v)
      else let? checked := validate_and_remove_checksum Blech32 u in validate_segwit checked
  end.

(** [byte_iter().collect()]. *)
Definition byte_iter (h : SegwitHrpstring) : option bytes := fes_to_bytes <$> ascii_to_fes (s_data h).

(** ** Printing an address *)

Definition blech32_text (hrp : bytes) (v : Z) (data : bytes) : bytes :=
  let ck := if v =? 0 then Blech32 else Blech32m in
  let fes := v :: bytes_to_fes data in
  hrp ++ SEP :: map fe_to_char (fes ++ checksum_fes ck hrp fes).

Definition prefixed (p : Z) (a : Address) (h : bytes) : bytes :=
  match blinding_pubkey a with
  | Some blinder => z2b (blinded_prefix (params a)) :: z2b p :: ext_ser blinder ++ h
  | None => z2b p :: h
  end.

Definition address_to_string (a : Address) : bytes :=
  match payload a with
  | PubkeyHash h => base58_encode_check (prefixed (p2pkh_prefix (params a)) a h)
  | ScriptHash h => base58_encode_check (prefixed (p2sh_prefix (params a)) a h)
  | WitnessProgram v program =>
      match blinding_pubkey a with
      | Some blinder => blech32_text (str (blech_hrp (params a))) v (ext_ser blinder ++ program)
      | None => bech32_text (str (bech_hrp (params a))) v program
      end
  end.

(** ** Parsing an address *)

Definition from_bech32 (s : bytes) (blinded : bool) (prm : AddressParams) : result Address AddressError :=
  if blinded then
    match SegwitHrpstring_new s with
    | Err e => Err (Blech32Error e)
    | Ok hs =>
        let? data := ok_or (byte_iter hs) (Blech32Error SegwitPanic) in
        if (length data <? 33)%nat then Err InvalidSegwitV0Encoding
        else
          let? pk := ok_or (ext_parse (take 33 data)) InvalidBlindingPubKey in
          Ok (mkAddress prm (WitnessProgram (witness_version hs) (drop 33 data)) (Some pk))
    end
  else
    let? vd := ok_or (bech32_decode s) Bech32Error in
    Ok (mkAddress prm (WitnessProgram vd.1 vd.2) None).

Definition payload_of_prefix (prefix : byte) (prm : AddressParams) (h : bytes) : result Payload AddressError :=
  if b2z prefix =? p2pkh_prefix prm then Ok (PubkeyHash h)
  else if b2z prefix =? p2sh_prefix prm then Ok (ScriptHash h)
  else Err (InvalidAddressVersion (b2z prefix)).

Definition from_base58 (data : bytes) (prm : AddressParams) : result Address AddressError :=
  let len_error := InvalidLength (length data) in
  match data with
  | [] => Err len_error
  | blinding_prefix :: blinded_data =>
      if b2z blinding_prefix =? blinded_prefix prm then
        match blinded_data with
        | [] => Err len_error
        | prefix :: pubkey_and_hash =>
            if (length pubkey_and_hash =? 53)%nat then
              let? pk := ok_or (ext_parse (take 33 pubkey_and_hash)) InvalidBlindingPubKey in
              let? pl := payload_of_prefix prefix prm (drop 33 pubkey_and_hash) in
              Ok (mkAddress prm pl (Some pk))
            else Err len_error
        end
      else if (length blinded_data =? 20)%nat then
        let? pl := payload_of_prefix blinding_prefix prm blinded_data in
        Ok (mkAddress prm pl None)
      else Err len_error
  end.

(** [find_prefix]: what is before the last separator. *)
Fixpoint rfind (rev_s : bytes) : option nat :=
  match rev_s with
  | [] => None
  | c :: l => if bool_decide (c = SEP) then Some (length l) else rfind l
  end.
Definition find_prefix (s : bytes) : bytes :=
  match rfind (rev s) with None => s | Some n => take n s end.

Definition match_prefix (prefix_mixed target : bytes) : bool :=
  (length target =? length prefix_mixed)%nat && bool_decide (map lower target = map lower prefix_mixed).

Definition decode_check (s : bytes) : result bytes AddressError :=
  if (150 <? length s)%nat then Err (InvalidLength (length s * 11 / 15))
  else ok_or (base58_decode_check s) Base58Error.

Definition parse_with_params (s : bytes) (prm : AddressParams) : result Address AddressError :=
  let prefix := find_prefix s in
  let b32_ex := match_prefix prefix (str (bech_hrp prm)) in
  let b32_bl := match_prefix prefix (str (blech_hrp prm)) in
  if b32_ex || b32_bl then from_bech32 s b32_bl prm
  else let? data := decode_check s in from_base58 data prm.

(** The networks of [from_str], in the order in which they are tried. *)
Definition net_arr : list AddressParams := [SEQUENTIA_TESTNET; LIQUID; ELEMENTS; LIQUID_TESTNET].

Fixpoint from_str_bech32 (s prefix : bytes) (nets : list AddressParams) : option (result Address AddressError) :=
  match nets with
  | [] => None
  | net :: nets =>
      if match_prefix prefix (str (bech_hrp net)) then Some (from_bech32 s false net)
      else if match_prefix prefix (str (blech_hrp net)) then Some (from_bech32 s true net)
      else from_str_bech32 s prefix nets
  end.

Fixpoint from_str_base58 (p : Z) (data : bytes) (nets : list AddressParams) : result Address AddressError :=
  match nets with
  | [] => Err InvalidAddress
  | net :: nets =>
      if (p =? p2pkh_prefix net) || (p =? p2sh_prefix net) || (p =? blinded_prefix net) then from_base58 data net
      else from_str_base58 p data nets
  end.

Definition address_from_str (s : bytes) : result Address AddressError :=
  match from_str_bech32 s (find_prefix s) net_arr with
  | Some r => r
  | None =>
      let? data := decode_check s in
      match data with
      | [] => Err (InvalidLength 0)
      | p :: _ => from_str_base58 (b2z p) data net_arr
      end
  end.
End text.

(** ** What is relied on *)

Definition is_fe (f : Z) : Prop := 0 <= f < 32.
Definition blech (ck : Checksum) : Prop := ck = Blech32 \/ ck = Blech32m.
Definition low_bits (f : Z) (n : Z) : Z := Z.land f (2 ^ n - 1).

(** A human-readable part as the networks have it: printable characters, none of them upper
    case. *)
Definition hrp_wf (h : bytes) : Prop :=
  (1 <= length h <= 83)%nat /\ Forall (fun c => 33 <= b2z c <= 126 /\ is_ascii_uppercase c = false) h.

Definition program_wf (v : Z) (len : nat) : Prop := 0 <= v <= 16 /\ (v = 0 -> len = 20%nat \/ len = 32%nat).

Class TextLaws {TE : TextEnv} : Prop :=
  { fe_chars f : is_fe f -> fe_from_char (fe_to_char f) = Some f;
    fe_alphabet c f : fe_from_char c = Some f -> is_fe f /\ fe_to_char f = lower c /\ c <> SEP;
    fe_lower f : is_fe f -> is_ascii_uppercase (fe_to_char f) = false /\ fe_to_char f <> SEP;
    hrp_parse_ok h : hrp_wf h -> hrp_parse h = Some h;
    hrp_parse_case s h : hrp_parse s = Some h -> map lower h = map lower s;
    residue_case ck h fes : residue ck (map lower h) fes = residue ck h fes;
    checksum_fes_wf ck h fes : length (checksum_fes ck h fes) = CHECKSUM_LENGTH ck /\ Forall is_fe (checksum_fes ck h fes);
    checksum_valid ck h fes : blech ck -> residue ck h (fes ++ checksum_fes ck h fes) = TARGET_RESIDUE ck;
    checksum_unique ck h fes c : blech ck -> length c = CHECKSUM_LENGTH ck -> Forall is_fe c ->
      residue ck h (fes ++ c) = TARGET_RESIDUE ck -> c = checksum_fes ck h fes;
    to_fes_wf l : Forall is_fe (bytes_to_fes l);
    to_fes_length l : exists pad, 0 <= pad <= 4 /\ 5 * zlen (bytes_to_fes l) = 8 * zlen l + pad;
    to_fes_padding l f : last (bytes_to_fes l) = Some f -> low_bits f ((5 * zlen (bytes_to_fes l)) mod 8) = 0;
    to_bytes_to_fes l : fes_to_bytes (bytes_to_fes l) = l;
    to_fes_to_bytes fes f : Forall is_fe fes -> (5 * zlen fes) mod 8 <= 4 -> last fes = Some f ->
      low_bits f ((5 * zlen fes) mod 8) = 0 -> bytes_to_fes (fes_to_bytes fes) = fes;
    bech32_text_shape h v p : exists data, bech32_text h v p = h ++ SEP :: data /\ SEP ∉ data;
    bech32_decode_text h v p : hrp_wf h -> program_wf v (length p) -> (2 <= length p <= 40)%nat ->
      bech32_decode (bech32_text h v p) = Some (v, p);
    base58_decode_encode d : base58_decode_check (base58_encode_check d) = Some d;
    base58_short d : (length d <= 55)%nat -> (length (base58_encode_check d) <= 150)%nat }.

Section claims.
Context {S : Secp} {TE : TextEnv} {L : TextLaws}.
#[local] Set Default Proof Using "Type*".

(** ** Scanning *)

Lemma lower_id c : is_ascii_uppercase c = false -> lower c = c.
Proof. unfold lower, is_ascii_uppercase. by intros ->. Qed.
Lemma lower_lower c : is_ascii_uppercase (lower c) = false.
Proof.
  unfold lower, is_ascii_uppercase. destruct ((65 <=? b2z c) && (b2z c <=? 90)) eqn:Ec; [|done].
  apply andb_prop in Ec as [H1%Z.leb_le H2%Z.leb_le]. rewrite b2z_z2b_small by lia. apply andb_false_intro2, Z.leb_gt. lia.
Qed.
Lemma map_lower_id l : Forall (fun c => is_ascii_uppercase c = false) l -> map lower l = l.
Proof. induction 1 as [|c l Hc _ IH]; [done|]. cbn [map]. by rewrite (lower_id c Hc), IH. Qed.

Lemma hrp_wf_lower h : hrp_wf h -> map lower h = h.
Proof. intros [_ Hf]. apply map_lower_id. eapply Forall_impl; [exact Hf|]. by intros c [_ ?]. Qed.

(** The scan over characters of the alphabet, before a separator is seen. *)
Lemma scan_data st l rest st' :
  req_bech32 st = true -> sep_pos st = None -> SEP ∉ l ->
  scan_chars st (l ++ rest) = Ok st' ->
  Forall (fun c => is_Some (fe_from_char c)) l /\
  exists b1 b2, scan_chars (mkScan b1 b2 true None) rest = Ok st' /\
    (b1 = has_upper st || existsb is_ascii_uppercase l) /\ (b2 = has_lower st || existsb is_ascii_lowercase l).
Proof.
  revert st. induction l as [|c l IH]; intros st Hr Hp Hn Hs.
  { split; [constructor|]. destruct st as [u w r p]. cbn in Hr, Hp. subst. exists u, w. cbn [existsb has_upper has_lower]. by rewrite !orb_false_r. }
  apply not_elem_of_cons in Hn as [Hc Hn]. cbn [app scan_chars] in Hs. unfold scan_char in Hs.
  rewrite (bool_decide_false (c = SEP)) in Hs by congruence. cbn [andb] in Hs. rewrite Hr, Hp in Hs. cbn [andb] in Hs.
  destruct (bool_decide (is_Some (fe_from_char c))) eqn:Ef; cbn [negb rbind] in Hs; [|done]. apply bool_decide_eq_true in Ef.
  apply IH in Hs as (Hf & b1 & b2 & Hs & -> & ->); [|done|done|done]. split; [by constructor|]. cbn [has_upper has_lower existsb] in *.
  eexists _, _. split; [exact Hs|]. by rewrite !orb_assoc.
Qed.

(** After the separator nothing fails. *)
Lemma scan_hrp b1 b2 pos l :
  scan_chars (mkScan b1 b2 false (Some pos)) l =
  Ok (mkScan (b1 || existsb is_ascii_uppercase l) (b2 || existsb is_ascii_lowercase l) false (Some pos)).
Proof.
  revert b1 b2. induction l as [|c l IH]; intros b1 b2; cbn [scan_chars existsb]; [by rewrite !orb_false_r|].
  unfold scan_char. cbn [sep_pos req_bech32 has_upper has_lower]. rewrite (bool_decide_true (is_Some (Some pos))) by done.
  cbn [negb]. rewrite andb_false_r. cbn [andb req_bech32 has_upper has_lower sep_pos rbind]. by rewrite IH, !orb_assoc.
Qed.

Lemma existsb_rev {A} (f : A -> bool) l : existsb f (rev l) = existsb f l.
Proof. induction l as [|a l IH]; [done|]. cbn [rev existsb]. rewrite existsb_app, IH. cbn [existsb]. by rewrite orb_false_r, orb_comm. Qed.

Lemma fe_not_sep c : is_Some (fe_from_char c) -> c <> SEP.
Proof. intros [f Hf]. by apply fe_alphabet in Hf as (_ & _ & ?). Qed.

Lemma scan_rev_data h l b1 b2 :
  Forall (fun c => is_Some (fe_from_char c)) l ->
  scan_chars (mkScan b1 b2 true None) (l ++ SEP :: rev h) =
  Ok (mkScan (b1 || (existsb is_ascii_uppercase l || existsb is_ascii_uppercase (SEP :: rev h)))
        (b2 || (existsb is_ascii_lowercase l || existsb is_ascii_lowercase (SEP :: rev h))) false (Some (length h))).
Proof.
  intros Hl. revert b1 b2. induction Hl as [|c l Hc Hl IH]; intros b1 b2; cbn [app scan_chars].
  - unfold scan_char. rewrite (bool_decide_true (SEP = SEP)) by done. cbn [sep_pos andb].
    rewrite (bool_decide_false (is_Some None)) by (by intros []). cbn [negb req_bech32 andb has_upper has_lower sep_pos rbind].
    rewrite scan_hrp, length_rev. cbn [existsb]. by rewrite !orb_assoc, !orb_false_r.
  - unfold scan_char. rewrite (bool_decide_false (c = SEP)) by (by apply fe_not_sep). cbn [andb req_bech32].
    rewrite bool_decide_true by done. cbn [negb andb has_upper has_lower sep_pos rbind]. rewrite IH. cbn [existsb]. by rewrite !orb_assoc.
Qed.

Lemma scan_text h data :
  Forall (fun c => is_Some (fe_from_char c)) data ->
  scan_chars (mkScan false false true None) (rev (h ++ SEP :: data)) =
  Ok (mkScan (existsb is_ascii_uppercase (h ++ SEP :: data)) (existsb is_ascii_lowercase (h ++ SEP :: data)) false (Some (length h))).
Proof.
  intros Hd. rewrite rev_app_distr. cbn [rev]. rewrite <-app_assoc. cbn [app]. rewrite scan_rev_data by (by apply Forall_rev).
  rewrite !existsb_app. cbn [existsb]. rewrite !existsb_rev. do 2 f_equal.
  - by destruct (existsb _ h), (existsb _ data).
  - by destruct (existsb _ h), (existsb _ data).
Qed.

(** The accepted texts: the separator that matters is the last one. *)
Lemma check_characters_iff s pos :
  check_characters s = Ok pos <->
  exists h data, s = h ++ SEP :: data /\ pos = length h /\ Forall (fun c => is_Some (fe_from_char c)) data /\
    existsb is_ascii_uppercase s && existsb is_ascii_lowercase s = false.
Proof.
  split.
  - intros Hc. destruct (decide (SEP ∈ s)) as [Hin|Hn].
    + apply list_elem_of_split_r in Hin as (h & data & -> & Hn). exists h, data.
      assert (Hd : Forall (fun c => is_Some (fe_from_char c)) data).
      { unfold check_characters in Hc. destruct (scan_chars _ _) as [st|] eqn:Es; [|done]. clear Hc.
        rewrite rev_app_distr in Es. cbn [rev] in Es. rewrite <-app_assoc in Es.
        apply scan_data in Es as (Hf & _); [|done|done|by rewrite <-Permutation_rev].
        apply Forall_rev in Hf. by rewrite rev_involutive in Hf. }
      unfold check_characters in Hc. rewrite (scan_text h data Hd) in Hc. cbn [rbind has_upper has_lower sep_pos] in Hc.
      destruct (_ && _); [done|]. apply ok_or_ok in Hc. injection Hc as <-. done.
    + exfalso. unfold check_characters in Hc. destruct (scan_chars _ _) as [st|] eqn:Es; [|done].
      rewrite <-(app_nil_r (rev s)) in Es. apply scan_data in Es as (_ & b1 & b2 & Es & _); [|done|done|by rewrite <-Permutation_rev].
      injection Es as <-. cbn [rbind has_upper has_lower sep_pos] in Hc. by destruct (b1 && b2).
  - intros (h & data & -> & -> & Hd & Hc). unfold check_characters. rewrite (scan_text h data Hd). cbn [rbind has_upper has_lower sep_pos]. by rewrite Hc.
Qed.

(** ** Blech32, both ways *)

Lemma ascii_to_fes_chars fes : Forall is_fe fes -> ascii_to_fes (map fe_to_char fes) = Some fes.
Proof.
  induction 1 as [|f fes Hf _ IH]; [done|]. unfold ascii_to_fes in *. cbn [map mapM]. by rewrite (fe_chars f Hf), IH.
Qed.

Lemma ascii_to_fes_inv data fes :
  ascii_to_fes data = Some fes -> Forall is_fe fes /\ map fe_to_char fes = map lower data /\ length fes = length data.
Proof.
  intros Hm%mapM_Some. induction Hm as [|c f data fes Hc _ (H1 & H2 & H3)]; [done|].
  apply fe_alphabet in Hc as (Hf & Hlo & _). cbn [map length]. rewrite H2, H3, Hlo. split; [by constructor|done].
Qed.

Lemma ascii_to_fes_app a b fes : ascii_to_fes (a ++ b) = Some fes ->
  exists f1 f2, ascii_to_fes a = Some f1 /\ ascii_to_fes b = Some f2 /\ fes = f1 ++ f2.
Proof.
  intros Hm%mapM_Some. apply Forall2_app_inv_l in Hm as (f1 & f2 & H1 & H2 & ->).
  exists f1, f2. split_and!; [by apply mapM_Some|by apply mapM_Some|done].
Qed.

Definition ck_of (v : Z) : Checksum := if v =? 0 then Blech32 else Blech32m.
Lemma ck_of_blech v : blech (ck_of v).
Proof. unfold ck_of. destruct (v =? 0); [by left|by right]. Qed.
Lemma ck_of_length v : CHECKSUM_LENGTH (ck_of v) = 12%nat.
Proof. unfold ck_of. by destruct (v =? 0). Qed.

Lemma to_fes_nil : bytes_to_fes [] = [].
Proof. destruct (to_fes_length []) as (pad & Hp & Hl). destruct (bytes_to_fes []); [done|]. unfold zlen in Hl. cbn in Hl. lia. Qed.
Lemma to_bytes_nil : fes_to_bytes [] = [].
Proof. rewrite <-to_fes_nil at 1. apply to_bytes_to_fes. Qed.

Lemma mapM_fe_some data : Forall (fun c => is_Some (fe_from_char c)) data -> exists fes, ascii_to_fes data = Some fes.
Proof. induction 1 as [|c l [f Hf] _ [fes IH]]; [by exists []|]. exists (f :: fes). unfold ascii_to_fes in *. cbn [mapM]. by rewrite Hf, IH. Qed.

Lemma chars_wf fes : Forall is_fe fes ->
  Forall (fun c => is_Some (fe_from_char c)) (map fe_to_char fes) /\ existsb is_ascii_uppercase (map fe_to_char fes) = false.
Proof.
  induction 1 as [|f fes Hf _ [IH1 IH2]]; [done|]. cbn [map existsb]. rewrite (proj1 (fe_lower f Hf)), IH2.
  split; [|done]. constructor; [|done]. rewrite (fe_chars f Hf). done.
Qed.

Lemma no_upper h : hrp_wf h -> existsb is_ascii_uppercase h = false.
Proof.
  intros [_ Hf]. induction Hf as [|c h [_ Hc] _ IH]; [done|]. cbn [existsb]. by rewrite Hc.
Qed.

(** A text that was printed is read back. *)
Lemma blech32_decode_text h v data :
  hrp_wf h -> 0 <= v <= 16 -> (2 <= length data <= 73)%nat -> (v = 0 -> length data = 53%nat \/ length data = 65%nat) ->
  exists hs, SegwitHrpstring_new (blech32_text h v data) = Ok hs /\ witness_version hs = v /\ byte_iter hs = Some data.
Proof.
  intros Hh Hv Hlen Hv0. unfold blech32_text. fold (ck_of v). set (fes := bytes_to_fes data). set (ck := ck_of v).
  set (cs := checksum_fes ck h (v :: fes)). destruct (checksum_fes_wf ck h (v :: fes)) as [Hcl Hcf]. fold cs in Hcl, Hcf.
  pose proof (ck_of_length v) as H12. fold ck in H12. rewrite H12 in Hcl.
  assert (Hfe : Forall is_fe fes) by apply to_fes_wf. assert (Hvf : is_fe v) by (unfold is_fe; lia).
  assert (Hall : Forall is_fe ((v :: fes) ++ cs)) by (apply Forall_app; split; [by constructor|done]).
  destruct (chars_wf _ Hall) as [Hch Hup].
  set (text := map fe_to_char ((v :: fes) ++ cs)) in *.
  unfold SegwitHrpstring_new, UncheckedHrpstring_new.
  assert (Hc : check_characters (h ++ SEP :: text) = Ok (length h)).
  { apply check_characters_iff. exists h, text. split_and!; [done|done|done|].
    rewrite existsb_app. cbn [existsb]. by rewrite (no_upper h Hh), Hup. }
  rewrite Hc, take_app_length, (hrp_parse_ok h Hh). cbn [ok_or rbind]. rewrite drop_app_ge by lia.
  replace (Datatypes.S (length h) - length h)%nat with 1%nat by lia. cbn [drop u_data u_hrp]. rewrite ?drop_0.
  assert (Htext : head text = Some (fe_to_char v)) by done.
  rewrite Htext. cbn [ok_or rbind]. rewrite (fe_chars v Hvf). cbn [ok_or rbind]. destruct (Z.ltb_spec 16 v); [lia|]. fold (ck_of v). fold ck.
  unfold validate_and_remove_checksum, validate_checksum. rewrite H12. cbn [Nat.eqb u_data u_hrp].
  assert (Hlt : (length text <? 12)%nat = false).
  { apply Nat.ltb_ge. unfold text. rewrite length_map, length_app. lia. }
  rewrite Hlt. unfold text at 1. rewrite (ascii_to_fes_chars _ Hall). cbn [ok_or rbind].
  unfold cs at 1. rewrite (checksum_valid ck h (v :: fes) (ck_of_blech v)), Z.eqb_refl. cbn [rbind].
  unfold remove_checksum. rewrite H12. cbn [u_data u_hrp].
  replace (take (length text - 12) text) with (map fe_to_char (v :: fes)).
  2: { unfold text. rewrite map_app, take_app_le; rewrite !length_app, !length_map; [|lia]. rewrite take_ge; [done|]. rewrite length_map. lia. }
  unfold validate_segwit. cbn [snd map fst]. rewrite (fe_chars v Hvf). cbn [ok_or rbind].
  destruct (to_fes_length data) as (pad & Hp & Hl). fold fes in Hl. unfold zlen in Hl.
  assert (Hmod : Z.of_nat (length fes) * 5 mod 8 = pad).
  { replace (Z.of_nat (length fes) * 5) with (pad + Z.of_nat (length data) * 8) by lia. rewrite Z_mod_plus_full. apply Z.mod_small. lia. }
  assert (Hpd : validate_padding (map fe_to_char fes) = Ok ()).
  { unfold validate_padding. destruct (map fe_to_char fes) eqn:Em; [done|]. rewrite <-Em, (ascii_to_fes_chars _ Hfe). cbn [ok_or rbind].
    rewrite Hmod. destruct (Z.ltb_spec 4 pad); [lia|]. destruct (last fes) as [f|] eqn:El.
    - cbn [ok_or rbind]. pose proof (to_fes_padding data f) as Hz. fold fes in Hz. specialize (Hz El).
      replace ((5 * zlen fes) mod 8) with pad in Hz by (unfold zlen; by rewrite Z.mul_comm). unfold low_bits in Hz. rewrite Hz. by rewrite orb_true_r.
    - apply last_None in El. by rewrite El in Em. }
  rewrite Hpd. cbn [rbind]. unfold validate_witness_program_length. rewrite (ascii_to_fes_chars _ Hfe). cbn [ok_or rbind].
  unfold fes. rewrite !to_bytes_to_fes. destruct (Nat.ltb_spec (length data) 2); [lia|]. destruct (Nat.ltb_spec (40 + 33) (length data)); [lia|].
  assert (Hz0 : (v =? 0) && negb (length data =? 53)%nat && negb (length data =? 65)%nat = false).
  { destruct (Z.eqb_spec v 0) as [->|]; [|done]. destruct (Hv0 eq_refl) as [->| ->]; done. }
  rewrite Hz0. cbn [rbind]. eexists. split; [reflexivity|]. split; [done|].
  unfold byte_iter. cbn [s_data]. rewrite ascii_to_fes_chars by apply to_fes_wf. cbn [fmap option_fmap option_map]. by rewrite to_bytes_to_fes.
Qed.

(** A text that is read is the one that is printed, up to case. *)
Lemma blech32_text_unique s hs data :
  SegwitHrpstring_new s = Ok hs -> byte_iter hs = Some data ->
  exists h d, s = h ++ SEP :: d /\ Forall (fun c => is_Some (fe_from_char c)) d /\
    map lower s = blech32_text (map lower h) (witness_version hs) data.
Proof.
  unfold SegwitHrpstring_new, UncheckedHrpstring_new. destruct (check_characters s) as [pos|] eqn:Ec; [|done].
  apply check_characters_iff in Ec as (h & d & -> & -> & Hd & _). rewrite take_app_length. destruct (hrp_parse h) as [h'|] eqn:Eh; [|done].
  apply hrp_parse_case in Eh. cbn [ok_or rbind]. rewrite drop_app_ge by lia. replace (Datatypes.S (length h) - length h)%nat with 1%nat by lia.
  cbn [drop u_data u_hrp]. rewrite ?drop_0. destruct d as [|c d']; [done|]. cbn [head ok_or rbind]. destruct (fe_from_char c) as [v|] eqn:Ev; [|done]. cbn [ok_or rbind].
  destruct (Z.ltb_spec 16 v); [done|]. fold (ck_of v). unfold validate_and_remove_checksum, validate_checksum. rewrite (ck_of_length v). cbn [Nat.eqb u_data u_hrp].
  destruct (Nat.ltb_spec (length (c :: d')) 12) as [|Hlen]; [done|]. destruct (ascii_to_fes (c :: d')) as [all|] eqn:Ea; [|done]. cbn [ok_or rbind].
  destruct (Z.eqb_spec (residue (ck_of v) h' all) (TARGET_RESIDUE (ck_of v))) as [Hres|]; [|done]. cbn [rbind].
  unfold remove_checksum. rewrite (ck_of_length v). cbn [u_data u_hrp].
  set (n := (length (c :: d') - 12)%nat). rewrite <-(take_drop n (c :: d')) in Ea. apply ascii_to_fes_app in Ea as (f1 & f2 & H1 & H2 & ->).
  destruct (ascii_to_fes_inv _ _ H1) as (Hf1 & Hm1 & Hl1). destruct (ascii_to_fes_inv _ _ H2) as (Hf2 & Hm2 & Hl2).
  assert (Hl2' : length f2 = CHECKSUM_LENGTH (ck_of v)) by (rewrite Hl2, ck_of_length, length_drop; unfold n; lia).
  rewrite <-residue_case, Eh in Hres.
  apply (checksum_unique _ _ _ _ (ck_of_blech v) Hl2' Hf2) in Hres.
  unfold validate_segwit. cbn [fst snd]. destruct (take n (c :: d')) as [|c1 d1] eqn:Et; [done|].
  assert (c1 = c) as ->. { destruct n; [done|]. cbn [take] in Et. by injection Et as <- _. }
  rewrite Ev. cbn [ok_or rbind]. destruct (validate_padding d1) as [|] eqn:Ep; [|done]. cbn [rbind].
  destruct (validate_witness_program_length v d1) as [|] eqn:Ew; [|done]. cbn [rbind]. intros [= <-]. unfold byte_iter. cbn [s_data witness_version].
  unfold ascii_to_fes in H1. cbn [mapM] in H1. rewrite Ev in H1. cbn [mbind option_bind] in H1. fold (ascii_to_fes d1) in H1.
  destruct (ascii_to_fes d1) as [g|] eqn:Eg; [|done]. cbn [mbind option_bind] in H1. injection H1 as <-.
  cbn [fmap option_fmap option_map]. intros [= <-].
  assert (Hg : bytes_to_fes (fes_to_bytes g) = g).
  { apply Forall_cons in Hf1 as [_ Hg]. unfold validate_padding in Ep. destruct d1 as [|x d1].
    - injection Eg as <-. by rewrite to_bytes_nil, to_fes_nil.
    - rewrite Eg in Ep. cbn [ok_or rbind] in Ep. destruct (Z.ltb_spec 4 (Z.of_nat (length g) * 5 mod 8)) as [|Hle]; [done|].
      destruct (last g) as [f|] eqn:El; [|done]. cbn [ok_or rbind] in Ep.
      replace (Z.of_nat (length g) * 5) with (5 * zlen g) in * by (unfold zlen; lia).
      apply (to_fes_to_bytes g f); [done|lia|done|]. unfold low_bits.
      destruct (Z.eqb_spec ((5 * zlen g) mod 8) 0) as [->|]; [apply Z.land_0_r|]. cbn [orb] in Ep. by destruct (Z.eqb_spec (Z.land f (2 ^ ((5 * zlen g) mod 8) - 1)) 0). }
  exists h, (c :: d'). split_and!; [done|done|]. unfold blech32_text. fold (ck_of v). rewrite Hg, <-Hres, map_app. cbn [map]. f_equal.
  replace (lower SEP) with SEP by reflexivity. f_equal.
  rewrite map_app, Hm1, Hm2, <-map_app, <-Et. change (lower c :: map lower d') with (map lower (c :: d')). by rewrite take_drop.
Qed.

(** ** Addresses *)

Lemma rfind_app l k : SEP ∉ l -> rfind (l ++ SEP :: k) = Some (length k).
Proof.
  induction l as [|c l IH]; intros Hn; cbn [app rfind]; [by rewrite bool_decide_true|].
  apply not_elem_of_cons in Hn as [Hc Hn]. rewrite bool_decide_false by congruence. by apply IH.
Qed.

Lemma find_prefix_sep h d : SEP ∉ d -> find_prefix (h ++ SEP :: d) = h.
Proof.
  intros Hn. unfold find_prefix. rewrite rev_app_distr. cbn [rev]. rewrite <-app_assoc. cbn [app].
  rewrite rfind_app by (by rewrite <-Permutation_rev). by rewrite length_rev, take_app_length.
Qed.

Lemma fes_no_sep fes : Forall is_fe fes -> SEP ∉ map fe_to_char fes.
Proof.
  induction 1 as [|f fes Hf _ IH]; [by intros ?%elem_of_nil|]. cbn [map]. apply not_elem_of_cons. split; [|done].
  intros Heq. by destruct (fe_lower f Hf) as [_ []].
Qed.

Lemma blech32_text_prefix h v data : is_fe v -> find_prefix (blech32_text h v data) = h.
Proof.
  intros Hv. apply find_prefix_sep, fes_no_sep, Forall_app. split; [|apply checksum_fes_wf]. constructor; [done|apply to_fes_wf].
Qed.

Lemma bech32_text_prefix h v p : find_prefix (bech32_text h v p) = h.
Proof. destruct (bech32_text_shape h v p) as (d & -> & Hn). by apply find_prefix_sep. Qed.

(** What the four networks have in common: human-readable parts and version bytes that tell them
    apart. *)
Lemma net_cases net : net ∈ net_arr -> net = SEQUENTIA_TESTNET \/ net = LIQUID \/ net = ELEMENTS \/ net = LIQUID_TESTNET.
Proof. unfold net_arr. rewrite !elem_of_cons. intros [|[|[|[|?%elem_of_nil]]]]; auto. done. Qed.

Ltac per_net Hn := apply net_cases in Hn as [-> | [-> | [-> | ->]]].

Lemma net_hrps net : net ∈ net_arr -> hrp_wf (str (bech_hrp net)) /\ hrp_wf (str (blech_hrp net)).
Proof. intros Hn. unfold hrp_wf. per_net Hn; apply (bool_decide_unpack _); vm_compute; exact I. Qed.

Lemma net_parse net s : net ∈ net_arr ->
  (find_prefix s = str (bech_hrp net) ->
   parse_with_params s net = from_bech32 s false net /\ address_from_str s = from_bech32 s false net) /\
  (find_prefix s = str (blech_hrp net) ->
   parse_with_params s net = from_bech32 s true net /\ address_from_str s = from_bech32 s true net).
Proof.
  intros Hn. unfold parse_with_params, address_from_str. split; intros ->; per_net Hn; split; reflexivity.
Qed.

Lemma net_base58 net d p l : net ∈ net_arr -> d = p :: l ->
  (b2z p = p2pkh_prefix net \/ b2z p = p2sh_prefix net \/ b2z p = blinded_prefix net) -> from_str_base58 (b2z p) d net_arr = from_base58 d net.
Proof. intros Hn -> [-> | [-> | ->]]; per_net Hn; reflexivity. Qed.

Lemma net_prefixes net : net ∈ net_arr ->
  is_u8 (p2pkh_prefix net) /\ is_u8 (p2sh_prefix net) /\ is_u8 (blinded_prefix net) /\
  p2pkh_prefix net <> p2sh_prefix net /\ p2pkh_prefix net <> blinded_prefix net /\ p2sh_prefix net <> blinded_prefix net.
Proof. intros Hn. per_net Hn; vm_compute; repeat split; discriminate. Qed.

(** The payloads that have a text: hashes of 20 bytes and witness programs. *)
Definition text_wf (a : Address) : Prop :=
  match payload a with
  | PubkeyHash h | ScriptHash h => length h = 20%nat
  | WitnessProgram v p => program_wf v (length p) /\ (length p <= 40)%nat /\ (blinding_pubkey a = None -> (2 <= length p)%nat)
  end.

(** A base58 text that does not look like a segwit one. *)
Definition plain_text (a : Address) : Prop :=
  match payload a with
  | WitnessProgram _ _ => True
  | _ => forall net, net ∈ net_arr ->
           match_prefix (find_prefix (address_to_string a)) (str (bech_hrp net)) = false /\
           match_prefix (find_prefix (address_to_string a)) (str (blech_hrp net)) = false
  end.

Lemma from_base58_prefixed a p h pl :
  params a ∈ net_arr -> length h = 20%nat -> (p = p2pkh_prefix (params a) /\ pl = PubkeyHash h) \/ (p = p2sh_prefix (params a) /\ pl = ScriptHash h) ->
  payload a = pl -> from_base58 (prefixed p a h) (params a) = Ok a.
Proof.
  intros Hn Hh Hp Hpl. destruct (net_prefixes _ Hn) as (U1 & U2 & U3 & D1 & D2 & D3).
  assert (Hpay : payload_of_prefix (z2b p) (params a) h = Ok pl).
  { unfold payload_of_prefix. destruct Hp as [[-> ->]|[-> ->]]; rewrite b2z_z2b_small by done; rewrite ?Z.eqb_refl; [done|].
    by rewrite (proj2 (Z.eqb_neq _ _)) by congruence. }
  assert (Hne : b2z (z2b p) <> blinded_prefix (params a)) by (destruct Hp as [[-> _]|[-> _]]; by rewrite b2z_z2b_small).
  unfold prefixed, from_base58. destruct (blinding_pubkey a) as [k|] eqn:Ek.
  - rewrite (b2z_z2b_small (blinded_prefix _)), Z.eqb_refl by done. destruct (pubkey_format k) as [Hk _].
    rewrite length_app, Hk, Hh. cbn [Nat.eqb Nat.add]. rewrite take_app_length', drop_app_length', ext_parse_ser by done. cbn [ok_or rbind].
    rewrite Hpay. cbn [rbind]. destruct a. cbn in *. by subst.
  - rewrite (proj2 (Z.eqb_neq _ _) Hne), Hh, Nat.eqb_refl, Hpay. cbn [rbind]. destruct a. cbn in *. by subst.
Qed.

Lemma base58_round_trip a p h pl :
  params a ∈ net_arr -> length h = 20%nat -> (p = p2pkh_prefix (params a) /\ pl = PubkeyHash h) \/ (p = p2sh_prefix (params a) /\ pl = ScriptHash h) ->
  payload a = pl -> address_to_string a = base58_encode_check (prefixed p a h) ->
  (forall net, net ∈ net_arr -> match_prefix (find_prefix (address_to_string a)) (str (bech_hrp net)) = false /\
           match_prefix (find_prefix (address_to_string a)) (str (blech_hrp net)) = false) ->
  parse_with_params (address_to_string a) (params a) = Ok a /\ address_from_str (address_to_string a) = Ok a.
Proof.
  intros Hn Hh Hp Hpl Ht Hplain. pose proof (from_base58_prefixed a p h pl Hn Hh Hp Hpl) as Hfrom.
  assert (Hlen : (length (prefixed p a h) <= 55)%nat).
  { unfold prefixed. destruct (blinding_pubkey a) as [k|]; cbn [length]; [rewrite length_app, (proj1 (pubkey_format k))|]; lia. }
  assert (Hdec : decode_check (address_to_string a) = Ok (prefixed p a h)).
  { unfold decode_check. rewrite Ht. pose proof (base58_short _ Hlen). destruct (Nat.ltb_spec 150 (length (base58_encode_check (prefixed p a h)))); [lia|].
    by rewrite base58_decode_encode. }
  split.
  - unfold parse_with_params. destruct (Hplain _ Hn) as [-> ->]. cbn [orb]. by rewrite Hdec.
  - assert (Hnone : forall nets, (forall net, net ∈ nets -> net ∈ net_arr) -> from_str_bech32 (address_to_string a) (find_prefix (address_to_string a)) nets = None).
    { induction nets as [|net nets IH]; intros Hs; [done|]. cbn [from_str_bech32]. destruct (Hplain net) as [-> ->]; [apply Hs; left|].
      apply IH. intros n Hi. apply Hs. by right. }
    unfold address_from_str. rewrite (Hnone net_arr (fun net Hi => Hi)), Hdec. cbn [rbind]. destruct (prefixed p a h) as [|c l] eqn:Ep; [by unfold prefixed in Ep; destruct (blinding_pubkey a)|].
    rewrite (net_base58 (params a) (c :: l) c l Hn eq_refl); [done|]. destruct (net_prefixes _ Hn) as (U1 & U2 & U3 & _).
    unfold prefixed in Ep. destruct (blinding_pubkey a); injection Ep as <- _.
    + right. right. by apply b2z_z2b_small.
    + destruct Hp as [[-> _]|[-> _]]; [left|right; left]; by apply b2z_z2b_small.
Qed.

(** C40: Printing and parsing: the text of an address of one of the networks is read back, both with
    the parameters of its network and without them. *)
Theorem address_text_round_trip a :
  params a ∈ net_arr -> text_wf a -> plain_text a ->
  parse_with_params (address_to_string a) (params a) = Ok a /\ address_from_str (address_to_string a) = Ok a.
Proof.
  intros Hn Hwf Hplain. unfold text_wf in Hwf. unfold plain_text in Hplain. destruct (payload a) as [h|h|v p] eqn:Ep.
  - apply (base58_round_trip a (p2pkh_prefix (params a)) h (PubkeyHash h)); try done; [by left|]. unfold address_to_string. by rewrite Ep.
  - apply (base58_round_trip a (p2sh_prefix (params a)) h (ScriptHash h)); try done; [by right|]. unfold address_to_string. by rewrite Ep.
  - destruct Hwf as ([Hv Hv0] & Hle & Hge). destruct (net_hrps _ Hn) as [Hh1 Hh2]. destruct (net_parse _ (address_to_string a) Hn) as [Hu Hb].
    destruct (blinding_pubkey a) as [k|] eqn:Ek.
    + assert (Ht : address_to_string a = blech32_text (str (blech_hrp (params a))) v (ext_ser k ++ p)) by (unfold address_to_string; by rewrite Ep, Ek).
      destruct (pubkey_format k) as [Hk _].
      destruct (blech32_decode_text (str (blech_hrp (params a))) v (ext_ser k ++ p) Hh2 Hv) as (hs & Hs & Hsv & Hsd).
      { rewrite length_app. lia. }
      { intros ->. rewrite length_app. destruct (Hv0 eq_refl); lia. }
      assert (Hfrom : from_bech32 (address_to_string a) true (params a) = Ok a).
      { unfold from_bech32. rewrite Ht, Hs, Hsd. cbn [ok_or rbind]. rewrite length_app, Hk. cbn [Nat.add Nat.ltb Nat.leb].
        rewrite take_app_length', drop_app_length', ext_parse_ser by done. cbn [ok_or rbind]. rewrite Hsv. destruct a. cbn in *. by subst. }
      destruct Hb as [-> ->]; [|done]. rewrite Ht. apply blech32_text_prefix. unfold is_fe. lia.
    + assert (Ht : address_to_string a = bech32_text (str (bech_hrp (params a))) v p) by (unfold address_to_string; by rewrite Ep, Ek).
      assert (Hfrom : from_bech32 (address_to_string a) false (params a) = Ok a).
      { unfold from_bech32. rewrite Ht, (bech32_decode_text _ _ _ Hh1); [|done|split; [by apply Hge|lia]]. cbn [ok_or rbind fst snd]. destruct a. cbn in *. by subst. }
      destruct Hu as [-> ->]; [|done]. rewrite Ht. apply bech32_text_prefix.
Qed.

(** No two texts of a confidential segwit address differ in more than their case. *)
Theorem confidential_text_unique s net a :
  net ∈ net_arr -> match_prefix (find_prefix s) (str (blech_hrp net)) = true -> parse_with_params s net = Ok a ->
  map lower s = address_to_string a.
Proof.
  intros Hn Hp Ha. unfold parse_with_params in Ha. rewrite Hp, orb_true_r in Ha. unfold from_bech32 in Ha.
  destruct (SegwitHrpstring_new s) as [hs|] eqn:Es; [|done]. destruct (byte_iter hs) as [data|] eqn:Ed; [|done]. cbn [ok_or rbind] in Ha.
  destruct (Nat.ltb_spec (length data) 33) as [|Hl]; [done|]. destruct (ext_parse (take 33 data)) as [k|] eqn:Ek; [|done]. cbn [ok_or rbind] in Ha. injection Ha as <-.
  destruct (blech32_text_unique s hs data Es Ed) as (h & d & -> & Hd & ->). unfold address_to_string. cbn [payload blinding_pubkey params].
  assert (Hns : SEP ∉ d). { intros Hi. rewrite Forall_forall in Hd. by destruct (fe_not_sep SEP (Hd SEP Hi)). }
  rewrite (find_prefix_sep h d Hns) in Hp. apply andb_prop in Hp as [_ Hp%bool_decide_eq_true].
  destruct (net_hrps _ Hn) as [_ Hh]. rewrite (hrp_wf_lower _ Hh) in Hp. rewrite <-Hp.
  apply pubkey_strict in Ek; [|rewrite length_take; lia]. by rewrite Ek, take_drop.
Qed.

(** A human-readable part and a separator with nothing behind it: [new] reports a missing
    witness version, [new_bech32] panics. *)
Theorem empty_data_panics h : hrp_wf h ->
  SegwitHrpstring_new (h ++ [SEP]) = Err MissingWitnessVersion /\ SegwitHrpstring_new_bech32 (h ++ [SEP]) = Err SegwitPanic.
Proof.
  intros Hh. assert (Hc : check_characters (h ++ [SEP]) = Ok (length h)).
  { apply check_characters_iff. exists h, []. split_and!; [done|done|done|]. rewrite existsb_app, (no_upper h Hh). done. }
  unfold SegwitHrpstring_new, SegwitHrpstring_new_bech32, UncheckedHrpstring_new. rewrite Hc, take_app_length, (hrp_parse_ok h Hh). cbn [ok_or rbind u_data].
  rewrite drop_ge by (rewrite length_app; cbn; lia). done.
Qed.

(** The limits on a program are not shifted by the 33 bytes of the key at their lower end: the
    text of a blinded address with a program of no bytes is accepted, though "the witness
    program must be between 2 and 40 bytes in length". *)
Theorem empty_program_accepted net k v :
  net ∈ net_arr -> 1 <= v <= 16 ->
  let a := mkAddress net (WitnessProgram v []) (Some k) in
  parse_with_params (address_to_string a) net = Ok a.
Proof.
  intros Hn Hv a. destruct (net_parse net (address_to_string a) Hn) as [_ Hb]. destruct (net_hrps _ Hn) as [_ Hh]. destruct (pubkey_format k) as [Hk _].
  destruct (blech32_decode_text (str (blech_hrp net)) v (ext_ser k ++ []) Hh) as (hs & Hs & Hsv & Hsd); [lia|rewrite length_app; cbn; lia|lia|].
  assert (Hfrom : from_bech32 (address_to_string a) true net = Ok a).
  { unfold from_bech32, address_to_string. cbn [a payload blinding_pubkey params]. rewrite Hs, Hsd. cbn [ok_or rbind]. rewrite app_nil_r, Hk. cbn [Nat.ltb Nat.leb].
    rewrite take_ge, drop_ge, ext_parse_ser by lia. cbn [ok_or rbind]. by rewrite Hsv. }
  destruct Hb as [-> _]; [|done]. apply blech32_text_prefix. unfold is_fe. lia.
Qed.
End claims.

(** ** A concrete instance *)

(** The alphabet and the regrouping of bits are the real ones; the checksum is a sum, and base58
    the identity. *)
Module TextSample.
Definition charset : bytes := str "qpzry9x8gf2tvdw0s3jn54khce6mua7l".
Fixpoint index_of (c : byte) (l : bytes) : option Z :=
  match l with
  | [] => None
  | d :: l => if bool_decide (c = d) then Some 0 else Z.succ <$> index_of c l
  end.
Definition from_char (c : byte) : option Z := index_of (lower c) charset.
Definition to_char (f : Z) : byte := nth (Z.to_nat f) charset Byte.x00.

(** Numbers in base 32, lowest digit first. *)
Fixpoint digits (n : nat) (z : Z) : list Z :=
  match n with O => [] | Datatypes.S n => z mod 32 :: digits n (z / 32) end.
Fixpoint digits_val (l : list Z) : Z := match l with [] => 0 | d :: l => d + 32 * digits_val l end.

Lemma length_digits n z : length (digits n z) = n.
Proof. revert z. induction n; intros z; [done|]. cbn. by rewrite IHn. Qed.
Lemma digits_fe n z : Forall is_fe (digits n z).
Proof. revert z. induction n; intros z; constructor; [|apply IHn]. unfold is_fe. apply Z.mod_pos_bound. lia. Qed.
Lemma pow32_S n : 32 ^ Z.of_nat (Datatypes.S n) = 32 * 32 ^ Z.of_nat n.
Proof. rewrite Nat2Z.inj_succ, Z.pow_succ_r by lia. done. Qed.
Lemma digits_val_digits n z : 0 <= z < 32 ^ Z.of_nat n -> digits_val (digits n z) = z.
Proof.
  revert z. induction n as [|n IH]; intros z Hz; [cbn in *; lia|]. rewrite pow32_S in Hz. cbn [digits digits_val].
  rewrite IH; [pose proof (Z.div_mod z 32); lia|]. split; [apply Z.div_pos; lia|]. apply Z.div_lt_upper_bound; lia.
Qed.
Lemma digits_digits_val l : Forall is_fe l -> digits (length l) (digits_val l) = l /\ 0 <= digits_val l < 32 ^ Z.of_nat (length l).
Proof.
  induction 1 as [|d l Hd _ [IH1 IH2]]; [done|]. unfold is_fe in Hd. cbn [length digits digits_val]. rewrite pow32_S. split; [|lia].
  rewrite (Z.mul_comm 32), Z_mod_plus_full, Z_div_plus_full, Z.mod_small, Z.div_small, Z.add_0_l by lia. by rewrite IH1.
Qed.

Definition to_fes (l : bytes) : list Z :=
  let k := (8 * zlen l + 4) / 5 in rev (digits (Z.to_nat k) (le_val (rev l) * 2 ^ (5 * k - 8 * zlen l))).
Definition to_bytes (f : list Z) : bytes :=
  let m := 5 * zlen f in rev (le_bytes (Z.to_nat (m / 8)) (digits_val (rev f) / 2 ^ (m mod 8))).

Lemma groups (l : bytes) : let k := (8 * zlen l + 4) / 5 in 0 <= k /\ 0 <= 5 * k - 8 * zlen l <= 4.
Proof. unfold zlen. cbv zeta. pose proof (Z.div_mod (8 * Z.of_nat (length l) + 4) 5 ltac:(lia)). pose proof (Z.mod_pos_bound (8 * Z.of_nat (length l) + 4) 5 ltac:(lia)). lia. Qed.

Lemma zlen_to_fes l : zlen (to_fes l) = (8 * zlen l + 4) / 5.
Proof. destruct (groups l) as [Hk _]. unfold zlen at 1, to_fes. rewrite length_rev, length_digits. lia. Qed.

Lemma groups_mod (l : bytes) : let k := (8 * zlen l + 4) / 5 in (5 * k) mod 8 = 5 * k - 8 * zlen l /\ 5 * k / 8 = zlen l.
Proof.
  cbv zeta. destruct (groups l) as [Hk Hp]. set (k := (8 * zlen l + 4) / 5) in *.
  replace (5 * k) with ((5 * k - 8 * zlen l) + zlen l * 8) by lia. rewrite Z_mod_plus_full, Z_div_plus_full, Z.mod_small, Z.div_small by lia. lia.
Qed.

Lemma pow2_32 n : 0 <= n -> 32 ^ n = 2 ^ (5 * n).
Proof. intros Hn. by rewrite Z.pow_mul_r. Qed.

Lemma to_fes_val (l : bytes) : let k := (8 * zlen l + 4) / 5 in
  0 <= le_val (rev l) * 2 ^ (5 * k - 8 * zlen l) < 32 ^ Z.of_nat (Z.to_nat k).
Proof.
  cbv zeta. destruct (groups l) as [Hk Hp]. set (k := (8 * zlen l + 4) / 5) in *. rewrite Z2Nat.id, pow2_32 by lia.
  pose proof (le_val_nonneg (rev l)). pose proof (le_val_bound (rev l)) as Hb. rewrite length_rev in Hb. fold (zlen l) in Hb.
  change 256 with (2 ^ 8) in Hb. rewrite <-Z.pow_mul_r in Hb by (unfold zlen; lia).
  replace (5 * k) with (8 * zlen l + (5 * k - 8 * zlen l)) at 3 by lia. rewrite Z.pow_add_r by (unfold zlen in *; lia).
  pose proof (Z.pow_pos_nonneg 2 (5 * k - 8 * zlen l) ltac:(lia) ltac:(lia)). split; nia.
Qed.

Lemma to_bytes_fes l : to_bytes (to_fes l) = l.
Proof.
  unfold to_bytes. rewrite zlen_to_fes. destruct (groups l) as [Hk Hp]. destruct (groups_mod l) as [-> ->].
  unfold to_fes. rewrite rev_involutive, digits_val_digits by apply to_fes_val.
  rewrite Z.div_mul by (apply Z.pow_nonzero; lia). unfold zlen. rewrite Nat2Z.id.
  replace (length l) with (length (rev l)) by apply length_rev. by rewrite le_bytes_le_val, rev_involutive.
Qed.

Lemma low_bits_mod f n : 0 <= n -> low_bits f n = f mod 2 ^ n.
Proof. intros Hn. unfold low_bits. replace (2 ^ n - 1) with (Z.ones n) by (rewrite Z.ones_equiv; lia). by apply Z.land_ones. Qed.

Lemma last_digits n z f : last (rev (digits n z)) = Some f -> f = z mod 32.
Proof. destruct n; [done|]. cbn [digits rev]. rewrite last_snoc. by intros [= <-]. Qed.

Lemma mod_mod_pow z n : 0 <= n <= 5 -> (z mod 32) mod 2 ^ n = z mod 2 ^ n.
Proof.
  intros Hn. change 32 with (2 ^ 5). replace 5 with (n + (5 - n)) by lia. rewrite Z.pow_add_r, Z.rem_mul_r by (try apply Z.pow_nonzero; try apply Z.pow_pos_nonneg; lia).
  rewrite Z.mul_comm, Z_mod_plus_full, Z.mod_mod by (apply Z.pow_nonzero; lia). done.
Qed.

Lemma to_fes_pad l f : last (to_fes l) = Some f -> low_bits f ((5 * zlen (to_fes l)) mod 8) = 0.
Proof.
  rewrite zlen_to_fes. destruct (groups l) as [Hk Hp]. destruct (groups_mod l) as [-> _]. intros ->%last_digits.
  rewrite low_bits_mod, mod_mod_pow by lia. apply Z_mod_mult.
Qed.

Lemma to_fes_bytes fes f :
  Forall is_fe fes -> (5 * zlen fes) mod 8 <= 4 -> last fes = Some f -> low_bits f ((5 * zlen fes) mod 8) = 0 -> to_fes (to_bytes fes) = fes.
Proof.
  intros Hf Hq Hl Hz. set (m := 5 * zlen fes) in *. pose proof (Z.div_mod m 8 ltac:(lia)) as Hm. pose proof (Z.mod_pos_bound m 8 ltac:(lia)) as Hb.
  assert (Hm0 : 0 <= m / 8) by (apply Z.div_pos; [unfold m, zlen; lia|lia]).
  assert (Hlen : zlen (to_bytes fes) = m / 8) by (unfold zlen, to_bytes; rewrite length_rev, length_le_bytes; fold m; lia).
  assert (Hk : (8 * (m / 8) + 4) / 5 = zlen fes).
  { replace (8 * (m / 8) + 4) with ((4 - m mod 8) + zlen fes * 5) by (unfold m in *; lia). rewrite Z_div_plus_full, Z.div_small by lia. lia. }
  unfold to_fes. rewrite Hlen, Hk. fold m. replace (m - 8 * (m / 8)) with (m mod 8) by lia.
  unfold to_bytes. fold m. rewrite rev_involutive.
  assert (Hr : Forall is_fe (rev fes)) by (by apply Forall_rev). destruct (digits_digits_val (rev fes) Hr) as [Hd Hv]. rewrite length_rev in Hd, Hv.
  assert (Hx : digits_val (rev fes) mod 2 ^ (m mod 8) = 0).
  { rewrite <-(low_bits_mod _ (m mod 8)) by lia. rewrite low_bits_mod by lia. rewrite <-mod_mod_pow by lia. rewrite <-low_bits_mod by lia.
    replace (digits_val (rev fes) mod 32) with f; [done|]. apply last_Some in Hl as [l' ->]. rewrite rev_app_distr. cbn [rev app digits_val].
    apply Forall_app in Hf as [_ Hf]. apply Forall_cons in Hf as [Hf _]. unfold is_fe in Hf. rewrite (Z.mul_comm 32), Z_mod_plus_full, Z.mod_small by lia. done. }
  set (x := digits_val (rev fes)) in *. set (q := m mod 8) in *.
  assert (Hp : 0 < 2 ^ q) by (apply Z.pow_pos_nonneg; lia).
  assert (Hxy : x = 2 ^ q * (x / 2 ^ q)) by (pose proof (Z.div_mod x (2 ^ q) ltac:(lia)); lia).
  rewrite le_val_le_bytes.
  - rewrite (Z.mul_comm (x / 2 ^ q)), <-Hxy. unfold zlen. rewrite Nat2Z.id, Hd. apply rev_involutive.
  - split; [apply Z.div_pos; lia|]. apply Z.div_lt_upper_bound; [lia|]. rewrite Z2Nat.id by lia. change 256 with (2 ^ 8).
    rewrite <-Z.pow_mul_r, <-Z.pow_add_r by lia. replace (q + 8 * (m / 8)) with (5 * zlen fes) by (unfold m in *; lia).
    rewrite <-pow2_32 by (unfold zlen; lia). apply Hv.
Qed.

Definition digest (ck : Checksum) (h : bytes) (fes : list Z) : list Z :=
  digits (CHECKSUM_LENGTH ck) (le_val (map lower h) + digits_val fes + TARGET_RESIDUE ck).
Definition toy_residue (ck : Checksum) (h : bytes) (fes : list Z) : Z :=
  let n := (length fes - CHECKSUM_LENGTH ck)%nat in
  if bool_decide (drop n fes = digest ck h (take n fes)) then TARGET_RESIDUE ck else TARGET_RESIDUE ck + 1.

Definition toy_hrp_ok (h : bytes) : bool :=
  (1 <=? length h)%nat && (length h <=? 83)%nat && forallb (fun c => (33 <=? b2z c) && (b2z c <=? 126)) h.

Definition toy_bech32_text (h : bytes) (v : Z) (p : bytes) : bytes := h ++ SEP :: map to_char (v mod 32 :: to_fes p).
Definition toy_bech32_decode (s : bytes) : option (Z * bytes) :=
  match mapM from_char (drop (Datatypes.S (length (find_prefix s))) s) with
  | Some (v :: fes) => Some (v, to_bytes fes)
  | _ => None
  end.

#[export] Instance TextEnv_model : TextEnv :=
  {| fe_from_char := from_char;
     fe_to_char := to_char;
     hrp_parse h := if toy_hrp_ok h then Some h else None;
     residue := toy_residue;
     checksum_fes := digest;
     bytes_to_fes := to_fes;
     fes_to_bytes := to_bytes;
     bech32_decode := toy_bech32_decode;
     bech32_text := toy_bech32_text;
     base58_encode_check d := d;
     base58_decode_check d := Some d |}.

Definition all_fes : list Z := map Z.of_nat (seq 0 32).
Lemma fe_in f : is_fe f -> f ∈ all_fes.
Proof.
  unfold is_fe. intros Hf. apply list_elem_of_fmap. exists (Z.to_nat f). split; [lia|]. apply elem_of_seq. lia.
Qed.

Lemma to_char_spec f : is_fe f -> from_char (to_char f) = Some f /\ is_ascii_uppercase (to_char f) = false /\ to_char f <> SEP.
Proof.
  intros Hf%fe_in. revert f Hf. apply Forall_forall. apply (bool_decide_unpack _). vm_compute. exact I.
Qed.

Lemma from_char_spec c f : from_char c = Some f -> is_fe f /\ to_char f = lower c /\ c <> SEP.
Proof.
  intros Hc. unfold is_fe. revert Hc. destruct c; vm_compute; intros Hc; first [discriminate|injection Hc as <-]; repeat split; discriminate.
Qed.

Lemma mapM_to_char fes : Forall is_fe fes -> mapM from_char (map to_char fes) = Some fes.
Proof. induction 1 as [|f fes Hf _ IH]; [done|]. cbn [map mapM]. by rewrite (proj1 (to_char_spec f Hf)), IH. Qed.

Lemma toy_no_sep fes : Forall is_fe fes -> SEP ∉ map to_char fes.
Proof.
  induction 1 as [|f fes Hf _ IH]; [by intros ?%elem_of_nil|]. cbn [map]. apply not_elem_of_cons. split; [|done].
  intros Heq. by destruct (to_char_spec f Hf) as (_ & _ & []).
Qed.

Lemma toy_prefix h d : SEP ∉ d -> find_prefix (h ++ SEP :: d) = h.
Proof.
  intros Hn. unfold find_prefix. rewrite rev_app_distr. cbn [rev]. rewrite <-app_assoc. cbn [app].
  assert (Hr : forall l k, SEP ∉ l -> rfind (l ++ SEP :: k) = Some (length k)).
  { induction l as [|c l IH]; intros k Hl; cbn [app rfind]; [by rewrite bool_decide_true|].
    apply not_elem_of_cons in Hl as [Hc Hl]. rewrite bool_decide_false by congruence. by apply IH. }
  rewrite Hr by (by rewrite <-Permutation_rev). by rewrite length_rev, take_app_length.
Qed.

Lemma bech32_fes v p : Forall is_fe (v mod 32 :: to_fes p).
Proof. constructor; [unfold is_fe; apply Z.mod_pos_bound; lia|]. apply Forall_rev, digits_fe. Qed.

Lemma map_lower_lower h : map lower (map lower h) = map lower h.
Proof. rewrite map_map. apply map_ext. intros c. apply lower_id, lower_lower. Qed.

Lemma toy_split ck (fes c : list Z) : length c = CHECKSUM_LENGTH ck ->
  take (length (fes ++ c) - CHECKSUM_LENGTH ck) (fes ++ c) = fes /\ drop (length (fes ++ c) - CHECKSUM_LENGTH ck) (fes ++ c) = c.
Proof.
  intros Hc. rewrite length_app, Hc. replace (length fes + CHECKSUM_LENGTH ck - CHECKSUM_LENGTH ck)%nat with (length fes) by lia.
  by rewrite take_app_length, drop_app_length.
Qed.

#[export] Instance TextLaws_model : TextLaws.
Proof.
  split.
  - intros f Hf. apply (to_char_spec f Hf).
  - exact from_char_spec.
  - intros f Hf. apply (to_char_spec f Hf).
  - intros h [[H1 H2] Hf]. cbn [hrp_parse TextEnv_model]. unfold toy_hrp_ok. rewrite (proj2 (Nat.leb_le _ _) H1), (proj2 (Nat.leb_le _ _) H2). cbn [andb].
    rewrite (proj2 (forallb_forall _ _)); [done|]. intros c Hc%list_elem_of_In. rewrite Forall_forall in Hf. destruct (Hf c Hc) as [[? ?] _].
    apply andb_true_intro. split; by apply Z.leb_le.
  - intros s' h. cbn [hrp_parse TextEnv_model]. destruct (toy_hrp_ok s'); [|done]. by intros [= ->].
  - intros ck h fes. cbn [residue TextEnv_model]. unfold toy_residue, digest. by rewrite map_lower_lower.
  - intros ck h fes. split; [apply length_digits|apply digits_fe].
  - intros ck h fes _. cbn [residue checksum_fes TextEnv_model]. unfold toy_residue.
    destruct (toy_split ck fes (digest ck h fes)) as [-> ->]; [apply length_digits|]. by rewrite bool_decide_true.
  - intros ck h fes c _ Hl _. cbn [residue checksum_fes TextEnv_model]. unfold toy_residue. destruct (toy_split ck fes c Hl) as [-> ->].
    case_bool_decide; [done|lia].
  - intros l. apply Forall_rev, digits_fe.
  - intros l. cbn [bytes_to_fes TextEnv_model]. exists (5 * zlen (to_fes l) - 8 * zlen l). rewrite zlen_to_fes. pose proof (groups l) as [_ Hg]. split; [exact Hg|lia].
  - exact to_fes_pad.
  - exact to_bytes_fes.
  - exact to_fes_bytes.
  - intros h v p. eexists. split; [reflexivity|]. apply toy_no_sep, bech32_fes.
  - intros h v p _ [Hv _] _. cbn [bech32_decode bech32_text TextEnv_model]. unfold toy_bech32_decode, toy_bech32_text.
    rewrite toy_prefix by (apply toy_no_sep, bech32_fes). rewrite drop_app_ge by lia. replace (Datatypes.S (length h) - length h)%nat with 1%nat by lia.
    cbn [drop]. rewrite ?drop_0, mapM_to_char by apply bech32_fes. rewrite Z.mod_small by lia. by rewrite to_bytes_fes.
  - done.
  - intros d Hd. cbn. lia.
Qed.

#[local] Existing Instance Model.Secp_model.
Definition key : PublicKey := exist _ (Byte.x02 :: replicate 32 Byte.x11) eq_refl.
Definition blinded_address : Address := mkAddress SEQUENTIA_TESTNET (WitnessProgram 0 (replicate 20 Byte.x42)) (Some key).
Definition legacy_address : Address := mkAddress LIQUID (PubkeyHash (replicate 20 Byte.x42)) (Some key).
(** The text of the blinded address in upper case. *)
Definition upper (b : byte) : byte := if is_ascii_lowercase b then z2b (b2z b - 32) else b.
Definition loud_text : bytes := map upper (address_to_string blinded_address).
Definition loud_address : Address := match parse_with_params loud_text SEQUENTIA_TESTNET with Ok a => a | Err _ => legacy_address end.
Lemma loud_parse : parse_with_params loud_text SEQUENTIA_TESTNET = Ok loud_address.
Proof.
  assert (Hok : is_ok (parse_with_params loud_text SEQUENTIA_TESTNET) = true) by (vm_compute; reflexivity).
  unfold loud_address. by destruct (parse_with_params loud_text SEQUENTIA_TESTNET).
Qed.
End TextSample.
Import TextSample.

Lemma address_text_round_trip_witness :
  address_from_str (address_to_string blinded_address) = Ok blinded_address /\
  address_from_str (address_to_string legacy_address) = Ok legacy_address.
Proof.
  split.
  - apply address_text_round_trip.
    + left.
    + split; [split; [by split|by left]|]. split; [|done]. apply Nat.leb_le. reflexivity.
    + exact I.
  - apply address_text_round_trip.
    + right. left.
    + reflexivity.
    + intros net Hn. unfold net_arr in Hn. rewrite !elem_of_cons in Hn.
      destruct Hn as [->|[->|[->|[->|Hn%elem_of_nil]]]]; [split; vm_compute; reflexivity|split; vm_compute; reflexivity|split; vm_compute; reflexivity|split; vm_compute; reflexivity|done].
Defined.

Lemma confidential_text_unique_witness :
  map lower loud_text <> loud_text /\ map lower loud_text = address_to_string loud_address.
Proof.
  split; [vm_compute; discriminate|].
  apply (confidential_text_unique loud_text SEQUENTIA_TESTNET loud_address); [left|vm_compute; reflexivity|exact loud_parse].
Defined.
