(* ===== verification/Blind.v ===== *)
(** * Blinding

    [rust-elements/src/blind.rs], the blinding factors of [confidential.rs] and the blinding of
    PSETs in [pset/mod.rs]: asset and value commitments with their proofs, the blinding factor
    that balances the last output, the two roles of a blinder of a PSET, the blinding of a whole
    transaction, unblinding, and the verification of amounts.

    Commitments, proofs and scalar arithmetic are those of [secp256k1-zkp] ([Zkp]); what they
    are relied on for is [ZkpLaws].  A function that takes [&mut self] or a random number
    generator is a function of both states and returns them, also when it fails. *)

From S2P Require Import Prelude Order Encode Script Timelocks Confidential Transaction TxMetrics Sighash Merkle Taproot TapSighash Pset Update Address.

(** ** States and errors *)

(** A computation that changes a state and may fail; the changes made before an error stay. *)
Definition action (St E A : Type) : Type := St -> result A E * St.

Definition act_ret {St E A} (a : A) : action St E A := fun s => (Ok a, s).
Definition act_bind {St E A B} (m : action St E A) (k : A -> action St E B) : action St E B :=
  fun s => match m s with (Ok a, s') => k a s' | (Err e, s') => (Err e, s') end.
Definition act_lift {St E A} (r : result A E) : action St E A := fun s => (r, s).
Definition act_modify {St E} (f : St -> St) : action St E () := fun s => (Ok (), f s).
Definition act_gets {St E A} (f : St -> A) : action St E A := fun s => (Ok (f s), s).

(** A computation on the second component, its errors converted. *)
Definition act_zoom {X St E E' A} (f : E' -> E) (m : action St E' A) : action (X * St) E A :=
  fun s => match m s.2 with
           | (Ok a, t) => (Ok a, (s.1, t))
           | (Err e, t) => (Err (f e), (s.1, t))
           end.

Notation "'let!' x ':=' m 'in' k" := (act_bind m (fun x => k))
  (at level 200, x pattern, m at level 100, k at level 200) : swk_scope.

Fixpoint act_mapM {St E A B} (f : A -> action St E B) (l : list A) : action St E (list B) :=
  match l with
  | [] => act_ret []
  | a :: l => let! b := f a in let! bs := act_mapM f l in act_ret (b :: bs)
  end.

Lemma act_bind_ok {St E A B} (m : action St E A) (k : A -> action St E B) s b s' :
  act_bind m k s = (Ok b, s') <-> exists a t, m s = (Ok a, t) /\ k a t = (Ok b, s').
Proof. unfold act_bind. destruct (m s) as [[a|e] t]; naive_solver. Qed.

Lemma act_lift_ok {St E A} (r : result A E) (s s' : St) a :
  act_lift r s = (Ok a, s') <-> r = Ok a /\ s' = s.
Proof. unfold act_lift. naive_solver. Qed.

Lemma act_zoom_ok {X St E E' A} (f : E' -> E) (m : action St E' A) (s s' : X * St) a :
  act_zoom f m s = (Ok a, s') <-> m s.2 = (Ok a, s'.2) /\ s'.1 = s.1.
Proof. unfold act_zoom. destruct s as [x t], s' as [x' t']. destruct (m _) as [[|] ?]; naive_solver. Qed.

Lemma act_ret_ok {St E A} (a b : A) (s s' : St) : act_ret (E := E) a s = (Ok b, s') <-> a = b /\ s' = s.
Proof. unfold act_ret. naive_solver. Qed.
Lemma act_gets_ok {St E A} (f : St -> A) (s s' : St) b :
  act_gets (E := E) f s = (Ok b, s') <-> f s = b /\ s' = s.
Proof. unfold act_gets. naive_solver. Qed.
Lemma act_modify_ok {St E} (f : St -> St) (s s' : St) u :
  act_modify (E := E) f s = (Ok u, s') <-> s' = f s.
Proof. unfold act_modify. destruct u. naive_solver. Qed.

(** Steps through a computation that succeeded. *)
Tactic Notation "act_step" hyp(H) "as" simple_intropattern(a) simple_intropattern(t) simple_intropattern(e) :=
  apply act_bind_ok in H as (a & t & e & H).

Inductive TxOutError :=
| UnExpectedNullValue
| UnExpectedNullAsset
| MoneyOutofRange
| NonUnspendableZeroValue
| ZeroValueCommitment
| IncorrectBlindingFactors.

(** The errors of [secp256k1_zkp] are not told apart; [ConfPanic] is a panic of the code. *)
Inductive ConfidentialTxOutError :=
| InvalidAddress
| NoBlindingKeyInAddress
| Upstream
| ConfTxOutError (i : nat) (e : TxOutError)
| ExpectedExplicitAsset
| ExpectedExplicitValue
| ConfPanic.

Inductive VerificationError :=
| RangeProofError (i : nat)
| RangeProofMissing (i : nat)
| SurjectionProofError (i : nat)
| SurjectionProofVerificationError (i : nat)
| SurjectionProofMissing (i : nat)
| SpentTxOutError (i : nat) (e : TxOutError)
| VerifyTxOutError (i : nat) (e : TxOutError)
| IssuanceTransactionInput (i : nat)
| UtxoInputLenMismatch
| BalanceCheckFailed
| VerifyPanic.

Inductive UnblindError :=
| NotConfidential
| MissingNonce
| MissingRangeproof
| MalformedAssetId
| UnblindUpstream
| UnblindPanic.

Inductive BlindError :=
| BlindInvalidAddress
| TooFewBlindingOutputs
| MustHaveAllExplicitTxOuts
| BlindConfidentialTxOutError (e : ConfidentialTxOutError)
| NoIssuanceToBlind
| ZeroValueBlindingNotAllowed
| IssuanceAmountMustBeExplicit
| BlindPanic.

Inductive PsetBlindError :=
| InputTxOutSecretLen
| OutputTxOutSecretLen
| BlinderIndexOutOfBounds (i blinder : nat)
| MissingInputBlinds (i blinder : nat)
| AtleastOneOutputBlind
| MustHaveExplicitTxOut (i : nat)
| MissingWitnessUtxo (i : nat)
| PsetConfidentialTxOutError (i : nat) (e : ConfidentialTxOutError)
| BlindingProofsCreationError (i : nat)
| BlindingIssuanceUnsupported (i : nat)
| PsetBlindPanic.

(** ** Parameters *)

(** The value, the blinding factor of its commitment and the one of its generator. *)
Record CommitmentSecrets {S : Secp} := mkCommitmentSecrets
  { cs_value : Z;
    value_blinding_factor : Tweak;
    generator_blinding_factor : Tweak }.
Arguments mkCommitmentSecrets {S} _ _ _.

(** [secp256k1_zkp]: keys, commitments, proofs, and a source of randomness. *)
Class Zkp {S : Secp} :=
  { SecretKey : ext_type;
    ZkpRng : Type;
    Tweak_new : ZkpRng -> Tweak * ZkpRng;
    SecretKey_new : ZkpRng -> SecretKey * ZkpRng;
    sk_add_tweak : SecretKey -> SecretKey -> option SecretKey;
    sk_negate : SecretKey -> SecretKey;
    from_secret_key : SecretKey -> PublicKey;
    shared_secret_point : PublicKey -> SecretKey -> bytes;
    Generator_new_blinded : bytes -> Tweak -> Generator;
    Generator_new_unblinded : bytes -> Generator;
    Pedersen_new : Z -> Tweak -> Generator -> PedersenCommitment;
    Pedersen_new_unblinded : Z -> Generator -> PedersenCommitment;
    compute_adaptive_blinding_factor : Z -> Tweak -> list CommitmentSecrets -> list CommitmentSecrets -> Tweak;
    SurjectionProof_new : bytes -> Tweak -> list (Generator * bytes * Tweak) -> ZkpRng -> option SurjectionProof * ZkpRng;
    SurjectionProof_verify : SurjectionProof -> Generator -> list Generator -> bool;
    (** min_value, commitment, value, blinding factor, message, additional commitment, nonce,
        exponent, min_bits, additional generator *)
    RangeProof_new : Z -> PedersenCommitment -> Z -> Tweak -> bytes -> bytes -> SecretKey -> Z -> Z -> Generator -> option RangeProof;
    RangeProof_verify : RangeProof -> PedersenCommitment -> bytes -> Generator -> option (Z * Z);
    (** value, message and blinding factor *)
    RangeProof_rewind : RangeProof -> PedersenCommitment -> SecretKey -> bytes -> Generator -> option (Z * bytes * Tweak);
    verify_commitments_sum_to_equal : list PedersenCommitment -> list PedersenCommitment -> bool;
    (** the iteration order of a hash table *)
    sec_iter : gmap nat TxOutSecrets -> list (nat * TxOutSecrets);
    sec_iter_perm m : sec_iter m ≡ₚ map_to_list m }.

Definition Tag_default : bytes := replicate 32 Byte.x00.

Section blind.
Context {P : Platform} {S : Secp} {H : Hashes} {M : Midstates} {T : TapEnv} {C : SchnorrEnv}
  {E : PsetEnv} {K : Zkp}.

Definition sec_entry : Type := (Z * Tweak * Tweak)%type.

(** ** Blinding factors *)

Definition to_commitment_secrets (e : sec_entry) : CommitmentSecrets :=
  mkCommitmentSecrets e.1.1 e.2 e.1.2.

(** [ValueBlindingFactor::last]. *)
Definition vbf_last (value : Z) (abf : Tweak) (ins outs : list sec_entry) : Tweak :=
  compute_adaptive_blinding_factor value abf (map to_commitment_secrets ins) (map to_commitment_secrets outs).

(** [AddAssign]; [None]: one of the [expect]s. *)
Definition vbf_add (a b : Tweak) : option Tweak :=
  if bool_decide (ext_ser a = Tag_default) then Some b
  else if bool_decide (ext_ser b = Tag_default) then Some a
  else
    sk2 ← ext_parse (e := SecretKey) (ext_ser a);
    sk ← ext_parse (e := SecretKey) (ext_ser b);
    match sk_add_tweak sk sk2 with
    | Some sk_tweaked => ext_parse (ext_ser sk_tweaked)
    | None => Some ZERO_TWEAK
    end.

Definition vbf_neg (a : Tweak) : option Tweak :=
  if bool_decide (ext_ser a = Tag_default) then Some a
  else sk ← ext_parse (e := SecretKey) (ext_ser a); ext_parse (ext_ser (sk_negate sk)).

(** ** Nonces *)

(** [None]: a hash that is no secret key. *)
Definition make_shared_secret (pk : PublicKey) (sk : SecretKey) : option SecretKey :=
  let xy := shared_secret_point pk sk in
  y ← last xy;
  let dh_secret := z2b (if b2z y mod 2 =? 0 then 0x02 else 0x03) :: take 32 xy in
  ext_parse (sha256d dh_secret).

Definition with_ephemeral_sk (ephemeral_sk : SecretKey) (receiver_blinding_pk : PublicKey) : option (Nonce * SecretKey) :=
  shared ← make_shared_secret receiver_blinding_pk ephemeral_sk;
  Some (NonceConfidential (from_secret_key ephemeral_sk), shared).

Definition shared_secret (n : Nonce) (receiver_blinding_sk : SecretKey) : option (option SecretKey) :=
  match n with
  | NonceConfidential sender_pk => Some (make_shared_secret sender_pk receiver_blinding_sk)
  | _ => None
  end.

(** ** Surjection inputs *)

Inductive SurjectionInput :=
| SurjUnknown (a : Asset)
| SurjKnown (a : AssetId) (bf : Tweak).

Definition from_txout_secrets (s : TxOutSecrets) : SurjectionInput := SurjKnown (sec_asset s) (asset_bf s).

Definition into_asset_gen (a : Asset) : option Generator :=
  match a with
  | AssetNull => None
  | AssetExplicit x => Some (Generator_new_unblinded x)
  | AssetConfidential gen => Some gen
  end.

Definition surjection_target (i : SurjectionInput) : result (Generator * bytes * Tweak) TxOutError :=
  match i with
  | SurjUnknown a =>
      let? gen := ok_or (into_asset_gen a) UnExpectedNullAsset in Ok (gen, Tag_default, ZERO_TWEAK)
  | SurjKnown a bf => Ok (Generator_new_blinded a bf, a, bf)
  end.

(** The targets of a list; the error names the first input without one. *)
Fixpoint surjection_targets (n : nat) (l : list SurjectionInput)
  : result (list (Generator * bytes * Tweak)) ConfidentialTxOutError :=
  match l with
  | [] => Ok []
  | i :: l =>
      match surjection_target i with
      | Ok t => let? ts := surjection_targets (Datatypes.S n) l in Ok (t :: ts)
      | Err e => Err (ConfTxOutError n e)
      end
  end.

(** ** Assets and values *)

Definition Asset_new_confidential (a : AssetId) (bf : Tweak) : Asset := AssetConfidential (Generator_new_blinded a bf).
Definition Value_new_confidential (v : Z) (gen : Generator) (bf : Tweak) : Value := ValueConfidential (Pedersen_new v bf gen).

Definition Asset_blind (self : Asset) (asset_bf : Tweak) (spent : list SurjectionInput)
  : action ZkpRng ConfidentialTxOutError (Asset * SurjectionProof) :=
  let! asset := act_lift (ok_or (Asset_explicit self) ExpectedExplicitAsset) in
  let out_asset := Asset_new_confidential asset asset_bf in
  let! ins := act_lift (surjection_targets 0 spent) in
  fun r =>
    match SurjectionProof_new asset asset_bf ins r with
    | (Some prf, r') => (Ok (out_asset, prf), r')
    | (None, r') => (Err Upstream, r')
    end.

Record RangeProofMessage := mkRangeProofMessage { msg_asset : AssetId; msg_bf : Tweak }.
Definition msg_to_bytes (m : RangeProofMessage) : bytes := msg_asset m ++ ext_ser (msg_bf m).

Definition RANGEPROOF_MIN_VALUE : Z := 1.
Definition RANGEPROOF_EXP_SHIFT : Z := 0.
Definition RANGEPROOF_MIN_PRIV_BITS : Z := 52.
Definition MAX_MONEY : Z := 21000000 * 100000000.

Definition blind_with_shared_secret (self : Value) (vbf : Tweak) (shared_secret : SecretKey) (spk : Script)
    (msg : RangeProofMessage) : result (Value * RangeProof) ConfidentialTxOutError :=
  let? value := ok_or (Value_explicit self) ExpectedExplicitValue in
  let out_asset_commitment := Generator_new_blinded (msg_asset msg) (msg_bf msg) in
  let value_commitment := Value_new_confidential value out_asset_commitment vbf in
  let? comm := ok_or (Value_commitment value_commitment) ConfPanic in
  let? rangeproof := ok_or (RangeProof_new RANGEPROOF_MIN_VALUE comm value vbf (msg_to_bytes msg) spk
                              shared_secret RANGEPROOF_EXP_SHIFT RANGEPROOF_MIN_PRIV_BITS out_asset_commitment) Upstream in
  Ok (value_commitment, rangeproof).

Definition Value_blind (self : Value) (vbf : Tweak) (receiver_blinding_pk : PublicKey) (ephemeral_sk : SecretKey)
    (spk : Script) (msg : RangeProofMessage) : result (Value * Nonce * RangeProof) ConfidentialTxOutError :=
  let? ns := ok_or (with_ephemeral_sk ephemeral_sk receiver_blinding_pk) ConfPanic in
  let? vr := blind_with_shared_secret self vbf ns.2 spk msg in
  Ok (vr.1, ns.1, vr.2).

(** ** Outputs *)

Definition with_txout_secrets (spk : Script) (receiver_blinding_pk : PublicKey) (ephemeral_sk : SecretKey)
    (out_secrets : TxOutSecrets) (spent : list SurjectionInput) : action ZkpRng ConfidentialTxOutError TxOut :=
  let! ap := Asset_blind (AssetExplicit (sec_asset out_secrets)) (asset_bf out_secrets) spent in
  let msg := mkRangeProofMessage (sec_asset out_secrets) (asset_bf out_secrets) in
  let! vnr := act_lift (Value_blind (ValueExplicit (sec_value out_secrets)) (value_bf out_secrets)
                          receiver_blinding_pk ephemeral_sk spk msg) in
  act_ret (mkTxOut ap.1 vnr.1.1 vnr.1.2 spk (mkTxOutWitness (Some ap.2) (Some vnr.2))).

Definition draw_tweak {X} : action ZkpRng X Tweak := fun r => let '(t, r) := Tweak_new r in (Ok t, r).
Definition draw_key {X} : action ZkpRng X SecretKey := fun r => let '(k, r) := SecretKey_new r in (Ok k, r).

Definition new_not_last_confidential (value : Z) (address : Address) (asset : AssetId) (spent : list SurjectionInput)
  : action ZkpRng ConfidentialTxOutError (TxOut * Tweak * Tweak * SecretKey) :=
  let! spk := act_lift (ok_or (address_script_pubkey address) ConfPanic) in
  let! blinder := act_lift (ok_or (blinding_pubkey address) NoBlindingKeyInAddress) in
  let! asset_bf := draw_tweak in
  let! value_bf := draw_tweak in
  let! ephemeral_sk := draw_key in
  let! txout := with_txout_secrets spk blinder ephemeral_sk (mkSecrets asset asset_bf value value_bf) spent in
  act_ret (txout, asset_bf, value_bf, ephemeral_sk).

Definition to_non_last_confidential (self : TxOut) (blinder : PublicKey) (spent : list SurjectionInput)
  : action ZkpRng ConfidentialTxOutError (TxOut * Tweak * Tweak * SecretKey) :=
  let! v := act_lift (ok_or (Value_explicit (value self)) ExpectedExplicitValue) in
  let! address := act_lift (ok_or (from_script (script_pubkey self) (Some blinder) ELEMENTS) InvalidAddress) in
  let! a := act_lift (ok_or (Asset_explicit (asset self)) ExpectedExplicitAsset) in
  new_not_last_confidential v address a spent.

Definition value_blind_inputs (s : TxOutSecrets) : sec_entry := (sec_value s, asset_bf s, value_bf s).

Definition with_secrets_last (value : Z) (spk : Script) (blinder : PublicKey) (asset : AssetId)
    (ephemeral_sk : SecretKey) (out_abf : Tweak) (spent_utxo_secrets output_secrets : list TxOutSecrets)
  : action ZkpRng ConfidentialTxOutError (TxOut * Tweak) :=
  let out_vbf := vbf_last value out_abf (map value_blind_inputs spent_utxo_secrets)
                   (map value_blind_inputs output_secrets) in
  let! txout := with_txout_secrets spk blinder ephemeral_sk (mkSecrets asset out_abf value out_vbf)
                  (map from_txout_secrets spent_utxo_secrets) in
  act_ret (txout, out_vbf).

Definition new_last_confidential (value : Z) (asset : AssetId) (spk : Script) (blinder : PublicKey)
    (spent_utxo_secrets output_secrets : list TxOutSecrets)
  : action ZkpRng ConfidentialTxOutError (TxOut * Tweak * Tweak * SecretKey) :=
  let! out_abf := draw_tweak in
  let! ephemeral_sk := draw_key in
  let! tv := with_secrets_last value spk blinder asset ephemeral_sk out_abf spent_utxo_secrets output_secrets in
  act_ret (tv.1, out_abf, tv.2, ephemeral_sk).

(** ** Unblinding *)

Definition unblind (self : TxOut) (blinding_key : SecretKey) : result TxOutSecrets UnblindError :=
  let? cg := match value self, asset self with
             | ValueConfidential com, AssetConfidential gen => Ok (com, gen)
             | _, _ => Err NotConfidential
             end in
  let? shared := ok_or (shared_secret (nonce self) blinding_key) MissingNonce in
  let? shared := ok_or shared UnblindPanic in
  let? prf := ok_or (rangeproof (out_witness self)) MissingRangeproof in
  let? opening := ok_or (RangeProof_rewind prf cg.1 shared (script_pubkey self) cg.2) UnblindUpstream in
  let '(opened_value, message, blinding_factor) := opening in
  if (length message <? 64)%nat then Err MissingRangeproof
  else
    let asset_id := take 32 message in
    let? asset_bf := ok_or (ext_parse (take 32 (drop 32 message))) UnblindUpstream in
    if bool_decide (Generator_new_blinded asset_id asset_bf = cg.2)
    then Ok (mkSecrets asset_id asset_bf opened_value blinding_factor)
    else Err MissingRangeproof.

(** ** Proofs that a commitment is to an explicit value or asset *)

Definition blind_value_proof (explicit_val : Z) (value_commit : PedersenCommitment) (asset_gen : Generator)
    (vbf : Tweak) : action ZkpRng () RangeProof :=
  let! nonce := draw_key in
  act_lift (ok_or (RangeProof_new explicit_val value_commit explicit_val vbf [] [] nonce (-1) 0 asset_gen) ()).

(** [e.end - 1]: the end of a range is never 0. *)
Definition blind_value_proof_verify (self : RangeProof) (explicit_val : Z) (asset_gen : Generator)
    (value_commit : PedersenCommitment) : bool :=
  match RangeProof_verify self value_commit [] asset_gen with
  | Some (start, end_) => (start =? explicit_val) && (end_ - 1 =? explicit_val)
  | None => false
  end.

Definition blind_asset_proof (asset : AssetId) (abf : Tweak) : action ZkpRng () SurjectionProof :=
  fun r =>
    match SurjectionProof_new asset abf [(Generator_new_unblinded asset, asset, ZERO_TWEAK)] r with
    | (Some prf, r') => (Ok prf, r')
    | (None, r') => (Err (), r')
    end.

Definition blind_asset_proof_verify (self : SurjectionProof) (asset : AssetId) (asset_commit : Generator) : bool :=
  SurjectionProof_verify self asset_commit [Generator_new_unblinded asset].

(** ** Blinding a PSET *)

Definition bstate : Type := (PartiallySignedTransaction * ZkpRng)%type.

(** The first input with an issuance that is to be blinded. *)
Definition blinds_issuance (i : PsetInput) : bool :=
  pset_has_issuance i && (default 1 (blinded_issuance i) =? 1).

(** The outputs that the owner of the given inputs blinds. *)
Fixpoint outs_to_blind (n_inputs : nat) (inp_txout_sec : gmap nat TxOutSecrets) (i : nat) (outs : list PsetOutput)
  : result (list nat) PsetBlindError :=
  match outs with
  | [] => Ok []
  | out :: outs =>
      match blinding_key out, blinder_index out with
      | Some _, Some blind_index =>
          let b := Z.to_nat blind_index in
          if (n_inputs <=? b)%nat then Err (BlinderIndexOutOfBounds i b)
          else
            let? l := outs_to_blind n_inputs inp_txout_sec (Datatypes.S i) outs in
            Ok (if bool_decide (is_Some (inp_txout_sec !! b)) then i :: l else l)
      | _, _ => outs_to_blind n_inputs inp_txout_sec (Datatypes.S i) outs
      end
  end.

Definition blind_checks (p : PartiallySignedTransaction) (inp_txout_sec : gmap nat TxOutSecrets)
  : result (list sec_entry * list nat) PsetBlindError :=
  match list_find (fun i => blinds_issuance i = true) (inputs p) with
  | Some (i, _) => Err (BlindingIssuanceUnsupported i)
  | None =>
      let? l := outs_to_blind (length (inputs p)) inp_txout_sec 0 (outputs p) in
      Ok (map (fun ks => value_blind_inputs ks.2) (sec_iter inp_txout_sec), l)
  end.

(** What one input adds to the domain; [None]: a panic of [issuance_ids]. *)
Definition issuance_inputs (inp : PsetInput) : option (list SurjectionInput) :=
  if pset_has_issuance inp then
    ids ← pset_issuance_ids inp;
    Some ((if bool_decide (is_Some (issuance_value_amount inp)) || bool_decide (is_Some (issuance_value_comm inp))
           then [SurjKnown ids.1 ZERO_TWEAK] else []) ++
          (if bool_decide (is_Some (issuance_inflation_keys inp)) || bool_decide (is_Some (issuance_inflation_keys_comm inp))
           then [SurjKnown ids.2 ZERO_TWEAK] else []))
  else Some [].

Fixpoint surjection_inputs_from (inp_txout_sec : gmap nat TxOutSecrets) (i : nat) (l : list PsetInput)
  : result (list SurjectionInput) PsetBlindError :=
  match l with
  | [] => Ok []
  | inp :: l =>
      let? utxo := ok_or (witness_utxo inp) (MissingWitnessUtxo i) in
      let surject_target := match inp_txout_sec !! i with
                            | Some sec => from_txout_secrets sec
                            | None => SurjUnknown (asset utxo)
                            end in
      let? iss := ok_or (issuance_inputs inp) PsetBlindPanic in
      let? rest := surjection_inputs_from inp_txout_sec (Datatypes.S i) l in
      Ok (surject_target :: iss ++ rest)
  end.

Definition surjection_inputs (p : PartiallySignedTransaction) (inp_txout_sec : gmap nat TxOutSecrets)
  : result (list SurjectionInput) PsetBlindError :=
  surjection_inputs_from inp_txout_sec 0 (inputs p).

Definition update_out (i : nat) (f : PsetOutput -> PsetOutput) : action bstate PsetBlindError () :=
  act_modify (fun s => (mkPset (global s.1) (inputs s.1) (alter f i (outputs s.1)), s.2)).

(** [self.outputs[i]]; the indices come from [blind_checks], within bounds. *)
Definition out_at (i : nat) : action bstate PsetBlindError PsetOutput :=
  let! o := act_gets (fun s => outputs s.1 !! i) in act_lift (ok_or o PsetBlindPanic).

(** The commitments of an output and their proofs. *)
Definition set_commitments (txout : TxOut) (o : PsetOutput) : PsetOutput :=
  o <| value_rangeproof := rangeproof (out_witness txout) |>
    <| asset_surjection_proof := surjection_proof (out_witness txout) |>
    <| amount_comm := Value_commitment (value txout) |>
    <| asset_comm := Asset_commitment (asset txout) |>
    <| ecdh_pubkey := (fun k => mkBtcPk k true) <$> Confidential.Nonce_commitment (nonce txout) |>.

(** The block that mutates an output, the same for both roles. *)
Definition commit_output (i : nat) (txout : TxOut) (v : Z) (abf vbf : Tweak) : action bstate PsetBlindError () :=
  let! _ := update_out i (set_commitments txout) in
  let! o := out_at i in
  let! asset_id := act_lift (ok_or (o_asset o) (MustHaveExplicitTxOut i)) in
  let! prf := act_zoom (fun _ => BlindingProofsCreationError i) (blind_asset_proof asset_id abf) in
  let! _ := update_out i (fun o => o <| o_blind_asset_proof := Some prf |>) in
  let! asset_gen := act_lift (ok_or (asset_comm o) PsetBlindPanic) in
  let! value_comm := act_lift (ok_or (amount_comm o) PsetBlindPanic) in
  let! prf := act_zoom (fun _ => BlindingProofsCreationError i) (blind_value_proof v value_comm asset_gen vbf) in
  update_out i (fun o => o <| o_blind_value_proof := Some prf |>).

(** One round of the loop of [blind_non_last]. *)
Definition blind_output (surject_inputs : list SurjectionInput) (i : nat) : action bstate PsetBlindError sec_entry :=
  let! o := out_at i in
  let! pk := act_lift (ok_or (pk_inner <$> blinding_key o) (MustHaveExplicitTxOut i)) in
  let! r := act_zoom (PsetConfidentialTxOutError i) (to_non_last_confidential (to_txout o) pk surject_inputs) in
  let '(txout, abf, vbf, _) := r in
  let! v := act_lift (ok_or (o_amount o) (MustHaveExplicitTxOut i)) in
  let! _ := commit_output i txout v abf vbf in
  act_ret (v, abf, vbf).

Definition set_scalars (l : list Tweak) (p : PartiallySignedTransaction) : PartiallySignedTransaction :=
  let g := global p in
  mkPset (mkGlobal (tx_data g) (pset_version g) (xpub g) l (elements_tx_modifiable_flag g) (g_proprietary g) (g_unknown g))
    (inputs p) (outputs p).

Definition push_scalar (t : Tweak) : action bstate PsetBlindError () :=
  act_modify (fun s => (set_scalars (scalars (global s.1) ++ [t]) s.1, s.2)).

Definition blind_non_last (inp_txout_sec : gmap nat TxOutSecrets)
  : action bstate PsetBlindError (list (Tweak * Tweak)) :=
  let! p := act_gets fst in
  let! c := act_lift (blind_checks p inp_txout_sec) in
  let '(inp_secrets, outs) := c in
  match outs with
  | [] => act_ret []
  | _ :: _ =>
      let! surject_inputs := act_lift (surjection_inputs p inp_txout_sec) in
      let! out_secrets := act_mapM (blind_output surject_inputs) outs in
      let! last_secret := act_lift (ok_or (last out_secrets) PsetBlindPanic) in
      let '(v, abf, vbf) := last_secret in
      let vbf2 := vbf_last v abf inp_secrets (removelast out_secrets) in
      let! neg := act_lift (ok_or (vbf_neg vbf) PsetBlindPanic) in
      let! vbf2 := act_lift (ok_or (vbf_add vbf2 neg) PsetBlindPanic) in
      let! _ := push_scalar vbf2 in
      act_ret (map (fun e => (e.1.2, e.2)) out_secrets)
  end.

(** The amounts of the outputs without a blinding key. *)
Fixpoint explicit_outs (i : nat) (outs : list PsetOutput) : result (list sec_entry) PsetBlindError :=
  match outs with
  | [] => Ok []
  | out :: outs =>
      if is_marked_for_blinding out then explicit_outs (Datatypes.S i) outs
      else
        let? amt := ok_or (o_amount out) (MustHaveExplicitTxOut i) in
        let? l := explicit_outs (Datatypes.S i) outs in
        Ok ((amt, ZERO_TWEAK, ZERO_TWEAK) :: l)
  end.

Definition add_scalars (vbf : Tweak) (l : list Tweak) : option Tweak :=
  foldl (fun acc t => a ← acc; vbf_add a t) (Some vbf) l.

(** The part of [blind_last] that blinds every output but the last one.  When it fails, the
    last output stays without its blinder index. *)
Definition blind_all_but (last_out_index : nat) (inp_txout_sec : gmap nat TxOutSecrets)
  : action bstate PsetBlindError () :=
  let! o := out_at last_out_index in
  let! _ := update_out last_out_index (fun o => o <| blinder_index := None |>) in
  let! _ := blind_non_last inp_txout_sec in
  update_out last_out_index (fun o' => o' <| blinder_index := blinder_index o |>).

(** The rest of it: the last output, whose value blinding factor balances the transaction. *)
Definition blind_last_output (last_out_index : nat) (inp_txout_sec : gmap nat TxOutSecrets) (inp_secrets : list sec_entry)
  : action bstate PsetBlindError () :=
  let! p := act_gets fst in
  let! surject_inputs := act_lift (surjection_inputs p inp_txout_sec) in
  let! o := out_at last_out_index in
  let! asset_id := act_lift (ok_or (o_asset o) (MustHaveExplicitTxOut last_out_index)) in
  let! out_abf := act_zoom id draw_tweak in
  let! ap := act_zoom (PsetConfidentialTxOutError last_out_index)
               (Asset_blind (AssetExplicit asset_id) out_abf surject_inputs) in
  let! v := act_lift (ok_or (o_amount o) (MustHaveExplicitTxOut last_out_index)) in
  let! exp_out_secrets := act_lift (explicit_outs 0 (outputs p)) in
  let! final_vbf := act_lift (ok_or (add_scalars (vbf_last v out_abf inp_secrets exp_out_secrets)
                                       (scalars (global p))) PsetBlindPanic) in
  let! pk := act_lift (ok_or (blinding_key o) (MustHaveExplicitTxOut last_out_index)) in
  let! ephemeral_sk := act_zoom id draw_key in
  let msg := mkRangeProofMessage asset_id out_abf in
  let! vnr := act_zoom (PsetConfidentialTxOutError last_out_index)
                (act_lift (Value_blind (ValueExplicit v) final_vbf (pk_inner pk) ephemeral_sk (o_script_pubkey o) msg)) in
  let txout := mkTxOut ap.1 vnr.1.1 vnr.1.2 (o_script_pubkey o) (mkTxOutWitness (Some ap.2) (Some vnr.2)) in
  let! _ := commit_output last_out_index txout v out_abf final_vbf in
  act_modify (fun s => (set_scalars [] s.1, s.2)).

Definition blind_last (inp_txout_sec : gmap nat TxOutSecrets) : action bstate PsetBlindError () :=
  let! p := act_gets fst in
  let! c := act_lift (blind_checks p inp_txout_sec) in
  let '(inp_secrets, outs) := c in
  match last outs with
  | None => act_lift (Err AtleastOneOutputBlind)
  | Some last_out_index =>
      match removelast outs with
      | [] => blind_last_output last_out_index inp_txout_sec inp_secrets
      | _ :: _ =>
          let! _ := blind_all_but last_out_index inp_txout_sec in
          blind_last_output last_out_index inp_txout_sec []
      end
  end.

(** ** Verification of amounts *)

Definition get_asset_gen (o : TxOut) : result Generator TxOutError :=
  ok_or (into_asset_gen (asset o)) UnExpectedNullAsset.

Definition get_value_commit (o : TxOut) : result PedersenCommitment TxOutError :=
  match value o with
  | ValueNull => Err UnExpectedNullValue
  | ValueExplicit v =>
      if MAX_MONEY <? v then Err MoneyOutofRange
      else if v =? 0 then
        Err (if is_provably_unspendable (script_pubkey o) then ZeroValueCommitment else NonUnspendableZeroValue)
      else let? asset_comm := get_asset_gen o in Ok (Pedersen_new_unblinded v asset_comm)
  | ValueConfidential comm => Ok comm
  end.

Definition map_err {A E1 E2} (f : E1 -> E2) (r : result A E1) : result A E2 :=
  match r with Ok a => Ok a | Err e => Err (f e) end.

(** The generator and the commitment of an issued amount. *)
Definition issued_commit (amt : Value) (asset : AssetId) : list (Generator * PedersenCommitment) :=
  let gen := Generator_new_unblinded asset in
  match amt with
  | ValueNull => []
  | ValueExplicit v => [(gen, Pedersen_new_unblinded v gen)]
  | ValueConfidential comm => [(gen, comm)]
  end.

Definition issuance_commits (inp : TxIn) : result (list (Generator * PedersenCommitment)) VerificationError :=
  if has_issuance inp then
    let? ids := ok_or (issuance_ids inp) VerifyPanic in
    Ok (issued_commit (amount (asset_issuance inp)) ids.1 ++ issued_commit (inflation_keys (asset_issuance inp)) ids.2)
  else Ok [].

(** The domain of the surjection proofs and the commitments of the inputs. *)
Fixpoint verify_inputs (i : nat) (ins : list TxIn) (spent_utxos : list TxOut)
  : result (list (Generator * PedersenCommitment)) VerificationError :=
  match ins, spent_utxos with
  | inp :: ins, utxo :: spent_utxos =>
      let? gen := map_err (SpentTxOutError i) (get_asset_gen utxo) in
      let? comm := map_err (SpentTxOutError i) (get_value_commit utxo) in
      let? iss := issuance_commits inp in
      let? rest := verify_inputs (Datatypes.S i) ins spent_utxos in
      Ok ((gen, comm) :: iss ++ rest)
  | _, _ => Ok []
  end.

Definition verify_rangeproof (i : nat) (out : TxOut) : result () VerificationError :=
  match Value_commitment (value out) with
  | Some comm =>
      let? gen := map_err (VerifyTxOutError i) (get_asset_gen out) in
      let? prf := ok_or (rangeproof (out_witness out)) (RangeProofMissing i) in
      let? _ := ok_or (RangeProof_verify prf comm (script_pubkey out) gen) (RangeProofError i) in
      Ok ()
  | None => Ok ()
  end.

Definition verify_surjectionproof (domain : list Generator) (i : nat) (out : TxOut) : result () VerificationError :=
  match Asset_commitment (asset out) with
  | Some gen =>
      let? prf := ok_or (surjection_proof (out_witness out)) (SurjectionProofMissing i) in
      if SurjectionProof_verify prf gen domain then Ok () else Err (SurjectionProofVerificationError i)
  | None => Ok ()
  end.

Fixpoint verify_outputs (domain : list Generator) (i : nat) (outs : list TxOut)
  : result (list PedersenCommitment) VerificationError :=
  match outs with
  | [] => Ok []
  | out :: outs =>
      let? out_commit := map_err (SpentTxOutError i) (get_value_commit out) in
      let? _ := verify_rangeproof i out in
      let? _ := verify_surjectionproof domain i out in
      let? rest := verify_outputs domain (Datatypes.S i) outs in
      Ok (out_commit :: rest)
  end.

Definition verify_tx_amt_proofs (tx : Transaction) (spent_utxos : list TxOut) : result () VerificationError :=
  if negb (length spent_utxos =? length (input tx))%nat then Err UtxoInputLenMismatch
  else
    let? ins := verify_inputs 0 (input tx) spent_utxos in
    let? out_commits := verify_outputs ins.*1 0 (output tx) in
    if verify_commitments_sum_to_equal ins.*2 out_commits then Ok () else Err BalanceCheckFailed.

(** ** Blinding a transaction *)

(** One round of the loop of [blind_issuances_with_bfs]: the amount (0) or the tokens (1). *)
Definition blind_issuance_amount (i : nat) (bf : Tweak) (amt : Value) (blind_sk : SecretKey) (asset : AssetId)
  : action TxIn BlindError () :=
  match amt with
  | ValueNull => act_ret ()
  | ValueConfidential _ => act_lift (Err IssuanceAmountMustBeExplicit)
  | ValueExplicit v =>
      if v =? 0 then act_lift (Err ZeroValueBlindingNotAllowed)
      else
        let! cp := act_lift (map_err BlindConfidentialTxOutError
                     (blind_with_shared_secret (ValueExplicit v) bf blind_sk [] (mkRangeProofMessage asset ZERO_TWEAK))) in
        act_modify (fun txin =>
          let a := asset_issuance txin in
          let w := in_witness txin in
          mkTxIn (previous_output txin) (is_pegin txin) (script_sig txin) (sequence txin)
            (if (i =? 0)%nat
             then mkIssuance (asset_blinding_nonce a) (asset_entropy a) cp.1 (inflation_keys a) (denomination a)
             else mkIssuance (asset_blinding_nonce a) (asset_entropy a) (amount a) cp.1 (denomination a))
            (if (i =? 0)%nat
             then mkTxInWitness (Some cp.2) (inflation_keys_rangeproof w) (script_witness w) (pegin_witness w)
             else mkTxInWitness (amount_rangeproof w) (Some cp.2) (script_witness w) (pegin_witness w)))
  end.

Definition blind_issuances_with_bfs (issue_vbf token_vbf : Tweak) (issue_sk token_sk : SecretKey)
  : action TxIn BlindError () :=
  let! self := act_gets id in
  if negb (has_issuance self) then act_lift (Err NoIssuanceToBlind)
  else
    let! ids := act_lift (ok_or (issuance_ids self) BlindPanic) in
    let a := asset_issuance self in
    let! _ := blind_issuance_amount 0 issue_vbf (amount a) issue_sk ids.1 in
    blind_issuance_amount 1 token_vbf (inflation_keys a) token_sk ids.2.

(** A computation on the first component. *)
Definition act_first {X Y R A} (m : action X R A) : action (X * Y) R A :=
  fun s => let '(r, x) := m s.1 in (r, (x, s.2)).

Definition blind_issuances : action (TxIn * ZkpRng) BlindError (Tweak * SecretKey * Tweak * SecretKey) :=
  let! issue_vbf := act_zoom id draw_tweak in
  let! token_vbf := act_zoom id draw_tweak in
  let! issue_sk := act_zoom id draw_key in
  let! token_sk := act_zoom id draw_key in
  let! _ := act_first (blind_issuances_with_bfs issue_vbf token_vbf issue_sk token_sk) in
  act_ret (issue_vbf, issue_sk, token_vbf, token_sk).

Inductive TxInType :=
| TxInput (i : nat)
| TxIssuance (i : nat)
| TxReIssuance (i : nat).

Definition blinds_map : Type := list (TxInType * (Tweak * Tweak * SecretKey)).
Definition tstate : Type := (Transaction * ZkpRng)%type.

Definition set_inputs (l : list TxIn) (tx : Transaction) : Transaction := mkTransaction (version tx) (lock_time tx) l (output tx).
Definition set_outputs (l : list TxOut) (tx : Transaction) : Transaction := mkTransaction (version tx) (lock_time tx) (input tx) l.

Definition at_input {A} (i : nat) (m : action (TxIn * ZkpRng) BlindError A) : action tstate BlindError A :=
  fun s => match input s.1 !! i with
           | Some inp => let '(r, (inp', rng)) := m (inp, s.2) in (r, (set_inputs (<[i := inp']> (input s.1)) s.1, rng))
           | None => (Err BlindPanic, s)
           end.

(** The blinding of the issuance of one input, and the entries it adds. *)
Definition blind_input (i : nat) : action tstate BlindError blinds_map :=
  at_input i
    (let! inp := act_gets fst in
     if has_issuance inp then
       let! b := blind_issuances in
       let '(iss_vbf, iss_sk, tkn_vbf, tkn_sk) := b in
       let! inp := act_gets fst in
       act_ret ((if Value_is_confidential (amount (asset_issuance inp)) then [(TxIssuance i, (ZERO_TWEAK, iss_vbf, iss_sk))] else []) ++
                (if Value_is_confidential (inflation_keys (asset_issuance inp)) then [(TxReIssuance i, (ZERO_TWEAK, tkn_vbf, tkn_sk))] else []))
     else act_ret []).

Definition to_blind (o : TxOut) : bool := negb (is_fee o) && Nonce_is_confidential (nonce o).

Record tally := mkTally
  { num_blinded : nat;
    out_secrets : list TxOutSecrets;
    last_output_index : option nat;
    blinds : blinds_map }.

(** One round of the loop over the outputs. *)
Definition blind_tx_output (num_to_blind : nat) (spent_utxo_secrets : list TxOutSecrets) (t : tally) (i : nat)
  : action tstate BlindError tally :=
  let! o := act_gets (fun s => output s.1 !! i) in
  let! out := act_lift (ok_or o BlindPanic) in
  let! a := act_lift (ok_or (Asset_explicit (asset out)) BlindPanic) in
  let! v := act_lift (ok_or (Value_explicit (value out)) BlindPanic) in
  if negb (to_blind out) then
    act_ret (mkTally (num_blinded t) (out_secrets t ++ [mkSecrets a ZERO_TWEAK v ZERO_TWEAK]) (last_output_index t) (blinds t))
  else
    let! blinder := act_lift (ok_or (Confidential.Nonce_commitment (nonce out)) BlindPanic) in
    let! address := act_lift (ok_or (from_script (script_pubkey out) (Some blinder) ELEMENTS) BlindInvalidAddress) in
    if (num_blinded t + 1 <? num_to_blind)%nat then
      let! c := act_zoom BlindConfidentialTxOutError
                  (new_not_last_confidential v address a (map from_txout_secrets spent_utxo_secrets)) in
      let '(conf_out, abf, vbf, ephemeral_sk) := c in
      let! _ := act_modify (fun s => (set_outputs (<[i := conf_out]> (output s.1)) s.1, s.2)) in
      act_ret (mkTally (num_blinded t + 1) (out_secrets t ++ [mkSecrets a abf v vbf]) (last_output_index t)
                 (blinds t ++ [(TxInput i, (abf, vbf, ephemeral_sk))]))
    else act_ret (mkTally (num_blinded t + 1) (out_secrets t) (Some i) (blinds t)).

Fixpoint act_foldM {St R A B} (f : B -> A -> action St R B) (b : B) (l : list A) : action St R B :=
  match l with
  | [] => act_ret b
  | a :: l => let! b := f b a in act_foldM f b l
  end.

(** [Transaction::blind]; the blinding factors in the order in which they are added to the
    map.  Without an output to blind it panics. *)
Definition tx_blind (spent_utxo_secrets : list TxOutSecrets) (blind_iss : bool) : action tstate BlindError blinds_map :=
  let! tx := act_gets fst in
  let! bi := (if blind_iss then act_mapM blind_input (seq 0 (length (input tx))) else act_ret []) in
  if negb (forallb (fun o => Asset_is_explicit (asset o) && Value_is_explicit (value o)) (output tx))
  then act_lift (Err MustHaveAllExplicitTxOuts)
  else
    let num_to_blind := length (base.filter (fun o => to_blind o = true) (output tx)) in
    let! t := act_foldM (blind_tx_output num_to_blind spent_utxo_secrets) (mkTally 0 [] None (concat bi))
                (seq 0 (length (output tx))) in
    let! last_index := act_lift (ok_or (last_output_index t) BlindPanic) in
    let! o := act_gets (fun s => output s.1 !! last_index) in
    let! out := act_lift (ok_or o BlindPanic) in
    let! blinder := act_lift (ok_or (Confidential.Nonce_commitment (nonce out)) BlindPanic) in
    let! v := act_lift (ok_or (Value_explicit (value out)) BlindPanic) in
    let! a := act_lift (ok_or (Asset_explicit (asset out)) BlindPanic) in
    let! c := act_zoom BlindConfidentialTxOutError
                (new_last_confidential v a (script_pubkey out) blinder spent_utxo_secrets (out_secrets t)) in
    let '(conf_out, abf, vbf, ephemeral_sk) := c in
    let! _ := act_modify (fun s => (set_outputs (<[last_index := conf_out]> (output s.1)) s.1, s.2)) in
    act_ret (blinds t ++ [(TxInput last_index, (abf, vbf, ephemeral_sk))]).
End blind.
