(* ===== verification/BlindBalance.v ===== *)
(** * What blinding keeps

    The receiver of a blinded output recovers its secrets; blinding factors add up modulo the
    order of the curve; and when several parties blind a PSET one after the other, the amounts
    of the transaction that is extracted from it verify.  The last part is an instance of the
    laws and the cases in which the code does not do this. *)

From S2P Require Import Prelude Order Encode Script Timelocks Confidential Transaction TxMetrics Sighash Merkle Taproot TapSighash Pset Update Address Blind.

#[local] Set Default Proof Using "Type*".

(** ** Scalars *)

Definition curve_order : Z := 0xfffffffffffffffffffffffffffffffebaaedce6af48a03bbfd25e8cd0364141.

(** Equality modulo the order of the curve. *)
Definition cong (x y : Z) : Prop := exists k, x = y + k * curve_order.
#[export] Instance cong_equiv : Equivalence cong.
Proof.
  split.
  - intros x. exists 0. lia.
  - intros x y [k ->]. exists (- k). lia.
  - intros x y z [k ->] [j ->]. exists (k + j). lia.
Qed.
#[export] Instance cong_add : Proper (cong ==> cong ==> cong) Z.add.
Proof. intros x x' [k ->] y y' [j ->]. exists (k + j). lia. Qed.
#[export] Instance cong_sub : Proper (cong ==> cong ==> cong) Z.sub.
Proof. intros x x' [k ->] y y' [j ->]. exists (k - j). lia. Qed.
#[export] Instance cong_opp : Proper (cong ==> cong) Z.opp.
Proof. intros x x' [k ->]. exists (- k). lia. Qed.

Lemma cong_mod x y : x mod curve_order = y mod curve_order -> cong x y.
Proof.
  intros E. exists (x / curve_order - y / curve_order).
  pose proof (Z.div_mod x curve_order ltac:(done)). pose proof (Z.div_mod y curve_order ltac:(done)). lia.
Qed.
Lemma cong_of_mod x : cong (x mod curve_order) x.
Proof. apply cong_mod. by rewrite Z.mod_mod. Qed.

(** ** Sums by index *)

Lemma sum_map_indicator (i n : nat) (x : Z) :
  (i < n)%nat -> sum_map (fun j => if bool_decide (j = i) then x else 0) (seq 0 n) = x.
Proof.
  intros Hi. replace n with (i + (1 + (n - i - 1)))%nat by lia. rewrite seq_app, sum_map_app. cbn [seq Nat.add].
  rewrite sum_map_cons, bool_decide_true by done. rewrite !sum_map_zero; [lia| |].
  - intros j [? _]%elem_of_seq. rewrite bool_decide_false by lia. done.
  - intros j [_ ?]%elem_of_seq. rewrite bool_decide_false by lia. done.
Qed.

(** A sum over distinct indices is a sum over all of them. *)
Lemma sum_by_index {A} (w : A -> Z) (B : list (nat * A)) n :
  NoDup B.*1 -> (forall i, i ∈ B.*1 -> (i < n)%nat) ->
  sum_map (fun i => default 0 (w <$> (list_to_map B : gmap nat A) !! i)) (seq 0 n) = sum_map (fun b => w b.2) B.
Proof.
  induction B as [|[i a] B IH]; intros Hnd Hlt; [by apply sum_map_zero|].
  cbn [fmap list_fmap fst] in Hnd, Hlt. apply NoDup_cons in Hnd as [Hi Hnd].
  rewrite sum_map_cons, <-(IH Hnd) by (intros; apply Hlt; by right). cbn [snd].
  rewrite <-(sum_map_indicator i n (w a)) by (apply Hlt; left).
  rewrite <-(Z.mul_1_l (sum_map (fun j : nat => if bool_decide (j = i) then w a else 0) _)), <-sum_map_lin.
  apply sum_map_eq. intros j _.
  cbn [list_to_map foldr uncurry]. destruct (decide (j = i)) as [->|Hn].
  - rewrite lookup_insert_eq, bool_decide_true by done. rewrite (not_elem_of_list_to_map_1 B i Hi). cbn. lia.
  - rewrite lookup_insert_ne, bool_decide_false by done. lia.
Qed.

Lemma sum_map_imap {A B} (f : B -> Z) (g : nat -> A -> B) l :
  sum_map f (imap g l) = sum_map (fun i => default 0 ((fun x => f (g i x)) <$> l !! i)) (seq 0 (length l)).
Proof.
  revert g. induction l as [|x l IH]; intros g; [done|]. cbn [imap length seq]. rewrite !sum_map_cons, IH. f_equal.
  rewrite <-seq_shift, sum_map_map. done.
Qed.

Section laws.
Context {P : Platform} {S : Secp} {H : Hashes} {M : Midstates} {T : TapEnv} {C : SchnorrEnv}
  {E : PsetEnv} {K : Zkp}.

Definition be_val (l : bytes) : Z := le_val (rev l).
Definition scalar (t : Tweak) : Z := be_val (ext_ser t).
Definition sk_scalar (k : SecretKey) : Z := be_val (ext_ser k).

(** What a commitment adds to the sum of the blinding factors. *)
Definition factor (e : sec_entry) : Z := e.1.1 * scalar e.1.2 + scalar e.2.
Definition factors (l : list sec_entry) : Z := sum_map factor l.
Definition sec_factor (s : TxOutSecrets) : Z := factor (value_blind_inputs s).

(** The commitment to a value of an asset, and the total of an asset. *)
Definition commit (s : TxOutSecrets) : PedersenCommitment :=
  Pedersen_new (sec_value s) (value_bf s) (Generator_new_blinded (sec_asset s) (asset_bf s)).
Definition asset_total (a : AssetId) (l : list TxOutSecrets) : Z :=
  sum_map (fun s => if bool_decide (sec_asset s = a) then sec_value s else 0) l.

(** What is relied on: scalars are numbers below the order of the curve and keys those that are
    not zero, commitments are additive, proofs verify and a range proof can be rewound, and
    Diffie-Hellman. *)
Class ZkpLaws : Prop :=
  { zero_tweak : ext_ser ZERO_TWEAK = Tag_default;
    tweak_range t : scalar t < curve_order;
    tweak_parse l : length l = 32%nat -> be_val l < curve_order -> exists t : Tweak, ext_parse l = Some t /\ ext_ser t = l;
    key_range k : length (ext_ser k) = 32%nat /\ 0 < sk_scalar k < curve_order;
    key_parse l : length l = 32%nat -> 0 < be_val l < curve_order -> exists k : SecretKey, ext_parse l = Some k /\ ext_ser k = l;
    add_tweak_some a b k : sk_add_tweak a b = Some k -> cong (sk_scalar k) (sk_scalar a + sk_scalar b);
    add_tweak_none a b : sk_add_tweak a b = None -> cong (sk_scalar a + sk_scalar b) 0;
    negate_scalar k : cong (sk_scalar (sk_negate k)) (- sk_scalar k);
    adaptive_factor v abf ins outs :
      cong (v * scalar abf + scalar (compute_adaptive_blinding_factor v abf (map to_commitment_secrets ins) (map to_commitment_secrets outs)))
           (factors ins - factors outs);
    gen_unblinded a : Generator_new_unblinded a = Generator_new_blinded a ZERO_TWEAK;
    pedersen_unblinded v g : Pedersen_new_unblinded v g = Pedersen_new v ZERO_TWEAK g;
    commitments_add ins outs :
      (forall a, asset_total a ins = asset_total a outs) ->
      cong (sum_map sec_factor ins) (sum_map sec_factor outs) ->
      verify_commitments_sum_to_equal (map commit ins) (map commit outs) = true;
    surjection_complete a bf targets r p r' :
      SurjectionProof_new a bf targets r = (Some p, r') ->
      SurjectionProof_verify p (Generator_new_blinded a bf) targets.*1.*1 = true;
    range_complete min v bf msg extra nonce exp bits g p :
      RangeProof_new min (Pedersen_new v bf g) v bf msg extra nonce exp bits g = Some p ->
      is_Some (RangeProof_verify p (Pedersen_new v bf g) extra g);
    (** the message comes back padded *)
    range_rewind min v bf msg extra nonce bits g p :
      RangeProof_new min (Pedersen_new v bf g) v bf msg extra nonce 0 bits g = Some p ->
      exists pad, RangeProof_rewind p (Pedersen_new v bf g) nonce extra g = Some (v, msg ++ pad, bf);
    diffie_hellman a b : shared_secret_point (from_secret_key a) b = shared_secret_point (from_secret_key b) a }.
Context `{L : !ZkpLaws}.

Lemma be_val_nonneg l : 0 <= be_val l.
Proof. apply le_val_nonneg. Qed.

Lemma be_val_zero l : length l = 32%nat -> be_val l = 0 <-> l = Tag_default.
Proof.
  intros Hl. split; [|by intros ->]. intros Hz.
  assert (E1 : le_val (rev l) = le_val (rev Tag_default)) by exact Hz.
  apply le_val_inj in E1; [|by rewrite !length_rev]. rewrite <-(rev_involutive l), E1. reflexivity.
Qed.

Lemma scalar_zero t : scalar t = 0 <-> ext_ser t = Tag_default.
Proof. apply be_val_zero, tweak_format. Qed.
Lemma scalar_ZERO : scalar ZERO_TWEAK = 0.
Proof. apply scalar_zero, zero_tweak. Qed.

Lemma tweak_key t : ext_ser t <> Tag_default -> exists k : SecretKey, ext_parse (ext_ser t) = Some k /\ sk_scalar k = scalar t.
Proof.
  intros Ht. destruct (key_parse (ext_ser t)) as (k & Hk & Hs).
  - apply tweak_format.
  - pose proof (tweak_range t). pose proof (be_val_nonneg (ext_ser t)).
    rewrite <-scalar_zero in Ht. unfold scalar in *. lia.
  - exists k. split; [done|]. unfold sk_scalar, scalar. by rewrite Hs.
Qed.

Lemma key_tweak (k : SecretKey) : exists t : Tweak, ext_parse (ext_ser k) = Some t /\ scalar t = sk_scalar k.
Proof.
  destruct (key_range k) as [Hl Hr]. destruct (tweak_parse (ext_ser k) Hl) as (t & Ht & Hs); [unfold sk_scalar in Hr; lia|].
  exists t. split; [done|]. unfold scalar, sk_scalar. by rewrite Hs.
Qed.

(** The arithmetic of value blinding factors never panics. *)
Lemma vbf_add_ok a b : exists t, vbf_add a b = Some t /\ cong (scalar t) (scalar a + scalar b).
Proof.
  unfold vbf_add. case_bool_decide as Ha.
  { exists b. split; [done|]. apply scalar_zero in Ha. by rewrite Ha. }
  case_bool_decide as Hb.
  { exists a. split; [done|]. apply scalar_zero in Hb. rewrite Hb. by rewrite Z.add_0_r. }
  destruct (tweak_key a Ha) as (ka & -> & Hka). destruct (tweak_key b Hb) as (kb & -> & Hkb). cbn [mbind option_bind].
  destruct (sk_add_tweak kb ka) as [k|] eqn:Ek.
  - destruct (key_tweak k) as (t & Ht & Hs). exists t. split; [done|].
    rewrite Hs, (add_tweak_some _ _ _ Ek), Hka, Hkb. by rewrite Z.add_comm.
  - exists ZERO_TWEAK. split; [done|]. apply add_tweak_none in Ek. rewrite Hka, Hkb in Ek.
    by rewrite scalar_ZERO, Z.add_comm, Ek.
Qed.

Lemma vbf_neg_ok a : exists t, vbf_neg a = Some t /\ cong (scalar t) (- scalar a).
Proof.
  unfold vbf_neg. case_bool_decide as Ha.
  { exists a. split; [done|]. apply scalar_zero in Ha. by rewrite Ha. }
  destruct (tweak_key a Ha) as (ka & -> & Hka). cbn [mbind option_bind].
  destruct (key_tweak (sk_negate ka)) as (t & Ht & Hs). exists t. split; [done|]. by rewrite Hs, negate_scalar, Hka.
Qed.

Lemma vbf_last_balances v abf ins outs :
  cong (factor (v, abf, vbf_last v abf ins outs)) (factors ins - factors outs).
Proof. apply adaptive_factor. Qed.

Lemma add_scalars_ok a l : exists t, add_scalars a l = Some t /\ cong (scalar t) (scalar a + sum_map scalar l).
Proof.
  unfold add_scalars. revert a. induction l as [|x l IH]; intros a.
  - exists a. split; [done|]. by rewrite Z.add_0_r.
  - cbn [foldl mbind option_bind]. destruct (vbf_add_ok a x) as (t & -> & Ht). destruct (IH t) as (u & Hu & Hc).
    exists u. split; [done|]. rewrite Hc, Ht, sum_map_cons. by rewrite Z.add_assoc.
Qed.

(** ** Sealed outputs *)

(** An output that was blinded for a key: commitments to its secrets, and proofs made for the
    given surjection targets. *)
Record sealed (pk : PublicKey) (targets : list (Generator * bytes * Tweak)) (spk : Script)
    (s : TxOutSecrets) (t : TxOut) : Prop := mkSealed
  { sealed_asset : asset t = AssetConfidential (Generator_new_blinded (sec_asset s) (asset_bf s));
    sealed_value : value t = ValueConfidential (commit s);
    sealed_script : script_pubkey t = spk;
    sealed_nonce : exists esk shared rp,
      nonce t = NonceConfidential (from_secret_key esk) /\ make_shared_secret pk esk = Some shared /\
      rangeproof (out_witness t) = Some rp /\
      RangeProof_new RANGEPROOF_MIN_VALUE (commit s) (sec_value s) (value_bf s)
        (msg_to_bytes (mkRangeProofMessage (sec_asset s) (asset_bf s))) spk shared
        RANGEPROOF_EXP_SHIFT RANGEPROOF_MIN_PRIV_BITS (Generator_new_blinded (sec_asset s) (asset_bf s)) = Some rp;
    sealed_surjection : exists sp r r',
      surjection_proof (out_witness t) = Some sp /\ SurjectionProof_new (sec_asset s) (asset_bf s) targets r = (Some sp, r') }.

Lemma Asset_blind_ok a abf spent r out sp r' :
  Asset_blind (AssetExplicit a) abf spent r = (Ok (out, sp), r') ->
  exists targets, surjection_targets 0 spent = Ok targets /\ out = AssetConfidential (Generator_new_blinded a abf) /\
    SurjectionProof_new a abf targets r = (Some sp, r').
Proof.
  unfold Asset_blind. cbn [Asset_explicit ok_or]. intros Hb. act_step Hb as ? ? [[= <-] ->]%act_lift_ok.
  act_step Hb as targets ? [Ht ->]%act_lift_ok. destruct (SurjectionProof_new _ _ _ _) as [[q|] r2] eqn:Eq; [|done].
  injection Hb as <- <- <-. by exists targets.
Qed.

Lemma Value_blind_ok v vbf pk esk spk a abf out n rp :
  Value_blind (ValueExplicit v) vbf pk esk spk (mkRangeProofMessage a abf) = Ok (out, n, rp) ->
  exists shared, out = ValueConfidential (Pedersen_new v vbf (Generator_new_blinded a abf)) /\
    n = NonceConfidential (from_secret_key esk) /\ make_shared_secret pk esk = Some shared /\
    RangeProof_new RANGEPROOF_MIN_VALUE (Pedersen_new v vbf (Generator_new_blinded a abf)) v vbf
      (msg_to_bytes (mkRangeProofMessage a abf)) spk shared RANGEPROOF_EXP_SHIFT RANGEPROOF_MIN_PRIV_BITS
      (Generator_new_blinded a abf) = Some rp.
Proof.
  unfold Value_blind, with_ephemeral_sk. destruct (make_shared_secret pk esk) as [shared|] eqn:Es; [|done].
  cbn [mbind option_bind ok_or rbind fst snd]. unfold blind_with_shared_secret. cbn [Value_explicit ok_or rbind msg_asset msg_bf Value_new_confidential Value_commitment].
  destruct (RangeProof_new _ _ _ _ _ _ _ _ _ _) as [q|] eqn:Eq; [|done]. cbn [ok_or rbind fst snd]. intros [= <- <- <-].
  exists shared. by split_and!.
Qed.

Lemma seal_parts pk targets spk a abf v vbf esk oa sp r r' ov n rp :
  oa = AssetConfidential (Generator_new_blinded a abf) ->
  SurjectionProof_new a abf targets r = (Some sp, r') ->
  Value_blind (ValueExplicit v) vbf pk esk spk (mkRangeProofMessage a abf) = Ok (ov, n, rp) ->
  sealed pk targets spk (mkSecrets a abf v vbf) (mkTxOut oa ov n spk (mkTxOutWitness (Some sp) (Some rp))).
Proof.
  intros -> Hs (shared & -> & -> & Hsh & Hr)%Value_blind_ok. split; try done.
  - by exists esk, shared, rp.
  - by exists sp, r, r'.
Qed.

Lemma with_txout_secrets_ok spk pk esk s spent r t r' :
  with_txout_secrets spk pk esk s spent r = (Ok t, r') ->
  exists targets, surjection_targets 0 spent = Ok targets /\ sealed pk targets spk s t.
Proof.
  unfold with_txout_secrets. intros Hw. act_step Hw as [oa sp] ? (targets & Ht & Ha & Hs)%Asset_blind_ok.
  act_step Hw as [[ov n] rp] ? [Hv ->]%act_lift_ok. apply act_ret_ok in Hw as [<- ->].
  exists targets. split; [done|]. destruct s. by eapply seal_parts.
Qed.

Lemma sealed_range pk targets spk s t : sealed pk targets spk s t ->
  exists rp, rangeproof (out_witness t) = Some rp /\
    is_Some (RangeProof_verify rp (commit s) (script_pubkey t) (Generator_new_blinded (sec_asset s) (asset_bf s))).
Proof. intros [_ _ -> (esk & shared & rp & _ & _ & Hrp & Hnew) _]. exists rp. split; [done|]. by eapply range_complete. Qed.

(** C39: Blinding and unblinding: whoever holds the key that an output was blinded for recovers its
    asset, its amount and both blinding factors. *)
Theorem blinded_output_unblinds (k : SecretKey) spk esk (s : TxOutSecrets) spent r t r' :
  length (sec_asset s) = 32%nat ->
  with_txout_secrets spk (from_secret_key k) esk s spent r = (Ok t, r') ->
  unblind t k = Ok s.
Proof.
  intros Hl Hw. apply with_txout_secrets_ok in Hw as (targets & _ & Hs).
  destruct Hs as [Ha Hv Hspk (esk' & shared & rp & Hn & Hsh & Hrp & Hnew) _].
  unfold unblind. rewrite Ha, Hv, Hn, Hrp. cbn [rbind ok_or fst snd shared_secret].
  assert (Hsh' : make_shared_secret (from_secret_key esk') k = Some shared).
  { rewrite <-Hsh. unfold make_shared_secret. by rewrite (diffie_hellman esk' k). }
  rewrite Hsh'. cbn [ok_or rbind]. unfold commit in *. rewrite Hspk.
  destruct (range_rewind _ _ _ _ _ _ _ _ _ Hnew) as (pad & ->). cbn [ok_or rbind].
  unfold msg_to_bytes. cbn [msg_asset msg_bf]. rewrite <-app_assoc. pose proof (tweak_format (asset_bf s)) as Ht.
  assert (Hlen : (length (sec_asset s ++ ext_ser (asset_bf s) ++ pad) <? 64)%nat = false).
  { apply Nat.ltb_ge. rewrite !length_app. lia. }
  rewrite Hlen, take_app_length', drop_app_length', take_app_length' by done.
  rewrite ext_parse_ser. cbn [ok_or rbind]. rewrite bool_decide_true by done. by destruct s.
Qed.

(** ** One output of a PSET *)

Lemma from_script_spk (s : Script) (k : option PublicKey) prm a :
  from_script s k prm = Some a -> address_script_pubkey a = Some s /\ blinding_pubkey a = k.
Proof.
  unfold from_script. destruct (payload_of_script s) as [pl|] eqn:Ep; [|done]. intros [= <-].
  apply template_bytes in Ep as [Hw ->]. by split; [apply payload_script_bytes|].
Qed.

Lemma to_non_last_ok o pk spent r t abf vbf esk r' :
  to_non_last_confidential o pk spent r = (Ok (t, abf, vbf, esk), r') ->
  exists v a targets, value o = ValueExplicit v /\ asset o = AssetExplicit a /\
    surjection_targets 0 spent = Ok targets /\ sealed pk targets (script_pubkey o) (mkSecrets a abf v vbf) t.
Proof.
  unfold to_non_last_confidential, new_not_last_confidential. intros Ht.
  act_step Ht as v ? [Hv%ok_or_ok ->]%act_lift_ok. act_step Ht as adr ? [Ha%ok_or_ok ->]%act_lift_ok.
  apply from_script_spk in Ha as [Hspk Hpk].
  act_step Ht as a ? [Has%ok_or_ok ->]%act_lift_ok. act_step Ht as spk ? [Hspk'%ok_or_ok ->]%act_lift_ok.
  act_step Ht as k ? [Hk%ok_or_ok ->]%act_lift_ok. simplify_eq.
  act_step Ht as abf' ? _. act_step Ht as vbf' ? _. act_step Ht as esk' ? _.
  act_step Ht as t' ? (targets & Hts & Hs)%with_txout_secrets_ok. apply act_ret_ok in Ht as [[= <- <- <- <-] _].
  exists v, a, targets. split_and!; try done.
  - destruct (value o); by simplify_eq/=.
  - destruct (asset o); by simplify_eq/=.
Qed.

Lemma list_alter_insert {A} (f : A -> A) (i : nat) (l : list A) x : l !! i = Some x -> alter f i l = <[i := f x]> l.
Proof.
  intros Hx. apply list_eq. intros j. destruct (decide (i = j)) as [->|Hn].
  - rewrite list_lookup_alter_eq, Hx, list_lookup_insert_eq; [done|]. by eapply lookup_lt_Some.
  - by rewrite list_lookup_alter_ne, list_lookup_insert_ne.
Qed.

(** What the blinding of an output leaves alone. *)
Definition out_frame (o : PsetOutput) := (o_script_pubkey o, o_amount o, o_asset o, blinding_key o, blinder_index o).

(** An output, what blinding made of it and the blinding factors. *)
Definition seals (gens : list Generator) (o o' : PsetOutput) (abf vbf : Tweak) : Prop :=
  exists pk t targets v a, blinding_key o = Some pk /\ o_amount o = Some v /\ o_asset o = Some a /\
    targets.*1.*1 = gens /\ sealed (pk_inner pk) targets (o_script_pubkey o) (mkSecrets a abf v vbf) t /\
    extract_output o' = Ok t /\ out_frame o' = out_frame o.

Definition with_outs (p : PartiallySignedTransaction) (l : list PsetOutput) : PartiallySignedTransaction :=
  mkPset (global p) (inputs p) l.

Lemma update_out_ok i f p r u s' :
  update_out i f (p, r) = (Ok u, s') -> s' = (with_outs p (alter f i (outputs p)), r).
Proof. by intros ->%act_modify_ok. Qed.

Lemma out_at_ok i p r o s' : out_at i (p, r) = (Ok o, s') -> outputs p !! i = Some o /\ s' = (p, r).
Proof. unfold out_at. intros Ho. act_step Ho as x ? [<- ->]%act_gets_ok. by apply act_lift_ok in Ho as [?%ok_or_ok ->]. Qed.

Lemma commit_output_ok i pk targets sec t v abf vbf p r p' r' o u :
  commit_output i t v abf vbf (p, r) = (Ok u, (p', r')) -> outputs p !! i = Some o ->
  sealed pk targets (o_script_pubkey o) sec t ->
  exists o', p' = with_outs p (<[i := o']> (outputs p)) /\ extract_output o' = Ok t /\ out_frame o' = out_frame o.
Proof.
  intros Hc Ho Hs. unfold commit_output in Hc.
  act_step Hc as [] ? ->%update_out_ok. rewrite (list_alter_insert _ _ _ _ Ho) in Hc.
  act_step Hc as o1 ? [Ho1 ->]%out_at_ok. cbn [with_outs outputs] in Ho1.
  act_step Hc as a ? [Ha%ok_or_ok ->]%act_lift_ok. act_step Hc as prf [p1 r1] [_ Hp1]%act_zoom_ok. cbn [fst] in Hp1. subst p1.
  act_step Hc as [] ? ->%update_out_ok. act_step Hc as g ? [Hg%ok_or_ok ->]%act_lift_ok.
  act_step Hc as c ? [Hc'%ok_or_ok ->]%act_lift_ok. act_step Hc as prf2 [p2 r2] [_ Hp2]%act_zoom_ok. cbn [fst] in Hp2. subst p2.
  apply update_out_ok in Hc. injection Hc as -> ->. cbn [with_outs outputs global inputs].
  rewrite list_lookup_insert_eq in Ho1 by (by eapply lookup_lt_Some). injection Ho1 as <-.
  assert (Hi : (i < length (outputs p))%nat) by (by eapply lookup_lt_Some).
  eexists. split.
  { unfold with_outs. cbn [global inputs outputs]. f_equal.
    rewrite list_alter_alter_eq, (list_alter_insert _ i _ (set_commitments t o)) by (by apply list_lookup_insert_eq).
    rewrite list_insert_insert_eq. reflexivity. }
  split; [|by destruct o].
  destruct Hs as [Ha1 Hv1 Hs1 (esk & sh & rp & Hn & _) _]. destruct t as [ta tv tn tspk [tsp trp]].
  cbn [asset value script_pubkey nonce out_witness] in *. subst.
  unfold extract_output. by destruct o.
Qed.

Lemma blind_output_ok dom ts i p r v abf vbf p' r' :
  surjection_targets 0 dom = Ok ts -> blind_output dom i (p, r) = (Ok (v, abf, vbf), (p', r')) ->
  exists o o', outputs p !! i = Some o /\ p' = with_outs p (<[i := o']> (outputs p)) /\
    o_amount o = Some v /\ seals ts.*1.*1 o o' abf vbf.
Proof.
  intros Hts Hb. unfold blind_output in Hb. act_step Hb as o ? [Ho ->]%out_at_ok.
  act_step Hb as pk ? [Hpk%ok_or_ok ->]%act_lift_ok.
  act_step Hb as [[[t abf'] vbf'] esk] [p1 r1] [Ht Hp1]%act_zoom_ok. cbn [fst snd] in Ht, Hp1. subst p1.
  act_step Hb as v' ? [Hv%ok_or_ok ->]%act_lift_ok. act_step Hb as [] [p2 r2] Hco.
  apply act_ret_ok in Hb as [[= <- <- <-] [= <- <-]].
  apply to_non_last_ok in Ht as (v1 & a & ts' & Hv1 & Ha1 & Hts' & Hs). simplify_eq.
  destruct (commit_output_ok _ _ _ _ _ _ _ _ _ _ _ _ _ _ Hco Ho Hs) as (o' & -> & Hx & Hf).
  exists o, o'. split_and!; try done.
  destruct (blinding_key o) as [bk|] eqn:Ebk; [|done]. injection Hpk as <-.
  assert (o_amount o = Some v1 /\ o_asset o = Some a) as [Hvv Haa].
  { unfold to_txout in Hv1, Ha1. cbn [value asset] in Hv1, Ha1.
    destruct (amount_comm o), (o_amount o), (asset_comm o), (o_asset o); by simplify_eq. }
  rewrite Hts in Hts'. injection Hts' as <-. exists bk, t, ts, v1, a. by split_and!.
Qed.

(** The loop: the outputs it names are blinded, the others are the same. *)
Lemma blind_outputs_ok dom ts l p r es p' r' :
  surjection_targets 0 dom = Ok ts -> NoDup l ->
  act_mapM (blind_output dom) l (p, r) = (Ok es, (p', r')) ->
  (exists outs, p' = with_outs p outs /\ length outs = length (outputs p)) /\
  (forall j, j ∉ l -> outputs p' !! j = outputs p !! j) /\
  Forall2 (fun i e => exists o o', outputs p !! i = Some o /\ outputs p' !! i = Some o' /\
             o_amount o = Some e.1.1 /\ seals ts.*1.*1 o o' e.1.2 e.2) l es.
Proof.
  intros Hts. revert p r es. induction l as [|i l IH]; intros p r es Hnd Hm; cbn [act_mapM] in Hm.
  { apply act_ret_ok in Hm as [<- [= -> ->]]. split_and!; [|done|constructor]. exists (outputs p). by destruct p. }
  apply NoDup_cons in Hnd as [Hi Hnd]. act_step Hm as [[v abf] vbf] [p1 r1] Hb. act_step Hm as es1 [p2 r2] Hr.
  apply act_ret_ok in Hm as [<- [= <- <-]].
  destruct (blind_output_ok _ _ _ _ _ _ _ _ _ _ Hts Hb) as (o & o' & Ho & -> & Hv & Hs).
  destruct (IH _ _ _ Hnd Hr) as ((outs & -> & Hlen) & Hout & Hf2). cbn [with_outs outputs] in *.
  rewrite length_insert in Hlen. split_and!.
  - by exists outs.
  - intros j [Hj1 Hj2]%not_elem_of_cons. rewrite (Hout j Hj2). by apply list_lookup_insert_ne.
  - constructor.
    + exists o, o'. split_and!; try done. rewrite (Hout i Hi). apply list_lookup_insert_eq. by eapply lookup_lt_Some.
    + apply Forall2_same_length_lookup. apply Forall2_same_length_lookup in Hf2 as [Hl Hf2]. split; [done|].
      intros n j e Hj He. destruct (Hf2 n j e Hj He) as (x & x' & Hx & Hrest). exists x, x'. split; [|done].
      rewrite list_lookup_insert_ne in Hx; [done|]. intros ->. apply Hi. by eapply list_elem_of_lookup_2.
Qed.

(** ** The domain of the surjection proofs *)

Definition sec_gen (s : TxOutSecrets) : Generator := Generator_new_blinded (sec_asset s) (asset_bf s).

(** The secrets open the asset and the value of an output; explicit amounts are positive. *)
Definition opens (u : TxOut) (s : TxOutSecrets) : Prop :=
  (asset u = AssetConfidential (sec_gen s) \/ (asset u = AssetExplicit (sec_asset s) /\ asset_bf s = ZERO_TWEAK)) /\
  (value u = ValueConfidential (commit s) \/
   (value u = ValueExplicit (sec_value s) /\ value_bf s = ZERO_TWEAK /\ 0 < sec_value s <= MAX_MONEY)).

Lemma opens_into_gen u s : opens u s -> into_asset_gen (asset u) = Some (sec_gen s).
Proof.
  intros [[->|[-> Hz]] _]; [done|]. cbn [into_asset_gen]. rewrite gen_unblinded. unfold sec_gen. by rewrite Hz.
Qed.

Lemma opens_gen u s : opens u s -> get_asset_gen u = Ok (sec_gen s).
Proof. intros Ho. unfold get_asset_gen. by rewrite (opens_into_gen u s Ho). Qed.

Lemma opens_commit u s : opens u s -> get_value_commit u = Ok (commit s).
Proof.
  intros Ho. pose proof (opens_gen u s Ho) as Hg. unfold get_value_commit. destruct Ho as [_ [->|(-> & Hz & Hr)]]; [done|].
  destruct (Z.ltb_spec MAX_MONEY (sec_value s)); [lia|]. destruct (Z.eqb_spec (sec_value s) 0); [lia|].
  rewrite Hg. cbn [rbind]. rewrite pedersen_unblinded. unfold commit, sec_gen. by rewrite Hz.
Qed.

(** Issuances are explicit and not of nothing. *)
Definition explicit_issuance (i : PsetInput) : Prop :=
  issuance_value_comm i = None /\ issuance_inflation_keys_comm i = None /\
  (forall v, issuance_value_amount i = Some v -> 0 < v) /\ (forall v, issuance_inflation_keys i = Some v -> 0 < v).

(** What an input issues. *)
Definition issued (i : PsetInput) : list TxOutSecrets :=
  if pset_has_issuance i then
    match pset_issuance_ids i with
    | Some ids =>
        (match issuance_value_amount i with Some v => [mkSecrets ids.1 ZERO_TWEAK v ZERO_TWEAK] | None => [] end) ++
        (match issuance_inflation_keys i with Some v => [mkSecrets ids.2 ZERO_TWEAK v ZERO_TWEAK] | None => [] end)
    | None => []
    end
  else [].

(** The secrets of everything that goes into a transaction. *)
Fixpoint entering (sigma : nat -> TxOutSecrets) (i : nat) (l : list PsetInput) : list TxOutSecrets :=
  match l with
  | [] => []
  | inp :: l => sigma i :: issued inp ++ entering sigma (Datatypes.S i) l
  end.

Definition target_gens (l : list (Generator * bytes * Tweak)) : list Generator := l.*1.*1.

Lemma targets_app n l k ts :
  surjection_targets n (l ++ k) = Ok ts ->
  exists t1 t2, surjection_targets n l = Ok t1 /\ surjection_targets (n + length l) k = Ok t2 /\ ts = t1 ++ t2.
Proof.
  revert n ts. induction l as [|i l IH]; intros n ts Ht.
  { exists [], ts. rewrite Nat.add_0_r. done. }
  cbn [app surjection_targets length] in *. destruct (surjection_target i) as [t|]; [|done].
  destruct (surjection_targets (Datatypes.S n) (l ++ k)) as [ts'|] eqn:E1; [|done]. cbn [rbind] in Ht. injection Ht as <-.
  destruct (IH _ _ E1) as (t1 & t2 & -> & H2 & ->). exists (t :: t1), t2. rewrite <-Nat.add_succ_comm. by cbn [rbind].
Qed.

Lemma issuance_inputs_gens inp l n ts :
  explicit_issuance inp -> issuance_inputs inp = Some l -> surjection_targets n l = Ok ts ->
  target_gens ts = map sec_gen (issued inp).
Proof.
  intros (Hc1 & Hc2 & _). unfold issuance_inputs, issued. destruct (pset_has_issuance inp); [|by intros [= <-] [= <-]].
  destruct (pset_issuance_ids inp) as [[a b]|]; [|done]. cbn [mbind option_bind fst snd]. rewrite Hc1, Hc2.
  intros [= <-]. destruct (issuance_value_amount inp), (issuance_inflation_keys inp); by intros [= <-].
Qed.

Lemma domain_gens sigma m i l dom n ts :
  surjection_inputs_from m i l = Ok dom -> surjection_targets n dom = Ok ts ->
  (forall k s, m !! k = Some s -> s = sigma k) -> Forall explicit_issuance l ->
  (forall j inp, l !! j = Some inp -> exists u, witness_utxo inp = Some u /\ opens u (sigma (i + j)%nat)) ->
  target_gens ts = map sec_gen (entering sigma i l).
Proof.
  intros Hd Ht Hm He Ho. revert i dom n ts Hd Ht Ho. induction He as [|inp l Hi He IH]; intros i dom n ts Hd Ht Ho; cbn [surjection_inputs_from] in Hd.
  { injection Hd as <-. by injection Ht as <-. }
  destruct (Ho 0%nat inp eq_refl) as (u & Hu & Hop). rewrite Nat.add_0_r in Hop. rewrite Hu in Hd. cbn [ok_or rbind] in Hd.
  destruct (issuance_inputs inp) as [iss|] eqn:Ei; [|done]. cbn [ok_or rbind] in Hd.
  destruct (surjection_inputs_from m (Datatypes.S i) l) as [rest|] eqn:Er; [|done]. cbn [rbind] in Hd. injection Hd as <-.
  cbn [surjection_targets] in Ht.
  assert (Hg : exists t, surjection_target (match m !! i with Some sec => from_txout_secrets sec | None => SurjUnknown (asset u) end) = Ok t
                 /\ t.1.1 = sec_gen (sigma i)).
  { destruct (m !! i) as [sec|] eqn:Em.
    - rewrite (Hm _ _ Em). by eexists.
    - cbn [surjection_target]. rewrite (opens_into_gen _ _ Hop). by eexists. }
  destruct Hg as (t & Htt & Hg). rewrite Htt in Ht.
  destruct (surjection_targets _ (iss ++ rest)) as [ts'|] eqn:Et; [|done]. cbn [rbind] in Ht. injection Ht as <-.
  apply targets_app in Et as (t1 & t2 & H1 & H2 & ->).
  cbn [entering map]. unfold target_gens. cbn [fmap list_fmap]. rewrite Hg. f_equal.
  rewrite !fmap_app. f_equal; [by eapply issuance_inputs_gens|].
  eapply IH; [exact Er|exact H2|]. intros j inp' Hj. destruct (Ho (Datatypes.S j) inp' Hj) as (u' & Hu' & Hop').
  exists u'. by rewrite Nat.add_succ_r in Hop'.
Qed.

(** ** Which outputs a party blinds *)

Definition mine (m : gmap nat TxOutSecrets) (o : PsetOutput) : bool :=
  match blinding_key o, blinder_index o with
  | Some _, Some b => bool_decide (is_Some (m !! Z.to_nat b))
  | _, _ => false
  end.

Lemma mine_frame m o o' : out_frame o' = out_frame o -> mine m o' = mine m o.
Proof. unfold out_frame, mine. by intros [= _ _ _ -> ->]. Qed.

Lemma mine_index m o : mine m o = true -> exists b, blinder_index o = Some b /\ is_Some (m !! Z.to_nat b).
Proof.
  unfold mine. destruct (blinding_key o) as [pk|], (blinder_index o) as [b|]; try done. intros Hb%bool_decide_eq_true. by exists b.
Qed.

Lemma outs_to_blind_spec n m k outs l :
  outs_to_blind n m k outs = Ok l ->
  NoDup l /\ forall i, i ∈ l <-> exists j o, i = (k + j)%nat /\ outs !! j = Some o /\ mine m o = true.
Proof.
  revert k l. induction outs as [|o outs IH]; intros k l Hl; cbn [outs_to_blind] in Hl.
  { injection Hl as <-. split; [constructor|]. intros i. split; [by intros ?%elem_of_nil|]. by intros (j & o & _ & Hj & _). }
  assert (Hstep : exists l', outs_to_blind n m (Datatypes.S k) outs = Ok l' /\ l = if mine m o then k :: l' else l').
  { unfold mine. destruct (blinding_key o) as [pk|], (blinder_index o) as [b|]; try by exists l.
    destruct (_ <=? _)%nat; [done|]. destruct (outs_to_blind _ _ (Datatypes.S k) _) as [l'|]; [|done]. cbn [rbind] in Hl.
    injection Hl as <-. by exists l'. }
  destruct Hstep as (l' & Hl' & ->). destruct (IH _ _ Hl') as [Hnd Hin].
  assert (Hk : k ∉ l') by (intros (j & ? & Hj & _)%Hin; lia). split.
  - destruct (mine m o); [by constructor|done].
  - intros i. transitivity (i = k /\ mine m o = true \/ i ∈ l').
    { destruct (mine m o); rewrite ?elem_of_cons; naive_solver. }
    rewrite Hin. split.
    + intros [[-> Hm]|(j & o' & -> & Hj & Hm)].
      * exists 0%nat, o. by rewrite Nat.add_0_r.
      * exists (Datatypes.S j), o'. split; [lia|done].
    + intros ([|j] & o' & -> & Hj & Hm); [left; cbn in Hj; simplify_eq; split; [lia|done]|right].
      exists j, o'. split; [lia|done].
Qed.

Lemma blind_checks_spec p m ins outs :
  blind_checks p m = Ok (ins, outs) ->
  ins = map (fun ks => value_blind_inputs ks.2) (sec_iter m) /\ NoDup outs /\
  forall i, i ∈ outs <-> exists o, outputs p !! i = Some o /\ mine m o = true.
Proof.
  unfold blind_checks. destruct (list_find _ _) as [[]|]; [done|].
  destruct (outs_to_blind _ _ _ _) as [l|] eqn:El; [|done]. cbn [rbind]. intros [= <- <-].
  apply outs_to_blind_spec in El as [Hnd Hin]. split_and!; [done|done|]. intros i. rewrite Hin. naive_solver.
Qed.

(** ** A session *)

(** What a party contributes. *)
Definition known_factors (l : list (nat * TxOutSecrets)) : Z := sum_map (fun ks => sec_factor ks.2) l.

Lemma iter_factors m :
  factors (map (fun ks => value_blind_inputs ks.2) (sec_iter m)) = known_factors (map_to_list m).
Proof. unfold factors. rewrite sum_map_map. apply sum_map_perm, sec_iter_perm. Qed.

(** Between two parties: the outputs in [B] are blinded, with the given factors, the others are
    as in the beginning, and the scalars are what is missing for a balance with the inputs in
    [D]. *)
Record session (gens : list Generator) (p0 : PartiallySignedTransaction) (B : list (nat * sec_entry))
    (D : list (nat * TxOutSecrets)) (p : PartiallySignedTransaction) : Prop :=
  { ses_inputs : inputs p = inputs p0;
    ses_length : length (outputs p) = length (outputs p0);
    ses_same i : i ∉ B.*1 -> outputs p !! i = outputs p0 !! i;
    ses_sealed i e : (i, e) ∈ B -> exists o o', outputs p0 !! i = Some o /\ outputs p !! i = Some o' /\
                       o_amount o = Some e.1.1 /\ seals gens o o' e.1.2 e.2;
    ses_owner i o : i ∈ B.*1 -> outputs p0 !! i = Some o -> exists b, blinder_index o = Some b /\ Z.to_nat b ∈ D.*1;
    ses_nodup : NoDup B.*1;
    ses_scalars : cong (sum_map scalar (scalars (global p))) (known_factors D - factors B.*2) }.

Lemma session_start gens p : scalars (global p) = [] -> session gens p [] [] p.
Proof.
  intros Hs. split; try done.
  - by intros i e ?%elem_of_nil.
  - by intros i o ?%elem_of_nil.
  - constructor.
  - by rewrite Hs.
Qed.

(** An output is unchanged until its party's turn. *)
Lemma session_frame gens p0 B D p i o : session gens p0 B D p -> outputs p !! i = Some o ->
  exists o0, outputs p0 !! i = Some o0 /\ out_frame o = out_frame o0.
Proof.
  intros Hs Ho. destruct (decide (i ∈ B.*1)) as [([i' e] & -> & Hi)%list_elem_of_fmap|Hn].
  - destruct (ses_sealed _ _ _ _ _ Hs _ _ Hi) as (o0 & o' & H0 & H1 & _ & pk & t & ts & v & a & _ & _ & _ & _ & _ & _ & Hf).
    cbn [fst] in *. rewrite Ho in H1. injection H1 as <-. by exists o0.
  - rewrite (ses_same _ _ _ _ _ Hs _ Hn) in Ho. by exists o.
Qed.

Lemma factors_app l k : factors (l ++ k) = factors l + factors k.
Proof. apply sum_map_app. Qed.
Lemma factors_snoc l e : factors (l ++ [e]) = factors l + factor e.
Proof. rewrite factors_app. unfold factors at 2. cbn [sum_map foldr]. lia. Qed.
Lemma known_factors_app l k : known_factors (l ++ k) = known_factors l + known_factors k.
Proof. apply sum_map_app. Qed.

Lemma split_last {A} (l : list A) x : last l = Some x -> l = removelast l ++ [x].
Proof. intros [k ->]%last_Some. by rewrite List.removelast_last. Qed.

(** The scalar that a party leaves: its inputs less its outputs. *)
Lemma left_scalar es v abf vbf ins neg t :
  last es = Some (v, abf, vbf) -> vbf_neg vbf = Some neg -> vbf_add (vbf_last v abf ins (removelast es)) neg = Some t ->
  cong (scalar t) (factors ins - factors es).
Proof.
  intros Hl Hn Ht. destruct (vbf_neg_ok vbf) as (n' & Hn' & Hcn). rewrite Hn in Hn'. injection Hn' as <-.
  destruct (vbf_add_ok (vbf_last v abf ins (removelast es)) neg) as (t' & Ht' & Hct). rewrite Ht in Ht'. injection Ht' as <-.
  pose proof (vbf_last_balances v abf ins (removelast es)) as Hb. unfold factor in Hb. cbn [fst snd] in Hb.
  rewrite (split_last _ _ Hl), factors_snoc. unfold factor. cbn [fst snd].
  rewrite Hct, Hcn. destruct Hb as [k Hk]. exists k. lia.
Qed.

Section parties.
Context (p0 : PartiallySignedTransaction) (sigma : nat -> TxOutSecrets).
Definition entering_gens : list Generator := map sec_gen (entering sigma 0 (inputs p0)).

Record opened_inputs : Prop :=
  { op_utxos j inp : inputs p0 !! j = Some inp -> exists u, witness_utxo inp = Some u /\ opens u (sigma j);
    op_issuances : Forall explicit_issuance (inputs p0) }.

(** A party knows the secrets of its inputs. *)
Definition knows (m : gmap nat TxOutSecrets) : Prop :=
  forall k s, m !! k = Some s -> s = sigma k /\ (k < length (inputs p0))%nat.

Lemma session_targets B D p m dom ts :
  opened_inputs -> knows m -> session entering_gens p0 B D p ->
  surjection_inputs p m = Ok dom -> surjection_targets 0 dom = Ok ts -> ts.*1.*1 = entering_gens.
Proof.
  intros [Hu Hi] Hk Hs Hd Ht. unfold surjection_inputs in Hd. rewrite (ses_inputs _ _ _ _ _ Hs) in Hd.
  eapply (domain_gens sigma); [exact Hd|exact Ht| |done|exact Hu]. intros k s Hm. exact (proj1 (Hk k s Hm)).
Qed.

Lemma mine_fresh B D p m i o :
  session entering_gens p0 B D p -> (forall k, k ∈ D.*1 -> m !! k = None) ->
  outputs p0 !! i = Some o -> mine m o = true -> i ∉ B.*1.
Proof.
  intros Hs Hd Ho (b & Hb & [s Hm])%mine_index Hi. destruct (ses_owner _ _ _ _ _ Hs _ _ Hi Ho) as (b' & Hb' & Hk).
  rewrite Hb in Hb'. injection Hb' as <-. by rewrite (Hd _ Hk) in Hm.
Qed.

(** The outputs of a party, before its turn. *)
Lemma session_outs B D p m ins outs :
  session entering_gens p0 B D p -> (forall k, k ∈ D.*1 -> m !! k = None) -> blind_checks p m = Ok (ins, outs) ->
  forall i, i ∈ outs <-> exists o, outputs p0 !! i = Some o /\ mine m o = true.
Proof.
  intros Hs Hd (_ & _ & Hin)%blind_checks_spec i. rewrite Hin. split.
  - intros (o & Ho & Hm). destruct (session_frame _ _ _ _ _ _ _ Hs Ho) as (o0 & H0 & Hf).
    exists o0. split; [done|]. by rewrite <-(mine_frame m _ _ Hf).
  - intros (o & Ho & Hm). exists o. by rewrite (ses_same _ _ _ _ _ Hs i) by (by eapply mine_fresh).
Qed.

Lemma session_add B D p m (outs : list nat) (es : list sec_entry) gs p1 p' :
  session entering_gens p0 B D p -> (forall k, k ∈ D.*1 -> m !! k = None) ->
  (forall i, i ∈ outs -> exists o, outputs p0 !! i = Some o /\ mine m o = true) -> NoDup outs ->
  inputs p1 = inputs p -> length (outputs p1) = length (outputs p) -> gs = entering_gens ->
  (forall j, j ∉ outs -> outputs p1 !! j = outputs p !! j) ->
  Forall2 (fun i e => exists o o', outputs p !! i = Some o /\ outputs p1 !! i = Some o' /\
             o_amount o = Some e.1.1 /\ seals gs o o' e.1.2 e.2) outs es ->
  inputs p' = inputs p1 -> outputs p' = outputs p1 ->
  cong (sum_map scalar (scalars (global p'))) (sum_map scalar (scalars (global p)) + known_factors (map_to_list m) - factors es) ->
  session entering_gens p0 (zip outs es ++ B) (map_to_list m ++ D) p'.
Proof.
  intros Hs Hd Hm Hnd Hi1 Hl1 -> Hsame Hf2 Hi' Ho' Hc.
  assert (Hlen : length outs = length es) by exact (Forall2_length _ _ _ Hf2).
  assert (Hfst : (zip outs es).*1 = outs) by (apply fst_zip; lia).
  assert (Hsnd : (zip outs es).*2 = es) by (apply snd_zip; lia).
  assert (HB : forall i, i ∈ outs -> i ∉ B.*1).
  { intros i (o & Ho & Hmo)%Hm. by eapply mine_fresh. }
  split.
  - rewrite Hi', Hi1. apply Hs.
  - rewrite Ho', Hl1. apply Hs.
  - intros i. rewrite fmap_app, Hfst, not_elem_of_app. intros [H1 H2]. rewrite Ho', (Hsame i H1). by apply Hs.
  - intros i e [Hz|Hb]%elem_of_app.
    + apply elem_of_lookup_zip_with in Hz as (n & i' & e' & [= <- <-] & Hn1 & Hn2).
      apply (Forall2_lookup_lr _ _ _ _ _ _ Hf2 Hn1) in Hn2 as (o & o' & H1 & H2 & Hrest).
      exists o, o'. rewrite Ho'. split; [|by split].
      rewrite <-(ses_same _ _ _ _ _ Hs); [done|]. apply HB. by eapply list_elem_of_lookup_2.
    + destruct (ses_sealed _ _ _ _ _ Hs _ _ Hb) as (o & o' & H1 & H2 & Hrest). exists o, o'. rewrite Ho', Hsame; [done|].
      intros Hio%HB. apply Hio. apply list_elem_of_fmap. by exists (i, e).
  - intros i o. rewrite !fmap_app, Hfst. intros [Hio|Hb]%elem_of_app Ho.
    + destruct (Hm i Hio) as (o1 & Ho1 & (b & Hb & [s Hms])%mine_index). simplify_eq. exists b. split; [done|].
      apply elem_of_app. left. apply list_elem_of_fmap. exists (Z.to_nat b, s). split; [done|]. by apply elem_of_map_to_list.
    + destruct (ses_owner _ _ _ _ _ Hs _ _ Hb Ho) as (b & Hbi & Hk). exists b. split; [done|]. apply elem_of_app. by right.
  - rewrite fmap_app, Hfst. apply NoDup_app. split_and!; [done|exact HB|apply Hs].
  - rewrite Hc, (ses_scalars _ _ _ _ _ Hs), fmap_app, Hsnd, factors_app, known_factors_app. exists 0. lia.
Qed.

(** A party that is not the last one, and that has an output to blind. *)
Lemma session_step B D p m r ret p' r' :
  opened_inputs -> knows m -> session entering_gens p0 B D p ->
  (forall k, k ∈ D.*1 -> m !! k = None) -> (exists i o, outputs p0 !! i = Some o /\ mine m o = true) ->
  blind_non_last m (p, r) = (Ok ret, (p', r')) ->
  exists B', session entering_gens p0 (B' ++ B) (map_to_list m ++ D) p' /\
    forall i, i ∈ B'.*1 <-> exists o, outputs p0 !! i = Some o /\ mine m o = true.
Proof.
  intros Hop Hk Hs Hd (i0 & o0 & Ho0 & Hm0) Hb. unfold blind_non_last in Hb.
  act_step Hb as p1 ? [<- ->]%act_gets_ok. cbn [fst] in Hb. act_step Hb as [ins outs] ? [Hch ->]%act_lift_ok.
  pose proof (session_outs _ _ _ _ _ _ Hs Hd Hch) as Houts. apply blind_checks_spec in Hch as (-> & Hnd & _).
  assert (Hi0 : i0 ∈ outs) by (apply Houts; by exists o0).
  destruct outs as [|x outs']; [by apply elem_of_nil in Hi0|]. set (outs := x :: outs') in *.
  act_step Hb as dom ? [Hdom ->]%act_lift_ok. act_step Hb as es [p2 r2] Hes.
  act_step Hb as [[v abf] vbf] ? [Hl%ok_or_ok ->]%act_lift_ok.
  act_step Hb as neg ? [Hn%ok_or_ok ->]%act_lift_ok. act_step Hb as t ? [Ht%ok_or_ok ->]%act_lift_ok.
  act_step Hb as [] ? ->%act_modify_ok. apply act_ret_ok in Hb as [_ [= -> ->]]. cbn [fst].
  assert (Hts : exists ts, surjection_targets 0 dom = Ok ts).
  { cbn [act_mapM outs] in Hes. unfold outs in Hes. cbn [act_mapM] in Hes. act_step Hes as e1 [? ?] Hb1.
    unfold blind_output in Hb1. act_step Hb1 as o ? [_ ->]%out_at_ok. act_step Hb1 as pk ? [_ ->]%act_lift_ok.
    act_step Hb1 as [[[t1 a1] v1] k1] ? [Hnl _]%act_zoom_ok. apply to_non_last_ok in Hnl as (? & ? & ts & _ & _ & Hts & _). by exists ts. }
  destruct Hts as [ts Hts]. pose proof (session_targets _ _ _ _ _ _ Hop Hk Hs Hdom Hts) as Hg.
  destruct (blind_outputs_ok _ _ _ _ _ _ _ _ Hts Hnd Hes) as ((outs2 & -> & Hlen) & Hsame & Hf2).
  exists (zip outs es). split.
  - refine (session_add B D p m outs es _ (with_outs p outs2) (set_scalars _ (with_outs p outs2)) Hs Hd (fun i => proj1 (Houts i)) Hnd eq_refl Hlen Hg Hsame Hf2 eq_refl eq_refl _).
    cbn [set_scalars global scalars with_outs]. rewrite sum_map_app. cbn [sum_map foldr].
    rewrite (left_scalar _ _ _ _ _ _ _ Hl Hn Ht), iter_factors. exists 0. lia.
  - intros i. rewrite fst_zip; [done|]. exact (Nat.eq_le_incl _ _ (Forall2_length _ _ _ Hf2)).
Qed.
End parties.

(** A session does not depend on an output that is not blinded yet. *)
Lemma session_patch gens q0 q q0' q' B D x :
  session gens q0 B D q -> x ∉ B.*1 ->
  inputs q0' = inputs q0 -> inputs q' = inputs q -> scalars (global q') = scalars (global q) ->
  length (outputs q0') = length (outputs q0) -> length (outputs q') = length (outputs q) ->
  (forall i, i <> x -> outputs q0' !! i = outputs q0 !! i) -> (forall i, i <> x -> outputs q' !! i = outputs q !! i) ->
  outputs q' !! x = outputs q0' !! x -> session gens q0' B D q'.
Proof.
  intros Hs Hx Hi0 Hi Hsc Hl0 Hl H0 H1 Hxx.
  assert (Hne : forall i, i ∈ B.*1 -> i <> x) by (intros i Hi2 ->; done).
  split.
  - rewrite Hi, Hi0. apply Hs.
  - rewrite Hl, Hl0. apply Hs.
  - intros i Hn. destruct (decide (i = x)) as [->|Hix]; [done|]. rewrite H0, H1 by done. by apply Hs.
  - intros i e Hie. assert (i <> x) by (apply Hne, list_elem_of_fmap; by exists (i, e)).
    rewrite H0, H1 by done. by apply Hs.
  - intros i o Hib. rewrite H0 by (by apply Hne). by apply Hs.
  - apply Hs.
  - rewrite Hsc. apply Hs.
Qed.

Definition clear_blinder (o : PsetOutput) : PsetOutput := o <| blinder_index := None |>.

Lemma all_but_step p0 sigma B D p m x o r u p' r' :
  opened_inputs p0 sigma -> knows p0 sigma m -> session (entering_gens p0 sigma) p0 B D p ->
  (forall k, k ∈ D.*1 -> m !! k = None) -> outputs p0 !! x = Some o -> mine m o = true ->
  (exists i o, i <> x /\ outputs p0 !! i = Some o /\ mine m o = true) ->
  blind_all_but x m (p, r) = (Ok u, (p', r')) ->
  exists B', session (entering_gens p0 sigma) p0 (B' ++ B) (map_to_list m ++ D) p' /\
    forall i, i ∈ B'.*1 <-> i <> x /\ exists o, outputs p0 !! i = Some o /\ mine m o = true.
Proof.
  intros Hop Hk Hs Hd Ho Hm (i0 & o0 & Hi0 & Ho0 & Hm0) Hb. unfold blind_all_but in Hb.
  assert (HxB : x ∉ B.*1) by (by eapply mine_fresh).
  assert (Hpx : outputs p !! x = Some o) by (by rewrite (ses_same _ _ _ _ _ Hs)).
  act_step Hb as o' ? [Ho' ->]%out_at_ok. rewrite Hpx in Ho'. injection Ho' as <-.
  act_step Hb as [] ? ->%update_out_ok. act_step Hb as ret [p1 r1] Hnl. apply update_out_ok in Hb. injection Hb as -> ->.
  set (q0 := with_outs p0 (alter clear_blinder x (outputs p0))) in *.
  set (q := with_outs p (alter (fun o => o <| blinder_index := None |>) x (outputs p))) in *.
  assert (Hq : session (entering_gens q0 sigma) q0 B D q).
  { apply (session_patch _ p0 p _ _ B D x); try done; unfold q, q0; cbn [with_outs outputs]; try apply length_alter.
    - intros i Hi. by apply list_lookup_alter_ne.
    - intros i Hi. by apply list_lookup_alter_ne.
    - by rewrite !list_lookup_alter_eq, Hpx, Ho. }
  assert (Hq0 : forall i, i <> x -> outputs q0 !! i = outputs p0 !! i) by (intros i Hi; by apply list_lookup_alter_ne).
  assert (Hq0x : outputs q0 !! x = Some (clear_blinder o)) by (unfold q0; cbn [with_outs outputs]; by rewrite list_lookup_alter_eq, Ho).
  assert (Hcx : mine m (clear_blinder o) = false) by (unfold mine; by destruct o as [? ? ? ? ? ? ? ? ? ? ? ? ? []]).
  destruct (session_step q0 sigma B D q m r ret p1 r1) as (B' & Hs' & HB'); try done.
  { by destruct Hop. }
  { exists i0, o0. by rewrite Hq0. }
  assert (HxB' : x ∉ (B' ++ B).*1).
  { rewrite fmap_app, not_elem_of_app. split; [|done]. intros (o1 & Ho1 & Hm1)%HB'. rewrite Hq0x in Ho1. injection Ho1 as <-. congruence. }
  exists B'. split.
  - apply (session_patch _ q0 p1 _ _ _ _ x); try done; cbn [with_outs outputs]; try apply length_alter.
    + unfold q0. cbn [with_outs outputs]. by rewrite length_alter.
    + intros i Hi. by rewrite Hq0.
    + intros i Hi. by apply list_lookup_alter_ne.
    + rewrite list_lookup_alter_eq, (ses_same _ _ _ _ _ Hs' _ HxB'), Hq0x, Ho. cbn [fmap option_fmap option_map]. f_equal. by destruct o.
  - intros i. rewrite HB'. split.
    + intros (o1 & Ho1 & Hm1). destruct (decide (i = x)) as [->|Hix]; [rewrite Hq0x in Ho1; injection Ho1 as <-; congruence|].
      split; [done|]. exists o1. by rewrite <-Hq0.
    + intros [Hix (o1 & Ho1 & Hm1)]. exists o1. by rewrite Hq0.
Qed.

Lemma explicit_outs_zero i outs l : explicit_outs i outs = Ok l -> factors l = 0.
Proof.
  revert i l. induction outs as [|o outs IH]; intros i l Hl; cbn [explicit_outs] in Hl; [by injection Hl as <-|].
  destruct (is_marked_for_blinding o); [by eapply IH|]. destruct (o_amount o) as [v|]; [|done]. cbn [ok_or rbind] in Hl.
  destruct (explicit_outs _ outs) as [l'|] eqn:El; [|done]. cbn [rbind] in Hl. injection Hl as <-.
  unfold factors in *. cbn [sum_map foldr]. rewrite (IH _ _ El : foldr _ _ _ = 0). unfold factor. cbn [fst snd]. rewrite scalar_ZERO. lia.
Qed.

(** The last output: its blinding factor is what is missing. *)
Lemma last_output_step p0 sigma B D extra p m ins x o b r u p' r' :
  opened_inputs p0 sigma -> knows p0 sigma m -> session (entering_gens p0 sigma) p0 B D p ->
  x ∉ B.*1 -> outputs p0 !! x = Some o -> blinder_index o = Some b -> Z.to_nat b ∈ (extra ++ D).*1 ->
  factors ins = known_factors extra ->
  blind_last_output x m ins (p, r) = (Ok u, (p', r')) ->
  exists e, session (entering_gens p0 sigma) p0 ((x, e) :: B) (extra ++ D) p' /\ scalars (global p') = [].
Proof.
  intros Hop Hk Hs HxB Ho Hbi Hbd Hins Hb. unfold blind_last_output in Hb.
  assert (Hpx : outputs p !! x = Some o) by (by rewrite (ses_same _ _ _ _ _ Hs)).
  act_step Hb as p1 ? [<- ->]%act_gets_ok. cbn [fst] in Hb. act_step Hb as dom ? [Hdom ->]%act_lift_ok.
  act_step Hb as o' ? [Ho' ->]%out_at_ok. rewrite Hpx in Ho'. injection Ho' as <-.
  act_step Hb as a ? [Ha%ok_or_ok ->]%act_lift_ok. act_step Hb as abf [p1 r1] [_ Hp1]%act_zoom_ok. cbn [fst] in Hp1. subst p1.
  act_step Hb as [oa sp] [p1 r2] [Hab Hp1]%act_zoom_ok. cbn [fst snd] in Hp1, Hab. subst p1.
  apply Asset_blind_ok in Hab as (ts & Hts & -> & Hsp).
  act_step Hb as v ? [Hv%ok_or_ok ->]%act_lift_ok. act_step Hb as exps ? [He ->]%act_lift_ok.
  act_step Hb as vbf ? [Hvbf%ok_or_ok ->]%act_lift_ok. act_step Hb as pk ? [Hpk%ok_or_ok ->]%act_lift_ok.
  act_step Hb as esk [p1 r3] [_ Hp1]%act_zoom_ok. cbn [fst] in Hp1. subst p1.
  act_step Hb as [[ov n] rp] [p1 r4] [Hvb Hp1]%act_zoom_ok. apply act_lift_ok in Hvb as [Hvb Hr]. cbn [fst snd] in Hp1, Hr. subst p1 r4.
  act_step Hb as [] [p1 r5] Hco. apply act_modify_ok in Hb. cbn [fst snd] in Hb. injection Hb as -> ->.
  pose proof (seal_parts (pk_inner pk) ts _ a abf v vbf esk _ sp _ _ ov n rp eq_refl Hsp Hvb) as Hseal.
  pose proof (session_targets p0 sigma _ _ _ _ _ _ Hop Hk Hs Hdom Hts) as Hg.
  destruct (commit_output_ok _ _ _ _ _ _ _ _ _ _ _ _ _ _ Hco Hpx Hseal) as (o' & -> & Hx & Hf).
  exists (v, abf, vbf). split; [|done].
  assert (Hlt : (x < length (outputs p))%nat) by (by eapply lookup_lt_Some).
  assert (Hfac : cong (factor (v, abf, vbf)) (known_factors (extra ++ D) - factors B.*2)).
  { destruct (add_scalars_ok (vbf_last v abf ins exps) (scalars (global p))) as (t & Ht & Hct). rewrite Hvbf in Ht. injection Ht as <-.
    pose proof (vbf_last_balances v abf ins exps) as Hl. unfold factor in *. cbn [fst snd] in *.
    rewrite (explicit_outs_zero _ _ _ He), Hins in Hl. rewrite Hct, (ses_scalars _ _ _ _ _ Hs), known_factors_app.
    destruct Hl as [k Hl]. exists k. lia. }
  split; cbn [set_scalars with_outs inputs outputs global scalars].
  - apply Hs.
  - rewrite length_insert. apply Hs.
  - intros i [Hi1 Hi2]%not_elem_of_cons. rewrite list_lookup_insert_ne by done. by apply Hs.
  - intros i e [[= -> ->]|Hie]%elem_of_cons.
    + exists o, o'. cbn [fst snd]. split_and!; [done|by apply list_lookup_insert_eq|done|].
      exists pk, (mkTxOut (AssetConfidential (Generator_new_blinded a abf)) ov n (o_script_pubkey o) (mkTxOutWitness (Some sp) (Some rp))), ts, v, a.
      by split_and!.
    + rewrite list_lookup_insert_ne; [by apply Hs|]. intros ->. apply HxB, list_elem_of_fmap. by exists (i, e).
  - intros i o1 [->|Hi]%elem_of_cons Ho1.
    + cbn [fst] in Ho1. rewrite Ho in Ho1. injection Ho1 as <-. by exists b.
    + destruct (ses_owner _ _ _ _ _ Hs _ _ Hi Ho1) as (b' & Hb' & Hin). exists b'. split; [done|]. rewrite fmap_app. apply elem_of_app. by right.
  - constructor; [done|apply Hs].
  - unfold factors. cbn [fmap list_fmap snd sum_map foldr]. destruct Hfac as [k Hk']. exists k. unfold factors, sum_map in *. lia.
Qed.

(** The last party. *)
Lemma session_last p0 sigma B D p m r u p' r' :
  opened_inputs p0 sigma -> knows p0 sigma m -> session (entering_gens p0 sigma) p0 B D p ->
  (forall k, k ∈ D.*1 -> m !! k = None) -> blind_last m (p, r) = (Ok u, (p', r')) ->
  exists B', session (entering_gens p0 sigma) p0 (B' ++ B) (map_to_list m ++ D) p' /\ scalars (global p') = [] /\
    forall i, i ∈ B'.*1 <-> exists o, outputs p0 !! i = Some o /\ mine m o = true.
Proof.
  intros Hop Hk Hs Hd Hb. unfold blind_last in Hb. act_step Hb as p1 ? [<- ->]%act_gets_ok. cbn [fst] in Hb.
  act_step Hb as [ins outs] ? [Hch ->]%act_lift_ok. pose proof (session_outs p0 sigma _ _ _ _ _ _ Hs Hd Hch) as Houts.
  apply blind_checks_spec in Hch as (-> & Hnd & _).
  destruct (last outs) as [x|] eqn:Hl; [|by apply act_lift_ok in Hb as [? _]].
  assert (Hx : x ∈ outs) by (rewrite (split_last _ _ Hl); apply elem_of_app; right; apply list_elem_of_here).
  destruct (proj1 (Houts x) Hx) as (o & Ho & Hm). destruct (mine_index m o Hm) as (b & Hbi & [s Hsb]).
  assert (Hbm : Z.to_nat b ∈ (map_to_list m).*1).
  { apply list_elem_of_fmap. exists (Z.to_nat b, s). split; [done|]. by apply elem_of_map_to_list. }
  pose proof (split_last _ _ Hl) as Hsplit.
  destruct (removelast outs) as [|y rest].
  - assert (Hbd : Z.to_nat b ∈ (map_to_list m ++ D).*1) by (rewrite fmap_app; apply elem_of_app; by left).
    assert (HxB : x ∉ B.*1) by (by eapply mine_fresh).
    destruct (last_output_step p0 sigma B D (map_to_list m) p m _ x o b _ _ _ _ Hop Hk Hs HxB Ho Hbi Hbd (iter_factors m) Hb) as (e & He & Hsc).
    exists [(x, e)]. split_and!; [done|done|]. intros i. rewrite <-Houts, Hsplit. done.
  - act_step Hb as [] [p2 r2] Hall.
    assert (Hnx : forall i, i ∈ outs <-> i = x \/ (i <> x /\ i ∈ outs)).
    { intros i. destruct (decide (i = x)) as [->|]; naive_solver. }
    assert (Hother : exists i o, i <> x /\ outputs p0 !! i = Some o /\ mine m o = true).
    { assert (Hy : y ∈ outs) by (rewrite Hsplit; apply list_elem_of_here). destruct (proj1 (Houts y) Hy) as (oy & Hoy & Hmy).
      exists y, oy. split; [|done]. intros ->. rewrite Hsplit in Hnd. cbn [app] in Hnd. apply NoDup_cons in Hnd as [Hn _].
      apply Hn, elem_of_app. right. apply list_elem_of_here. }
    destruct (all_but_step p0 sigma B D p m x o _ _ _ _ Hop Hk Hs Hd Ho Hm Hother Hall) as (B' & Hs' & HB').
    assert (HxB : x ∉ (B' ++ B).*1).
    { rewrite fmap_app, not_elem_of_app. split; [by intros [? _]%HB'|by eapply mine_fresh]. }
    assert (Hbd : Z.to_nat b ∈ ([] ++ map_to_list m ++ D).*1) by (cbn [app]; rewrite fmap_app; apply elem_of_app; by left).
    destruct (last_output_step p0 sigma (B' ++ B) (map_to_list m ++ D) [] p2 m [] x o b _ _ _ _ Hop Hk Hs' HxB Ho Hbi Hbd eq_refl Hb) as (e & He & Hsc).
    exists ((x, e) :: B'). split_and!; [done|done|]. intros i. cbn [fmap list_fmap fst]. rewrite elem_of_cons, HB', <-Houts. symmetry. apply Hnx.
Qed.

(** ** Verification succeeds *)

Lemma pset_ids_some i : exists ids, pset_issuance_ids i = Some ids /\ issuance_ids (extract_input i) = Some ids.
Proof.
  unfold pset_issuance_ids, issuance_ids, issuance_entropy, extract_input, generate_asset_entropy, from_entropy, reissuance_token_from_entropy.
  cbn [asset_issuance previous_output pset_asset_issuance asset_blinding_nonce asset_entropy amount].
  rewrite !fast_merkle_root_2.
  assert (Hc : Value_is_confidential (value_of (issuance_value_amount i) (issuance_value_comm i)) = bool_decide (is_Some (issuance_value_comm i))).
  { destruct (issuance_value_amount i), (issuance_value_comm i); cbn [value_of Value_is_confidential]; [by rewrite bool_decide_true|by rewrite bool_decide_false|by rewrite bool_decide_true|by rewrite bool_decide_false]. }
  rewrite Hc. destruct (bool_decide (_ = ZERO_TWEAK)); cbn [mbind option_bind]; rewrite !fast_merkle_root_2; cbn [mbind option_bind]; by eexists.
Qed.

Definition opening_pair (s : TxOutSecrets) : Generator * PedersenCommitment := (sec_gen s, commit s).

Lemma issued_commit_ok v a : issued_commit (value_of v None) a =
  map opening_pair (match v with Some v => [mkSecrets a ZERO_TWEAK v ZERO_TWEAK] | None => [] end).
Proof.
  destruct v as [v|]; [|done]. cbn [value_of issued_commit map]. unfold opening_pair, sec_gen, commit.
  cbn [sec_asset asset_bf sec_value value_bf]. by rewrite pedersen_unblinded, gen_unblinded.
Qed.

Lemma issuance_commits_ok i : explicit_issuance i -> issuance_commits (extract_input i) = Ok (map opening_pair (issued i)).
Proof.
  intros (Hc1 & Hc2 & _). unfold issuance_commits, issued. change (has_issuance (extract_input i)) with (pset_has_issuance i).
  destruct (pset_has_issuance i); [|done]. destruct (pset_ids_some i) as (ids & -> & ->). cbn [ok_or rbind].
  unfold extract_input. cbn [asset_issuance pset_asset_issuance amount inflation_keys]. rewrite Hc1, Hc2, map_app.
  by rewrite !issued_commit_ok.
Qed.

Lemma verify_inputs_ok sigma i l utxos :
  Forall explicit_issuance l -> length utxos = length l ->
  (forall j u, utxos !! j = Some u -> opens u (sigma (i + j)%nat)) ->
  verify_inputs i (map extract_input l) utxos = Ok (map opening_pair (entering sigma i l)).
Proof.
  intros He. revert i utxos. induction He as [|inp l Hi He IH]; intros i utxos Hl Ho; [by destruct utxos|].
  destruct utxos as [|u utxos]; [done|]. cbn [map verify_inputs entering].
  pose proof (Ho 0%nat u eq_refl) as Hu. rewrite Nat.add_0_r in Hu.
  rewrite (opens_gen _ _ Hu), (opens_commit _ _ Hu). cbn [map_err rbind]. rewrite (issuance_commits_ok _ Hi). cbn [rbind].
  rewrite IH; [|by injection Hl|].
  - cbn [rbind]. by rewrite map_app.
  - intros j u' Hj. pose proof (Ho (Datatypes.S j) u' Hj) as Hu'. by rewrite Nat.add_succ_r in Hu'.
Qed.

(** An output that verifies, against a domain. *)
Definition sound_output (gens : list Generator) (t : TxOut) (s : TxOutSecrets) : Prop :=
  opens t s /\
  (Value_is_confidential (value t) = true -> exists rp, rangeproof (out_witness t) = Some rp /\
     is_Some (RangeProof_verify rp (commit s) (script_pubkey t) (sec_gen s))) /\
  (Asset_is_confidential (asset t) = true -> exists sp, surjection_proof (out_witness t) = Some sp /\
     SurjectionProof_verify sp (sec_gen s) gens = true).

Lemma verify_outputs_ok gens i outs ss :
  Forall2 (sound_output gens) outs ss -> verify_outputs gens i outs = Ok (map commit ss).
Proof.
  intros Hf. revert i. induction Hf as [|t s outs ss (Ho & Hr & Hs) _ IH]; intros i; [done|]. cbn [verify_outputs map].
  rewrite (opens_commit _ _ Ho). cbn [map_err rbind].
  assert (Hvr : verify_rangeproof i t = Ok ()).
  { unfold verify_rangeproof. rewrite (opens_gen _ _ Ho). destruct Ho as [_ [Hv|(Hv & _)]]; rewrite Hv in *; [|done].
    destruct (Hr eq_refl) as (rp & -> & [y Hy]). cbn [Value_commitment map_err rbind ok_or]. by rewrite Hy. }
  assert (Hvs : verify_surjectionproof gens i t = Ok ()).
  { unfold verify_surjectionproof. destruct Ho as [[Ha|(Ha & _)] _]; rewrite Ha in *; [|done].
    destruct (Hs eq_refl) as (sp & -> & Hy). cbn [Asset_commitment ok_or rbind]. by rewrite Hy. }
  rewrite Hvr, Hvs. cbn [rbind]. rewrite IH. done.
Qed.

Lemma verify_complete sigma l utxos v lock outs ss :
  Forall explicit_issuance l -> length utxos = length l -> (forall j u, utxos !! j = Some u -> opens u (sigma j)) ->
  Forall2 (sound_output (map sec_gen (entering sigma 0 l))) outs ss ->
  (forall a, asset_total a (entering sigma 0 l) = asset_total a ss) ->
  cong (sum_map sec_factor (entering sigma 0 l)) (sum_map sec_factor ss) ->
  verify_tx_amt_proofs (mkTransaction v lock (map extract_input l) outs) utxos = Ok ().
Proof.
  intros He Hl Ho Hf Ha Hc. unfold verify_tx_amt_proofs. cbn [input output]. rewrite length_map, Hl, Nat.eqb_refl. cbn [negb].
  rewrite (verify_inputs_ok sigma 0 l utxos He Hl Ho). cbn [rbind].
  assert (H1 : (map opening_pair (entering sigma 0 l)).*1 = map sec_gen (entering sigma 0 l)) by exact (eq_sym (list_fmap_compose opening_pair _ _)).
  assert (H2 : (map opening_pair (entering sigma 0 l)).*2 = map commit (entering sigma 0 l)) by exact (eq_sym (list_fmap_compose opening_pair _ _)).
  rewrite H1, H2, (verify_outputs_ok _ _ _ _ Hf). cbn [rbind]. by rewrite commitments_add.
Qed.

(** ** A session of several parties *)

(** The parties blind one after the other, the last of them as such. *)
Fixpoint blind_parties (ms : list (gmap nat TxOutSecrets)) (m : gmap nat TxOutSecrets) : action bstate PsetBlindError () :=
  match ms with
  | [] => blind_last m
  | m0 :: ms => let! _ := blind_non_last m0 in blind_parties ms m
  end.

Definition has_output (p0 : PartiallySignedTransaction) (m : gmap nat TxOutSecrets) : Prop :=
  exists i o, outputs p0 !! i = Some o /\ mine m o = true.

Lemma parties_session p0 sigma ms : forall m B D p r u p' r',
  opened_inputs p0 sigma -> Forall (fun m => knows p0 sigma m /\ has_output p0 m) (ms ++ [m]) ->
  ForallOrdPairs map_disjoint (ms ++ [m]) -> (forall m' k, m' ∈ ms ++ [m] -> k ∈ D.*1 -> m' !! k = None) -> NoDup D.*1 ->
  session (entering_gens p0 sigma) p0 B D p -> blind_parties ms m (p, r) = (Ok u, (p', r')) ->
  exists B' D', session (entering_gens p0 sigma) p0 (B' ++ B) D' p' /\ scalars (global p') = [] /\ NoDup D'.*1 /\
    (forall i, i ∈ B'.*1 <-> exists m' o, m' ∈ ms ++ [m] /\ outputs p0 !! i = Some o /\ mine m' o = true) /\
    (forall k s, (k, s) ∈ D' <-> (k, s) ∈ D \/ exists m', m' ∈ ms ++ [m] /\ m' !! k = Some s).
Proof.
  assert (Hnd : forall (m : gmap nat TxOutSecrets) D, (forall k, k ∈ D.*1 -> m !! k = None) -> NoDup D.*1 -> NoDup (map_to_list m ++ D).*1).
  { intros m D Hd HD. rewrite fmap_app. apply NoDup_app. split_and!; [apply NoDup_fst_map_to_list| |done].
    intros k ([k' s] & -> & Hk%elem_of_map_to_list)%list_elem_of_fmap Hin. cbn [fst] in Hin. by rewrite (Hd _ Hin) in Hk. }
  induction ms as [|m0 ms IH]; intros m B D p r u p' r' Hop Hall Hdis HD HnD Hs Hb; cbn [blind_parties app] in *.
  - apply Forall_singleton in Hall as [Hk _].
    assert (Hd : forall k, k ∈ D.*1 -> m !! k = None) by (intros k; apply HD, list_elem_of_here).
    destruct (session_last p0 sigma B D p m _ _ _ _ Hop Hk Hs Hd Hb) as (B' & Hs' & Hsc & HB').
    exists B', (map_to_list m ++ D). split_and!; [done|done|by apply Hnd| |].
    + intros i. rewrite HB'. split; [intros (o & Ho & Hm); by exists m, o; split; [apply list_elem_of_here|]|].
      intros (m' & o & ->%list_elem_of_singleton & Hrest). by exists o.
    + intros k s. rewrite elem_of_app, elem_of_map_to_list. split.
      * intros [Hm|]; [|by left]. right. exists m. by split; [apply list_elem_of_here|].
      * intros [|(m' & ->%list_elem_of_singleton & Hm)]; [by right|by left].
  - apply Forall_cons in Hall as [[Hk Hout] Hall]. inversion Hdis as [|? ? Hd0 Hdis']; subst.
    assert (Hd : forall k, k ∈ D.*1 -> m0 !! k = None) by (intros k; apply HD, list_elem_of_here).
    act_step Hb as ret [p1 r1] Hb1.
    destruct (session_step p0 sigma B D p m0 _ _ _ _ Hop Hk Hs Hd Hout Hb1) as (B1 & Hs1 & HB1).
    assert (HD1 : forall m' k, m' ∈ ms ++ [m] -> k ∈ (map_to_list m0 ++ D).*1 -> m' !! k = None).
    { intros m' k Hm'. rewrite fmap_app, elem_of_app. intros [([k' s] & -> & Hk0%elem_of_map_to_list)%list_elem_of_fmap|Hin].
      - rewrite Forall_forall in Hd0. destruct (map_disjoint_Some_l _ _ _ _ (Hd0 m' Hm') Hk0). done.
      - apply HD; [by right|done]. }
    destruct (IH m _ _ _ _ _ _ _ Hop Hall Hdis' HD1 (Hnd _ _ Hd HnD) Hs1 Hb) as (B2 & D2 & Hs2 & Hsc & HnD2 & HB2 & HD2).
    exists (B2 ++ B1), D2. rewrite <-app_assoc. split_and!; try done.
    + intros i. rewrite fmap_app, elem_of_app, HB1, HB2. setoid_rewrite elem_of_cons. naive_solver.
    + intros k s. rewrite HD2, elem_of_app, elem_of_map_to_list. setoid_rewrite elem_of_cons. naive_solver.
Qed.

(** What a session starts from: the secrets of all inputs open the outputs they spend, the
    amounts of every asset balance, every party knows the secrets of its own inputs and has an
    output to blind, and nobody's inputs are explicit. *)
Record blindable (p0 : PartiallySignedTransaction) (sigma : nat -> TxOutSecrets) (utxos : list TxOut)
    (parties : list (gmap nat TxOutSecrets)) : Prop :=
  { bl_opened : opened_inputs p0 sigma;
    bl_utxos : Forall2 (fun inp u => witness_utxo inp = Some u) (inputs p0) utxos;
    bl_outputs : Forall (fun o => is_Some (o_amount o) /\ is_Some (o_asset o) /\ amount_comm o = None /\ asset_comm o = None /\
                   (0 < default 0 (o_amount o) <= MAX_MONEY \/ exists m, m ∈ parties /\ mine m o = true)) (outputs p0);
    bl_scalars : scalars (global p0) = [];
    bl_parties : Forall (fun m => knows p0 sigma m /\ has_output p0 m) parties;
    bl_disjoint : ForallOrdPairs map_disjoint parties;
    bl_rest i : (i < length (inputs p0))%nat -> (forall m, m ∈ parties -> m !! i = None) ->
      asset_bf (sigma i) = ZERO_TWEAK /\ value_bf (sigma i) = ZERO_TWEAK;
    bl_balance a : asset_total a (entering sigma 0 (inputs p0)) =
      sum_map (fun o => if bool_decide (o_asset o = Some a) then default 0 (o_amount o) else 0) (outputs p0) }.

Lemma sec_factor_zero s : asset_bf s = ZERO_TWEAK -> value_bf s = ZERO_TWEAK -> sec_factor s = 0.
Proof. intros Ha Hv. unfold sec_factor, factor. cbn [value_blind_inputs fst snd]. rewrite Ha, Hv, scalar_ZERO. lia. Qed.

Lemma issued_factors i : sum_map sec_factor (issued i) = 0.
Proof.
  apply sum_map_zero. intros s. unfold issued. destruct (pset_has_issuance i); [|by intros ?%elem_of_nil].
  destruct (pset_issuance_ids i) as [[a b]|]; [|by intros ?%elem_of_nil].
  intros [Hs|Hs]%elem_of_app; [destruct (issuance_value_amount i)|destruct (issuance_inflation_keys i)];
    [apply list_elem_of_singleton in Hs as ->|by apply elem_of_nil in Hs|apply list_elem_of_singleton in Hs as ->|by apply elem_of_nil in Hs];
    by apply sec_factor_zero.
Qed.

Lemma entering_factors sigma i l :
  sum_map sec_factor (entering sigma i l) = sum_map (fun j => sec_factor (sigma j)) (seq i (length l)).
Proof.
  revert i. induction l as [|inp l IH]; intros i; [done|]. cbn [entering length seq].
  by rewrite !sum_map_cons, sum_map_app, issued_factors, IH.
Qed.

(** The secrets of an output, with the blinding factors of those in [B]. *)
Definition leaving_sec (B : gmap nat sec_entry) (i : nat) (o : PsetOutput) : TxOutSecrets :=
  let e : sec_entry := default ((0, ZERO_TWEAK, ZERO_TWEAK) : sec_entry) (B !! i) in
  mkSecrets (default [] (o_asset o)) e.1.2 (default 0 (o_amount o)) e.2.

Lemma leaving_totals B l a : Forall (fun o => is_Some (o_asset o)) l ->
  asset_total a (imap (leaving_sec B) l) = sum_map (fun o => if bool_decide (o_asset o = Some a) then default 0 (o_amount o) else 0) l.
Proof.
  intros Hf. unfold asset_total.
  assert (Hg : forall g : nat -> nat, sum_map (fun s => if bool_decide (sec_asset s = a) then sec_value s else 0) (imap (fun i => leaving_sec B (g i)) l) =
                 sum_map (fun o => if bool_decide (o_asset o = Some a) then default 0 (o_amount o) else 0) l); [|exact (Hg id)].
  induction Hf as [|o l [x Hx] _ IH]; intros g; [done|]. cbn [imap]. rewrite !sum_map_cons. f_equal; [|exact (IH (fun i => g (Datatypes.S i)))].
  cbn [leaving_sec sec_asset sec_value]. rewrite Hx. cbn [default from_option id].
  destruct (decide (x = a)) as [->|Hn]; [by rewrite !bool_decide_true|]. rewrite !bool_decide_false; [done|congruence|done].
Qed.

Lemma leaving_factors gens p0 B D p :
  session gens p0 B D p -> sum_map sec_factor (imap (leaving_sec (list_to_map B)) (outputs p0)) = factors B.*2.
Proof.
  intros Hs. rewrite sum_map_imap. unfold factors. change (B.*2) with (map snd B). rewrite sum_map_map.
  assert (Hlt : forall i, i ∈ B.*1 -> (i < length (outputs p0))%nat).
  { intros i ([i' e] & -> & Hi)%list_elem_of_fmap. destruct (ses_sealed _ _ _ _ _ Hs _ _ Hi) as (o & _ & Ho & _). by eapply lookup_lt_Some. }
  rewrite <-(sum_by_index factor B (length (outputs p0)) (ses_nodup _ _ _ _ _ Hs) Hlt).
  apply sum_map_eq. intros i [_ Hi]%elem_of_seq. destruct (lookup_lt_is_Some_2 (outputs p0) i) as [o Ho]; [lia|]. rewrite Ho.
  cbn [fmap option_fmap option_map default from_option id]. destruct (list_to_map B !! i) as [e|] eqn:Ee.
  - apply elem_of_list_to_map_2 in Ee. destruct (ses_sealed _ _ _ _ _ Hs _ _ Ee) as (o' & _ & Ho' & _ & Hv & _).
    rewrite Ho in Ho'. injection Ho' as <-. unfold sec_factor, leaving_sec. rewrite Hv.
    assert (Ee' : (list_to_map B : gmap nat sec_entry) !! i = Some e) by (apply elem_of_list_to_map_1; [apply Hs|done]).
    rewrite Ee'. destruct e as [[v abf] vbf]. done.
  - apply sec_factor_zero; unfold leaving_sec; by rewrite Ee.
Qed.

Lemma session_sound p0 sigma utxos parties B D p outs :
  blindable p0 sigma utxos parties -> session (entering_gens p0 sigma) p0 B D p ->
  (forall i o m, m ∈ parties -> outputs p0 !! i = Some o -> mine m o = true -> i ∈ B.*1) ->
  Forall2 (fun o t => extract_output o = Ok t) (outputs p) outs ->
  Forall2 (sound_output (entering_gens p0 sigma)) outs (imap (leaving_sec (list_to_map B)) (outputs p0)).
Proof.
  intros Hbl Hs Hmine Hx. apply Forall2_same_length_lookup. apply Forall2_same_length_lookup in Hx as [Hlen Hx].
  split; [rewrite length_imap, <-Hlen; apply Hs|]. intros i t s Ht Hsec.
  rewrite list_lookup_imap in Hsec. destruct (outputs p0 !! i) as [o|] eqn:Ho; [|done]. injection Hsec as <-.
  destruct (lookup_lt_is_Some_2 (outputs p) i) as [o' Ho']; [rewrite (ses_length _ _ _ _ _ Hs); by eapply lookup_lt_Some|].
  specialize (Hx i o' t Ho' Ht). destruct (decide (i ∈ B.*1)) as [Hi|Hi].
  - apply list_elem_of_fmap in Hi as ([i' e] & -> & Hi). cbn [fst] in *.
    assert (Hl : (list_to_map B : gmap nat sec_entry) !! i' = Some e) by (apply elem_of_list_to_map_1; [apply Hs|done]).
    destruct (ses_sealed _ _ _ _ _ Hs _ _ Hi) as (o1 & o2 & H1 & H2 & Hv & pk & t' & ts & v & a & _ & Hv' & Ha & Hg & Hsl & Hx' & _).
    rewrite Ho in H1. injection H1 as <-. rewrite Ho' in H2. injection H2 as <-. rewrite Hx in Hx'. injection Hx' as <-.
    assert (Hsec : leaving_sec (list_to_map B) i' o = mkSecrets a e.1.2 v e.2) by (unfold leaving_sec; by rewrite Hl, Hv', Ha).
    rewrite Hsec. split; [split; left; apply Hsl|]. split; intros _.
    + exact (sealed_range _ _ _ _ _ Hsl).
    + destruct (sealed_surjection _ _ _ _ _ Hsl) as (sp & r1 & r2 & Hsp & Hnew). exists sp. split; [done|].
      apply surjection_complete in Hnew. by rewrite Hg in Hnew.
  - assert (Hl : (list_to_map B : gmap nat sec_entry) !! i = None) by (by apply not_elem_of_list_to_map_1).
    rewrite (ses_same _ _ _ _ _ Hs _ Hi), Ho in Ho'. injection Ho' as <-.
    pose proof (bl_outputs _ _ _ _ Hbl) as Hout. rewrite Forall_lookup in Hout.
    destruct (Hout _ _ Ho) as ([v Hv] & [a Ha] & Hc1 & Hc2 & [Hr|(m & Hm & Hmo)]); [|by destruct Hi; eapply Hmine].
    assert (Hsec : leaving_sec (list_to_map B) i o = mkSecrets a ZERO_TWEAK v ZERO_TWEAK) by (unfold leaving_sec; by rewrite Hl, Hv, Ha).
    rewrite Hv in Hr. unfold extract_output in Hx. rewrite Hc1, Hc2, Hv, Ha in Hx. cbn [rbind] in Hx. injection Hx as <-.
    rewrite Hsec. split; [|done]. split; right; done.
Qed.

(** C6: Parties blind a PSET one after the other, the last one as such.  Nothing is blinded
    at the start: there are no scalars, every output has an amount and an asset and no
    commitments, and issuances are explicit and not of zero.  Every input carries the output it
    spends, which the secrets of the input open; of each asset the amounts that come in, by
    inputs and issuances, are those that go out.  The parties' inputs are disjoint, each party
    knows the secrets of its own, and each has an output to blind; the inputs of no party have
    blinding factors of zero, and outputs nobody blinds have amounts from 1 to [MAX_MONEY].
    Then if the parties succeed, the transaction that is extracted verifies: the commitments
    add up and every range and surjection proof is valid.  (A party without an output to blind
    breaks the balance, [idle_party_breaks_balance], and a transaction with an explicit amount
    of zero never verifies, [zero_output_never_verifies].) *)
Theorem blinded_pset_verifies p0 sigma utxos ms m r p' r' tx :
  blindable p0 sigma utxos (ms ++ [m]) -> blind_parties ms m (p0, r) = (Ok (), (p', r')) ->
  extract_tx p' = Ok tx -> verify_tx_amt_proofs tx utxos = Ok ().
Proof.
  intros Hbl Hb Hx. destruct (parties_session p0 sigma ms m [] [] p0 r () p' r' (bl_opened _ _ _ _ Hbl) (bl_parties _ _ _ _ Hbl) (bl_disjoint _ _ _ _ Hbl))
    as (B & D & Hs & Hsc & HnD & HB & HD); [by intros m' k _ ?%elem_of_nil|constructor|apply session_start, Hbl|done|].
  rewrite app_nil_r in Hs. unfold extract_tx in Hx. destruct (sanity_check p'); [|done]. cbn [rbind] in Hx.
  destruct (locktime p') as [lock|]; [|done]. cbn [rbind] in Hx.
  destruct (rmapM extract_output (outputs p')) as [outs|] eqn:Eo; [|done]. cbn [rbind] in Hx. injection Hx as <-. apply rmapM_ok in Eo.
  rewrite (ses_inputs _ _ _ _ _ Hs). pose proof (bl_utxos _ _ _ _ Hbl) as Hu.
  eapply (verify_complete sigma (inputs p0)).
  - apply Hbl.
  - symmetry. exact (Forall2_length _ _ _ Hu).
  - intros j u Hj. destruct (Forall2_lookup_r _ _ _ _ _ Hu Hj) as (inp & Hinp & Hw).
    destruct (op_utxos _ _ (bl_opened _ _ _ _ Hbl) _ _ Hinp) as (u' & Hw' & Ho). rewrite Hw in Hw'. by injection Hw' as <-.
  - apply (session_sound p0 sigma utxos (ms ++ [m]) B D p'); try done. intros i o m' Hm' Ho Hmo. apply HB. by exists m', o.
  - intros x. rewrite leaving_totals; [apply Hbl|]. eapply Forall_impl; [exact (bl_outputs _ _ _ _ Hbl)|]. by intros o (_ & Ha & _).
  - rewrite (leaving_factors _ _ _ _ _ Hs), entering_factors.
    assert (Hlt : forall i, i ∈ D.*1 -> (i < length (inputs p0))%nat /\ exists s, (i, s) ∈ D /\ s = sigma i).
    { intros i ([i' s] & -> & Hi)%list_elem_of_fmap. cbn [fst]. destruct (proj1 (HD _ _) Hi) as [?%elem_of_nil|(m' & Hm' & Hk)]; [done|].
      pose proof (bl_parties _ _ _ _ Hbl) as Hp. rewrite Forall_forall in Hp. destruct (Hp _ Hm') as [Hkn _]. destruct (Hkn _ _ Hk) as [Hsg Hlt].
      split; [done|]. by exists s. }
    assert (Hin : sum_map (fun j => sec_factor (sigma j)) (seq 0 (length (inputs p0))) = known_factors D).
    { unfold known_factors. rewrite <-(sum_by_index sec_factor D (length (inputs p0)) HnD (fun i Hi => proj1 (Hlt i Hi))).
      apply sum_map_eq. intros i [_ Hi]%elem_of_seq. destruct (decide (i ∈ D.*1)) as [Hd|Hd].
      - destruct (Hlt i Hd) as (_ & s & Hsd & ->). by rewrite (elem_of_list_to_map_1 D i _ HnD Hsd).
      - rewrite (not_elem_of_list_to_map_1 D i Hd). destruct (bl_rest _ _ _ _ Hbl i Hi) as [Ha Hv]; [|by apply sec_factor_zero].
        intros m' Hm'. destruct (m' !! i) as [s|] eqn:Es; [|done]. destruct Hd. apply list_elem_of_fmap. exists (i, s). split; [done|].
        apply HD. right. by exists m'. }
    rewrite Hin. pose proof (ses_scalars _ _ _ _ _ Hs) as Hcs. rewrite Hsc in Hcs. destruct Hcs as [k Hk]. exists (- k). cbn [sum_map foldr] in Hk. lia.
Qed.
End laws.

(** ** A concrete instance *)

(** A group in which the laws hold and everything can be evaluated: the numbers modulo the order
    of the curve, so that a generator is its tag plus its blinding factor and a commitment to a
    value is a multiple of it.  Range proofs contain what they prove. *)
Module BlindSample.
Export PsetSample.
#[local] Existing Instance Model.Secp_model.

Definition be_bytes (z : Z) : bytes := rev (le_bytes 32 z).
Lemma length_be_bytes z : length (be_bytes z) = 32%nat.
Proof. unfold be_bytes. by rewrite length_rev, length_le_bytes. Qed.

Lemma curve_order_256 : curve_order <= 256 ^ Z.of_nat 32.
Proof. vm_compute. discriminate. Qed.
Lemma be_val_bytes z : be_val (be_bytes (z mod curve_order)) = z mod curve_order.
Proof.
  unfold be_val, be_bytes. rewrite rev_involutive, le_bytes_mod. pose proof curve_order_256.
  pose proof (Z.mod_pos_bound z curve_order ltac:(reflexivity)). apply Z.mod_small. lia.
Qed.

Definition key_check (l : bytes) : bool := Model.scalar_check l && (0 <? be_val l).
Definition toy_key : ext_type := Model.checked_ext key_check.

(** The object with a given serialization, or a default. *)
Definition parse_or {X : ext_type} (d : X) (l : bytes) : X := default d (ext_parse l).
Lemma checked_parse_ok check (l : bytes) : check l = true -> exists x : Model.checked_ext check, ext_parse l = Some x /\ ext_ser x = l.
Proof.
  intros Hc. cbn. unfold Model.checked_parse. destruct (decide (check l = true)) as [Hd|]; [|done]. by eexists.
Qed.
Lemma parse_or_ser check (d : Model.checked_ext check) l : check l = true -> ext_ser (parse_or d l) = l.
Proof. intros (x & Hx & Hs)%checked_parse_ok. unfold parse_or. by rewrite Hx. Qed.

Definition to_tweak (z : Z) : Tweak := parse_or ZERO_TWEAK (be_bytes (z mod curve_order)).
Definition key_one : toy_key := exist _ (be_bytes 1) eq_refl.
Definition to_key (z : Z) : toy_key := parse_or key_one (be_bytes (z mod curve_order)).
Definition point_zero (p : Z) : bytes := z2b p :: be_bytes 0.
Definition to_gen (z : Z) : Generator := parse_or (X := Model.checked_ext (Model.point_check 0x0a 0x0b)) (exist _ (point_zero 0x0a) eq_refl) (z2b 0x0a :: be_bytes (z mod curve_order)).
Definition to_comm (z : Z) : PedersenCommitment := parse_or (X := Model.checked_ext (Model.point_check 0x08 0x09)) (exist _ (point_zero 0x08) eq_refl) (z2b 0x08 :: be_bytes (z mod curve_order)).
Definition to_pk (z : Z) : PublicKey := parse_or (X := Model.checked_ext (Model.point_check 0x02 0x03)) (exist _ (point_zero 0x02) eq_refl) (z2b 0x02 :: be_bytes (z mod curve_order)).
Definition point_val {X : ext_type} (x : X) : Z := be_val (drop 1 (ext_ser x)).
Definition key_val (k : toy_key) : Z := be_val (ext_ser k).

Lemma scalar_check_bytes z : Model.scalar_check (be_bytes (z mod curve_order)) = true.
Proof.
  unfold Model.scalar_check. rewrite length_be_bytes. cbn [Nat.eqb andb]. change (le_val (rev ?l)) with (be_val l). rewrite be_val_bytes.
  apply Z.ltb_lt. apply (Z.mod_pos_bound z curve_order). reflexivity.
Qed.
Lemma to_tweak_ser z : ext_ser (to_tweak z) = be_bytes (z mod curve_order).
Proof. exact (parse_or_ser _ _ _ (scalar_check_bytes z)). Qed.
Lemma to_tweak_val z : scalar (to_tweak z) = z mod curve_order.
Proof. unfold scalar. rewrite to_tweak_ser. apply be_val_bytes. Qed.
Lemma to_key_val z : z mod curve_order <> 0 -> key_val (to_key z) = z mod curve_order.
Proof.
  intros Hz. unfold key_val.
  assert (Hk : key_check (be_bytes (z mod curve_order)) = true).
  { unfold key_check. rewrite scalar_check_bytes, be_val_bytes.
    apply Z.ltb_lt. pose proof (Z.mod_pos_bound z curve_order ltac:(reflexivity)). lia. }
  change (be_val (ext_ser (to_key z)) = z mod curve_order).
  rewrite (parse_or_ser key_check key_one _ Hk : ext_ser (to_key z) = _). apply be_val_bytes.
Qed.

Lemma point_check_bytes p q z : is_u8 p -> Model.point_check p q (z2b p :: be_bytes z) = true.
Proof. intros Hp. cbn [Model.point_check]. by rewrite length_be_bytes, b2z_z2b_small, !Z.eqb_refl. Qed.
Lemma point_parse_val p q (d : Model.checked_ext (Model.point_check p q)) z :
  is_u8 p -> point_val (parse_or d (z2b p :: be_bytes (z mod curve_order))) = z mod curve_order.
Proof. intros Hp. unfold point_val. rewrite parse_or_ser by (by apply point_check_bytes). apply be_val_bytes. Qed.
Lemma to_gen_val z : point_val (to_gen z) = z mod curve_order.
Proof. by apply point_parse_val. Qed.
Lemma to_comm_val z : point_val (to_comm z) = z mod curve_order.
Proof. by apply point_parse_val. Qed.
Lemma to_pk_val z : point_val (to_pk z) = z mod curve_order.
Proof. by apply point_parse_val. Qed.

Definition toy_blinded (tag : bytes) (t : Tweak) : Generator := to_gen (be_val tag + scalar t).
Definition toy_pedersen (v : Z) (t : Tweak) (g : Generator) : PedersenCommitment := to_comm (v * point_val g + scalar t).
Definition toy_factor (c : CommitmentSecrets) : Z := cs_value c * scalar (generator_blinding_factor c) + scalar (value_blinding_factor c).

Definition to_proof (l : bytes) : Model.checked_ext Model.nonempty :=
  parse_or (X := Model.checked_ext Model.nonempty) (exist _ [Byte.x00] eq_refl) (Byte.x01 :: l).
Lemma to_proof_ser l : ext_ser (to_proof l) = Byte.x01 :: l.
Proof. unfold to_proof. by rewrite parse_or_ser. Qed.

(** Whether the value is exact, the value, its blinding factor, the nonce and the message. *)
Definition toy_range (min : Z) (c : PedersenCommitment) (v : Z) (bf : Tweak) (msg extra : bytes) (nonce : toy_key) (exp bits : Z) (g : Generator)
  : option RangeProof :=
  if (min <=? v) && (0 <=? v) && (v <=? u64_max)
  then Some (to_proof ((if exp =? -1 then Byte.x01 else Byte.x00) :: le_bytes 8 v ++ ext_ser bf ++ ext_ser nonce ++ msg)) else None.
Definition open_range (p : RangeProof) : option (bool * Z * Tweak * bytes * bytes) :=
  match ext_ser p with
  | _ :: exact :: l =>
      bf ← ext_parse (e := Tweak) (take 32 (drop 8 l));
      Some (bool_decide (exact = Byte.x01), le_val (take 8 l), bf, take 32 (drop 40 l), drop 72 l)
  | _ => None
  end.
Definition toy_verify (p : RangeProof) (c : PedersenCommitment) (extra : bytes) (g : Generator) : option (Z * Z) :=
  match open_range p with
  | Some (exact, v, bf, _, _) =>
      if bool_decide (c = toy_pedersen v bf g) then Some (if exact then (v, v + 1) else (0, u64_max + 1)) else None
  | None => None
  end.
Definition toy_rewind (p : RangeProof) (c : PedersenCommitment) (nonce : toy_key) (extra : bytes) (g : Generator) : option (Z * bytes * Tweak) :=
  match open_range p with
  | Some (_, v, bf, n, msg) =>
      if bool_decide (c = toy_pedersen v bf g) && bool_decide (n = ext_ser nonce) then Some (v, msg, bf) else None
  | None => None
  end.

Definition toy_surjection (a : bytes) (bf : Tweak) (targets : list (Generator * bytes * Tweak)) (r : Z) : option SurjectionProof * Z :=
  (if existsb (fun t => bool_decide (t.1.2 = a)) targets then Some (to_proof a) else None, r + 1).

Program Definition Zkp_model : Zkp :=
  {| SecretKey := toy_key;
     ZkpRng := Z;
     Tweak_new r := (to_tweak (1000 + 7 * r), r + 1);
     SecretKey_new r := (to_key (500 + 3 * r), r + 1);
     sk_add_tweak a b := if (key_val a + key_val b) mod curve_order =? 0 then None else Some (to_key (key_val a + key_val b));
     sk_negate k := to_key (- key_val k);
     from_secret_key k := to_pk (key_val k);
     shared_secret_point pk k := let xy := be_bytes ((point_val pk * key_val k) mod curve_order) in xy ++ xy;
     Generator_new_blinded := toy_blinded;
     Generator_new_unblinded tag := toy_blinded tag ZERO_TWEAK;
     Pedersen_new := toy_pedersen;
     Pedersen_new_unblinded v g := toy_pedersen v ZERO_TWEAK g;
     compute_adaptive_blinding_factor v abf ins outs := to_tweak (sum_map toy_factor ins - sum_map toy_factor outs - v * scalar abf);
     SurjectionProof_new := toy_surjection;
     SurjectionProof_verify p g gens := negb (is_empty gens);
     RangeProof_new := toy_range;
     RangeProof_verify := toy_verify;
     RangeProof_rewind := toy_rewind;
     verify_commitments_sum_to_equal ins outs := ((sum_map point_val ins - sum_map point_val outs) mod curve_order =? 0);
     sec_iter := map_to_list |}.
Solve All Obligations with done.
#[export] Existing Instance Zkp_model.

(** A weighted sum of values depends on the totals of the assets only. *)
Lemma sum_by_asset (h : AssetId -> Z) (l : list TxOutSecrets) (A : list AssetId) :
  NoDup A -> (forall s, s ∈ l -> sec_asset s ∈ A) ->
  sum_map (fun s => sec_value s * h (sec_asset s)) l = sum_map (fun a => h a * asset_total a l) A.
Proof.
  intros HA. induction l as [|s l IH]; intros Hl.
  { symmetry. apply sum_map_zero. intros a _. unfold asset_total. cbn [sum_map foldr]. lia. }
  rewrite sum_map_cons, IH by (intros t Ht; apply Hl; by right).
  assert (Hone : forall B, NoDup B -> sec_asset s ∈ B ->
            sum_map (fun a => h a * asset_total a (s :: l)) B = sec_value s * h (sec_asset s) + sum_map (fun a => h a * asset_total a l) B).
  { assert (Hno : forall B, sec_asset s ∉ B -> sum_map (fun a => h a * asset_total a (s :: l)) B = sum_map (fun a => h a * asset_total a l) B).
    { intros B Hn. apply sum_map_eq. intros a Ha. unfold asset_total. rewrite sum_map_cons, bool_decide_false; [lia|]. intros Hx. apply Hn. by rewrite Hx. }
    induction B as [|a B IHB]; intros HB Hin; [by apply elem_of_nil in Hin|]. apply NoDup_cons in HB as [Ha HB]. rewrite !sum_map_cons.
    unfold asset_total at 1. rewrite sum_map_cons. fold (asset_total a l).
    destruct (decide (sec_asset s = a)) as [<-|Hn].
    - rewrite bool_decide_true by done. rewrite (Hno B Ha). unfold asset_total. lia.
    - rewrite bool_decide_false by done. apply elem_of_cons in Hin as [?|Hin]; [done|]. rewrite (IHB HB Hin). unfold asset_total. lia. }
  rewrite Hone; [done|done|]. apply Hl. left.
Qed.

Lemma commit_val s : cong (point_val (commit s)) (sec_value s * be_val (sec_asset s) + sec_factor s).
Proof.
  unfold commit. cbn [Pedersen_new Zkp_model Generator_new_blinded]. unfold toy_pedersen, toy_blinded. rewrite to_comm_val, to_gen_val.
  rewrite cong_of_mod. unfold sec_factor, factor. cbn [value_blind_inputs fst snd].
  destruct (cong_of_mod (be_val (sec_asset s) + scalar (asset_bf s))) as [k ->]. exists (sec_value s * k). lia.
Qed.

Lemma commits_val l :
  cong (sum_map point_val (map commit l)) (sum_map (fun s => sec_value s * be_val (sec_asset s)) l + sum_map sec_factor l).
Proof.
  induction l as [|s l IH]; [reflexivity|]. cbn [map]. rewrite !sum_map_cons, IH, commit_val. exists 0. lia.
Qed.

Lemma key_spec (k : toy_key) : length (ext_ser k) = 32%nat /\ 0 < key_val k < curve_order.
Proof.
  destruct k as [l Hl]. change (length l = 32%nat /\ 0 < be_val l < curve_order). unfold key_check, Model.scalar_check in Hl.
  apply andb_prop in Hl as [Hl Hp%Z.ltb_lt]. by apply andb_prop in Hl as [Hl%Nat.eqb_eq Hu%Z.ltb_lt].
Qed.

Lemma open_range_ok min c v bf msg extra nonce exp bits g p :
  toy_range min c v bf msg extra nonce exp bits g = Some p -> open_range p = Some ((exp =? -1), v, bf, ext_ser nonce, msg).
Proof.
  unfold toy_range. destruct (_ && _) eqn:Hc; [|done]. apply andb_prop in Hc as [Hc Hhi%Z.leb_le]. apply andb_prop in Hc as [_ Hlo%Z.leb_le].
  assert (Hval : le_val (le_bytes 8 v) = v).
  { apply le_val_le_bytes. unfold u64_max in Hhi. change (256 ^ Z.of_nat 8) with 18446744073709551616. lia. }
  pose proof (length_le_bytes 8 v) as HL. pose proof (tweak_format bf) as Hb. destruct (key_spec nonce) as [Hn _].
  pose proof (ext_parse_ser (e := Tweak) bf) as Hbf.
  set (L := le_bytes 8 v) in *. set (N := ext_ser nonce) in *. set (F := ext_ser bf) in *. clearbody L N F. intros [= <-].
  unfold open_range. rewrite to_proof_ser.
  replace (drop 8 (L ++ F ++ N ++ msg)) with (F ++ N ++ msg) by (by rewrite drop_app_length').
  rewrite (take_app_length' F) by (symmetry; assumption). rewrite Hbf. cbn [mbind option_bind].
  rewrite (take_app_length' L) by (symmetry; assumption).
  replace (drop 40 (L ++ F ++ N ++ msg)) with (N ++ msg) by (rewrite app_assoc, drop_app_length'; [done|rewrite length_app; lia]).
  replace (drop 72 (L ++ F ++ N ++ msg)) with msg by (rewrite !app_assoc, drop_app_length'; [done|rewrite !length_app; lia]).
  rewrite (take_app_length' N), Hval by (symmetry; assumption). do 5 f_equal. by destruct (exp =? -1).
Qed.

#[export] Instance ZkpLaws_model : ZkpLaws.
Proof.
  split.
  - reflexivity.
  - intros [l Hl]. change (be_val l < curve_order). unfold Model.scalar_check in Hl. by apply andb_prop in Hl as [_ Hl%Z.ltb_lt].
  - intros l Hl Hv. apply checked_parse_ok. unfold Model.scalar_check. rewrite Hl. by apply Z.ltb_lt.
  - exact key_spec.
  - intros l Hl [Hp Hu]. apply checked_parse_ok. unfold key_check, Model.scalar_check. rewrite Hl.
    apply andb_true_intro. split; by apply Z.ltb_lt.
  - intros a b k. cbn [sk_add_tweak Zkp_model]. destruct (Z.eqb_spec ((key_val a + key_val b) mod curve_order) 0) as [|Hn]; [done|].
    intros [= <-]. change (cong (key_val (to_key (key_val a + key_val b))) (key_val a + key_val b)).
    rewrite (to_key_val _ Hn). apply cong_of_mod.
  - intros a b. cbn [sk_add_tweak Zkp_model]. destruct (Z.eqb_spec ((key_val a + key_val b) mod curve_order) 0) as [Hz|]; [|done].
    intros _. apply cong_mod. exact Hz.
  - intros k. change (cong (key_val (to_key (- key_val k))) (- key_val k)). rewrite to_key_val; [apply cong_of_mod|].
    destruct (key_spec k) as [_ Hk]. rewrite Z.mod_opp_l_nz; [|done|]; rewrite Z.mod_small by lia; lia.
  - intros v abf ins outs. cbn [compute_adaptive_blinding_factor Zkp_model]. rewrite to_tweak_val, cong_of_mod, !sum_map_map.
    unfold factors. exists 0. unfold toy_factor. cbn [to_commitment_secrets cs_value generator_blinding_factor value_blinding_factor].
    unfold factor. lia.
  - done.
  - done.
  - intros ins outs Ha Hc. cbn [verify_commitments_sum_to_equal Zkp_model]. apply Z.eqb_eq.
    set (A := remove_dups (map sec_asset (ins ++ outs))).
    assert (HA : NoDup A) by apply NoDup_remove_dups.
    assert (Hin : forall s, s ∈ ins ++ outs -> sec_asset s ∈ A).
    { intros s Hs. apply elem_of_remove_dups, list_elem_of_fmap. by exists s. }
    assert (Hz : cong (sum_map point_val (map commit ins) - sum_map point_val (map commit outs)) 0).
    { rewrite !commits_val, Hc. rewrite (sum_by_asset be_val ins A HA), (sum_by_asset be_val outs A HA).
      - rewrite (sum_map_eq (fun a : AssetId => be_val a * asset_total a ins) (fun a => be_val a * asset_total a outs)); [exists 0; lia|].
        intros a _. by rewrite Ha.
      - intros s Hs. apply Hin, elem_of_app. by right.
      - intros s Hs. apply Hin, elem_of_app. by left. }
    destruct Hz as [k ->]. rewrite Z.add_0_l. apply Z_mod_mult.
  - intros a bf targets r p r'. cbn [SurjectionProof_new Zkp_model toy_surjection]. destruct targets; [done|]. done.
  - intros min v bf msg extra nonce exp bits g p Hp. cbn [RangeProof_new Zkp_model RangeProof_verify Pedersen_new] in *.
    unfold toy_verify. rewrite (open_range_ok _ _ _ _ _ _ _ _ _ _ _ Hp), bool_decide_true by done. by eexists.
  - intros min v bf msg extra nonce bits g p Hp. cbn [RangeProof_new Zkp_model RangeProof_rewind Pedersen_new] in *. exists [].
    unfold toy_rewind. rewrite (open_range_ok _ _ _ _ _ _ _ _ _ _ _ Hp), !bool_decide_true by done. by rewrite app_nil_r.
  - intros a b. cbn [shared_secret_point from_secret_key Zkp_model]. rewrite !to_pk_val, !Zmult_mod_idemp_l. by rewrite Z.mul_comm.
Qed.

(** Two parties and an explicit input.  The first one pays 600 to itself; the second one issues
    7 of a new asset, and gets 500 of another one and 400. *)
Definition btc : AssetId := hash Byte.x44.
Definition usd : AssetId := hash Byte.x66.
Definition spk (b : byte) : Script := z2b 0 :: z2b 20 :: replicate 20 b.
Definition sec0 : TxOutSecrets := mkSecrets btc (to_tweak 11) 1000 (to_tweak 22).
Definition sec1 : TxOutSecrets := mkSecrets usd (to_tweak 33) 500 (to_tweak 44).
Definition sec2 : TxOutSecrets := mkSecrets btc ZERO_TWEAK 50 ZERO_TWEAK.
Definition secs (i : nat) : TxOutSecrets := match i with 0 => sec0 | 1 => sec1 | _ => sec2 end%nat.
Definition hidden (s : TxOutSecrets) : TxOut :=
  mkTxOut (AssetConfidential (sec_gen s)) (ValueConfidential (commit s)) NonceNull (spk Byte.x01) TxOutWitness_empty.
Definition utxos : list TxOut :=
  [hidden sec0; hidden sec1; mkTxOut (AssetExplicit btc) (ValueExplicit 50) NonceNull (spk Byte.x02) TxOutWitness_empty].

Definition bkey (z : Z) : BtcPublicKey := mkBtcPk (from_secret_key (Zkp := Zkp_model) (to_key z)) true.
Definition inp (n : Z) (u : TxOut) : PsetInput := from_prevout (point n 0) <| witness_utxo := Some u |>.
Definition issuing : PsetInput :=
  inp 2 (hidden sec1) <| issuance_value_amount := Some 7 |> <| issuance_asset_entropy := Some (hash Byte.x31) |> <| blinded_issuance := Some 0 |>.
Definition new_asset : AssetId := (default ([], []) (pset_issuance_ids issuing)).1.
Definition paying (v : Z) (a : AssetId) (k : option (Z * Z)) : PsetOutput :=
  new_explicit (spk Byte.x03) v a (bkey ∘ fst <$> k) <| blinder_index := snd <$> k |>.
Definition sample_outputs : list PsetOutput :=
  [paying 600 btc (Some (71, 0)); paying 500 usd (Some (72, 1)); paying 7 new_asset None;
   paying 400 btc (Some (73, 1)); new_explicit [] 50 btc None].
Definition blind_pset (outs : list PsetOutput) : PartiallySignedTransaction :=
  foldl (fun p o => add_output o p) (add_input (inp 3 (mkTxOut (AssetExplicit btc) (ValueExplicit 50) NonceNull (spk Byte.x02) TxOutWitness_empty))
    (add_input issuing (add_input (inp 1 (hidden sec0)) new_v2))) outs.
Definition unblinded : PartiallySignedTransaction := blind_pset sample_outputs.
Definition first_party : gmap nat TxOutSecrets := {[0%nat := sec0]}.
Definition second_party : gmap nat TxOutSecrets := {[1%nat := sec1; 2%nat := sec2]}.

Definition outcome (p : PartiallySignedTransaction) : result () PsetBlindError * result () VerificationError :=
  let '(r, (p', _)) := blind_parties [first_party] second_party (p, 1) in
  (r, match extract_tx p' with Ok tx => verify_tx_amt_proofs tx utxos | Err _ => Err VerifyPanic end).

Lemma opens_hidden s : opens (hidden s) s.
Proof. split; by left. Qed.

Lemma sample_opened : opened_inputs unblinded secs.
Proof.
  split.
  - intros [|[|[|j]]] i Hi; [injection Hi as <-|injection Hi as <-|injection Hi as <-|by destruct j].
    + exists (hidden sec0). split; [done|apply opens_hidden].
    + exists (hidden sec1). split; [done|apply opens_hidden].
    + eexists. split; [done|]. split; right; split_and!; done.
  - repeat constructor; try done; intros v Hv; by injection Hv as <-.
Qed.

Lemma sample_outputs_ok : Forall (fun o => is_Some (o_amount o) /\ is_Some (o_asset o) /\ amount_comm o = None /\ asset_comm o = None /\
  (0 < default 0 (o_amount o) <= MAX_MONEY \/ exists m, m ∈ [first_party; second_party] /\ mine m o = true)) (outputs unblinded).
Proof. repeat (apply List.Forall_cons; [split_and!; [by eexists|by eexists|done|done|left; vm_compute; by split]|]). constructor. Qed.

Lemma sample_parties : Forall (fun m => knows unblinded secs m /\ has_output unblinded m) [first_party; second_party].
Proof.
  apply List.Forall_cons; [|apply List.Forall_cons; [|constructor]].
  - split; [|eexists 0%nat, _; split; [reflexivity|vm_compute; reflexivity]].
    intros k t Hk. unfold first_party in Hk. apply lookup_singleton_Some in Hk as [<- <-]. split; [done|]. by apply Nat.ltb_lt.
  - split; [|eexists 1%nat, _; split; [reflexivity|vm_compute; reflexivity]].
    intros k t Hk. unfold second_party in Hk.
    apply lookup_insert_Some in Hk as [[<- <-]|[_ [<- <-]%lookup_singleton_Some]]; (split; [done|]; by apply Nat.ltb_lt).
Qed.

Lemma sample_balance a : asset_total a (entering secs 0 (inputs unblinded)) =
  sum_map (fun o => if bool_decide (o_asset o = Some a) then default 0 (o_amount o) else 0) (outputs unblinded).
Proof.
  assert (Hiss : issued issuing = [mkSecrets new_asset ZERO_TWEAK 7 ZERO_TWEAK]).
  { unfold issued, new_asset. destruct (pset_ids_some issuing) as (ids & -> & _). reflexivity. }
  assert (Hi : entering secs 0 (inputs unblinded) = sec0 :: [] ++ sec1 :: issued issuing ++ [sec2]) by reflexivity.
  rewrite Hi, Hiss. cbn [app]. unfold asset_total. rewrite !sum_map_cons.
  change (outputs unblinded) with sample_outputs. unfold sample_outputs. rewrite !sum_map_cons.
  cbn [sec_asset sec_value sec0 sec1 sec2]. change (sum_map _ []) with 0.
  repeat match goal with |- context [o_asset ?o] => let x := eval hnf in (o_asset o) in change (o_asset o) with x end.
  repeat match goal with |- context [default 0 (o_amount ?o)] => let x := eval vm_compute in (default 0 (o_amount o)) in change (default 0 (o_amount o)) with x end.
  assert (Hs : forall b : AssetId, bool_decide (Some b = Some a) = bool_decide (b = a)) by (intros b; apply bool_decide_ext; split; congruence).
  rewrite !Hs. repeat case_bool_decide; lia.
Qed.

Lemma sample_blindable : blindable unblinded secs utxos ([first_party] ++ [second_party]).
Proof.
  split; [exact sample_opened|repeat constructor|exact sample_outputs_ok|reflexivity|exact sample_parties| | |exact sample_balance].
  - apply FOP_cons; [|repeat constructor]. apply List.Forall_cons; [|constructor].
    apply map_disjoint_singleton_l_2. unfold second_party. by rewrite lookup_insert_ne, lookup_singleton_ne.
  - intros [|[|[|i]]] Hi Hn.
    + specialize (Hn first_party (list_elem_of_here _ _)). unfold first_party in Hn. by rewrite lookup_singleton_eq in Hn.
    + specialize (Hn second_party (list_elem_of_further _ _ _ (list_elem_of_here _ _))). unfold second_party in Hn. by rewrite lookup_insert_eq in Hn.
    + done.
    + cbn in Hi. lia.
Qed.

Definition blinded : PartiallySignedTransaction * Z := (blind_parties [first_party] second_party (unblinded, 1)).2.
Lemma sample_run : blind_parties [first_party] second_party (unblinded, 1) = (Ok (), (blinded.1, blinded.2)).
Proof.
  assert (Hok : is_ok (blind_parties [first_party] second_party (unblinded, 1)).1 = true) by (vm_compute; reflexivity).
  unfold blinded. destruct (blind_parties _ _ _) as [[[]|e] [p r]]; done.
Qed.

Definition blinded_tx : Transaction := match extract_tx blinded.1 with Ok tx => tx | Err _ => mkTransaction 2 LockTime_ZERO [] [] end.
Lemma sample_extract : extract_tx blinded.1 = Ok blinded_tx.
Proof.
  assert (Hok : is_ok (extract_tx blinded.1) = true) by (vm_compute; reflexivity).
  unfold blinded_tx. destruct (extract_tx _); done.
Qed.

(** An output of the first party, made by itself. *)
Definition sealed_out : result TxOut ConfidentialTxOutError * Z :=
  with_txout_secrets (spk Byte.x05) (from_secret_key (Zkp := Zkp_model) (to_key 71)) (to_key 99) sec0 [from_txout_secrets sec0] 1.
Definition sealed_txout : TxOut := match sealed_out.1 with Ok t => t | Err _ => hidden sec0 end.
Lemma sample_sealed : with_txout_secrets (spk Byte.x05) (from_secret_key (Zkp := Zkp_model) (to_key 71)) (to_key 99) sec0 [from_txout_secrets sec0] 1
  = (Ok sealed_txout, sealed_out.2).
Proof.
  assert (Hok : is_ok sealed_out.1 = true) by (vm_compute; reflexivity).
  unfold sealed_txout. fold sealed_out. destruct sealed_out as [[t|e] r]; done.
Qed.

(** The first party has nothing to blind; the second one blinds everything. *)
Definition idle_outputs : list PsetOutput :=
  [paying 600 btc (Some (71, 1)); paying 500 usd (Some (72, 1)); paying 7 new_asset None;
   paying 400 btc (Some (73, 1)); new_explicit [] 50 btc None].
(** The output before the last one does not pay to an address. *)
Definition odd_outputs : list PsetOutput :=
  [paying 600 btc (Some (71, 0)); paying 500 usd (Some (72, 1)) <| o_script_pubkey := [Byte.x51] |>; paying 7 new_asset None;
   paying 400 btc (Some (73, 1)); new_explicit [] 50 btc None].

(** A transaction with an issuance, to be blinded as a whole. *)
Definition nonce_out (v : Z) (a : AssetId) (n : Z) : TxOut :=
  mkTxOut (AssetExplicit a) (ValueExplicit v) (NonceConfidential (from_secret_key (Zkp := Zkp_model) (to_key n))) (spk Byte.x06) TxOutWitness_empty.
Definition issuing_txin : TxIn := extract_input issuing.
Definition issuing_tx : Transaction :=
  mkTransaction 2 LockTime_ZERO [issuing_txin] [nonce_out 300 usd 81; nonce_out 200 usd 82; nonce_out 7 new_asset 83].
Definition tx_outcome (blind_iss : bool) : result () VerificationError :=
  let '(r, (tx, _)) := tx_blind [sec1; mkSecrets new_asset ZERO_TWEAK 7 ZERO_TWEAK] blind_iss (issuing_tx, 1) in
  match r with Ok _ => verify_tx_amt_proofs tx [hidden sec1] | Err _ => Err VerifyPanic end.
End BlindSample.
Import BlindSample.

Lemma blinded_pset_verifies_witness :
  length (output blinded_tx) = 5%nat /\ verify_tx_amt_proofs blinded_tx utxos = Ok ().
Proof.
  split; [vm_compute; reflexivity|].
  exact (blinded_pset_verifies unblinded secs utxos [first_party] second_party 1 blinded.1 blinded.2 blinded_tx
           sample_blindable sample_run sample_extract).
Defined.

Lemma blinded_output_unblinds_witness : unblind sealed_txout (to_key 71) = Ok sec0.
Proof. exact (blinded_output_unblinds (to_key 71) (spk Byte.x05) (to_key 99) sec0 [from_txout_secrets sec0] 1 sealed_txout sealed_out.2 eq_refl sample_sealed). Defined.

(** ** Where the code falls short *)

Section limits.
Context {P : Platform} {S : Secp} {H : Hashes} {M : Midstates} {T : TapEnv} {C : SchnorrEnv}
  {E : PsetEnv} {K : Zkp}.

(** A party without an output to blind leaves nothing behind: [blind_non_last] succeeds and
    changes nothing, so that the blinding factors of its inputs are missing from the balance. *)
Theorem idle_party_leaves_no_scalar m p r ins :
  blind_checks p m = Ok (ins, []) -> blind_non_last m (p, r) = (Ok [], (p, r)).
Proof. intros Hc. unfold blind_non_last, act_bind, act_gets, act_lift. cbn [fst]. by rewrite Hc. Qed.

(** An explicit input that the caller gives no secrets for is unknown to the surjection proofs
    and not, as documented, known with a zero blinding factor: its tag is 0. *)
Theorem explicit_input_unknown m i inp l u a dom :
  witness_utxo inp = Some u -> asset u = AssetExplicit a -> m !! i = None ->
  surjection_inputs_from m i (inp :: l) = Ok dom ->
  head dom = Some (SurjUnknown (AssetExplicit a)) /\
  surjection_target (SurjUnknown (AssetExplicit a)) = Ok (Generator_new_unblinded a, Tag_default, ZERO_TWEAK).
Proof.
  intros Hu Ha Hm. cbn [surjection_inputs_from]. rewrite Hu, Hm. cbn [ok_or rbind]. destruct (issuance_inputs inp); [|done]. cbn [ok_or rbind].
  destruct (surjection_inputs_from _ _ l); [|done]. cbn [rbind]. intros [= <-]. by rewrite Ha.
Qed.

(** No transaction with an explicit amount of zero verifies, not even when the output is
    provably unspendable and, as the error says, could be ignored. *)
Theorem zero_output_never_verifies tx utxos o :
  o ∈ output tx -> value o = ValueExplicit 0 -> verify_tx_amt_proofs tx utxos <> Ok ().
Proof.
  intros Ho Hv. unfold verify_tx_amt_proofs. destruct (negb _); [done|]. destruct (verify_inputs _ _ _) as [ins|]; [|done]. cbn [rbind].
  assert (Hout : forall i outs, o ∈ outs -> is_ok (verify_outputs ins.*1 i outs) = false).
  { intros i outs. revert i. induction outs as [|t outs IH]; intros i Hin; [by apply elem_of_nil in Hin|]. cbn [verify_outputs].
    apply elem_of_cons in Hin as [<-|Hin].
    - assert (Hz : exists e, get_value_commit o = Err e) by (unfold get_value_commit; rewrite Hv; by eexists).
      destruct Hz as [e ->]. done.
    - destruct (get_value_commit t); [|done]. cbn [map_err rbind]. destruct (verify_rangeproof i t); [|done]. cbn [rbind].
      destruct (verify_surjectionproof _ i t); [|done]. cbn [rbind]. pose proof (IH (Datatypes.S i) Hin) as Hf.
      by destruct (verify_outputs _ _ outs). }
  pose proof (Hout 0%nat _ Ho) as Hf. by destruct (verify_outputs _ _ _).
Qed.

Lemma blind_nothing n spent t tx r l :
  (forall i, i ∈ l -> exists o a v, output tx !! i = Some o /\ asset o = AssetExplicit a /\ value o = ValueExplicit v /\ to_blind o = false) ->
  last_output_index t = None ->
  exists t', act_foldM (blind_tx_output n spent) t l (tx, r) = (Ok t', (tx, r)) /\ last_output_index t' = None.
Proof.
  revert t. induction l as [|i l IH]; intros t Hl Ht; [by exists t|]. cbn [act_foldM]. destruct (Hl i) as (o & a & v & Ho & Ha & Hv & Hb); [left|].
  unfold act_bind at 1, blind_tx_output, act_bind, act_gets, act_lift, act_ret. cbn [fst]. rewrite Ho. cbn [ok_or]. rewrite Ha, Hv. cbn [Asset_explicit Value_explicit ok_or].
  rewrite Hb. cbn [negb]. apply IH; [|done]. intros j Hj. apply Hl. by right.
Qed.

(** [Transaction::blind] has an error for too few outputs to blind; what it does when there is
    none is to panic. *)
Theorem tx_blind_nothing_panics spent tx r :
  Forall (fun o => exists a v, asset o = AssetExplicit a /\ value o = ValueExplicit v /\ to_blind o = false) (output tx) ->
  tx_blind spent false (tx, r) = (Err BlindPanic, (tx, r)).
Proof.
  intros Ho. unfold tx_blind, act_bind at 1, act_gets. cbn [fst]. unfold act_bind at 1, act_ret at 1. cbn [concat].
  assert (Hex : forallb (fun o => Asset_is_explicit (asset o) && Value_is_explicit (value o)) (output tx) = true).
  { apply forallb_forall. intros o Hin. rewrite Forall_forall in Ho. destruct (Ho o) as (a & v & -> & -> & _); [by apply list_elem_of_In|done]. }
  rewrite Hex. cbn [negb]. set (n := length _). unfold act_bind at 1.
  destruct (blind_nothing n spent (mkTally 0 [] None []) tx r (seq 0 (length (output tx)))) as (t' & -> & Ht).
  - intros i [_ Hi]%elem_of_seq. destruct (lookup_lt_is_Some_2 (output tx) i) as [o Hoi]; [lia|]. rewrite Forall_lookup in Ho.
    destruct (Ho _ _ Hoi) as (a & v & Hrest). by exists o, a, v.
  - done.
  - unfold act_bind at 1, act_lift. by rewrite Ht.
Qed.
End limits.

(** The same amounts, the same secrets: with an output for each of them the session verifies;
    when the first party has nothing to blind it succeeds too, and the result does not balance. *)
Theorem idle_party_breaks_balance :
  outcome unblinded = (Ok (), Ok ()) /\ outcome (blind_pset idle_outputs) = (Ok (), Err BalanceCheckFailed).
Proof. split; vm_compute; reflexivity. Qed.

(** When [blind_last] fails on another output, the last one has lost its blinder index. *)
Theorem failed_blind_last_forgets_blinder :
  let p := blind_pset odd_outputs in
  let '(r, (p', _)) := blind_last second_party (p, 1) in
  r = Err (PsetConfidentialTxOutError 1 InvalidAddress) /\
  (outputs p !! 3%nat ≫= blinder_index) = Some 1 /\ (outputs p' !! 3%nat ≫= blinder_index) = None.
Proof. vm_compute. repeat split. Qed.

(** [Transaction::blind] draws blinding factors for the issuances it is asked to blind and does
    not count them: the transaction does not balance. *)
Theorem blinded_issuance_breaks_balance : tx_outcome false = Ok () /\ tx_outcome true = Err BalanceCheckFailed.
Proof. split; vm_compute; reflexivity. Qed.
