(* ===== verification/PsetDetails.v ===== *)
(** * What a PSET does to a wallet

    [lwk_common/src/lib.rs], [lwk_common/src/model.rs] and [Wollet::get_details]: the net
    balance of a PSET for a descriptor with its fees and recipients, the signatures it has
    and misses, and its issuances. *)

From S2P Require Import Prelude Order Encode Script Timelocks Confidential Transaction TxMetrics Sighash Merkle Taproot TapSighash Pset PsetValue PsetCodec Update Address Blind BlindBalance.

(** [lwk_common::Error]; [BalancePanic] is a panic of the curve library on the way. *)
Inductive CommonError :=
| MissingPreviousOutput (idx : nat) (previous_outpoint : OutPoint)
| InputPeginUnsupported (idx : nat)
| InputBlindedIssuance (idx : nat)
| InputNotBlinded (idx : nat)
| InputMineNotUnblindable (idx : nat)
| InputCommitmentsMismatch (idx : nat)
| OutputAssetNone (idx : nat)
| OutputValueNone (idx : nat)
| OutputAssetValueNone (idx : nat)
| MultipleFee
| BlindedFee
| InvalidAssetBlindProof (idx : nat)
| InvalidValueBlindProof (idx : nat)
| OutputNotBlinded (idx : nat)
| OutputMineNotUnblindable (idx : nat)
| OutputCommitmentsMismatch (idx : nat)
| MissingPrivateBlindingKey
| DescConversion
| Miniscript
| BalancePanic.

(** [elements_miniscript]: SLIP-77 keys and the private keys that ELIP-151 tweaks. *)
Class BlindingKeys `{Zkp} :=
  { Slip77Key : Type;
    blinding_private_key : Slip77Key -> Script -> SecretKey;
    tweak_private_key : Script -> SecretKey -> SecretKey }.

Section details.
Context {P : Platform} {S : Secp} {H : Hashes} {M : Midstates} {T : TapEnv} {C : SchnorrEnv}
  {E : PsetEnv} {X : PsetCodecEnv} {K : Zkp} {B : BlindingKeys}.

(** The blinding key of a descriptor: SLIP-77, a private view key (extended or single), or
    one that is public or has several paths. *)
Inductive DescriptorKey :=
| Slip77 (k : Slip77Key)
| ViewXPrv (k : SecretKey)
| ViewSingle (k : SecretKey)
| OtherKey.

(** [ConfidentialDescriptor]: its blinding key and [into_single_descriptors], of each single
    descriptor the script [at_derivation_index]. *)
Record CtDescriptor := mkCtDescriptor
  { desc_key : DescriptorKey;
    into_single_descriptors : option (list (Z -> option Script)) }.

Definition derive_blinding_key (d : CtDescriptor) (spk : Script) : option SecretKey :=
  match desc_key d with
  | Slip77 k => Some (blinding_private_key k spk)
  | ViewXPrv k => Some (tweak_private_key spk k)
  | ViewSingle k => Some (tweak_private_key spk k)
  | OtherKey => None
  end.

Definition commitments (s : TxOutSecrets) : Generator * PedersenCommitment :=
  let asset_comm := Generator_new_blinded (sec_asset s) (asset_bf s) in
  (asset_comm, Pedersen_new (sec_value s) (value_bf s) asset_comm).

(** ** Whether a script is the wallet's *)

Fixpoint any_descriptor (spk : Script) (index : Z) (ds : list (Z -> option Script)) : result bool CommonError :=
  match ds with
  | [] => Ok false
  | d :: ds =>
      let? mine := ok_or (d index) DescConversion in
      if bool_decide (mine = spk) then Ok true else any_descriptor spk index ds
  end.

Fixpoint any_path (spk : Script) (d : CtDescriptor) (paths : list (list Z)) : result bool CommonError :=
  match paths with
  | [] => Ok false
  | path :: paths =>
      match last path with
      | None => any_path spk d paths
      | Some wildcard_index =>
          let? ds := ok_or (into_single_descriptors d) Miniscript in
          let? found := any_descriptor spk wildcard_index ds in
          if found then Ok true else any_path spk d paths
      end
  end.

Definition paths_of (spk : Script) (bip32_derivation : gmap BtcPublicKey KeySource)
    (tap_key_origins : gmap XOnlyPublicKey (list bytes * KeySource)) : list (list Z) :=
  if is_v1_p2tr spk then map (fun kv => kv.2.2.2) (btree_iter xonly_cmp tap_key_origins)
  else map (fun kv => kv.2.2) (btree_iter pk_cmp bip32_derivation).

Definition is_mine (spk : Script) (d : CtDescriptor) (bip32_derivation : gmap BtcPublicKey KeySource)
    (tap_key_origins : gmap XOnlyPublicKey (list bytes * KeySource)) : result bool CommonError :=
  any_path spk d (paths_of spk bip32_derivation tap_key_origins).

(** [.unwrap_or(false)]. *)
Definition mine (r : result bool CommonError) : bool := match r with Ok b => b | Err _ => false end.

(** ** The net balance *)

Record PsetRecipient := mkPsetRecipient
  { rc_address : option Address;
    rc_asset : option AssetId;
    rc_value : option Z;
    rc_vout : Z }.

Record PsetBalance := mkPsetBalance
  { fees : gmap AssetId Z;
    balances : gmap AssetId Z;
    recipients : list PsetRecipient }.

Definition fees_in (b : PsetBalance) (a : AssetId) : Z := default 0 (fees b !! a).

Definition unblind_or {A} (e : CommonError) (r : result A UnblindError) : result A CommonError :=
  map_err (fun u => match u with UnblindPanic => BalancePanic | _ => e end) r.

(** The asset and value an input of the wallet spends: as proved in the PSET, or unblinded
    with the range proof the PSET carries. *)
Definition spent_value (d : CtDescriptor) (idx : nat) (i : PsetInput) (txout : TxOut)
    (asset_comm : Generator) (amount_comm : PedersenCommitment) : result (AssetId * Z) CommonError :=
  match i_blind_asset_proof i, i_blind_value_proof i, i_asset i, i_amount i with
  | Some bap, Some bvp, Some asset, Some value =>
      if negb (blind_asset_proof_verify bap asset asset_comm) then Err (InvalidAssetBlindProof idx)
      else if negb (blind_value_proof_verify bvp value asset_comm amount_comm) then Err (InvalidValueBlindProof idx)
      else Ok (asset, value)
  | _, _, _, _ =>
      let? private_blinding_key := ok_or (derive_blinding_key d (script_pubkey txout)) MissingPrivateBlindingKey in
      let w := out_witness txout in
      let txout_with_rangeproof :=
        mkTxOut (asset txout) (value txout) (nonce txout) (script_pubkey txout)
          (mkTxOutWitness (surjection_proof w) (in_utxo_rangeproof i)) in
      let? s := unblind_or (InputMineNotUnblindable idx) (unblind txout_with_rangeproof private_blinding_key) in
      if bool_decide ((asset_comm, amount_comm) = commitments s) then Ok (sec_asset s, sec_value s)
      else Err (InputCommitmentsMismatch idx)
  end.

(** What an input takes from the wallet, if it is the wallet's. *)
Definition input_spends (d : CtDescriptor) (idx : nat) (i : PsetInput) : result (option (AssetId * Z)) CommonError :=
  match witness_utxo i with
  | None => Err (MissingPreviousOutput idx (mkOutPoint (previous_txid i) (previous_output_index i)))
  | Some txout =>
      if negb (mine (is_mine (script_pubkey txout) d (i_bip32_derivation i) (i_tap_key_origins i))) then Ok None
      else if pset_is_pegin i then Err (InputPeginUnsupported idx)
      else if pset_has_issuance i && (Value_is_confidential (amount (pset_asset_issuance i))
                                      || Value_is_confidential (inflation_keys (pset_asset_issuance i)))
           then Err (InputBlindedIssuance idx)
      else
        match asset txout, value txout with
        | AssetConfidential g, ValueConfidential c =>
            let? av := spent_value d idx i txout g c in Ok (Some av)
        | _, _ => Err (InputNotBlinded idx)
        end
  end.

(** [*balances.entry(asset).or_default() += v], in [i64]. *)
Definition entry_add (a : AssetId) (v : Z) (b : gmap AssetId Z) : gmap AssetId Z :=
  <[a := wrap_i64 (default 0 (b !! a) + v)]> b.

Fixpoint balance_inputs (d : CtDescriptor) (idx : nat) (l : list PsetInput) (b : gmap AssetId Z)
  : result (gmap AssetId Z) CommonError :=
  match l with
  | [] => Ok b
  | i :: l =>
      let? r := input_spends d idx i in
      balance_inputs d (1 + idx) l (match r with Some (a, v) => entry_add a (- wrap_i64 v) b | None => b end)
  end.

(** What becomes of an output: a fee, sent to someone else, or received by the wallet. *)
Inductive output_effect :=
| PaysFee (a : AssetId) (v : Z)
| SentTo (r : PsetRecipient)
| Received (a : AssetId) (v : Z).

Definition received_value (d : CtDescriptor) (idx : nat) (o : PsetOutput) : result output_effect CommonError :=
  match o_asset o, asset_comm o, o_blind_asset_proof o, o_amount o, amount_comm o, o_blind_value_proof o with
  | None, _, _, None, _, _ => Err (OutputAssetValueNone idx)
  | None, _, _, Some _, _, _ => Err (OutputValueNone idx)
  | Some _, _, _, None, _, _ => Err (OutputAssetNone idx)
  | Some asset, Some asset_comm, Some bap, Some amount, Some amount_comm, Some bvp =>
      if negb (blind_asset_proof_verify bap asset asset_comm) then Err (InvalidAssetBlindProof idx)
      else if negb (blind_value_proof_verify bvp amount asset_comm amount_comm) then Err (InvalidValueBlindProof idx)
      else
        let? private_blinding_key := ok_or (derive_blinding_key d (o_script_pubkey o)) MissingPrivateBlindingKey in
        let? s := unblind_or (OutputMineNotUnblindable idx) (unblind (to_txout o) private_blinding_key) in
        if bool_decide ((asset_comm, amount_comm) = commitments s) then Ok (Received asset amount)
        else Err (OutputCommitmentsMismatch idx)
  | _, _, _, _, _, _ => Err (OutputNotBlinded idx)
  end.

Definition output_does (d : CtDescriptor) (params : AddressParams) (idx : nat) (o : PsetOutput)
  : result output_effect CommonError :=
  if is_empty (o_script_pubkey o) then
    match o_asset o, asset_comm o, o_amount o, amount_comm o with
    | Some a, None, Some v, None => Ok (PaysFee a v)
    | _, _, _, _ => Err BlindedFee
    end
  else if negb (mine (is_mine (o_script_pubkey o) d (o_bip32_derivation o) (o_tap_key_origins o))) then
    let blinding_pubkey := option_map pk_inner (blinding_key o) in
    Ok (SentTo (mkPsetRecipient (from_script (o_script_pubkey o) blinding_pubkey params)
                  (o_asset o) (o_amount o) (wrap_u32 (Z.of_nat idx))))
  else received_value d idx o.

Definition apply_effect (e : output_effect) (b : PsetBalance) : PsetBalance :=
  match e with
  | PaysFee a v => mkPsetBalance (<[a := wrap_u64 (default 0 (fees b !! a) + v)]> (fees b)) (balances b) (recipients b)
  | SentTo r => mkPsetBalance (fees b) (balances b) (recipients b ++ [r])
  | Received a v => mkPsetBalance (fees b) (entry_add a (wrap_i64 v) (balances b)) (recipients b)
  end.

Fixpoint balance_outputs (d : CtDescriptor) (params : AddressParams) (idx : nat) (l : list PsetOutput) (b : PsetBalance)
  : result PsetBalance CommonError :=
  match l with
  | [] => Ok b
  | o :: l =>
      let? e := output_does d params idx o in
      balance_outputs d params (1 + idx) l (apply_effect e b)
  end.

Definition pset_balance (p : PartiallySignedTransaction) (d : CtDescriptor) (params : AddressParams)
  : result PsetBalance CommonError :=
  let? spent := balance_inputs d 0 (inputs p) ∅ in
  let? b := balance_outputs d params 0 (outputs p) (mkPsetBalance ∅ spent []) in
  Ok (mkPsetBalance (fees b) (filter (fun kv => kv.2 <> 0) (balances b)) (recipients b)).

(** ** Signatures *)

Record PsetSignatures := mkPsetSignatures
  { has_signature : list (BtcPublicKey * KeySource);
    missing_signature : list (BtcPublicKey * KeySource) }.

Definition input_signatures (i : PsetInput) : PsetSignatures :=
  foldl (fun r kv =>
           match partial_sigs i !! kv.1 with
           | Some _ => mkPsetSignatures (has_signature r ++ [kv]) (missing_signature r)
           | None => mkPsetSignatures (has_signature r) (missing_signature r ++ [kv])
           end) (mkPsetSignatures [] []) (btree_iter pk_cmp (i_bip32_derivation i)).

Definition pset_signatures (p : PartiallySignedTransaction) : list PsetSignatures :=
  map input_signatures (inputs p).

(** ** Issuances *)

Record Issuance := mkPsetIssuance
  { is_asset : AssetId;
    is_token : AssetId;
    prev_output : OutPoint;
    is_inner : AssetIssuance }.

(** [None] is a panic of the merkle root. *)
Definition Issuance_new (i : PsetInput) : option Issuance :=
  ids ← pset_issuance_ids i;
  Some (mkPsetIssuance ids.1 ids.2 (mkOutPoint (previous_txid i) (previous_output_index i)) (pset_asset_issuance i)).

Definition issuance_is_null (s : Issuance) : bool := AssetIssuance_is_null (is_inner s).
Definition is_issuance (s : Issuance) : bool :=
  negb (issuance_is_null s) && bool_decide (asset_blinding_nonce (is_inner s) = ZERO_TWEAK).
Definition is_reissuance (s : Issuance) : bool :=
  negb (issuance_is_null s) && negb (bool_decide (asset_blinding_nonce (is_inner s) = ZERO_TWEAK)).
Definition issuance_is_confidential (s : Issuance) : bool :=
  Value_is_confidential (amount (is_inner s)) || Value_is_confidential (inflation_keys (is_inner s)).
Definition asset_satoshi (s : Issuance) : option Z := explicit_part (amount (is_inner s)).
Definition token_satoshi (s : Issuance) : option Z := explicit_part (inflation_keys (is_inner s)).
Definition issuance_asset (s : Issuance) : option AssetId := if issuance_is_null s then None else Some (is_asset s).
Definition issuance_token (s : Issuance) : option AssetId := if issuance_is_null s then None else Some (is_token s).
Definition prev_txid (s : Issuance) : option bytes := if issuance_is_null s then None else Some (txid (prev_output s)).
Definition prev_vout (s : Issuance) : option Z := if issuance_is_null s then None else Some (vout (prev_output s)).

Definition pset_issuances (p : PartiallySignedTransaction) : option (list Issuance) := mapM Issuance_new (inputs p).

(** ** Details *)

Record PsetDetails := mkPsetDetails
  { details_balance : PsetBalance;
    sig_details : list PsetSignatures;
    details_issuances : list Issuance }.

Definition insert_fingerprints (sel : PsetSignatures -> list (BtcPublicKey * KeySource)) (r : gset bytes)
    (s : PsetSignatures) : gset bytes := foldl (fun r kv => {[ kv.2.1 ]} ∪ r) r (sel s).
Definition fingerprints_has (d : PsetDetails) : gset bytes :=
  foldl (insert_fingerprints has_signature) ∅ (sig_details d).
Definition fingerprints_missing (d : PsetDetails) : gset bytes :=
  foldl (insert_fingerprints missing_signature) ∅ (sig_details d).

Inductive DetailsError :=
| UnsupportedWithoutDescriptor
| PsetDetailsError (e : CommonError)
| DetailsPanic.

(** [Wollet::get_details]; the descriptor is missing from a wallet of bare scripts. *)
Definition get_details (descriptor : option CtDescriptor) (params : AddressParams) (p : PartiallySignedTransaction)
  : result PsetDetails DetailsError :=
  let? d := ok_or descriptor UnsupportedWithoutDescriptor in
  let? b := map_err PsetDetailsError (pset_balance p d params) in
  let? iss := ok_or (pset_issuances p) DetailsPanic in
  Ok (mkPsetDetails b (pset_signatures p) iss).
End details.

(** ** What it promises *)

#[local] Set Default Proof Using "Type*".

Section spec.
Context {P : Platform} {S : Secp} {H : Hashes} {M : Midstates} {T : TapEnv} {C : SchnorrEnv}
  {E : PsetEnv} {X : PsetCodecEnv} {K : Zkp} {B : BlindingKeys}.
Implicit Types (d : CtDescriptor) (i : PsetInput) (o : PsetOutput).

(** A path leads to a script if one of the descriptors has the script at its last index. *)
Definition derives d (spk : Script) (path : list Z) : Prop :=
  exists ix ds f, last path = Some ix /\ into_single_descriptors d = Some ds /\ f ∈ ds /\ f ix = Some spk.

(** A path at which every descriptor has a script: its last index is not hardened. *)
Definition derivable d (path : list Z) : Prop :=
  forall ix, last path = Some ix ->
    exists ds, into_single_descriptors d = Some ds /\ Forall (fun f : Z -> option Script => is_Some (f ix)) ds.

(** *** Who owns a script *)

(** The derivation paths that a PSET declares for a script, in the order of the keys: those of
    the taproot key origins for a pay-to-taproot script, those of the BIP 32 derivations for any
    other. *)
Definition declared (spk : Script) (bip32 : gmap BtcPublicKey KeySource)
    (origins : gmap XOnlyPublicKey (list bytes * KeySource)) : list (list Z) :=
  match is_v1_p2tr spk with
  | true => (fun '(_, (_, (_, path))) => path) <$> btree_iter xonly_cmp origins
  | false => (fun '(_, (_, path)) => path) <$> btree_iter pk_cmp bip32
  end.

(** All descriptors of the wallet have another script at the last index of a path. *)
Definition other_scripts (spk : Script) (ix : Z) (ds : list (Z -> option Script)) : Prop :=
  Forall (fun f : Z -> option Script => exists s, f ix = Some s /\ s <> spk) ds.
Definition path_misses d (spk : Script) (path : list Z) : Prop :=
  path = [] \/ exists pre ix ds, path = pre ++ [ix] /\ into_single_descriptors d = Some ds /\ other_scripts spk ix ds.
(** A descriptor has the script there, and those before it have one. *)
Definition path_hits d (spk : Script) (path : list Z) : Prop :=
  exists pre ix ds f ds', path = pre ++ [ix] /\ into_single_descriptors d = Some (ds ++ f :: ds') /\
    other_scripts spk ix ds /\ f ix = Some spk.
(** The wallet owns a script when a declared path leads to it; a path for which a descriptor has
    no script (a hardened last index) ends the search. *)
Definition owned d (spk : Script) (paths : list (list Z)) : Prop :=
  exists before path after, paths = before ++ path :: after /\ Forall (path_misses d spk) before /\ path_hits d spk path.

Definition input_owned d i (txout : TxOut) : Prop :=
  owned d (script_pubkey txout) (declared (script_pubkey txout) (i_bip32_derivation i) (i_tap_key_origins i)).
Definition output_owned d o : Prop :=
  owned d (o_script_pubkey o) (declared (o_script_pubkey o) (o_bip32_derivation o) (o_tap_key_origins o)).

(** The asset and the amount an input of the wallet is taken to spend. *)
Inductive opens_to d i (txout : TxOut) (g : Generator) (c : PedersenCommitment) (a : AssetId) (v : Z) : Prop :=
| opens_proved bap bvp :
    i_asset i = Some a -> i_amount i = Some v ->
    i_blind_asset_proof i = Some bap -> i_blind_value_proof i = Some bvp ->
    blind_asset_proof_verify bap a g = true -> blind_value_proof_verify bvp v g c = true ->
    opens_to d i txout g c a v
| opens_unblinded k s :
    i_blind_asset_proof i = None \/ i_blind_value_proof i = None \/ i_asset i = None \/ i_amount i = None ->
    derive_blinding_key d (script_pubkey txout) = Some k ->
    unblind (mkTxOut (asset txout) (value txout) (nonce txout) (script_pubkey txout)
               (mkTxOutWitness (surjection_proof (out_witness txout)) (in_utxo_rangeproof i))) k = Ok s ->
    commitments s = (g, c) -> sec_asset s = a -> sec_value s = v ->
    opens_to d i txout g c a v.

Inductive spends d i : option (AssetId * Z) -> Prop :=
| spends_nothing txout : witness_utxo i = Some txout -> ~ input_owned d i txout -> spends d i None
| spends_own txout g c a v :
    witness_utxo i = Some txout -> input_owned d i txout -> pset_is_pegin i = false ->
    (pset_has_issuance i = true ->
       Value_is_confidential (amount (pset_asset_issuance i)) = false /\
       Value_is_confidential (inflation_keys (pset_asset_issuance i)) = false) ->
    asset txout = AssetConfidential g -> value txout = ValueConfidential c ->
    opens_to d i txout g c a v -> spends d i (Some (a, v)).

Inductive does d (params : AddressParams) (idx : nat) o : output_effect -> Prop :=
| does_fee a v :
    o_script_pubkey o = [] -> o_asset o = Some a -> asset_comm o = None -> o_amount o = Some v -> amount_comm o = None ->
    does d params idx o (PaysFee a v)
| does_send :
    o_script_pubkey o <> [] -> ~ output_owned d o ->
    does d params idx o
      (SentTo (mkPsetRecipient (from_script (o_script_pubkey o) (option_map pk_inner (blinding_key o)) params)
                 (o_asset o) (o_amount o) (wrap_u32 (Z.of_nat idx))))
| does_receive a v g c bap bvp k s :
    o_script_pubkey o <> [] -> output_owned d o ->
    o_asset o = Some a -> o_amount o = Some v -> asset_comm o = Some g -> amount_comm o = Some c ->
    o_blind_asset_proof o = Some bap -> o_blind_value_proof o = Some bvp ->
    blind_asset_proof_verify bap a g = true -> blind_value_proof_verify bvp v g c = true ->
    derive_blinding_key d (o_script_pubkey o) = Some k -> unblind (to_txout o) k = Ok s -> commitments s = (g, c) ->
    does d params idx o (Received a v).

Definition amount_in (a : AssetId) (m : AssetId * Z) : Z := if decide (m.1 = a) then m.2 else 0.
Definition spent (a : AssetId) (ms : list (option (AssetId * Z))) : Z :=
  sum_map (fun m => match m with Some m => amount_in a m | None => 0 end) ms.
Definition received (a : AssetId) (es : list output_effect) : Z :=
  sum_map (fun e => match e with Received a' v => amount_in a (a', v) | _ => 0 end) es.
Definition fee_of (a : AssetId) (es : list output_effect) : Z :=
  sum_map (fun e => match e with PaysFee a' v => amount_in a (a', v) | _ => 0 end) es.
Definition pays_fee_in (a : AssetId) (e : output_effect) : bool :=
  match e with PaysFee a' _ => bool_decide (a' = a) | _ => false end.
Definition sent_to (e : output_effect) : option PsetRecipient := match e with SentTo r => Some r | _ => None end.
Definition nonzero (z : Z) : option Z := if z =? 0 then None else Some z.

(** ** Ownership *)

Lemma any_descriptor_true spk ix ds : any_descriptor spk ix ds = Ok true -> exists f, f ∈ ds /\ f ix = Some spk.
Proof.
  induction ds as [|f ds IH]; cbn [any_descriptor]; [done|]. intros (s & Hs%ok_or_ok & Hr)%rbind_ok.
  case_bool_decide as Hb; [subst s; exists f; split; [left|done]|].
  destruct (IH Hr) as (g & Hg & Hgs). exists g. split; [by right|done].
Qed.

Lemma any_descriptor_total spk ix (ds : list (Z -> option Script)) : Forall (fun f => is_Some (f ix)) ds ->
  any_descriptor spk ix ds = Ok true \/
  any_descriptor spk ix ds = Ok false /\ forall f, f ∈ ds -> f ix <> Some spk.
Proof.
  induction 1 as [|f ds [s Hs] _ IH]; cbn [any_descriptor].
  { right. split; [done|]. intros f Hf. by apply not_elem_of_nil in Hf. }
  rewrite Hs. cbn [ok_or rbind]. case_bool_decide as Hb; [by left|].
  destruct IH as [IH|[IH Hno]]; [by left|]. right. split; [done|].
  intros g [->|Hg]%elem_of_cons; [congruence|by apply Hno].
Qed.

Lemma any_path_true spk d paths : any_path spk d paths = Ok true -> exists path, path ∈ paths /\ derives d spk path.
Proof.
  induction paths as [|p paths IH]; cbn [any_path]; [done|]. intros Hp.
  enough (derives d spk p \/ any_path spk d paths = Ok true) as [Hd|Hr].
  { exists p. split; [left|done]. }
  { destruct (IH Hr) as (q & Hq & Hd). exists q. split; [by right|done]. }
  destruct (last p) as [ix|] eqn:El; [|by right].
  apply rbind_ok in Hp as (ds & Hds%ok_or_ok & Hp). apply rbind_ok in Hp as ([] & Hf & Hp); [|by right].
  apply any_descriptor_true in Hf as (f & Hf & Hfs). left. by exists ix, ds, f.
Qed.

Lemma any_path_total spk d paths : (forall path, path ∈ paths -> derivable d path) ->
  any_path spk d paths = Ok true \/
  any_path spk d paths = Ok false /\ forall path, path ∈ paths -> ~ derives d spk path.
Proof.
  induction paths as [|p paths IH]; intros Hp; cbn [any_path].
  { right. split; [done|]. intros p Hp'. by apply not_elem_of_nil in Hp'. }
  assert (IHp := IH (fun q Hq => Hp q (list_elem_of_further _ _ _ Hq))). clear IH.
  assert (Hnext : ~ derives d spk p ->
    any_path spk d paths = Ok true \/
    any_path spk d paths = Ok false /\ forall path, path ∈ p :: paths -> ~ derives d spk path).
  { intros Hn. destruct IHp as [IHp|[IHp Hno]]; [by left|]. right. split; [done|].
    intros q [->|Hq]%elem_of_cons; [done|by apply Hno]. }
  destruct (last p) as [ix|] eqn:El.
  - destruct (Hp p (list_elem_of_here _ _) ix El) as (ds & Hds & Hf). rewrite Hds. cbn [ok_or rbind].
    destruct (any_descriptor_total spk ix ds Hf) as [->|[-> Hno]]; cbn [rbind]; [by left|].
    apply Hnext. intros (ix' & ds' & f & El' & Hds' & Hf' & Hfs). simplify_eq. by apply (Hno f).
  - apply Hnext. intros (ix' & ds' & f & El' & _). congruence.
Qed.

Lemma mine_iff spk d b t : (forall path, path ∈ paths_of spk b t -> derivable d path) ->
  mine (is_mine spk d b t) = true <-> exists path, path ∈ paths_of spk b t /\ derives d spk path.
Proof.
  intros Hd. unfold is_mine. split.
  - intros Hm. apply any_path_true. destruct (any_path _ _ _) as [r|]; [|done]. simpl in Hm. by rewrite Hm.
  - intros (p & Hp & Hds). destruct (any_path_total spk d _ Hd) as [->|[_ Hno]]; [done|]. by destruct (Hno p Hp).
Qed.

(** *** [is_mine] finds what the wallet owns *)

Lemma any_descriptor_spec spk ix ds :
  (any_descriptor spk ix ds = Ok true <-> exists l f l', ds = l ++ f :: l' /\ other_scripts spk ix l /\ f ix = Some spk) /\
  (any_descriptor spk ix ds = Ok false <-> other_scripts spk ix ds).
Proof.
  induction ds as [|f ds [IHt IHf]]; cbn [any_descriptor].
  { split; [split; [done|by intros (l & f & l' & Hl & _); destruct l]|split; [constructor|done]]. }
  destruct (f ix) as [s|] eqn:Ef; cbn [ok_or rbind]; [case_bool_decide as Hs|].
  - subst s. split; [split; [intros _|done]|split; [done|]].
    + exists [], f, ds. split_and!; [done|constructor|done].
    + intros (x & Hx & Hn)%Forall_inv. congruence.
  - split; [rewrite IHt|rewrite IHf]; split.
    + intros (l & g & l' & -> & Hl & Hg). exists (f :: l), g, l'. split_and!; [done|constructor; [by exists s|done]|done].
    + intros ([|f' l] & g & l' & Hd & Hl & Hg); injection Hd as <- Hd; [congruence|].
      apply Forall_cons in Hl as [_ Hl]. by exists l, g, l'.
    + intros Hl. constructor; [by exists s|done].
    + by intros [_ ?]%Forall_cons.
  - split; (split; [done|]).
    + intros ([|f' l] & g & l' & Hd & Hl & Hg); injection Hd as <- Hd; [congruence|].
      apply Forall_inv in Hl as (x & Hx & _). congruence.
    + intros (x & Hx & _)%Forall_inv. congruence.
Qed.

Lemma any_path_owned spk d paths : any_path spk d paths = Ok true <-> owned d spk paths.
Proof.
  induction paths as [|p paths IH]; cbn [any_path].
  { split; [done|]. by intros ([] & p & l' & Hd & _). }
  assert (Hskip : path_misses d spk p -> ~ path_hits d spk p -> owned d spk (p :: paths) <-> owned d spk paths).
  { intros Hm Hn. split.
    - intros ([|q l] & x & l' & Hd & Hl & Hx); injection Hd as <- Hd; [done|]. apply Forall_cons in Hl as [_ Hl]. by exists l, x, l'.
    - intros (l & x & l' & -> & Hl & Hx). exists (p :: l), x, l'. split_and!; [done|by constructor|done]. }
  destruct (last p) as [ix|] eqn:El.
  2:{ apply last_None in El as ->. rewrite Hskip, IH; [done|by left|].
      intros (pre & ix & ds & f & ds' & Hp & _). by destruct pre. }
  apply last_Some in El as [pre ->].
  assert (Hinv : owned d spk ((pre ++ [ix]) :: paths) ->
    path_hits d spk (pre ++ [ix]) \/ path_misses d spk (pre ++ [ix])).
  { intros ([|q l] & x & l' & Hd & Hl & Hx); injection Hd as <- Hd; [by left|]. right. by apply Forall_inv in Hl. }
  assert (Hix : forall pre' ix', pre ++ [ix] = pre' ++ [ix'] -> ix' = ix) by (by intros pre' ix' [_ ?]%app_inj_tail).
  destruct (into_single_descriptors d) as [ds|] eqn:Ed; cbn [ok_or rbind].
  2:{ split; [done|]. intros [(? & ? & ? & ? & ? & _ & ? & _)|[Hp|(? & ? & ? & _ & ? & _)]]%Hinv; [congruence|by destruct pre|congruence]. }
  destruct (any_descriptor_spec spk ix ds) as [Ht Hf].
  destruct (any_descriptor spk ix ds) as [[]|e]; cbn [rbind].
  - split; [intros _|done]. destruct (proj1 Ht eq_refl) as (l & f & l' & -> & Hl & Hs).
    exists [], (pre ++ [ix]), paths. split_and!; [done|constructor|]. by exists pre, ix, l, f, l'.
  - pose proof (proj1 Hf eq_refl) as Hm. rewrite Hskip, IH; [done|by right; exists pre, ix, ds|].
    intros (pre' & ix' & l & f & l' & Hp & Hd & _ & Hs). apply Hix in Hp as ->. assert (ds = l ++ f :: l') as -> by congruence.
    apply Forall_app in Hm as [_ Hm]. apply Forall_inv in Hm as (x & Hx & Hn). congruence.
  - split; [done|]. intros [(pre' & ix' & l & f & l' & Hp & Hd & Hl & Hs)|[Hp|(pre' & ix' & l & Hp & Hd & Hl)]]%Hinv.
    + apply Hix in Hp as ->. enough (Err e = Ok true) by done. apply Ht. exists l, f, l'. split_and!; [congruence|done|done].
    + by destruct pre.
    + apply Hix in Hp as ->. enough (Err e = Ok false) by done. apply Hf. congruence.
Qed.

Lemma declared_paths spk b t : paths_of spk b t = declared spk b t.
Proof.
  unfold paths_of, declared. destruct (is_v1_p2tr spk); apply map_ext; [by intros (k & l & fp & path)|by intros (k & fp & path)].
Qed.

Lemma mine_spec spk d b t : reflect (owned d spk (declared spk b t)) (mine (is_mine spk d b t)).
Proof.
  apply iff_reflect. unfold is_mine. rewrite <-any_path_owned, declared_paths.
  destruct (any_path spk d (declared spk b t)) as [[]|]; cbn [mine]; done.
Qed.

(** ** The two loops *)

Lemma unblind_or_ok {A} e (r : result A UnblindError) a : unblind_or e r = Ok a <-> r = Ok a.
Proof. destruct r; unfold unblind_or, map_err; naive_solver. Qed.

Lemma spent_value_ok d idx i txout g c a v :
  spent_value d idx i txout g c = Ok (a, v) <-> opens_to d i txout g c a v.
Proof.
  assert (Hu : forall r, r = spent_value d idx i txout g c ->
    i_blind_asset_proof i = None \/ i_blind_value_proof i = None \/ i_asset i = None \/ i_amount i = None ->
    r = Ok (a, v) <-> opens_to d i txout g c a v).
  { intros r -> Hn. unfold spent_value.
    set (m := mkTxOut _ _ _ _ _).
    transitivity ((let? k := ok_or (derive_blinding_key d (script_pubkey txout)) MissingPrivateBlindingKey in
       let? s := unblind_or (InputMineNotUnblindable idx) (unblind m k) in
       if bool_decide ((g, c) = commitments s) then Ok (sec_asset s, sec_value s) else Err (InputCommitmentsMismatch idx)) = Ok (a, v)).
    { destruct Hn as [->|[-> | [-> | ->]]]; [done| | |];
        repeat (match goal with |- context [match ?x with Some _ => _ | None => _ end] => destruct x end; try done). }
    rewrite rbind_ok. setoid_rewrite ok_or_ok. setoid_rewrite rbind_ok. setoid_rewrite unblind_or_ok. split.
    - intros (k & Hk & s & Hs & Hc). case_bool_decide as Hb; [|done]. injection Hc as <- <-.
      by eapply opens_unblinded.
    - intros [bap bvp Ha Hv Hbap Hbvp _ _|k s _ Hk Hs Hc Ha Hv].
      + rewrite Ha, Hv, Hbap, Hbvp in Hn. naive_solver.
      + subst a v. exists k. split; [done|]. exists s. split; [done|]. by rewrite bool_decide_true. }
  destruct (i_blind_asset_proof i) as [bap|] eqn:E1; [|by apply Hu; auto].
  destruct (i_blind_value_proof i) as [bvp|] eqn:E2; [|by apply Hu; auto].
  destruct (i_asset i) as [a'|] eqn:E3; [|by apply Hu; auto].
  destruct (i_amount i) as [v'|] eqn:E4; [|by apply Hu; auto].
  clear Hu. unfold spent_value. rewrite E1, E2, E3, E4. split.
  - destruct (blind_asset_proof_verify _ _ _) eqn:Ev1; [|done].
    destruct (blind_value_proof_verify _ _ _ _) eqn:Ev2; [|done]. cbn [negb]. intros [= <- <-].
    by eapply opens_proved.
  - intros [? ? ? ? ? ? Hp1 Hp2|? ? Hn]; [|naive_solver]. simplify_eq. by rewrite Hp1, Hp2.
Qed.

Lemma input_spends_ok d idx i m : input_spends d idx i = Ok m <-> spends d i m.
Proof.
  unfold input_spends. destruct (witness_utxo i) as [txout|] eqn:Ew.
  2: { split; [done|]. intros [? Hw|? ? ? ? ? Hw]; congruence. }
  pose proof (mine_spec (script_pubkey txout) d (i_bip32_derivation i) (i_tap_key_origins i)) as Hown.
  fold (input_owned d i txout) in Hown. destruct Hown as [Em|Em]; cbn [negb].
  2: { split; [intros [= <-]; by eapply spends_nothing|]. intros [? Hw Hm|? ? ? ? ? Hw Hm]; [done|].
       rewrite Hw in Ew. injection Ew as ->. done. }
  split.
  - destruct (pset_is_pegin i) eqn:Ep; [done|]. intros Hr.
    assert (Hiss : pset_has_issuance i = true ->
       Value_is_confidential (amount (pset_asset_issuance i)) = false /\
       Value_is_confidential (inflation_keys (pset_asset_issuance i)) = false).
    { intros Hi. rewrite Hi in Hr. cbn [andb] in Hr.
      destruct (Value_is_confidential (amount _)), (Value_is_confidential (inflation_keys _)); done. }
    destruct (_ && _); [done|].
    destruct (asset txout) eqn:Ea; [done..|]. destruct (value txout) eqn:Ev; [done..|].
    apply rbind_ok in Hr as ([a v] & Hs%spent_value_ok & [= <-]). by eapply spends_own.
  - intros [? Hw Hm|? g c a v Hw Hm Hp Hi Ha Hv Ho]; [rewrite Hw in Ew; injection Ew as ->; done|].
    assert (txout = txout0) as <- by congruence. rewrite Hp, Ha, Hv.
    apply (spent_value_ok d idx) in Ho. rewrite Ho. cbn [rbind].
    destruct (pset_has_issuance i); [|done]. by destruct (Hi eq_refl) as [-> ->].
Qed.

Lemma received_value_ok d params idx o e : o_script_pubkey o <> [] -> output_owned d o ->
  received_value d idx o = Ok e <-> does d params idx o e.
Proof.
  intros Hne Hm. unfold received_value. split.
  - destruct (o_asset o) as [a|] eqn:Ea, (o_amount o) as [v|] eqn:Ev; try (by destruct (asset_comm o), (o_blind_asset_proof o)).
    destruct (asset_comm o) as [g|] eqn:Eg; [|done]. destruct (o_blind_asset_proof o) as [bap|] eqn:Ebap; [|done].
    destruct (amount_comm o) as [c|] eqn:Ec; [|done]. destruct (o_blind_value_proof o) as [bvp|] eqn:Ebvp; [|done].
    destruct (blind_asset_proof_verify _ _ _) eqn:Ev1; [|done].
    destruct (blind_value_proof_verify _ _ _ _) eqn:Ev2; [|done]. cbn [negb].
    intros (k & Hk%ok_or_ok & (s & Hs%unblind_or_ok & Hc)%rbind_ok)%rbind_ok. case_bool_decide; [|done].
    injection Hc as <-. by eapply does_receive.
  - intros [| |a v g c bap bvp k s _ _ Ha Hv Hg Hc Hbap Hbvp Hp1 Hp2 Hk Hs Hcs]; [done|done|].
    rewrite Ha, Hv, Hg, Hc, Hbap, Hbvp, Hp1, Hp2, Hk. cbn [negb ok_or rbind]. rewrite Hs. cbn [unblind_or map_err rbind].
    by rewrite bool_decide_true.
Qed.

Lemma output_does_ok d params idx o e : output_does d params idx o = Ok e <-> does d params idx o e.
Proof.
  unfold output_does. destruct (is_empty (o_script_pubkey o)) eqn:Es.
  - assert (o_script_pubkey o = []) as Hs by (by destruct (o_script_pubkey o)). split.
    + destruct (o_asset o) eqn:Ea, (asset_comm o) eqn:Eg, (o_amount o) eqn:Ev, (amount_comm o) eqn:Ec; try done.
      intros [= <-]. by apply does_fee.
    + intros [a v _ Ha Hg Hv Hc| |]; [|done..]. by rewrite Ha, Hg, Hv, Hc.
  - assert (o_script_pubkey o <> []) as Hs by (by destruct (o_script_pubkey o)).
    pose proof (mine_spec (o_script_pubkey o) d (o_bip32_derivation o) (o_tap_key_origins o)) as Hown.
    fold (output_owned d o) in Hown. destruct Hown as [Em|Em]; cbn [negb]; [by apply received_value_ok|]. split.
    + intros [= <-]. by apply does_send.
    + intros [| |? ? ? ? ? ? ? ? _ Hm]; done.
Qed.

Definition apply_spend (b : gmap AssetId Z) (m : option (AssetId * Z)) : gmap AssetId Z :=
  match m with Some (a, v) => entry_add a (- wrap_i64 v) b | None => b end.

Lemma balance_inputs_ok d l idx b b' :
  balance_inputs d idx l b = Ok b' <-> exists ms, Forall2 (spends d) l ms /\ b' = foldl apply_spend b ms.
Proof.
  revert idx b. induction l as [|i l IH]; intros idx b; cbn [balance_inputs].
  - split; [intros [= <-]; by exists []|]. intros (ms & Hm%Forall2_nil_inv_l & ->). by rewrite Hm.
  - rewrite rbind_ok. setoid_rewrite input_spends_ok. split.
    + intros (m & Hm & (ms & Hms & ->)%IH). exists (m :: ms). split; [by constructor|done].
    + intros (ms & (m & ms' & Hm & Hms & ->)%Forall2_cons_inv_l & ->). exists m. split; [done|].
      apply IH. by exists ms'.
Qed.

Lemma balance_outputs_ok d params l idx b b' :
  balance_outputs d params idx l b = Ok b' <->
  exists es, Forall2 (fun io e => does d params io.1 io.2 e) (zip (seq idx (length l)) l) es /\
    b' = foldl (fun b e => apply_effect e b) b es.
Proof.
  revert idx b. induction l as [|o l IH]; intros idx b; cbn [balance_outputs length seq zip_with].
  - split; [intros [= <-]; by exists []|]. intros (es & He%Forall2_nil_inv_l & ->). by rewrite He.
  - rewrite rbind_ok. setoid_rewrite output_does_ok. split.
    + intros (e & He & (es & Hes & ->)%IH). exists (e :: es). split; [by constructor|done].
    + intros (es & (e & es' & He & Hes & ->)%Forall2_cons_inv_l & ->). exists e. split; [done|].
      apply IH. by exists es'.
Qed.

(** ** Accounting *)

Lemma entry_add_sum (x : AssetId -> Z) b a v w :
  (forall a, default 0 (b !! a) = wrap_i64 (x a)) -> cong64 v w ->
  forall a', default 0 (entry_add a v b !! a') = wrap_i64 (x a' + amount_in a' (a, w)).
Proof.
  intros Hb Hw a'. unfold entry_add, amount_in. cbn [fst snd]. case_decide as Ha.
  - subst a'. rewrite lookup_insert_eq. cbn [default]. apply wrap_i64_cong. rewrite Hb, cong64_wrap_i64. by rewrite Hw.
  - rewrite lookup_insert_ne by done. by rewrite Hb, Z.add_0_r.
Qed.

Lemma spends_sum ms (x : AssetId -> Z) b :
  (forall a, default 0 (b !! a) = wrap_i64 (x a)) ->
  forall a, default 0 (foldl apply_spend b ms !! a) = wrap_i64 (x a - spent a ms).
Proof.
  revert x b. induction ms as [|[[a v]|] ms IH]; intros x b Hb a'; unfold spent; cbn [foldl apply_spend].
  - cbn. by rewrite Hb, Z.sub_0_r.
  - rewrite sum_map_cons. rewrite (IH (fun a' => x a' + amount_in a' (a, - v))).
    + f_equal. unfold spent, amount_in. cbn [fst snd]. case_decide; lia.
    + apply entry_add_sum; [done|]. destruct (cong64_wrap_i64 v) as [k ->]. exists (- k). lia.
  - rewrite sum_map_cons, (IH x) by done. reflexivity.
Qed.

Definition has_fee (a : AssetId) (es : list output_effect) : bool := existsb (pays_fee_in a) es.

Lemma effects_balances es (x : AssetId -> Z) b :
  (forall a, default 0 (balances b !! a) = wrap_i64 (x a)) ->
  forall a, default 0 (balances (foldl (fun b e => apply_effect e b) b es) !! a) = wrap_i64 (x a + received a es).
Proof.
  revert x b. induction es as [|e es IH]; intros x b Hb a'; unfold received; cbn [foldl].
  { cbn. by rewrite Hb, Z.add_0_r. }
  rewrite sum_map_cons. destruct e as [a v|r|a v]; cbn [apply_effect].
  - rewrite (IH x) by done. reflexivity.
  - rewrite (IH x) by done. reflexivity.
  - rewrite (IH (fun a' => x a' + amount_in a' (a, v))).
    + f_equal. unfold received. lia.
    + cbn [balances]. apply entry_add_sum; [done|]. apply cong64_wrap_i64.
Qed.

Lemma effects_fees es b a :
  fees (foldl (fun b e => apply_effect e b) b es) !! a =
  if has_fee a es then Some (wrap_u64 (default 0 (fees b !! a) + fee_of a es)) else fees b !! a.
Proof.
  revert b. induction es as [|e es IH]; intros b; [done|]. unfold has_fee, fee_of in *. cbn [foldl existsb].
  rewrite IH, sum_map_cons. destruct e as [a' v|r|a' v]; cbn [apply_effect pays_fee_in fees orb]; [|done..].
  unfold amount_in. cbn [fst snd]. case_bool_decide as Ha; cbn [orb].
  - subst a'. rewrite lookup_insert_eq, decide_True by done. cbn [default].
    destruct (existsb _ es) eqn:Ee.
    + f_equal. apply wrap_u64_cong. rewrite cong64_wrap_u64. by rewrite Z.add_assoc.
    + do 2 f_equal. enough (sum_map (fun e => match e with PaysFee a' v => if decide (a' = a) then v else 0 | _ => 0 end) es = 0) by (unfold amount_in in *; cbn [fst snd] in *; lia).
      apply sum_map_zero. intros [a' v'|r|a' v'] He; [|done..]. case_decide; [|done]. subst a'.
      assert (existsb (pays_fee_in a) es = true); [|congruence].
      apply existsb_exists. exists (PaysFee a v'). split; [by apply list_elem_of_In|]. simpl. by rewrite bool_decide_true.
  - rewrite lookup_insert_ne by done. rewrite decide_False by done. by rewrite Z.add_0_l.
Qed.

Lemma effects_recipients es b :
  recipients (foldl (fun b e => apply_effect e b) b es) = recipients b ++ omap sent_to es.
Proof.
  revert b. induction es as [|e es IH]; intros b; cbn [foldl omap list_omap]; [by rewrite app_nil_r|].
  rewrite IH. destruct e; cbn; [done| |done]. by rewrite <-app_assoc.
Qed.

Lemma retain_nonzero (b : gmap AssetId Z) a : filter (fun kv => kv.2 <> 0) b !! a = nonzero (default 0 (b !! a)).
Proof.
  unfold nonzero. destruct (b !! a) as [v|] eqn:Eb; cbn [default id].
  - destruct (Z.eqb_spec v 0).
    + apply map_lookup_filter_None. right. intros x Hx. rewrite Eb in Hx. injection Hx as <-. simpl. lia.
    + by apply map_lookup_filter_Some.
  - apply map_lookup_filter_None. by left.
Qed.
End spec.

(** C8: Who owns a script is what the PSET declares: the wallet owns it when one of the
    derivation paths declared for it (the taproot key origins for a pay-to-taproot script, the
    BIP 32 derivations for any other, in the order of the keys) leads to it, that is when a
    descriptor of the wallet has the script at the last index of the path, and no path before
    it has an index without a script; a missing, forged or hardened derivation makes it
    somebody else's.  The balance of a PSET is computed exactly when every input carries the
    output it spends; the inputs that are owned are not peg-ins, have no blinded issuance and
    spend outputs with commitments, whose asset and amount are proved in the PSET or, where a
    proof or a value is missing, unblinded with the wallet's key; fees are explicit; and the
    outputs that are owned are blinded, with valid proofs of asset and amount, and can be
    unblinded to their commitments.  The balance of an asset is then what the owned outputs
    receive less what the owned inputs spend (as a 64-bit integer, no zeroes), the fees are
    summed by asset, and the recipients are the outputs that are neither, in order. *)
Theorem pset_balance_accounts {P : Platform} {S : Secp} {H : Hashes} {M : Midstates} {T : TapEnv} {C : SchnorrEnv}
    {E : PsetEnv} {X : PsetCodecEnv} {K : Zkp} {B : BlindingKeys}
    (p : PartiallySignedTransaction) (d : CtDescriptor) (params : AddressParams) (b : PsetBalance) :
  pset_balance p d params = Ok b <->
  exists ms es,
    Forall2 (spends d) (inputs p) ms /\
    Forall2 (fun io e => does d params io.1 io.2 e) (zip (seq 0 (length (outputs p))) (outputs p)) es /\
    (forall a, balances b !! a = nonzero (wrap_i64 (received a es - spent a ms))) /\
    (forall a, fees b !! a = if has_fee a es then Some (wrap_u64 (fee_of a es)) else None) /\
    recipients b = omap sent_to es.
Proof.
  assert (Hacc : forall ms es, let r := foldl (fun b e => apply_effect e b) (mkPsetBalance ∅ (foldl apply_spend ∅ ms) []) es in
    (forall a, filter (fun kv => kv.2 <> 0) (balances r) !! a = nonzero (wrap_i64 (received a es - spent a ms))) /\
    (forall a, fees r !! a = if has_fee a es then Some (wrap_u64 (fee_of a es)) else None) /\
    recipients r = omap sent_to es).
  { intros ms es r. split_and!.
    - intros a. rewrite retain_nonzero. subst r.
      rewrite (effects_balances es (fun a => 0 - spent a ms)); [do 2 f_equal; lia|]. cbn [balances].
      apply (spends_sum ms (fun _ => 0)). intros a'. by rewrite lookup_empty.
    - intros a. subst r. rewrite effects_fees. cbn [fees]. by rewrite lookup_empty.
    - subst r. by rewrite effects_recipients. }
  unfold pset_balance. rewrite rbind_ok. setoid_rewrite rbind_ok.
  setoid_rewrite balance_inputs_ok. setoid_rewrite balance_outputs_ok. split.
  - intros (? & (ms & Hms & ->) & ? & (es & Hes & ->) & [= <-]). exists ms, es. cbn [balances fees recipients].
    destruct (Hacc ms es) as (Hb & Hf & Hr). done.
  - intros (ms & es & Hms & Hes & Hb & Hf & Hr). destruct (Hacc ms es) as (Hb' & Hf' & Hr').
    eexists. split; [by exists ms|]. eexists. split; [by exists es|]. f_equal. destruct b as [f l rs]. cbn [balances fees recipients] in *.
    f_equal; [apply map_eq; intros a; by rewrite Hf, Hf'|apply map_eq; intros a; by rewrite Hb, Hb'|by rewrite Hr'].
Qed.

(** ** Signatures *)

Section signatures.
Context {P : Platform} {S : Secp} {H : Hashes} {M : Midstates} {T : TapEnv} {C : SchnorrEnv}
  {E : PsetEnv} {X : PsetCodecEnv} {K : Zkp} {B : BlindingKeys}.
Implicit Types (i : PsetInput).

Definition signed_by i (kv : BtcPublicKey * KeySource) : Prop := is_Some (partial_sigs i !! kv.1).

Lemma input_signatures_filter i :
  has_signature (input_signatures i) = filter (signed_by i) (btree_iter pk_cmp (i_bip32_derivation i)) /\
  missing_signature (input_signatures i) = filter (fun kv => ~ signed_by i kv) (btree_iter pk_cmp (i_bip32_derivation i)).
Proof.
  unfold input_signatures.
  enough (Hg : forall l h m, let r := foldl (fun r kv =>
     match partial_sigs i !! kv.1 with
     | Some _ => mkPsetSignatures (has_signature r ++ [kv]) (missing_signature r)
     | None => mkPsetSignatures (has_signature r) (missing_signature r ++ [kv])
     end) (mkPsetSignatures h m) l in
     has_signature r = h ++ filter (signed_by i) l /\ missing_signature r = m ++ filter (fun kv => ~ signed_by i kv) l)
    by apply Hg.
  induction l as [|kv l IH]; intros h m; cbn [foldl]; [by rewrite !app_nil_r|].
  cbn [has_signature missing_signature]. destruct (decide (signed_by i kv)) as [Hs|Hs].
  - rewrite filter_cons_True, filter_cons_False by (done || (intros Hn; by apply Hn)).
    destruct Hs as [x ->]. destruct (IH (h ++ [kv]) m) as [-> ->]. by rewrite <-app_assoc.
  - rewrite filter_cons_False, filter_cons_True by done.
    unfold signed_by in Hs. rewrite <-eq_None_not_Some in Hs. rewrite Hs.
    destruct (IH h (m ++ [kv])) as [-> ->]. by rewrite <-app_assoc.
Qed.

Lemma elem_of_signatures i pk ks :
  ((pk, ks) ∈ has_signature (input_signatures i) <-> i_bip32_derivation i !! pk = Some ks /\ is_Some (partial_sigs i !! pk)) /\
  ((pk, ks) ∈ missing_signature (input_signatures i) <-> i_bip32_derivation i !! pk = Some ks /\ partial_sigs i !! pk = None).
Proof.
  destruct (input_signatures_filter i) as [-> ->]. rewrite !list_elem_of_filter, btree_iter_perm, elem_of_map_to_list.
  unfold signed_by. cbn [fst]. rewrite <-eq_None_not_Some. naive_solver.
Qed.

Lemma elem_of_insert_fingerprints (sel : PsetSignatures -> list (BtcPublicKey * KeySource)) (l : list PsetSignatures) (r : gset bytes) (fp : bytes) :
  fp ∈ foldl (insert_fingerprints sel) r l <->
  fp ∈ r \/ exists s pk path, s ∈ l /\ (pk, (fp, path)) ∈ sel s.
Proof.
  assert (Hin : forall (k : list (BtcPublicKey * KeySource)) (r : gset bytes),
    fp ∈ foldl (fun r kv => {[ kv.2.1 ]} ∪ r) r k <-> fp ∈ r \/ exists pk path, (pk, (fp, path)) ∈ k).
  { induction k as [|[pk [fp' path]] k IH]; intros r'; cbn [foldl].
    { setoid_rewrite elem_of_nil. naive_solver. }
    rewrite IH. cbn [fst snd]. rewrite elem_of_union, elem_of_singleton. setoid_rewrite elem_of_cons. split.
    - intros [[->|Hr]|(pk' & path' & Hk)]; [right; exists pk, path; by left|by left|right; exists pk', path'; by right].
    - intros [Hr|(pk' & path' & [Hk|Hk])]; [by left; right| |right; by exists pk', path']. left. left. congruence. }
  revert r. induction l as [|s l IH]; intros r; cbn [foldl].
  { setoid_rewrite elem_of_nil. naive_solver. }
  rewrite IH. unfold insert_fingerprints at 1. rewrite Hin. setoid_rewrite elem_of_cons. split.
  - intros [[Hr|(pk & path & Hk)]|(s' & pk & path & Hs & Hk)];
      [by left|right; exists s, pk, path; split; [by left|done]|right; exists s', pk, path; split; [by right|done]].
  - intros [Hr|(s' & pk & path & [->|Hs] & Hk)];
      [by left; left|left; right; by exists pk, path|right; by exists s', pk, path].
Qed.
End signatures.

(** The details of a PSET name as missing exactly the signers of a key that has a derivation
    but no signature, and as present those of a key that has both; a wallet of bare scripts
    has no details. *)
Theorem details_fingerprints {P : Platform} {S : Secp} {H : Hashes} {M : Midstates} {T : TapEnv} {C : SchnorrEnv}
    {E : PsetEnv} {X : PsetCodecEnv} {K : Zkp} {B : BlindingKeys}
    (desc : option CtDescriptor) (params : AddressParams) (p : PartiallySignedTransaction) (d : PsetDetails) (fp : bytes) :
  get_details desc params p = Ok d ->
  (fp ∈ fingerprints_missing d <-> exists i pk path, i ∈ inputs p /\
     i_bip32_derivation i !! pk = Some (fp, path) /\ partial_sigs i !! pk = None) /\
  (fp ∈ fingerprints_has d <-> exists i pk path, i ∈ inputs p /\
     i_bip32_derivation i !! pk = Some (fp, path) /\ is_Some (partial_sigs i !! pk)) /\
  length (details_issuances d) = length (inputs p) /\ desc <> None.
Proof.
  unfold get_details. intros (d' & Hd%ok_or_ok & Hr)%rbind_ok. apply rbind_ok in Hr as (b & _ & Hr).
  apply rbind_ok in Hr as (iss & Hi%ok_or_ok & [= <-]). cbn [details_issuances].
  unfold fingerprints_missing, fingerprints_has, pset_signatures. cbn [sig_details].
  rewrite !elem_of_insert_fingerprints. unfold map. setoid_rewrite list_elem_of_fmap. split_and!.
  - split.
    + intros [Hn|(? & pk & path & (i & -> & Hi') & Hk%elem_of_signatures)]; [by apply not_elem_of_empty in Hn|].
      by exists i, pk, path.
    + intros (i & pk & path & Hi' & Hk). right. exists (input_signatures i), pk, path.
      split; [by exists i|by apply elem_of_signatures].
  - split.
    + intros [Hn|(? & pk & path & (i & -> & Hi') & Hk%elem_of_signatures)]; [by apply not_elem_of_empty in Hn|].
      by exists i, pk, path.
    + intros (i & pk & path & Hi' & Hk). right. exists (input_signatures i), pk, path.
      split; [by exists i|by apply elem_of_signatures].
  - apply mapM_Some, Forall2_length in Hi. by rewrite Hi.
  - by rewrite Hd.
Qed.

(** ** Where it does less than it says *)

(** One derivation with a hardened last index that is looked at first hides an input: the
    error of the derivation reads as not being the wallet's. *)
Theorem hardened_path_hides {P : Platform} {S : Secp} {H : Hashes} {M : Midstates} {T : TapEnv} {C : SchnorrEnv}
    {E : PsetEnv} {X : PsetCodecEnv} {K : Zkp} {B : BlindingKeys}
    (d : CtDescriptor) (idx : nat) (i : PsetInput) (txout : TxOut) (path : list Z) (paths : list (list Z)) (ix : Z)
    (f : Z -> option Script) (ds : list (Z -> option Script)) :
  witness_utxo i = Some txout ->
  paths_of (script_pubkey txout) (i_bip32_derivation i) (i_tap_key_origins i) = path :: paths ->
  last path = Some ix -> into_single_descriptors d = Some (f :: ds) -> f ix = None ->
  input_spends d idx i = Ok None.
Proof.
  intros Hw Hp Hl Hd Hf. unfold input_spends. rewrite Hw. unfold is_mine. rewrite Hp. cbn [any_path].
  rewrite Hl, Hd. cbn [ok_or rbind any_descriptor]. by rewrite Hf.
Qed.

(** The errors of an output without asset and of one without value are swapped. *)
Theorem missing_asset_reported_as_value {P : Platform} {S : Secp} {H : Hashes} {M : Midstates} {T : TapEnv}
    {C : SchnorrEnv} {E : PsetEnv} {X : PsetCodecEnv} {K : Zkp} {B : BlindingKeys}
    (d : CtDescriptor) (idx : nat) (o : PsetOutput) (v : Z) :
  o_asset o = None -> o_amount o = Some v -> received_value d idx o = Err (OutputValueNone idx).
Proof.
  intros Ha Hv. unfold received_value. rewrite Ha, Hv. by destruct (asset_comm o), (o_blind_asset_proof o).
Qed.

(** The keys of a taproot input are recognized as the wallet's, but a missing signature of
    one is not reported. *)
Theorem taproot_signature_unreported {P : Platform} {S : Secp} {H : Hashes} {M : Midstates} {T : TapEnv}
    {C : SchnorrEnv} {E : PsetEnv} {X : PsetCodecEnv} {K : Zkp} {B : BlindingKeys} (i : PsetInput) :
  i_bip32_derivation i = ∅ -> input_signatures i = mkPsetSignatures [] [].
Proof. intros Hb. unfold input_signatures. rewrite Hb. reflexivity. Qed.

(** ** A concrete wallet *)

Import BlindSample.
Import PsetCodecSample.

Module DetailsSample.
#[local] Existing Instance Model.Secp_model.
Definition BlindingKeys_model : BlindingKeys :=
  {| Slip77Key := Z; blinding_private_key k _ := to_key k; tweak_private_key _ k := k |}.
#[export] Existing Instance BlindingKeys_model.

(** The script at index 5; hardened indices have none. *)
Definition wallet_at (ix : Z) : option Script :=
  if ix <? 2 ^ 31 then Some (spk (if ix =? 5 then Byte.x05 else Byte.x09)) else None.
Definition wallet : CtDescriptor := mkCtDescriptor (Slip77 71) (Some [wallet_at]).

(** It spends 1000, 700 come back, 250 go to someone else and 50 are the fee. *)
Definition origin (n : Z) (ix : Z) : gmap BtcPublicKey KeySource := {[bkey n := ([Byte.xab; Byte.xcd; Byte.xef; Byte.x01], [84; 0; ix])]}.
Definition own_input (o : gmap BtcPublicKey KeySource) : PsetInput :=
  inp 1 sealed_txout <| i_bip32_derivation := o |> <| in_utxo_rangeproof := rangeproof (out_witness sealed_txout) |>.
Definition own_pset (o : gmap BtcPublicKey KeySource) : PartiallySignedTransaction :=
  let p := foldl (fun p o => add_output o p) (add_input (own_input o) new_v2)
    [paying 700 btc (Some (71, 0)) <| o_script_pubkey := spk Byte.x05 |> <| o_bip32_derivation := origin 71 5 |>;
     paying 250 btc (Some (72, 0)); new_explicit [] 50 btc None] in
  (blind_last {[0%nat := sec0]} (p, 1)).2.1.

Definition summary (r : result PsetBalance CommonError) : option (list (AssetId * Z) * list (AssetId * Z) * list (option Z)) :=
  match r with Ok b => Some (map_to_list (balances b), map_to_list (fees b), map rc_value (recipients b)) | Err _ => None end.

(** A key of someone else, with a hardened last index, that is first in the order of keys. *)
Definition forged_origins : gmap BtcPublicKey KeySource := origin 71 5 ∪ origin 1 (2 ^ 31).
End DetailsSample.
Import DetailsSample.

Lemma own_pset_balance : summary (pset_balance (own_pset (origin 71 5)) wallet LIQUID) =
  Some ([(btc, -300)], [(btc, 50)], [Some 250]).
Proof. vm_compute. reflexivity. Qed.

(** The wallet spends 300, but with one more derivation in the PSET the balance says that it
    gains 700: the input is not counted although the wallet's key is still there to sign it. *)
Theorem forged_derivation_hides_spending :
  summary (pset_balance (own_pset (origin 71 5)) wallet LIQUID) = Some ([(btc, -300)], [(btc, 50)], [Some 250]) /\
  summary (pset_balance (own_pset forged_origins) wallet LIQUID) = Some ([(btc, 700)], [(btc, 50)], [Some 250]) /\
  is_ok (get_details (Some wallet) LIQUID (own_pset forged_origins)) = true.
Proof. split_and!; vm_compute; reflexivity. Qed.
