(* ===== verification/Network.v ===== *)
(** * Networks

    [lwk_common/src/network.rs]: the networks a wallet can be on, with their policy asset,
    genesis block, address formats and names, and the heights of the dynamic federation that
    [lwk_wollet/src/pegin.rs] computes from them.

    The theorem: exactly the four networks that have a name of their own come back from their
    text; every other one is lost when it is serialised. *)

From S2P Require Import Prelude Encode Hex Block Address.

(** Hexadecimal constants. *)
Definition hx (s : string) : bytes := match from_hex (str s) with Ok l => l | Err _ => [] end.

Definition LIQUID_BTC : bytes :=
  Eval vm_compute in hx "6d521c38ec1ea15734ae22b7c46064412829c0d0579f0a713d1c04ede979026f".
Definition LIQUID_TESTNET_POLICY_ASSET : bytes :=
  Eval vm_compute in hx "499a818545f6bae39fc03b637f2a4e1e64e590cac1bc3a6f6d71aa4443654c14".
Definition LIQUID_REGTEST_POLICY_ASSET : bytes :=
  Eval vm_compute in hx "25b251070e29ca19043cf33ccd7324e2ddab03ecc4ae0b5e77c4fc0e5cf6c95a".
Definition GENESIS_LIQUID : bytes :=
  Eval vm_compute in hx "0360208a889692372c8d68b084a62efdf60ea1a359a04c94b20d223658276614".
Definition GENESIS_LIQUID_TESTNET : bytes :=
  Eval vm_compute in hx "c1b16ae24f2423aea2ea34552292793b5b5e82999a1eed81d56aee528eda71a7".
Definition GENESIS_LIQUID_REGTEST : bytes :=
  Eval vm_compute in hx "21cab1e5da4718ea140d9716931702422f0e6ad915c8d9b583cac2706b2a9000".

(** Ids are displayed with their bytes reversed. *)
Definition SEQUENTIA_POLICY_ASSET : bytes :=
  Eval vm_compute in rev (hx "c8eccacf0953e1931cd31e434d8319101cc36e6c38b0e2104d8687552fae3e40").
Definition SEQUENTIA_GENESIS : bytes :=
  Eval vm_compute in rev (hx "ddd11d54c87a2bd94400fd31ce05d8e1110bb4b78e7103f738342086fc4ea92e").

Record ElementsParams := mkElementsParams
  { ep_policy_asset : bytes;
    ep_genesis_hash : bytes;
    ep_address_params : AddressParams;
    ep_name : string }.

Record ElementsParamsBuilder := mkParamsBuilder
  { pb_policy_asset : option bytes;
    pb_genesis_hash : option bytes;
    pb_address_params : option AddressParams;
    pb_name : option string }.

Definition ParamsBuilder_new : ElementsParamsBuilder := mkParamsBuilder None None None None.
Definition with_policy_asset (a : bytes) (b : ElementsParamsBuilder) : ElementsParamsBuilder :=
  mkParamsBuilder (Some a) (pb_genesis_hash b) (pb_address_params b) (pb_name b).
Definition with_genesis_hash (h : bytes) (b : ElementsParamsBuilder) : ElementsParamsBuilder :=
  mkParamsBuilder (pb_policy_asset b) (Some h) (pb_address_params b) (pb_name b).
Definition with_address_params (p : AddressParams) (b : ElementsParamsBuilder) : ElementsParamsBuilder :=
  mkParamsBuilder (pb_policy_asset b) (pb_genesis_hash b) (Some p) (pb_name b).
Definition with_name (n : string) (b : ElementsParamsBuilder) : ElementsParamsBuilder :=
  mkParamsBuilder (pb_policy_asset b) (pb_genesis_hash b) (pb_address_params b) (Some n).
Definition params_build (b : ElementsParamsBuilder) : ElementsParams :=
  mkElementsParams (default LIQUID_REGTEST_POLICY_ASSET (pb_policy_asset b))
    (default GENESIS_LIQUID_REGTEST (pb_genesis_hash b)) (default ELEMENTS (pb_address_params b))
    (default "liquid-regtest"%string (pb_name b)).

Inductive Network :=
| Liquid
| TestnetLiquid
| CustomElements (params : ElementsParams).

Definition network_policy_asset (n : Network) : bytes :=
  match n with
  | Liquid => LIQUID_BTC
  | TestnetLiquid => LIQUID_TESTNET_POLICY_ASSET
  | CustomElements p => ep_policy_asset p
  end.

Definition network_genesis_hash (n : Network) : bytes :=
  match n with
  | Liquid => GENESIS_LIQUID
  | TestnetLiquid => GENESIS_LIQUID_TESTNET
  | CustomElements p => ep_genesis_hash p
  end.

Definition network_address_params (n : Network) : AddressParams :=
  match n with
  | Liquid => LIQUID
  | TestnetLiquid => LIQUID_TESTNET
  | CustomElements p => ep_address_params p
  end.

Definition sequentia_testnet : Network :=
  CustomElements (params_build (with_name "sequentia-testnet"%string
    (with_address_params SEQUENTIA_TESTNET
      (with_genesis_hash SEQUENTIA_GENESIS
        (with_policy_asset SEQUENTIA_POLICY_ASSET ParamsBuilder_new))))).

Definition default_regtest : Network := CustomElements (params_build ParamsBuilder_new).

(** [as_str], and [Display], which names the Liquid testnet differently. *)
Definition network_as_str (n : Network) : string :=
  match n with
  | Liquid => "liquid"
  | TestnetLiquid => "liquid-testnet"
  | CustomElements p => ep_name p
  end.

Definition network_to_string (n : Network) : string :=
  match n with
  | Liquid => "liquid"
  | TestnetLiquid => "testnet-liquid"
  | CustomElements p => ep_name p
  end.

Definition network_from_str (s : string) : option Network :=
  if String.eqb s "liquid" then Some Liquid
  else if String.eqb s "testnet-liquid" then Some TestnetLiquid
  else if String.eqb s "localtest-liquid" || String.eqb s "liquid-regtest" then Some default_regtest
  else if String.eqb s "sequentia-testnet" then Some sequentia_testnet
  else None.

Definition dynamic_epoch_length (n : Network) : Z :=
  match n with Liquid => 20160 | TestnetLiquid => 1000 | CustomElements _ => 10 end.

Definition total_valid_epochs (n : Network) : Z :=
  match n with Liquid => 2 | TestnetLiquid => 0 | CustomElements _ => 0 end.

(** ** [pegin.rs] *)

Definition height_with_fed_peg_script (n : Network) (current_tip : Z) : Z :=
  (current_tip / dynamic_epoch_length n) * dynamic_epoch_length n.

Definition params_fedpegscript (p : Params) : option bytes :=
  match p with ParamsFull f => Some (fedpegscript f) | _ => None end.

Definition fed_peg_script (h : BlockHeader) : option bytes :=
  match ext h with
  | Proof_ _ _ => None
  | Dynafed current _ _ => params_fedpegscript current
  end.

(** ** Text *)

(** A network is parsed back from its text (as [serde] does) exactly when it is one of the four
    named networks. *)
Theorem network_text_round_trip (n : Network) :
  network_from_str (network_to_string n) = Some n <->
  n = Liquid \/ n = TestnetLiquid \/ n = default_regtest \/ n = sequentia_testnet.
Proof.
  split; [|intros [->|[->|[->| ->]]]; reflexivity].
  destruct n as [| |p]; [auto..|]. cbn [network_to_string]. unfold network_from_str.
  destruct (String.eqb (ep_name p) "liquid"); [done|]. destruct (String.eqb (ep_name p) "testnet-liquid"); [done|].
  destruct (_ || _); [intros [= <-]; auto|]. destruct (String.eqb _ "sequentia-testnet"); [intros [= <-]; auto|done].
Qed.

(** The name that [as_str] gives the Liquid testnet is not one that can be parsed. *)
Theorem testnet_name_unparseable : network_from_str (network_as_str TestnetLiquid) = None.
Proof. reflexivity. Qed.

(** The height of the last full parameters: a multiple of the epoch, at most one epoch back. *)
Theorem fed_peg_height (n : Network) (tip : Z) :
  0 <= tip < 2 ^ 32 ->
  let h := height_with_fed_peg_script n tip in
  0 <= h <= tip /\ tip < h + dynamic_epoch_length n /\ h mod dynamic_epoch_length n = 0.
Proof.
  intros Ht h. assert (Hp : 0 < dynamic_epoch_length n) by (by destruct n).
  unfold h, height_with_fed_peg_script. pose proof (Z.div_mod tip (dynamic_epoch_length n)).
  pose proof (Z.mod_pos_bound tip (dynamic_epoch_length n)). pose proof (Z.div_pos tip (dynamic_epoch_length n)).
  rewrite Z.mod_mul by lia. nia.
Qed.

Lemma fed_peg_height_witness : height_with_fed_peg_script Liquid 2963521 = 2963520.
Proof.
  assert (H : 0 <= 2963521 < 2 ^ 32) by lia.
  destruct (fed_peg_height Liquid 2963521 H) as (_ & _ & _). vm_compute. reflexivity.
Defined.
