(* ===== verification/Wollet.v ===== *)
(** * The wallet: applying updates

    The state-changing half of [lwk_wollet/src/wollet.rs] and [update.rs]: applying an
    update or a transaction, [reunblind], and the views of the wallet ([utxos], [txos],
    [balance]).  The descriptor, whose derivations are done by [elements-miniscript],
    the unblinding of outputs and the status hash are parameters ([WolletEnv]). *)

From S2P Require Import Prelude Order Encode Script Timelocks Confidential Transaction TxMetrics Sighash Store Block Update Cache Address.

(** The three outcomes of deriving a blinding key from the descriptor: derived, no
    descriptor to derive from, another error. *)
Inductive derivation {S : Secp} : Type :=
| Derived (k : PublicKey)
| UnsupportedWithoutDescriptor
| DerivationError.

(** [WolletDescriptor], [TxOut::unblind] and [FxHasher], as the wallet uses them. *)
Class WolletEnv {S : Secp} :=
  { BlindingKey : Type;
    blinding_key_for_script : Script -> option BlindingKey;
    unblind : TxOut -> BlindingKey -> option TxOutSecrets;
    ct_blinding_pubkey : Chain -> Z -> derivation;
    policy_asset : AssetId;
    address_params : AddressParams;
    (** the hash of the ids, paths, scripts, heights, secrets, tip, timestamps and
        indexes of the cache *)
    fx_hash : gset bytes * gmap Script (Chain * ChildNumber) * gmap (Chain * ChildNumber) Script *
              gmap bytes (option Z) * gmap OutPoint TxOutSecrets * (Z * bytes) * gmap Z Z * Z * Z -> Z;
    fx_hash_u64 x : is_u64 (fx_hash x) }.

Section Wollet.
Context {P : Platform} {S : Secp} {H : Hashes} {J : JsonStrings} {E : WolletEnv}.
Context {W : Type} (txs_store : Store W) (utxo_only : bool).

(** [impl Hash for Cache], [Wollet::status]: unspent outputs and the order of the
    transactions are not hashed, blinding keys are left out. *)
Definition status (c : Cache) : Z :=
  fx_hash (txids c, paths c, fst <$> scripts c, heights c, unblinded c, tip c, cache_timestamps c,
           last_unused_external c, last_unused_internal c).

(** [try_unblind]. *)
Definition try_unblind (o : TxOut) : option TxOutSecrets :=
  match asset o, value o, nonce o with
  | AssetConfidential _, ValueConfidential _, NonceConfidential _ =>
      k ← blinding_key_for_script (script_pubkey o); unblind o k
  | AssetExplicit a, ValueExplicit v, _ => Some (mkSecrets a ZERO_TWEAK v ZERO_TWEAK)
  | _, _, _ => None
  end.

(** [compute_blinding_pubkey_if_missing]. *)
Fixpoint compute_blinding_pubkey_if_missing (l : list (Chain * ChildNumber * Script * option PublicKey))
  : result (list (Chain * ChildNumber * Script * option PublicKey)) wollet_error :=
  match l with
  | [] => Ok []
  | (chain, child, s, k) :: l =>
      let? k := match k with
                | Some k => Ok (Some k)
                | None => match ct_blinding_pubkey chain (child_to_u32 child) with
                          | Derived k => Ok (Some k)
                          | UnsupportedWithoutDescriptor => Ok None
                          | DerivationError => Err DescriptorError
                          end
                end in
      let? r := compute_blinding_pubkey_if_missing l in
      Ok ((chain, child, s, k) :: r)
  end.

(** ** Applying an update *)

(** The greatest index seen, as the loop keeps it. *)
Definition last_used (l : list Z) : option Z :=
  foldl (fun acc index => match acc with
                          | None => Some index
                          | Some last => if last <? index then Some index else acc
                          end) None l.

(** The indexes, on one chain, of the scripts the given transactions pay to. *)
Definition used_indexes (c : Cache) (chain : Chain) (l : list Transaction) : list Z :=
  omap (fun o => match paths c !! script_pubkey o with
                 | Some (ch, Normal index) => if decide (ch = chain) then Some index else None
                 | _ => None
                 end) (concat (map output l)).

Definition fetch_max (cur : Z) (last : option Z) : Z :=
  match last with Some i => Z.max cur (wrap_u32 (i + 1)) | None => cur end.

Definition set_tip (c : Cache) (x : Z * bytes) : Cache :=
  mkWCache (txids c) (paths c) (scripts c) (heights c) (sorted_txids c) (unspent c) (unblinded c) x
    (cache_timestamps c) (last_unused_external c) (last_unused_internal c).
Definition set_unblinded (c : Cache) (x : gmap OutPoint TxOutSecrets) : Cache :=
  mkWCache (txids c) (paths c) (scripts c) (heights c) (sorted_txids c) (unspent c) x (tip c)
    (cache_timestamps c) (last_unused_external c) (last_unused_internal c).
Definition set_last (c : Cache) (ts : gmap Z Z) (ext int : Z) : Cache :=
  mkWCache (txids c) (paths c) (scripts c) (heights c) (sorted_txids c) (unspent c) (unblinded c) (tip c)
    ts ext int.

(** The scripts of an update, into both maps. *)
Definition add_scripts (c : Cache) (l : list (Chain * ChildNumber * Script * option PublicKey)) : Cache :=
  mkWCache (txids c)
    (extend (paths c) (map (fun '(ch, ix, s, _) => (s, (ch, ix))) l))
    (extend (scripts c) (map (fun '(ch, ix, s, k) => ((ch, ix), (s, k))) l))
    (heights c) (sorted_txids c) (unspent c) (unblinded c) (tip c)
    (cache_timestamps c) (last_unused_external c) (last_unused_internal c).

(** The tip check and its effect; [None] is the panic of hashing a header without an
    anchor. *)
Definition block_hash (h : BlockHeader) : option bytes := sha256d <$> block_hash_preimage h.

Definition apply_tip (h : BlockHeader) (c : Cache) : option (result Cache wollet_error) :=
  if bool_decide (h <> default_blockheader) then
    if wrap_u32 (hdr_height h + 1) <? (tip c).1
    then Some (Err (UpdateHeightTooOld (hdr_height h) (tip c).1))
    else id ← block_hash h; Some (Ok (set_tip c (hdr_height h, id)))
  else Some (Ok c).

(** The derivation indexes: recorded in the update since version 4, read off the
    outputs of the transactions it mentions before. *)
Definition apply_last_unused (u : Update) (c : Cache) (w : W) : Cache :=
  let ts := extend (cache_timestamps c) (timestamps u) in
  if 4 <=? upd_version u then
    set_last c ts (Z.max (last_unused_external c) (lu_external (upd_last_unused u)))
      (Z.max (last_unused_internal c) (lu_internal (upd_last_unused u)))
  else
    let seen := omap (fun t => tx_as_fallback txs_store w t (txs (new_txs u)))
                  ((txid_height_new u).*1 ++ txid_height_delete u) in
    set_last c ts (fetch_max (last_unused_external c) (last_used (used_indexes c External seen)))
      (fetch_max (last_unused_internal c) (last_used (used_indexes c Internal seen))).

(** [Wollet::apply_update_inner].  What was changed before an error stays changed. *)
Definition apply_update_inner (u : Update) (c : Cache) (w : W)
  : option (result unit wollet_error * Cache * W) :=
  if negb (wollet_status u =? 0) && negb (status c =? wollet_status u)
  then Some (Err (UpdateOnDifferentStatus (status c) (wollet_status u)), c, w)
  else
    match compute_blinding_pubkey_if_missing (scripts_with_blinding_pubkey u) with
    | Err e => Some (Err e, c, w)
    | Ok scripts =>
        r ← apply_tip (upd_tip u) c;
        match r with
        | Err e => Some (Err e, c, w)
        | Ok c =>
            let c := set_unblinded c (extend (unblinded c) (unblinds (new_txs u))) in
            let c := add_scripts c scripts in
            match cache_update txs_store (txid_height_new u) (txid_height_delete u) (txs (new_txs u))
                    utxo_only (upd_unspent u) c w with
            | (Err e, c, w) => Some (Err e, c, w)
            | (Ok _, c, w) => Some (Ok tt, apply_last_unused u c w, w)
            end
        end
    end.

(** ** Views *)

Record WalletTxOut := mkWalletTxOut
  { wo_outpoint : OutPoint;
    wo_script_pubkey : Script;
    wo_height : option Z;
    wo_unblinded : TxOutSecrets;
    wo_wildcard_index : Z;
    wo_ext_int : Chain;
    wo_is_spent : bool;
    wo_address : Address }.

Definition is_explicit (s : TxOutSecrets) : bool :=
  bool_decide (asset_bf s = ZERO_TWEAK) && bool_decide (value_bf s = ZERO_TWEAK).

(** [Wollet::index]. *)
Definition index (c : Cache) (s : Script) : result (Chain * Z) wollet_error :=
  let? (ext_int, i) := ok_or (paths c !! s) ScriptNotMine in
  match i with
  | Normal i => Ok (ext_int, i)
  | Hardened _ => Err (Generic "unexpected hardened derivation")
  end.

Definition out_blinding_pubkey (c : Cache) (s : TxOutSecrets) (i : Chain * Z) : option PublicKey :=
  if negb (is_explicit s) then x ← scripts c !! (i.1, child_from_u32 i.2); x.2 else None.

(** [utxos_inner], with the [sequentia] feature: explicit outputs are wallet funds. *)
Definition utxo_of (c : Cache) (x : OutPoint * Script) : result WalletTxOut wollet_error :=
  let '(o, s) := x in
  let? unb := ok_or (unblinded c !! o) (Generic "missing unblinded") in
  let? i := ok_or (ok_opt (index c s)) (Generic "missing index") in
  let? a := ok_or (from_script s (out_blinding_pubkey c unb i) address_params)
              (Generic "invalid scriptpubkey") in
  Ok (mkWalletTxOut o s (mjoin (heights c !! txid o)) unb i.2 i.1 false a).

Definition utxos_inner (c : Cache) : result (list WalletTxOut) wollet_error :=
  rmapM (utxo_of c) (map_to_list (unspent c)).

(** [Wollet::utxos]: largest value first. *)
Definition utxos (c : Cache) : result (list WalletTxOut) wollet_error :=
  let? l := utxos_inner c in
  Ok (sort_by (cmp_rev (cmp_by (fun x => sec_value (wo_unblinded x)) Z.compare)) l).

(** [balance_from_utxos]; the sums wrap as [u64] additions do in release builds. *)
Definition balance_from_utxos (l : list WalletTxOut) : gmap AssetId Z :=
  foldl (fun r u => <[sec_asset (wo_unblinded u) :=
                      wrap_u64 (default 0 (r !! sec_asset (wo_unblinded u)) + sec_value (wo_unblinded u))]> r)
    {[policy_asset := 0]} l.

Definition balance (c : Cache) : result (gmap AssetId Z) wollet_error :=
  let? l := utxos c in Ok (balance_from_utxos l).

(** [impl Sub for Balance] ([lwk_common/src/balance.rs]): differences as [i64], zeroes
    dropped. *)
Definition balance_sub (x y : gmap AssetId Z) : gmap AssetId Z :=
  base.filter (fun '(_, v) => v <> 0)
    (base.merge (fun a b => match a, b with
                       | None, None => None
                       | _, _ => Some (wrap_i64 (wrap_i64 (default 0 a) - wrap_i64 (default 0 b)))
                       end) x y).

(** ** Applying a transaction *)

Definition enumerate_outputs (t : bytes) (tx : Transaction) : list (OutPoint * TxOut) :=
  imap (fun n o => (mkOutPoint t (Z.of_nat n), o)) (output tx).

(** The outputs of a transaction that pay to the wallet and that it can read. *)
Definition unblind_outputs (c : Cache) (t : bytes) (tx : Transaction) : list (OutPoint * TxOutSecrets) :=
  omap (fun '(op, o) =>
    if decide (is_Some (paths c !! script_pubkey o)) then s ← try_unblind o; Some (op, s) else None)
    (enumerate_outputs t tx).

(** The update that [apply_transaction_inner] applies. *)
Definition tx_update (tx : Transaction) (c : Cache) : Update :=
  let t := tx_txid tx in
  let unblinds := unblind_outputs c t tx in
  let unspent :=
    if utxo_only then
      let m := base.filter (fun '(o, _) => o ∉ prevouts tx) (unspent c) in
      let m := extend m (omap (fun '(op, o) =>
                 if decide (op ∈ unblinds.*1) then Some (op, script_pubkey o) else None)
                 (enumerate_outputs t tx)) in
      (map_to_list m).*1
    else [] in
  mkUpdate 4 (status c) (mkDownload [(t, tx)] unblinds) [(t, None)] [] [] [] default_blockheader unspent
    (mkLastUnused (last_unused_internal c) (last_unused_external c)).

(** [Wollet::reunblind], given the transactions of the store. *)
Definition reunblind (c : Cache) (w : W) : Cache * list OutPoint :=
  let found := concat (map (fun t =>
    match cache_tx txs_store w t with
    | Some tx => base.filter (fun x => unblinded c !! x.1 = None) (unblind_outputs c t tx)
    | None => []
    end) (elements (txids c))) in
  (set_unblinded c (extend (unblinded c) found), found.*1).
End Wollet.

(** ** The invariant *)

Section WolletInv.
Context {P : Platform} {S : Secp} {H : Hashes} {J : JsonStrings} {E : WolletEnv}.
Context {W : Type} (st : Store W) (K V : bytes -> Prop) (wf : W -> Prop) (view : W -> bytes -> option bytes).
Context (L : store_laws st K V wf view).
Context (Ktx : forall t, hash_wf t -> K (tx_key t)) (Kids : K TXIDS_KEY).

(** What the store knows of each transaction. *)
Definition ledger (w : W) := ledger_of (cache_tx st w).

(** The unspent outputs are those computed from scratch, the live transactions are in
    the store, and the list of transactions is the sorted list of the live ones. *)
Record wallet_inv (c : Cache) (w : W) : Prop :=
  { inv_store : wf w;
    inv_unspent : unspent c = utxo_set c (ledger w);
    inv_known t : t ∈ live c -> is_Some (ledger w t);
    inv_sorted : sorted_txids c = sort_by (txid_cmp (heights c)) (live c) }.

(** A successful application, step by step. *)
Lemma apply_update_inner_ok utxo_only u c w c' w' :
  apply_update_inner st utxo_only u c w = Some (Ok tt, c', w') ->
  (wollet_status u = 0 \/ status c = wollet_status u) /\
  exists sc c1 c2,
    compute_blinding_pubkey_if_missing (scripts_with_blinding_pubkey u) = Ok sc /\
    apply_tip (upd_tip u) c = Some (Ok c1) /\
    cache_update st (txid_height_new u) (txid_height_delete u) (txs (new_txs u)) utxo_only (upd_unspent u)
      (add_scripts (set_unblinded c1 (extend (unblinded c1) (unblinds (new_txs u)))) sc) w = (Ok tt, c2, w') /\
    c' = apply_last_unused st u c2 w'.
Proof.
  unfold apply_update_inner. case_match eqn:Es; [done|].
  destruct (compute_blinding_pubkey_if_missing _) as [sc|e] eqn:Esc; [|done].
  intros (r & Er & Hr)%bind_Some. destruct r as [c1|e]; [|done].
  destruct (cache_update _ _ _ _ _ _ _) as [[[[]|e] c2] w2] eqn:Eu; [|done].
  injection Hr as <- <-. split.
  - apply andb_false_iff in Es as [Es|Es]; apply negb_false_iff in Es; rewrite Z.eqb_eq in Es; auto.
  - eauto 10.
Qed.

Lemma apply_tip_ok h c c1 : apply_tip h c = Some (Ok c1) -> exists x, c1 = set_tip c x.
Proof.
  unfold apply_tip. repeat case_match; try done.
  - intros (id & _ & [= <-])%bind_Some. eauto.
  - intros [= <-]. exists (tip c). by destruct c.
Qed.

Lemma cache_update_ok new del l utxo_only us c w c' w' :
  cache_update st new del l utxo_only us c w = (Ok tt, c', w') ->
  exists c1, extend_all_txs st l c w = (Ok tt, c1, w') /\
    let c2 := rebuild_sorted_txids (update_heights c1 new del) in
    let look t := tx_as_fallback st w' t l in
    c' = if utxo_only then update_unspent_utxos_only c2 look us else update_unspent c2 look new del.
Proof.
  unfold cache_update. destruct (extend_all_txs st l c w) as [[[[]|e] c1] w1] eqn:Ex; [|done].
  intros [= <- <-]. by exists c1.
Qed.

Lemma put_txs_cache l c w r c' w' : put_txs st l c w = (r, c', w') -> exists x, c' = set_txids c x.
Proof.
  revert c w. induction l as [|[t tx] l IH]; intros c w; cbn [put_txs].
  - intros [= _ <- _]. exists (txids c). by destruct c.
  - destruct (put st (tx_key t) (encode_Transaction tx) w) as [[[]|e] w1].
    + intros [x ->]%IH. by exists x.
    + intros [= _ <- _]. exists (txids c). by destruct c.
Qed.

Lemma extend_all_txs_cache l c w r c' w' :
  extend_all_txs st l c w = (r, c', w') -> exists x, c' = set_txids c x.
Proof.
  unfold extend_all_txs. destruct (put_txs st l c w) as [[[[]|e] c1] w1] eqn:Ep;
    apply put_txs_cache in Ep as [x ->].
  - destruct (is_empty l); [intros [= _ <- _]; by eexists|].
    destruct (put st TXIDS_KEY _ w1) as [[[]|e] w2]; intros [= _ <- _]; by eexists.
  - intros [= _ <- _]. by eexists.
Qed.

(** The heights, the tip and the indexes after a successful application, whatever the
    store. *)
Lemma apply_update_heights utxo_only u c w c' w' :
  apply_update_inner st utxo_only u c w = Some (Ok tt, c', w') ->
  heights c' = heights (update_heights c (txid_height_new u) (txid_height_delete u)) /\
  (upd_tip u <> default_blockheader ->
   exists id, block_hash (upd_tip u) = Some id /\ tip c' = (hdr_height (upd_tip u), id)) /\
  (4 <= upd_version u ->
   last_unused_external c' = Z.max (last_unused_external c) (lu_external (upd_last_unused u)) /\
   last_unused_internal c' = Z.max (last_unused_internal c) (lu_internal (upd_last_unused u))).
Proof.
  intros (_ & sc & c1 & c2 & _ & Et & Hu & ->)%apply_update_inner_ok.
  apply cache_update_ok in Hu as (c3 & [x ->]%extend_all_txs_cache & ->).
  assert (Htip : (upd_tip u <> default_blockheader ->
    exists id, block_hash (upd_tip u) = Some id /\ tip c1 = (hdr_height (upd_tip u), id)) /\
    exists y, c1 = set_tip c y).
  { split; [|by eapply apply_tip_ok]. intros Hne. revert Et. unfold apply_tip. rewrite bool_decide_eq_true_2 by done.
    case_match; [done|]. intros (id & Eid & [= <-])%bind_Some. by exists id. }
  destruct Htip as [Htip [y ->]]. unfold apply_last_unused.
  destruct (Z.leb_spec 4 (upd_version u)), utxo_only; (split; [done|]); (split; [done|]); done || lia.
Qed.

(** The set computed from scratch sees the cache through these fields only. *)
Lemma utxo_set_ext c c' L1 L2 :
  heights c = heights c' -> unblinded c = unblinded c' -> paths c = paths c' ->
  (forall t, L1 t = L2 t) -> utxo_set c L1 = utxo_set c' L2.
Proof.
  intros Hh Hu Hp HL. apply map_eq. intros o. apply option_eq. intros s. rewrite !lookup_utxo_set.
  unfold live, own. rewrite Hh, Hu, Hp, (HL (txid o)). rewrite !elem_of_spent. by setoid_rewrite HL.
Qed.

(** Everything an application leaves behind that the invariant looks at. *)
Lemma apply_update_fields u c w c' w' :
  apply_update_inner st false u c w = Some (Ok tt, c', w') -> wf w ->
  txs_agree st (txs (new_txs u)) w ->
  wf w' /\
  heights c' = heights (update_heights c (txid_height_new u) (txid_height_delete u)) /\
  unblinded c' = extend (unblinded c) (unblinds (new_txs u)) /\
  (forall s, is_Some (paths c !! s) -> is_Some (paths c' !! s)) /\
  (forall t x, ledger w t = Some x -> ledger w' t = Some x) /\
  sorted_txids c' = sort_by (txid_cmp (heights c')) (live c') /\
  exists c2 look, (forall t, ledger_of look t = ledger w' t) /\
    unspent c2 = unspent c /\ heights c2 = heights c' /\ unblinded c2 = unblinded c' /\
    paths c2 = paths c' /\
    unspent c' = unspent (update_unspent c2 look (txid_height_new u) (txid_height_delete u)).
Proof using Kids Ktx L.
  intros Ha Hw A. apply apply_update_inner_ok in Ha as (_ & sc & c1 & c3 & _ & Et & Hu & ->).
  apply apply_tip_ok in Et as [x ->]. apply cache_update_ok in Hu as (c4 & Hx & ->).
  destruct (stored_ledger st K V wf view L Ktx Kids _ _ _ _ _ Hx Hw A) as [Hgrow Hlook].
  assert (Hl : Forall (fun x => hash_wf x.1) (txs (new_txs u))).
  { apply Forall_forall. intros [t tx] Hin. by apply A in Hin as [? _]. }
  destruct (extend_all_txs_ok st K V wf view L Ktx Kids _ _ _ _ _ Hx Hw Hl) as (Hw' & -> & _).
  unfold apply_last_unused.
  set (look := fun t => tx_as_fallback st w' t (txs (new_txs u))) in *.
  split; [done|].
  destruct (4 <=? upd_version u); (split; [done|]); (split; [done|]);
    (split; [intros s Hs; apply extend_lookup_is_Some; by right|]); (split; [done|]);
    (split; [done|]);
    (eexists (rebuild_sorted_txids (update_heights _ (txid_height_new u) (txid_height_delete u))), look;
     split; [done|]; split_and!; [| | | |reflexivity]; reflexivity).
Qed.

(** The scripts an update brings stay known. *)
Lemma wallet_inv_step u c w c' w' :
  wallet_inv c w -> apply_update_inner st false u c w = Some (Ok tt, c', w') ->
  txs_agree st (txs (new_txs u)) w ->
  coherent c c' (ledger w) (ledger w') (txid_height_new u).*1 (txid_height_delete u) ->
  wallet_inv c' w'.
Proof using Kids Ktx L.
  intros [Hw Hun Hk Hs] Ha A C.
  destruct (apply_update_fields u c w c' w' Ha Hw A)
    as (Hw' & Hh & Hub & Hpa & Hgr & Hsort & c2 & look & HL & E1 & E2 & E3 & E4 & Eun).
  assert (Hown : forall o, own c2 (ledger_of look) o = own c' (ledger w') o).
  { intros o. unfold own. by rewrite E3, E4, HL. }
  split; [done| | |done].
  - rewrite Eun. rewrite (update_unspent_refines c c2 (ledger w) look); [|done|done|done|congruence| |].
    + by apply utxo_set_ext.
    + split.
      * intros t x Hx. rewrite HL. by apply Hgr.
      * intros o Ho. rewrite E3, Hub. apply extend_lookup_is_Some. by right.
      * intros s Hs'. rewrite E4. by apply Hpa.
    + assert (Hsp : forall o l, o ∈ spent (ledger_of look) l <-> o ∈ spent (ledger w') l).
      { intros o l. rewrite !elem_of_spent. by setoid_rewrite HL. }
      destruct C as [C1 C2 C3 C4 C5 C6]. split.
      * done.
      * intros t Ht. rewrite HL. by apply C2.
      * intros o s. rewrite Hown. apply C3.
      * intros t x o. rewrite HL, Hown. apply C4.
      * intros t x o. rewrite HL, Hown, Hsp. apply C5.
      * intros o. rewrite Hsp, Hown. apply C6.
  - intros t Ht.
    assert (Hlive : t ∈ live (update_heights c (txid_height_new u) (txid_height_delete u)))
      by (unfold live; by rewrite <-Hh).
    apply live_update in Hlive as [Hn|[Hc _]]; [by apply (coh_known _ _ _ _ _ _ C)|].
    destruct (Hk t Hc) as [x Hx]. exists x. by apply Hgr.
Qed.

(** ** Reachable states *)

(** What can happen to a wallet that follows its chain: it reads back the ids of the
    stored transactions, it applies a coherent update, or it refuses an update. *)
Inductive wallet_step : Cache * W -> Cache * W -> Prop :=
| step_load c w : wallet_step (c, w) (add_txids_from_txs_store st c w, w)
| step_apply u c w c' w' :
    apply_update_inner st false u c w = Some (Ok tt, c', w') ->
    txs_agree st (txs (new_txs u)) w ->
    coherent c c' (ledger w) (ledger w') (txid_height_new u).*1 (txid_height_delete u) ->
    wallet_step (c, w) (c', w')
| step_refuse u c w e :
    apply_update_inner st false u c w = Some (Err e, c, w) -> wallet_step (c, w) (c, w).

Lemma wallet_inv_init w : wf w -> wallet_inv Cache_default w.
Proof.
  intros Hw. split; [done| |by intros t; rewrite elem_of_live; intros []|done].
  apply map_eq. intros o. apply option_eq. intros s. rewrite lookup_utxo_set, elem_of_live.
  cbn [heights Cache_default]. rewrite !lookup_empty. split; [done|]. by intros [[] _].
Qed.

Lemma wallet_inv_wallet_step x y : wallet_step x y -> wallet_inv x.1 x.2 -> wallet_inv y.1 y.2.
Proof using Kids Ktx L.
  intros Hs HI. destruct Hs as [c w|u c w c' w' Ha HA HC|u c w e Ha]; simpl in *; [|by eapply wallet_inv_step|done].
  destruct HI as [Hw Hu Hk Hs]. split; [done| |done|done].
  simpl. rewrite Hu. by apply utxo_set_ext.
Qed.

(** C1: in every state the wallet reaches from the empty cache, by loading, applying
    coherent updates and refusing others, the unspent outputs it maintains incrementally
    are those computed from scratch (the unblinded outputs to its scripts in its live
    transactions that no live transaction spends), every live transaction is in the
    store, and the list of transactions is the sorted list of the live ones. *)
Theorem wallet_reachable_inv w0 c w :
  wf w0 -> rtc wallet_step (Cache_default, w0) (c, w) -> wallet_inv c w.
Proof using Kids Ktx L.
  intros Hw Hr. change (wallet_inv (c, w).1 (c, w).2).
  assert (HI : wallet_inv (Cache_default, w0).1 (Cache_default, w0).2) by by apply wallet_inv_init.
  induction Hr as [|x y z Hs _ IH]; [done|]. apply IH. by eapply wallet_inv_wallet_step.
Qed.
End WolletInv.

(** ** Samples *)

Module WolletSample.
Export StoreSample.

(** A stand-in for the JSON text of a list of strings: every byte escaped, every string
    terminated. *)
Definition esc (s : bytes) : bytes := concat (map (fun b => [Byte.x01; b]) s) ++ [Byte.x00].

Fixpoint unesc (cur : bytes) (l : bytes) : option (list bytes) :=
  match l with
  | [] => Some []
  | Byte.x00 :: l => r ← unesc [] l; Some (cur :: r)
  | Byte.x01 :: b :: l => unesc (cur ++ [b]) l
  | _ => None
  end.

Lemma unesc_esc cur s l : unesc cur (esc s ++ l) = r ← unesc [] l; Some ((cur ++ s) :: r).
Proof.
  revert cur. induction s as [|b s IH]; intros cur; simpl; [by rewrite app_nil_r|].
  unfold esc in IH. rewrite IH, <-app_assoc. done.
Qed.

Program Definition JsonStrings_model : JsonStrings :=
  {| json_to_vec l := concat (map esc l); json_from_slice := unesc [] |}.
Next Obligation. induction l as [|s l IH]; simpl; [done|]. by rewrite unesc_esc, IH. Qed.
#[export] Existing Instance JsonStrings_model.

Definition lbtc : bytes := hash Byte.x5a.

(** A descriptor with explicit outputs only; a status that counts what the cache holds. *)
Program Definition WolletEnv_model : WolletEnv :=
  {| BlindingKey := unit;
     blinding_key_for_script _ := None;
     unblind _ _ := None;
     ct_blinding_pubkey _ _ := UnsupportedWithoutDescriptor;
     policy_asset := lbtc;
     address_params := LIQUID;
     fx_hash '(ids, _, _, hs, unb, _, _, _, _) :=
       wrap_u64 (1 + Z.of_nat (base.size ids) + 1000 * Z.of_nat (base.size hs) + 1000000 * Z.of_nat (base.size unb)) |}.
Next Obligation. intros [[[[[[[[ids ?] ?] hs] unb] ?] ?] ?] ?]. unfold wrap_u64. apply Z.mod_pos_bound. lia. Qed.
#[export] Existing Instance WolletEnv_model.

(** The scripts of the wallet, two of which are used, and a foreign one. *)
Definition sample_spk (chain : Chain) (i : Z) : Script :=
  [Byte.x00; Byte.x14; match chain with External => Byte.x01 | Internal => Byte.x02 end] ++ le_bytes 19 i.
Definition mine0 : Script := sample_spk External 0.
Definition mine1 : Script := sample_spk Internal 0.
Definition theirs : Script := [Byte.x00; Byte.x14; Byte.x03] ++ le_bytes 19 7.

Definition pay (s : Script) (v : Z) : TxOut :=
  mkTxOut (AssetExplicit lbtc) (ValueExplicit v) NonceNull s TxOutWitness_empty.
Definition spend (o : OutPoint) : TxIn :=
  mkTxIn o false [] Sequence_MAX AssetIssuance_null TxInWitness_empty.

(** [parent] pays the wallet 100; [child] spends that output and returns 60. *)
Definition parent : Transaction :=
  mkTransaction 2 (LockTime_from_consensus 0) [spend (mkOutPoint (hash Byte.x77) 3)]
    [pay mine0 100; pay theirs 5; pay [] 1].
Definition parent_id : bytes := Eval vm_compute in tx_txid parent.
Definition child : Transaction :=
  mkTransaction 2 (LockTime_from_consensus 0) [spend (mkOutPoint parent_id 0)]
    [pay theirs 39; pay mine1 60; pay [] 1].
Definition child_id : bytes := Eval vm_compute in tx_txid child.

Definition sample_scripts : list (Chain * ChildNumber * Script * option PublicKey) :=
  [(External, Normal 0, mine0, None); (Internal, Normal 0, mine1, None)].

(** The updates that bring the two transactions, and one that confirms the parent. *)
Definition secrets (v : Z) : TxOutSecrets := mkSecrets lbtc ZERO_TWEAK v ZERO_TWEAK.
Definition upd_parent : Update :=
  mkUpdate 4 0 (mkDownload [(parent_id, parent)] [(mkOutPoint parent_id 0, secrets 100)])
    [(parent_id, None)] [] [] sample_scripts default_blockheader [] (mkLastUnused 0 1).
Definition upd_child : Update :=
  mkUpdate 4 0 (mkDownload [(child_id, child)] [(mkOutPoint child_id 1, secrets 60)])
    [(child_id, None)] [] [] [] default_blockheader [] (mkLastUnused 1 1).
Definition upd_confirm : Update :=
  mkUpdate 4 0 (mkDownload [] []) [(parent_id, Some 10)] [] [] [] default_blockheader []
    (mkLastUnused 1 1).

(** The cache and the store after an update; the same cache when it fails. *)
Definition applied (u : Update) (x : Cache * gmap bytes bytes) : Cache * gmap bytes bytes :=
  match apply_update_inner memory_store false u x.1 x.2 with
  | Some (_, c, w) => (c, w)
  | None => x
  end.

Definition state0 : Cache * gmap bytes bytes := (Cache_default, ∅).
Definition state1 : Cache * gmap bytes bytes := applied upd_parent state0.
Definition state2 : Cache * gmap bytes bytes := applied upd_child state1.

Definition apply_ok (u : Update) (x : Cache * gmap bytes bytes) : bool :=
  match apply_update_inner memory_store false u x.1 x.2 with
  | Some (Ok _, _, _) => true
  | _ => false
  end.

Lemma applied_ok u x :
  apply_ok u x = true ->
  apply_update_inner memory_store false u x.1 x.2 = Some (Ok tt, (applied u x).1, (applied u x).2).
Proof.
  unfold apply_ok, applied. destruct (apply_update_inner _ _ _ _ _) as [[[[[]|e] c] w]|]; done.
Qed.

Lemma applied_step u x :
  apply_ok u x = true -> txs_agree memory_store (txs (new_txs u)) x.2 ->
  coherent x.1 (applied u x).1 (ledger memory_store x.2) (ledger memory_store (applied u x).2)
    (txid_height_new u).*1 (txid_height_delete u) ->
  wallet_step memory_store x (applied u x).
Proof.
  intros Hok%applied_ok HA HC. rewrite (surjective_pairing x) at 1. rewrite (surjective_pairing (applied u x)).
  by eapply step_apply.
Qed.

Lemma parent_tx_wf : Transaction_wf parent.
Proof.
  split; [done|]. split; [done|].
  repeat (cbn; first [done | split | apply List.Forall_cons | apply List.Forall_nil |
    right; split; [done|by intros (? & ? & ?)]]).
Defined.

Lemma child_tx_wf : Transaction_wf child.
Proof.
  split; [done|]. split; [done|].
  repeat (cbn; first [done | split | apply List.Forall_cons | apply List.Forall_nil |
    right; split; [done|by intros (? & ? & ?)]]).
Defined.

(** A first update, and one that announces a single new transaction. *)
Lemma agree_single t tx w :
  hash_wf t -> Transaction_wf tx -> bool_decide (is_Some (cache_tx memory_store w t)) = false ->
  txs_agree memory_store [(t, tx)] w.
Proof.
  intros Ht Hwf Hn%bool_decide_eq_false%eq_None_not_Some. split.
  - intros t' tx' [= -> ->]%list_elem_of_singleton. done.
  - intros t' tx' tx'' [= -> ->]%list_elem_of_singleton [= ->]%list_elem_of_singleton. done.
  - intros t' tx' tx'' [= -> ->]%list_elem_of_singleton. by rewrite Hn.
Qed.

Lemma step1 : wallet_step memory_store state0 state1.
Proof.
  apply (applied_step upd_parent); [vm_compute; reflexivity|apply agree_single; [done|apply parent_tx_wf|done]|].
  split; try (intros ? ? ? [[]%elem_of_nil _]); try (intros ? ? [[]%elem_of_nil _]).
  - intros t _ []%elem_of_nil.
  - intros t ->%list_elem_of_singleton. vm_compute. by eexists.
  - intros o []%elem_of_nil.
Qed.

Lemma live1 : live state1.1 = [parent_id].
Proof. vm_compute. reflexivity. Qed.

Lemma unblinded2 o : is_Some (unblinded state2.1 !! o) -> o = mkOutPoint parent_id 0 \/ o = mkOutPoint child_id 1.
Proof.
  intros Ho. apply elem_of_keys in Ho.
  assert (E : (map_to_list (unblinded state2.1)).*1 = [mkOutPoint parent_id 0; mkOutPoint child_id 1]
           \/ (map_to_list (unblinded state2.1)).*1 = [mkOutPoint child_id 1; mkOutPoint parent_id 0])
    by (vm_compute; auto).
  destruct E as [E|E]; rewrite E in Ho; clear E;
    apply elem_of_cons in Ho as [->|Ho%list_elem_of_singleton]; auto.
Qed.

Lemma step2_coherent :
  coherent state1.1 state2.1 (ledger memory_store state1.2) (ledger memory_store state2.2) [child_id] [].
Proof.
  assert (Hk : forall t, kept state1.1 [child_id] [] t -> t = parent_id).
  { intros t [Ht _]. rewrite live1 in Ht. by apply list_elem_of_singleton in Ht. }
  split.
  - intros t _ []%elem_of_nil.
  - intros t ->%list_elem_of_singleton. vm_compute. by eexists.
  - intros o s Ho%Hk Hs.
    assert (Hu : is_Some (unblinded state2.1 !! o)) by (revert Hs; unfold own; by case_decide).
    apply unblinded2 in Hu as [->| ->]; [|done]. revert Hs. vm_compute. done.
  - intros t x o ->%Hk Ex Ho Hn. exfalso. revert Ex. vm_compute. intros [= <-]. simpl in Ho.
    apply list_elem_of_singleton in Ho as ->. apply list_elem_of_singleton in Hn. done.
  - intros t x o _ _ _ []%elem_of_nil.
  - intros o []%elem_of_nil.
Qed.

Lemma step2 : wallet_step memory_store state1 state2.
Proof.
  apply (applied_step upd_child); [vm_compute; reflexivity|apply agree_single; [done|apply child_tx_wf|]|].
  { vm_compute. reflexivity. }
  exact step2_coherent.
Qed.

Lemma state2_inv : wallet_inv memory_store (fun _ => True) state2.1 state2.2.
Proof.
  pose proof (wallet_inv_wallet_step memory_store (fun _ => True) (fun _ => True) (fun _ => True)
    (fun m k => m !! k) memory_laws (fun _ _ => I) I) as Hstep.
  apply (Hstep state1), (Hstep state0); [exact step2|exact step1|]. by apply wallet_inv_init.
Qed.
End WolletSample.
Import WolletSample.

Lemma wallet_reachable_inv_witness :
  wallet_inv memory_store (fun _ => True) state2.1 state2.2 /\
  unspent state2.1 !! mkOutPoint child_id 1 = Some mine1 /\ unspent state2.1 !! mkOutPoint parent_id 0 = None.
Proof.
  split.
  - apply (wallet_reachable_inv memory_store (fun _ => True) (fun _ => True) (fun _ => True) (fun m k => m !! k)
             memory_laws (fun _ _ => I) I ∅); [done|].
    eapply rtc_l; [exact step1|]. eapply rtc_l; [exact step2|]. apply rtc_refl.
  - split; vm_compute; reflexivity.
Defined.
