(* ===== verification/Persister.v ===== *)
(** * Persistence of updates

    [UpdatesPersister] and [Wollet::restore_updates] of [lwk_wollet/src/update.rs],
    [Wollet::apply_update] and [WolletBuilder::build]: every applied update is written to a store under an
    index, updates that only move the tip are coalesced, past a threshold all are merged into one, and a
    restarted wallet replays them.

    The state of the persister is its next index and the world of its store; an
    operation returns [None] where the code panics. *)

From S2P Require Import Prelude Order Encode Script Confidential Transaction TxMetrics Sighash Store Block Update Cache Address Wollet.

Definition UPDATE_KEY_LEN : nat := 12.

Definition update_key (index : nat) : bytes := dec_padded UPDATE_KEY_LEN (Z.of_nat index).

(** ** Operations with a state, errors and panics *)

Definition Op (X A : Type) : Type := X -> option (result A wollet_error * X).

Definition op_ret {X A} (a : A) : Op X A := fun x => Some (Ok a, x).
Definition op_fail {X A} (e : wollet_error) : Op X A := fun x => Some (Err e, x).
Definition op_bind {X A B} (m : Op X A) (k : A -> Op X B) : Op X B :=
  fun x => match m x with
           | None => None
           | Some (Err e, x) => Some (Err e, x)
           | Some (Ok a, x) => k a x
           end.

Notation "a <== m ;; k" := (op_bind m (fun a => k))
  (at level 100, m at next level, right associativity) : swk_scope.

Section Persister.
Context {P : Platform} {S : Secp} {H : Hashes} {J : JsonStrings} {A : Heap} {E : WolletEnv}.
Context {U : Type} (updates_store : Store U) (merge_threshold : option nat).

(** The next index and the store. *)
Abbreviation PState := (nat * U)%type.

Definition get_update (index : nat) : Op PState (option Update) := fun '(n, u) =>
  match get updates_store (update_key index) u with
  | Err _ => Some (Err (Generic "store error"), (n, u))
  | Ok None => Some (Ok None, (n, u))
  | Ok (Some b) =>
      match Update_deserialize b with
      | None => None
      | Some (Err e) => Some (Err (EncodeError e), (n, u))
      | Some (Ok upd) => Some (Ok (Some upd), (n, u))
      end
  end.

Definition set_update (index : nat) (upd : Update) : Op PState unit := fun '(n, u) =>
  match encode_Update upd with
  | None => None
  | Some b =>
      match put updates_store (update_key index) b u with
      | (Ok _, u) => Some (Ok tt, (n, u))
      | (Err _, u) => Some (Err (Generic "store error"), (n, u))
      end
  end.

Definition remove_update (index : nat) : Op PState unit := fun '(n, u) =>
  match remove updates_store (update_key index) u with
  | (Ok _, u) => Some (Ok tt, (n, u))
  | (Err _, u) => Some (Err (Generic "store error"), (n, u))
  end.

(** The loops of [merge_updates]: over [i .. i + k], and down from [k]. *)
Definition expect_update (i : nat) : Op PState Update :=
  o <== get_update i;;
  match o with
  | Some upd => op_ret upd
  | None => op_fail (Generic "expected update to exist")
  end.

Fixpoint merge_from (k : nat) (i : nat) (merged : Update) : Op PState Update :=
  match k with
  | O => op_ret merged
  | Datatypes.S k => upd <== expect_update i;; merge_from k (Datatypes.S i) (merge merged upd)
  end.

Fixpoint remove_down (k : nat) : Op PState unit :=
  match k with
  | O => op_ret tt
  | Datatypes.S k => _ <== remove_update k;; remove_down k
  end.

Definition merge_updates (next_index : nat) : Op PState nat :=
  match merge_threshold with
  | Some threshold =>
      if (threshold <? next_index)%nat then
        first <== expect_update 0;;
        merged <== merge_from (next_index - 1) 1 first;;
        _ <== remove_down next_index;;
        _ <== set_update 0 merged;;
        op_ret 1%nat
      else op_ret next_index
  | None => op_ret next_index
  end.

(** [read]: all the stored updates. *)
Fixpoint read_from (fuel : nat) (i : nat) : Op PState (list Update) :=
  match fuel with
  | O => fun _ => None
  | Datatypes.S fuel =>
      o <== get_update i;;
      match o with
      | Some upd => l <== read_from fuel (Datatypes.S i);; op_ret (upd :: l)
      | None => op_ret []
      end
  end.

(** An update that only moves the tip takes the place of one that does. *)
Definition coalesce (prev upd : Update) : Update :=
  mkUpdate (upd_version upd) (wollet_status prev) (new_txs upd) (txid_height_new upd)
    (txid_height_delete upd) (timestamps prev ++ timestamps upd) (scripts_with_blinding_pubkey upd)
    (upd_tip upd) (upd_unspent upd) (upd_last_unused upd).

Definition set_next (n : nat) : Op PState unit := fun '(_, u) => Some (Ok tt, (n, u)).

(** The stored update that a new one is coalesced with, if any: a failure to read it is
    ignored. *)
Definition coalescible (upd : Update) : Op PState (option Update) := fun x =>
  if only_tip upd && (0 <? x.1)%nat then
    match get_update (x.1 - 1) x with
    | None => None
    | Some (Ok (Some prev), x) => Some (Ok (if only_tip prev then Some prev else None), x)
    | Some (_, x) => Some (Ok None, x)
    end
  else Some (Ok None, x).

Definition next_index : Op PState nat := fun x => Some (Ok x.1, x).

Definition persist (upd : Update) (txs_store_is_persisted : bool) : Op PState unit :=
  n <== next_index;;
  o <== coalescible upd;;
  match o with
  | Some prev => set_update (n - 1) (coalesce prev upd)
  | None =>
      let upd := if txs_store_is_persisted then set_txs upd [] else upd in
      _ <== set_update n upd;;
      _ <== set_next (Datatypes.S n);;
      n <== merge_updates (Datatypes.S n);;
      set_next n
  end.

(** ** The wallet *)

Context {W : Type} (txs_store : Store W) (utxo_only : bool).

(** The cache, the transactions, and the persister. *)
Abbreviation WState := (Cache * W * PState)%type.

Definition on_wallet (upd : Update) : Op WState unit := fun '(c, w, p) =>
  match apply_update_inner txs_store utxo_only upd c w with
  | None => None
  | Some (r, c, w) => Some (r, (c, w, p))
  end.

Definition on_persister {X} (m : Op PState X) : Op WState X := fun '(c, w, p) =>
  match m p with
  | None => None
  | Some (r, p) => Some (r, (c, w, p))
  end.

(** [apply_update]: applied, then written. *)
Definition apply_update (upd : Update) : Op WState unit :=
  _ <== on_wallet upd;; on_persister (persist upd (is_persisted txs_store)).

(** [apply_transaction] and [apply_transaction_no_persist]: the change of the balance. *)
Definition wallet_balance : Op WState (gmap AssetId Z) := fun '(c, w, p) => Some (balance c, (c, w, p)).
Definition wallet_tx_update (tx : Transaction) : Op WState Update := fun '(c, w, p) =>
  Some (Ok (tx_update utxo_only tx c), (c, w, p)).

Definition apply_transaction_inner (tx : Transaction) (skip_persist : bool) : Op WState (gmap AssetId Z) :=
  initial <== wallet_balance;;
  upd <== wallet_tx_update tx;;
  _ <== on_wallet upd;;
  _ <== (if skip_persist then op_ret tt else on_persister (persist upd (is_persisted txs_store)));;
  final <== wallet_balance;;
  op_ret (balance_sub final initial).

(** [restore_updates]. *)
Fixpoint restore_from (fuel : nat) (i : nat) : Op WState unit :=
  match fuel with
  | O => fun _ => None
  | Datatypes.S fuel =>
      o <== on_persister (get_update i);;
      match o with
      | Some upd => _ <== on_wallet upd;; restore_from fuel (Datatypes.S i)
      | None => on_persister (n <== merge_updates i;; set_next n)
      end
  end.

Definition load_txids : Op WState unit := fun '(c, w, p) =>
  Some (Ok tt, (add_txids_from_txs_store txs_store c w, w, p)).

(** [WolletBuilder::build], on stores already wrapped. *)
Definition build (fuel : nat) : Op WState unit :=
  if is_persisted txs_store && negb (bool_decide (merge_threshold = Some 1%nat))
  then op_fail (Generic "If txs store is persited, merge threshold must be 1")
  else _ <== restore_from fuel 0;; load_txids.
End Persister.

(** ** The log of updates *)

Lemma update_key_inj i j :
  is_u64 (Z.of_nat i) -> is_u64 (Z.of_nat j) -> update_key i = update_key j -> i = j.
Proof. intros Hi Hj E%dec_padded_inj; [lia|done|done]. Qed.

Lemma op_bind_ok {X A B} (m : Op X A) (k : A -> Op X B) x b y :
  op_bind m k x = Some (Ok b, y) <-> exists a z, m x = Some (Ok a, z) /\ k a z = Some (Ok b, y).
Proof. unfold op_bind. destruct (m x) as [[[a|e] z]|]; naive_solver. Qed.

Section Log.
Context {P : Platform} {S : Secp} {H : Hashes} {J : JsonStrings} {A : Heap} {E : WolletEnv}.
Context {U : Type} (st : Store U) (threshold : option nat).
Context (K V : bytes -> Prop) (wf : U -> Prop) (view : U -> bytes -> option bytes).
Context (L : store_laws st K V wf view).
Context (Kup : forall i, is_u64 (Z.of_nat i) -> K (update_key i)) (HV : forall b, V b).

(** The store holds exactly these updates, under the indexes from 0 on. *)
Record holds (u : U) (l : list Update) : Prop :=
  { holds_wf : wf u;
    holds_view i : is_u64 (Z.of_nat i) -> view u (update_key i) = l !! i ≫= encode_Update;
    holds_updates : Forall Update_wf l }.

Lemma encode_Update_inj x y b : Update_wf x -> Update_wf y -> encode_Update x = Some b -> encode_Update y = Some b -> x = y.
Proof.
  intros Hx Hy Ex Ey. pose proof (decode_encode_Update x b [] Hx Ex) as E1.
  rewrite (decode_encode_Update y b [] Hy Ey) in E1. congruence.
Qed.

(** A store holds one log at most. *)
Lemma holds_inj u l l' : holds u l -> Z.of_nat (length l) < u64_max -> holds u l' -> l' = l.
Proof.
  intros [_ Hv Hl] Hb [_ Hv' Hl']. unfold u64_max in Hb.
  assert (Hsome : forall k i x, Forall Update_wf k -> k !! i = Some x -> is_Some (k !! i ≫= encode_Update)).
  { intros k i x Hk Hx. rewrite Hx. simpl. apply encode_Update_total. rewrite Forall_lookup in Hk.
    specialize (Hk i x Hx). apply Hk. }
  assert (Hlen : (length l' <= length l)%nat).
  { destruct (decide (length l' <= length l)%nat) as [|Hgt]; [done|]. exfalso.
    destruct (lookup_lt_is_Some_2 l' (length l)) as [x Hx]; [lia|].
    destruct (Hsome l' (length l) x Hl' Hx) as [b Eb]. rewrite <-Hv', Hv in Eb by lia.
    by rewrite lookup_ge_None_2 in Eb by lia. }
  apply list_eq. intros i. destruct (decide (i < length l)%nat) as [Hi|Hi].
  - destruct (lookup_lt_is_Some_2 l i Hi) as [x Hx]. destruct (Hsome l i x Hl Hx) as [b Eb].
    specialize (Hv i ltac:(lia)). rewrite <-Hv, Hv' in Eb by lia.
    destruct (l' !! i) as [x'|] eqn:Ex'; [|done]. rewrite Hx. f_equal.
    rewrite Hv' in Hv by lia. rewrite Hx, Ex' in Hv. simpl in Hv, Eb. rewrite Forall_lookup in Hl, Hl'.
    eapply encode_Update_inj; [by eapply Hl'|by eapply Hl|exact Eb|congruence].
  - rewrite !lookup_ge_None_2; [done|lia|lia].
Qed.

(** What one call of [persist] makes of the log. *)
Definition merge_all (l : list Update) : list Update :=
  match l with
  | [] => []
  | upd :: r => [foldl merge upd r]
  end.

Definition merged_log (l : list Update) : list Update :=
  match threshold with
  | Some t => if (t <? length l)%nat then merge_all l else l
  | None => l
  end.

Definition persisted_log (persisted : bool) (l : list Update) (upd : Update) : list Update :=
  let appended := merged_log (l ++ [if persisted then set_txs upd [] else upd]) in
  match last l with
  | Some prev => if only_tip upd && only_tip prev then take (length l - 1) l ++ [coalesce prev upd] else appended
  | None => appended
  end.

Lemma get_update_ok n u l i :
  holds u l -> is_u64 (Z.of_nat i) -> get_update st i (n, u) = Some (Ok (l !! i), (n, u)).
Proof using Kup L.
  intros [Hw Hv Hl] Hi. unfold get_update. rewrite (law_get L) by auto. rewrite Hv by done.
  destruct (l !! i) as [upd|] eqn:Ei; simpl; [|done].
  rewrite Forall_lookup in Hl. specialize (Hl i upd Ei).
  destruct (encode_Update_total upd) as [b Eb]; [by apply Hl|]. rewrite Eb.
  unfold Update_deserialize. rewrite <-(app_nil_r b), (decode_encode_Update upd b []); done.
Qed.

Lemma holds_put u l i upd b u' :
  holds u l -> (i <= length l)%nat -> Z.of_nat (length l) < u64_max -> Update_wf upd ->
  encode_Update upd = Some b -> put st (update_key i) b u = (Ok tt, u') ->
  holds u' (take i l ++ upd :: drop (Datatypes.S i) l).
Proof using Kup L.
  intros [Hw Hv Hl] Hi Hb Hupd Eb Ep. unfold u64_max in Hb.
  destruct (law_put L _ _ _ _ _ Hw (Kup i ltac:(lia)) Ep) as [Hw' Hv']. split; [done| |].
  - intros j Hj. rewrite Hv' by auto. cbn [is_ok]. unfold upd_view. case_decide as Ej.
    + apply update_key_inj in Ej as ->; [|lia|lia]. rewrite list_lookup_middle; [done|]. rewrite length_take. lia.
    + rewrite Hv by done. assert (i <> j) by (intros ->; done).
      f_equal. destruct (decide (j < i)%nat).
      * rewrite lookup_app_l by (rewrite length_take; lia). by rewrite lookup_take_lt.
      * rewrite lookup_app_r by (rewrite length_take; lia). rewrite length_take.
        replace (j - min i (length l))%nat with (Datatypes.S (j - i - 1)) by lia. simpl.
        rewrite lookup_drop. f_equal. lia.
  - apply Forall_app. split; [by apply Forall_take|]. constructor; [done|by apply Forall_drop].
Qed.

Lemma set_update_ok n u l i upd :
  holds u l -> (i <= length l)%nat -> Z.of_nat (length l) < u64_max -> Update_wf upd ->
  exists u', set_update st i upd (n, u) = Some (Ok tt, (n, u')) /\ holds u' (take i l ++ upd :: drop (Datatypes.S i) l).
Proof using Kup L HV.
  intros Hh Hi Hb Hupd. destruct (encode_Update_total upd) as [b Eb]; [by apply Hupd|].
  unfold set_update. rewrite Eb. unfold u64_max in Hb.
  destruct (law_put_ok L (update_key i) b u) as (u' & Ep & _); [by apply Hh|apply Kup; lia|apply HV|].
  exists u'. rewrite Ep. split; [done|]. by eapply holds_put.
Qed.

Lemma remove_last_ok n u l upd :
  holds u (l ++ [upd]) -> Z.of_nat (length l) < u64_max ->
  exists u', remove_update st (length l) (n, u) = Some (Ok tt, (n, u')) /\ holds u' l.
Proof using Kup L.
  intros [Hw Hv Hl] Hb. unfold u64_max in Hb. unfold remove_update.
  destruct (law_remove L (update_key (length l)) u) as (u' & -> & Hw' & Hv'); [done|apply Kup; lia|].
  exists u'. split; [done|]. split; [done| |by apply Forall_app in Hl as [? _]].
  intros j Hj. rewrite Hv' by auto. unfold upd_view. case_decide as Ej.
  - apply update_key_inj in Ej as ->; [|lia|lia]. by rewrite lookup_ge_None_2 by lia.
  - rewrite Hv by done. assert (j <> length l) by (intros ->; done). f_equal.
    destruct (decide (j < length l)%nat); [by rewrite lookup_app_l|].
    rewrite !lookup_ge_None_2; [done|lia|]. rewrite length_app. simpl. lia.
Qed.

Lemma remove_down_ok n l : forall u,
  holds u l -> Z.of_nat (length l) < u64_max ->
  exists u', remove_down st (length l) (n, u) = Some (Ok tt, (n, u')) /\ holds u' [].
Proof using Kup L.
  induction l as [|upd l IH] using rev_ind; intros u Hh Hb; [by exists u|].
  rewrite length_app in *. simpl in *. rewrite Nat.add_1_r. cbn [remove_down].
  destruct (remove_last_ok n u l upd Hh) as (u1 & E1 & H1); [unfold u64_max in *; lia|].
  destruct (IH u1 H1) as (u2 & E2 & H2); [unfold u64_max in *; lia|].
  exists u2. unfold op_bind. by rewrite E1.
Qed.

Lemma merge_from_ok n u l r i merged :
  holds u l -> drop i l = r -> Z.of_nat (length l) < u64_max -> (i <= length l)%nat ->
  merge_from st (length r) i merged (n, u) = Some (Ok (foldl merge merged r), (n, u)).
Proof using Kup L.
  intros Hh Er Hb Hi. unfold u64_max in Hb. revert i merged Er Hi.
  induction r as [|upd r IH]; intros i merged Er Hi; [done|]. cbn [length merge_from].
  assert (Ei : l !! i = Some upd) by (rewrite <-(Nat.add_0_r i), <-lookup_drop, Er; done).
  apply lookup_lt_Some in Ei as Hlt. unfold op_bind, expect_update, op_bind.
  rewrite (get_update_ok n u l i) by (done || lia). rewrite Ei. unfold op_ret at 1. simpl. apply IH; [|lia].
  by rewrite <-Nat.add_1_r, <-drop_drop, Er.
Qed.

Lemma merge_updates_ok n u l :
  holds u l -> Z.of_nat (length l) < u64_max -> l <> [] -> Forall Update_wf (merged_log l) ->
  exists u', merge_updates st threshold (length l) (n, u) = Some (Ok (length (merged_log l)), (n, u')) /\
    holds u' (merged_log l).
Proof using Kup L HV.
  intros Hh Hb Hne Hm. unfold merge_updates, merged_log in *. destruct threshold as [t|]; [|by exists u].
  destruct (t <? length l)%nat; [|by exists u]. destruct l as [|upd r]; [done|].
  unfold op_bind at 1, expect_update, op_bind at 1. rewrite (get_update_ok n u _ 0 Hh) by done. cbn [lookup list_lookup].
  unfold op_ret at 1, op_bind at 1. replace (length (upd :: r) - 1)%nat with (length r) by (simpl; lia).
  rewrite (merge_from_ok n u (upd :: r) r 1 upd Hh) by (done || simpl; lia). unfold op_bind at 1.
  destruct (remove_down_ok n (upd :: r) u Hh Hb) as (u1 & -> & H1). unfold op_bind at 1.
  destruct (set_update_ok n u1 [] 0 (foldl merge upd r) H1) as (u2 & -> & H2); [done|done|by apply Forall_inv in Hm|].
  by exists u2.
Qed.

Lemma set_txs_wf upd : Update_wf upd -> Update_wf (set_txs upd []).
Proof.
  intros (H1 & H2 & H3 & [_ H4] & Hrest). split; [exact H1|]. split; [exact H2|]. split; [exact H3|].
  split; [|exact Hrest]. split; [|exact H4]. by split.
Qed.

Lemma coalescible_ok u l upd :
  holds u l -> Z.of_nat (length l) < u64_max ->
  coalescible st upd (length l, u) =
    Some (Ok (if only_tip upd then prev ← last l; if only_tip prev then Some prev else None else None), (length l, u)).
Proof using Kup L.
  intros Hh Hb. unfold coalescible. cbn [fst]. destruct (only_tip upd); [|done]. cbn [andb].
  destruct l as [|x l _] using rev_ind; [done|]. rewrite last_snoc, length_app. cbn [length].
  destruct (Nat.ltb_spec 0 (length l + 1)); [|lia]. rewrite Nat.add_sub.
  rewrite (get_update_ok _ u (l ++ [x])); [|done|rewrite length_app in Hb; unfold u64_max in Hb; simpl in Hb; lia].
  by rewrite list_lookup_middle.
Qed.

Lemma persist_ok u l upd persisted :
  holds u l -> Z.of_nat (length l) + 1 < u64_max -> Update_wf upd ->
  Forall Update_wf (persisted_log persisted l upd) ->
  exists u', persist st threshold upd persisted (length l, u) =
      Some (Ok tt, (length (persisted_log persisted l upd), u')) /\
    holds u' (persisted_log persisted l upd).
Proof using Kup L HV.
  intros Hh Hb Hupd Hwf. unfold persist, op_bind at 1, next_index. cbn [fst]. unfold op_bind at 1.
  rewrite (coalescible_ok u l upd Hh) by (unfold u64_max in *; lia).
  unfold persisted_log in *.
  set (appended := merged_log (l ++ [if persisted then set_txs upd [] else upd])) in *.
  assert (Happ : Forall Update_wf appended ->
    exists u', (_ <== set_update st (length l) (if persisted then set_txs upd [] else upd);;
      _ <== set_next (Datatypes.S (length l));; n <== merge_updates st threshold (Datatypes.S (length l));; set_next n)
      (length l, u) = Some (Ok tt, (length appended, u')) /\ holds u' appended).
  { intros Hap. unfold op_bind at 1.
    destruct (set_update_ok (length l) u l (length l) (if persisted then set_txs upd [] else upd) Hh)
      as (u1 & -> & H1); [lia|unfold u64_max in *; lia| |].
    { destruct persisted; [by apply set_txs_wf|done]. }
    rewrite firstn_all, drop_ge in H1 by lia. unfold op_bind, set_next.
    assert (Hlen : length (l ++ [if persisted then set_txs upd [] else upd]) = Datatypes.S (length l))
      by (rewrite length_app; simpl; lia).
    rewrite <-Hlen.
    edestruct (merge_updates_ok) as (u2 & -> & H2); [exact H1|rewrite Hlen; unfold u64_max in *; lia|by destruct l|done|].
    by exists u2. }
  destruct (last l) as [prev|] eqn:El; simpl; [|by destruct (only_tip upd); apply Happ].
  destruct (only_tip upd); cbn [andb] in *; [|by apply Happ].
  destruct (only_tip prev) eqn:Ep; [|by apply Happ].
  assert (Hl : l <> []) by by intros ->.
  assert (Hlen : (0 < length l)%nat) by (destruct l; simpl; [done|lia]).
  destruct (set_update_ok (length l) u l (length l - 1) (coalesce prev upd) Hh)
    as (u1 & -> & H1); [lia|unfold u64_max in *; lia|by apply Forall_app in Hwf as [_ ?%Forall_inv]|].
  exists u1. rewrite drop_ge in H1 by lia. split; [|done].
  do 3 f_equal. rewrite length_app, length_take. simpl. lia.
Qed.

(** C26: the store behind the persister implements a log of updates.  If it holds the log
    [l] under the indexes from 0 on, persisting a further update succeeds and leaves it
    holding the specified log: the update is appended (without its transactions when
    those are stored elsewhere), or takes the place of the last one when both only move
    the tip, and past the threshold the log is merged into one update; the index of the
    next update is the length of the log. *)
Theorem persist_refines u l upd persisted :
  holds u l -> Z.of_nat (length l) + 1 < u64_max -> Update_wf upd ->
  Forall Update_wf (persisted_log persisted l upd) ->
  exists u', persist st threshold upd persisted (length l, u) =
      Some (Ok tt, (length (persisted_log persisted l upd), u')) /\
    holds u' (persisted_log persisted l upd).
Proof using Kup L HV. apply persist_ok. Qed.
End Log.

(** ** Restarting *)

Section Restart.
Context {P : Platform} {S : Secp} {H : Hashes} {J : JsonStrings} {A : Heap} {E : WolletEnv}.
Context {W : Type} (tst : Store W) (utxo_only : bool).

(** A cache whose tip, timestamps and indexes moved. *)
Definition moved (u : Update) (c : Cache) : Cache :=
  let v4 := 4 <=? upd_version u in
  mkWCache (txids c) (paths c) (scripts c) (heights c) (sort_by (txid_cmp (heights c)) (live c))
    (if utxo_only then ∅ else unspent c) (unblinded c) (tip c)
    (extend (cache_timestamps c) (timestamps u))
    (if v4 then Z.max (last_unused_external c) (lu_external (upd_last_unused u)) else last_unused_external c)
    (if v4 then Z.max (last_unused_internal c) (lu_internal (upd_last_unused u)) else last_unused_internal c).

Lemma filter_all {K' V'} `{Countable K'} (Q : K' * V' -> Prop) `{forall x, Decision (Q x)} (m : gmap K' V') :
  (forall x, Q x) -> base.filter Q m = m.
Proof. intros HQ. by apply map_filter_id. Qed.

Lemma update_unspent_nil c look : update_unspent c look [] [] = set_unspent c (unspent c).
Proof.
  unfold update_unspent. cbn [fmap list_fmap]. f_equal. unfold inputs_of. cbn.
  rewrite (filter_all _ _) by (intros [o s]; apply not_elem_of_nil).
  rewrite (filter_all _ _) by (intros [o s]; apply not_elem_of_nil).
  replace (base.filter (fun o : OutPoint => txid o ∈ []) (map_to_list (unblinded c)).*1) with (@nil OutPoint); [done|].
  symmetry. induction ((map_to_list (unblinded c)).*1) as [|o l IH]; [done|].
  rewrite filter_cons_False; [done|apply not_elem_of_nil].
Qed.

Lemma only_tip_fields u :
  only_tip u = true ->
  txs (new_txs u) = [] /\ unblinds (new_txs u) = [] /\ txid_height_new u = [] /\ txid_height_delete u = [] /\
  scripts_with_blinding_pubkey u = [] /\ upd_unspent u = [].
Proof.
  unfold only_tip. intros Ho. repeat (apply andb_prop in Ho as [Ho ?]).
  repeat match goal with H : is_empty ?l = true |- _ => destruct l; [clear H|discriminate H] end. done.
Qed.

(** What applying an update that only moves the tip does. *)
Lemma apply_only_tip u c w :
  only_tip u = true ->
  apply_update_inner tst utxo_only u c w =
    if negb (wollet_status u =? 0) && negb (status c =? wollet_status u)
    then Some (Err (UpdateOnDifferentStatus (status c) (wollet_status u)), c, w)
    else r ← apply_tip (upd_tip u) c;
         match r with
         | Err e => Some (Err e, c, w)
         | Ok c1 => Some (Ok tt, moved u c1, w)
         end.
Proof.
  intros (E1 & E2 & E3 & E4 & E5 & E6)%only_tip_fields. unfold apply_update_inner.
  rewrite E1, E2, E3, E4, E5, E6. case_match; [done|]. cbn [compute_blinding_pubkey_if_missing].
  destruct (apply_tip (upd_tip u) c) as [[c1|e]|]; [|done|done]. cbn [mbind option_bind].
  unfold cache_update, extend_all_txs. cbn [put_txs is_empty].
  assert (Hh : forall c0 : Cache, update_heights c0 [] [] = c0).
  { intros []. unfold update_heights, set_heights. cbn. f_equal.
    apply filter_all. intros [k v]. apply not_elem_of_nil. }
  rewrite Hh. do 2 f_equal. f_equal. unfold apply_last_unused. rewrite E1, E3, E4. unfold moved.
  destruct utxo_only; [|rewrite update_unspent_nil]; destruct (4 <=? upd_version u), c1; reflexivity.
Qed.

(** Coalescing is not sound when the chain gets shorter twice.  Two updates that only
    move the tip, each one block down, are both accepted by a wallet at height [h + 2];
    the update that is stored in their place is refused by the same wallet, so that a
    wallet that is restarted fails to replay its log. *)
Theorem coalesced_rollback_refused prev u c w h id1 id2 :
  only_tip prev = true -> only_tip u = true -> wollet_status prev = 0 -> wollet_status u = 0 ->
  0 < h < u32_max - 2 -> (tip c).1 = h + 2 ->
  hdr_height (upd_tip prev) = h + 1 -> hdr_height (upd_tip u) = h ->
  block_hash (upd_tip prev) = Some id1 -> block_hash (upd_tip u) = Some id2 ->
  (exists c1 c2, apply_update_inner tst utxo_only prev c w = Some (Ok tt, c1, w) /\
     apply_update_inner tst utxo_only u c1 w = Some (Ok tt, c2, w) /\ tip c2 = (h, id2)) /\
  apply_update_inner tst utxo_only (coalesce prev u) c w = Some (Err (UpdateHeightTooOld h (h + 2)), c, w).
Proof.
  intros Hp Hu Sp Su Hh Ht Hhp Hhu Hid1 Hid2. unfold u32_max in Hh.
  assert (Hco : only_tip (coalesce prev u) = true) by (revert Hu; done).
  assert (Hreal : forall b, 0 < hdr_height b -> b <> default_blockheader) by (intros b Hb ->; done).
  rewrite !apply_only_tip by done. cbn [wollet_status coalesce upd_tip]. rewrite Sp. cbn [Z.eqb negb andb].
  unfold apply_tip at 1. rewrite bool_decide_eq_true_2 by (apply Hreal; lia). rewrite Ht, Hhp, Hid1.
  rewrite wrap_u32_small by lia. destruct (Z.ltb_spec (h + 1 + 1) (h + 2)); [lia|]. cbn [mbind option_bind]. split.
  - eexists _, _. split; [reflexivity|]. rewrite apply_only_tip, Su by done. cbn [Z.eqb negb andb].
    unfold apply_tip. rewrite bool_decide_eq_true_2 by (apply Hreal; lia). cbn [tip moved set_tip fst].
    rewrite Hhu, Hid2, wrap_u32_small by lia. destruct (Z.ltb_spec (h + 1) (h + 1)); [lia|]. done.
  - unfold apply_tip. rewrite bool_decide_eq_true_2 by (apply Hreal; lia).
    rewrite Hhu, Ht, wrap_u32_small by lia. destruct (Z.ltb_spec (h + 1) (h + 2)); [done|lia].
Qed.

(** Replaying a log of updates. *)
Fixpoint replay (l : list Update) (c : Cache) (w : W) : option (Cache * W) :=
  match l with
  | [] => Some (c, w)
  | u :: l => match apply_update_inner tst utxo_only u c w with
              | Some (Ok _, c, w) => replay l c w
              | _ => None
              end
  end.

Lemma replay_app l1 l2 c w : replay (l1 ++ l2) c w = x ← replay l1 c w; replay l2 x.1 x.2.
Proof.
  revert c w. induction l1 as [|u l1 IH]; intros c w; [done|]. cbn [replay app].
  destruct (apply_update_inner tst utxo_only u c w) as [[[[x|e] c'] w']|]; [apply IH|done|done].
Qed.

(** An update that only moves the tip moves it up, and no index down. *)
Definition forward (c : Cache) (u : Update) : Prop :=
  only_tip u = true ->
  upd_tip u <> default_blockheader /\ (tip c).1 <= hdr_height (upd_tip u) < u32_max /\ 4 <= upd_version u /\
  last_unused_external c <= lu_external (upd_last_unused u) /\
  last_unused_internal c <= lu_internal (upd_last_unused u).

(** Under that condition, coalescing is applying one update after the other. *)
Lemma apply_coalesced prev u c0 w c w1 c' w' :
  only_tip prev = true -> only_tip u = true -> forward c u ->
  0 <= hdr_height (upd_tip prev) -> 0 <= hdr_height (upd_tip u) ->
  apply_update_inner tst utxo_only prev c0 w = Some (Ok tt, c, w1) ->
  apply_update_inner tst utxo_only u c w1 = Some (Ok tt, c', w') ->
  apply_update_inner tst utxo_only (coalesce prev u) c0 w = Some (Ok tt, c', w').
Proof.
  intros Hp Hu Hf H0p H0u. destruct (Hf Hu) as (Hnd & Hh & Hv & He & Hi).
  assert (Hco : only_tip (coalesce prev u) = true).
  { revert Hu. unfold only_tip. done. }
  rewrite !apply_only_tip by done. cbn [wollet_status coalesce upd_tip].
  destruct (negb (wollet_status prev =? 0) && _); [done|].
  intros (r1 & E1 & Er1)%bind_Some. destruct r1 as [c1|e1]; [|done]. injection Er1 as <- <-.
  case_match; [done|]. intros (r2 & E2 & Er2)%bind_Some. destruct r2 as [c2|e2]; [|done]. injection Er2 as <- <-.
  unfold apply_tip in *. rewrite bool_decide_eq_true_2 in E2 by done. rewrite bool_decide_eq_true_2 by done.
  destruct (_ <? (tip (moved prev c1)).1) eqn:Elt; [done|]. apply bind_Some in E2 as (id & Eid & E2).
  injection E2 as <-. rewrite Eid.
  unfold u32_max in *.
  assert (Htip : (tip c0).1 <= hdr_height (upd_tip u) + 1 /\ exists x, c1 = set_tip c0 x).
  { case_bool_decide as Hd.
    - destruct (_ <? (tip c0).1) eqn:Elt1; [done|]. apply Z.ltb_ge in Elt1.
      apply bind_Some in E1 as (id1 & Eid1 & E1). injection E1 as <-. cbn [tip moved set_tip fst] in Hh.
      split; [|by eexists]. pose proof (Z.mod_le (hdr_height (upd_tip prev) + 1) 4294967296).
      unfold wrap_u32 in Elt1. lia.
    - injection E1 as <-. cbn [tip moved] in Hh. split; [lia|]. exists (tip c0). by destruct c0. }
  destruct Htip as [Htip [x ->]].
  destruct (Z.ltb_spec (wrap_u32 (hdr_height (upd_tip u) + 1)) (tip c0).1) as [Hbad|_].
  { rewrite wrap_u32_small in Hbad by lia. lia. }
  cbn [mbind option_bind]. do 2 f_equal. f_equal. unfold moved, set_tip in *.
  cbn [upd_version coalesce timestamps upd_last_unused txids paths scripts heights live unspent unblinded tip
    cache_timestamps last_unused_external last_unused_internal] in *. unfold live.
  cbn [heights]. destruct (Z.leb_spec 4 (upd_version u)); [|lia].
  rewrite extend_app. f_equal.
  - by destruct utxo_only.
  - destruct (4 <=? upd_version prev); lia.
  - destruct (4 <=? upd_version prev); lia.
Qed.

(** ** A restarted wallet *)

Context {U : Type} (ust : Store U).
Context (K V : bytes -> Prop) (wf : U -> Prop) (view : U -> bytes -> option bytes).
Context (L : store_laws ust K V wf view).
Context (Kup : forall i, is_u64 (Z.of_nat i) -> K (update_key i)) (HV : forall b, V b).
Context (Htst : is_persisted tst = false).

Abbreviation WState := (Cache * W * (nat * U))%type.

(** A life of the wallet: updates are applied and written, each within the bounds of
    what can be written and read. *)
Inductive lives : WState -> WState -> Prop :=
| lives_apply upd l c w n u y :
    apply_update ust None tst utxo_only upd (c, w, (n, u)) = Some (Ok tt, y) ->
    Update_wf upd -> forward c upd ->
    holds wf view u l -> Forall Update_wf (persisted_log None false l upd) -> Z.of_nat (length l) + 1 < u64_max ->
    lives (c, w, (n, u)) y.

(** The log replays to the state of the wallet. *)
Definition logged (w0 : W) (x : WState) : Prop :=
  exists l, holds wf view x.2.2 l /\ x.2.1 = length l /\ replay l Cache_default w0 = Some x.1.

(** The log after a step. *)
Lemma apply_update_log upd l c w u y :
  apply_update ust None tst utxo_only upd (c, w, (length l, u)) = Some (Ok tt, y) ->
  Update_wf upd -> holds wf view u l -> Forall Update_wf (persisted_log None false l upd) ->
  Z.of_nat (length l) + 1 < u64_max ->
  apply_update_inner tst utxo_only upd c w = Some (Ok tt, y.1.1, y.1.2) /\
  holds wf view y.2.2 (persisted_log None false l upd) /\ y.2.1 = length (persisted_log None false l upd).
Proof using Kup L HV Htst.
  intros Ha Hwf Hh Hlog Hlen.
  unfold apply_update in Ha. apply op_bind_ok in Ha as ([] & [[c1 w1] p1] & E1 & E2). unfold on_wallet in E1.
  destruct (apply_update_inner tst utxo_only upd c w) as [[[r c2] w2]|]; [|done].
  injection E1 as -> -> -> <-. unfold on_persister in E2. rewrite Htst in E2.
  destruct (persist_ok ust None K V wf view L Kup HV u l upd false Hh Hlen Hwf Hlog) as (u' & Ep & Hh').
  rewrite Ep in E2. by injection E2 as <-.
Qed.

Lemma Update_height upd : Update_wf upd -> 0 <= hdr_height (upd_tip upd).
Proof. intros (_ & _ & _ & _ & _ & _ & _ & _ & Hh & _). apply Hh. Qed.

Lemma replay_snoc l u c0 w0 c w c' w' :
  replay l c0 w0 = Some (c, w) -> apply_update_inner tst utxo_only u c w = Some (Ok tt, c', w') ->
  replay (l ++ [u]) c0 w0 = Some (c', w').
Proof. intros Hl Hu. rewrite replay_app, Hl. simpl. by rewrite Hu. Qed.

Lemma replay_snoc_inv l u c0 w0 c' w' :
  replay (l ++ [u]) c0 w0 = Some (c', w') ->
  exists c w, replay l c0 w0 = Some (c, w) /\ apply_update_inner tst utxo_only u c w = Some (Ok tt, c', w').
Proof.
  rewrite replay_app. intros ([c w] & El & Eu)%bind_Some. exists c, w. split; [done|]. simpl in Eu.
  destruct (apply_update_inner tst utxo_only u c w) as [[[[[]|e] c1] w1]|]; [|done|done]. by injection Eu as <- <-.
Qed.

Lemma lives_logged w0 x y : lives x y -> logged w0 x -> logged w0 y.
Proof using Kup L HV Htst.
  intros [upd l c w n u y' Ha Hwf Hf Hh Hlog Hlen] (l' & Hh' & Hn & Hr). simpl in *. subst n.
  assert (l' = l) as -> by (eapply holds_inj; [exact Hh|unfold u64_max in *; lia|exact Hh']). clear Hh'.
  apply (apply_update_log upd l) in Ha as (Ea & Hl' & Hn); [|done..]. exists (persisted_log None false l upd).
  split; [done|]. split; [done|]. destruct y' as [[c1 w1] p1]. cbn [fst snd] in *.
  assert (Happ : replay (l ++ [upd]) Cache_default w0 = Some (c1, w1)) by by eapply replay_snoc.
  unfold persisted_log in *. destruct (last l) as [prev|] eqn:El; [|done].
  destruct (only_tip upd && only_tip prev) eqn:Eo; [|done]. apply andb_prop in Eo as [Eu Eprev].
  apply last_Some in El as [l0 ->].
  rewrite length_app in *. simpl in *. rewrite Nat.add_sub, take_app_length.
  apply replay_snoc_inv in Hr as (c0 & w00 & Hr0 & Hprev). eapply replay_snoc; [exact Hr0|].
  eapply apply_coalesced; [done|done|done| | |exact Hprev|done].
  - apply Update_height. destruct Hh as [_ _ Hall]. by apply Forall_app in Hall as [_ ?%Forall_inv].
  - by apply Update_height.
Qed.

Lemma lives_star w0 x y : rtc lives x y -> logged w0 x -> logged w0 y.
Proof using Kup L HV Htst. induction 1 as [|x y z Hs _ IH]; [done|]. intros Hx. by eapply IH, lives_logged. Qed.

(** [restore_updates] replays the log. *)
Lemma restore_from_ok fuel : forall i l c w c' w' n u,
  holds wf view u l -> Z.of_nat (length l) < u64_max -> (i <= length l)%nat -> (length l - i < fuel)%nat ->
  replay (drop i l) c w = Some (c', w') ->
  restore_from ust None tst utxo_only fuel i (c, w, (n, u)) = Some (Ok tt, (c', w', (length l, u))).
Proof using Kup L.
  induction fuel as [|fuel IH]; intros i l c w c' w' n u Hh Hb Hi Hfuel Hr; [lia|]. unfold u64_max in *.
  cbn [restore_from]. unfold op_bind at 1, on_persister at 1.
  rewrite (get_update_ok ust K V wf view L Kup n u l i Hh) by lia.
  destruct (l !! i) as [upd|] eqn:Ei.
  - rewrite (drop_S l upd i Ei) in Hr. cbn [replay] in Hr. unfold op_bind at 1, on_wallet at 1.
    destruct (apply_update_inner tst utxo_only upd c w) as [[[[[]|e] c1] w1]|]; [|done|done].
    apply lookup_lt_Some in Ei. apply IH; [done|lia|lia|lia|done].
  - apply lookup_ge_None in Ei. assert (i = length l) as -> by lia.
    rewrite drop_ge in Hr by lia. injection Hr as -> ->. done.
Qed.

(** C13: a wallet that persists its updates survives a restart, when merging of updates is off
    (no merge threshold) and the store of transactions is not persisted.  Starting from an
    empty wallet and an empty log, well-formed updates are applied and written, as fewer than
    [u64::MAX] entries, since one that only moves the tip is coalesced with such an entry
    before it.  Updates that only move the tip are of version 4 or later, carry a header that
    is not the default one, and lower neither the tip nor the last unused indices.  Then
    building the wallet again from the store of updates and a fresh transaction store succeeds
    and gives the same cache, transactions and next index; the ids of the stored transactions
    are added to the cache.  (With merging on, outputs can be lost:
    [merge_loses_restored_outputs].) *)
Theorem restart_restores w0 u0 c w n u fuel :
  holds wf view u0 [] -> rtc lives (Cache_default, w0, (0%nat, u0)) (c, w, (n, u)) ->
  Z.of_nat n < u64_max -> (n < fuel)%nat ->
  build ust None tst utxo_only fuel (Cache_default, w0, (0%nat, u)) =
    Some (Ok tt, (add_txids_from_txs_store tst c w, w, (n, u))).
Proof using Kup L HV Htst.
  intros H0 Hr Hn Hfuel.
  destruct (lives_star w0 _ _ Hr) as (l & Hh & En & Hrep); [by exists []|]. simpl in *. subst n.
  unfold build. rewrite Htst. cbn [andb].
  unfold op_bind. rewrite (restore_from_ok fuel 0 l Cache_default w0 c w) by (done || lia). done.
Qed.
End Restart.

(** ** Samples *)

Module PersisterSample.
Export WolletSample UpdateSample.

(** A block of the given height, and the update that only moves the tip to it. *)
Definition block_at (height : Z) : BlockHeader :=
  mkHeader 2 (hash Byte.x01) (hash Byte.x02) (1700000000 + 60 * height) height (Proof_ [] [])
    (Some (800000, hash Byte.x03)).
Definition upd_tip_to (height : Z) : Update :=
  mkUpdate 4 0 (mkDownload [] []) [] [] [(height, 1700000000 + 60 * height)] [] (block_at height) []
    (mkLastUnused 1 1).
(** The parent transaction, seen at a tip. *)
Definition upd_parent_at (height : Z) : Update :=
  mkUpdate 4 0 (new_txs upd_parent) [(parent_id, Some height)] [] [] sample_scripts (block_at height) []
    (mkLastUnused 1 1).

Definition Stores : Type := Cache * gmap bytes bytes * (nat * gmap bytes bytes).

Definition fresh : Stores := (Cache_default, ∅, (0%nat, ∅)).

Definition applied_all (l : list Update) (x : Stores) : option (result unit wollet_error * Stores) :=
  foldr (fun upd k x => match apply_update memory_store None memory_store false upd x with
                        | Some (Ok _, y) => k y
                        | r => r
                        end) (fun x => Some (Ok tt, x)) l x.

Definition stores (r : option (result unit wollet_error * Stores)) : Stores :=
  match r with Some (_, x) => x | None => fresh end.

Definition rebuilt (x : Stores) : option (result unit wollet_error * Stores) :=
  build memory_store None memory_store false 10 (Cache_default, ∅, (0%nat, x.2.2)).

Lemma block_at_wf height : 0 <= height < 2 ^ 20 -> BlockHeader_wf (block_at height).
Proof. intros Hh. unfold BlockHeader_wf, block_at. cbn. repeat split; cbn; try done; lia. Qed.

Lemma upd_tip_to_wf height : 0 <= height < 2 ^ 20 -> Update_wf (upd_tip_to height).
Proof.
  intros Hh. unfold Update_wf. cbn. split_and!; try done; try lia; try (by constructor); try (by split; [constructor|]).
  - repeat constructor; cbn; lia.
  - by apply block_at_wf.
Qed.

Lemma coalesced_wf a b :
  0 <= a < 2 ^ 20 -> 0 <= b < 2 ^ 20 -> Update_wf (coalesce (upd_tip_to a) (upd_tip_to b)).
Proof.
  intros Ha Hb. unfold Update_wf. cbn. split_and!; try done; try lia; try (by constructor); try (by split; [constructor|]).
  - repeat constructor; cbn; lia.
  - by apply block_at_wf.
Qed.

Lemma upd_parent_at_wf height : 0 <= height < 2 ^ 20 -> Update_wf (upd_parent_at height).
Proof.
  intros Hh. unfold Update_wf. cbn. split_and!; try done; try lia; try (by constructor); try (by split; [constructor|]).
  - split; (split; [|done]); apply Forall_singleton; [|by repeat split].
    split; [apply parent_tx_wf|vm_compute; reflexivity].
  - apply Forall_singleton. split; [done|]. cbn. unfold u32_max. lia.
  - repeat constructor; try done; lia.
  - by apply block_at_wf.
Qed.
End PersisterSample.
Import PersisterSample.

Lemma persist_refines_witness :
  exists u', persist memory_store (Some 1%nat) (upd_tip_to 101) false (0%nat, ∅) = Some (Ok tt, (1%nat, u')) /\
    holds (fun _ => True) (fun m k => m !! k) u' [upd_tip_to 101].
Proof.
  assert (Hwf : Update_wf (upd_tip_to 101)) by by apply upd_tip_to_wf.
  apply (persist_refines memory_store (Some 1%nat) (fun _ => True) (fun _ => True) (fun _ => True) (fun m k => m !! k)
           memory_laws (fun _ _ => I) (fun _ => I) ∅ [] (upd_tip_to 101) false); [|done|done|by constructor].
  split; [done| |done]. done.
Defined.

(** A payment at height 100, then two blocks: the updates of the blocks are coalesced. *)
Definition life1 : Stores := stores (applied_all [upd_parent_at 100] fresh).
Definition life2 : Stores := stores (applied_all [upd_tip_to 101] life1).
Definition life3 : Stores := stores (applied_all [upd_tip_to 102] life2).

Lemma applied_one upd x :
  (match applied_all [upd] x with Some (Ok _, _) => true | _ => false end) = true ->
  apply_update memory_store None memory_store false upd x = Some (Ok tt, stores (applied_all [upd] x)).
Proof.
  unfold stores, applied_all. cbn [foldr]. destruct (apply_update _ _ _ _ _ _) as [[[[]|e] y]|]; done.
Qed.

Abbreviation mem_holds := (holds (fun _ : gmap bytes bytes => True) (fun m k => m !! k)).
Abbreviation mem_lives := (lives memory_store false memory_store (fun _ : gmap bytes bytes => True) (fun m k => m !! k)).

Lemma live_step (upd : Update) (l : list Update) (x : Stores) :
  let y := stores (applied_all [upd] x) in
  (match applied_all [upd] x with Some (Ok _, _) => true | _ => false end) = true ->
  Update_wf upd -> forward x.1.1 upd -> mem_holds x.2.2 l -> x.2.1 = length l ->
  Forall Update_wf (persisted_log None false l upd) -> Z.of_nat (length l) + 1 < u64_max ->
  mem_lives x y /\ mem_holds y.2.2 (persisted_log None false l upd) /\ y.2.1 = length (persisted_log None false l upd).
Proof.
  intros y Hok%applied_one Hwf Hf Hh Hn Hlog Hb. destruct x as [[c w] [n u]]. cbn in Hn, Hh, Hf. subst n.
  split; [by eapply lives_apply|].
  by destruct (apply_update_log memory_store false memory_store (fun _ => True) (fun _ => True) (fun _ => True)
    (fun m k => m !! k) memory_laws (fun _ _ => I) (fun _ => I) eq_refl upd l c w u y Hok Hwf Hh Hlog Hb) as [_ ?].
Qed.

Lemma sample_forward height (x : Stores) :
  (tip x.1.1).1 <=? height = true -> last_unused_external x.1.1 =? 1 = true ->
  last_unused_internal x.1.1 =? 1 = true -> 0 <= height < 2 ^ 20 -> forward x.1.1 (upd_tip_to height).
Proof.
  intros Ht%Z.leb_le He%Z.eqb_eq Hi%Z.eqb_eq Hh _. unfold u32_max. cbn. split_and!; try lia. discriminate.
Qed.

Lemma restart_restores_witness :
  life3.2.1 = 2%nat /\ tip life3.1.1 = (102, default [] (block_hash (block_at 102))) /\
  build memory_store None memory_store false 3 (Cache_default, ∅, (0%nat, life3.2.2)) =
    Some (Ok tt, (add_txids_from_txs_store memory_store life3.1.1 life3.1.2, life3.1.2, (life3.2.1, life3.2.2))).
Proof.
  assert (W1 := upd_parent_at_wf 100 ltac:(lia)). assert (W2 := upd_tip_to_wf 101 ltac:(lia)).
  assert (W3 := upd_tip_to_wf 102 ltac:(lia)).
  assert (L1 : mem_lives fresh life1 /\ mem_holds life1.2.2 [upd_parent_at 100] /\ life1.2.1 = 1%nat).
  { apply (live_step (upd_parent_at 100) [] fresh);
      [vm_compute; reflexivity|done|done|by split|done|by constructor|done]. }
  destruct L1 as (S1 & H1 & N1).
  assert (L2 : mem_lives life1 life2 /\ mem_holds life2.2.2 [upd_parent_at 100; upd_tip_to 101] /\ life2.2.1 = 2%nat).
  { apply (live_step (upd_tip_to 101) [upd_parent_at 100] life1);
      [vm_compute; reflexivity|done|apply sample_forward; (vm_compute; reflexivity) || lia|done|done| |done].
    exact (Forall_cons_2 _ _ _ W1 (Forall_cons_2 _ _ _ W2 (Forall_nil_2 _))). }
  destruct L2 as (S2 & H2 & N2).
  assert (L3 : mem_lives life2 life3 /\
    mem_holds life3.2.2 [upd_parent_at 100; coalesce (upd_tip_to 101) (upd_tip_to 102)] /\ life3.2.1 = 2%nat).
  { apply (live_step (upd_tip_to 102) [upd_parent_at 100; upd_tip_to 101] life2);
      [vm_compute; reflexivity|done|apply sample_forward; (vm_compute; reflexivity) || lia|done|done| |done].
    refine (Forall_cons_2 _ _ _ W1 (Forall_cons_2 _ _ _ _ (Forall_nil_2 _))).
    apply coalesced_wf; lia. }
  destruct L3 as (S3 & H3 & N3).
  split; [exact N3|]. split; [vm_compute; reflexivity|].
  apply (restart_restores memory_store false memory_store (fun _ => True) (fun _ => True) (fun _ => True)
           (fun m k => m !! k) memory_laws (fun _ _ => I) (fun _ => I) eq_refl ∅ ∅); [by split| |by rewrite N3|rewrite N3; simpl; lia].
  replace (life3.1.1, life3.1.2, (life3.2.1, life3.2.2)) with life3 by (by destruct life3 as [[? ?] [? ?]]).
  eapply rtc_l; [exact S1|]. eapply rtc_l; [exact S2|]. eapply rtc_l; [exact S3|]. apply rtc_refl.
Defined.

(** The wallet at height 100 goes down to 98 and cannot be built again. *)
Lemma coalesced_rollback_refused_witness :
  (exists c1 c2, apply_update_inner memory_store false (upd_tip_to 99) life1.1.1 life1.1.2 = Some (Ok tt, c1, life1.1.2) /\
     apply_update_inner memory_store false (upd_tip_to 98) c1 life1.1.2 = Some (Ok tt, c2, life1.1.2) /\
     tip c2 = (98, default [] (block_hash (block_at 98)))) /\
  match rebuilt (stores (applied_all [upd_parent_at 100; upd_tip_to 99; upd_tip_to 98] fresh)) with
  | Some (Err e, _) => e = UpdateHeightTooOld 98 100
  | _ => False
  end.
Proof.
  split; [|vm_compute; reflexivity].
  apply (coalesced_rollback_refused memory_store false (upd_tip_to 99) (upd_tip_to 98) life1.1.1 life1.1.2 98
    (default [] (block_hash (block_at 99)))); done || vm_compute; reflexivity.
Defined.
