(* ===== verification/Merge.v ===== *)
(** * Merging updates

    [Update::merge] of [lwk_wollet/src/update.rs]: the update made of two consecutive
    ones has the effect of the two, as long as it is coherent; a transaction that was
    deleted and then announced again makes it differ. *)

From S2P Require Import Prelude Order Encode Script Confidential Transaction TxMetrics Sighash Store Block Update Cache Address Wollet.

(** ** Heights *)

Lemma lookup_merge_heights n1 d2 n2 t v :
  NoDup n2.*1 ->
  (t, v) ∈ merge_heights n1 d2 n2 <->
    (t, v) ∈ n2 \/ (t ∉ n2.*1 /\ (t, v) ∈ n1 /\ t ∉ d2).
Proof.
  unfold merge_heights.
  induction n2 as [|[k h] n2 IH] using rev_ind; intros Hnd; simpl.
  - rewrite list_elem_of_filter. simpl. set_solver.
  - rewrite fmap_app in *. simpl in *. apply NoDup_app in Hnd as (Hnd & Hk & _).
    rewrite foldl_app. simpl. rewrite elem_of_app, list_elem_of_filter, IH by done. simpl.
    rewrite !elem_of_app, !list_elem_of_singleton.
    assert (Hin : (t, v) ∈ n2 -> t ∈ n2.*1) by (intros; apply list_elem_of_fmap; by exists (t, v)).
    assert (Hne : t ∈ n2.*1 -> t <> k) by (intros Ht ->; apply (Hk k Ht); by left).
    clear -Hin Hne. naive_solver.
Qed.

Lemma merge_heights_extend (m : gmap bytes (option Z)) n1 d1 n2 d2 :
  NoDup n1.*1 -> NoDup n2.*1 ->
  extend (base.filter (fun '(k, _) => k ∉ d1 ++ d2) m) (merge_heights n1 d2 n2) =
  extend (base.filter (fun '(k, _) => k ∉ d2) (extend (base.filter (fun '(k, _) => k ∉ d1) m) n1)) n2.
Proof.
  intros H1 H2.
  assert (Hf : forall (l : list (bytes * option Z)) t v v', NoDup l.*1 -> (t, v) ∈ l -> (t, v') ∈ l -> v = v').
  { intros l t v v' Hl Hv Hv'. apply list_elem_of_lookup in Hv as [i Hi]. apply list_elem_of_lookup in Hv' as [j Hj].
    assert (i = j) as ->; [|congruence].
    eapply (NoDup_lookup l.*1 i j t Hl); rewrite list_lookup_fmap; [by rewrite Hi|by rewrite Hj]. }
  pose proof (fun t v => lookup_merge_heights n1 d2 n2 t v H2) as Hm.
  assert (Hmf : forall t v v', (t, v) ∈ merge_heights n1 d2 n2 -> (t, v') ∈ merge_heights n1 d2 n2 -> v = v').
  { intros t v v'. rewrite !Hm. intros [Hv|(Hn & Hv & _)] [Hv'|(Hn' & Hv' & _)].
    - by apply (Hf n2 t).
    - exfalso. apply Hn', list_elem_of_fmap. by exists (t, v).
    - exfalso. apply Hn, list_elem_of_fmap. by exists (t, v').
    - by apply (Hf n1 t). }
  apply map_eq. intros t.
  rewrite (lookup_extend _ (merge_heights n1 d2 n2)), (lookup_extend _ n2). 
  destruct (extend ∅ n2 !! t) as [v|] eqn:E2.
  - apply lookup_extend_empty in E2. assert (Hin : (t, v) ∈ merge_heights n1 d2 n2) by (apply Hm; by left).
    apply (lookup_extend_consistent _ _ _ Hmf) in Hin. by rewrite Hin.
  - assert (Hn2 : t ∉ n2.*1).
    { intros Hin. apply eq_None_not_Some in E2. apply E2, extend_lookup_is_Some. by left. }
    rewrite (map_lookup_filter _ (extend _ n1)), (lookup_extend _ n1).
    destruct (extend ∅ n1 !! t) as [v|] eqn:E1; simpl.
    + apply lookup_extend_empty in E1. case_guard as Hd2; simpl.
      * assert (Hin : (t, v) ∈ merge_heights n1 d2 n2) by (apply Hm; right; done).
        apply (lookup_extend_consistent _ _ _ Hmf) in Hin. by rewrite Hin.
      * replace (extend ∅ (merge_heights n1 d2 n2) !! t) with (@None (option Z)).
        { rewrite map_lookup_filter. destruct (m !! t); simpl; [|done]. case_guard; [|done]. set_solver. }
        symmetry. apply eq_None_not_Some. intros [v' Hv'%lookup_extend_empty%Hm]. 
        destruct Hv' as [Hv'|(_ & _ & ?)]; [|done]. apply Hn2, list_elem_of_fmap. by exists (t, v').
    + replace (extend ∅ (merge_heights n1 d2 n2) !! t) with (@None (option Z)).
      2:{ symmetry. apply eq_None_not_Some. intros [v' Hv'%lookup_extend_empty%Hm].
          destruct Hv' as [Hv'|(_ & Hv' & _)]; [apply Hn2, list_elem_of_fmap; by exists (t, v')|].
          apply eq_None_not_Some in E1. apply E1, extend_lookup_is_Some. left. apply list_elem_of_fmap. by exists (t, v'). }
      rewrite !map_lookup_filter. destruct (m !! t) as [h|]; simpl; [|done].
      repeat case_guard; simpl; try done; repeat case_guard; simpl; try done; set_solver.
Qed.

(** ** Transactions in memory *)

Section Merge.
Context {P : Platform} {S : Secp} {H : Hashes} {J : JsonStrings} {E : WolletEnv}.

Abbreviation World := (gmap bytes bytes).

(** Storing in memory never fails: the ids and the entries it adds. *)
Definition tx_entries (l : list (bytes * Transaction)) : list (bytes * bytes) :=
  map (fun '(t, tx) => (tx_key t, encode_Transaction tx)) l.

Lemma put_txs_memory (l : list (bytes * Transaction)) : forall (c : Cache) (w : World),
  put_txs memory_store l c w =
    (Ok tt, set_txids c (list_to_set (l.*1) ∪ txids c), extend w (tx_entries l)).
Proof.
  induction l as [|[t tx] l IH]; intros c w; cbn [put_txs].
  - cbn. do 2 f_equal. destruct c. unfold set_txids. cbn. f_equal. clear. set_solver.
  - cbn [put memory_store]. rewrite IH. unfold tx_entries. cbn. do 2 f_equal.
    unfold set_txids. cbn. f_equal. clear. set_solver.
Qed.

Definition ids_entry (l : list (bytes * Transaction)) (ids : gset bytes) : list (bytes * bytes) :=
  if is_empty l then [] else [(TXIDS_KEY, json_to_vec (map txid_display (elements ids)))].

Lemma extend_all_txs_memory (l : list (bytes * Transaction)) (c : Cache) (w : World) :
  let ids := list_to_set (l.*1) ∪ txids c in
  extend_all_txs memory_store l c w =
    (Ok tt, set_txids c ids, extend w (tx_entries l ++ ids_entry l ids)).
Proof.
  unfold extend_all_txs, ids_entry. rewrite put_txs_memory. cbn [txids set_txids].
  rewrite extend_app. by destruct (is_empty l).
Qed.

(** The index entry commutes with the transactions. *)
Lemma extend_insert_comm (w : World) l b :
  extend (<[TXIDS_KEY := b]> w) (tx_entries l) = <[TXIDS_KEY := b]> (extend w (tx_entries l)).
Proof.
  apply map_eq. intros k. destruct (decide (k = TXIDS_KEY)) as [->|Hne].
  - rewrite lookup_insert_eq, lookup_extend. destruct (extend ∅ (tx_entries l) !! TXIDS_KEY) eqn:Ek.
    + apply lookup_extend_empty in Ek. unfold tx_entries in Ek. change (map ?f l) with (f <$> l) in Ek.
      apply list_elem_of_fmap in Ek as ([t tx] & Et & _).
      apply (f_equal fst) in Et. by destruct (tx_key_ne t).
    + by rewrite lookup_insert_eq.
  - rewrite lookup_insert_ne by done. rewrite (lookup_extend (<[_:=_]> w)), (lookup_extend w).
    by rewrite lookup_insert_ne by done.
Qed.

Lemma memory_twice (l1 l2 : list (bytes * Transaction)) (ids1 ids2 : gset bytes) (w : World) :
  extend (extend w (tx_entries l1 ++ ids_entry l1 ids1)) (tx_entries l2 ++ ids_entry l2 ids2) =
  extend w (tx_entries (l1 ++ l2) ++ ids_entry (l1 ++ l2) (if is_empty l2 then ids1 else ids2)).
Proof.
  destruct l2 as [|x2 l2]; [by rewrite (app_nil_r l1)|]. destruct l1 as [|x1 l1]; [done|].
  unfold ids_entry. cbn [is_empty app]. change (x1 :: l1 ++ x2 :: l2) with ((x1 :: l1) ++ (x2 :: l2)).
  replace (tx_entries ((x1 :: l1) ++ x2 :: l2)) with (tx_entries (x1 :: l1) ++ tx_entries (x2 :: l2))
    by (symmetry; apply map_app).
  rewrite !extend_app. generalize (tx_entries (x1 :: l1)) as e1. intros e1.
  unfold extend at 1 3 5. cbn [foldl]. rewrite extend_insert_comm. apply insert_insert_eq.
Qed.

(** ** The merged update *)

Lemma blinding_app l1 l2 s1 s2 :
  compute_blinding_pubkey_if_missing l1 = Ok s1 -> compute_blinding_pubkey_if_missing l2 = Ok s2 ->
  compute_blinding_pubkey_if_missing (l1 ++ l2) = Ok (s1 ++ s2).
Proof.
  intros H1 H2. revert s1 H1. induction l1 as [|[[[ch n] s] k] l1 IH]; intros s1 H1; simpl in *.
  - by injection H1 as <-.
  - destruct (match k with Some k => _ | None => _ end) as [k'|e]; simpl in *; [|done].
    destruct (compute_blinding_pubkey_if_missing l1) as [r|e]; simpl in *; [|done].
    injection H1 as <-. by rewrite (IH r).
Qed.

(** The cache an update leaves, up to the unspent outputs. *)
Definition result_cache (u : Update) (sc : list (Chain * ChildNumber * Script * option PublicKey))
    (tip' : Z * bytes) (c : Cache) : Cache :=
  mkWCache (list_to_set (txs (new_txs u)).*1 ∪ txids c)
    (extend (paths c) (map (fun '(ch, ix, s, _) => (s, (ch, ix))) sc))
    (extend (scripts c) (map (fun '(ch, ix, s, k) => ((ch, ix), (s, k))) sc))
    (heights (update_heights c (txid_height_new u) (txid_height_delete u)))
    (sort_by (txid_cmp (heights (update_heights c (txid_height_new u) (txid_height_delete u))))
       (live (update_heights c (txid_height_new u) (txid_height_delete u))))
    ∅ (extend (unblinded c) (unblinds (new_txs u))) tip'
    (extend (cache_timestamps c) (timestamps u))
    (Z.max (last_unused_external c) (lu_external (upd_last_unused u)))
    (Z.max (last_unused_internal c) (lu_internal (upd_last_unused u))).

Definition new_tip (h : BlockHeader) (t : Z * bytes) : Z * bytes :=
  if bool_decide (h <> default_blockheader) then (hdr_height h, default [] (block_hash h)) else t.

Lemma apply_tip_new h c c1 : apply_tip h c = Some (Ok c1) -> c1 = set_tip c (new_tip h (tip c)).
Proof.
  unfold apply_tip, new_tip. case_bool_decide.
  - case_match; [done|]. intros (id & -> & Ec)%bind_Some. by injection Ec as <-.
  - intros [= <-]. by destruct c.
Qed.

Lemma update_unspent_set c look new del : exists x, update_unspent c look new del = set_unspent c x.
Proof. by eexists. Qed.

(** Application to a wallet in memory, in one equation. *)
Lemma apply_memory u c w c' w' :
  apply_update_inner memory_store false u c w = Some (Ok tt, c', w') -> 4 <= upd_version u ->
  exists sc, compute_blinding_pubkey_if_missing (scripts_with_blinding_pubkey u) = Ok sc /\
    c' = set_unspent (result_cache u sc (new_tip (upd_tip u) (tip c)) c) (unspent c') /\
    w' = extend w (tx_entries (txs (new_txs u)) ++
                   ids_entry (txs (new_txs u)) (list_to_set (txs (new_txs u)).*1 ∪ txids c)).
Proof.
  intros (_ & sc & c1 & c2 & Esc & Et & Hu & ->)%apply_update_inner_ok Hv.
  apply apply_tip_new in Et as ->. apply cache_update_ok in Hu as (c3 & Hx & ->).
  rewrite extend_all_txs_memory in Hx. injection Hx as <- <-. exists sc. split; [done|].
  unfold apply_last_unused. destruct (Z.leb_spec 4 (upd_version u)); [|lia].
  split; [|done].
  match goal with
  | |- context [update_unspent ?c ?look ?n ?d] => destruct (update_unspent_set c look n d) as [x Ex]; rewrite !Ex
  end. reflexivity.
Qed.

Lemma apply_succeeds u c w sc c1 :
  wollet_status u = 0 \/ status c = wollet_status u ->
  compute_blinding_pubkey_if_missing (scripts_with_blinding_pubkey u) = Ok sc ->
  apply_tip (upd_tip u) c = Some (Ok c1) ->
  exists c' w', apply_update_inner memory_store false u c w = Some (Ok tt, c', w').
Proof.
  intros Hs Esc Et. unfold apply_update_inner.
  replace (negb (wollet_status u =? 0) && negb (status c =? wollet_status u)) with false
    by (symmetry; destruct Hs as [-> | ->]; [done|by rewrite Z.eqb_refl, andb_false_r]).
  rewrite Esc, Et. cbn [mbind option_bind]. unfold cache_update. rewrite extend_all_txs_memory. eauto.
Qed.

(** What two lists of transactions stored one after the other agree on. *)
Lemma agree_app (l1 l2 : list (bytes * Transaction)) (c c1 : Cache) (w w1 : World) :
  extend_all_txs memory_store l1 c w = (Ok tt, c1, w1) ->
  txs_agree memory_store l1 w -> txs_agree memory_store l2 w1 -> txs_agree memory_store (l1 ++ l2) w.
Proof.
  intros Hx A1 A2.
  pose proof (stored_lookup memory_store (fun _ => True) (fun _ => True) (fun _ => True) (fun m k => m !! k)
    memory_laws (fun _ _ => I) I l1 c w c1 w1 Hx I A1) as Hs.
  destruct (stored_ledger memory_store (fun _ => True) (fun _ => True) (fun _ => True) (fun m k => m !! k)
    memory_laws (fun _ _ => I) I l1 c w c1 w1 Hx I A1) as [Hg _].
  assert (Hcross : forall t tx tx', (t, tx) ∈ l1 -> (t, tx') ∈ l2 -> shape tx = shape tx').
  { intros t tx tx' H1 H2. specialize (Hs t). destruct (extend ∅ l1 !! t) as [tx1|] eqn:E1.
    - apply lookup_extend_empty in E1. transitivity (shape tx1); [by apply (agree_new _ _ _ A1 t)|].
      symmetry. by apply (agree_old _ _ _ A2 t).
    - exfalso. apply eq_None_not_Some in E1. apply E1, extend_lookup_is_Some. left. apply list_elem_of_fmap.
      by exists (t, tx). }
  split.
  - intros t tx [Hin|Hin]%elem_of_app; [by apply A1|by apply A2].
  - intros t tx tx' [Hin|Hin]%elem_of_app [Hin'|Hin']%elem_of_app.
    + by apply (agree_new _ _ _ A1 t).
    + by apply (Hcross t).
    + symmetry. by apply (Hcross t).
    + by apply (agree_new _ _ _ A2 t).
  - intros t tx tx' [Hin|Hin]%elem_of_app Hc; [by apply (agree_old _ _ _ A1 t)|].
    assert (Hl : ledger_of (cache_tx memory_store w) t = Some (shape tx')) by (unfold ledger_of; by rewrite Hc).
    apply Hg in Hl. unfold ledger_of in Hl. destruct (cache_tx memory_store w1 t) as [tx1|] eqn:Ec; [|done].
    apply (inj Some (shape tx1) (shape tx')) in Hl. rewrite <-Hl. by apply (agree_old _ _ _ A2 t).
Qed.

Lemma coherent_ext c0 c1 c1' L0 L1 new del :
  unblinded c1 = unblinded c1' -> paths c1 = paths c1' ->
  coherent c0 c1 L0 L1 new del -> coherent c0 c1' L0 L1 new del.
Proof.
  intros Hu Hp. assert (Ho : forall o, own c1 L1 o = own c1' L1 o) by (intros o; unfold own; by rewrite Hu, Hp).
  intros [C1 C2 C3 C4 C5 C6]. split; [done|done| | | |].
  - intros o s. rewrite <-Ho. apply C3.
  - intros t x o. rewrite <-Ho. apply C4.
  - intros t x o. rewrite <-Ho. apply C5.
  - intros o. rewrite <-Ho. apply C6.
Qed.

Lemma new_tip_merge u1 u2 t :
  new_tip (upd_tip (merge u1 u2)) t = new_tip (upd_tip u2) (new_tip (upd_tip u1) t).
Proof. unfold new_tip, merge. cbn [upd_tip]. repeat case_bool_decide; try done. Qed.

(** The caches agree but for the unspent outputs. *)
Lemma result_cache_merge u1 u2 s1 s2 c x :
  NoDup (txid_height_new u1).*1 -> NoDup (txid_height_new u2).*1 ->
  result_cache u2 s2 (new_tip (upd_tip u2) (new_tip (upd_tip u1) (tip c)))
    (set_unspent (result_cache u1 s1 (new_tip (upd_tip u1) (tip c)) c) x) =
  result_cache (merge u1 u2) (s1 ++ s2) (new_tip (upd_tip (merge u1 u2)) (tip c)) c.
Proof.
  intros H1 H2. rewrite new_tip_merge. unfold result_cache, live, update_heights.
  assert (Eset : list_to_set (txs (new_txs u2)).*1 ∪ (list_to_set (txs (new_txs u1)).*1 ∪ txids c) =
    list_to_set (txs (new_txs u1) ++ txs (new_txs u2)).*1 ∪ txids c).
  { rewrite fmap_app, list_to_set_app_L. clear. set_solver. }
  cbn [txids paths scripts heights unblinded cache_timestamps last_unused_external last_unused_internal
    set_unspent set_heights new_txs txs unblinds timestamps upd_last_unused lu_external lu_internal merge
    txid_height_new txid_height_delete].
  rewrite Eset, <-merge_heights_extend by done. rewrite !map_app, !extend_app. f_equal; lia.
Qed.

(** C15: merging two consecutive updates is sound.  On a wallet whose unspent outputs are
    right, whose transactions are kept in memory, if two updates of the current version
    are applied one after the other, they and their merge are coherent and the second
    one does not lower the tip by more than a block, then applying the merged update to
    the first state leaves exactly the cache and the transactions that applying both
    leaves. *)
Theorem merge_correct u1 u2 c w c1 w1 c2 w2 :
  let led := ledger memory_store in
  wallet_inv memory_store (fun _ => True) c w ->
  apply_update_inner memory_store false u1 c w = Some (Ok tt, c1, w1) ->
  apply_update_inner memory_store false u2 c1 w1 = Some (Ok tt, c2, w2) ->
  upd_version u1 = 4 -> upd_version u2 = 4 ->
  NoDup (txid_height_new u1).*1 -> NoDup (txid_height_new u2).*1 ->
  txs_agree memory_store (txs (new_txs u1)) w -> txs_agree memory_store (txs (new_txs u2)) w1 ->
  coherent c c1 (led w) (led w1) (txid_height_new u1).*1 (txid_height_delete u1) ->
  coherent c1 c2 (led w1) (led w2) (txid_height_new u2).*1 (txid_height_delete u2) ->
  coherent c c2 (led w) (led w2) (txid_height_new (merge u1 u2)).*1 (txid_height_delete (merge u1 u2)) ->
  (tip c).1 <= wrap_u32 (hdr_height (upd_tip u2) + 1) ->
  apply_update_inner memory_store false (merge u1 u2) c w = Some (Ok tt, c2, w2).
Proof.
  intros led HI E1 E2 V1 V2 N1 N2 A1 A2 C1 C2 C12 Ht.
  pose proof (wallet_inv_step memory_store (fun _ => True) (fun _ => True) (fun _ => True) (fun m k => m !! k)
    memory_laws (fun _ _ => I) I) as Hstep.
  assert (HI2 : wallet_inv memory_store (fun _ => True) c2 w2).
  { eapply Hstep; [eapply Hstep; [exact HI|exact E1|done|done]|exact E2|done|done]. }
  apply apply_update_inner_ok in E1 as Hok1. destruct Hok1 as (St1 & sc1 & t1 & ca & Esc1 & Et1 & Hu1 & _).
  apply apply_update_inner_ok in E2 as Hok2. destruct Hok2 as (_ & sc2 & t2 & cb & Esc2 & Et2 & _ & _).
  apply apply_memory in E1 as (sc1' & Esc1' & Ec1 & Ew1); [|lia]. rewrite Esc1 in Esc1'. injection Esc1' as <-.
  apply apply_memory in E2 as (sc2' & Esc2' & Ec2 & Ew2); [|lia]. rewrite Esc2 in Esc2'. injection Esc2' as <-.
  assert (Htip : exists t12, apply_tip (upd_tip (merge u1 u2)) c = Some (Ok t12)).
  { unfold merge. cbn [upd_tip]. case_bool_decide as Hd; [|by exists t1].
    unfold apply_tip in *. rewrite bool_decide_eq_true_2 in * by done.
    destruct (_ <? (tip c1).1); [done|]. destruct (Z.ltb_spec (wrap_u32 (hdr_height (upd_tip u2) + 1)) (tip c).1); [lia|].
    apply bind_Some in Et2 as (id & -> & _). by eexists. }
  destruct Htip as [t12 Et12].
  destruct (apply_succeeds (merge u1 u2) c w (sc1 ++ sc2) t12 St1) as (c' & w' & Em);
    [by apply blinding_app|done|].
  apply apply_memory in Em as Hm; [|cbn [upd_version merge]; lia]. destruct Hm as (sc & Esc & Ec & Ew).
  cbn [scripts_with_blinding_pubkey merge] in Esc. rewrite (blinding_app _ _ sc1 sc2) in Esc by done.
  injection Esc as <-.
  (* the same transactions *)
  assert (Ew' : w' = w2).
  { rewrite Ew, Ew2, Ew1, memory_twice. cbn [new_txs txs merge]. do 3 f_equal.
    assert (Eids : txids c1 = list_to_set (txs (new_txs u1)).*1 ∪ txids c) by (by rewrite Ec1).
    rewrite Eids. destruct (txs (new_txs u2)); [by rewrite app_nil_r|]. cbn [is_empty].
    rewrite fmap_app, list_to_set_app_L. clear. set_solver. }
  (* the same cache, but for the unspent outputs *)
  assert (Hc : set_unspent c' ∅ = set_unspent c2 ∅).
  { rewrite Ec, Ec2. rewrite Ec1 at 1 2. cbn [tip set_unspent result_cache].
    rewrite result_cache_merge by done. reflexivity. }
  assert (HI' : wallet_inv memory_store (fun _ => True) c' w').
  { eapply Hstep; [exact HI|exact Em| |].
    - apply cache_update_ok in Hu1 as (cx & Hx & _). by eapply agree_app.
    - rewrite Ew'. apply (coherent_ext c c2); [exact (f_equal unblinded (eq_sym Hc))|exact (f_equal paths (eq_sym Hc))|done]. }
  assert (Hun : unspent c' = unspent c2).
  { rewrite (inv_unspent _ _ _ _ HI'), (inv_unspent _ _ _ _ HI2), Ew'. apply utxo_set_ext; [| | |done].
    - exact (f_equal heights Hc).
    - exact (f_equal unblinded Hc).
    - exact (f_equal paths Hc). }
  rewrite Em, Ew'. do 3 f_equal.
  transitivity (set_unspent (set_unspent c' ∅) (unspent c')); [by destruct c'|].
  rewrite Hc, Hun. by destruct c2.
Qed.

(** The merge of an update that deletes a transaction and one that announces it again
    (a reorganisation that puts it back) loses the outputs of that transaction: after
    applying the merged update the transaction is one of the wallet's, and none of its
    outputs is among the unspent ones, whoever they pay. *)
Theorem merge_loses_restored_outputs {W} (st : Store W) u1 u2 c w c' w' o h :
  apply_update_inner st false (merge u1 u2) c w = Some (Ok tt, c', w') ->
  NoDup (txid_height_new u1).*1 -> NoDup (txid_height_new u2).*1 ->
  txid o ∈ txid_height_delete u1 -> (txid o, h) ∈ txid_height_new u2 ->
  heights c' !! txid o = Some h /\ unspent c' !! o = None.
Proof.
  intros Ha N1 N2 Hd Hn. apply apply_update_heights in Ha as Hh. destruct Hh as [Hh _]. split.
  - rewrite Hh. unfold update_heights. cbn [heights set_heights merge txid_height_new txid_height_delete].
    rewrite merge_heights_extend by done. rewrite (extend_lookup_functional _ _ _ h).
    + rewrite decide_True; [done|]. apply list_elem_of_fmap. by exists (txid o, h).
    + intros v' Hv'. apply list_elem_of_lookup in Hn as [i Hi]. apply list_elem_of_lookup in Hv' as [j Hj].
      assert (i = j) as ->; [|congruence].
      eapply (NoDup_lookup _ i j (txid o) N2); rewrite list_lookup_fmap; [by rewrite Hi|by rewrite Hj].
  - apply apply_update_inner_ok in Ha as (_ & sc & c1 & c2 & _ & _ & Hu & ->).
    apply cache_update_ok in Hu as (c3 & _ & ->).
    assert (Hs : forall x : Cache, unspent (apply_last_unused st (merge u1 u2) x w') = unspent x).
    { intros x. unfold apply_last_unused. by destruct (4 <=? upd_version (merge u1 u2)). }
    rewrite Hs, update_unspent_lookup. case_decide; [done|]. rewrite decide_True; [done|].
    cbn [txid_height_delete merge]. apply elem_of_app. by left.
Qed.
End Merge.

(** ** Samples *)

Module MergeSample.
Export WolletSample.

(** The parent leaves the chain, and comes back. *)
Definition upd_gone : Update :=
  mkUpdate 4 0 (mkDownload [] []) [] [parent_id] [] [] default_blockheader [] (mkLastUnused 0 1).
Definition upd_back : Update :=
  mkUpdate 4 0 (mkDownload [] []) [(parent_id, Some 11)] [] [] [] default_blockheader [] (mkLastUnused 0 1).

Lemma coherent_first (c1 : Cache) (w w1 : gmap bytes bytes) (u : Update) :
  txid_height_delete u = [] -> (forall t, t ∈ (txid_height_new u).*1 -> is_Some (ledger memory_store w1 t)) ->
  coherent Cache_default c1 (ledger memory_store w) (ledger memory_store w1) (txid_height_new u).*1 (txid_height_delete u).
Proof.
  intros -> Hk. split; try (intros ? ? ? [[]%elem_of_nil _]); try (intros ? ? [[]%elem_of_nil _]).
  - intros t _ []%elem_of_nil.
  - exact Hk.
  - intros o []%elem_of_nil.
Qed.
End MergeSample.
Import MergeSample.

Lemma merge_correct_witness :
  apply_update_inner memory_store false (merge upd_parent upd_child) Cache_default ∅ =
    Some (Ok tt, state2.1, state2.2).
Proof.
  apply (merge_correct upd_parent upd_child Cache_default ∅ state1.1 state1.2 state2.1 state2.2).
  - by apply wallet_inv_init.
  - apply (applied_ok upd_parent state0). vm_compute. reflexivity.
  - apply (applied_ok upd_child state1). vm_compute. reflexivity.
  - done.
  - done.
  - apply NoDup_singleton.
  - apply NoDup_singleton.
  - apply agree_single; [done|apply parent_tx_wf|vm_compute; reflexivity].
  - apply agree_single; [done|apply child_tx_wf|vm_compute; reflexivity].
  - apply coherent_first; [done|]. intros t ->%list_elem_of_singleton. vm_compute. by eexists.
  - exact step2_coherent.
  - apply (coherent_first _ _ _ (merge upd_parent upd_child)); [done|].
    intros t [->|[->|[]%elem_of_nil]%elem_of_cons]%elem_of_cons; vm_compute; by eexists.
  - done.
Defined.

Lemma merge_loses_restored_outputs_witness :
  let merged := applied (merge upd_gone upd_back) state1 in
  let twice := applied upd_back (applied upd_gone state1) in
  heights merged.1 !! parent_id = Some (Some 11) /\ unspent merged.1 !! mkOutPoint parent_id 0 = None /\
  unspent twice.1 !! mkOutPoint parent_id 0 = Some mine0.
Proof.
  intros merged twice.
  destruct (merge_loses_restored_outputs memory_store upd_gone upd_back state1.1 state1.2 merged.1 merged.2
    (mkOutPoint parent_id 0) (Some 11)) as [H1 H2].
  - apply (applied_ok (merge upd_gone upd_back) state1). vm_compute. reflexivity.
  - apply NoDup_nil_2.
  - apply NoDup_singleton.
  - by left.
  - by left.
  - split; [exact H1|]. split; [exact H2|]. vm_compute. reflexivity.
Defined.
