(* ===== verification/Views.v ===== *)
(** * What the wallet shows

    The read-only half of [lwk_wollet/src/wollet.rs]: outputs, spent or not, the
    transactions with their balances and types, addresses, and what the fee bumps are
    built from. *)

From S2P Require Import Prelude Order Encode Script Timelocks Confidential Transaction TxMetrics Sighash Store Block Update Cache Address Wollet.

Section Views.
Context {P : Platform} {S : Secp} {H : Hashes} {J : JsonStrings} {E : WolletEnv}.
Context {W : Type} (txs_store : Store W).

(** ** Outputs *)

(** One output in [txos_inner]: skipped unless it is unblinded, to a known script that has
    an address. *)
Definition txo_of (c : Cache) (height : option Z) (x : OutPoint * TxOut) : option WalletTxOut :=
  let '(outpoint, out) := x in
  unb ← unblinded c !! outpoint;
  i ← ok_opt (index c (script_pubkey out));
  a ← from_script (script_pubkey out) (out_blinding_pubkey c unb i) address_params;
  Some (mkWalletTxOut outpoint (script_pubkey out) height unb i.2 i.1
          (negb (bool_decide (is_Some (unspent c !! outpoint)))) a).

Definition tx_txos (c : Cache) (t : bytes) (tx : Transaction) : list WalletTxOut :=
  omap (txo_of c (mjoin (heights c !! t))) (enumerate_outputs t tx).

Definition txos_inner (c : Cache) (w : W) : result (list WalletTxOut) wollet_error :=
  let? l := rmapM (fun t =>
    let? tx := ok_or (cache_tx txs_store w t) (Generic "txos no tx") in Ok (tx_txos c t tx))
    (sorted_txids c) in
  Ok (concat l).

Definition txos_map (c : Cache) (w : W) : result (gmap OutPoint WalletTxOut) wollet_error :=
  let? l := txos_inner c w in Ok (extend ∅ (map (fun x => (wo_outpoint x, x)) l)).

Definition utxos_map (c : Cache) : result (gmap OutPoint WalletTxOut) wollet_error :=
  let? l := utxos_inner c in Ok (extend ∅ (map (fun x => (wo_outpoint x, x)) l)).

Definition has_confidential_utxo (c : Cache) : bool :=
  existsb (fun x => match unblinded c !! x.1 with Some s => negb (is_explicit s) | None => false end)
    (map_to_list (unspent c)).

Definition assets_owned (c : Cache) : result (gset AssetId) wollet_error :=
  let? l := utxos c in Ok (list_to_set (map (fun x => sec_asset (wo_unblinded x)) l)).

(** [txos_cannot_unblind], of one transaction of the store. *)
Definition cannot_unblind (c : Cache) (t : bytes) (tx : Transaction) : list OutPoint :=
  omap (fun '(op, o) =>
    if negb (is_empty (script_pubkey o)) && bool_decide (is_Some (paths c !! script_pubkey o)) &&
       bool_decide (unblinded c !! op = None)
    then Some op else None) (enumerate_outputs t tx).

Definition txos_cannot_unblind (c : Cache) (w : W) : list OutPoint :=
  concat (map (fun t => match cache_tx txs_store w t with
                        | Some tx => cannot_unblind c t tx
                        | None => []
                        end) (elements (txids c))).

(** ** Transactions *)

(** [tx_balance], with the [sequentia] feature; [i64] arithmetic wraps in release builds. *)
Definition add_balance (sign : Z) (b : gmap AssetId Z) (x : WalletTxOut) : gmap AssetId Z :=
  let s := wo_unblinded x in
  <[sec_asset s := wrap_i64 (default 0 (b !! sec_asset s) + sign * wrap_i64 (sec_value s))]> b.

Definition tx_outputs (t : bytes) (tx : Transaction) (txos : gmap OutPoint WalletTxOut)
  : list (option WalletTxOut) :=
  map (fun x => txos !! x.1) (enumerate_outputs t tx).

Definition tx_inputs (tx : Transaction) (txos : gmap OutPoint WalletTxOut) : list (option WalletTxOut) :=
  map (fun o => txos !! o) (prevouts tx).

Definition tx_balance (t : bytes) (tx : Transaction) (txos : gmap OutPoint WalletTxOut) : gmap AssetId Z :=
  foldl (add_balance (-1)) (foldl (add_balance 1) ∅ (omap id (tx_outputs t tx txos)))
    (omap id (tx_inputs tx txos)).

(** The sum wraps as [u64] addition does. *)
Definition tx_fee (tx : Transaction) : Z :=
  wrap_u64 (sum_map (fun o => if is_empty (script_pubkey o) then default 0 (Value_explicit (value o)) else 0)
              (output tx)).

Definition burn_script : Script := into_script (push_opcode OP_RETURN Builder_new).

Inductive TxType : Type := Issuance | Reissuance | Burn | Redeposit | Unknown | Incoming | Outgoing.

Definition tx_type (tx : Transaction) (policy : AssetId) (balance : gmap AssetId Z) (fee : Z) : TxType :=
  let issues fresh i := has_issuance i &&
    Bool.eqb fresh (bool_decide (asset_blinding_nonce (asset_issuance i) = ZERO_TWEAK)) in
  if existsb (issues true) (input tx) then Issuance
  else if existsb (issues false) (input tx) then Reissuance
  else if existsb (fun o => bool_decide (script_pubkey o = burn_script)) (output tx) then Burn
  else if (base.size balance =? 1)%nat && bool_decide (balance !! policy = Some (wrap_i64 fee)) then Redeposit
  else if bool_decide (balance = ∅) then Unknown
  else if forallb (fun x => 0 <? x.2) (map_to_list balance) then Incoming
  else if forallb (fun x => x.2 <? 0) (map_to_list balance) then Outgoing
  else Unknown.

Record WalletTx := mkWalletTx
  { wt_tx : Transaction;
    wt_txid : bytes;
    wt_height : option Z;
    wt_balance : gmap AssetId Z;
    wt_fee : Z;
    wt_type : TxType;
    wt_timestamp : option Z;
    wt_inputs : list (option WalletTxOut);
    wt_outputs : list (option WalletTxOut) }.

Definition wallet_tx (c : Cache) (t : bytes) (tx : Transaction) (txos : gmap OutPoint WalletTxOut) : WalletTx :=
  let height := mjoin (heights c !! t) in
  let balance := tx_balance t tx txos in
  mkWalletTx tx t height balance (tx_fee tx) (tx_type tx policy_asset balance (tx_fee tx))
    (h ← height; cache_timestamps c !! h) (tx_inputs tx txos) (tx_outputs t tx txos).

Definition is_none {X} (o : option X) : bool := match o with None => true | Some _ => false end.

(** Not a wallet transaction after all: the wallet can read none of it. *)
Definition unrelated (x : WalletTx) : bool :=
  bool_decide (wt_balance x = ∅) && forallb is_none (wt_inputs x) && forallb is_none (wt_outputs x).

Definition transactions_paginated (c : Cache) (w : W) (offset limit : nat) : result (list WalletTx) wollet_error :=
  let? txos := txos_map c w in
  let? l := rmapM (fun t =>
    let? tx := ok_or (cache_tx txs_store w t) (Generic "list_tx no tx") in Ok (wallet_tx c t tx txos))
    (take limit (drop offset (sorted_txids c))) in
  Ok (base.filter (fun x => unrelated x = false) l).

(** [transaction]. *)
Definition transaction (c : Cache) (w : W) (t : bytes) : result (option WalletTx) wollet_error :=
  match cache_tx txs_store w t with
  | Some tx => let? txos := txos_map c w in Ok (Some (wallet_tx c t tx txos))
  | None => Ok None
  end.

(** ** Addresses *)

(** What [inner_address] asks the descriptor for: the number of scripts of a descriptor
    without keys, whether there is a wildcard, and the address at an index. *)
Definition address_index (spks wildcard : bool) (c : Cache) (chain : Chain) (i : option Z)
  : result Z wollet_error :=
  if negb spks && negb wildcard && bool_decide (is_Some i) then Err (Generic "IndexWithoutWildcard")
  else if spks && bool_decide (i = None) then Err (Generic "UnsupportedWithoutDescriptor")
  else Ok (match chain, i with
           | _, Some i => i
           | Internal, None => last_unused_internal c
           | External, None => last_unused_external c
           end).

Definition inner_address {Addr} (address_at : Chain -> Z -> result Addr wollet_error) (spks wildcard : bool)
    (c : Cache) (chain : Chain) (i : option Z) : result (Addr * Z) wollet_error :=
  let? i := address_index spks wildcard c chain i in
  let? a := address_at chain i in
  Ok (a, i).

(** ** Fee bumps *)

Record ExternalUtxo := mkExternal
  { eu_outpoint : OutPoint;
    eu_txout : TxOut;
    eu_tx : option Transaction;
    eu_unblinded : TxOutSecrets;
    eu_max_weight : Z }.

Context (is_segwit : bool) (max_weight_to_satisfy : Z).

Definition external_utxo_for (c : Cache) (w : W) (o : OutPoint) : result ExternalUtxo wollet_error :=
  let? unb := ok_or (unblinded c !! o) (Generic "MissingWalletUtxo") in
  let? tx := ok_or (cache_tx txs_store w (txid o)) MissingTransaction in
  let? out := ok_or (output tx !! Z.to_nat (vout o)) (Generic "missing output") in
  Ok (mkExternal o out (if is_segwit then None else Some tx) unb max_weight_to_satisfy).

Definition explicit_utxos (c : Cache) (w : W) : result (list ExternalUtxo) wollet_error :=
  let? l := rmapM (fun '(o, _) =>
    let? unb := ok_or (unblinded c !! o) (Generic "missing unblinded") in
    if negb (is_explicit unb) then Ok None
    else
      let? tx := ok_or (cache_tx txs_store w (txid o)) (Generic "missing tx") in
      let? out := ok_or (output tx !! Z.to_nat (vout o)) (Generic "missing output") in
      Ok (Some (mkExternal o out (if is_segwit then None else Some tx) unb max_weight_to_satisfy)))
    (map_to_list (unspent c)) in
  Ok (omap id l).

(** [repin_wallet_inputs]: the inputs to spend again, and the outputs to keep out. *)
Definition repin_wallet_inputs (c : Cache) (w : W) (t : bytes)
  : result (list ExternalUtxo * list OutPoint * WalletTx) wollet_error :=
  let? o := transaction c w t in
  let? wtx := ok_or o MissingTransaction in
  let? externals := rmapM (external_utxo_for c w)
    (base.filter (fun op => is_Some (unblinded c !! op)) (prevouts (wt_tx wtx))) in
  if is_empty externals
  then Err (Generic "cannot replace: none of the transaction's inputs belong to this wallet")
  else Ok (externals, (enumerate_outputs t (wt_tx wtx)).*1, wtx).

Record Recipient := mkRecipient
  { rc_satoshi : Z;
    rc_script_pubkey : Script;
    rc_blinding_pubkey : option PublicKey;
    rc_asset : AssetId }.

(** The recipients [bump_fee_of] adds again: neither the fee nor the change. *)
Definition bump_recipients (wtx : WalletTx) : result (list Recipient) wollet_error :=
  rmapM (fun '(out, mine) =>
    let? satoshi := ok_or (Value_explicit (value out)) (Generic "cannot fee-bump a confidential recipient output") in
    let? a := ok_or (Asset_explicit (asset out)) (Generic "cannot fee-bump a confidential-asset recipient") in
    Ok (mkRecipient satoshi (script_pubkey out) None a))
    (List.filter (fun x : TxOut * option WalletTxOut =>
       negb (is_empty (script_pubkey x.1)) &&
       match x.2 with Some o => negb (bool_decide (wo_ext_int o = Internal)) | None => true end)
       (combine (output (wt_tx wtx)) (wt_outputs wtx))).

Definition bump_fee_of (c : Cache) (w : W) (t : bytes)
  : result (list ExternalUtxo * list OutPoint * list Recipient) wollet_error :=
  let? (externals, avoid, wtx) := repin_wallet_inputs c w t in
  let? l := bump_recipients wtx in
  Ok (externals, avoid, l).

(** [cpfp_spendable_outpoint]: an unconfirmed output of the transaction, change first. *)
Definition cpfp_spendable_outpoint (c : Cache) (w : W) (t : bytes) : result OutPoint wollet_error :=
  let? o := transaction c w t in
  let? wtx := ok_or o MissingTransaction in
  let unconfirmed := base.filter (fun x => wo_height x = None) (omap id (wt_outputs wtx)) in
  match base.filter (fun x => wo_ext_int x = Internal) unconfirmed ++ unconfirmed with
  | x :: _ => Ok (wo_outpoint x)
  | [] => Err (Generic "no unconfirmed wallet output to attach a CPFP child to")
  end.

Definition cpfp_of (c : Cache) (w : W) (t : bytes) : result ExternalUtxo wollet_error :=
  let? o := cpfp_spendable_outpoint c w t in external_utxo_for c w o.
End Views.

(** ** The books balance *)

Section Books.
Context {P : Platform} {S : Secp} {H : Hashes} {J : JsonStrings} {E : WolletEnv}.
Context {W : Type} (st : Store W).

(** What an output of the wallet adds to its balance of an asset. *)
Definition worth (a : AssetId) (s : TxOutSecrets) : Z := if decide (sec_asset s = a) then sec_value s else 0.

Lemma add_balance_sum sign l b a :
  cong64 (default 0 (foldl (add_balance sign) b l !! a))
    (default 0 (b !! a) + sign * sum_map (fun x => worth a (wo_unblinded x)) l).
Proof.
  revert b. induction l as [|x l IH]; intros b; cbn [foldl sum_map foldr].
  - rewrite Z.mul_0_r, Z.add_0_r. reflexivity.
  - rewrite IH. rewrite Z.mul_add_distr_l, Z.add_assoc. apply cong64_add; [|reflexivity].
    unfold add_balance, worth. case_decide as Ha.
    + subst a. rewrite lookup_insert_eq. cbn [default]. rewrite !cong64_wrap_i64. reflexivity.
    + rewrite lookup_insert_ne by done. rewrite Z.mul_0_r, Z.add_0_r. reflexivity.
Qed.

Lemma balance_from_utxos_sum l a :
  cong64 (default 0 (balance_from_utxos l !! a)) (sum_map (fun x => worth a (wo_unblinded x)) l).
Proof.
  unfold balance_from_utxos.
  enough (Hb : forall b : gmap AssetId Z, cong64 (default 0 (foldl (fun r u => <[sec_asset (wo_unblinded u) :=
    wrap_u64 (default 0 (r !! sec_asset (wo_unblinded u)) + sec_value (wo_unblinded u))]> r) b l !! a))
    (default 0 (b !! a) + sum_map (fun x => worth a (wo_unblinded x)) l)).
  { rewrite Hb. destruct (decide (policy_asset = a)) as [->|];
      [rewrite lookup_singleton_eq|rewrite lookup_singleton_ne by done]; reflexivity. }
  induction l as [|x l IH]; intros b; cbn [foldl sum_map foldr].
  - rewrite Z.add_0_r. reflexivity.
  - rewrite IH. rewrite Z.add_assoc. apply cong64_add; [|reflexivity]. unfold worth. case_decide as Ha.
    + subst a. rewrite lookup_insert_eq. cbn [default]. apply cong64_wrap_u64.
    + rewrite lookup_insert_ne by done. rewrite Z.add_0_r. reflexivity.
Qed.

Lemma tx_balance_sum t tx m a :
  cong64 (default 0 (tx_balance t tx m !! a))
    (sum_map (fun x => worth a (wo_unblinded x)) (omap id (tx_outputs t tx m)) -
     sum_map (fun x => worth a (wo_unblinded x)) (omap id (tx_inputs tx m))).
Proof.
  unfold tx_balance. rewrite add_balance_sum, add_balance_sum, lookup_empty. cbn [default].
  exists 0. lia.
Qed.

(** ** The outputs of the wallet's transactions *)

Lemma elem_of_enumerate t tx op o :
  (op, o) ∈ enumerate_outputs t tx <->
  txid op = t /\ 0 <= vout op /\ output tx !! Z.to_nat (vout op) = Some o.
Proof.
  unfold enumerate_outputs. rewrite list_elem_of_lookup. setoid_rewrite list_lookup_imap.
  setoid_rewrite fmap_Some. split.
  - intros (i & x & Ex & [= -> ->]). cbn. rewrite Nat2Z.id. split_and!; [done|lia|done].
  - intros (<- & Hv & Eo). exists (Z.to_nat (vout op)), o. split; [done|].
    rewrite Z2Nat.id by done. by destruct op.
Qed.

Lemma enumerate_nodup t tx : NoDup (enumerate_outputs t tx).*1.
Proof.
  unfold enumerate_outputs. apply NoDup_alt. intros i j x. rewrite !list_lookup_fmap, !list_lookup_imap.
  destruct (output tx !! i), (output tx !! j); cbn; try done. intros [= <-] [= E1]. lia.
Qed.

(** The output of the wallet at an outpoint, if there is one. *)
Definition txo_at (c : Cache) (w : W) (op : OutPoint) : option WalletTxOut :=
  if decide (txid op ∈ sorted_txids c /\ 0 <= vout op) then
    tx ← cache_tx st w (txid op); o ← output tx !! Z.to_nat (vout op);
    txo_of c (mjoin (heights c !! txid op)) (op, o)
  else None.

Lemma txo_of_outpoint c h op o x :
  txo_of c h (op, o) = Some x -> wo_outpoint x = op /\ unblinded c !! op = Some (wo_unblinded x).
Proof.
  unfold txo_of. intros (u & Eu & (i & Ei & (a & Ea & Ex)%bind_Some)%bind_Some)%bind_Some.
  by injection Ex as <-.
Qed.

Lemma txos_inner_ok c w l :
  txos_inner st c w = Ok l ->
  (forall t, t ∈ sorted_txids c -> is_Some (cache_tx st w t)) /\
  l = concat (map (fun t => match cache_tx st w t with Some tx => tx_txos c t tx | None => [] end) (sorted_txids c)).
Proof.
  unfold txos_inner. intros (ks & Hks & E1)%rbind_ok. injection E1 as <-. apply rmapM_ok in Hks.
  induction Hks as [|t k ts ks Hk _ [IH1 IH2]]; [by split; [intros t []%elem_of_nil|]|].
  apply rbind_ok in Hk as (tx & Htx & E1). injection E1 as <-. apply ok_or_ok in Htx. cbn [map concat].
  rewrite Htx, IH2. split; [|done]. intros t' [->|Ht']%elem_of_cons; [by eexists|by apply IH1].
Qed.

Lemma elem_of_txos c w l x :
  txos_inner st c w = Ok l -> x ∈ l <-> txo_at c w (wo_outpoint x) = Some x.
Proof.
  intros [Hk ->]%txos_inner_ok. rewrite elem_of_concat_map. unfold txo_at, tx_txos. split.
  - intros (t & Ht & Hx). destruct (cache_tx st w t) as [tx|] eqn:Etx; [|by apply elem_of_nil in Hx].
    apply list_elem_of_omap in Hx as ([op o] & Ho & Ex). apply elem_of_enumerate in Ho as (<- & Hv & Eo).
    destruct (txo_of_outpoint _ _ _ _ _ Ex) as [-> _]. rewrite decide_True by done. rewrite Etx. cbn. by rewrite Eo.
  - case_decide as Hd; [|done]. intros (tx & Etx & (o & Eo & Ex)%bind_Some)%bind_Some.
    exists (txid (wo_outpoint x)). split; [tauto|]. rewrite Etx. apply list_elem_of_omap.
    exists (wo_outpoint x, o). split; [|done]. apply elem_of_enumerate. tauto.
Qed.

Lemma txo_at_outpoint c w op x : txo_at c w op = Some x -> wo_outpoint x = op /\ unblinded c !! op = Some (wo_unblinded x).
Proof.
  unfold txo_at. case_decide; [|done]. intros (tx & _ & (o & _ & Ex)%bind_Some)%bind_Some. by apply txo_of_outpoint in Ex.
Qed.

Lemma txos_map_lookup c w m op : txos_map st c w = Ok m -> m !! op = txo_at c w op.
Proof.
  unfold txos_map. intros (l & El & E1)%rbind_ok. injection E1 as <-. apply option_eq. intros x.
  rewrite lookup_extend_consistent.
  - change (map ?f l) with (f <$> l). rewrite list_elem_of_fmap. setoid_rewrite (elem_of_txos c w l _ El). split.
    + intros (y & [= -> ->] & Hy). done.
    + intros Hx. exists x. destruct (txo_at_outpoint _ _ _ _ Hx) as [E1 _]. by rewrite E1.
  - intros k v v'. change (map ?f l) with (f <$> l). rewrite !list_elem_of_fmap.
    intros (y & [= -> ->] & Hy) (y' & [= E1 ->] & Hy'). apply (elem_of_txos c w l _ El) in Hy, Hy'.
    rewrite <-E1 in Hy'. congruence.
Qed.

(** The outpoints of the wallet's outputs are distinct. *)
Lemma txos_nodup c w l : txos_inner st c w = Ok l -> NoDup (sorted_txids c) -> NoDup (map wo_outpoint l).
Proof.
  intros [_ ->]%txos_inner_ok. induction (sorted_txids c) as [|t ts IH]; intros Hnd; [constructor|].
  apply NoDup_cons in Hnd as [Ht Hnd]. cbn [map concat]. rewrite map_app. apply NoDup_app. split_and!; [| |by apply IH].
  - destruct (cache_tx st w t) as [tx|]; [|constructor]. unfold tx_txos.
    assert (Hsub : map wo_outpoint (omap (txo_of c (mjoin (heights c !! t))) (enumerate_outputs t tx)) `sublist_of`
      (enumerate_outputs t tx).*1).
    { induction (enumerate_outputs t tx) as [|[op o] l IHl]; [constructor|]. cbn [omap list_omap].
      destruct (txo_of c _ (op, o)) as [x|] eqn:Ex; [|by apply sublist_cons].
      cbn. destruct (txo_of_outpoint _ _ _ _ _ Ex) as [-> _]. by apply sublist_skip. }
    eapply sublist_NoDup; [apply enumerate_nodup|exact Hsub].
  - intros op Hop Hop'. change (map ?f ?l) with (f <$> l) in Hop, Hop'.
    assert (Hid : forall t' x, x ∈ (match cache_tx st w t' with Some tx => tx_txos c t' tx | None => [] end) ->
      txid (wo_outpoint x) = t').
    { intros t' x Hx. destruct (cache_tx st w t'); [|by apply elem_of_nil in Hx].
      apply list_elem_of_omap in Hx as ([op' o] & Ho & Ex). apply elem_of_enumerate in Ho as (<- & _).
      by destruct (txo_of_outpoint _ _ _ _ _ Ex) as [-> _]. }
    apply list_elem_of_fmap in Hop as (x & -> & Hx). apply Hid in Hx.
    apply list_elem_of_fmap in Hop' as (y & Ey & Hy). apply elem_of_concat_map in Hy as (t' & Ht' & Hy).
    apply Hid in Hy. congruence.
Qed.

(** ** Sums over outpoints *)

(** What the output at an outpoint adds to the balance of an asset. *)
Definition worth_at (a : AssetId) (c : Cache) (w : W) (op : OutPoint) : Z :=
  from_option (fun x => worth a (wo_unblinded x)) 0 (txo_at c w op).

Section Accounting.
Context (c : Cache) (w : W) (a : AssetId) (l : list WalletTxOut) (m : gmap OutPoint WalletTxOut).
Context (Hl : txos_inner st c w = Ok l) (Hm : txos_map st c w = Ok m).

(** The outputs of one transaction, then of all. *)
Lemma outputs_worth t tx :
  t ∈ sorted_txids c -> cache_tx st w t = Some tx ->
  sum_map (fun x => worth a (wo_unblinded x)) (omap id (tx_outputs t tx m)) =
  sum_map (fun x => worth a (wo_unblinded x)) (tx_txos c t tx).
Proof using Hm.
  intros Ht Htx. unfold tx_outputs, tx_txos. rewrite !sum_map_omap, sum_map_map. apply sum_map_eq.
  intros [op o] Ho. apply elem_of_enumerate in Ho as (<- & Hv & Eo). cbn [fst id].
  rewrite (txos_map_lookup c w m op Hm). unfold txo_at. rewrite decide_True by done. rewrite Htx. cbn. by rewrite Eo.
Qed.

Lemma inputs_worth tx :
  sum_map (fun x => worth a (wo_unblinded x)) (omap id (tx_inputs tx m)) = sum_map (worth_at a c w) (prevouts tx).
Proof using Hm.
  unfold tx_inputs. rewrite sum_map_omap, sum_map_map. apply sum_map_eq. intros op _. cbn [id].
  by rewrite (txos_map_lookup c w m op Hm).
Qed.

Lemma all_outputs_worth :
  sum_map (fun x => worth a (wo_unblinded x)) l = sum_map (worth_at a c w) (map wo_outpoint l).
Proof using Hl.
  rewrite sum_map_map. apply sum_map_eq. intros x Hx%(elem_of_txos c w l x Hl). unfold worth_at. by rewrite Hx.
Qed.

Lemma all_inputs_worth ts :
  (forall t, t ∈ ts -> is_Some (cache_tx st w t)) ->
  sum_map (fun t => from_option (fun tx => sum_map (worth_at a c w) (prevouts tx)) 0 (cache_tx st w t)) ts =
  sum_map (worth_at a c w) (spent (ledger st w) ts).
Proof.
  intros Hk. induction ts as [|t ts IH]; [done|]. rewrite sum_map_cons.
  destruct (Hk t) as [tx Etx]; [by left|]. unfold spent, ledger, ledger_of. cbn [omap list_omap].
  rewrite Etx. cbn [from_option fmap option_fmap option_map map concat fst shape]. rewrite sum_map_app. f_equal.
  apply IH. intros t' Ht'. apply Hk. by right.
Qed.

(** What is spent and what is not. *)
Lemma worth_split (sp : list OutPoint) :
  NoDup sp -> NoDup (sorted_txids c) ->
  sum_map (worth_at a c w) (map wo_outpoint l) - sum_map (worth_at a c w) sp =
  sum_map (worth_at a c w) (base.filter (fun op => op ∉ sp) (map wo_outpoint l)).
Proof using Hl.
  intros Hsp Hnd. pose proof (txos_nodup c w l Hl Hnd) as HA. set (A := map wo_outpoint l) in *.
  assert (Hin : forall op, op ∉ A -> worth_at a c w op = 0).
  { intros op Hop. unfold worth_at. destruct (txo_at c w op) as [x|] eqn:Ex; [|done]. exfalso. apply Hop.
    destruct (txo_at_outpoint _ _ _ _ Ex) as [<- _]. unfold A. change (map wo_outpoint l) with (wo_outpoint <$> l).
    apply list_elem_of_fmap. exists x. split; [done|]. by apply (elem_of_txos c w l x Hl). }
  rewrite (sum_map_split _ (fun op => op ∈ sp) A), (sum_map_split _ (fun op => op ∈ A) sp).
  rewrite (sum_map_zero _ (base.filter (fun op => op ∉ A) sp)).
  2:{ intros op [Hop _]%list_elem_of_filter. by apply Hin. }
  rewrite (sum_map_perm _ (base.filter (fun op => op ∈ sp) A) (base.filter (fun op => op ∈ A) sp)); [lia|].
  apply NoDup_Permutation; [by apply NoDup_filter|by apply NoDup_filter|].
  intros op. rewrite !list_elem_of_filter. tauto.
Qed.
End Accounting.

(** ** The balance *)

Context (wf : W -> Prop).

(** The unspent outputs of the cache are the outputs in [txos] that are not spent. *)
Lemma unspent_outputs c w l us :
  wallet_inv st wf c w -> (forall op, is_Some (unblinded c !! op) -> 0 <= vout op) ->
  txos_inner st c w = Ok l -> utxos_inner c = Ok us ->
  (map_to_list (unspent c)).*1 ≡ₚ
    base.filter (fun op => op ∉ spent (ledger st w) (live c)) (map wo_outpoint l).
Proof.
  intros [_ Hun Hk Hs] Hv Hl Hus.
  assert (Hperm : sorted_txids c ≡ₚ live c) by (rewrite Hs; apply sort_by_perm).
  assert (Hnd : NoDup (live c)) by (apply NoDup_fst_map_to_list).
  apply NoDup_Permutation; [apply NoDup_fst_map_to_list| |].
  { apply NoDup_filter, (txos_nodup c w l Hl). by rewrite Hperm. }
  intros op. rewrite elem_of_keys, list_elem_of_filter. change (map wo_outpoint l) with (wo_outpoint <$> l).
  assert (Hiff : op ∈ wo_outpoint <$> l <-> is_Some (txo_at c w op)).
  { rewrite list_elem_of_fmap. setoid_rewrite (elem_of_txos c w l _ Hl). split.
    - intros (x & -> & Hx). eauto.
    - intros [x Hx]. exists x. by destruct (txo_at_outpoint _ _ _ _ Hx) as [-> _]. }
  rewrite Hiff, Hun. split.
  - intros [s Es]. apply lookup_utxo_set in Es as Hset. destruct Hset as (Hlive & Hns & Ho). split; [done|].
    unfold own in Ho. case_decide as Hu; [|done].
    apply bind_Some in Ho as ([ins outs] & Ex & (s' & Es' & Hp)%bind_Some). case_decide as Hpath; [|done].
    injection Hp as ->. unfold ledger, ledger_of in Ex. apply fmap_Some in Ex as (tx & Etx & [= -> ->]).
    cbn [snd shape] in Es'. rewrite list_lookup_fmap in Es'. apply fmap_Some in Es' as (o & Eo & ->).
    unfold txo_at. rewrite decide_True by (split; [by rewrite Hperm|by apply Hv]). rewrite Etx. cbn. rewrite Eo. cbn.
    unfold utxos_inner in Hus. apply rmapM_ok in Hus.
    assert (Hin : (op, script_pubkey o) ∈ map_to_list (unspent c)) by (apply elem_of_map_to_list; by rewrite Hun).
    apply list_elem_of_lookup in Hin as [i Hi]. apply (Forall2_lookup_l _ _ _ _ _ Hus) in Hi as (x & _ & Hx).
    unfold utxo_of in Hx. apply rbind_ok in Hx as (u & Eu%ok_or_ok & Hx).
    apply rbind_ok in Hx as (ix & Eix%ok_or_ok & Hx). apply rbind_ok in Hx as (ad & Ead%ok_or_ok & _).
    rewrite Eu. cbn. rewrite Eix. cbn. rewrite Ead. by eexists.
  - intros [Hns [x Hx]]. unfold txo_at in Hx. case_decide as Hd; [|done]. destruct Hd as [Ht Hvout].
    apply bind_Some in Hx as (tx & Etx & (o & Eo & Hx)%bind_Some).
    exists (script_pubkey o). apply lookup_utxo_set. split; [by rewrite <-Hperm|]. split; [done|].
    unfold txo_of in Hx. apply bind_Some in Hx as (u & Eu & (ix & Eix & _)%bind_Some).
    unfold own. rewrite decide_True by by eexists. unfold ledger, ledger_of. rewrite Etx. cbn.
    rewrite list_lookup_fmap, Eo. cbn. rewrite decide_True; [done|].
    unfold index in Eix. destruct (paths c !! script_pubkey o); [by eexists|done].
Qed.

Lemma utxos_worth c w l us a :
  wallet_inv st wf c w -> (forall op, is_Some (unblinded c !! op) -> 0 <= vout op) ->
  txos_inner st c w = Ok l -> utxos_inner c = Ok us ->
  sum_map (fun x => worth a (wo_unblinded x)) us =
  sum_map (worth_at a c w) (base.filter (fun op => op ∉ spent (ledger st w) (live c)) (map wo_outpoint l)).
Proof.
  intros HI Hv Hl Hus. pose proof (unspent_outputs c w l us HI Hv Hl Hus) as Hp.
  rewrite <-(sum_map_perm _ _ _ Hp). change ((map_to_list (unspent c)).*1) with (map fst (map_to_list (unspent c))).
  rewrite sum_map_map. unfold utxos_inner in Hus. apply rmapM_ok in Hus.
  assert (Hall : forall op, op ∈ (map_to_list (unspent c)).*1 -> is_Some (txo_at c w op)).
  { intros op Hop. rewrite Hp in Hop. apply list_elem_of_filter in Hop as [_ Hop].
    change (map wo_outpoint l) with (wo_outpoint <$> l) in Hop. apply list_elem_of_fmap in Hop as (x & -> & Hx).
    apply (elem_of_txos c w l x Hl) in Hx. eauto. }
  clear Hp. induction Hus as [|[op s] x ops us Hx _ IH]; [done|]. rewrite !sum_map_cons. f_equal.
  - cbn [fst]. destruct (Hall op) as [y Hy]; [by left|]. unfold worth_at. rewrite Hy. cbn [from_option].
    apply txo_at_outpoint in Hy as [_ Hy]. unfold utxo_of in Hx. apply rbind_ok in Hx as (u & Eu%ok_or_ok & Hx).
    apply rbind_ok in Hx as (ix & _ & Hx). apply rbind_ok in Hx as (ad & _ & Hx). injection Hx as <-. cbn.
    by simplify_eq.
  - apply IH. intros op' Hop'. apply Hall. by right.
Qed.

(** The transactions that are left out have no balance. *)
Lemma related_sum l a :
  sum_map (fun x => default 0 (wt_balance x !! a)) (base.filter (fun x => unrelated x = false) l) =
  sum_map (fun x => default 0 (wt_balance x !! a)) l.
Proof.
  rewrite (sum_map_split _ (fun x => unrelated x = false) l).
  rewrite (sum_map_zero _ (base.filter (fun x => ~ unrelated x = false) l)); [lia|].
  intros x [Hx _]%list_elem_of_filter. apply not_false_iff_true in Hx. unfold unrelated in Hx.
  apply andb_prop in Hx as [Hx _]. apply andb_prop in Hx as [Hx _]. apply bool_decide_eq_true in Hx.
  by rewrite Hx, lookup_empty.
Qed.

Lemma transactions_sum c w a m ts l :
  txos_map st c w = Ok m ->
  Forall2 (fun t x => (let? tx := ok_or (cache_tx st w t) (Generic "list_tx no tx") in
                       Ok (wallet_tx c t tx m)) = Ok x) ts l ->
  (forall t, t ∈ ts -> t ∈ sorted_txids c) ->
  cong64 (sum_map (fun x => default 0 (wt_balance x !! a)) l)
    (sum_map (fun t => sum_map (fun x => worth a (wo_unblinded x))
                (match cache_tx st w t with Some tx => tx_txos c t tx | None => [] end)) ts -
     sum_map (fun t => from_option (fun tx => sum_map (worth_at a c w) (prevouts tx)) 0 (cache_tx st w t)) ts).
Proof.
  intros Hm Hl Hs. induction Hl as [|t x ts l Hx _ IH]; [by exists 0|]. rewrite !sum_map_cons.
  rewrite IH by (intros t' Ht'; apply Hs; by right).
  apply rbind_ok in Hx as (tx & Etx%ok_or_ok & Hx). injection Hx as <-. rewrite Etx. cbn [wt_balance wallet_tx from_option].
  rewrite tx_balance_sum, (outputs_worth c w a m Hm t tx), (inputs_worth c w a m Hm tx) by (done || apply Hs; by left).
  exists 0. lia.
Qed.

(** C25: the books balance.  When the unspent outputs are right and no outpoint is spent
    twice by the wallet's transactions, then, for every asset, the balance of the wallet
    is the sum of the balances of its transactions (as sums of 64-bit integers, which
    wrap). *)
Theorem balance_is_sum_of_transactions c w n l b a :
  wallet_inv st wf c w -> (forall op, is_Some (unblinded c !! op) -> 0 <= vout op) ->
  NoDup (spent (ledger st w) (live c)) -> (length (sorted_txids c) <= n)%nat ->
  transactions_paginated st c w 0 n = Ok l -> balance c = Ok b ->
  cong64 (sum_map (fun x => default 0 (wt_balance x !! a)) l) (default 0 (b !! a)).
Proof.
  intros HI Hv Hnd Hn Ht Hb.
  assert (Hperm : sorted_txids c ≡ₚ live c) by (rewrite (inv_sorted _ _ _ _ HI); apply sort_by_perm).
  assert (Hts : NoDup (sorted_txids c)) by (rewrite Hperm; apply NoDup_fst_map_to_list).
  unfold transactions_paginated in Ht. apply rbind_ok in Ht as (m & Hm & Ht). apply rbind_ok in Ht as (l0 & Hl0 & E1).
  rewrite drop_0, firstn_all2 in Hl0 by done. injection E1 as <-. apply rmapM_ok in Hl0.
  pose proof Hm as Hm'. unfold txos_map in Hm'. apply rbind_ok in Hm' as (txl & Htxl & _).
  pose proof (txos_inner_ok _ _ _ Htxl) as [Hknown Etxl].
  unfold balance, utxos in Hb. apply rbind_ok in Hb as (us & (us0 & Hus0 & E1)%rbind_ok & E2).
  injection E1 as <-. injection E2 as <-.
  rewrite balance_from_utxos_sum, (sum_map_perm _ _ _ (sort_by_perm _ us0)).
  rewrite (utxos_worth c w txl us0 a HI Hv Htxl Hus0).
  assert (Hsp : spent (ledger st w) (sorted_txids c) ≡ₚ spent (ledger st w) (live c)).
  { unfold spent. by rewrite Hperm. }
  rewrite <-(worth_split c w a txl Htxl (spent (ledger st w) (live c)) Hnd Hts).
  rewrite <-(sum_map_perm _ _ _ Hsp), <-(all_outputs_worth c w a txl Htxl), <-(all_inputs_worth c w a _ Hknown).
  rewrite Etxl, sum_map_concat_map.
  rewrite related_sum. by apply (transactions_sum c w a m).
Qed.
End Books.

(** ** Unblinding again *)

Section Reunblind.
Context {P : Platform} {S : Secp} {H : Hashes} {J : JsonStrings} {E : WolletEnv}.
Context {W : Type} (st : Store W) (wf : W -> Prop).

(** An output that [reunblind] manages to read does not become spendable.  If the
    wallet's unspent outputs were right and the output is in a live transaction and not
    spent, then afterwards it is an unspent output of the wallet (the set computed from scratch has
    it), but the cache still does not list it. *)
Theorem reunblind_misses_outputs c w c' found o :
  wallet_inv st wf c w -> reunblind st c w = (c', found) -> o ∈ found ->
  txid o ∈ live c -> o ∉ spent (ledger st w) (live c) ->
  unspent c' !! o = None /\ is_Some (utxo_set c' (ledger st w) !! o).
Proof.
  intros [_ Hun _ _] Hr Ho Hlive Hns. unfold reunblind in Hr. injection Hr as <- <-.
  apply list_elem_of_fmap in Ho as ([op s] & -> & Ho). cbn [fst] in *. pose proof Ho as Hin.
  apply elem_of_concat_map in Ho as (t & _ & Ho). destruct (cache_tx st w t) as [tx|] eqn:Etx; [|by apply elem_of_nil in Ho].
  apply list_elem_of_filter in Ho as [Hnew Ho]. cbn [fst] in Hnew. unfold unblind_outputs in Ho.
  apply list_elem_of_omap in Ho as ([op' out] & He & Hu). case_decide as Hpath; [|done].
  apply bind_Some in Hu as (s' & _ & [= -> ->]). apply elem_of_enumerate in He as (<- & Hv & Eo). split.
  - cbn [unspent set_unblinded]. rewrite Hun. destruct (utxo_set c (ledger st w) !! op) eqn:Eu; [|done].
    apply lookup_utxo_set in Eu as (_ & _ & Eu). unfold own in Eu. rewrite decide_False in Eu; [done|].
    by rewrite Hnew; intros [].
  - exists (script_pubkey out). apply lookup_utxo_set. split; [done|]. split; [done|].
    unfold own. rewrite decide_True.
    + unfold ledger, ledger_of. rewrite Etx. cbn. rewrite list_lookup_fmap, Eo. cbn. by rewrite decide_True.
    + cbn [unblinded set_unblinded]. apply extend_lookup_is_Some. left. apply list_elem_of_fmap. by exists (op, s).
Qed.
End Reunblind.

(** ** Types of transactions *)

Section Types.
Context {P : Platform} {S : Secp} {H : Hashes} {J : JsonStrings} {E : WolletEnv}.

Lemma singleton_balance (a : AssetId) (v : Z) :
  base.size ({[a := v]} : gmap AssetId Z) = 1%nat /\ map_to_list ({[a := v]} : gmap AssetId Z) = [(a, v)].
Proof. split; [apply map_size_singleton|apply map_to_list_singleton]. Qed.

(** A transaction of the wallet to itself, whose balance is minus its fee, is never
    called a redeposit: [tx_type] compares the balance with plus the fee, so it calls it outgoing,
    and calls a payment to the wallet of the amount of the fee a redeposit. *)
Theorem redeposit_not_recognised tx fee :
  existsb (fun i => has_issuance i) (input tx) = false ->
  existsb (fun o => bool_decide (script_pubkey o = burn_script)) (output tx) = false ->
  0 < fee < 2 ^ 63 ->
  tx_type tx policy_asset {[policy_asset := - fee]} fee = Outgoing /\
  tx_type tx policy_asset {[policy_asset := fee]} fee = Redeposit.
Proof.
  intros Hi Hb Hf.
  assert (Hni : forall b, existsb (fun i => has_issuance i &&
    Bool.eqb b (bool_decide (asset_blinding_nonce (asset_issuance i) = ZERO_TWEAK))) (input tx) = false).
  { intros b. revert Hi. induction (input tx) as [|i l IH]; [done|]. cbn [existsb].
    intros [Hi Hl]%orb_false_iff. by rewrite Hi, IH. }
  assert (Hw : wrap_i64 fee = fee).
  { unfold wrap_i64. rewrite Z.mod_small; lia. }
  unfold tx_type. rewrite !Hni, Hb, Hw. destruct (singleton_balance policy_asset (- fee)) as [-> ->].
  destruct (singleton_balance policy_asset fee) as [-> _].
  rewrite !lookup_singleton_eq. split; [|by rewrite bool_decide_eq_true_2].
  rewrite bool_decide_eq_false_2 by (intros [= ?]; lia). cbn [Nat.eqb andb].
  rewrite bool_decide_eq_false_2 by apply map_non_empty_singleton. cbn [forallb snd].
  destruct (Z.ltb_spec 0 (- fee)); [lia|]. destruct (Z.ltb_spec (- fee) 0); [done|lia].
Qed.
End Types.

(** ** Samples *)

Module ViewsSample.
Export WolletSample.

Definition ok_or_nil {X E} (r : result (list X) E) : list X := match r with Ok l => l | Err _ => [] end.

Definition sample_txs : list WalletTx :=
  ok_or_nil (transactions_paginated memory_store state2.1 state2.2 0 10).
Definition sample_balance : gmap AssetId Z :=
  match balance state2.1 with Ok b => b | Err _ => ∅ end.

(** The parent with an output that was not unblinded when it was received. *)
Definition upd_blind : Update :=
  mkUpdate 4 0 (mkDownload [(parent_id, parent)] []) [(parent_id, None)] [] [] sample_scripts
    default_blockheader [] (mkLastUnused 0 1).
Definition blind_state : Cache * gmap bytes bytes := applied upd_blind state0.

Lemma blind_state_inv : wallet_inv memory_store (fun _ => True) blind_state.1 blind_state.2.
Proof.
  apply (wallet_inv_wallet_step memory_store (fun _ => True) (fun _ => True) (fun _ => True)
    (fun m k => m !! k) memory_laws (fun _ _ => I) I state0); [|by apply wallet_inv_init].
  apply (applied_step upd_blind); [vm_compute; reflexivity|apply agree_single; [done|apply parent_tx_wf|done]|].
  split; try (intros ? ? ? [[]%elem_of_nil _]); try (intros ? ? [[]%elem_of_nil _]).
  - intros t _ []%elem_of_nil.
  - intros t ->%list_elem_of_singleton. vm_compute. by eexists.
  - intros o []%elem_of_nil.
Qed.
End ViewsSample.
Import ViewsSample.

Lemma reunblind_misses_outputs_witness :
  let x := reunblind memory_store blind_state.1 blind_state.2 in
  unspent x.1 !! mkOutPoint parent_id 0 = None /\
  is_Some (utxo_set x.1 (ledger memory_store blind_state.2) !! mkOutPoint parent_id 0).
Proof.
  intros x. apply (reunblind_misses_outputs memory_store (fun _ => True) blind_state.1 blind_state.2 x.1 x.2).
  - exact blind_state_inv.
  - apply surjective_pairing.
  - apply (proj1 (bool_decide_eq_true _)). vm_compute. reflexivity.
  - apply (proj1 (bool_decide_eq_true _)). vm_compute. reflexivity.
  - apply (proj1 (bool_decide_eq_true _)). vm_compute. reflexivity.
Defined.

(** 100 received, 40 sent: 60 left. *)
Lemma balance_is_sum_of_transactions_witness :
  default 0 (sample_balance !! lbtc) = 60 /\
  cong64 (sum_map (fun x => default 0 (wt_balance x !! lbtc)) sample_txs) (default 0 (sample_balance !! lbtc)).
Proof.
  split; [vm_compute; reflexivity|].
  apply (balance_is_sum_of_transactions memory_store (fun _ => True) state2.1 state2.2 10).
  - exact state2_inv.
  - intros op [->| ->]%unblinded2; done.
  - replace (spent (ledger memory_store state2.2) (live state2.1))
      with [mkOutPoint parent_id 0; mkOutPoint (hash Byte.x77) 3] by (vm_compute; reflexivity).
    apply (bool_decide_unpack _). vm_compute. done.
  - vm_compute. lia.
  - unfold sample_txs. assert (Hok : is_ok (transactions_paginated memory_store state2.1 state2.2 0 10) = true)
      by (vm_compute; reflexivity).
    destruct (transactions_paginated memory_store state2.1 state2.2 0 10); done.
  - unfold sample_balance. assert (Hok : is_ok (balance state2.1) = true) by (vm_compute; reflexivity).
    destruct (balance state2.1); done.
Defined.

Lemma redeposit_not_recognised_witness :
  tx_type child policy_asset {[policy_asset := -40]} 40 = Outgoing /\
  tx_type child policy_asset {[policy_asset := 40]} 40 = Redeposit.
Proof. apply (redeposit_not_recognised child 40); [vm_compute; reflexivity|vm_compute; reflexivity|lia]. Defined.
