(* ===== verification/Scan.v ===== *)
(** * Scanning the chain

    The backend-independent part of [lwk_wollet/src/clients/blocking/mod.rs]
    ([get_history], [full_scan_to_index], [download_txs], [download_headers]) with the
    script batches of [cache.rs].  The server is a set of functions: the histories of a
    list of scripts, the transactions and headers asked for, the tip.  The derivation
    of scripts is a parameter. *)

From S2P Require Import Prelude Order Encode Script Confidential Transaction TxMetrics Sighash Store Block Update Cache Address Wollet.

Definition BATCH_SIZE : Z := 20.

Record History := mkHistory
  { h_txid : bytes;
    h_height : Z;
    h_block_hash : option bytes }.

Section Scan.
Context {P : Platform} {S : Secp} {H : Hashes} {J : JsonStrings} {E : WolletEnv}.

(** [WolletDescriptor], as a scan uses it: [derive_script_and_blinding_key], [spk_count]
    and [as_single_descriptors], of each single descriptor its chain and [has_wildcard]. *)
Record ScanDescriptor := mkScanDescriptor
  { derive_script : Chain -> ChildNumber -> result (Script * option PublicKey) wollet_error;
    spk_count : option Z;
    single_descriptors : result (list (Chain * bool)) wollet_error }.

(** [BlockchainBackend], without the waterfalls capability: what the server answers
    during one scan. *)
Record Backend := mkBackend
  { get_scripts_history : list Script -> result (list (list History)) wollet_error;
    get_transactions : list bytes -> result (list Transaction) wollet_error;
    get_headers : list Z -> gmap Z bytes -> result (list BlockHeader) wollet_error;
    get_tip : result BlockHeader wollet_error;
    backend_utxo_only : bool }.

Context (desc : ScanDescriptor) (srv : Backend).

(** ** Batches of scripts *)

(** [ChildNumber::from_normal_idx]. *)
Definition from_normal_idx (j : Z) : result ChildNumber wollet_error :=
  if j <? 2 ^ 31 then Ok (Normal j) else Err DescriptorError.

Definition get_or_derive (c : Cache) (ext_int : Chain) (child : ChildNumber)
  : result (Script * option PublicKey * bool) wollet_error :=
  match scripts c !! (ext_int, child) with
  | Some (s, k) => Ok (s, k, true)
  | None => let? (s, k) := derive_script desc ext_int child in Ok (s, k, false)
  end.

Record ScriptBatch := mkBatch
  { cached : bool;
    batch_value : list (Script * (Chain * ChildNumber * option PublicKey)) }.

(** The loop over the indexes of a batch: the flag is that of the last script. *)
Fixpoint fill_batch (c : Cache) (ext_int : Chain) (l : list Z) (b : ScriptBatch)
  : result ScriptBatch wollet_error :=
  match l with
  | [] => Ok b
  | j :: l =>
      let? child := from_normal_idx j in
      let? (s, k, cached) := get_or_derive c ext_int child in
      fill_batch c ext_int l (mkBatch cached (batch_value b ++ [(s, (ext_int, child, k))]))
  end.

(** [Cache::get_script_batch].  An index at which [u32] arithmetic would overflow is
    past the last child number, and is refused. *)
Definition get_script_batch (c : Cache) (batch : Z) (ext_int : Chain) : result ScriptBatch wollet_error :=
  let result := mkBatch true [] in
  match spk_count desc with
  | Some count => if 0 <? batch then Ok result else fill_batch c External (seqZ 0 count) result
  | None => fill_batch c ext_int (seqZ (batch * BATCH_SIZE) BATCH_SIZE) result
  end.

(** ** Histories *)

Record Data := mkData
  { txid_height : gmap bytes (option Z);
    d_scripts : gmap Script (Chain * ChildNumber * option PublicKey);
    d_last_unused : LastUnused;
    height_blockhash : gmap Z bytes }.

Definition Data_default : Data := mkData ∅ ∅ LastUnused_default ∅.

(** The heights -1 and 0 both mean unconfirmed. *)
Definition add_history (d : Data) (el : History) : Data :=
  let height := Z.max (h_height el) 0 in
  if height =? 0 then
    mkData (<[h_txid el := None]> (txid_height d)) (d_scripts d) (d_last_unused d) (height_blockhash d)
  else
    mkData (<[h_txid el := Some height]> (txid_height d)) (d_scripts d) (d_last_unused d)
      (match h_block_hash el with
       | Some hash => <[height := hash]> (height_blockhash d)
       | None => height_blockhash d
       end).

(** The position of the last script with a history. *)
Definition max_used (l : list (list History)) : option Z :=
  last (omap (fun x => x) (imap (fun i v => if is_empty v then None else Some (Z.of_nat i)) l)).

Definition set_last_unused (d : Data) (chain : Chain) (v : Z) : Data :=
  mkData (txid_height d) (d_scripts d)
    (match chain with
     | External => mkLastUnused (lu_internal (d_last_unused d)) v
     | Internal => mkLastUnused v (lu_external (d_last_unused d))
     end) (height_blockhash d).

Definition last_unused_of (l : LastUnused) (chain : Chain) : Z :=
  match chain with External => lu_external l | Internal => lu_internal l end.

(** The loop over the batches of one chain; [None]: out of fuel.  The second component
    tells a descriptor without a wildcard, which ends the scan. *)
Fixpoint scan_chain (fuel : nat) (c : Cache) (chain : Chain) (wildcard : bool) (index : Z)
    (batch_count : Z) (d : Data) : option (result (Data * bool) wollet_error) :=
  match fuel with
  | O => None
  | Datatypes.S fuel =>
      match get_script_batch c batch_count chain with
      | Err e => Some (Err e)
      | Ok batch =>
          match get_scripts_history srv (map fst (batch_value batch)) with
          | Err e => Some (Err e)
          | Ok res =>
              let d := if cached batch then d
                       else mkData (txid_height d) (extend (d_scripts d) (batch_value batch))
                              (d_last_unused d) (height_blockhash d) in
              let d := match max_used res with
                       | Some max => set_last_unused d chain (1 + max + batch_count * BATCH_SIZE)
                       | None => d
                       end in
              let flattened := concat res in
              if is_empty flattened && (index <=? 1 + batch_count * BATCH_SIZE) then Some (Ok (d, false))
              else
                let d := foldl add_history d flattened in
                if wildcard then scan_chain fuel c chain wildcard index (batch_count + 1) d
                else Some (Ok (d, true))
          end
      end
  end.

(** [get_history], over the single descriptors of the wallet's descriptor. *)
Fixpoint get_history (fuel : nat) (c : Cache) (descriptors : list (Chain * bool)) (index : Z)
    (last_unused : LastUnused) (d : Data) : option (result Data wollet_error) :=
  match descriptors with
  | [] => Some (Ok d)
  | (chain, wildcard) :: descriptors =>
      r ← scan_chain fuel c chain wildcard (Z.max index (last_unused_of last_unused chain)) 0 d;
      match r with
      | Err e => Some (Err e)
      | Ok (d, true) => Some (Ok d)
      | Ok (d, false) => get_history fuel c descriptors index last_unused d
      end
  end.

(** ** The update *)

(** What changed of the transactions' heights, and the transactions that are gone. *)
Definition scan_new (hs hist : gmap bytes (option Z)) : list (bytes * option Z) :=
  map_to_list (base.filter (fun '(k, v) => hs !! k <> Some v) hist).
Definition scan_deleted (hs hist : gmap bytes (option Z)) : list bytes :=
  (map_to_list (base.filter (fun '(k, _) => hist !! k = None) hs)).*1.

(** [download_txs]: the transactions of the history that are not in the store, and the
    secrets of their outputs to known or new scripts. *)
Definition download_tx (c : Cache) (new_scripts : gmap Script (Chain * ChildNumber * option PublicKey))
    (tx : Transaction) : list (OutPoint * TxOutSecrets) :=
  omap (fun '(op, o) =>
    if decide (is_Some (paths c !! script_pubkey o) \/ is_Some (new_scripts !! script_pubkey o))
    then s ← try_unblind o; Some (op, s) else None)
    (enumerate_outputs (tx_txid tx) tx).

Definition txs_to_download (c : Cache) (hist : gmap bytes (option Z)) : list bytes :=
  elements (dom hist ∖ txids c).

Definition download_txs (c : Cache) (d : Data) : result DownloadTxResult wollet_error :=
  let? downloaded := get_transactions srv (txs_to_download c (txid_height d)) in
  Ok (mkDownload (map (fun tx => (tx_txid tx, tx)) downloaded)
        (concat (map (download_tx c (d_scripts d)) downloaded))).

(** [download_headers]: the heights of the history and of the tip at which the cache has
    no transaction. *)
Definition confirmed_heights (m : gmap bytes (option Z)) : gset Z :=
  list_to_set (omap snd (map_to_list m)).

Definition heights_to_download (c : Cache) (d : Data) (tip_height : Z) : list Z :=
  elements (({[tip_height]} ∪ confirmed_heights (txid_height d)) ∖ confirmed_heights (heights c)).

Definition download_headers (c : Cache) (d : Data) (tip_height : Z) : result (list (Z * Z)) wollet_error :=
  let l := heights_to_download c d tip_height in
  if is_empty l then Ok []
  else let? hs := get_headers srv l (height_blockhash d) in
       Ok (map (fun h => (hdr_height h, hdr_time h)) hs).

(** The end of [full_scan_to_index]: the update, if anything is considered changed.  The
    tip is hashed only when nothing else changed; [None] is the panic of hashing a
    header without an anchor. *)
Definition scanned (c : Cache) (d : Data) (new_txs : DownloadTxResult) (tstamps : list (Z * Z))
    (tip_header : BlockHeader) : Update :=
  mkUpdate 4 (status c) new_txs (scan_new (heights c) (txid_height d))
    (scan_deleted (heights c) (txid_height d)) tstamps
    (map (fun '(s, (chain, child, k)) => (chain, child, s, k)) (map_to_list (d_scripts d)))
    tip_header [] (d_last_unused d).

Definition scan_update (c : Cache) (d : Data) (new_txs : DownloadTxResult) (tstamps : list (Z * Z))
    (tip_header : BlockHeader) : option (option Update) :=
  let last_unused_changed :=
    negb (last_unused_external c =? lu_external (d_last_unused d)) ||
    negb (last_unused_internal c =? lu_internal (d_last_unused d)) in
  if negb (is_empty (txs new_txs)) || last_unused_changed ||
     bool_decide (d_scripts d <> ∅) || negb (is_empty tstamps)
  then Some (Some (scanned c d new_txs tstamps tip_header))
  else
    tip_hash ← block_hash tip_header;
    Some (if bool_decide (tip c <> (hdr_height tip_header, tip_hash))
          then Some (scanned c d new_txs tstamps tip_header) else None).

(** [full_scan_to_index]; [None]: out of fuel, or that panic. *)
Definition full_scan_to_index (fuel : nat) (utxo_only : bool) (c : Cache) (index : Z)
  : option (result (option Update) wollet_error) :=
  if negb (Bool.eqb utxo_only (backend_utxo_only srv)) then Some (Err UtxoOnlyIncompatible)
  else
    match single_descriptors desc with
    | Err e => Some (Err e)
    | Ok descriptors =>
        let last_unused := mkLastUnused (last_unused_internal c) (last_unused_external c) in
        r ← get_history fuel c descriptors index last_unused Data_default;
        match r with
        | Err e => Some (Err e)
        | Ok d =>
            match get_tip srv with
            | Err e => Some (Err e)
            | Ok tip_header =>
                match download_txs c d with
                | Err e => Some (Err e)
                | Ok new_txs =>
                    match download_headers c d (hdr_height tip_header) with
                    | Err e => Some (Err e)
                    | Ok tstamps =>
                        u ← scan_update c d new_txs tstamps tip_header; Some (Ok u)
                    end
                end
            end
        end
    end.
End Scan.

(** ** What a scan finds *)

(** The height an entry of a history stands for. *)
Definition entry (el : History) : bytes * option Z :=
  (h_txid el, if Z.max (h_height el) 0 =? 0 then None else Some (Z.max (h_height el) 0)).

(** The heights that changed, and the transactions that are gone. *)
Lemma elem_of_scan_new hs hs' t :
  t ∈ (scan_new hs hs').*1 <-> exists v, hs !! t <> Some v /\ hs' !! t = Some v.
Proof.
  unfold scan_new. rewrite list_elem_of_fmap. split.
  - intros ([k v] & -> & [E1 E2]%elem_of_map_to_list%map_lookup_filter_Some). simpl. eauto.
  - intros (v & E1 & E2). exists (t, v). split; [done|]. by apply elem_of_map_to_list, map_lookup_filter_Some.
Qed.

Lemma elem_of_scan_deleted hs hs' t : t ∈ scan_deleted hs hs' <-> is_Some (hs !! t) /\ hs' !! t = None.
Proof.
  unfold scan_deleted. rewrite list_elem_of_fmap. split.
  - intros ([k v] & -> & [E1 E2]%elem_of_map_to_list%map_lookup_filter_Some). simpl. eauto.
  - intros [[v E1] E2]. exists (t, v). split; [done|]. by apply elem_of_map_to_list, map_lookup_filter_Some.
Qed.

Section ScanHistory.
Context {P : Platform} {S : Secp} {H : Hashes} {J : JsonStrings} {E : WolletEnv}.

Lemma add_history_heights l d :
  txid_height (foldl add_history d l) = extend (txid_height d) (map entry l) /\
  d_last_unused (foldl add_history d l) = d_last_unused d.
Proof.
  revert d. induction l as [|el l IH]; intros d; [done|]. simpl. destruct (IH (add_history d el)) as [-> ->].
  unfold extend at 2. simpl. unfold extend, add_history, entry. simpl.
  destruct (Z.max (h_height el) 0 =? 0); done.
Qed.

Lemma max_used_spec l :
  match max_used l with
  | Some m => 0 <= m < zlen l /\ (exists h, l !! Z.to_nat m = Some h /\ h <> []) /\
              forall i h, l !! i = Some h -> h <> [] -> Z.of_nat i <= m
  | None => forall i h, l !! i = Some h -> h = []
  end.
Proof.
  unfold max_used, zlen. induction l as [|h l IH] using rev_ind; [done|].
  rewrite imap_app, omap_app, length_app. simpl. rewrite Nat.add_0_r.
  destruct h as [|el h]; simpl.
  - rewrite app_nil_r. destruct (last _) as [m|].
    + destruct IH as (Hm & (h & Eh & Hh) & Hmax). split_and!; [lia|lia| |].
      * exists h. split; [|done]. rewrite lookup_app_l; [done|lia].
      * intros i h' Hi Hne. apply lookup_app_Some in Hi as [Hi|[_ Hi]]; [by eapply Hmax|].
        apply list_lookup_singleton_Some in Hi as [_ <-]. done.
    + intros i h' Hi. apply lookup_app_Some in Hi as [Hi|[_ Hi]]; [by eapply IH|].
      by apply list_lookup_singleton_Some in Hi as [_ <-].
  - rewrite last_snoc. split_and!; [lia|lia| |].
    + exists (el :: h). split; [|done]. rewrite Nat2Z.id, lookup_app_r, Nat.sub_diag by lia. done.
    + intros i h' Hi _. apply lookup_lt_Some in Hi. rewrite length_app in Hi. simpl in Hi. lia.
Qed.

(** A wallet with a wildcard descriptor: the script at each index, a cache that holds
    none but those, and a server that answers for any list of scripts. *)
Context (desc : ScanDescriptor) (srv : Backend) (c : Cache).
Context (spk : Chain -> Z -> Script) (hist : Script -> list History).
Context (Hspk : spk_count desc = None).
Context (Hder : forall chain i, 0 <= i < 2 ^ 31 -> exists k, derive_script desc chain (Normal i) = Ok (spk chain i, k)).
Context (Hcache : forall chain i s k, scripts c !! (chain, Normal i) = Some (s, k) -> s = spk chain i).
Context (Hsrv : forall l, get_scripts_history srv l = Ok (map hist l)).

Abbreviation used chain i := (hist (spk chain i) <> []).

Lemma fill_batch_ok chain l b :
  Forall (fun j => 0 <= j < 2 ^ 31) l ->
  exists b', fill_batch desc c chain l b = Ok b' /\
    map fst (batch_value b') = map fst (batch_value b) ++ map (spk chain) l.
Proof using Hcache Hder.
  intros Hl. revert b. induction Hl as [|j l Hj Hl IH]; intros b; simpl.
  - exists b. by rewrite app_nil_r.
  - unfold from_normal_idx. destruct (Z.ltb_spec j (2 ^ 31)); [|lia]. simpl. unfold get_or_derive.
    destruct (scripts c !! (chain, Normal j)) as [[s k]|] eqn:Es; simpl.
    + apply Hcache in Es as ->. destruct (IH (mkBatch true (batch_value b ++ [(spk chain j, (chain, Normal j, k))]))) as (b' & -> & Eb).
      exists b'. split; [done|]. rewrite Eb. simpl. by rewrite map_app, <-app_assoc.
    + destruct (Hder chain j Hj) as [k ->]. simpl.
      destruct (IH (mkBatch false (batch_value b ++ [(spk chain j, (chain, Normal j, k))]))) as (b' & -> & Eb).
      exists b'. split; [done|]. rewrite Eb. simpl. by rewrite map_app, <-app_assoc.
Qed.

Lemma batch_ok chain b :
  0 <= b -> (b + 1) * 20 <= 2 ^ 31 ->
  exists bt, get_script_batch desc c b chain = Ok bt /\
    map fst (batch_value bt) = map (spk chain) (seqZ (b * 20) 20).
Proof using Hcache Hder Hspk.
  intros Hb Hm. unfold get_script_batch. rewrite Hspk. apply fill_batch_ok, Forall_forall.
  intros j Hj%elem_of_seqZ. unfold BATCH_SIZE in Hj. lia.
Qed.

(** The histories of a range of indexes of a chain. *)
Definition found (chain : Chain) (from n : Z) : list History :=
  concat (map (fun i => hist (spk chain i)) (seqZ from n)).

Lemma found_empty chain from n :
  is_empty (found chain from n) = true <-> forall i, from <= i < from + n -> hist (spk chain i) = [].
Proof.
  unfold found. split.
  - intros He i Hi. destruct (hist (spk chain i)) as [|el h] eqn:Eh; [done|]. exfalso.
    assert (Hin : el ∈ concat (map (fun i => hist (spk chain i)) (seqZ from n))).
    { apply elem_of_concat_map. exists i. rewrite Eh. split; [by apply elem_of_seqZ|by left]. }
    destruct (concat _); [by apply elem_of_nil in Hin|done].
  - intros He. destruct (concat _) as [|el l] eqn:El; [done|]. exfalso.
    assert (Hin : el ∈ concat (map (fun i => hist (spk chain i)) (seqZ from n))) by (rewrite El; by left).
    apply elem_of_concat_map in Hin as (i & Hi & Hel). apply elem_of_seqZ in Hi.
    rewrite (He i Hi) in Hel. by apply elem_of_nil in Hel.
Qed.

Lemma found_app chain from n m :
  0 <= n -> 0 <= m -> found chain from (n + m) = found chain from n ++ found chain (from + n) m.
Proof. intros Hn Hm. unfold found. by rewrite seqZ_app, map_app, concat_app by lia. Qed.

(** What the index counter of a chain means after looking at the indexes below [n]. *)
Definition lu_ok (chain : Chain) (n : Z) (d : Data) : Prop :=
  let v := last_unused_of (d_last_unused d) chain in
  (forall i, 0 <= i < n -> used chain i -> i < v) /\
  (v = 0 \/ (0 < v <= n /\ used chain (v - 1))).

(** One batch. *)
Definition batch_lu (chain : Chain) (b : Z) (res : list (list History)) (d : Data) : Data :=
  match max_used res with
  | Some max => set_last_unused d chain (1 + max + b * BATCH_SIZE)
  | None => d
  end.

Lemma last_unused_set d chain v : last_unused_of (d_last_unused (set_last_unused d chain v)) chain = v.
Proof. by destruct chain. Qed.

Lemma last_unused_set_ne d chain chain' v :
  chain <> chain' ->
  last_unused_of (d_last_unused (set_last_unused d chain v)) chain' = last_unused_of (d_last_unused d) chain'.
Proof. by destruct chain, chain'. Qed.

Lemma batch_lu_ok chain b d :
  0 <= b -> lu_ok chain (b * 20) d ->
  lu_ok chain ((b + 1) * 20) (batch_lu chain b (map hist (map (spk chain) (seqZ (b * 20) 20))) d).
Proof.
  intros Hb [H1 H2]. unfold batch_lu, lu_ok.
  set (res := map hist (map (spk chain) (seqZ (b * 20) 20))).
  assert (Hres : forall i, b * 20 <= i < (b + 1) * 20 -> res !! Z.to_nat (i - b * 20) = Some (hist (spk chain i))).
  { intros i Hi. unfold res. change (map hist ?l) with (hist <$> l). change (map (spk chain) ?l) with (spk chain <$> l).
    rewrite !list_lookup_fmap, lookup_seqZ_lt by lia. simpl. do 3 f_equal. lia. }
  pose proof (max_used_spec res) as Hm. destruct (max_used res) as [m|].
  - destruct Hm as (Hr & (h & Eh & Hh) & Hmax). rewrite last_unused_set. unfold BATCH_SIZE.
    assert (Hlen : zlen res = 20).
    { unfold zlen, res. rewrite !length_map, length_seqZ. lia. }
    split.
    + intros i Hi Hu. destruct (Z.lt_ge_cases i (b * 20)); [lia|].
      specialize (Hmax _ _ (Hres i ltac:(lia)) Hu). lia.
    + right. split; [lia|]. specialize (Hres (m + b * 20) ltac:(lia)).
      replace (m + b * 20 - b * 20) with m in Hres by lia. rewrite Eh in Hres.
      injection Hres as ->. by replace (1 + m + b * 20 - 1) with (m + b * 20) by lia.
  - split.
    + intros i Hi Hu. destruct (Z.lt_ge_cases i (b * 20)); [apply H1; [lia|done]|].
      specialize (Hm _ _ (Hres i ltac:(lia))). done.
    + destruct H2 as [H2|[H2 H3]]; [by left|]. right. split; [lia|done].
Qed.

(** The state after the batch's scripts and counter are recorded. *)
Lemma scan_chain_step fuel chain idx b d :
  0 <= b -> (b + 1) * 20 <= 2 ^ 31 ->
  exists d1, txid_height d1 = txid_height d /\ d_last_unused d1 = d_last_unused d /\
    let res := map hist (map (spk chain) (seqZ (b * 20) 20)) in
    scan_chain desc srv (Datatypes.S fuel) c chain true idx b d =
      if is_empty (found chain (b * 20) 20) && (idx <=? 1 + b * 20)
      then Some (Ok (batch_lu chain b res d1, false))
      else scan_chain desc srv fuel c chain true idx (b + 1)
             (foldl add_history (batch_lu chain b res d1) (found chain (b * 20) 20)).
Proof using Hcache Hder Hspk Hsrv.
  intros Hb Hm. destruct (batch_ok chain b Hb Hm) as (bt & Ebt & Ev).
  exists (if cached bt then d else mkData (txid_height d) (extend (d_scripts d) (batch_value bt))
            (d_last_unused d) (height_blockhash d)).
  split; [by destruct (cached bt)|]. split; [by destruct (cached bt)|].
  cbn [scan_chain]. rewrite Ebt, Hsrv, Ev. unfold batch_lu, found. by rewrite map_map.
Qed.

Lemma batch_lu_heights chain b res d : txid_height (batch_lu chain b res d) = txid_height d.
Proof. unfold batch_lu. by destruct (max_used res). Qed.

Lemma batch_lu_other chain chain' b res d :
  chain' <> chain ->
  last_unused_of (d_last_unused (batch_lu chain b res d)) chain' = last_unused_of (d_last_unused d) chain'.
Proof. intros Hne. unfold batch_lu. destruct (max_used res); [|done]. by apply last_unused_set_ne. Qed.

Lemma lu_ok_ext chain n d d' : d_last_unused d = d_last_unused d' -> lu_ok chain n d -> lu_ok chain n d'.
Proof. unfold lu_ok. by intros <-. Qed.

(** The loop over the batches ends at the first empty batch that is past the wanted
    index, and has recorded the histories before it. *)
Lemma scan_chain_ok chain idx fuel : forall (k : nat) b d,
  0 <= b -> (k < fuel)%nat -> (b + Z.of_nat k + 1) * 20 <= 2 ^ 31 ->
  (forall i, (b + Z.of_nat k) * 20 <= i < (b + Z.of_nat k + 1) * 20 -> hist (spk chain i) = []) ->
  idx <= 1 + (b + Z.of_nat k) * 20 -> lu_ok chain (b * 20) d ->
  exists d' e, scan_chain desc srv fuel c chain true idx b d = Some (Ok (d', false)) /\ b <= e <= b + Z.of_nat k /\
    (forall i, e * 20 <= i < (e + 1) * 20 -> hist (spk chain i) = []) /\ idx <= 1 + e * 20 /\
    txid_height d' = extend (txid_height d) (map entry (found chain (b * 20) ((e - b) * 20))) /\
    lu_ok chain ((e + 1) * 20) d' /\
    (forall chain', chain' <> chain ->
       last_unused_of (d_last_unused d') chain' = last_unused_of (d_last_unused d) chain').
Proof using Hcache Hder Hspk Hsrv.
  induction fuel as [|fuel IH]; intros k b d Hb Hk Hm Hend Hidx Hlu; [lia|].
  destruct (scan_chain_step fuel chain idx b d Hb ltac:(lia)) as (d1 & Eh1 & El1 & ->).
  apply (lu_ok_ext _ _ _ d1) in Hlu; [|done]. apply batch_lu_ok in Hlu; [|done].
  set (res := map hist (map (spk chain) (seqZ (b * 20) 20))) in *.
  destruct (is_empty (found chain (b * 20) 20) && (idx <=? 1 + b * 20)) eqn:Estop.
  - apply andb_prop in Estop as [Hemp Hi%Z.leb_le]. rewrite found_empty in Hemp.
    exists (batch_lu chain b res d1), b. split_and!; [done|lia|lia| |done| |done|].
    + intros i Hi'. apply Hemp. lia.
    + rewrite batch_lu_heights, Eh1, Z.sub_diag. done.
    + intros chain' Hne. by rewrite batch_lu_other, El1.
  - destruct k as [|k].
    { apply andb_false_iff in Estop as [Hs|Hs]; [|lia]. exfalso.
      assert (Ht : is_empty (found chain (b * 20) 20) = true); [|congruence].
      apply found_empty. intros i Hi. apply Hend. lia. }
    destruct (add_history_heights (found chain (b * 20) 20) (batch_lu chain b res d1)) as [Eh2 El2].
    destruct (IH k (b + 1) (foldl add_history (batch_lu chain b res d1) (found chain (b * 20) 20)))
      as (d' & e & Er & He & Hs & Hie & Eh & Hl & Ho); [lia|lia|lia| |lia| |].
    { intros i Hi. apply Hend. lia. }
    { by eapply lu_ok_ext. }
    exists d', e. split_and!; [done|lia|lia|done|done| |done|].
    + rewrite Eh, Eh2, batch_lu_heights, Eh1, <-extend_app, <-map_app. do 2 f_equal.
      replace ((e - b) * 20) with (20 + (e - (b + 1)) * 20) by lia.
      rewrite found_app by lia. do 2 f_equal. lia.
    + intros chain' Hne. rewrite Ho by done. by rewrite El2, batch_lu_other, El1.
Qed.

(** ** The whole history *)

(** The gap limit: below a used index, 20 indexes in a row always include a used one.
    No index from [N] on is used.  The server gives a transaction one height. *)
Definition gap_limit_respected (chain : Chain) : Prop :=
  forall i, 0 <= i < 2 ^ 31 -> used chain i ->
  forall j, 0 <= j -> j + 20 <= i -> exists k, j <= k < j + 20 /\ used chain k.

Context (N : Z).
Context (Hgap : forall chain, gap_limit_respected chain).
Context (Hfin : forall chain i, N <= i < 2 ^ 31 -> hist (spk chain i) = []).
Context (Hcons : forall s s' el el', el ∈ hist s -> el' ∈ hist s' -> h_txid el = h_txid el' -> entry el = entry el').

(** The wallet's transactions according to the server. *)
Definition on_chain (t : bytes) (h : option Z) : Prop :=
  exists chain i el, 0 <= i < 2 ^ 31 /\ el ∈ hist (spk chain i) /\ entry el = (t, h).

Lemma elem_of_found chain from n el :
  el ∈ found chain from n <-> exists i, from <= i < from + n /\ el ∈ hist (spk chain i).
Proof. unfold found. rewrite elem_of_concat_map. by setoid_rewrite elem_of_seqZ. Qed.

Lemma used_before chain e i :
  0 <= e -> (forall i, e * 20 <= i < (e + 1) * 20 -> hist (spk chain i) = []) ->
  0 <= i < 2 ^ 31 -> used chain i -> i < e * 20.
Proof using Hgap.
  intros He Hemp Hi Hu. destruct (Z.lt_ge_cases i (e * 20)) as [|Hge]; [done|]. exfalso.
  destruct (Z.lt_ge_cases i ((e + 1) * 20)) as [|Hge']; [by apply Hu, Hemp|].
  destruct (Hgap chain i Hi Hu (e * 20)) as (k & Hk & Huk); [lia|lia|]. apply Huk, Hemp. lia.
Qed.

Definition scan_bound (index : Z) (lu : LastUnused) : Z :=
  Z.max N (Z.max index (Z.max (lu_external lu) (lu_internal lu))).

(** One chain, from the start. *)
Lemma scan_chain_complete chain idx fuel d :
  0 <= N -> N <= Z.max N idx <= 2 ^ 31 - 40 -> Z.max N idx / 20 + 1 < Z.of_nat fuel ->
  last_unused_of (d_last_unused d) chain = 0 ->
  exists d' l, scan_chain desc srv fuel c chain true idx 0 d = Some (Ok (d', false)) /\
    txid_height d' = extend (txid_height d) (map entry l) /\
    (forall el, el ∈ l <-> exists i, 0 <= i < 2 ^ 31 /\ el ∈ hist (spk chain i)) /\
    lu_ok chain (2 ^ 31) d' /\
    (forall chain', chain' <> chain ->
       last_unused_of (d_last_unused d') chain' = last_unused_of (d_last_unused d) chain').
Proof using Hcache Hder Hspk Hsrv Hgap Hfin.
  intros HN Hmax Hfuel Hlu0. set (M := Z.max N idx) in *.
  pose proof (Z.div_mod M 20 ltac:(lia)) as Hdm. pose proof (Z.mod_pos_bound M 20 ltac:(lia)) as Hmb.
  destruct (scan_chain_ok chain idx fuel (Z.to_nat (M / 20 + 1)) 0 d)
    as (d' & e & Er & He & Hs & Hie & Eh & [Hl1 Hl2] & Ho); [lia|lia|lia| |lia| |].
  { intros i Hi. apply Hfin. lia. }
  { split; [lia|by left]. }
  assert (Hb : forall i, 0 <= i < 2 ^ 31 -> used chain i -> i < e * 20).
  { intros i. apply used_before; [lia|done]. }
  exists d', (found chain (0 * 20) ((e - 0) * 20)). split_and!; [done|done| | |done].
  - intros el. rewrite elem_of_found. split; intros (i & Hi & Hel); exists i; (split; [|done]).
    + lia.
    + assert (used chain i) by (intros E0; rewrite E0 in Hel; by apply elem_of_nil in Hel).
      specialize (Hb i Hi ltac:(done)). lia.
  - split; [|destruct Hl2 as [|[? ?]]; [by left|right]].
    + intros i Hi Hu. apply Hl1; [|done]. specialize (Hb i Hi Hu). lia.
    + split; [lia|done].
Qed.

Lemma get_history_ok fuel index lu :
  0 <= N -> scan_bound index lu <= 2 ^ 31 - 40 -> scan_bound index lu / 20 + 1 < Z.of_nat fuel ->
  exists d, get_history desc srv fuel c [(External, true); (Internal, true)] index lu Data_default = Some (Ok d) /\
    (forall t h, txid_height d !! t = Some h <-> on_chain t h) /\
    (forall chain, lu_ok chain (2 ^ 31) d).
Proof using Hcache Hder Hspk Hsrv Hgap Hfin Hcons.
  unfold scan_bound. intros HN Hmax Hfuel. cbn [get_history last_unused_of].
  assert (Hdiv : forall x, x <= scan_bound index lu -> x / 20 <= scan_bound index lu / 20)
    by (intros; apply Z.div_le_mono; lia). unfold scan_bound in Hdiv.
  destruct (scan_chain_complete External (Z.max index (lu_external lu)) fuel Data_default)
    as (d1 & l1 & -> & Eh1 & Hl1 & Hlu1 & Ho1); [lia|lia| |done|].
  { specialize (Hdiv (Z.max N (Z.max index (lu_external lu)))). lia. }
  cbn [mbind option_bind].
  destruct (scan_chain_complete Internal (Z.max index (lu_internal lu)) fuel d1)
    as (d2 & l2 & -> & Eh2 & Hl2 & Hlu2 & Ho2); [lia|lia| | |].
  { specialize (Hdiv (Z.max N (Z.max index (lu_internal lu)))). lia. }
  { by rewrite Ho1. }
  exists d2. split; [done|]. split.
  - intros t h. rewrite Eh2, Eh1, <-extend_app, <-map_app. cbn [txid_height Data_default].
    rewrite lookup_extend_consistent.
    + change (map entry ?l) with (entry <$> l). rewrite list_elem_of_fmap. unfold on_chain.
      setoid_rewrite elem_of_app. setoid_rewrite Hl1. setoid_rewrite Hl2. split.
      * intros (el & Ee & [(i & Hi & Hel)|(i & Hi & Hel)]); eauto 10.
      * intros ([] & i & el & Hi & Hel & Ee); exists el; eauto 10.
    + intros k v v'. change (map entry ?l) with (entry <$> l). rewrite !list_elem_of_fmap.
      setoid_rewrite elem_of_app. setoid_rewrite Hl1. setoid_rewrite Hl2.
      intros (el & Ee & Hel) (el' & Ee' & Hel').
      assert (entry el = entry el') by (pose proof (f_equal fst Ee); pose proof (f_equal fst Ee');
        destruct Hel as [(? & _ & Hel)|(? & _ & Hel)], Hel' as [(? & _ & Hel')|(? & _ & Hel')];
        eapply Hcons; simpl in *; eauto; congruence).
      congruence.
  - intros []; [|done]. unfold lu_ok in *. rewrite (Ho2 External) by done. exact Hlu1.
Qed.

(** C27: for a wildcard descriptor and a server with finitely many used scripts whose gaps
    respect the gap limit, [get_history] terminates without error (the fuel needed is the
    number of batches up to the greatest used or requested index), the transactions it
    returns with their heights are exactly those in the histories of the wallet's
    scripts, on both chains, and the index it reports for each chain is one more than
    the greatest used one. *)
Theorem get_history_complete fuel index lu :
  0 <= N -> scan_bound index lu <= 2 ^ 31 - 40 -> scan_bound index lu / 20 + 1 < Z.of_nat fuel ->
  exists d, get_history desc srv fuel c [(External, true); (Internal, true)] index lu Data_default = Some (Ok d) /\
    (forall t h, txid_height d !! t = Some h <-> on_chain t h) /\
    (forall chain, lu_ok chain (2 ^ 31) d).
Proof using Hcache Hder Hspk Hsrv Hgap Hfin Hcons. apply get_history_ok. Qed.

(** ** The scan and the application of what it found *)

Context {W : Type} (st : Store W).

(** The heights of an update replace those of the cache by the history's. *)
Lemma scan_heights (hs hs' : gmap bytes (option Z)) :
  hs = heights c -> heights (update_heights c (scan_new hs hs') (scan_deleted hs hs')) = hs'.
Proof.
  intros Ehs. unfold update_heights. cbn [heights set_heights]. rewrite <-Ehs.
  apply map_eq. intros t.
  assert (Hn : forall v, (t, v) ∈ scan_new hs hs' <-> hs !! t <> Some v /\ hs' !! t = Some v).
  { intros v. unfold scan_new. by rewrite elem_of_map_to_list, map_lookup_filter_Some, (comm and). }
  pose proof (elem_of_scan_deleted hs hs' t) as Hd. pose proof (elem_of_scan_new hs hs' t) as Hk.
  destruct (hs' !! t) as [v|] eqn:Ev.
  - rewrite (extend_lookup_functional _ _ _ v) by (intros v' [_ [= <-]]%Hn; done). case_decide as Ht; [done|].
    apply map_lookup_filter_Some. split; [|rewrite Hd; naive_solver].
    destruct (decide (hs !! t = Some v)); [done|]. exfalso. apply Ht, Hk. eauto.
  - apply eq_None_not_Some. rewrite extend_lookup_is_Some, Hk. intros [(v & _ & [=])|[v Hv]].
    apply map_lookup_filter_Some in Hv as [Hv Hnd]. apply Hnd, Hd. eauto.
Qed.

Lemma scan_update_some d new_txs tstamps h u :
  scan_update c d new_txs tstamps h = Some (Some u) -> u = scanned c d new_txs tstamps h.
Proof.
  unfold scan_update. case_match; [by intros [= <-]|].
  intros (id & _ & E1)%bind_Some. case_bool_decide; by simplify_eq.
Qed.

Context (h : BlockHeader) (tip_hash : bytes).
Context (Hdesc : single_descriptors desc = Ok [(External, true); (Internal, true)]).
Context (Htip : get_tip srv = Ok h) (Hhash : block_hash h = Some tip_hash) (Hreal : h <> default_blockheader).
Context (Htxs : forall l, is_ok (get_transactions srv l) = true).
Context (Hheaders : forall l m, is_ok (get_headers srv l m) = true).

End ScanHistory.

(** ** A confirmation can revive a spent output *)

Section Revive.
Context {P : Platform} {S : Secp} {H : Hashes} {J : JsonStrings} {E : WolletEnv}.
Context {W : Type} (st : Store W) (K V : bytes -> Prop) (wf : W -> Prop) (view : W -> bytes -> option bytes).
Context (L : store_laws st K V wf view).
Context (Ktx : forall t, hash_wf t -> K (tx_key t)) (Kids : K TXIDS_KEY).

(** The unspent outputs are not maintained correctly when a scan finds a transaction
    at a new height and the height of its child has not changed.  If the output [o] of a
    transaction is the wallet's, the history gives that transaction another height than
    the cache does, and [o] is spent by a live transaction whose height did not change
    (by none whose height did), then applying the update of the scan makes [o] an
    unspent output of the wallet although a live transaction spends it. *)
Theorem confirmation_revives_spent_output c w d new_txs tstamps h c' w' o s t' x :
  wallet_inv st wf c w ->
  apply_update_inner st false (scanned c d new_txs tstamps h) c w = Some (Ok tt, c', w') ->
  txs_agree st (txs new_txs) w ->
  own c (ledger st w) o = Some s ->
  (exists h1, txid_height d !! txid o = Some h1 /\ heights c !! txid o <> Some h1) ->
  is_Some (heights c !! t') -> txid_height d !! t' = heights c !! t' ->
  ledger st w t' = Some x -> o ∈ x.1 ->
  (forall t hh y, txid_height d !! t = Some hh -> heights c !! t <> Some hh -> ledger st w' t = Some y -> o ∉ y.1) ->
  unspent c' !! o = Some s /\ o ∈ spent (ledger st w') (live c').
Proof using Kids Ktx L.
  intros [Hw _ _ _] Ha HA Ho (h1 & Eh1 & Hne) Hlive Hsame Ex Hox Hno. apply apply_update_heights in Ha as Hhs.
  destruct Hhs as [Hhs _]. cbn [txid_height_new txid_height_delete scanned] in Hhs.
  rewrite scan_heights in Hhs by done.
  destruct (apply_update_fields st K V wf view L Ktx Kids _ c w c' w' Ha Hw HA)
    as (Hw' & _ & Hub & Hpa & Hgr & _ & c2 & look & HL & _ & _ & E3 & E4 & Eun).
  pose proof (elem_of_scan_new (heights c) (txid_height d)) as Hnew.
  assert (Hown : own c2 (ledger_of look) o = Some s).
  { apply (own_grows c c2 (ledger st w)); [|done]. split.
    - intros t y Hy. rewrite HL. by apply Hgr.
    - intros o' Ho'. rewrite E3, Hub. apply extend_lookup_is_Some. by right.
    - intros s' Hs'. rewrite E4. by apply Hpa. }
  split.
  - rewrite Eun, update_unspent_lookup. cbn [txid_height_new txid_height_delete scanned].
    rewrite decide_False.
    2:{ intros (t & y & Ht & Ey & Hy)%elem_of_spent. apply Hnew in Ht as (v & E1 & E2).
        rewrite HL in Ey. by eapply Hno. }
    rewrite decide_False.
    2:{ intros [_ Hn]%elem_of_scan_deleted. congruence. }
    rewrite Hown, decide_True; [done|]. left. apply Hnew. eauto.
  - apply elem_of_spent. exists t', x. split_and!; [|by apply Hgr|done].
    rewrite elem_of_live, Hhs, Hsame. done.
Qed.
End Revive.

(** ** Samples *)

Module ScanSample.
Export WolletSample.

(** A chain on which the parent is confirmed and the child is not. *)
Definition in_block (t : bytes) (height : Z) : History := mkHistory t height None.

Definition sample_hist (s : Script) : list History :=
  if decide (s = mine0) then [in_block parent_id 10; in_block child_id (-1)]
  else if decide (s = mine1) then [in_block child_id 0]
  else [].

Definition sample_tip : BlockHeader :=
  mkHeader 2 (hash Byte.x01) (hash Byte.x02) 1700000000 12 (Proof_ [] []) (Some (800000, hash Byte.x03)).

Definition sample_desc : ScanDescriptor :=
  mkScanDescriptor
    (fun chain child => match child with Normal i => Ok (sample_spk chain i, None) | Hardened _ => Err DescriptorError end)
    None (Ok [(External, true); (Internal, true)]).

Definition sample_backend : Backend :=
  mkBackend (fun l => Ok (map sample_hist l))
    (fun l => Ok (omap (fun t => if decide (t = parent_id) then Some parent
                                 else if decide (t = child_id) then Some child else None) l))
    (fun l _ => Ok [sample_tip]) (Ok sample_tip) false.

(** Only the first script of each chain is used. *)
Lemma sample_spk_inj chain i chain' i' :
  0 <= i < 2 ^ 31 -> 0 <= i' < 2 ^ 31 -> sample_spk chain i = sample_spk chain' i' -> chain = chain' /\ i = i'.
Proof.
  unfold sample_spk. intros Hi Hi' Hs. apply (app_inj_1 [_; _; _] [_; _; _]) in Hs as [Hc Hl]; [|done].
  split; [by destruct chain, chain'|].
  apply le_bytes_inj in Hl; [done| |]; change (256 ^ Z.of_nat 19) with (2 ^ 152); lia.
Qed.

Lemma sample_used chain i : 0 <= i < 2 ^ 31 -> sample_hist (sample_spk chain i) <> [] -> i = 0.
Proof.
  unfold sample_hist, mine0, mine1. intros Hi. case_decide as H1; [|case_decide as H2; [|done]]; intros _.
  - apply sample_spk_inj in H1 as [_ ->]; lia.
  - apply sample_spk_inj in H2 as [_ ->]; lia.
Qed.

Lemma sample_entries s el : el ∈ sample_hist s -> entry el = (parent_id, Some 10) \/ entry el = (child_id, None).
Proof. unfold sample_hist. repeat case_decide; set_unfold; naive_solver. Qed.

Lemma sample_der chain i :
  0 <= i < 2 ^ 31 -> exists k, derive_script sample_desc chain (Normal i) = Ok (sample_spk chain i, k).
Proof. by exists None. Qed.

Lemma sample_server_gap chain : gap_limit_respected sample_spk sample_hist chain.
Proof. intros i Hi Hu%sample_used j Hj Hji; lia. Qed.

Lemma sample_fin chain i : 1 <= i < 2 ^ 31 -> sample_hist (sample_spk chain i) = [].
Proof.
  intros Hi. destruct (sample_hist (sample_spk chain i)) eqn:Eh; [done|].
  assert (i = 0); [|lia]. apply (sample_used chain); [lia|]. by rewrite Eh.
Qed.

Lemma sample_cons s s' el el' :
  el ∈ sample_hist s -> el' ∈ sample_hist s' -> h_txid el = h_txid el' -> entry el = entry el'.
Proof.
  intros H1%sample_entries H2%sample_entries Ht.
  assert (Hne : parent_id <> child_id) by done. change ((entry el).1 = (entry el').1) in Ht.
  destruct H1 as [H1|H1], H2 as [H2|H2]; rewrite H1, H2 in *; try done; by destruct Hne.
Qed.

Lemma sample_cache chain i s k :
  scripts state2.1 !! (chain, Normal i) = Some (s, k) -> s = sample_spk chain i.
Proof.
  intros Hs%elem_of_map_to_list.
  assert (El : forallb (fun x => match x.1.2 with Normal i => bool_decide (x.2.1 = sample_spk x.1.1 i)
                                           | Hardened _ => true end) (map_to_list (scripts state2.1)) = true)
    by (vm_compute; reflexivity).
  rewrite forallb_forall in El. specialize (El (chain, Normal i, (s, k))).
  apply bool_decide_eq_true in El; [done|]. by apply list_elem_of_In.
Qed.
End ScanSample.
Import ScanSample.

Lemma get_history_complete_witness :
  exists d, get_history sample_desc sample_backend 5 state2.1 [(External, true); (Internal, true)] 30
              LastUnused_default Data_default = Some (Ok d) /\
    txid_height d !! parent_id = Some (Some 10) /\ lu_ok sample_spk sample_hist Internal (2 ^ 31) d.
Proof.
  destruct (get_history_complete sample_desc sample_backend state2.1 sample_spk sample_hist eq_refl
    sample_der sample_cache (fun _ => eq_refl) 1 sample_server_gap sample_fin sample_cons 5 30 LastUnused_default)
    as (d & E & Hd & Hl); [lia|vm_compute; discriminate|vm_compute; reflexivity|].
  exists d. split; [done|]. split; [|done]. apply Hd. exists External, 0, (in_block parent_id 10).
  split; [lia|]. split; [|done]. vm_compute. by left.
Defined.


Definition sample_data : Data :=
  mkData {[parent_id := Some 10; child_id := None]} ∅ (mkLastUnused 1 1) ∅.
Definition sample_scanned : Update :=
  scanned state2.1 sample_data (mkDownload [] []) [(12, 1700000000)] sample_tip.

(** The child keeps spending the parent's output, which is listed again. *)
Lemma confirmation_revives_spent_output_witness :
  unspent state2.1 !! mkOutPoint parent_id 0 = None /\
  unspent (applied sample_scanned state2).1 !! mkOutPoint parent_id 0 = Some mine0 /\
  mkOutPoint parent_id 0 ∈
    spent (ledger memory_store (applied sample_scanned state2).2) (live (applied sample_scanned state2).1).
Proof.
  split; [vm_compute; reflexivity|].
  apply (confirmation_revives_spent_output memory_store (fun _ => True) (fun _ => True) (fun _ => True)
           (fun m k => m !! k) memory_laws (fun _ _ => I) I state2.1 state2.2 sample_data (mkDownload [] [])
           [(12, 1700000000)] sample_tip _ _ _ mine0 child_id ([mkOutPoint parent_id 0], [theirs; mine1; []])).
  - exact state2_inv.
  - apply (applied_ok sample_scanned state2). vm_compute. reflexivity.
  - split; [by intros t tx []%elem_of_nil|by intros t tx tx' []%elem_of_nil|by intros t tx tx' []%elem_of_nil].
  - vm_compute. reflexivity.
  - exists (Some 10). split; [vm_compute; reflexivity|]. vm_compute. discriminate.
  - vm_compute. by eexists.
  - vm_compute. reflexivity.
  - vm_compute. reflexivity.
  - by left.
  - intros t hh y Et Hne Ey Ho. 
    assert (t = parent_id) as ->.
    { unfold sample_data in Et. cbn [txid_height] in Et.
      apply lookup_insert_Some in Et as [[<- _]|[_ [<- <-]%lookup_singleton_Some]]; [done|].
      exfalso. apply Hne. vm_compute. reflexivity. }
    revert Ey. vm_compute. intros [= <-]. by apply list_elem_of_singleton in Ho.
Defined.

(** ** Evictions *)

(** A scan does not notice a transaction that left the mempool when nothing else
    changed.  Whether anything changed is decided without comparing heights: if nothing
    was downloaded, no script is new, the indexes are the same and the tip is that of
    the cache, the scan returns no update, whatever transactions are gone from the
    history. *)
Theorem scan_ignores_evictions `{Platform} `{Secp} `{Hashes} `{JsonStrings} `{WolletEnv} c d h id :
  block_hash h = Some id -> tip c = (hdr_height h, id) -> d_scripts d = ∅ ->
  d_last_unused d = mkLastUnused (last_unused_internal c) (last_unused_external c) ->
  scan_update c d (mkDownload [] []) [] h = Some None.
Proof.
  intros Hid Ht Hs Hl. unfold scan_update. rewrite Hs, Hl, Hid, Ht. cbn [lu_external lu_internal].
  rewrite !Z.eqb_refl. cbn [mbind option_bind]. rewrite !bool_decide_eq_false_2 by (intros Hn; by apply Hn). done.
Qed.

(** The parent is confirmed in the block of the tip; the child was evicted. *)
Definition sample_evicted : Cache :=
  set_tip (set_heights (set_last state2.1 ∅ 1 1) {[parent_id := Some 12; child_id := None]})
    (12, default [] (block_hash sample_tip)).

Lemma scan_ignores_evictions_witness :
  let d := mkData {[parent_id := Some 12]} ∅ (mkLastUnused 1 1) ∅ in
  scan_deleted (heights sample_evicted) (txid_height d) = [child_id] /\
  heights_to_download sample_evicted d 12 = [] /\ txs_to_download sample_evicted (txid_height d) = [] /\
  scan_update sample_evicted d (mkDownload [] []) [] sample_tip = Some None.
Proof.
  intros d. split; [vm_compute; reflexivity|]. split; [vm_compute; reflexivity|]. split; [vm_compute; reflexivity|].
  apply (scan_ignores_evictions sample_evicted d sample_tip (default [] (block_hash sample_tip)));
    [vm_compute; reflexivity|reflexivity|reflexivity|reflexivity].
Defined.
