(* ===== verification/ScriptEval.v ===== *)
(** * A reference semantics of the opcodes used by the wallet's scripts

    The wallet never runs a script: the nodes do.  To say what the scripts it
    builds permit, this file gives the consensus meaning (Bitcoin Script with
    BIP 16, BIP 65) of the opcodes that occur in them.  It is a specification, not
    a model of repository code; signatures, SHA-256 and the time-lock test are
    parameters.  Any other opcode fails the script. *)

From S2P Require Import Prelude Encode Script Timelocks.

Section Eval.
Context (checksig : bytes -> bytes -> bool) (sha : bytes -> bytes) (cltv : bytes -> bool).

(** The truth value of a stack item. *)
Definition truthy (v : bytes) : bool := read_scriptbool v.

Definition of_bool (b : bool) : bytes := if b then [Byte.x01] else [].

Definition item_eqb (a b : bytes) : bool := bool_decide (a = b).

(** The opcodes that act on the stack, with the top first. *)
Definition exec_op (code : Z) (st : list bytes) : option (list bytes) :=
  if (0x51 <=? code) && (code <=? 0x60) then Some (build_scriptint (code - 0x50) :: st)
  else if code =? OP_SIZE then
    match st with x :: _ => Some (build_scriptint (Z.of_nat (length x)) :: st) | _ => None end
  else if code =? OP_EQUALVERIFY then
    match st with a :: b :: st => if item_eqb a b then Some st else None | _ => None end
  else if code =? OP_SHA256 then
    match st with x :: st => Some (sha x :: st) | _ => None end
  else if code =? OP_CHECKSIG then
    match st with pub :: sig :: st => Some (of_bool (checksig sig pub) :: st) | _ => None end
  else if code =? OP_CLTV then
    match st with x :: _ => if cltv x then Some st else None | _ => None end
  else if code =? OP_DROP then
    match st with _ :: st => Some st | _ => None end
  else None.

(** One instruction; [conds] are the enclosing conditionals, innermost first. *)
Definition exec_instr (i : Instruction) (st : list bytes) (conds : list bool)
  : option (list bytes * list bool) :=
  let executing := forallb id conds in
  match i with
  | PushBytes d => Some (if executing then d :: st else st, conds)
  | Op code =>
      if code =? OP_IF then
        if executing
        then match st with x :: st => Some (st, truthy x :: conds) | [] => None end
        else Some (st, false :: conds)
      else if code =? OP_ELSE then
        match conds with c :: conds => Some (st, negb c :: conds) | [] => None end
      else if code =? OP_ENDIF then
        match conds with _ :: conds => Some (st, conds) | [] => None end
      else if executing then st ← exec_op code st; Some (st, conds)
      else Some (st, conds)
  end.

Fixpoint exec (items : list Instruction) (st : list bytes) (conds : list bool)
  : option (list bytes * list bool) :=
  match items with
  | [] => Some (st, conds)
  | i :: items => '(st, conds) ← exec_instr i st conds; exec items st conds
  end.

(** Run a parsed script; a parse error fails it. *)
Definition eval_items (prog : list (result Instruction script_error)) (st : list bytes) : bool :=
  match mapM (fun r => match r with Ok i => Some i | Err _ => None end) prog with
  | None => false
  | Some items =>
      match exec items st [] with
      | Some (x :: _, []) => truthy x
      | _ => false
      end
  end.

Definition eval_script (s : Script) (st : list bytes) : bool := eval_items (instructions s) st.

(** A push-only script as the stack it leaves, top first (BIP 16 requires the
    signature script of a P2SH spend to be one). *)
Fixpoint push_only (prog : list (result Instruction script_error)) (st : list bytes)
  : option (list bytes) :=
  match prog with
  | [] => Some st
  | Ok (PushBytes d) :: prog => push_only prog (d :: st)
  | Ok (Op c) :: prog =>
      if c =? 0x4f then push_only prog ([Byte.x81] :: st)
      else if (0x51 <=? c) && (c <=? 0x60) then push_only prog (build_scriptint (c - 0x50) :: st)
      else None
  | Err _ :: _ => None
  end.

(** BIP 16: the last push is the redeem script, run on the other items.  The
    hash in the output is compared by the caller. *)
Definition p2sh_spend (script_sig redeem : Script) : bool :=
  match push_only (instructions script_sig) [] with
  | Some (r :: st) => item_eqb r redeem && eval_script r st
  | _ => false
  end.

Lemma mapM_map_Ok (items : list Instruction) :
  mapM (fun r : result Instruction script_error => match r with Ok i => Some i | Err _ => None end)
    (map Ok items) = Some items.
Proof. induction items as [|i l IH]; simpl; [done|]. by rewrite IH. Qed.
End Eval.

(** BIP 65: the argument is a minimally encoded non-negative number of at most
    five bytes, of the same kind as the transaction's lock time and not beyond
    it, and the input is not final. *)
Definition script_num (v : bytes) : Z :=
  let m := le_val v in
  let half := 2 ^ (8 * Z.of_nat (length v) - 1) in
  if (length v =? 0)%nat then 0 else if m <? half then m else - (m - half).

Definition cltv_ok (lock : LockTime) (seq : Sequence) (arg : bytes) : bool :=
  let n := script_num arg in
  (length arg <=? 5)%nat && (0 <=? n) &&
  LockTime_is_same_unit (LockTime_from_consensus n) lock &&
  (n <=? LockTime_to_consensus_u32 lock) && negb (is_final seq).

Lemma script_num_build n : 0 <= n < 2 ^ 39 ->
  script_num (build_scriptint n) = n /\ (length (build_scriptint n) <= 5)%nat.
Proof.
  intros Hn. destruct (decide (n = 0)) as [->|Hnz]; [by split; simpl; [|lia]|].
  pose proof (le_val_build_scriptint n ltac:(lia)) as Hv. unfold script_num. rewrite Hv.
  destruct (build_scriptint_shape n Hnz ltac:(lia)) as (k & a & Ha & Hr & Hdm & E).
  rewrite E. rewrite Z.abs_eq in * by lia. clear Hv.
  pose proof (Z.mod_pos_bound n (256 ^ Z.of_nat k) ltac:(lia)) as Hm.
  assert (Hk : 256 ^ Z.of_nat k <= n) by nia.
  assert (Hk4 : (k <= 4)%nat).
  { destruct (decide (k <= 4)%nat) as [|Hk']; [done|].
    assert (256 ^ 5 <= 256 ^ Z.of_nat k) by (apply Z.pow_le_mono_r; lia). lia. }
  rewrite length_app, length_le_bytes, pow256_pow2 in *.
  destruct (Z.leb_spec 128 a) as [H128|H128]; simpl length.
  - assert (Hk3 : (k <= 3)%nat).
    { destruct (decide (k <= 3)%nat) as [|Hk']; [done|]. assert (k = 4%nat) as -> by lia. nia. }
    split; [|lia]. destruct (Nat.eqb_spec (k + 2) 0); [lia|].
    destruct (Z.ltb_spec n (2 ^ (8 * Z.of_nat (k + 2) - 1))) as [|Hge]; [done|exfalso].
    replace (8 * Z.of_nat (k + 2) - 1) with (8 * Z.of_nat k + 15) in Hge by lia.
    rewrite Z.pow_add_r in Hge by lia. change (2 ^ 15) with 32768 in Hge. nia.
  - split; [|lia]. destruct (Nat.eqb_spec (k + 1) 0); [lia|].
    destruct (Z.ltb_spec n (2 ^ (8 * Z.of_nat (k + 1) - 1))) as [|Hge]; [done|exfalso].
    replace (8 * Z.of_nat (k + 1) - 1) with (8 * Z.of_nat k + 7) in Hge by lia.
    rewrite Z.pow_add_r in Hge by lia. change (2 ^ 7) with 128 in Hge. nia.
Qed.

(** A lock time satisfies itself on an input that is not final. *)
Lemma cltv_ok_self n seq :
  is_u32 n -> is_final seq = false ->
  cltv_ok (LockTime_from_consensus n) seq (build_scriptint n) = true.
Proof.
  intros Hn Hs. destruct (script_num_build n) as [E Hl]; [lia|]. unfold cltv_ok.
  rewrite E, Hs, LockTime_to_from, Z.leb_refl. destruct (Nat.leb_spec (length (build_scriptint n)) 5); [|lia].
  destruct (Z.leb_spec 0 n); [|lia]. simpl. rewrite !andb_true_r.
  by destruct (LockTime_from_consensus n).
Qed.
