(* ===== verification/Htlc.v ===== *)
(** * Cross-chain HTLC legs

    [lwk_wollet/src/seqdex_htlc.rs] (the SEQ leg) and
    [lwk_wollet/src/btc/htlc.rs] (the BTC leg): the redeem script shared by both
    chains and the claim and refund spends of each.  Key parsing, ECDSA signing,
    the text form of ids and the [bitcoin] crate's sighash are parameters. *)

From S2P Require Import Prelude Encode Script Timelocks Confidential Transaction TxMetrics Sighash ScriptEval.

(** The [Error::Generic] values of the two modules, by message. *)
Inductive htlc_error : Type :=
| HashlockLen (got : Z)
| PubkeyLen (label : string) (got : Z)
| InvalidPubkey (label : string)
| InvalidTxid
| InvalidAsset
| FeeExceedsValue
| PreimageLen (got : Z)
| ZeroOutput
| SighashError
| PushTooLong.

(** ** Parameters *)

(** [Txid::from_str], [AssetId::from_str] and [SecretKey] with ECDSA signing:
    [sign_der] is [sign_ecdsa(..).serialize_der()]. *)
Class HtlcEnv :=
  { txid_from_str : string -> option bytes;
    asset_from_str : string -> option bytes;
    txid_from_str_length s h : txid_from_str s = Some h -> length h = 32%nat;
    asset_from_str_length s h : asset_from_str s = Some h -> length h = 32%nat;
    SecretKey : Type;
    sign_der : SecretKey -> bytes -> bytes;
    sign_der_length k m : (8 <= length (sign_der k m) <= 72)%nat }.

Section Htlc.
Context {P : Platform} {S : Secp} {H : Hashes} {E : HtlcEnv}.

(** ** The redeem script *)

Definition check_pubkey (label : string) (pk : bytes) : result unit htlc_error :=
  if negb (length pk =? 33)%nat then Err (PubkeyLen label (Z.of_nat (length pk)))
  else ok_or (const tt <$> @ext_parse PublicKey pk) (InvalidPubkey label).

(** The builder chain; [None] would be a push of four gigabytes. *)
Definition htlc_builder (hash claim_pub refund_pub : bytes) (locktime : Z) : option Builder :=
  let b := push_opcode OP_SIZE (push_opcode OP_IF Builder_new) in
  b ← push_int 32 b;
  let b := push_opcode OP_SHA256 (push_opcode OP_EQUALVERIFY b) in
  b ← push_slice hash b;
  b ← push_slice claim_pub (push_opcode OP_EQUALVERIFY b);
  let b := push_opcode OP_ELSE (push_opcode OP_CHECKSIG b) in
  b ← push_int locktime b;
  b ← push_slice refund_pub (push_opcode OP_DROP (push_opcode OP_CLTV b));
  Some (push_opcode OP_ENDIF (push_opcode OP_CHECKSIG b)).

Definition build_htlc_redeem_script (hash claim_pub refund_pub : bytes) (locktime : Z)
  : result Script htlc_error :=
  if negb (length hash =? 32)%nat then Err (HashlockLen (Z.of_nat (length hash)))
  else
    let? _ := check_pubkey "claim" claim_pub in
    let? _ := check_pubkey "refund" refund_pub in
    let? b := ok_or (htlc_builder hash claim_pub refund_pub locktime) PushTooLong in
    Ok (into_script b).

(** ** SEQ-leg spends *)

Record SeqHtlcSpend := mkSeqSpend
  { spend_txid : string;
    spend_vout : Z;
    spend_amount : Z;
    spend_asset_id : string;
    spend_dest_spk : bytes;
    spend_fee : Z }.

Definition build_spend_tx (spend : SeqHtlcSpend) (locktime : Z) (refund : bool)
  : result Transaction htlc_error :=
  let? txid := ok_or (txid_from_str (spend_txid spend)) InvalidTxid in
  let? asset := ok_or (asset_from_str (spend_asset_id spend)) InvalidAsset in
  let? recv_value := ok_or (checked_sub (spend_amount spend) (spend_fee spend)) FeeExceedsValue in
  let '(sequence, lock_time) :=
    if refund then (mkSequence 0xfffffffe, LockTime_from_consensus locktime)
    else (Sequence_MAX, LockTime_ZERO) in
  let input := mkTxIn (mkOutPoint txid (spend_vout spend)) false [] sequence
                 AssetIssuance_null TxInWitness_empty in
  let recipient := mkTxOut (AssetExplicit asset) (ValueExplicit recv_value) NonceNull
                     (spend_dest_spk spend) TxOutWitness_empty in
  let fee_out := new_fee (spend_fee spend) asset in
  Ok (mkTransaction 2 lock_time [input] [recipient; fee_out]).

(** [sign_legacy]: [DER(sig) || 0x01]; input 0 exists, so [None] is unreachable. *)
Definition sign_legacy (tx : Transaction) (redeem_script : Script) (key : SecretKey)
  : option bytes :=
  sighash ← legacy_sighash tx 0 redeem_script SighashAll;
  Some (sign_der key sighash ++ [Byte.x01]).

(** [push_data_minimal]. *)
Definition push_data_minimal (b : Builder) (data : bytes) : option Builder :=
  match data with
  | [] => Some (push_opcode OP_PUSHBYTES_0 b)
  | [v] =>
      if b2z v =? 0 then Some (push_opcode OP_PUSHBYTES_0 b)
      else if (1 <=? b2z v) && (b2z v <=? 16)
      then Some (push_opcode (wrap_u8 (OP_PUSHNUM_1 - 1 + b2z v)) b)
      else if b2z v =? 0x81 then Some (push_opcode OP_PUSHNUM_NEG1 b)
      else push_slice data b
  | _ => push_slice data b
  end.

Fixpoint push_all_minimal (b : Builder) (items : list bytes) : option Builder :=
  match items with
  | [] => Some b
  | it :: items => b ← push_data_minimal b it; push_all_minimal b items
  end.

Definition set_script_sig (i : TxIn) (s : Script) : TxIn :=
  mkTxIn (previous_output i) (is_pegin i) s (sequence i) (asset_issuance i) (in_witness i).

(** [finalize], up to the hex printing of the serialized transaction. *)
Definition finalize (tx : Transaction) (redeem_script : Script) (items : list bytes)
  : option Transaction :=
  b ← push_all_minimal Builder_new items;
  b ← push_slice redeem_script b;
  match input tx with
  | i :: rest => Some (mkTransaction (version tx) (lock_time tx)
                         (set_script_sig i (into_script b) :: rest) (output tx))
  | [] => None
  end.

Definition build_claim_tx (spend : SeqHtlcSpend) (redeem_script : Script) (claim_secret : SecretKey)
    (preimage : bytes) : result bytes htlc_error :=
  if negb (length preimage =? 32)%nat then Err (PreimageLen (Z.of_nat (length preimage)))
  else
    let? tx := build_spend_tx spend 0 false in
    let? sig := ok_or (sign_legacy tx redeem_script claim_secret) SighashError in
    let? tx := ok_or (finalize tx redeem_script [sig; preimage; [Byte.x01]]) PushTooLong in
    Ok (serialize tx).

Definition build_refund_tx (spend : SeqHtlcSpend) (redeem_script : Script) (refund_secret : SecretKey)
    (locktime : Z) : result bytes htlc_error :=
  let? tx := build_spend_tx spend locktime true in
  let? sig := ok_or (sign_legacy tx redeem_script refund_secret) SighashError in
  let? tx := ok_or (finalize tx redeem_script [sig; []]) PushTooLong in
  Ok (serialize tx).

(** ** The items of the redeem script *)

Definition htlc_items (hash claim_pub refund_pub : bytes) (locktime : Z) : list Instruction :=
  [Op OP_IF; Op OP_SIZE; int_item 32; Op OP_EQUALVERIFY; Op OP_SHA256; PushBytes hash;
   Op OP_EQUALVERIFY; PushBytes claim_pub; Op OP_CHECKSIG;
   Op OP_ELSE; int_item locktime; Op OP_CLTV; Op OP_DROP; PushBytes refund_pub; Op OP_CHECKSIG;
   Op OP_ENDIF].

(** Peel one fallible push of a builder chain. *)
Ltac push_step lem E :=
  let b := fresh "b" in
  destruct lem as (b & -> & E); cbn [mbind option_bind].

Lemma htlc_builder_bytes hash claim refund n :
  Z.of_nat (length hash) < 2 ^ 32 -> Z.of_nat (length claim) < 2 ^ 32 ->
  Z.of_nat (length refund) < 2 ^ 32 -> is_u32 n ->
  exists b, htlc_builder hash claim refund n = Some b /\
    into_script b = items_bytes (htlc_items hash claim refund n).
Proof.
  intros Hh Hc Hr Hn. unfold htlc_builder, into_script.
  push_step (push_int_script 32 (push_opcode OP_SIZE (push_opcode OP_IF Builder_new)) ltac:(lia)) E1.
  push_step (push_slice_script hash (push_opcode OP_SHA256 (push_opcode OP_EQUALVERIFY b)) ltac:(lia)) E2.
  push_step (push_slice_script claim (push_opcode OP_EQUALVERIFY b0) ltac:(lia)) E3.
  push_step (push_int_script n (push_opcode OP_ELSE (push_opcode OP_CHECKSIG b1)) ltac:(lia)) E4.
  push_step (push_slice_script refund (push_opcode OP_DROP (push_opcode OP_CLTV b2)) ltac:(lia)) E5.
  eexists. split; [done|]. unfold push_opcode in *. cbn [b_script] in *.
  rewrite E5, E4, E3, E2, E1. unfold items_bytes, htlc_items. cbn [map concat item_bytes].
  rewrite <-!app_assoc. done.
Qed.

Lemma htlc_items_ok hash claim refund n :
  length hash = 32%nat -> length claim = 33%nat -> length refund = 33%nat -> is_u32 n ->
  Forall item_ok (htlc_items hash claim refund n) /\
  Forall item_minimal (htlc_items hash claim refund n) /\
  Forall item_short (htlc_items hash claim refund n).
Proof.
  intros Hh Hc Hr Hn. destruct (int_item_ok n ltac:(lia)) as (I1 & I2 & I3).
  destruct (int_item_ok 32 ltac:(lia)) as (J1 & J2 & J3).
  assert (Hm : forall d, (1 < length d)%nat -> minimal_push d)
    by (intros d Hd b ->; simpl in Hd; lia).
  repeat split; repeat (apply List.Forall_cons; [|]); try apply List.Forall_nil; try done;
    simpl; try (apply Hm; lia); try lia.
Qed.

Lemma build_htlc_ok hash claim refund n s :
  is_u32 n -> build_htlc_redeem_script hash claim refund n = Ok s ->
  length hash = 32%nat /\ length claim = 33%nat /\ length refund = 33%nat /\
  s = items_bytes (htlc_items hash claim refund n).
Proof.
  intros Hn. unfold build_htlc_redeem_script, check_pubkey.
  destruct (Nat.eqb_spec (length hash) 32) as [Hh|]; [|done]. simpl.
  destruct (Nat.eqb_spec (length claim) 33) as [Hc|]; [|done]. simpl.
  destruct (ext_parse claim); simpl; [|done].
  destruct (Nat.eqb_spec (length refund) 33) as [Hr|]; [|done]. simpl.
  destruct (ext_parse refund); simpl; [|done].
  destruct (htlc_builder_bytes hash claim refund n ltac:(lia) ltac:(lia) ltac:(lia) Hn) as (b & -> & Eb).
  simpl. intros [= <-]. by rewrite Eb.
Qed.

(** ** What the redeem script permits *)

Section Semantics.
Context (checksig : bytes -> bytes -> bool) (cltv : bytes -> bool).

Lemma truthy_of_bool b : truthy (of_bool b) = b.
Proof. by destruct b. Qed.

(** A number pushed by [push_int] is on the stack in its script encoding. *)
Lemma exec_int n st conds :
  0 <= n < 2 ^ 63 ->
  exec_instr checksig sha256 cltv (int_item n) st conds =
  Some (if forallb id conds then build_scriptint n :: st else st, conds).
Proof.
  intros Hn. unfold int_item. destruct ((n =? -1) || ((1 <=? n) && (n <=? 16))) eqn:Es; [|done].
  rewrite orb_true_iff, andb_true_iff, Z.eqb_eq, !Z.leb_le in Es.
  assert (Ew : wrap_u8 (n - 1 + OP_TRUE) = 0x50 + n)
    by (unfold wrap_u8, OP_TRUE, OP_PUSHNUM_1; rewrite Z.mod_small; lia).
  rewrite Ew. assert (Hc : n = 1 \/ n = 2 \/ n = 3 \/ n = 4 \/ n = 5 \/ n = 6 \/ n = 7 \/ n = 8 \/
    n = 9 \/ n = 10 \/ n = 11 \/ n = 12 \/ n = 13 \/ n = 14 \/ n = 15 \/ n = 16) by lia.
  by repeat destruct Hc as [->|Hc]; subst; simpl; destruct (forallb id conds).
Qed.

Lemma item_eqb_spec a b : reflect (a = b) (item_eqb a b).
Proof. apply bool_decide_reflect. Qed.

Lemma size_item_eqb (x : bytes) :
  (length x <= 520)%nat ->
  item_eqb (build_scriptint 32) (build_scriptint (Z.of_nat (length x))) = (length x =? 32)%nat.
Proof.
  intros Hx. destruct (item_eqb_spec (build_scriptint 32) (build_scriptint (Z.of_nat (length x))))
    as [E1|N]; destruct (Nat.eqb_spec (length x) 32) as [E2|N2]; try done.
  - apply (f_equal le_val) in E1. rewrite !le_val_build_scriptint in E1 by lia. lia.
  - by rewrite E2 in N.
Qed.

#[local] Opaque build_scriptint int_item.

(** Close a goal where the script failed: neither branch can have been taken. *)
Ltac refute_spend :=
  split; [done|]; intros [(?&?&?&?&?&?&?&?&?)|(?&?&?&?&?&?&?)]; simplify_eq; congruence.

(** The exact condition under which the redeem script accepts a stack whose items
    respect the consensus limit of 520 bytes. *)
Lemma htlc_exec hash claim refund n st :
  is_u32 n -> Forall (fun x => (length x <= 520)%nat) st ->
  (match exec checksig sha256 cltv (htlc_items hash claim refund n) st [] with
   | Some (x :: _, []) => truthy x
   | _ => false
   end) = true <->
  (exists sel pre sig rest, st = sel :: pre :: sig :: rest /\ truthy sel = true /\
     length pre = 32%nat /\ sha256 pre = hash /\ checksig sig claim = true) \/
  (exists sel sig rest, st = sel :: sig :: rest /\ truthy sel = false /\
     cltv (build_scriptint n) = true /\ checksig sig refund = true).
Proof.
  intros Hn Hst. unfold htlc_items. destruct st as [|sel st]; [simpl; refute_spend|].
  simpl exec_instr. destruct (truthy sel) eqn:Es.
  - destruct st as [|pre st]; [cbn; rewrite Es; cbn; refute_spend|].
    cbn. rewrite Es. cbn. rewrite exec_int by lia. cbn.
    apply Forall_cons in Hst as [_ [Hp Hst]%Forall_cons]. rewrite size_item_eqb by done.
    destruct (Nat.eqb_spec (length pre) 32) as [Hl|Hl]; cbn; [|refute_spend].
    destruct (item_eqb_spec hash (sha256 pre)) as [->|Hh]; cbn; [|refute_spend].
    destruct st as [|sig st]; cbn; [refute_spend|]. rewrite exec_int by lia. cbn.
    rewrite truthy_of_bool. split; [intros Hc; left; by exists sel, pre, sig, st|].
    intros [(?&?&?&?&[= <- <- <- <-]&_&_&_&Hc)|(?&?&?&[= <- <- <-]&Hs&_)]; congruence.
  - cbn. rewrite Es. cbn. rewrite exec_int by lia. cbn. rewrite exec_int by lia. cbn.
    destruct (cltv (build_scriptint n)) eqn:Ec; cbn; [|refute_spend].
    destruct st as [|sig st]; cbn; [refute_spend|]. rewrite truthy_of_bool.
    split; [intros Hc; right; by exists sel, sig, st|].
    intros [(?&?&?&?&[= <- ?]&Hs&_)|(?&?&?&[= <- <- <-]&_&_&Hc)]; congruence.
Qed.
End Semantics.

(** ** The signature script *)

(** What [push_data_minimal] pushes for a data item. *)
Definition minimal_item (d : bytes) : Instruction :=
  match d with
  | [] => PushBytes []
  | [v] => if b2z v =? 0 then PushBytes []
           else if (1 <=? b2z v) && (b2z v <=? 16) then Op (0x50 + b2z v)
           else if b2z v =? 0x81 then Op OP_PUSHNUM_NEG1
           else PushBytes d
  | _ => PushBytes d
  end.

Lemma push_data_minimal_script d b :
  Z.of_nat (length d) < 2 ^ 32 ->
  exists b', push_data_minimal b d = Some b' /\ b_script b' = b_script b ++ item_bytes (minimal_item d).
Proof.
  intros Hd. unfold push_data_minimal, minimal_item.
  destruct d as [|v [|w d]]; [by eexists| |by apply push_slice_script].
  destruct (Z.eqb_spec (b2z v) 0); [by eexists|].
  destruct (Z.leb_spec 1 (b2z v)), (Z.leb_spec (b2z v) 16); simpl.
  2-4: destruct (Z.eqb_spec (b2z v) 129); [by eexists|by apply push_slice_script].
  eexists. split; [done|]. simpl. do 3 f_equal. unfold wrap_u8, OP_PUSHNUM_1.
  rewrite Z.mod_small by lia. lia.
Qed.

Lemma push_all_minimal_script items b :
  Forall (fun d => Z.of_nat (length d) < 2 ^ 32) items ->
  exists b', push_all_minimal b items = Some b' /\
    b_script b' = b_script b ++ items_bytes (map minimal_item items).
Proof.
  intros Hs. revert b. induction Hs as [|d items Hd Hs IH]; intros b; simpl.
  { exists b. by rewrite app_nil_r. }
  destruct (push_data_minimal_script d b Hd) as (b1 & -> & E1). simpl.
  destruct (IH b1) as (b' & -> & E'). exists b'. split; [done|].
  unfold items_bytes in *. simpl. by rewrite E', E1, app_assoc.
Qed.

Lemma finalize_script tx i rest redeem items :
  input tx = i :: rest ->
  Forall (fun d => Z.of_nat (length d) < 2 ^ 32) items -> Z.of_nat (length redeem) < 2 ^ 32 ->
  finalize tx redeem items =
  Some (mkTransaction (version tx) (lock_time tx)
    (set_script_sig i (items_bytes (map minimal_item items ++ [PushBytes redeem])) :: rest)
    (output tx)).
Proof.
  intros Hi Hs Hr. unfold finalize.
  destruct (push_all_minimal_script items Builder_new Hs) as (b & -> & E1). simpl.
  destruct (push_slice_script redeem b Hr) as (b' & -> & E2). simpl. rewrite Hi.
  unfold into_script. rewrite E2, E1. unfold items_bytes. rewrite map_app, concat_app. simpl.
  by rewrite app_nil_r.
Qed.

(** ** The spending transactions *)

(** The spends whose fields have the widths of their Rust types, whose outpoint
    index stays clear of the flag bits and whose destination can be parsed back. *)
Definition spend_wf (spend : SeqHtlcSpend) : Prop :=
  vout_ok (spend_vout spend) false false /\ is_u64 (spend_amount spend) /\
  is_u64 (spend_fee spend) /\ vec_u8_wf (spend_dest_spk spend).

(** The transaction [build_spend_tx] makes, with a signature script. *)
Definition spend_tx (spend : SeqHtlcSpend) (t a : bytes) (seq : Sequence) (lock : LockTime)
    (sig_script : Script) : Transaction :=
  mkTransaction 2 lock
    [mkTxIn (mkOutPoint t (spend_vout spend)) false sig_script seq AssetIssuance_null TxInWitness_empty]
    [mkTxOut (AssetExplicit a) (ValueExplicit (spend_amount spend - spend_fee spend)) NonceNull
       (spend_dest_spk spend) TxOutWitness_empty;
     new_fee (spend_fee spend) a].

Definition spend_sequence (refund : bool) : Sequence :=
  if refund then mkSequence 0xfffffffe else Sequence_MAX.
Definition spend_lock (refund : bool) (locktime : Z) : LockTime :=
  if refund then LockTime_from_consensus locktime else LockTime_ZERO.

Lemma build_spend_tx_ok spend locktime refund tx :
  build_spend_tx spend locktime refund = Ok tx <->
  exists t a, txid_from_str (spend_txid spend) = Some t /\
    asset_from_str (spend_asset_id spend) = Some a /\ spend_fee spend <= spend_amount spend /\
    tx = spend_tx spend t a (spend_sequence refund) (spend_lock refund locktime) [].
Proof.
  unfold build_spend_tx, checked_sub, spend_tx.
  destruct (txid_from_str (spend_txid spend)) as [t|]; simpl; [|naive_solver].
  destruct (asset_from_str (spend_asset_id spend)) as [a|]; simpl; [|naive_solver].
  destruct (Z.leb_spec (spend_fee spend) (spend_amount spend)); simpl.
  - destruct refund; simpl; split.
    1,3: intros [= <-]; by exists t, a.
    all: by intros (? & ? & [= <-] & [= <-] & _ & ->).
  - split; [done|]. intros (? & ? & _ & _ & ? & _). lia.
Qed.

Lemma explicit_out_wf a v spk w :
  length a = 32%nat -> is_u64 v -> vec_u8_wf spk ->
  TxOut_base_wf (mkTxOut (AssetExplicit a) (ValueExplicit v) NonceNull spk w).
Proof. by intros. Qed.

Lemma spend_tx_wf spend t a seq lock s :
  spend_wf spend -> length t = 32%nat -> length a = 32%nat ->
  spend_fee spend <= spend_amount spend -> Sequence_wf seq -> LockTime_wf lock -> vec_u8_wf s ->
  Transaction_wf (spend_tx spend t a seq lock s).
Proof.
  intros (Hv & Ha & Hf & Hd) Ht Hal Hle Hq Hl Hs.
  pose proof max_vec_size_usize. pose proof size_of_TxIn_small. pose proof size_of_TxOut_small.
  pose proof size_of_TxIn_pos. pose proof size_of_TxOut_pos. pose proof max_vec_size_large.
  split; [done|]. split; [done|].
  split; (split; [|cbn [spend_tx input output length]; lia]).
  - apply List.Forall_cons; [|apply List.Forall_nil]. split; [|apply TxInWitness_empty_wf].
    by repeat (split; [done|]).
  - apply List.Forall_cons; [|apply List.Forall_cons; [|apply List.Forall_nil]]; (split; [|done]).
    + apply explicit_out_wf; [done|lia|done].
    + apply explicit_out_wf; [done|lia|unfold vec_u8_wf; simpl; lia].
Qed.

(** Neither the signature script nor the witnesses are signed. *)
Lemma sign_legacy_spend spend t a seq lock s redeem key :
  sign_legacy (spend_tx spend t a seq lock s) redeem key =
  sign_legacy (spend_tx spend t a seq lock []) redeem key.
Proof. done. Qed.

Lemma sign_legacy_some spend t a seq lock s redeem key :
  exists sig, sign_legacy (spend_tx spend t a seq lock s) redeem key = Some sig /\
    (9 <= length sig <= 73)%nat.
Proof.
  unfold sign_legacy, legacy_sighash, legacy_signing_data. simpl.
  eexists. split; [done|]. rewrite length_app. simpl.
  match goal with |- context [sign_der key ?m] => pose proof (sign_der_length key m) end. lia.
Qed.

Lemma htlc_items_size hash claim refund n :
  length hash = 32%nat -> length claim = 33%nat -> length refund = 33%nat -> is_u32 n ->
  (length (items_bytes (htlc_items hash claim refund n)) <= 200)%nat.
Proof.
  intros Hh Hc Hr Hn.
  assert (Hi : forall m, is_u32 m -> (item_size (int_item m) <= 15)%nat).
  { intros m Hm. unfold int_item. case_match; simpl; [lia|].
    pose proof (build_scriptint_length m ltac:(lia)). lia. }
  pose proof (Hi 32 ltac:(lia)). pose proof (Hi n Hn).
  etrans; [apply items_bytes_length|]. unfold htlc_items.
  set (i32 := int_item 32) in *. set (lock := int_item n) in *. simpl. rewrite ?Hh, ?Hc, ?Hr. lia.
Qed.

(** ** Running the spends *)

Lemma minimal_item_long d : (2 <= length d)%nat -> minimal_item d = PushBytes d.
Proof. destruct d as [|v [|w d]]; simpl; [lia|lia|done]. Qed.

Lemma eval_htlc checksig cltv hash claim refund n st :
  length hash = 32%nat -> length claim = 33%nat -> length refund = 33%nat -> is_u32 n ->
  Forall (fun x => (length x <= 520)%nat) st ->
  eval_script checksig sha256 cltv (items_bytes (htlc_items hash claim refund n)) st = true <->
  (exists sel pre sig rest, st = sel :: pre :: sig :: rest /\ truthy sel = true /\
     length pre = 32%nat /\ sha256 pre = hash /\ checksig sig claim = true) \/
  (exists sel sig rest, st = sel :: sig :: rest /\ truthy sel = false /\
     cltv (build_scriptint n) = true /\ checksig sig refund = true).
Proof.
  intros Hh Hc Hr Hn Hst. destruct (htlc_items_ok hash claim refund n Hh Hc Hr Hn) as (Hok & _ & Hs).
  unfold eval_script, eval_items. rewrite instructions_bytes, mapM_map_Ok by done.
  by apply htlc_exec.
Qed.

Lemma claim_script_sig checksig cltv hash claim refund n sig pre :
  length hash = 32%nat -> length claim = 33%nat -> length refund = 33%nat -> is_u32 n ->
  (2 <= length sig <= 520)%nat -> length pre = 32%nat ->
  let redeem := items_bytes (htlc_items hash claim refund n) in
  p2sh_spend checksig sha256 cltv
    (items_bytes (map minimal_item [sig; pre; [Byte.x01]] ++ [PushBytes redeem])) redeem =
  bool_decide (sha256 pre = hash) && checksig sig claim.
Proof.
  intros Hh Hc Hr Hn Hsig Hpre redeem. unfold p2sh_spend.
  pose proof (htlc_items_size hash claim refund n Hh Hc Hr Hn) as Hsz. fold redeem in Hsz.
  cbn [map app]. rewrite (minimal_item_long sig), (minimal_item_long pre) by lia.
  rewrite instructions_bytes.
  2-3: forall_list ltac:(first [done|cbn [item_short]; lia]).
  simpl. unfold item_eqb. rewrite bool_decide_true by done. simpl.
  apply eq_true_iff_eq. unfold redeem. rewrite eval_htlc.
  2-5: done.
  2: { forall_list ltac:(simpl; lia). }
  rewrite andb_true_iff, bool_decide_eq_true. split.
  - intros [(?&?&?&?&[= <- <- <- <-]&_&_&?&?)|(?&?&?&[= <- ?]&Ht&_)]; [done|by vm_compute in Ht].
  - intros [Hsha Hck]. left. by exists [Byte.x01], pre, sig, [].
Qed.

Lemma refund_script_sig checksig cltv hash claim refund n sig :
  length hash = 32%nat -> length claim = 33%nat -> length refund = 33%nat -> is_u32 n ->
  (2 <= length sig <= 520)%nat ->
  let redeem := items_bytes (htlc_items hash claim refund n) in
  p2sh_spend checksig sha256 cltv
    (items_bytes (map minimal_item [sig; []] ++ [PushBytes redeem])) redeem =
  cltv (build_scriptint n) && checksig sig refund.
Proof.
  intros Hh Hc Hr Hn Hsig redeem. unfold p2sh_spend.
  pose proof (htlc_items_size hash claim refund n Hh Hc Hr Hn) as Hsz. fold redeem in Hsz.
  cbn [map app]. rewrite (minimal_item_long sig) by lia.
  rewrite instructions_bytes.
  2-3: forall_list ltac:(first [done|cbn [item_short]; lia]).
  simpl. unfold item_eqb. rewrite bool_decide_true by done. simpl.
  apply eq_true_iff_eq. unfold redeem. rewrite eval_htlc.
  2-5: done.
  2: { forall_list ltac:(simpl; lia). }
  rewrite andb_true_iff. split.
  - by intros [(?&?&?&?&?&_)|(?&?&?&[= <- <- <-]&_&?&?)]; simplify_eq.
  - intros [Hcl Hck]. right. by exists [], sig, [].
Qed.

(** The signed spend, parsed back from its serialization. *)
Lemma finalized_spend spend t a refund locktime redeem key items sig :
  spend_wf spend -> txid_from_str (spend_txid spend) = Some t ->
  asset_from_str (spend_asset_id spend) = Some a -> spend_fee spend <= spend_amount spend ->
  is_u32 locktime -> (length redeem <= 200)%nat ->
  sign_legacy (spend_tx spend t a (spend_sequence refund) (spend_lock refund locktime) []) redeem key
    = Some sig -> (length items <= 2)%nat -> Forall (fun d => (length d <= 32)%nat) items ->
  (length sig <= 73)%nat ->
  exists tx, finalize (spend_tx spend t a (spend_sequence refund) (spend_lock refund locktime) [])
               redeem (sig :: items) = Some tx /\
    tx = spend_tx spend t a (spend_sequence refund) (spend_lock refund locktime)
           (items_bytes (map minimal_item (sig :: items) ++ [PushBytes redeem])) /\
    deserialize (serialize tx) = Ok tx.
Proof.
  intros Hwf Et Ea Hle Hn Hr Esig Hni Hit Hsl.
  assert (Hms : forall d, (item_size (minimal_item d) <= 5 + length d)%nat).
  { intros [|v [|w d]]; simpl; [lia| |lia]. repeat case_match; simpl; lia. }
  erewrite (finalize_script _ _ [] redeem (sig :: items)); [|reflexivity| |lia].
  2: { constructor; [lia|]. eapply Forall_impl; [exact Hit|]. simpl. lia. }
  eexists. split; [done|]. split; [done|].
  apply deserialize_ok. split; [|done]. apply spend_tx_wf; try done.
  - by apply (txid_from_str_length (spend_txid spend)).
  - by apply (asset_from_str_length (spend_asset_id spend)).
  - by destruct refund.
  - destruct refund; [by apply LockTime_from_consensus_wf|done].
  - unfold vec_u8_wf. pose proof max_vec_size_large.
    pose proof (items_bytes_length (map minimal_item (sig :: items) ++ [PushBytes redeem])) as Hl.
    enough (list_sum (map item_size (map minimal_item (sig :: items) ++ [PushBytes redeem])) <= 400)%nat by lia.
    clear Hl. pose proof (Hms sig).
    destruct items as [|i1 [|i2 [|]]]; simpl in *; try lia.
    + inversion_clear Hit. pose proof (Hms i1). lia.
    + inversion_clear Hit as [|? ? Hi1 Hit']. inversion_clear Hit'.
      pose proof (Hms i1). pose proof (Hms i2). lia.
Qed.
End Htlc.

(** ** Claims *)

(** The redeem script determines the terms of the swap: two successful calls
    of [build_htlc_redeem_script] with the same bytes had the same hashlock, claim
    key, refund key and lock time, and the script parses back, with every push
    minimal, to the documented sequence of opcodes.  (The wallet verifies a
    counterparty's leg by rebuilding the script and comparing bytes.) *)
Theorem htlc_script_determines_terms `{Platform} `{Secp} `{Hashes} `{HtlcEnv}
    (h c r h' c' r' : bytes) (n n' : Z) (s : Script) :
  is_u32 n -> is_u32 n' ->
  build_htlc_redeem_script h c r n = Ok s -> build_htlc_redeem_script h' c' r' n' = Ok s ->
  h = h' /\ c = c' /\ r = r' /\ n = n' /\ instructions_minimal s = map Ok (htlc_items h c r n).
Proof.
  intros Hn Hn' (Hh & Hc & Hr & Es)%build_htlc_ok (Hh' & Hc' & Hr' & Es')%build_htlc_ok; [|done..].
  destruct (htlc_items_ok h c r n Hh Hc Hr Hn) as (O1 & M1 & S1).
  destruct (htlc_items_ok h' c' r' n' Hh' Hc' Hr' Hn') as (O2 & _ & S2).
  rewrite Es in Es'. apply items_bytes_inj in Es'; [|done..].
  unfold htlc_items in Es'. injection Es' as -> -> Ei ->.
  apply int_item_inj in Ei as ->; [|lia..].
  repeat (split; [done|]). rewrite Es. by apply instructions_minimal_bytes.
Qed.

(** C12: Who can spend an HTLC output: the script built from hashlock [h], claim
    key [c], refund key [r] and lock time [n] accepts a stack (of items within the
    520-byte limit) exactly when it selects the first branch with a 32-byte
    preimage of [h] and a signature for [c], or the second branch with the lock
    time reached and a signature for [r]. *)
Theorem htlc_spending_conditions `{Platform} `{Secp} `{Hashes} `{HtlcEnv}
    (checksig : bytes -> bytes -> bool) (cltv : bytes -> bool)
    (h c r : bytes) (n : Z) (s : Script) (st : list bytes) :
  is_u32 n -> build_htlc_redeem_script h c r n = Ok s ->
  Forall (fun x => (length x <= 520)%nat) st ->
  eval_script checksig sha256 cltv s st = true <->
  (exists sel pre sig rest, st = sel :: pre :: sig :: rest /\ truthy sel = true /\
     length pre = 32%nat /\ sha256 pre = h /\ checksig sig c = true) \/
  (exists sel sig rest, st = sel :: sig :: rest /\ truthy sel = false /\
     cltv (build_scriptint n) = true /\ checksig sig r = true).
Proof.
  intros Hn (Hh & Hc & Hr & ->)%build_htlc_ok Hst; [|done]. by apply eval_htlc.
Qed.

(** C33: The SEQ-leg claim.  [build_claim_tx] succeeds exactly when the preimage
    has 32 bytes, both ids parse and the fee does not exceed the value; the bytes
    it returns parse to a final, unlocked transaction that spends the HTLC
    outpoint, pays value less fee to the destination and the fee as a fee output
    in the same asset, carries a signature of its own [SIGHASH_ALL] hash, and
    whose signature script satisfies the redeem script if and only if the
    preimage matches the hashlock and that signature is valid for the claim key. *)
Theorem seq_claim_tx_correct `{Platform} `{Secp} `{Hashes} `{HtlcEnv}
    (spend : SeqHtlcSpend) (h c r : bytes) (n : Z) (redeem : Script) (key : SecretKey)
    (preimage : bytes) :
  spend_wf spend -> is_u32 n -> build_htlc_redeem_script h c r n = Ok redeem ->
  (is_ok (build_claim_tx spend redeem key preimage) = true <->
   length preimage = 32%nat /\ is_Some (txid_from_str (spend_txid spend)) /\
   is_Some (asset_from_str (spend_asset_id spend)) /\ spend_fee spend <= spend_amount spend) /\
  forall raw, build_claim_tx spend redeem key preimage = Ok raw ->
  exists t a script_sig sig,
    let tx := spend_tx spend t a Sequence_MAX LockTime_ZERO script_sig in
    deserialize raw = Ok tx /\
    txid_from_str (spend_txid spend) = Some t /\ asset_from_str (spend_asset_id spend) = Some a /\
    sign_legacy tx redeem key = Some sig /\
    forall checksig cltv, p2sh_spend checksig sha256 cltv script_sig redeem =
      bool_decide (sha256 preimage = h) && checksig sig c.
Proof.
  intros Hwf Hn (Hh & Hc & Hr & ->)%build_htlc_ok; [|done].
  pose proof (htlc_items_size h c r n Hh Hc Hr Hn) as Hsz.
  set (redeem := items_bytes (htlc_items h c r n)) in *.
  unfold build_claim_tx. destruct (Nat.eqb_spec (length preimage) 32) as [Hp|Hp]; simpl.
  2: { split; [naive_solver|done]. }
  destruct (build_spend_tx spend 0 false) as [tx0|e] eqn:E0; simpl.
  2: { split; [|done]. split; [done|]. intros (_ & [t Et] & [a Ea] & Hle).
       assert (build_spend_tx spend 0 false = Ok (spend_tx spend t a (spend_sequence false) (spend_lock false 0) []))
         by (apply build_spend_tx_ok; by exists t, a). congruence. }
  apply build_spend_tx_ok in E0 as (t & a & Et & Ea & Hle & ->).
  destruct (sign_legacy_some spend t a (spend_sequence false) (spend_lock false 0) [] redeem key)
    as (sig & Esig & Hsig). rewrite Esig. cbn [rbind ok_or].
  destruct (finalized_spend spend t a false 0 redeem key [preimage; [Byte.x01]] sig)
    as (tx & Ef & Etx & Hd); [done|done|done|done|done|done|done|simpl; lia| |lia|].
  { forall_list ltac:(simpl; lia). }
  rewrite Ef. simpl. split; [rewrite Et, Ea; naive_solver|].
  intros raw [= <-]. exists t, a, (items_bytes (map minimal_item [sig; preimage; [Byte.x01]] ++ [PushBytes redeem])), sig.
  rewrite Hd, Etx. do 3 (split; [done|]). split; [by rewrite sign_legacy_spend|].
  intros checksig cltv. apply claim_script_sig; try done. lia.
Qed.

(** C34: The SEQ-leg refund.  [build_refund_tx] succeeds exactly when both ids
    parse and the fee does not exceed the value; the bytes it returns parse to a
    transaction with the HTLC lock time and a non-final sequence that pays value
    less fee to the destination and the fee as a fee output, and whose signature
    script passes [OP_CHECKLOCKTIMEVERIFY] and satisfies the redeem script if and
    only if the signature is valid for the refund key. *)
Theorem seq_refund_tx_correct `{Platform} `{Secp} `{Hashes} `{HtlcEnv}
    (spend : SeqHtlcSpend) (h c r : bytes) (n : Z) (redeem : Script) (key : SecretKey) :
  spend_wf spend -> is_u32 n -> build_htlc_redeem_script h c r n = Ok redeem ->
  (is_ok (build_refund_tx spend redeem key n) = true <->
   is_Some (txid_from_str (spend_txid spend)) /\
   is_Some (asset_from_str (spend_asset_id spend)) /\ spend_fee spend <= spend_amount spend) /\
  forall raw, build_refund_tx spend redeem key n = Ok raw ->
  exists t a script_sig sig,
    let tx := spend_tx spend t a (mkSequence 0xfffffffe) (LockTime_from_consensus n) script_sig in
    deserialize raw = Ok tx /\
    txid_from_str (spend_txid spend) = Some t /\ asset_from_str (spend_asset_id spend) = Some a /\
    sign_legacy tx redeem key = Some sig /\
    forall checksig,
      p2sh_spend checksig sha256 (cltv_ok (lock_time tx) (mkSequence 0xfffffffe)) script_sig redeem =
      checksig sig r.
Proof.
  intros Hwf Hn (Hh & Hc & Hr & ->)%build_htlc_ok; [|done].
  pose proof (htlc_items_size h c r n Hh Hc Hr Hn) as Hsz.
  set (redeem := items_bytes (htlc_items h c r n)) in *.
  unfold build_refund_tx. destruct (build_spend_tx spend n true) as [tx0|e] eqn:E0; simpl.
  2: { split; [|done]. split; [done|]. intros ([t Et] & [a Ea] & Hle).
       assert (build_spend_tx spend n true = Ok (spend_tx spend t a (spend_sequence true) (spend_lock true n) []))
         by (apply build_spend_tx_ok; by exists t, a). congruence. }
  apply build_spend_tx_ok in E0 as (t & a & Et & Ea & Hle & ->).
  destruct (sign_legacy_some spend t a (spend_sequence true) (spend_lock true n) [] redeem key)
    as (sig & Esig & Hsig). rewrite Esig. cbn [rbind ok_or].
  destruct (finalized_spend spend t a true n redeem key [[]] sig)
    as (tx & Ef & Etx & Hd); [done|done|done|done|done|done|done|simpl; lia| |lia|].
  { forall_list ltac:(simpl; lia). }
  rewrite Ef. simpl. split; [rewrite Et, Ea; naive_solver|].
  intros raw [= <-]. exists t, a, (items_bytes (map minimal_item [sig; []] ++ [PushBytes redeem])), sig.
  rewrite Hd, Etx. do 3 (split; [done|]). split; [by rewrite sign_legacy_spend|].
  intros checksig. cbn zeta. rewrite (refund_script_sig checksig _ h c r n sig) by (done || lia).
  change (lock_time _) with (LockTime_from_consensus n). by rewrite cltv_ok_self.
Qed.

(** ** Witnesses *)

Module HtlcSample.
Export SighashSample.

(** Ids read as the number of characters of their text form; a signature that
    is the first bytes of the digest. *)
Program Definition HtlcEnv_model : HtlcEnv :=
  {| txid_from_str s := Some (le_bytes 32 (Z.of_nat (String.length s)));
     asset_from_str s := Some (le_bytes 32 (Z.of_nat (String.length s)));
     SecretKey := Z;
     sign_der k m := le_bytes 8 (k + le_val m) |}.
Next Obligation. intros s h [= <-]. reflexivity. Qed.
Next Obligation. intros s h [= <-]. reflexivity. Qed.
Next Obligation. intros k m. simpl. lia. Qed.
#[export] Existing Instance HtlcEnv_model.

Definition sample_key : @SecretKey HtlcEnv_model := 5.
Definition pubkey (b : byte) : bytes := Byte.x02 :: replicate 32 b.
Definition preimage : bytes := replicate 32 Byte.x2a.
Definition sample_hash : bytes := sha256 preimage.
Definition sample_redeem : Script :=
  items_bytes (htlc_items sample_hash (pubkey Byte.x11) (pubkey Byte.x22) 250).
Definition sample_spend : SeqHtlcSpend :=
  mkSeqSpend "f00d" 1 50000 "a55e7" [Byte.x51] 300.

Lemma sample_redeem_ok :
  build_htlc_redeem_script sample_hash (pubkey Byte.x11) (pubkey Byte.x22) 250 = Ok sample_redeem.
Proof. vm_compute. reflexivity. Defined.

Lemma sample_spend_wf : spend_wf sample_spend.
Proof. split; [right; split; [done|by intros (? & ? & ?)]|]. by repeat split. Defined.
End HtlcSample.
Import HtlcSample.

Lemma htlc_script_determines_terms_witness :
  instructions_minimal sample_redeem =
  map Ok (htlc_items sample_hash (pubkey Byte.x11) (pubkey Byte.x22) 250).
Proof.
  apply (htlc_script_determines_terms sample_hash (pubkey Byte.x11) (pubkey Byte.x22)
    sample_hash (pubkey Byte.x11) (pubkey Byte.x22) 250 250 sample_redeem);
    [lia|lia|exact sample_redeem_ok|exact sample_redeem_ok].
Defined.

Lemma htlc_spending_conditions_witness :
  eval_script (fun _ _ => true) sha256 (fun _ => false) sample_redeem
    [[Byte.x01]; preimage; [Byte.x30]] = true.
Proof.
  apply (htlc_spending_conditions (fun _ _ => true) (fun _ => false) sample_hash (pubkey Byte.x11)
    (pubkey Byte.x22) 250 sample_redeem [[Byte.x01]; preimage; [Byte.x30]]);
    [lia|exact sample_redeem_ok|forall_list ltac:(simpl; lia)|].
  left. exists [Byte.x01], preimage, [Byte.x30], []. repeat split; reflexivity.
Defined.

Lemma seq_claim_tx_correct_witness :
  is_ok (build_claim_tx sample_spend sample_redeem sample_key preimage) = true.
Proof.
  apply (proj1 (seq_claim_tx_correct sample_spend sample_hash (pubkey Byte.x11) (pubkey Byte.x22) 250
    sample_redeem sample_key preimage sample_spend_wf ltac:(lia) sample_redeem_ok)).
  split; [reflexivity|]. split; [eexists; reflexivity|]. split; [eexists; reflexivity|]. simpl; lia.
Defined.

Lemma seq_refund_tx_correct_witness :
  is_ok (build_refund_tx sample_spend sample_redeem sample_key 250) = true.
Proof.
  apply (proj1 (seq_refund_tx_correct sample_spend sample_hash (pubkey Byte.x11) (pubkey Byte.x22) 250
    sample_redeem sample_key sample_spend_wf ltac:(lia) sample_redeem_ok)).
  split; [eexists; reflexivity|]. split; [eexists; reflexivity|]. simpl; lia.
Defined.
