(* ===== verification/BtcHtlc.v ===== *)
(** * The Bitcoin leg of a cross-chain swap

    [lwk_wollet/src/btc/htlc.rs]: the redeem script (delegated to the SEQ-leg
    builder) and the refund and claim spends.  Transactions are those of the
    [bitcoin] crate: they are kept as records, their signature scripts as the list
    of items pushed, and that crate's legacy sighash is a parameter. *)

From S2P Require Import Prelude Encode Script Timelocks Confidential Transaction Sighash ScriptEval Htlc.

Record BtcTxIn := mkBtcIn
  { btc_previous_output : OutPoint;
    btc_script_sig : list Instruction;
    btc_sequence : Sequence }.

Record BtcTx := mkBtcTx
  { btc_version : Z;
    btc_lock_time : LockTime;
    btc_input : list BtcTxIn;
    btc_output : list (Z * bytes) }.

(** [SighashCache::legacy_signature_hash] of the [bitcoin] crate; it signs neither
    signature scripts nor witnesses. *)
Class BtcEnv :=
  { legacy_signature_hash : BtcTx -> nat -> bytes -> Z -> option bytes;
    signature_hash_ignores_scripts tx s idx script ty :
      legacy_signature_hash tx idx script ty =
      legacy_signature_hash
        (mkBtcTx (btc_version tx) (btc_lock_time tx)
           (map (fun i => mkBtcIn (btc_previous_output i) s (btc_sequence i)) (btc_input tx))
           (btc_output tx)) idx script ty }.

Section BtcHtlc.
Context {P : Platform} {S : Secp} {H : Hashes} {E : HtlcEnv} {B : BtcEnv}.

Definition btc_build_htlc_redeem_script (hash claim_pub refund_pub : bytes) (locktime : Z)
  : result bytes htlc_error :=
  let? seq := build_htlc_redeem_script hash claim_pub refund_pub locktime in Ok seq.

Record BtcHtlcSpend := mkBtcSpend
  { bs_txid : string;
    bs_vout : Z;
    bs_amount_sats : Z;
    bs_dest_spk : bytes;
    bs_fee_sats : Z }.

(** [PushBytes::try_from]: pushes of four gigabytes are refused. *)
Definition push_bytes (b : bytes) : result bytes htlc_error :=
  if Z.of_nat (length b) <? 0x100000000 then Ok b else Err PushTooLong.

(** The value checks that open both builders. *)
Definition out_value (spend : BtcHtlcSpend) : result Z htlc_error :=
  let? v := ok_or (checked_sub (bs_amount_sats spend) (bs_fee_sats spend)) FeeExceedsValue in
  if v =? 0 then Err ZeroOutput else Ok v.

Definition btc_unsigned (spend : BtcHtlcSpend) (v : Z) (txid : bytes) (lock : LockTime) (seq : Sequence)
  : BtcTx :=
  mkBtcTx 2 lock [mkBtcIn (mkOutPoint txid (bs_vout spend)) [] seq] [(v, bs_dest_spk spend)].

Definition with_script_sig (tx : BtcTx) (items : list Instruction) : BtcTx :=
  mkBtcTx (btc_version tx) (btc_lock_time tx)
    (match btc_input tx with
     | i :: rest => mkBtcIn (btc_previous_output i) items (btc_sequence i) :: rest
     | [] => []
     end) (btc_output tx).

Definition btc_sign (tx : BtcTx) (redeem : bytes) (sk : SecretKey) : result bytes htlc_error :=
  let? sighash := ok_or (legacy_signature_hash tx 0 redeem 1) SighashError in
  Ok (sign_der sk sighash ++ [Byte.x01]).

Definition btc_build_refund_tx (redeem : bytes) (spend : BtcHtlcSpend) (locktime : Z)
    (refund_sk : SecretKey) : result BtcTx htlc_error :=
  let? v := out_value spend in
  let? txid := ok_or (txid_from_str (bs_txid spend)) InvalidTxid in
  let tx := btc_unsigned spend v txid (LockTime_from_consensus locktime) (mkSequence 0xfffffffd) in
  let? sig_bytes := btc_sign tx redeem refund_sk in
  let? s := push_bytes sig_bytes in
  let? r := push_bytes redeem in
  Ok (with_script_sig tx [PushBytes s; PushBytes []; PushBytes r]).

Definition btc_build_claim_tx (redeem : bytes) (spend : BtcHtlcSpend) (preimage : bytes)
    (claim_sk : SecretKey) : result BtcTx htlc_error :=
  let? v := out_value spend in
  let? txid := ok_or (txid_from_str (bs_txid spend)) InvalidTxid in
  let tx := btc_unsigned spend v txid (LockTime_from_consensus 0) (mkSequence 0xffffffff) in
  let? sig_bytes := btc_sign tx redeem claim_sk in
  let? s := push_bytes sig_bytes in
  let? p := push_bytes preimage in
  let? r := push_bytes redeem in
  Ok (with_script_sig tx [PushBytes s; PushBytes p; Op OP_PUSHNUM_1; PushBytes r]).

(** Run a signature script given as items: BIP 16 as in [p2sh_spend]. *)
Definition p2sh_spend_items (checksig : bytes -> bytes -> bool) (cltv : bytes -> bool)
    (items : list Instruction) (redeem : Script) : bool :=
  match push_only (map Ok items) [] with
  | Some (r :: st) => item_eqb r redeem && eval_script checksig sha256 cltv r st
  | _ => false
  end.

Lemma out_value_ok spend v :
  out_value spend = Ok v <->
  v = bs_amount_sats spend - bs_fee_sats spend /\ bs_fee_sats spend < bs_amount_sats spend.
Proof.
  unfold out_value, checked_sub. destruct (Z.leb_spec (bs_fee_sats spend) (bs_amount_sats spend)); simpl.
  - destruct (Z.eqb_spec (bs_amount_sats spend - bs_fee_sats spend) 0); split; try done; try lia.
    + by intros [= <-]; split; [|lia].
    + by intros [-> _].
  - split; [done|lia].
Qed.

Lemma push_bytes_short b : (length b <= 1000)%nat -> push_bytes b = Ok b.
Proof. intros. unfold push_bytes. by destruct (Z.ltb_spec (Z.of_nat (length b)) 0x100000000); [|lia]. Qed.

Lemma btc_sign_script tx i rest items redeem sk :
  btc_input tx = i :: rest -> rest = [] -> btc_script_sig i = [] ->
  btc_sign (with_script_sig tx items) redeem sk = btc_sign tx redeem sk.
Proof.
  intros Hi -> Hs. unfold btc_sign. f_equal. f_equal.
  rewrite (signature_hash_ignores_scripts _ []), (signature_hash_ignores_scripts tx []).
  unfold with_script_sig. by rewrite Hi.
Qed.

Lemma btc_sign_length tx redeem sk sig :
  btc_sign tx redeem sk = Ok sig -> (9 <= length sig <= 73)%nat.
Proof.
  unfold btc_sign. intros (m & _ & [= <-])%rbind_ok. autorewrite with swk_len.
  pose proof (sign_der_length sk m). simpl. lia.
Qed.
End BtcHtlc.

(** ** Claims *)

(** The BTC-leg claim.  A successful [build_claim_tx] spends the HTLC outpoint
    with a final sequence and no lock time into one positive output of amount less
    fee; its signature script satisfies the redeem script, the very bytes of the
    SEQ leg, exactly when the preimage has 32 bytes and hashes to the hashlock and
    the signature over this transaction is valid for the claim key. *)
Theorem btc_claim_tx_correct `{Platform} `{Secp} `{Hashes} `{HtlcEnv} `{BtcEnv}
    (h c r redeem preimage : bytes) (n : Z) (spend : BtcHtlcSpend) (sk : SecretKey) (tx : BtcTx) :
  is_u32 n -> (length preimage <= 520)%nat ->
  btc_build_htlc_redeem_script h c r n = Ok redeem ->
  btc_build_claim_tx redeem spend preimage sk = Ok tx ->
  exists t sig items,
    txid_from_str (bs_txid spend) = Some t /\
    btc_input tx = [mkBtcIn (mkOutPoint t (bs_vout spend)) items Sequence_MAX] /\
    btc_lock_time tx = LockTime_ZERO /\
    btc_output tx = [(bs_amount_sats spend - bs_fee_sats spend, bs_dest_spk spend)] /\
    0 < bs_amount_sats spend - bs_fee_sats spend /\
    btc_sign tx redeem sk = Ok sig /\
    forall checksig cltv, p2sh_spend_items checksig cltv items redeem =
      (length preimage =? 32)%nat && bool_decide (sha256 preimage = h) && checksig sig c.
Proof.
  intros Hn Hp Hb Hc. unfold btc_build_htlc_redeem_script in Hb.
  apply rbind_ok in Hb as (s & Hs & [= ->]).
  apply build_htlc_ok in Hs as (Hh & Hcl & Hr & Es); [|done].
  unfold btc_build_claim_tx in Hc.
  apply rbind_ok in Hc as (v & Hv & Hc). apply out_value_ok in Hv as [-> Hv].
  apply rbind_ok in Hc as (t & Ht & Hc). apply ok_or_ok in Ht.
  apply rbind_ok in Hc as (sig & Hsig & Hc).
  pose proof (btc_sign_length _ _ _ _ Hsig) as Hsl.
  pose proof (htlc_items_size h c r n Hh Hcl Hr Hn) as Hsz. rewrite <-Es in Hsz.
  rewrite !push_bytes_short in Hc by lia. simpl in Hc. injection Hc as <-.
  exists t, sig, [PushBytes sig; PushBytes preimage; Op OP_PUSHNUM_1; PushBytes redeem].
  do 4 (split; [done|]). split; [lia|].
  split; [by rewrite <-Hsig; eapply btc_sign_script|].
  intros checksig cltv. unfold p2sh_spend_items. simpl. unfold item_eqb.
  rewrite bool_decide_true by done. simpl. apply eq_true_iff_eq. rewrite Es, eval_htlc; try done.
  2: { forall_list ltac:(simpl; lia). }
  rewrite !andb_true_iff, Nat.eqb_eq, bool_decide_eq_true. split.
  - intros [(?&?&?&?&[= <- <- <- <-]&_&?&?&?)|(?&?&?&[= <- ?]&Ht'&_)]; [done|by vm_compute in Ht'].
  - intros [[? ?] ?]. left. by exists [Byte.x01], preimage, sig, [].
Qed.

(** The BTC-leg refund.  A successful [build_refund_tx] spends the HTLC
    outpoint into one positive output of amount less fee, with the HTLC lock time
    and a sequence that is replaceable and not final, so that the lock-time check
    of the script passes, and its signature script satisfies the redeem script
    exactly when the signature is valid for the refund key. *)
Theorem btc_refund_tx_correct `{Platform} `{Secp} `{Hashes} `{HtlcEnv} `{BtcEnv}
    (h c r redeem : bytes) (n : Z) (spend : BtcHtlcSpend) (sk : SecretKey) (tx : BtcTx) :
  is_u32 n -> btc_build_htlc_redeem_script h c r n = Ok redeem ->
  btc_build_refund_tx redeem spend n sk = Ok tx ->
  exists t sig items seq,
    txid_from_str (bs_txid spend) = Some t /\
    btc_input tx = [mkBtcIn (mkOutPoint t (bs_vout spend)) items seq] /\
    is_rbf seq = true /\ is_final seq = false /\ is_relative_lock_time seq = false /\
    btc_lock_time tx = LockTime_from_consensus n /\
    btc_output tx = [(bs_amount_sats spend - bs_fee_sats spend, bs_dest_spk spend)] /\
    0 < bs_amount_sats spend - bs_fee_sats spend /\
    btc_sign tx redeem sk = Ok sig /\
    forall checksig, p2sh_spend_items checksig (cltv_ok (btc_lock_time tx) seq) items redeem =
      checksig sig r.
Proof.
  intros Hn Hb Hc. unfold btc_build_htlc_redeem_script in Hb.
  apply rbind_ok in Hb as (s & Hs & [= ->]).
  apply build_htlc_ok in Hs as (Hh & Hcl & Hr & Es); [|done].
  unfold btc_build_refund_tx in Hc.
  apply rbind_ok in Hc as (v & Hv & Hc). apply out_value_ok in Hv as [-> Hv].
  apply rbind_ok in Hc as (t & Ht & Hc). apply ok_or_ok in Ht.
  apply rbind_ok in Hc as (sig & Hsig & Hc).
  pose proof (btc_sign_length _ _ _ _ Hsig) as Hsl.
  pose proof (htlc_items_size h c r n Hh Hcl Hr Hn) as Hsz. rewrite <-Es in Hsz.
  rewrite !push_bytes_short in Hc by lia. simpl in Hc. injection Hc as <-.
  exists t, sig, [PushBytes sig; PushBytes []; PushBytes redeem], (mkSequence 0xfffffffd).
  do 7 (split; [done|]). split; [lia|].
  split; [by rewrite <-Hsig; eapply btc_sign_script|].
  intros checksig. unfold p2sh_spend_items. simpl. unfold item_eqb.
  rewrite bool_decide_true by done. simpl. apply eq_true_iff_eq. rewrite Es, eval_htlc; try done.
  2: { forall_list ltac:(simpl; lia). }
  rewrite cltv_ok_self by done. split.
  - by intros [(?&?&?&?&?&_)|(?&?&?&[= <- <- <-]&_&?&?)]; simplify_eq.
  - intros ?. right. by exists [], sig, [].
Qed.

Module BtcHtlcSample.
Export HtlcSample.

(** A digest of everything but the signature scripts. *)
Program Definition BtcEnv_model : BtcEnv :=
  {| legacy_signature_hash tx idx script ty :=
       Some (script ++ [z2b (btc_version tx)] ++ concat (map snd (btc_output tx))) |}.
Next Obligation. done. Qed.
#[export] Existing Instance BtcEnv_model.

Definition sample_btc_spend : BtcHtlcSpend := mkBtcSpend "beef" 0 90000 [Byte.x51] 500.

Lemma sample_btc_redeem_ok :
  btc_build_htlc_redeem_script sample_hash (pubkey Byte.x11) (pubkey Byte.x22) 250 = Ok sample_redeem.
Proof. unfold btc_build_htlc_redeem_script. rewrite sample_redeem_ok. reflexivity. Defined.
End BtcHtlcSample.
Import BtcHtlcSample.

Lemma btc_claim_tx_correct_witness :
  exists tx, btc_build_claim_tx sample_redeem sample_btc_spend preimage sample_key = Ok tx /\
    btc_output tx = [(89500, [Byte.x51])].
Proof.
  destruct (btc_build_claim_tx sample_redeem sample_btc_spend preimage sample_key) as [tx|e] eqn:Etx;
    [|vm_compute in Etx; discriminate Etx].
  exists tx. split; [reflexivity|].
  destruct (btc_claim_tx_correct sample_hash (pubkey Byte.x11) (pubkey Byte.x22) sample_redeem preimage
    250 sample_btc_spend sample_key tx ltac:(lia) ltac:(simpl; lia) sample_btc_redeem_ok Etx)
    as (_ & _ & _ & _ & _ & _ & Ho & _). exact Ho.
Defined.

Lemma btc_refund_tx_correct_witness :
  exists tx, btc_build_refund_tx sample_redeem sample_btc_spend 250 sample_key = Ok tx /\
    btc_lock_time tx = LockTime_from_consensus 250.
Proof.
  destruct (btc_build_refund_tx sample_redeem sample_btc_spend 250 sample_key) as [tx|e] eqn:Etx;
    [|vm_compute in Etx; discriminate Etx].
  exists tx. split; [reflexivity|].
  destruct (btc_refund_tx_correct sample_hash (pubkey Byte.x11) (pubkey Byte.x22) sample_redeem
    250 sample_btc_spend sample_key tx ltac:(lia) sample_btc_redeem_ok Etx)
    as (_ & _ & _ & _ & _ & _ & _ & _ & _ & Hl & _). exact Hl.
Defined.
