(* ===== verification/Delegation.v ===== *)
(** * Delegation records

    [lwk_wollet/src/sequentia_delegation.rs]: the record script
    [<"SEQDEL"> OP_DROP <signer> OP_DROP <controller> OP_CHECKSIG], its parser, and
    the self-funded transaction that reclaims or re-points a record. *)

From S2P Require Import Prelude Encode Hex Script Timelocks Confidential Transaction TxMetrics Sighash ScriptEval Htlc.

(** [PublicKey::from_secret_key] and HASH160, from [secp256k1-zkp] and
    [bitcoin_hashes]. *)
Class KeyEnv `{Secp} `{HtlcEnv} :=
  { pubkey_of : SecretKey -> PublicKey;
    hash160 : bytes -> bytes;
    hash160_length l : length (hash160 l) = 20%nat }.

(** The [Error::Generic] values of the module, by message. *)
Inductive delegation_error : Type :=
| FeeNotCovered (record_value fee : Z)
| BelowDustFloor (out_value dust_floor : Z)
| SameSigner
| SelfDelegation
| InvalidPubkeyHex (what : string)
| NotCompressed (what : string)
| InvalidDelegationPubkey (what : string)
| DelegationPanic.

Section Delegation.
Context {P : Platform} {S : Secp} {H : Hashes} {E : HtlcEnv} {K : @KeyEnv S E}.

Definition DELEGATION_MARKER : bytes := [Byte.x53; Byte.x45; Byte.x51; Byte.x44; Byte.x45; Byte.x4c].

(** [None] would be a key of four gigabytes. *)
Definition sequentia_delegation_script (controller_pubkey signer_pubkey : bytes) : option Script :=
  b ← push_slice DELEGATION_MARKER Builder_new;
  b ← push_slice signer_pubkey (push_opcode OP_DROP b);
  b ← push_slice controller_pubkey (push_opcode OP_DROP b);
  Some (into_script (push_opcode OP_CHECKSIG b)).

Record DelegationSpendPlan := mkPlan
  { record_txid : bytes;
    record_vout : Z;
    record_value : Z;
    plan_asset : AssetId;
    current_signer : bytes;
    controller_secret : SecretKey;
    rotate_to : option bytes;
    reclaim_spk : Script;
    fee_atoms : Z;
    dust_floor : Z;
    locktime : Z }.

(** The destination of the value: the new record or the reclaim script. *)
Definition delegation_destination (plan : DelegationSpendPlan) (controller : bytes)
  : result Script delegation_error :=
  match rotate_to plan with
  | Some new_signer =>
      if bool_decide (new_signer = current_signer plan) then Err SameSigner
      else if bool_decide (new_signer = controller) then Err SelfDelegation
      else ok_or (sequentia_delegation_script controller new_signer) DelegationPanic
  | None => Ok (reclaim_spk plan)
  end.

(** [build_delegation_spend_tx]: the serialized transaction and its txid. *)
Definition build_delegation_spend_tx (plan : DelegationSpendPlan)
  : result (bytes * bytes) delegation_error :=
  if record_value plan <=? fee_atoms plan
  then Err (FeeNotCovered (record_value plan) (fee_atoms plan))
  else
    let out_value := record_value plan - fee_atoms plan in
    if out_value <? dust_floor plan then Err (BelowDustFloor out_value (dust_floor plan))
    else
      let controller := ext_ser (pubkey_of (controller_secret plan)) in
      let? record_script :=
        ok_or (sequentia_delegation_script controller (current_signer plan)) DelegationPanic in
      let? destination := delegation_destination plan controller in
      let input := mkTxIn (mkOutPoint (record_txid plan) (record_vout plan)) false []
                     (mkSequence 0xfffffffd) AssetIssuance_null TxInWitness_empty in
      let outputs := [mkTxOut (AssetExplicit (plan_asset plan)) (ValueExplicit out_value) NonceNull
                        destination TxOutWitness_empty;
                      new_fee (fee_atoms plan) (plan_asset plan)] in
      let tx := mkTransaction 2 (LockTime_from_consensus (locktime plan)) [input] outputs in
      let? sighash := ok_or (legacy_sighash tx 0 record_script SighashAll) DelegationPanic in
      let der := sign_der (controller_secret plan) sighash ++ [Byte.x01] in
      let? b := ok_or (push_slice der Builder_new) DelegationPanic in
      let tx := mkTransaction (version tx) (lock_time tx)
                  [set_script_sig input (into_script b)] (output tx) in
      Ok (serialize tx, sha256d (encode_base tx)).

(** [delegation_pubkey_from_hex] on text already trimmed. *)
Definition delegation_pubkey_from_hex (hex : bytes) (what : string) : result bytes delegation_error :=
  match from_hex hex with
  | Err _ => Err (InvalidPubkeyHex what)
  | Ok bytes =>
      if negb (length bytes =? 33)%nat ||
         match bytes with
         | b0 :: _ => negb (b2z b0 =? 0x02) && negb (b2z b0 =? 0x03)
         | [] => true
         end
      then Err (NotCompressed what)
      else let? _ := ok_or (const tt <$> @ext_parse PublicKey bytes) (InvalidDelegationPubkey what) in
           Ok bytes
  end.

(** [instructions.next()?.ok()?]: the next instruction and the rest. *)
Definition next_ok (l : list (result Instruction script_error))
  : option (Instruction * list (result Instruction script_error)) :=
  match l with
  | Ok i :: l => Some (i, l)
  | _ => None
  end.

Definition parse_delegation_script (script : Script) : option (bytes * bytes) :=
  '(i, is1) ← next_ok (instructions script);
  marker ← instr_push_bytes i;
  if negb (bool_decide (marker = DELEGATION_MARKER)) then None else
  '(i, is2) ← next_ok is1;
  if bool_decide (is_Some (instr_push_bytes i)) then None else
  '(i, is3) ← next_ok is2;
  signer ← instr_push_bytes i;
  '(i, is4) ← next_ok is3;
  if bool_decide (is_Some (instr_push_bytes i)) then None else
  '(i, is5) ← next_ok is4;
  controller ← instr_push_bytes i;
  '(_, is6) ← next_ok is5;
  match is6 with
  | _ :: _ => None
  | [] => if negb (length signer =? 33)%nat || negb (length controller =? 33)%nat then None
          else Some (controller, signer)
  end.

Definition p2wpkh_script_pubkey (compressed_pubkey : bytes) : option Script :=
  b ← push_int 0 Builder_new;
  b ← push_slice (hash160 compressed_pubkey) b;
  Some (into_script b).

(** ** Lemmas *)

Definition delegation_items (controller signer : bytes) : list Instruction :=
  [PushBytes DELEGATION_MARKER; Op OP_DROP; PushBytes signer; Op OP_DROP; PushBytes controller;
   Op OP_CHECKSIG].

Lemma delegation_script_bytes controller signer :
  Z.of_nat (length controller) < 2 ^ 32 -> Z.of_nat (length signer) < 2 ^ 32 ->
  sequentia_delegation_script controller signer = Some (items_bytes (delegation_items controller signer)).
Proof.
  intros Hc Hs. unfold sequentia_delegation_script.
  destruct (push_slice_script DELEGATION_MARKER Builder_new ltac:(simpl; lia)) as (b1 & -> & E1).
  cbn [mbind option_bind].
  destruct (push_slice_script signer (push_opcode OP_DROP b1) Hs) as (b2 & -> & E2).
  cbn [mbind option_bind].
  destruct (push_slice_script controller (push_opcode OP_DROP b2) Hc) as (b3 & -> & E3).
  cbn [mbind option_bind]. f_equal. unfold into_script, push_opcode in *. cbn [b_script] in *.
  rewrite E3, E2, E1. unfold items_bytes, delegation_items. cbn [map concat item_bytes].
  by rewrite <-!app_assoc.
Qed.

Lemma delegation_items_ok controller signer :
  Z.of_nat (length controller) < 2 ^ 32 -> Z.of_nat (length signer) < 2 ^ 32 ->
  Forall item_ok (delegation_items controller signer) /\
  Forall item_short (delegation_items controller signer).
Proof. intros Hc Hs. split; forall_list ltac:(first [done|cbn [item_short]; lia]). Qed.

Lemma parse_delegation_bytes controller signer :
  length controller = 33%nat -> length signer = 33%nat ->
  parse_delegation_script (items_bytes (delegation_items controller signer)) = Some (controller, signer).
Proof.
  intros Hc Hs. unfold parse_delegation_script.
  destruct (delegation_items_ok controller signer ltac:(lia) ltac:(lia)) as [Hok Hsh].
  rewrite instructions_bytes by done. simpl.
  by rewrite Hc, Hs.
Qed.

(** Only the controller can spend a record: the script checks one signature. *)
Lemma eval_delegation checksig cltv controller signer st :
  Z.of_nat (length controller) < 2 ^ 32 -> Z.of_nat (length signer) < 2 ^ 32 ->
  eval_script checksig sha256 cltv (items_bytes (delegation_items controller signer)) st =
  match st with sig :: _ => checksig sig controller | [] => false end.
Proof.
  intros Hc Hs. destruct (delegation_items_ok controller signer Hc Hs) as [Hok Hsh].
  unfold eval_script, eval_items. rewrite instructions_bytes, mapM_map_Ok by done.
  destruct st as [|sig st]; [done|]. simpl. by destruct (checksig sig controller).
Qed.

Definition plan_wf (plan : DelegationSpendPlan) : Prop :=
  length (record_txid plan) = 32%nat /\ vout_ok (record_vout plan) false false /\
  is_u64 (record_value plan) /\ length (plan_asset plan) = 32%nat /\
  length (current_signer plan) = 33%nat /\
  match rotate_to plan with Some s => length s = 33%nat | None => True end /\
  vec_u8_wf (reclaim_spk plan) /\ 0 <= fee_atoms plan /\ is_u32 (locktime plan).

(** The transaction that is built. *)
Definition delegation_tx (plan : DelegationSpendPlan) (destination script_sig : Script) : Transaction :=
  mkTransaction 2 (LockTime_from_consensus (locktime plan))
    [mkTxIn (mkOutPoint (record_txid plan) (record_vout plan)) false script_sig
       (mkSequence 0xfffffffd) AssetIssuance_null TxInWitness_empty]
    [mkTxOut (AssetExplicit (plan_asset plan)) (ValueExplicit (record_value plan - fee_atoms plan))
       NonceNull destination TxOutWitness_empty;
     new_fee (fee_atoms plan) (plan_asset plan)].

Lemma delegation_tx_wf plan destination script_sig :
  plan_wf plan -> fee_atoms plan < record_value plan -> vec_u8_wf destination ->
  vec_u8_wf script_sig -> Transaction_wf (delegation_tx plan destination script_sig).
Proof.
  intros (Ht & Hv & Hval & Ha & _ & _ & _ & Hf & Hl) Hlt Hd Hs.
  pose proof max_vec_size_usize. pose proof size_of_TxIn_small. pose proof size_of_TxOut_small.
  pose proof size_of_TxIn_pos. pose proof size_of_TxOut_pos. pose proof max_vec_size_large.
  split; [done|]. split; [by apply LockTime_from_consensus_wf|].
  split; (split; [|cbn [delegation_tx input output length]; lia]).
  - apply List.Forall_cons; [|apply List.Forall_nil]. split; [|apply TxInWitness_empty_wf].
    by repeat (split; [done|]).
  - apply List.Forall_cons; [|apply List.Forall_cons; [|apply List.Forall_nil]]; (split; [|done]).
    + apply explicit_out_wf; [done|lia|done].
    + apply explicit_out_wf; [done|lia|unfold vec_u8_wf; simpl; lia].
Qed.

Definition plan_controller (plan : DelegationSpendPlan) : bytes :=
  ext_ser (pubkey_of (controller_secret plan)).

Lemma plan_controller_length plan : length (plan_controller plan) = 33%nat.
Proof. apply pubkey_format. Qed.

Lemma plan_lengths plan :
  plan_wf plan -> length (plan_controller plan) = 33%nat /\ length (current_signer plan) = 33%nat.
Proof. intros Hwf. split; [apply plan_controller_length|apply Hwf]. Qed.

(** The destinations a plan can have. *)
Definition destination_ok (plan : DelegationSpendPlan) (d : Script) : Prop :=
  match rotate_to plan with
  | Some s => s <> current_signer plan /\ s <> plan_controller plan /\
              d = items_bytes (delegation_items (plan_controller plan) s)
  | None => d = reclaim_spk plan
  end.

Lemma delegation_destination_ok plan d :
  plan_wf plan ->
  delegation_destination plan (plan_controller plan) = Ok d <-> destination_ok plan d.
Proof.
  intros (_ & _ & _ & _ & _ & Hr & _). unfold delegation_destination, destination_ok.
  pose proof (plan_controller_length plan).
  destruct (rotate_to plan) as [s|]; [|split; [by intros [= ->]|by intros ->]].
  case_bool_decide; [split; naive_solver|]. case_bool_decide; [split; naive_solver|].
  rewrite delegation_script_bytes by lia. simpl. split; [by intros [= <-]|by intros (_ & _ & ->)].
Qed.

Lemma destination_wf plan d : plan_wf plan -> destination_ok plan d -> vec_u8_wf d.
Proof.
  intros (_ & _ & _ & _ & _ & Hr & Hs & _). unfold destination_ok.
  destruct (rotate_to plan) as [s|]; [|by intros ->]. intros (_ & _ & ->).
  pose proof (plan_controller_length plan) as Hc. pose proof max_vec_size_large. unfold vec_u8_wf.
  pose proof (items_bytes_length (delegation_items (plan_controller plan) s)) as Hl.
  enough (list_sum (map item_size (delegation_items (plan_controller plan) s)) <= 200)%nat by lia.
  simpl. rewrite Hc, Hr. lia.
Qed.

(** The signature over a built transaction; signature scripts are not signed. *)
Definition delegation_signature (plan : DelegationSpendPlan) (tx : Transaction) : option bytes :=
  sighash ← legacy_sighash tx 0
              (items_bytes (delegation_items (plan_controller plan) (current_signer plan))) SighashAll;
  Some (sign_der (controller_secret plan) sighash ++ [Byte.x01]).

Lemma delegation_signature_some plan d s :
  exists sig, delegation_signature plan (delegation_tx plan d s) = Some sig /\
    delegation_signature plan (delegation_tx plan d []) = Some sig /\ (9 <= length sig <= 73)%nat.
Proof.
  unfold delegation_signature, legacy_sighash, legacy_signing_data. simpl.
  eexists. split; [done|]. split; [done|]. rewrite length_app. simpl.
  match goal with |- context [sign_der ?k ?m] => pose proof (sign_der_length k m) end. lia.
Qed.

Lemma build_delegation_spend plan d :
  plan_wf plan -> fee_atoms plan < record_value plan ->
  dust_floor plan <= record_value plan - fee_atoms plan -> destination_ok plan d ->
  exists sig script_sig,
    delegation_signature plan (delegation_tx plan d script_sig) = Some sig /\
    script_sig = items_bytes [PushBytes sig] /\ (9 <= length sig <= 73)%nat /\
    build_delegation_spend_tx plan =
      Ok (serialize (delegation_tx plan d script_sig),
          sha256d (encode_base (delegation_tx plan d script_sig))).
Proof.
  intros Hwf Hlt Hdust Hd.
  destruct (delegation_signature_some plan d []) as (sig & Es & _ & Hsl).
  exists sig, (items_bytes [PushBytes sig]). do 3 (split; [done|]).
  unfold build_delegation_spend_tx.
  destruct (Z.leb_spec (record_value plan) (fee_atoms plan)); [lia|].
  destruct (Z.ltb_spec (record_value plan - fee_atoms plan) (dust_floor plan)); [lia|].
  fold (plan_controller plan). pose proof (plan_controller_length plan) as Hc.
  assert (Hcs : length (current_signer plan) = 33%nat) by apply Hwf.
  rewrite delegation_script_bytes by lia. cbn [ok_or rbind].
  rewrite (proj2 (delegation_destination_ok plan d Hwf) Hd). cbn [rbind].
  unfold delegation_signature in Es. apply bind_Some in Es as (sh & Esh & [= <-]).
  unfold delegation_tx in Esh. rewrite Esh. cbn [ok_or rbind].
  destruct (push_slice_script (sign_der (controller_secret plan) sh ++ [Byte.x01]) Builder_new
    ltac:(lia)) as (b & -> & Eb). cbn [ok_or rbind]. unfold into_script. rewrite Eb.
  unfold items_bytes. cbn [map concat Builder_new b_script app]. by rewrite app_nil_r.
Qed.

Lemma destination_exists plan :
  match rotate_to plan with
  | Some s => s <> current_signer plan /\ s <> plan_controller plan
  | None => True
  end <-> exists d, destination_ok plan d.
Proof. unfold destination_ok. destruct (rotate_to plan); naive_solver. Qed.

(** When the builder succeeds. *)
Lemma build_delegation_ok_iff plan :
  plan_wf plan ->
  is_ok (build_delegation_spend_tx plan) = true <->
  fee_atoms plan < record_value plan /\ dust_floor plan <= record_value plan - fee_atoms plan /\
  match rotate_to plan with
  | Some s => s <> current_signer plan /\ s <> plan_controller plan
  | None => True
  end.
Proof.
  intros Hwf. rewrite destination_exists. split.
  - unfold build_delegation_spend_tx.
    destruct (Z.leb_spec (record_value plan) (fee_atoms plan)); [done|].
    destruct (Z.ltb_spec (record_value plan - fee_atoms plan) (dust_floor plan)); [done|].
    fold (plan_controller plan). destruct (plan_lengths plan Hwf).
    rewrite delegation_script_bytes by lia.
    cbn [ok_or rbind].
    destruct (delegation_destination plan (plan_controller plan)) as [d|e] eqn:Ed; [|done].
    intros _. split; [done|]. split; [done|]. exists d. by apply delegation_destination_ok.
  - intros (Hlt & Hdust & d & Hd).
    destruct (build_delegation_spend plan d Hwf Hlt Hdust Hd) as (? & ? & _ & _ & _ & ->). done.
Qed.
End Delegation.

(** ** Claims *)

(** Building and parsing a delegation record: the script built for a
    controller and a signer parses back to that pair, and two records with the
    same script name the same controller and signer. *)
Theorem delegation_parse_build `{Platform} `{Secp} `{Hashes} `{HtlcEnv} `{!KeyEnv}
    (controller signer : bytes) :
  length controller = 33%nat -> length signer = 33%nat ->
  exists s, sequentia_delegation_script controller signer = Some s /\
    parse_delegation_script s = Some (controller, signer) /\
    forall c' g', length c' = 33%nat -> length g' = 33%nat ->
      sequentia_delegation_script c' g' = Some s -> c' = controller /\ g' = signer.
Proof.
  intros Hc Hs. exists (items_bytes (delegation_items controller signer)).
  split; [apply delegation_script_bytes; lia|]. split; [by apply parse_delegation_bytes|].
  intros c' g' Hc' Hg' Eb. rewrite delegation_script_bytes in Eb by lia. apply (inj Some) in Eb.
  pose proof (parse_delegation_bytes c' g' Hc' Hg') as Ep. rewrite Eb in Ep.
  rewrite parse_delegation_bytes in Ep by done. by injection Ep as <- <-.
Qed.

(** Spending a record.  [build_delegation_spend_tx] succeeds exactly when the
    record's value exceeds the fee, what is left clears the dust floor and a new
    signer differs from the current one and from the controller.  The bytes it
    returns parse to a replaceable transaction that spends the record into one
    output of value less fee (the reclaim script, or a record naming the same
    controller and the new signer) and the fee output; the returned id is its
    txid; and its signature script satisfies the record's script exactly when the
    signature over this transaction is valid for the controller's key. *)
Theorem delegation_spend_correct `{Platform} `{Secp} `{Hashes} `{HtlcEnv} `{!KeyEnv}
    (plan : DelegationSpendPlan) :
  plan_wf plan ->
  (is_ok (build_delegation_spend_tx plan) = true <->
   fee_atoms plan < record_value plan /\ dust_floor plan <= record_value plan - fee_atoms plan /\
   match rotate_to plan with
   | Some s => s <> current_signer plan /\ s <> plan_controller plan
   | None => True
   end) /\
  forall raw id, build_delegation_spend_tx plan = Ok (raw, id) ->
  exists d script_sig sig st,
    deserialize raw = Ok (delegation_tx plan d script_sig) /\
    id = sha256d (encode_base (delegation_tx plan d script_sig)) /\
    match rotate_to plan with
    | Some s => parse_delegation_script d = Some (plan_controller plan, s)
    | None => d = reclaim_spk plan
    end /\
    delegation_signature plan (delegation_tx plan d script_sig) = Some sig /\
    push_only (instructions script_sig) [] = Some st /\
    forall checksig cltv record,
      sequentia_delegation_script (plan_controller plan) (current_signer plan) = Some record ->
      eval_script checksig sha256 cltv record st = checksig sig (plan_controller plan).
Proof.
  intros Hwf. rewrite build_delegation_ok_iff by done. split; [done|].
  intros raw id Ek.
  destruct (proj1 (build_delegation_ok_iff plan Hwf)) as (Hlt & Hdust & Hcond); [by rewrite Ek|].
  apply destination_exists in Hcond as [d Ed].
  destruct (build_delegation_spend plan d Hwf Hlt Hdust Ed) as (sig & ss & Esig & Ess & Hsl & Eb).
  rewrite Eb in Ek. injection Ek as <- <-. exists d, ss, sig, [sig].
  assert (Hsv : vec_u8_wf ss).
  { subst ss. unfold vec_u8_wf. pose proof max_vec_size_large.
    pose proof (items_bytes_length [PushBytes sig]) as Hl. simpl in Hl. simpl. lia. }
  pose proof (destination_wf plan d Hwf Ed) as Hdv.
  split; [apply deserialize_ok; split; [by apply delegation_tx_wf|done]|].
  split; [done|]. split.
  { unfold destination_ok in Ed. destruct Hwf as (_&_&_&_&_&Hr&_). destruct (rotate_to plan); [|done].
    destruct Ed as (_ & _ & ->). apply parse_delegation_bytes; [apply plan_controller_length|done]. }
  split; [done|]. split.
  { rewrite Ess, instructions_bytes; [done|by repeat constructor|].
    forall_list ltac:(cbn [item_short]; lia). }
  intros checksig cltv record. destruct (plan_lengths plan Hwf).
  rewrite delegation_script_bytes by lia. intros [= <-]. apply eval_delegation; lia.
Qed.

Module DelegationSample.
Export HtlcSample.

Program Definition KeyEnv_model : KeyEnv :=
  {| pubkey_of k := exist _ (Byte.x02 :: le_bytes 32 k) eq_refl;
     hash160 l := le_bytes 20 (le_val l) |}.
Next Obligation. done. Qed.
#[export] Existing Instance KeyEnv_model.

Definition sample_plan : DelegationSpendPlan :=
  mkPlan (hash Byte.x0a) 3 10000 (hash Byte.x0b) (pubkey Byte.x33) sample_key
    (Some (pubkey Byte.x44)) [] 500 330 800000.

Lemma sample_plan_wf : plan_wf sample_plan.
Proof.
  split; [done|]. split; [right; split; [done|by intros (? & ? & ?)]|].
  by repeat (split; [done|]).
Defined.

(** A script that is not a delegation record: it ends in [OP_SIZE]. *)
Definition not_a_record : Script :=
  items_bytes [PushBytes DELEGATION_MARKER; Op OP_DROP; PushBytes (pubkey Byte.x33); Op OP_DROP;
               PushBytes (pubkey Byte.x44); Op OP_SIZE].
End DelegationSample.
Import DelegationSample.

(** [parse_delegation_script] is documented as the exact inverse of the
    builder, but it is not: it does not look at which opcodes separate the pushes,
    so it also accepts scripts the builder never produces, such as one that ends in
    [OP_SIZE] and that anyone can spend, no signature being valid. *)
Theorem parse_delegation_not_exact :
  exists s c g, parse_delegation_script s = Some (c, g) /\
    sequentia_delegation_script c g <> Some s /\
    eval_script (fun _ _ => false) sha256 (fun _ => false) s [] = true.
Proof.
  exists not_a_record, (pubkey Byte.x44), (pubkey Byte.x33).
  split; [vm_compute; reflexivity|]. split; [vm_compute; discriminate|vm_compute; reflexivity].
Qed.

Lemma delegation_parse_build_witness :
  exists s, sequentia_delegation_script (pubkey Byte.x44) (pubkey Byte.x33) = Some s /\
    parse_delegation_script s = Some (pubkey Byte.x44, pubkey Byte.x33).
Proof.
  destruct (delegation_parse_build (pubkey Byte.x44) (pubkey Byte.x33) eq_refl eq_refl)
    as (s & H1 & H2 & _). exists s. split; [exact H1|exact H2].
Defined.

Lemma delegation_spend_correct_witness : is_ok (build_delegation_spend_tx sample_plan) = true.
Proof.
  apply (proj1 (delegation_spend_correct sample_plan sample_plan_wf)).
  split; [simpl; lia|]. split; [simpl; lia|]. split; vm_compute; discriminate.
Defined.
