(* ===== verification/TxBuilder.v ===== *)
(** * The transaction builder

    [lwk_wollet/src/tx_builder.rs] and [pset_create.rs]: recipients, stake and delegation
    outputs, issuances and reissuances, coin selection over several assets, change, the fee in
    the policy asset or, on Sequentia, in any other asset, blinding and the details of the
    wallet.  The LiquiDEX builders are in [Liquidex] and [LiquidexTake].

    What the builder takes from elsewhere is a parameter ([BuilderEnv]): addresses of the
    descriptor, contracts, blinding and its proofs, the order in which hash tables are
    iterated.  Sums of amounts wrap as [u64] additions do in release builds. *)

From Stdlib Require Import SpecFloat.
From S2P Require Import Prelude Order Float Encode Script Timelocks Confidential Transaction TxMetrics Sighash Merkle Taproot TapSighash Store Block Update Cache Address Network Wollet Views Delegation Pset PsetValue PsetCodec PsetMeta.

(** ** Errors, requests and parameters *)

Inductive build_error :=
| WolletErr (e : wollet_error)
| PsetFailed (e : pset_error)
| TooManyInputs (n : nat)
| NotConfidentialInput
| NotExplicitAddress
| NotConfidentialAddress
| MissingWalletUtxo (o : OutPoint)
| MissingVin
| MissingVout
| MissingIssuance
| IssuanceAlreadySet
| InvalidAmount
| InvalidAsset
| InvalidAddressText
| InsufficientFunds (missing_sats : Z) (asset_id : AssetId) (is_token : bool)
| ContractError
| ProofError
| BlindError
| ZeroFeeRate
| FeeOverflow
| ChangeTooSmall
| BuildPanic.

Definition wollet_ok {A} (r : result A wollet_error) : result A build_error :=
  match r with Ok a => Ok a | Err e => Err (WolletErr e) end.
Definition pset_ok {A} (r : result A pset_error) : result A build_error :=
  match r with Ok a => Ok a | Err e => Err (PsetFailed e) end.

Definition SECP256K1_SURJECTIONPROOF_MAX_N_INPUTS : nat := 256.

(** [elements26::CtLocation] is an index and a type; for the outputs the type is [LocInput]. *)
Inductive CtLocationType := LocInput | LocIssuance | LocToken.

Section data.
Context {P : Platform} {S : Secp} {H : Hashes} {M : Midstates} {T : TapEnv} {C : SchnorrEnv}
  {E : PsetEnv} {WE : WolletEnv}.

Class BuilderEnv :=
  { Contract : Type;
    contract_hash : Contract -> option bytes;
    contract_json : Contract -> option bytes;
    (** the descriptor: scripts without keys, wildcard, AMP0, addresses *)
    spk_count : bool;
    has_wildcard : bool;
    amp0_address : option (Z -> result Address wollet_error);
    address_at : Chain -> Z -> result Address wollet_error;
    is_segwit : bool;
    max_weight_to_satisfy : Z;
    (** texts of addresses and assets *)
    parse_with_params : string -> AddressParams -> option Address;
    address_text : Address -> string;
    parse_asset : string -> option AssetId;
    asset_text : AssetId -> string;
    (** proofs and blinding *)
    blind_asset_proof : AssetId -> Tweak -> option SurjectionProof;
    blind_value_proof : Z -> PedersenCommitment -> Generator -> Tweak -> option RangeProof;
    blind_last : PartiallySignedTransaction -> gmap nat TxOutSecrets ->
                 option PartiallySignedTransaction;
    SecretKey : Type;
    shared_secret_text : SecretKey -> PublicKey -> string;
    blind_last26 : PartiallySignedTransaction -> gmap nat TxOutSecrets ->
                   option (PartiallySignedTransaction * list (nat * CtLocationType * (Tweak * Tweak * SecretKey)));
    (** a PSET written by one version of rust-elements and read by the other *)
    read26 : PartiallySignedTransaction -> option PartiallySignedTransaction;
    read25 : PartiallySignedTransaction -> option PartiallySignedTransaction;
    (** what elements-miniscript adds for a script of the wallet *)
    describe_input : Chain * Z -> PsetInput -> result PsetInput wollet_error;
    describe_output : Chain * Z -> PsetOutput -> result PsetOutput wollet_error;
    key_origins : list (Xpub * KeySource);
    (** iteration orders of hash tables *)
    asset_iter : gset AssetId -> list AssetId;
    utxo_iter : gmap OutPoint WalletTxOut -> list WalletTxOut;
    secret_iter : gmap nat TxOutSecrets -> list (nat * TxOutSecrets);
    asset_iter_perm s : asset_iter s ≡ₚ elements s;
    utxo_iter_perm m : utxo_iter m ≡ₚ (map_to_list m).*2;
    secret_iter_perm m : secret_iter m ≡ₚ map_to_list m }.
End data.

Section builder.
Context {P : Platform} {S : Secp} {H : Hashes} {M : Midstates} {T : TapEnv} {C : SchnorrEnv}
  {E : PsetEnv} {J : JsonStrings} {WE : WolletEnv} {B : BuilderEnv}.
Context {W : Type} (txs_store : Store W).

Inductive IssuanceRequest :=
| IssuanceNone
| RequestIssuance (asset_sats : Z) (asset_receiver : option Address)
    (token_sats : Z) (token_receiver : option Address) (contract : option Contract)
| RequestReissuance (asset : AssetId) (sats : Z) (receiver : option Address)
    (issuance_tx : option Transaction).

Record TxBuilder := mkTxBuilder
  { tb_network : Network;
    recipients : list Recipient;
    tb_fee_rate : f32;
    ct_discount : bool;
    issuance_request : IssuanceRequest;
    drain_lbtc : bool;
    drain_to : option Address;
    external_utxos : list ExternalUtxo;
    selected_utxos : option (list OutPoint);
    tb_add_input_rangeproofs : bool;
    tb_fee_asset : option (AssetId * Z);
    tb_enable_rbf : bool;
    tb_avoid_utxos : list OutPoint }.

Definition TxBuilder_new (network : Network) : TxBuilder :=
  mkTxBuilder network [] (f32_of_Z 100) true IssuanceNone false None [] None true None true [].

(** ** Requests *)

(** [Recipient::from_address]; a payload that is not a script panics. *)
Definition from_address (satoshi : Z) (a : Address) (asset : AssetId) : result Recipient build_error :=
  let? script := ok_or (address_script_pubkey a) BuildPanic in
  Ok (mkRecipient satoshi script (blinding_pubkey a) asset).

Definition validate_address (address : string) (network : Network) : result Address build_error :=
  let? a := ok_or (parse_with_params address (network_address_params network)) InvalidAddressText in
  if is_blinded a then Ok a else Err NotConfidentialAddress.

Record UnvalidatedRecipient := mkUnvalidated { ur_satoshi : Z; ur_address : string; ur_asset : string }.

Definition validate_asset (r : UnvalidatedRecipient) (network : Network) : result AssetId build_error :=
  if String.eqb (ur_asset r) "" then Ok (network_policy_asset network)
  else ok_or (parse_asset (ur_asset r)) InvalidAsset.

Definition validate (r : UnvalidatedRecipient) (network : Network) : result Recipient build_error :=
  if ur_satoshi r =? 0 then Err InvalidAmount
  else
    let? asset := validate_asset r network in
    if String.eqb (ur_address r) "burn"
    then Ok (mkRecipient (ur_satoshi r) burn_script None asset)
    else
      let? a := validate_address (ur_address r) network in
      from_address (ur_satoshi r) a asset.

(** The builder with its recipients, or its issuance request, replaced. *)
Definition with_recipients (b : TxBuilder) (l : list Recipient) : TxBuilder :=
  mkTxBuilder (tb_network b) l (tb_fee_rate b) (ct_discount b) (issuance_request b) (drain_lbtc b)
    (drain_to b) (external_utxos b) (selected_utxos b) (tb_add_input_rangeproofs b) (tb_fee_asset b)
    (tb_enable_rbf b) (tb_avoid_utxos b).
Definition with_request (b : TxBuilder) (r : IssuanceRequest) : TxBuilder :=
  mkTxBuilder (tb_network b) (recipients b) (tb_fee_rate b) (ct_discount b) r (drain_lbtc b)
    (drain_to b) (external_utxos b) (selected_utxos b) (tb_add_input_rangeproofs b) (tb_fee_asset b)
    (tb_enable_rbf b) (tb_avoid_utxos b).

Definition add_validated_recipient (b : TxBuilder) (r : Recipient) : TxBuilder :=
  with_recipients b (recipients b ++ [r]).

Definition add_unvalidated_recipient (b : TxBuilder) (r : UnvalidatedRecipient)
  : result TxBuilder build_error :=
  let? r := validate r (tb_network b) in Ok (add_validated_recipient b r).

Definition add_recipient (b : TxBuilder) (address : Address) (satoshi : Z) (asset_id : AssetId)
  : result TxBuilder build_error :=
  add_unvalidated_recipient b (mkUnvalidated satoshi (address_text address) (asset_text asset_id)).
Definition add_lbtc_recipient (b : TxBuilder) (address : Address) (satoshi : Z) : result TxBuilder build_error :=
  add_unvalidated_recipient b (mkUnvalidated satoshi (address_text address) "").
Definition add_burn (b : TxBuilder) (satoshi : Z) (asset_id : AssetId) : result TxBuilder build_error :=
  add_unvalidated_recipient b (mkUnvalidated satoshi "burn" (asset_text asset_id)).

Fixpoint set_unvalidated_recipients_from (b : TxBuilder) (l : list UnvalidatedRecipient)
  : result TxBuilder build_error :=
  match l with
  | [] => Ok b
  | r :: l => let? b := add_unvalidated_recipient b r in set_unvalidated_recipients_from b l
  end.
Definition set_unvalidated_recipients (b : TxBuilder) (l : list UnvalidatedRecipient)
  : result TxBuilder build_error :=
  set_unvalidated_recipients_from (with_recipients b []) l.

Definition add_explicit_recipient (b : TxBuilder) (address : Address) (satoshi : Z) (asset : AssetId)
  : result TxBuilder build_error :=
  if is_blinded address then Err NotExplicitAddress
  else
    let? script := ok_or (address_script_pubkey address) BuildPanic in
    Ok (add_validated_recipient b (mkRecipient satoshi script None asset)).

(** [sequentia_stake_script]; [None]: the panic of an oversized push. *)
Definition sequentia_stake_script (staker_pubkey : bytes) (csv : Z) : option Script :=
  b ← push_int csv Builder_new;
  let b := push_opcode OP_DROP (push_opcode OP_CSV b) in
  b ← push_slice staker_pubkey b;
  Some (into_script (push_opcode OP_CHECKSIG b)).

Definition add_stake_output (b : TxBuilder) (staker_pubkey : bytes) (csv satoshi : Z)
  : result TxBuilder build_error :=
  let? script := ok_or (sequentia_stake_script staker_pubkey csv) BuildPanic in
  Ok (add_validated_recipient b (mkRecipient satoshi script None (network_policy_asset (tb_network b)))).

Definition add_delegation_output (b : TxBuilder) (controller_pubkey signer_pubkey : bytes) (satoshi : Z)
  : result TxBuilder build_error :=
  let? script := ok_or (sequentia_delegation_script controller_pubkey signer_pubkey) BuildPanic in
  Ok (add_validated_recipient b (mkRecipient satoshi script None (network_policy_asset (tb_network b)))).

(** Receivers of issuances must be confidential addresses of the network. *)
Definition check_receiver (a : option Address) (network : Network)
  : result () build_error :=
  match a with
  | Some a => let? _ := validate_address (address_text a) network in Ok ()
  | None => Ok ()
  end.

Definition issue_asset (b : TxBuilder) (asset_sats : Z)
    (asset_receiver : option Address) (token_sats : Z) (token_receiver : option Address)
    (contract : option Contract) : result TxBuilder build_error :=
  match issuance_request b with
  | IssuanceNone =>
      let? _ := check_receiver asset_receiver (tb_network b) in
      let? _ := check_receiver token_receiver (tb_network b) in
      if (asset_sats =? 0) && (token_sats =? 0) then Err InvalidAmount
      else Ok (with_request b (RequestIssuance asset_sats asset_receiver token_sats token_receiver contract))
  | _ => Err IssuanceAlreadySet
  end.

Definition reissue_asset (b : TxBuilder) (asset_to_reissue : AssetId)
    (satoshi_to_reissue : Z) (asset_receiver : option Address) (issuance_tx : option Transaction)
  : result TxBuilder build_error :=
  match issuance_request b with
  | IssuanceNone =>
      let? _ := check_receiver asset_receiver (tb_network b) in
      if satoshi_to_reissue =? 0 then Err InvalidAmount
      else Ok (with_request b (RequestReissuance asset_to_reissue satoshi_to_reissue asset_receiver issuance_tx))
  | _ => Err IssuanceAlreadySet
  end.

(** ** Options *)

Definition fee_rate (b : TxBuilder) (rate : option f32) : TxBuilder :=
  mkTxBuilder (tb_network b) (recipients b) (default (tb_fee_rate b) rate) (ct_discount b) (issuance_request b) (drain_lbtc b)
    (drain_to b) (external_utxos b) (selected_utxos b) (tb_add_input_rangeproofs b)
    (tb_fee_asset b) (tb_enable_rbf b) (tb_avoid_utxos b).
Definition fee_asset (b : TxBuilder) (asset : AssetId) (rate : Z) : TxBuilder :=
  mkTxBuilder (tb_network b) (recipients b) (tb_fee_rate b) (ct_discount b) (issuance_request b) (drain_lbtc b)
    (drain_to b) (external_utxos b) (selected_utxos b) (tb_add_input_rangeproofs b)
    (Some (asset, rate)) (tb_enable_rbf b) (tb_avoid_utxos b).
Definition avoid_utxos (b : TxBuilder) (outpoints : list OutPoint) : TxBuilder :=
  mkTxBuilder (tb_network b) (recipients b) (tb_fee_rate b) (ct_discount b) (issuance_request b) (drain_lbtc b)
    (drain_to b) (external_utxos b) (selected_utxos b) (tb_add_input_rangeproofs b)
    (tb_fee_asset b) (tb_enable_rbf b) outpoints.
Definition enable_rbf (b : TxBuilder) (enabled : bool) : TxBuilder :=
  mkTxBuilder (tb_network b) (recipients b) (tb_fee_rate b) (ct_discount b) (issuance_request b) (drain_lbtc b)
    (drain_to b) (external_utxos b) (selected_utxos b) (tb_add_input_rangeproofs b)
    (tb_fee_asset b) enabled (tb_avoid_utxos b).
Definition enable_ct_discount (b : TxBuilder) : TxBuilder :=
  mkTxBuilder (tb_network b) (recipients b) (tb_fee_rate b) true (issuance_request b) (drain_lbtc b)
    (drain_to b) (external_utxos b) (selected_utxos b) (tb_add_input_rangeproofs b)
    (tb_fee_asset b) (tb_enable_rbf b) (tb_avoid_utxos b).
Definition disable_ct_discount (b : TxBuilder) : TxBuilder :=
  mkTxBuilder (tb_network b) (recipients b) (tb_fee_rate b) false (issuance_request b) (drain_lbtc b)
    (drain_to b) (external_utxos b) (selected_utxos b) (tb_add_input_rangeproofs b)
    (tb_fee_asset b) (tb_enable_rbf b) (tb_avoid_utxos b).
Definition add_input_rangeproofs (b : TxBuilder) (add_rangeproofs : bool) : TxBuilder :=
  mkTxBuilder (tb_network b) (recipients b) (tb_fee_rate b) (ct_discount b) (issuance_request b) (drain_lbtc b)
    (drain_to b) (external_utxos b) (selected_utxos b) add_rangeproofs
    (tb_fee_asset b) (tb_enable_rbf b) (tb_avoid_utxos b).
Definition drain_lbtc_wallet (b : TxBuilder) : TxBuilder :=
  mkTxBuilder (tb_network b) (recipients b) (tb_fee_rate b) (ct_discount b) (issuance_request b) true
    (drain_to b) (external_utxos b) (selected_utxos b) (tb_add_input_rangeproofs b)
    (tb_fee_asset b) (tb_enable_rbf b) (tb_avoid_utxos b).
Definition drain_lbtc_to (b : TxBuilder) (address : Address) : TxBuilder :=
  mkTxBuilder (tb_network b) (recipients b) (tb_fee_rate b) (ct_discount b) (issuance_request b) (drain_lbtc b)
    (Some address) (external_utxos b) (selected_utxos b) (tb_add_input_rangeproofs b)
    (tb_fee_asset b) (tb_enable_rbf b) (tb_avoid_utxos b).
Definition add_external_utxos (b : TxBuilder) (utxos : list ExternalUtxo) : TxBuilder :=
  mkTxBuilder (tb_network b) (recipients b) (tb_fee_rate b) (ct_discount b) (issuance_request b) (drain_lbtc b)
    (drain_to b) (external_utxos b ++ utxos) (selected_utxos b) (tb_add_input_rangeproofs b)
    (tb_fee_asset b) (tb_enable_rbf b) (tb_avoid_utxos b).
Definition set_wallet_utxos (b : TxBuilder) (utxos : list OutPoint) : TxBuilder :=
  mkTxBuilder (tb_network b) (recipients b) (tb_fee_rate b) (ct_discount b) (issuance_request b) (drain_lbtc b)
    (drain_to b) (external_utxos b) (Some utxos) (tb_add_input_rangeproofs b)
    (tb_fee_asset b) (tb_enable_rbf b) (tb_avoid_utxos b).

(** ** Inputs and outputs *)

(** The local variables of [finish_inner]. *)
Record Draft := mkDraft
  { d_pset : PartiallySignedTransaction;
    inp_txout_sec : gmap nat TxOutSecrets;
    inp_weight : Z;
    d_last_unused_internal : Z;
    d_last_unused_external : Z }.

Definition with_pset (d : Draft) (p : PartiallySignedTransaction) : Draft :=
  mkDraft p (inp_txout_sec d) (inp_weight d) (d_last_unused_internal d) (d_last_unused_external d).

Definition no_rangeproof (o : TxOut) : TxOut :=
  mkTxOut (asset o) (value o) (nonce o) (script_pubkey o)
    (mkTxOutWitness (surjection_proof (out_witness o)) None).

(** The blind proofs of an input that spends a confidential output. *)
Definition with_proofs (txout : TxOut) (u : TxOutSecrets) (allow_explicit_input : bool) (i : PsetInput)
  : result PsetInput build_error :=
  match Value_commitment (value txout), Asset_commitment (asset txout) with
  | Some value_comm, Some asset_gen =>
      let? ap := ok_or (blind_asset_proof (sec_asset u) (asset_bf u)) ProofError in
      let? vp := ok_or (blind_value_proof (sec_value u) value_comm asset_gen (value_bf u)) ProofError in
      Ok (i <| i_blind_asset_proof := Some ap |> <| i_blind_value_proof := Some vp |>)
  | _, _ => if allow_explicit_input then Ok i else Err NotConfidentialInput
  end.

(** The previous transaction of a pre-segwit input, without the rangeproof of its output. *)
Definition strip_prev (tx : Transaction) (vout : Z) : result Transaction build_error :=
  match output tx !! Z.to_nat vout with
  | Some o => Ok (mkTransaction (version tx) (lock_time tx) (input tx)
                    (<[Z.to_nat vout := no_rangeproof o]> (output tx)))
  | None => Err BuildPanic
  end.

Definition add_input_inner (d : Draft) (outpoint : OutPoint) (txout : TxOut) (tx : option Transaction)
    (u : TxOutSecrets) (max_weight : Z) (allow_explicit_input add_rangeproofs : bool)
  : result (nat * Draft) build_error :=
  let n := length (inputs (d_pset d)) in
  if (SECP256K1_SURJECTIONPROOF_MAX_N_INPUTS <=? n)%nat then Err (TooManyInputs n)
  else
    let i := from_prevout outpoint <| i_asset := Some (sec_asset u) |> <| i_amount := Some (sec_value u) |> in
    let? i := with_proofs txout u allow_explicit_input i in
    let i := if add_rangeproofs then i <| in_utxo_rangeproof := rangeproof (out_witness txout) |> else i in
    let i := i <| witness_utxo := Some (no_rangeproof txout) |> in
    let? i := match tx with
              | Some tx => let? tx := strip_prev tx (vout outpoint) in Ok (i <| non_witness_utxo := Some tx |>)
              | None => Ok i
              end in
    Ok (n, mkDraft (add_input i (d_pset d)) (<[n := u]> (inp_txout_sec d))
             (wrap_u64 (inp_weight d + max_weight)) (d_last_unused_internal d) (d_last_unused_external d)).

Definition add_external_input (rp : bool) (d : Draft) (u : ExternalUtxo) : result (nat * Draft) build_error :=
  add_input_inner d (eu_outpoint u) (eu_txout u) (eu_tx u) (eu_unblinded u) (eu_max_weight u) true rp.

Context (c : Cache) (w : W).

Definition get_tx (t : bytes) : result Transaction build_error :=
  ok_or (cache_tx txs_store w t) (WolletErr MissingTransaction).
Definition get_txout (o : OutPoint) : result TxOut build_error :=
  let? tx := get_tx (txid o) in ok_or (output tx !! Z.to_nat (vout o)) MissingVout.

(** [Wollet::add_input], with the [sequentia] feature: explicit inputs are allowed. *)
Definition wallet_input (rp : bool) (d : Draft) (u : WalletTxOut) : result (nat * Draft) build_error :=
  let? tx := if is_segwit then Ok None
             else let? tx := get_tx (txid (wo_outpoint u)) in Ok (Some tx) in
  let? txout := get_txout (wo_outpoint u) in
  add_input_inner d (wo_outpoint u) txout tx (wo_unblinded u) max_weight_to_satisfy true rp.

(** [Wollet::add_output]. *)
Definition recipient_output (r : Recipient) : PsetOutput :=
  Output_default <| o_script_pubkey := rc_script_pubkey r |> <| o_amount := Some (rc_satoshi r) |>
    <| o_asset := Some (rc_asset r) |>
    <| blinding_key := (fun k => mkBtcPk k true) <$> rc_blinding_pubkey r |>
    <| blinder_index := Some 0 |>.
Definition wallet_output (d : Draft) (r : Recipient) : Draft :=
  with_pset d (add_output (recipient_output r) (d_pset d)).

(** [addressee_inner]: the next address of the wallet, with change explicit unless the wallet
    holds confidential outputs. *)
Definition addressee_index (last_unused : Z) : option Z :=
  if has_wildcard then Some last_unused else if spk_count then Some 0 else None.

Definition addressee_inner (satoshi : Z) (asset : AssetId) (last_unused : Z) (is_change : bool)
  : result (Recipient * Z) build_error :=
  match amp0_address with
  | Some amp0_address =>
      let last_unused := Z.max 1 (Z.min last_unused 20) in
      let? a := wollet_ok (amp0_address last_unused) in
      let? r := from_address satoshi a asset in
      Ok (r, wrap_u32 (last_unused + 1))
  | None =>
      let chain := if is_change then Internal else External in
      let? (a, _) := wollet_ok (inner_address address_at spk_count has_wildcard c chain
                                  (addressee_index last_unused)) in
      let a := if is_change && negb (has_confidential_utxo c) then to_unconfidential a else a in
      let? r := from_address satoshi a asset in
      Ok (r, wrap_u32 (last_unused + 1))
  end.

(** An output to the wallet's change, or to an external address of the wallet. *)
Definition pay_change (satoshi : Z) (asset : AssetId) (d : Draft) : result Draft build_error :=
  let? (r, i) := addressee_inner satoshi asset (d_last_unused_internal d) true in
  Ok (wallet_output (mkDraft (d_pset d) (inp_txout_sec d) (inp_weight d) i (d_last_unused_external d)) r).
Definition pay_external (satoshi : Z) (asset : AssetId) (d : Draft) : result Draft build_error :=
  let? (r, i) := addressee_inner satoshi asset (d_last_unused_external d) false in
  Ok (wallet_output (mkDraft (d_pset d) (inp_txout_sec d) (inp_weight d) (d_last_unused_internal d) i) r).

(** ... or to the given address if there is one. *)
Definition pay_to (receiver : option Address) (satoshi : Z) (asset : AssetId) (d : Draft)
  : result Draft build_error :=
  match receiver with
  | Some a => let? r := from_address satoshi a asset in Ok (wallet_output d r)
  | None => pay_external satoshi asset d
  end.

(** ** Coin selection *)

Definition ext_asset (u : ExternalUtxo) : AssetId := sec_asset (eu_unblinded u).
Definition ext_value (u : ExternalUtxo) : Z := sec_value (eu_unblinded u).
Definition utxo_asset (u : WalletTxOut) : AssetId := sec_asset (wo_unblinded u).
Definition utxo_value (u : WalletTxOut) : Z := sec_value (wo_unblinded u).

(** The recipients of one asset, and what they receive. *)
Fixpoint add_recipients (l : list Recipient) (d : Draft) (satoshi_out : Z) : Draft * Z :=
  match l with
  | [] => (d, satoshi_out)
  | r :: l => add_recipients l (wallet_output d r) (wrap_u64 (satoshi_out + rc_satoshi r))
  end.

(** Add inputs while [go] allows it after each of them; the loops of the builder. *)
Fixpoint spend {U} (add : Draft -> U -> result (nat * Draft) build_error) (value : U -> Z)
    (go : Z -> bool) (l : list U) (d : Draft) (satoshi_in : Z) : result (Draft * Z) build_error :=
  match l with
  | [] => Ok (d, satoshi_in)
  | u :: l =>
      let? (_, d) := add d u in
      let satoshi_in := wrap_u64 (satoshi_in + value u) in
      if go satoshi_in then spend add value go l d satoshi_in else Ok (d, satoshi_in)
  end.
Abbreviation spend_all add value := (spend add value (fun _ => true)).

Definition of_asset {U} (asset_of : U -> AssetId) (a : AssetId) : list U -> list U :=
  List.filter (fun u => bool_decide (asset_of u = a)).

(** The external inputs of an asset, then the chosen ones or as many of the wallet's as needed
    (all of them for the fee asset). *)
Definition add_asset_inputs (b : TxBuilder) (utxos : gmap OutPoint WalletTxOut)
    (chosen : list WalletTxOut) (want_all : bool) (a : AssetId) (satoshi_out : Z) (d : Draft)
  : result (Draft * Z) build_error :=
  let rp := tb_add_input_rangeproofs b in
  let? (d, satoshi_in) :=
    spend_all (add_external_input rp) ext_value (of_asset ext_asset a (external_utxos b)) d 0 in
  match selected_utxos b with
  | Some _ => spend_all (wallet_input rp) utxo_value (of_asset utxo_asset a chosen) d satoshi_in
  | None =>
      if (satoshi_in <? satoshi_out) || want_all then
        spend (wallet_input rp) utxo_value (fun satoshi_in => want_all || (satoshi_in <? satoshi_out))
          (of_asset utxo_asset a (utxo_iter utxos)) d satoshi_in
      else Ok (d, satoshi_in)
  end.

(** One round of the loop over the assets.  The change of the fee asset waits for the fee:
    only what comes in and goes out is recorded. *)
Definition asset_round (b : TxBuilder) (utxos : gmap OutPoint WalletTxOut) (chosen : list WalletTxOut)
    (fee_in_asset : option (AssetId * Z)) (st : Draft * (Z * Z)) (a : AssetId)
  : result (Draft * (Z * Z)) build_error :=
  let '(d, fee_totals) := st in
  let is_fee := match fee_in_asset with Some (fa, _) => bool_decide (fa = a) | None => false end in
  let '(d, satoshi_out) := add_recipients (of_asset rc_asset a (recipients b)) d 0 in
  let? (d, satoshi_in) := add_asset_inputs b utxos chosen is_fee a satoshi_out d in
  if is_fee then Ok (d, (satoshi_in, satoshi_out))
  else
    let? d := if satoshi_out <? satoshi_in
              then pay_change (wrap_u64 (satoshi_in - satoshi_out)) a d else Ok d in
    if satoshi_in <? satoshi_out
    then Err (InsufficientFunds (wrap_u64 (satoshi_out - satoshi_in)) a false)
    else Ok (d, fee_totals).

Fixpoint asset_rounds (b : TxBuilder) utxos chosen fee_in_asset (l : list AssetId) (st : Draft * (Z * Z))
  : result (Draft * (Z * Z)) build_error :=
  match l with
  | [] => Ok st
  | a :: l =>
      let? st := asset_round b utxos chosen fee_in_asset st a in
      asset_rounds b utxos chosen fee_in_asset l st
  end.

(** The policy asset: every external, chosen or available input. *)
Definition policy_inputs (b : TxBuilder) (utxos : gmap OutPoint WalletTxOut) (chosen : list WalletTxOut)
    (a : AssetId) (d : Draft) : result (Draft * Z) build_error :=
  let rp := tb_add_input_rangeproofs b in
  let? (d, satoshi_in) :=
    spend_all (add_external_input rp) ext_value (of_asset ext_asset a (external_utxos b)) d 0 in
  match selected_utxos b with
  | Some _ => spend_all (wallet_input rp) utxo_value (of_asset utxo_asset a chosen) d satoshi_in
  | None =>
      spend_all (wallet_input rp) utxo_value (of_asset utxo_asset a (utxo_iter utxos)) d satoshi_in
  end.

(** ** Issuances *)

Record IssuanceDetails := mkIssuanceDetails
  { is_txid : bytes; is_vin : Z; is_entropy : bytes; is_asset : AssetId; is_token : AssetId;
    is_asset_amount : option Z; is_token_amount : option Z; is_reissuance : bool }.

(** [extract_issuances]; [None]: a panic of the midstate computations. *)
Definition extract_issuance (tx : Transaction) (vin : nat) (i : TxIn) : option IssuanceDetails :=
  let iss := asset_issuance i in
  entropy ← generate_asset_entropy (previous_output i) (asset_entropy iss);
  '(a, t) ← issuance_ids i;
  Some (mkIssuanceDetails (sha256d (encode_base tx)) (wrap_u32 (Z.of_nat vin)) entropy a t
          (Value_explicit (amount iss)) (Value_explicit (inflation_keys iss))
          (negb (bool_decide (asset_blinding_nonce iss = ZERO_TWEAK)))).

Definition extract_issuances (tx : Transaction) : option (list IssuanceDetails) :=
  mapM (fun '(vin, i) => extract_issuance tx vin i)
    (List.filter (fun x : nat * TxIn => has_issuance x.2) (imap pair (input tx))).

(** [Wollet::issuance]. *)
Definition wollet_issuance (a : AssetId) : result IssuanceDetails build_error :=
  let? txs := wollet_ok (transactions_paginated txs_store c w 0 (length (sorted_txids c))) in
  let? l := ok_or (mapM extract_issuances (map wt_tx txs)) BuildPanic in
  ok_or (find (fun i => bool_decide (is_asset i = a) && negb (is_reissuance i)) (concat l)) MissingIssuance.

(** An input of the PSET replaced. *)
Definition update_input (idx : nat) (f : PsetInput -> PsetInput) (p : PartiallySignedTransaction)
  : PartiallySignedTransaction :=
  mkPset (global p) (alter f idx (inputs p)) (outputs p).

Definition set_issuance (idx : nat) (satoshi_asset satoshi_token : Z) (contract : option Contract) (d : Draft)
  : result (AssetId * AssetId * Draft) build_error :=
  let? i := ok_or (inputs (d_pset d) !! idx) MissingVin in
  let i := if 0 <? satoshi_asset then i <| issuance_value_amount := Some satoshi_asset |> else i in
  let i := if 0 <? satoshi_token then i <| issuance_inflation_keys := Some satoshi_token |> else i in
  let? contract_hash := match contract with
                        | Some k => ok_or (contract_hash k) ContractError
                        | None => Ok zero_hash
                        end in
  let i := i <| issuance_asset_entropy := Some contract_hash |> <| blinded_issuance := Some 0 |> in
  let? (a, t) := ok_or (pset_issuance_ids i) BuildPanic in
  let p := update_input idx (fun _ => i) (d_pset d) in
  let? p := match contract with
            | Some k =>
                let? json := ok_or (contract_json k) ContractError in
                let meta := mkAssetMeta json (mkOutPoint (previous_txid i) (previous_output_index i)) in
                Ok (snd (add_token_metadata t (mkTokenMeta a false) (snd (add_asset_metadata a meta p))))
            | None => Ok p
            end in
  Ok (a, t, with_pset d p).

Definition set_reissuance (idx : nat) (satoshi_asset : Z) (token_asset_bf : Tweak) (entropy : bytes) (d : Draft)
  : result Draft build_error :=
  let? i := ok_or (inputs (d_pset d) !! idx) MissingVin in
  Ok (with_pset d (update_input idx (fun i =>
        i <| issuance_value_amount := Some satoshi_asset |>
          <| issuance_blinding_nonce := Some token_asset_bf |>
          <| issuance_asset_entropy := Some entropy |> <| blinded_issuance := Some 0 |>) (d_pset d))).

(** Find the input of a token, or add one of the wallet with an output that returns it. *)
Definition token_input (b : TxBuilder) (utxos : gmap OutPoint WalletTxOut) (token : AssetId) (d : Draft)
  : result (nat * Tweak * Draft) build_error :=
  match find (fun x : nat * TxOutSecrets => bool_decide (sec_asset x.2 = token)) (secret_iter (inp_txout_sec d)) with
  | Some (idx, u) => Ok (idx, asset_bf u, d)
  | None =>
      match of_asset utxo_asset token (utxo_iter utxos) with
      | [] => Err (InsufficientFunds 1 token true)
      | u :: _ =>
          let? (idx, d) := wallet_input (tb_add_input_rangeproofs b) d u in
          let? d := pay_change (utxo_value u) token d in
          Ok (idx, asset_bf (wo_unblinded u), d)
      end
  end.

Definition add_issuance (b : TxBuilder) (utxos : gmap OutPoint WalletTxOut) (d : Draft)
  : result Draft build_error :=
  match issuance_request b with
  | IssuanceNone => Ok d
  | RequestIssuance satoshi_asset address_asset satoshi_token address_token contract =>
      let? (a, t, d) := set_issuance 0 satoshi_asset satoshi_token contract d in
      let? d := if 0 <? satoshi_asset then pay_to address_asset satoshi_asset a d else Ok d in
      if 0 <? satoshi_token then pay_to address_token satoshi_token t d else Ok d
  | RequestReissuance a satoshi_asset address_asset issuance_tx =>
      let? issuance :=
        match issuance_tx with
        | Some tx =>
            let? l := ok_or (extract_issuances tx) BuildPanic in
            ok_or (find (fun i => bool_decide (is_asset i = a)) l) MissingIssuance
        | None => wollet_issuance a
        end in
      let? (idx, token_asset_bf, d) := token_input b utxos (is_token issuance) d in
      let? d := set_reissuance idx satoshi_asset token_asset_bf (is_entropy issuance) d in
      pay_to address_asset satoshi_asset a d
  end.

(** ** From the requests to the inputs *)

Definition policy_of (b : TxBuilder) : AssetId := network_policy_asset (tb_network b).

(** The fee asset, when it is not the policy asset. *)
Definition fee_in_asset (b : TxBuilder) : option (AssetId * Z) :=
  match tb_fee_asset b with
  | Some (fa, rate) => if bool_decide (fa = policy_of b) then None else Some (fa, rate)
  | None => None
  end.

(** The wallet's outputs that may be selected. *)
Definition candidates (b : TxBuilder) : result (gmap OutPoint WalletTxOut) build_error :=
  let? utxos := wollet_ok (utxos_map c) in
  let utxos := foldl (fun m x => delete (eu_outpoint x) m) utxos (external_utxos b) in
  Ok (foldl (fun m o => delete o m) utxos (tb_avoid_utxos b)).

Definition chosen_utxos (b : TxBuilder) (utxos : gmap OutPoint WalletTxOut)
  : result (list WalletTxOut) build_error :=
  match selected_utxos b with
  | Some coins => rmapM (fun o => ok_or (utxos !! o) (MissingWalletUtxo o)) coins
  | None => Ok []
  end.

(** The assets of the rounds: the policy asset comes after them. *)
Definition round_assets (b : TxBuilder) (chosen : list WalletTxOut) : result (gset AssetId) build_error :=
  let policy_asset := policy_of b in
  let addressees_asset := List.filter (fun r => bool_decide (rc_asset r <> policy_asset)) (recipients b) in
  let assets : gset AssetId :=
    (list_to_set (map rc_asset addressees_asset) ∪ list_to_set (map ext_asset (external_utxos b)) ∪
     list_to_set (map utxo_asset chosen)) ∖ {[policy_asset]} in
  match fee_in_asset b with
  | Some (fa, rate) => if rate =? 0 then Err ZeroFeeRate else Ok (assets ∪ {[fa]})
  | None => Ok assets
  end.

Definition init_pset (b : TxBuilder) : PartiallySignedTransaction :=
  set_genesis_hash (network_genesis_hash (tb_network b)) new_v2.

(** Inputs, recipients and issuance: the draft, what the fee asset has in and out, and what the
    policy asset has in and out. *)
Definition assemble (b : TxBuilder) : result (Draft * (Z * Z) * (Z * Z)) build_error :=
  let d := mkDraft (init_pset b) ∅ 0 (last_unused_internal c) (last_unused_external c) in
  let? utxos := candidates b in
  let? chosen := chosen_utxos b utxos in
  let? assets := round_assets b chosen in
  let? (d, fee_totals) := asset_rounds b utxos chosen (fee_in_asset b) (asset_iter assets) (d, (0, 0)) in
  let '(d, satoshi_out) := add_recipients (of_asset rc_asset (policy_of b) (recipients b)) d 0 in
  let? (d, satoshi_in) := policy_inputs b utxos chosen (policy_of b) d in
  let? d := add_issuance b utxos d in
  Ok (d, fee_totals, (satoshi_in, satoshi_out)).

(** ** The fee *)

Definition temp_fee : Z := 1.

(** The change or drain output of the policy asset, with its index. *)
Definition policy_change_output (b : TxBuilder) (satoshi_in satoshi_out : Z) (d : Draft)
  : result (Draft * option nat) build_error :=
  let in_policy := is_none (fee_in_asset b) in
  let policy_fee := if in_policy then temp_fee else 0 in
  let need := wrap_u64 (satoshi_out + policy_fee) in
  if (satoshi_in <? need) || (in_policy && (satoshi_in =? need))
  then Err (InsufficientFunds (saturating_sub (wrap_u64 (need + 1)) satoshi_in) policy_asset false)
  else
    let policy_change := wrap_u64 (wrap_u64 (satoshi_in - satoshi_out) - policy_fee) in
    if (0 <? policy_change) || in_policy then
      let? d := match drain_to b with
                | Some a => let? r := from_address policy_change a policy_asset in Ok (wallet_output d r)
                | None => pay_change policy_change policy_asset d
                end in
      Ok (d, Some (n_outputs (d_pset d) - 1)%nat)
    else Ok (d, None).

(** The change of the fee asset, with its index, and the asset of the fee. *)
Definition fee_change_output (b : TxBuilder) (fee_asset_in fee_asset_out : Z) (d : Draft)
  : result (Draft * option nat * AssetId) build_error :=
  match fee_in_asset b with
  | Some (fa, _) =>
      if fee_asset_in <? fee_asset_out
      then Err (InsufficientFunds (wrap_u64 (fee_asset_out - fee_asset_in)) fa false)
      else
        let x_change_temp := fee_asset_in - fee_asset_out in
        if 0 <? x_change_temp then
          let? d := pay_change x_change_temp fa d in
          Ok (d, Some (n_outputs (d_pset d) - 1)%nat, fa)
        else Ok (d, None, fa)
  | None => Ok (d, None, policy_asset)
  end.

Definition is_blinded_output (o : PsetOutput) : bool := negb (is_none (blinding_key o)).

(** The weight of the transaction, blinded with throwaway secrets. *)
Definition draft_weight (b : TxBuilder) (d : Draft) : result Z build_error :=
  let? temp := if existsb is_blinded_output (outputs (d_pset d))
               then ok_or (blind_last (d_pset d) (inp_txout_sec d)) BlindError else Ok (d_pset d) in
  let? tx := pset_ok (extract_tx temp) in
  Ok (wrap_u64 (inp_weight d + (if ct_discount b then discount_weight tx else weight tx))).

(** [outputs_mut()[idx].amount = Some(x)], of an output that is there. *)
Definition set_amount (idx : nat) (x : Z) (p : PartiallySignedTransaction) : PartiallySignedTransaction :=
  mkPset (global p) (inputs p) (alter (fun o => o <| o_amount := Some x |>) idx (outputs p)).
Definition set_amount_at (idx : option nat) (x : Z) (p : PartiallySignedTransaction)
  : PartiallySignedTransaction :=
  match idx with Some i => set_amount i x p | None => p end.

(** [ceil(x * 1e8 / rate)], in [u128]. *)
Definition to_fee_asset (x rate : Z) : Z := (x * 100000000 + rate - 1) / rate.

Definition has_value_output (p : PartiallySignedTransaction) : bool :=
  existsb (fun o => negb (is_empty (o_script_pubkey o))) (outputs p).

(** The fee in the policy asset. *)
Definition settle_policy (fee satoshi_in satoshi_out : Z) (change : option nat) (fee_idx : nat)
    (p : PartiallySignedTransaction) : result PartiallySignedTransaction build_error :=
  if satoshi_in <=? wrap_u64 (satoshi_out + fee)
  then Err (InsufficientFunds (wrap_u64 (wrap_u64 (wrap_u64 (satoshi_out + fee) + 1) - satoshi_in)) policy_asset false)
  else Ok (set_amount fee_idx fee
             (set_amount_at change (wrap_u64 (wrap_u64 (satoshi_in - satoshi_out) - fee)) p)).

(** The fee in another asset; change that would be dust is added to the fee. *)
Definition settle_asset (fa : AssetId) (rate fee satoshi_in satoshi_out fee_asset_in fee_asset_out : Z)
    (policy_change fee_change : option nat) (fee_idx : nat) (p : PartiallySignedTransaction)
  : result PartiallySignedTransaction build_error :=
  let q := to_fee_asset fee rate in
  if u64_max <=? q then Err FeeOverflow
  else
    let fee_amount_x := q + 1 in
    let need := wrap_u64 (fee_asset_out + fee_amount_x) in
    if fee_asset_in <? need then Err (InsufficientFunds (need - fee_asset_in) fa false)
    else
      let x_change := wrap_u64 (wrap_u64 (fee_asset_in - fee_asset_out) - fee_amount_x) in
      let p := set_amount_at policy_change (wrap_u64 (satoshi_in - satoshi_out)) p in
      let p := match fee_change with
               | Some ci =>
                   if to_fee_asset 294 rate <? x_change
                   then set_amount fee_idx fee_amount_x (set_amount ci x_change p)
                   else snd (remove_output ci (set_amount fee_idx (wrap_u64 (fee_amount_x + x_change)) p))
               | None => set_amount fee_idx fee_amount_x p
               end in
      if has_value_output p then Ok p else Err ChangeTooSmall.

(** The PSET before it is blinded, and the secrets of its inputs. *)
Definition draft (b : TxBuilder) : result (PartiallySignedTransaction * gmap nat TxOutSecrets) build_error :=
  let? (d, (fee_asset_in, fee_asset_out), (satoshi_in, satoshi_out)) := assemble b in
  let? (d, policy_change) := policy_change_output b satoshi_in satoshi_out d in
  let? (d, fee_change, fee_output_asset) := fee_change_output b fee_asset_in fee_asset_out d in
  let d := with_pset d (add_output (new_explicit [] temp_fee fee_output_asset None) (d_pset d)) in
  let fee_idx := (n_outputs (d_pset d) - 1)%nat in
  let? weight := draft_weight b d in
  let fee := calculate_fee weight (tb_fee_rate b) in
  let? p := match fee_in_asset b with
            | Some (fa, rate) => settle_asset fa rate fee satoshi_in satoshi_out fee_asset_in fee_asset_out
                                   policy_change fee_change fee_idx (d_pset d)
            | None => settle_policy fee satoshi_in satoshi_out policy_change fee_idx (d_pset d)
            end in
  Ok (p, inp_txout_sec d).

(** ** Blinding and details *)

(** [Wollet::add_details]: what the descriptor knows about scripts of the wallet. *)
Definition if_mine {X} (s : Script) (f : Chain * Z -> X -> result X wollet_error) (x : X)
  : result X build_error :=
  match Wollet.index c s with
  | Ok i => wollet_ok (f i x)
  | Err ScriptNotMine => Ok x
  | Err e => Err (WolletErr e)
  end.

Definition input_details (i : PsetInput) : result PsetInput build_error :=
  match witness_utxo i with
  | Some o => if_mine (script_pubkey o) describe_input i
  | None => Ok i
  end.
Definition output_details (o : PsetOutput) : result PsetOutput build_error :=
  if_mine (o_script_pubkey o) describe_output o.

Definition add_origins (g : Global) : Global :=
  mkGlobal (tx_data g) (pset_version g) (foldl (fun m x => <[x.1 := x.2]> m) (xpub g) key_origins)
    (scalars g) (elements_tx_modifiable_flag g) (g_proprietary g) (g_unknown g).

Definition add_details (p : PartiallySignedTransaction) : result PartiallySignedTransaction build_error :=
  if spk_count then Ok p
  else
    let? ins := rmapM input_details (inputs p) in
    let? outs := rmapM output_details (outputs p) in
    Ok (mkPset (add_origins (global p)) ins outs).

(** The previous transactions without the proofs of their outputs. *)
Definition no_witness (o : TxOut) : TxOut :=
  mkTxOut (asset o) (value o) (nonce o) (script_pubkey o) (mkTxOutWitness None None).
Definition erase_proofs (i : PsetInput) : PsetInput :=
  match non_witness_utxo i with
  | Some tx => i <| non_witness_utxo := Some (mkTransaction (version tx) (lock_time tx) (input tx)
                                                (map no_witness (output tx))) |>
  | None => i
  end.

Definition signal_rbf (i : PsetInput) : PsetInput :=
  i <| i_sequence := Some Sequence_ENABLE_RBF_NO_LOCKTIME |>.

Definition map_inputs (f : PsetInput -> PsetInput) (p : PartiallySignedTransaction)
  : PartiallySignedTransaction := mkPset (global p) (map f (inputs p)) (outputs p).

(** [BuiltTx]. *)
Record BuiltTx := mkBuilt
  { bt_pset : PartiallySignedTransaction;
    blind_secrets : list (nat * CtLocationType * (Tweak * Tweak * SecretKey)) }.

Definition finish_inner (b : TxBuilder) : result BuiltTx build_error :=
  let? (p, secrets) := draft b in
  let? p := ok_or (read26 p) BuildPanic in
  let? (p, secrets) :=
    if existsb is_blinded_output (outputs p) then ok_or (blind_last26 p secrets) BlindError
    else Ok (p, []) in
  let? p := ok_or (read25 (map_inputs erase_proofs p)) BuildPanic in
  let? p := add_details p in
  Ok (mkBuilt (if tb_enable_rbf b then map_inputs signal_rbf p else p) secrets).

(** [TxBuilder::finish]. *)
Definition finish (b : TxBuilder) : result PartiallySignedTransaction build_error :=
  let? t := finish_inner b in Ok (bt_pset t).

(** ** What is kept beside the PSET *)

(** The secrets of blinded outputs. *)
Definition output_secrets (t : BuiltTx) : list (nat * (Tweak * Tweak * SecretKey)) :=
  omap (fun '(i, ty, x) => match ty with LocInput => Some (i, x) | _ => None end) (blind_secrets t).

Definition blinding_nonces (t : BuiltTx) : result (list string) build_error :=
  let m : gmap nat (Tweak * Tweak * SecretKey) := Prelude.extend ∅ (output_secrets t) in
  rmapM (fun idx =>
    match m !! idx with
    | Some (_, eph_sk) =>
        let? o := ok_or (outputs (bt_pset t) !! idx) BuildPanic in
        let? k := ok_or (blinding_key o) (WolletErr (Generic "Missing blinding key")) in
        Ok (shared_secret_text eph_sk (pk_inner k))
    | None => Ok EmptyString
    end) (seq 0 (n_outputs (bt_pset t))).

Definition built_unblinded (t : BuiltTx) : result (list (OutPoint * TxOutSecrets)) build_error :=
  let? tx := pset_ok (extract_tx (bt_pset t)) in
  rmapM (fun '(vout, (abf, vbf, _)) =>
    let? o := ok_or (outputs (bt_pset t) !! vout) (WolletErr (Generic "Missing output")) in
    let? a := ok_or (o_asset o) (WolletErr (Generic "Missing asset")) in
    let? v := ok_or (o_amount o) (WolletErr (Generic "Missing amount")) in
    Ok (mkOutPoint (tx_txid tx) (wrap_u32 (Z.of_nat vout)), mkSecrets a abf v vbf)) (output_secrets t).

(** The update that lets the wallet know the outputs before it sees the transaction. *)
Definition built_update (t : BuiltTx) : result Update build_error :=
  let? unblinds := built_unblinded t in
  Ok (mkUpdate 4 (status c) (mkDownload [] unblinds) [] [] [] [] default_blockheader []
        (mkLastUnused (last_unused_external c) (last_unused_internal c))).
End builder.
