(* ===== verification/BuilderLedger.v ===== *)
(** * What the transaction builder promises

    Every recipient is paid, nothing is spent twice, and for every asset what comes in and is
    issued is what goes out: the change, the fee and the several assets of
    [TxBuilder::finish] ([TxBuilder.v]) add up.  Sums wrap at 64 bits in the code, so the books
    are first kept modulo [2 ^ 64]; they are exact when no total of the result reaches it. *)

From S2P Require Import Prelude Order Float Encode Script Timelocks Confidential Transaction TxMetrics Sighash Merkle Taproot TapSighash Store Block Update Cache Address Network Wollet Views Delegation Pset PsetValue PsetCodec PsetMeta TxBuilder.

(** ** Generic lemmas *)

Lemma alter_middle {A} (f : A -> A) (l k : list A) x : alter f (length l) (l ++ x :: k) = l ++ f x :: k.
Proof. induction l as [|y l IH]; [done|]. simpl. by rewrite <-IH. Qed.

Lemma delete_middle {A} (l k : list A) x : delete (length l) (l ++ x :: k) = l ++ k.
Proof. induction l as [|y l IH]; [done|]. simpl. by rewrite <-IH. Qed.

Lemma filter_submseteq {A} (q : A -> bool) l : List.filter q l ⊆+ l.
Proof. induction l as [|x l IH]; [done|]. simpl. destruct (q x); by constructor. Qed.

Lemma sum_map_Forall_nonneg {A} (f : A -> Z) l : Forall (fun x => 0 <= f x) l -> 0 <= sum_map f l.
Proof. induction 1 as [|x l Hx _ IH]; [done|]. rewrite sum_map_cons. lia. Qed.

Lemma sum_map_submseteq {A} (f : A -> Z) l k :
  l ⊆+ k -> Forall (fun x => 0 <= f x) k -> sum_map f l <= sum_map f k.
Proof.
  intros [k' Hk]%submseteq_Permutation Hf. rewrite (sum_map_perm _ _ _ Hk), sum_map_app.
  rewrite Hk, Forall_app in Hf. destruct Hf as [_ Hf].
  apply sum_map_Forall_nonneg in Hf. lia.
Qed.

Lemma NoDup_filter_bool {A} (q : A -> bool) l : NoDup l -> NoDup (List.filter q l).
Proof.
  induction 1 as [|x l Hx _ IH]; [constructor|]. simpl. destruct (q x); [|done]. constructor; [|done].
  by intros [Hin _]%list_elem_of_In%filter_In%(fun H => conj (proj1 H) I); apply Hx, list_elem_of_In.
Qed.

Lemma submseteq_NoDup_l {A} (l k : list A) : l ⊆+ k -> NoDup k -> NoDup l.
Proof. intros [k' ->]%submseteq_Permutation Hk. by apply NoDup_app in Hk as [Hl _]. Qed.

Lemma filter_none {A} (q : A -> bool) l : (forall x, In x l -> q x = false) -> List.filter q l = [].
Proof.
  intros Hq. induction l as [|x l IH]; [done|]. simpl. rewrite Hq by (by left). apply IH. intros y Hy. apply Hq. by right.
Qed.

#[export] Instance cong64_sub : Proper (cong64 ==> cong64 ==> cong64) Z.sub.
Proof. intros x y [k ->] x' y' [k' ->]. exists (k - k'). lia. Qed.

Lemma cong64_exact x y : 0 <= x < 2 ^ 64 -> 0 <= y < 2 ^ 64 -> cong64 x y -> x = y.
Proof. intros Hx Hy [k Hk]. assert (k = 0) by lia. lia. Qed.

(** ** The contents of a draft *)

Section ledger.
Context {P : Platform} {S : Secp} {H : Hashes} {M : Midstates} {T : TapEnv} {C : SchnorrEnv}
  {E : PsetEnv} {J : JsonStrings} {WE : WolletEnv} {B : BuilderEnv}.
#[local] Set Default Proof Using "All".

(** What an input spends. *)
Definition item : Type := OutPoint * TxOutSecrets.
Definition ext_item (u : ExternalUtxo) : item := (eu_outpoint u, eu_unblinded u).
Definition utxo_item (u : WalletTxOut) : item := (wo_outpoint u, wo_unblinded u).

Definition prevout (i : PsetInput) : OutPoint := mkOutPoint (previous_txid i) (previous_output_index i).

Record spends (x : item) (i : PsetInput) : Prop := mkSpends
  { spends_outpoint : prevout i = x.1;
    spends_asset : i_asset i = Some (sec_asset x.2);
    spends_amount : i_amount i = Some (sec_value x.2) }.

Definition unissued (i : PsetInput) : Prop :=
  issuance_value_amount i = None /\ issuance_inflation_keys i = None /\ issuance_value_comm i = None /\
  issuance_blinding_nonce i = None.

(** The draft spends [us] and pays [rs], with [Q] of every input. *)
Record holds (Q : PsetInput -> Prop) (d : Draft) (us : list item) (rs : list Recipient) : Prop := mkHolds
  { holds_inputs : Forall2 (fun x i => spends x i /\ Q i) us (inputs (d_pset d));
    holds_outputs : outputs (d_pset d) = map recipient_output rs;
    holds_secrets : inp_txout_sec d = map_seq 0 us.*2;
    holds_counts : counts_ok (d_pset d) }.

(** Totals of an asset. *)
Definition total (a : AssetId) (us : list item) : Z := sum_map (fun x => worth a x.2) us.
Definition rworth (a : AssetId) (r : Recipient) : Z := if decide (rc_asset r = a) then rc_satoshi r else 0.
Definition paid (a : AssetId) (rs : list Recipient) : Z := sum_map (rworth a) rs.

Lemma total_app a us us' : total a (us ++ us') = total a us + total a us'.
Proof. apply sum_map_app. Qed.
Lemma paid_app a rs rs' : paid a (rs ++ rs') = paid a rs + paid a rs'.
Proof. apply sum_map_app. Qed.

(** All of one asset. *)
Definition items_of (a : AssetId) (us : list item) : Prop := Forall (fun x => sec_asset x.2 = a) us.
Lemma total_other a a' us : items_of a us -> a <> a' -> total a' us = 0.
Proof.
  intros Hus Ha. induction Hus as [|x us Hx _ IH]; [done|]. unfold total in *. rewrite sum_map_cons, IH.
  unfold worth. rewrite decide_False; [lia|congruence].
Qed.
Definition pays_only (a : AssetId) (rs : list Recipient) : Prop := Forall (fun r => rc_asset r = a) rs.
Lemma paid_other a a' rs : pays_only a rs -> a <> a' -> paid a' rs = 0.
Proof.
  intros Hrs Ha. induction Hrs as [|r rs Hr _ IH]; [done|]. unfold paid in *. rewrite sum_map_cons, IH.
  unfold rworth. rewrite decide_False; [lia|congruence].
Qed.
Lemma of_asset_Forall {U} (f : U -> AssetId) a l : Forall (fun u => f u = a) (of_asset f a l).
Proof.
  unfold of_asset. induction l as [|u l IH]; simpl; [done|]. case_bool_decide; [by constructor|done].
Qed.
Hint Resolve of_asset_Forall : core.

Lemma holds_weaken (Q Q' : PsetInput -> Prop) d us rs :
  (forall i, Q i -> Q' i) -> holds Q d us rs -> holds Q' d us rs.
Proof.
  intros HQ [Hi Ho Hs Hc]. split; [|done..]. eapply Forall2_impl; [exact Hi|]. naive_solver.
Qed.

(** ** Steps *)

Lemma wallet_output_holds Q d us rs r : holds Q d us rs -> holds Q (wallet_output d r) us (rs ++ [r]).
Proof.
  intros [Hi Ho Hs Hc]. split; [done| |done|].
  - cbn [wallet_output with_pset d_pset add_output outputs]. by rewrite Ho, map_app.
  - apply (pset_step_counts (d_pset d)); [apply step_add_output|done].
Qed.

Lemma with_proofs_keeps txout u b i i' :
  with_proofs txout u b i = Ok i' ->
  exists ap vp, i' = i <| i_blind_asset_proof := ap |> <| i_blind_value_proof := vp |>.
Proof.
  unfold with_proofs. destruct i.
  destruct (Value_commitment _); [destruct (Asset_commitment _)|].
  - destruct (blind_asset_proof _ _); [|done]. simpl. destruct (blind_value_proof _ _ _ _); [|done].
    intros [= <-]. by eexists _, _.
  - destruct b; [|done]. intros [= <-]. by eexists _, _.
  - destruct b; [|done]. intros [= <-]. by eexists _, _.
Qed.

Lemma add_input_inner_holds (Q : PsetInput -> Prop) d us rs o txout tx u mw b rp n d' :
  (forall i, unissued i -> Q i) ->
  holds Q d us rs -> add_input_inner d o txout tx u mw b rp = Ok (n, d') ->
  n = length us /\ holds Q d' (us ++ [(o, u)]) rs.
Proof.
  intros HQ [Hi Ho Hs Hc]. unfold add_input_inner.
  destruct (_ <=? _)%nat; [done|].
  destruct (with_proofs _ _ _ _) as [i|] eqn:Ei; [|done]. cbn [rbind].
  apply with_proofs_keeps in Ei as (ap & vp & ->).
  match goal with |- rbind ?m _ = _ -> _ => destruct m as [i'|] eqn:Ei' end; [|done].
  cbn [rbind]. intros [= <- <-].
  apply Forall2_length in Hi as Hl.
  split; [done|]. split; cbn [d_pset inp_txout_sec].
  - apply Forall2_app; [done|]. constructor; [|done].
    assert (Hx : spends (o, u) i' /\ unissued i').
    { destruct o. destruct rp, tx; simpl in Ei'; try (destruct (strip_prev _ _); [|done]; simpl in Ei');
        injection Ei' as <-; by repeat split. }
    naive_solver.
  - done.
  - rewrite Hs, fmap_app, <-Hl. cbn [fmap list_fmap]. rewrite map_seq_snoc. by rewrite length_fmap.
  - apply (pset_step_counts (d_pset d)); [apply step_add_input|done].
Qed.

Lemma spend_holds {U} Q (add : Draft -> U -> result (nat * Draft) build_error) (it : U -> item) go l d us rs x d' x' :
  (forall d us u n d', holds Q d us rs -> add d u = Ok (n, d') -> holds Q d' (us ++ [it u]) rs) ->
  holds Q d us rs -> spend add (fun u => sec_value (it u).2) go l d x = Ok (d', x') ->
  exists l', l' `prefix_of` l /\ holds Q d' (us ++ map it l') rs /\
    cong64 x' (x + sum_map (fun u => sec_value (it u).2) l') /\ (is_u64 x -> is_u64 x').
Proof.
  intros Hadd. revert d us x. induction l as [|u l IH]; intros d us x Hd; cbn [spend].
  - intros [= <- <-]. exists []. rewrite app_nil_r. cbn [sum_map foldr]. rewrite Z.add_0_r.
    by split_and!; [apply prefix_nil|..].
  - destruct (add d u) as [[n d1]|] eqn:Eu; [|done]. cbn [rbind].
    eapply Hadd in Eu; [|done].
    assert (Hw : is_u64 (wrap_u64 (x + sec_value (it u).2))) by (apply Z.mod_pos_bound; lia).
    destruct (go _).
    + intros Hs. destruct (IH _ _ _ Eu Hs) as (l' & Hp & Hh & Hc & Hu). exists (u :: l').
      split_and!; [by apply prefix_cons|by rewrite <-app_assoc in Hh| |auto].
      rewrite sum_map_cons, Z.add_assoc, Hc, cong64_wrap_u64. reflexivity.
    + intros [= <- <-]. exists [u]. split_and!; [by apply prefix_cons, prefix_nil|done| |done].
      rewrite sum_map_cons. cbn [sum_map foldr]. rewrite Z.add_0_r. apply cong64_wrap_u64.
Qed.

Lemma total_of_asset {U} (it : U -> item) a l :
  Forall (fun u => sec_asset (it u).2 = a) l ->
  items_of a (map it l) /\ total a (map it l) = sum_map (fun u => sec_value (it u).2) l.
Proof.
  induction 1 as [|u l Hu _ [IH1 IH2]]; [by split; [apply Forall_nil|]|]. split; [by constructor|].
  cbn [map]. unfold total in *. rewrite !sum_map_cons, IH2. unfold worth. by rewrite decide_True by done.
Qed.

(** The items of one asset. *)
Definition of_item (a : AssetId) (us : list item) : list item := of_asset (fun x => sec_asset x.2) a us.

Lemma of_item_app a us us' : of_item a (us ++ us') = of_item a us ++ of_item a us'.
Proof. apply List.filter_app. Qed.
Lemma of_item_same a us : items_of a us -> of_item a us = us.
Proof. unfold of_item, of_asset. induction 1 as [|x us Hx _ IH]; simpl; [done|]. by rewrite bool_decide_true, IH. Qed.
Lemma of_item_other a a' us : items_of a us -> a <> a' -> of_item a' us = [].
Proof.
  unfold of_item, of_asset. intros Hus Ha. induction Hus as [|x us Hx _ IH]; simpl; [done|].
  by rewrite bool_decide_false by congruence.
Qed.

Lemma paid_of_asset a l : paid a (of_asset rc_asset a l) = sum_map rc_satoshi (of_asset rc_asset a l).
Proof.
  apply sum_map_ext. pose proof (of_asset_Forall rc_asset a l) as Hf. eapply Forall_impl; [exact Hf|].
  intros r Hr. unfold rworth. by rewrite decide_True by done.
Qed.

(** ** Outputs *)

Section outs.
Context (c : Cache) (Q : PsetInput -> Prop).

Lemma add_recipients_holds l d us rs x d' x' :
  holds Q d us rs -> add_recipients l d x = (d', x') ->
  holds Q d' us (rs ++ l) /\ cong64 x' (x + sum_map rc_satoshi l) /\ (is_u64 x -> is_u64 x').
Proof.
  revert d rs x. induction l as [|r l IH]; intros d rs x Hd; cbn [add_recipients].
  - intros [= <- <-]. rewrite app_nil_r. cbn [sum_map foldr]. rewrite Z.add_0_r. done.
  - intros Hs. apply (IH _ _ _ (wallet_output_holds _ _ _ _ r Hd)) in Hs as (Hh & Hc & Hu).
    rewrite <-app_assoc in Hh. split; [done|]. split.
    + rewrite Hc, cong64_wrap_u64, sum_map_cons, Z.add_assoc. reflexivity.
    + intros _. apply Hu. apply Z.mod_pos_bound. lia.
Qed.

Lemma addressee_inner_ok sat a i ch r i' :
  addressee_inner c sat a i ch = Ok (r, i') -> rc_satoshi r = sat /\ rc_asset r = a.
Proof.
  unfold addressee_inner, from_address. destruct amp0_address as [f|].
  - destruct (wollet_ok _); [|done]. cbn [rbind]. destruct (address_script_pubkey _); [|done]. by intros [= <- <-].
  - destruct (wollet_ok _) as [[? ?]|]; [|done]. cbn [rbind]. destruct (address_script_pubkey _); [|done].
    by intros [= <- <-].
Qed.

Lemma pay_change_holds d us rs sat a d' :
  holds Q d us rs -> pay_change c sat a d = Ok d' ->
  exists r, rc_satoshi r = sat /\ rc_asset r = a /\ holds Q d' us (rs ++ [r]).
Proof.
  intros Hd. unfold pay_change. destruct (addressee_inner _ _ _ _ _) as [[r i]|] eqn:Er; [|done].
  apply addressee_inner_ok in Er as [Hs Ha]. cbn [rbind]. intros [= <-]. exists r. split_and!; [done..|].
  apply wallet_output_holds. by destruct Hd.
Qed.

Lemma pay_to_holds to d us rs sat a d' :
  holds Q d us rs -> pay_to c to sat a d = Ok d' ->
  exists r, rc_satoshi r = sat /\ rc_asset r = a /\ inputs (d_pset d') = inputs (d_pset d) /\
    holds Q d' us (rs ++ [r]).
Proof.
  intros Hd. unfold pay_to, pay_external, from_address. destruct to as [to|].
  - destruct (address_script_pubkey _); [|done]. cbn [rbind ok_or]. intros [= <-].
    eexists. split_and!; [..|by apply wallet_output_holds]; done.
  - destruct (addressee_inner _ _ _ _ _) as [[r i]|] eqn:Er; [|done].
    apply addressee_inner_ok in Er as [Hs Ha]. cbn [rbind]. intros [= <-]. exists r. split_and!; [done..|].
    apply wallet_output_holds. by destruct Hd.
Qed.
End outs.

(** ** Inputs *)

#[local] Abbreviation spend_all add value := (spend add value (fun _ => true)).

Section inputs.
Context {W : Type} (st : Store W) (c : Cache) (w : W) (b : TxBuilder).
Context (Q : PsetInput -> Prop) (HQ : forall i, unissued i -> Q i).

Lemma external_input_holds rs rp d us u n d' :
  holds Q d us rs -> add_external_input rp d u = Ok (n, d') -> holds Q d' (us ++ [ext_item u]) rs.
Proof. intros Hd Ha. by eapply add_input_inner_holds in Ha as [_ Ha]. Qed.

Lemma wallet_input_holds rs rp d us u n d' :
  holds Q d us rs -> wallet_input st w rp d u = Ok (n, d') ->
  n = length us /\ holds Q d' (us ++ [utxo_item u]) rs.
Proof.
  intros Hd. unfold wallet_input. destruct (if is_segwit then _ else _) as [tx|]; [|done]. cbn [rbind].
  destruct (get_txout _ _ _); [|done]. cbn [rbind]. intros Ha. by eapply add_input_inner_holds in Ha.
Qed.

Lemma spend_external_holds rs a d us x d' x' :
  holds Q d us rs ->
  spend_all (add_external_input (tb_add_input_rangeproofs b)) ext_value (of_asset ext_asset a (external_utxos b)) d x
    = Ok (d', x') ->
  exists us', us' `prefix_of` map ext_item (of_asset ext_asset a (external_utxos b)) /\ items_of a us' /\
    holds Q d' (us ++ us') rs /\ cong64 x' (x + total a us') /\ (is_u64 x -> is_u64 x').
Proof.
  intros Hd Hs.
  eapply (spend_holds Q _ ext_item) in Hs as (l & [k Hp] & Hh & Hc & Hu); [|intros; by eapply external_input_holds|done].
  assert (Hl : Forall (fun u => ext_asset u = a) l).
  { pose proof (of_asset_Forall ext_asset a (external_utxos b)) as Hf. rewrite Hp, Forall_app in Hf. apply Hf. }
  destruct (total_of_asset ext_item a l Hl) as [Hi Ht].
  exists (map ext_item l). rewrite Ht, Hp, map_app. split_and!; [by eexists|done..].
Qed.

Lemma spend_wallet_holds rs rp go a cand d us x d' x' :
  holds Q d us rs ->
  spend (wallet_input st w rp) utxo_value go (of_asset utxo_asset a cand) d x = Ok (d', x') ->
  exists us', us' `prefix_of` map utxo_item (of_asset utxo_asset a cand) /\ items_of a us' /\
    holds Q d' (us ++ us') rs /\ cong64 x' (x + total a us') /\ (is_u64 x -> is_u64 x').
Proof.
  intros Hd Hs.
  eapply (spend_holds Q _ utxo_item) in Hs as (l & [k Hp] & Hh & Hc & Hu);
    [|intros; by eapply wallet_input_holds|done].
  assert (Hl : Forall (fun u => utxo_asset u = a) l).
  { pose proof (of_asset_Forall utxo_asset a cand) as Hf. rewrite Hp, Forall_app in Hf. apply Hf. }
  destruct (total_of_asset utxo_item a l Hl) as [Hi Ht].
  exists (map utxo_item l). rewrite Ht, Hp, map_app. split_and!; [by eexists|done..].
Qed.

(** What may be spent of an asset. *)
Definition pool (utxos : gmap OutPoint WalletTxOut) (chosen : list WalletTxOut) (a : AssetId) : list item :=
  map ext_item (of_asset ext_asset a (external_utxos b)) ++
  map utxo_item (of_asset utxo_asset a
    match selected_utxos b with Some _ => chosen | None => utxo_iter utxos end).

(** What a round spends of an asset. *)
Definition spent_of (utxos : gmap OutPoint WalletTxOut) (chosen : list WalletTxOut) (a : AssetId)
    (us : list item) (x : Z) : Prop :=
  us ⊆+ pool utxos chosen a /\ items_of a us /\ cong64 x (total a us) /\ is_u64 x.

Lemma spent_combine utxos chosen a us us' x x' cand :
  us `prefix_of` map ext_item (of_asset ext_asset a (external_utxos b)) -> items_of a us ->
  cong64 x (0 + total a us) -> is_u64 x ->
  us' `prefix_of` map utxo_item (of_asset utxo_asset a cand) -> items_of a us' ->
  cong64 x' (x + total a us') -> (is_u64 x -> is_u64 x') ->
  cand = match selected_utxos b with Some _ => chosen | None => utxo_iter utxos end ->
  spent_of utxos chosen a (us ++ us') x'.
Proof.
  intros [k Hk] Hi Hc Hx [k' Hk'] Hi' Hc' Hx' ->. split; [|split; [|split; [|auto]]].
  - unfold pool. rewrite Hk, Hk'. apply submseteq_app; apply submseteq_inserts_r; reflexivity.
  - by apply Forall_app.
  - rewrite Hc', Hc, total_app. reflexivity.
Qed.

Lemma add_asset_inputs_holds rs utxos chosen want_all a out d us d' x :
  holds Q d us rs -> add_asset_inputs st w b utxos chosen want_all a out d = Ok (d', x) ->
  exists us', holds Q d' (us ++ us') rs /\ spent_of utxos chosen a us' x.
Proof.
  intros Hd. unfold add_asset_inputs.
  destruct (spend_all _ _ _ _ _) as [[d1 x1]|] eqn:E1; [|done]. cbn [rbind].
  eapply spend_external_holds in E1 as (us1 & Hp1 & Hi1 & Hh1 & Hc1 & Hu1); [|done].
  assert (Hx1 : is_u64 x1) by (apply Hu1; done).
  destruct (selected_utxos b) eqn:Es; intros E2.
  - eapply spend_wallet_holds in E2 as (us2 & Hp2 & Hi2 & Hh2 & Hc2 & Hu2); [|done].
    exists (us1 ++ us2). rewrite app_assoc. split; [done|]. eapply spent_combine; eauto. by rewrite Es.
  - destruct (_ || _).
    + eapply spend_wallet_holds in E2 as (us2 & Hp2 & Hi2 & Hh2 & Hc2 & Hu2); [|done].
      exists (us1 ++ us2). rewrite app_assoc. split; [done|]. eapply spent_combine; eauto. by rewrite Es.
    + injection E2 as <- <-. exists us1. split; [done|]. rewrite <-(app_nil_r us1).
      eapply spent_combine; eauto; [apply prefix_nil|by apply Forall_nil|].
      unfold total. cbn [sum_map foldr]. rewrite Z.add_0_r. reflexivity.
Qed.

Lemma policy_inputs_holds rs utxos chosen a d us d' x :
  holds Q d us rs -> policy_inputs st w b utxos chosen a d = Ok (d', x) ->
  exists us', holds Q d' (us ++ us') rs /\ spent_of utxos chosen a us' x.
Proof.
  intros Hd. unfold policy_inputs.
  destruct (spend_all _ _ _ _ _) as [[d1 x1]|] eqn:E1; [|done]. cbn [rbind].
  eapply spend_external_holds in E1 as (us1 & Hp1 & Hi1 & Hh1 & Hc1 & Hu1); [|done].
  assert (Hx1 : is_u64 x1) by (apply Hu1; done).
  destruct (selected_utxos b) eqn:Es; intros E2;
    (eapply spend_wallet_holds in E2 as (us2 & Hp2 & Hi2 & Hh2 & Hc2 & Hu2); [|done];
     exists (us1 ++ us2); rewrite app_assoc; split; [done|]; eapply spent_combine; eauto; by rewrite Es).
Qed.

(** ** Rounds *)

Definition is_fee_asset (fee : option (AssetId * Z)) (a : AssetId) : bool :=
  match fee with Some (fa, _) => bool_decide (fa = a) | None => false end.

Lemma asset_round_holds fee utxos chosen d us rs tot a d' tot' :
  holds Q d us rs -> asset_round st c w b utxos chosen fee (d, tot) a = Ok (d', tot') ->
  exists us' ch,
    holds Q d' (us ++ us') (rs ++ of_asset rc_asset a (recipients b) ++ ch) /\
    us' ⊆+ pool utxos chosen a /\ items_of a us' /\ pays_only a ch /\
    if is_fee_asset fee a
    then ch = [] /\ cong64 tot'.1 (total a us') /\
      is_u64 tot'.1 /\ is_u64 tot'.2 /\ cong64 tot'.2 (paid a (of_asset rc_asset a (recipients b)))
    else tot' = tot /\ cong64 (total a us') (paid a (of_asset rc_asset a (recipients b) ++ ch)).
Proof.
  intros Hd. unfold asset_round. fold (is_fee_asset fee a).
  destruct (add_recipients _ _ _) as [d1 out] eqn:E1.
  apply (add_recipients_holds c Q _ _ _ _ _ _ _ Hd) in E1 as (Hd1 & Hc1 & Hu1).
  rewrite <-paid_of_asset, Z.add_0_l in Hc1. assert (Ho : is_u64 out) by (apply Hu1; done). clear Hu1.
  destruct (add_asset_inputs _ _ _ _ _ _ _ _ _) as [[d2 xin]|] eqn:E2; [|done]. cbn [rbind].
  eapply add_asset_inputs_holds in E2 as (us' & Hd2 & Hp & Hi & Hc2 & Hx); [|exact Hd1].
  destruct (is_fee_asset fee a).
  { intros [= <- <-]. exists us', []. rewrite app_nil_r. split_and!; try done; try (by apply Forall_nil); cbn; lia. }
  destruct (Z.ltb_spec out xin) as [Hlt|Hge].
  - destruct (pay_change _ _ _ _) as [d3|] eqn:E3; [|done]. cbn [rbind].
    destruct (Z.ltb_spec xin out); [lia|]. intros [= <- <-].
    eapply pay_change_holds in E3 as (r & Hs & Hra & Hh); [|done].
    exists us', [r]. rewrite <-app_assoc in Hh. split_and!; try done; [by constructor|].
    rewrite paid_app, <-Hc1, <-Hc2. unfold paid, rworth. cbn [sum_map foldr].
    rewrite Hra, decide_True, Hs, Z.add_0_r, cong64_wrap_u64 by done. by replace (out + (xin - out)) with xin by lia.
  - cbn [rbind]. destruct (Z.ltb_spec xin out); [done|]. intros [= <- <-].
    exists us', []. rewrite app_nil_r. split_and!; try done; [by apply Forall_nil|].
    rewrite <-Hc1, <-Hc2. by replace out with xin by lia.
Qed.

Definition fee_part (fee : option (AssetId * Z)) (a : AssetId) (tot : Z * Z) : Z :=
  if is_fee_asset fee a then tot.1 - tot.2 else 0.

(** What the rounds over [l] add to a draft. *)
Record rounds_add (fee : option (AssetId * Z)) utxos chosen (l : list AssetId) (us : list item) (rs : list Recipient)
    (tot tot' : Z * Z) : Prop := mkRoundsAdd
  { ra_pool a : of_item a us ⊆+ (if decide (a ∈ l) then pool utxos chosen a else []);
    ra_paid : concat (map (fun a => of_asset rc_asset a (recipients b)) l) ⊆+ rs;
    ra_balance a : cong64 (total a us - paid a rs + fee_part fee a tot) (fee_part fee a tot');
    ra_fee fa rate : fee = Some (fa, rate) -> fa ∈ l ->
      is_u64 tot'.1 /\ is_u64 tot'.2 /\ cong64 tot'.2 (paid fa (of_asset rc_asset fa (recipients b)));
    ra_kept fa rate : fee = Some (fa, rate) -> fa ∉ l -> tot' = tot }.

Lemma rounds_add_nil fee utxos chosen tot : rounds_add fee utxos chosen [] [] [] tot tot.
Proof.
  split.
  - done.
  - done.
  - intros a. unfold total, paid. cbn [sum_map foldr]. by rewrite Z.sub_0_r, Z.add_0_l.
  - intros fa rate _ Hf. by apply elem_of_nil in Hf.
  - done.
Qed.

Lemma rounds_add_cons fee utxos chosen a0 l us1 ch us2 rs2 tot tot1 tot' :
  a0 ∉ l ->
  (forall fa rate, fee = Some (fa, rate) -> fa ∈ a0 :: l -> tot = (0, 0)) ->
  us1 ⊆+ pool utxos chosen a0 -> items_of a0 us1 -> pays_only a0 ch ->
  (if is_fee_asset fee a0
   then ch = [] /\ cong64 tot1.1 (total a0 us1) /\
      is_u64 tot1.1 /\ is_u64 tot1.2 /\ cong64 tot1.2 (paid a0 (of_asset rc_asset a0 (recipients b)))
   else tot1 = tot /\ cong64 (total a0 us1) (paid a0 (of_asset rc_asset a0 (recipients b) ++ ch))) ->
  rounds_add fee utxos chosen l us2 rs2 tot1 tot' ->
  rounds_add fee utxos chosen (a0 :: l) (us1 ++ us2) ((of_asset rc_asset a0 (recipients b) ++ ch) ++ rs2) tot tot'.
Proof.
  intros Hn Htot Hp Hi Hch Hcase [Rp Rr Rb Rf Rk].
  assert (Hpo : pays_only a0 (of_asset rc_asset a0 (recipients b) ++ ch)).
  { apply Forall_app. split; [apply of_asset_Forall|done]. }
  split.
  - intros a. rewrite of_item_app. specialize (Rp a). destruct (decide (a = a0)) as [->|Ha].
    + rewrite of_item_same by done. rewrite decide_False in Rp by done. apply submseteq_nil_r in Rp as ->.
      rewrite app_nil_r, decide_True by apply list_elem_of_here. done.
    + rewrite (of_item_other a0) by congruence. simpl.
      destruct (decide (a ∈ l)); [rewrite decide_True by (by right)|rewrite decide_False by (by rewrite elem_of_cons; intros [|])]; done.
  - cbn [map concat]. rewrite <-app_assoc. apply submseteq_app; [reflexivity|]. by apply submseteq_inserts_l.
  - intros a. rewrite total_app, paid_app. specialize (Rb a). rewrite <-Rb.
    destruct (decide (a = a0)) as [->|Ha].
    + unfold fee_part. destruct (is_fee_asset fee a0) eqn:Ef.
      * destruct Hcase as (-> & Hc1 & _ & _ & Hc2). rewrite app_nil_r.
        destruct fee as [[fa rate]|]; [|done]. apply bool_decide_eq_true in Ef as ->.
        rewrite (Htot _ _ eq_refl) by apply list_elem_of_here. cbn [fst snd]. rewrite Hc1, Hc2.
        match goal with |- cong64 ?x ?y => by replace x with y by lia end.
      * destruct Hcase as [-> Hc]. rewrite Hc. match goal with |- cong64 ?x ?y => by replace x with y by lia end.
    + rewrite (total_other a0), (paid_other a0) by done.
      replace (fee_part fee a tot1) with (fee_part fee a tot);
        [match goal with |- cong64 ?x ?y => by replace x with y by lia end|].
      unfold fee_part. destruct (is_fee_asset fee a) eqn:Ef; [|done].
      destruct fee as [[fa rate]|]; [|done]. apply bool_decide_eq_true in Ef as ->.
      cbn [is_fee_asset] in Hcase. rewrite bool_decide_false in Hcase by done. by destruct Hcase as [-> _].
  - intros fa rate -> [->|Hl]%elem_of_cons; [|by eapply Rf].
    cbn [is_fee_asset] in Hcase. rewrite bool_decide_true in Hcase by done.
    rewrite (Rk _ _ eq_refl Hn). destruct Hcase as (_ & _ & H1 & H2 & H3). done.
  - intros fa rate -> [Hne Hl]%not_elem_of_cons. rewrite (Rk _ _ eq_refl Hl).
    cbn [is_fee_asset] in Hcase. rewrite bool_decide_false in Hcase by done. by destruct Hcase as [-> _].
Qed.

Lemma asset_rounds_holds fee utxos chosen l d us rs tot d' tot' :
  NoDup l -> (forall fa rate, fee = Some (fa, rate) -> fa ∈ l -> tot = (0, 0)) ->
  holds Q d us rs -> asset_rounds st c w b utxos chosen fee l (d, tot) = Ok (d', tot') ->
  exists us' rs', holds Q d' (us ++ us') (rs ++ rs') /\ rounds_add fee utxos chosen l us' rs' tot tot'.
Proof.
  intros Hl. revert d us rs tot. induction Hl as [|a0 l Hn Hl IH]; intros d us rs tot Htot Hd; cbn [asset_rounds].
  - intros [= <- <-]. exists [], []. rewrite !app_nil_r. split; [done|apply rounds_add_nil].
  - destruct (asset_round _ _ _ _ _ _ _ _ _) as [[d1 tot1]|] eqn:E1; [|done]. cbn [rbind]. intros E2.
    eapply asset_round_holds in E1 as (us1 & ch & Hd1 & Hp & Hi & Hch & Hcase); [|done].
    eapply IH in E2 as (us2 & rs2 & Hd2 & Hr); [| |exact Hd1].
    + exists (us1 ++ us2), ((of_asset rc_asset a0 (recipients b) ++ ch) ++ rs2).
      rewrite (app_assoc us), (app_assoc rs). split; [done|]. by eapply rounds_add_cons.
    + intros fa rate -> Hfa. cbn [is_fee_asset] in Hcase. rewrite bool_decide_false in Hcase by (intros ->; done).
      destruct Hcase as [-> _]. eapply Htot; [done|by right].
Qed.
End inputs.

(** ** Issuances *)

(** What an input issues of an asset, as an asset and as a token. *)
Definition amount_of (a : AssetId) (x : AssetId) (n : option Z) : Z := if decide (x = a) then default 0 n else 0.
Definition issued (a : AssetId) (i : PsetInput) : Z :=
  match pset_issuance_ids i with
  | Some (x, t) => amount_of a x (issuance_value_amount i) + amount_of a t (issuance_inflation_keys i)
  | None => 0
  end.
Definition issues (a : AssetId) (p : PartiallySignedTransaction) : Z := sum_map (issued a) (inputs p).

Lemma unissued_nothing a i : unissued i -> issued a i = 0.
Proof.
  intros (H1 & H2 & _). unfold issued, amount_of. rewrite H1, H2.
  destruct (pset_issuance_ids i) as [[x t]|]; [|done]. by destruct (decide _), (decide _).
Qed.

Lemma unissued_issues a d us rs : holds unissued d us rs -> issues a (d_pset d) = 0.
Proof.
  intros [Hi _ _ _]. unfold issues. induction Hi as [|x i us' l [_ Hu] _ IH]; [done|].
  by rewrite sum_map_cons, IH, unissued_nothing.
Qed.

(** Replacing an input that issues nothing. *)
Lemma update_input_holds (f : PsetInput -> PsetInput) idx i0 d us rs :
  holds unissued d us rs -> inputs (d_pset d) !! idx = Some i0 ->
  (forall x, spends x i0 -> spends x (f i0)) ->
  holds (fun _ => True) (with_pset d (update_input idx f (d_pset d))) us rs /\
  forall a, issues a (update_input idx f (d_pset d)) = issued a (f i0).
Proof.
  intros Hd Hl Hf. assert (Hi := fun a => unissued_issues a _ _ _ Hd). destruct Hd as [Hin Ho Hs [Hc1 Hc2]].
  split; [split; cbn [with_pset d_pset inp_txout_sec update_input inputs outputs]; try done|].
  - apply Forall2_alter_r; [eapply Forall2_impl; [exact Hin|naive_solver]|].
    intros x i Hx Hi' [Hsp _]. simplify_eq. split; [auto|done].
  - split; cbn [with_pset update_input inputs outputs] in *; [|done]. by rewrite length_alter.
  - intros a. specialize (Hi a). unfold issues, update_input in *. cbn [inputs].
    apply take_drop_middle in Hl as Hm. apply lookup_lt_Some in Hl as Hlt.
    rewrite <-Hm in Hi |- *. rewrite sum_map_app, sum_map_cons in Hi.
    rewrite <-(length_take_le (inputs (d_pset d)) idx) at 1 by lia.
    rewrite alter_middle, sum_map_app, sum_map_cons.
    pose proof (Forall2_lookup_r _ _ _ _ _ Hin Hl) as (x & _ & _ & Hu).
    rewrite (unissued_nothing a i0) in Hi by done. lia.
Qed.

Lemma set_issuance_holds idx sa stk k d us rs a t d' :
  holds unissued d us rs -> set_issuance idx sa stk k d = Ok (a, t, d') ->
  holds (fun _ => True) d' us rs /\
  forall x, issues x (d_pset d') =
    amount_of x a (if 0 <? sa then Some sa else None) + amount_of x t (if 0 <? stk then Some stk else None).
Proof.
  intros Hd. unfold set_issuance. destruct (inputs (d_pset d) !! idx) as [i|] eqn:Ei; [|done]. cbn [ok_or rbind].
  match goal with |- rbind ?m _ = _ -> _ => destruct m as [h|]; [|done] end. cbn [rbind].
  match goal with |- context [pset_issuance_ids ?x] => set (i' := x) end.
  destruct (pset_issuance_ids i') as [[a0 t0]|] eqn:Eids; [|done]. cbn [ok_or rbind].
  match goal with |- rbind ?m _ = _ -> _ => destruct m as [p|] eqn:Ep; [|done] end. cbn [rbind].
  intros [= -> -> <-].
  assert (Hu : unissued i).
  { destruct Hd as [Hin _ _ _]. by pose proof (Forall2_lookup_r _ _ _ _ _ Hin Ei) as (x & _ & _ & Hu). }
  destruct (update_input_holds (fun _ => i') idx i d us rs Hd Ei) as [Hh Hiss].
  { intros x [H1 H2 H3]. unfold i', prevout in *. destruct i, (0 <? sa), (0 <? stk); done. }
  assert (Hp : inputs p = inputs (update_input idx (fun _ => i') (d_pset d)) /\
               outputs p = outputs (update_input idx (fun _ => i') (d_pset d)) /\
               tx_data (global p) = tx_data (global (update_input idx (fun _ => i') (d_pset d)))).
  { destruct k as [k|]; [destruct (contract_json k); [|done]|]; simpl in Ep; injection Ep as <-; done. }
  destruct Hp as (Hp1 & Hp2 & Hp3). split.
  - destruct Hh as [Hin Ho Hs [Hc1 Hc2]]. cbn [with_pset d_pset inp_txout_sec] in *.
    unfold n_inputs, n_outputs in *.
    split; cbn [with_pset d_pset inp_txout_sec]; rewrite ?Hp1, ?Hp2; try done.
    split; unfold n_inputs, n_outputs; by rewrite ?Hp1, ?Hp2, ?Hp3.
  - intros x. unfold issues in *. cbn [with_pset d_pset]. rewrite Hp1, Hiss. unfold issued. rewrite Eids.
    destruct Hu as (H1 & H2 & _). f_equal; f_equal; unfold i'; destruct i, (0 <? sa), (0 <? stk); cbn in *; congruence.
Qed.

Lemma from_entropy_some e : exists a, from_entropy e = Some a.
Proof. unfold from_entropy. rewrite fast_merkle_root_2. by eexists. Qed.
Lemma token_from_entropy_some e k : exists a, reissuance_token_from_entropy e k = Some a.
Proof. unfold reissuance_token_from_entropy. rewrite fast_merkle_root_2. by eexists. Qed.

Lemma set_reissuance_holds idx sa bf e d us rs d' a :
  holds unissued d us rs -> set_reissuance idx sa bf e d = Ok d' -> from_entropy e = Some a ->
  holds (fun _ => True) d' us rs /\
  (Forall (fun i => issuance_blinding_nonce i <> Some ZERO_TWEAK) (inputs (d_pset d')) ->
   forall x, issues x (d_pset d') = amount_of x a (Some sa)).
Proof.
  intros Hd. unfold set_reissuance. destruct (inputs (d_pset d) !! idx) as [i|] eqn:Ei; [|done]. cbn [ok_or rbind].
  intros [= <-] Ha.
  match goal with |- context [update_input idx ?g _] => set (f := g) end.
  destruct (update_input_holds f idx i d us rs Hd Ei) as [Hh Hiss].
  { intros x [H1 H2 H3]. unfold f, prevout in *. by destruct i. }
  split; [done|]. intros Hn x. cbn [with_pset d_pset] in *. rewrite Hiss.
  assert (Hbf : bf <> ZERO_TWEAK).
  { intros ->. eapply (Forall_lookup_1 _ _ idx (f i)) in Hn; [|unfold update_input; cbn [inputs]; by rewrite list_lookup_alter_eq, Ei].
    apply Hn. by destruct i. }
  assert (Hu : unissued i).
  { destruct Hd as [Hin _ _ _]. by pose proof (Forall2_lookup_r _ _ _ _ _ Hin Ei) as (y & _ & _ & Hu). }
  destruct Hu as (_ & Hk & Hcomm & _).
  destruct (token_from_entropy_some e (bool_decide (is_Some (issuance_value_comm (f i))))) as [t Ht].
  unfold issued.
  assert (Eids : pset_issuance_ids (f i) = Some (a, t)).
  { unfold pset_issuance_ids in *.
    replace (issuance_blinding_nonce (f i)) with (Some bf) by (by destruct i).
    replace (issuance_asset_entropy (f i)) with (Some e) by (by destruct i).
    change (default ZERO_TWEAK (Some bf)) with bf. change (default zero_hash (Some e)) with e.
    rewrite (bool_decide_false (bf = ZERO_TWEAK)) by done. cbn [mbind option_bind]. rewrite Ha. cbn [mbind option_bind]. by rewrite Ht. }
  rewrite Eids. replace (issuance_value_amount (f i)) with (Some sa) by (by destruct i).
  replace (issuance_inflation_keys (f i)) with (@None Z) by (by destruct i).
  rewrite <-(Z.add_0_r (amount_of x a (Some sa))) at 2. f_equal. unfold amount_of. by destruct (decide _).
Qed.

(** The entropy of an issuance gives its asset; that of a reissuance does not. *)
Lemma extract_issuance_entropy tx vin i x :
  extract_issuance tx vin i = Some x -> is_reissuance x = false ->
  from_entropy (is_entropy x) = Some (is_asset x).
Proof.
  unfold extract_issuance. destruct (generate_asset_entropy _ _) as [e|] eqn:Ee; [|done]. cbn [mbind option_bind].
  unfold issuance_ids, issuance_entropy.
  destruct (bool_decide_reflect (asset_blinding_nonce (asset_issuance i) = ZERO_TWEAK)) as [Hn|Hn].
  - rewrite Ee. cbn [mbind option_bind]. destruct (from_entropy e) as [a|] eqn:Ea; [|done]. cbn [mbind option_bind].
    destruct (reissuance_token_from_entropy _ _) as [t|]; [|done]. cbn [mbind option_bind].
    intros [= <-] _. done.
  - cbn [mbind option_bind]. destruct (from_entropy _) as [a|]; [|done]. cbn [mbind option_bind].
    destruct (reissuance_token_from_entropy _ _); [|done]. cbn [mbind option_bind]. intros [= <-]. cbn. done.
Qed.

Lemma extract_issuances_entropy tx l x :
  extract_issuances tx = Some l -> x ∈ l -> is_reissuance x = false -> from_entropy (is_entropy x) = Some (is_asset x).
Proof.
  unfold extract_issuances. intros Hm Hx Hr. apply mapM_Some in Hm.
  apply list_elem_of_lookup in Hx as [k Hk].
  destruct (Forall2_lookup_r _ _ _ _ _ Hm Hk) as ([vin i] & _ & Hi). by eapply extract_issuance_entropy.
Qed.

Lemma extract_issuances_fresh tx l x :
  Forall (fun i => asset_blinding_nonce (asset_issuance i) = ZERO_TWEAK) (input tx) ->
  extract_issuances tx = Some l -> x ∈ l -> is_reissuance x = false.
Proof.
  unfold extract_issuances. intros Hf Hm Hx. apply mapM_Some in Hm.
  apply list_elem_of_lookup in Hx as [k Hk].
  destruct (Forall2_lookup_r _ _ _ _ _ Hm Hk) as ([vin i] & Hv & Hi).
  apply list_elem_of_lookup_2, list_elem_of_In, filter_In in Hv as [Hv _].
  apply list_elem_of_In, elem_of_lookup_imap in Hv as (n & j & [= _ ->] & Hj).
  rewrite Forall_lookup in Hf. specialize (Hf _ _ Hj).
  unfold extract_issuance in Hi. destruct (generate_asset_entropy _ _); [|done]. cbn [mbind option_bind] in Hi.
  destruct (issuance_ids j) as [[a t]|]; [|done]. cbn [mbind option_bind] in Hi. injection Hi as <-. cbn.
  by rewrite bool_decide_true.
Qed.

(** The request refers to an issuance, if it reissues. *)
Definition fresh_issuance_tx (r : IssuanceRequest) : Prop :=
  match r with
  | RequestReissuance _ _ _ (Some tx) =>
      Forall (fun i => asset_blinding_nonce (asset_issuance i) = ZERO_TWEAK) (input tx)
  | _ => True
  end.

Definition nonzero_nonces (p : PartiallySignedTransaction) : Prop :=
  Forall (fun i => issuance_blinding_nonce i <> Some ZERO_TWEAK) (inputs p).

Section issuance.
Context {W : Type} (st : Store W) (c : Cache) (w : W) (b : TxBuilder).

Lemma wollet_issuance_entropy a x :
  wollet_issuance st c w a = Ok x -> from_entropy (is_entropy x) = Some a.
Proof.
  unfold wollet_issuance. destruct (wollet_ok _) as [txs|]; [|done]. cbn [rbind].
  destruct (mapM _ _) as [l|] eqn:El; [|done]. cbn [ok_or rbind].
  destruct (find _ _) as [y|] eqn:Ey; [|done]. cbn [ok_or]. intros [= ->].
  apply find_some in Ey as [Hin [Ha Hr]%andb_prop]. apply bool_decide_eq_true in Ha as <-.
  apply negb_true_iff in Hr. apply in_concat in Hin as (k & Hkl & Hk). rewrite <-!list_elem_of_In in *.
  apply mapM_Some in El. apply list_elem_of_lookup in Hkl as [n Hn].
  destruct (Forall2_lookup_r _ _ _ _ _ El Hn) as (tx & _ & Htx). by eapply extract_issuances_entropy.
Qed.

(** The token is spent already, or the wallet's first one is, and returned. *)
Lemma token_input_holds utxos token d us rs idx bf d' :
  holds unissued d us rs -> token_input st c w b utxos token d = Ok (idx, bf, d') ->
  exists us' rs', holds unissued d' (us ++ us') (rs ++ rs') /\ (forall a, total a us' = paid a rs') /\
    (us' = [] \/ exists u, us' = [utxo_item u] /\ u ∈ utxo_iter utxos /\ of_item (utxo_asset u) us = []).
Proof.
  intros Hd. unfold token_input. destruct (find _ _) as [[n u]|] eqn:Ef.
  { intros [= <- <- <-]. exists [], []. rewrite !app_nil_r. split_and!; [done..|by left]. }
  destruct (of_asset _ _ _) as [|u l] eqn:Eu; [done|].
  destruct (wallet_input _ _ _ _ _) as [[n d1]|] eqn:E1; [|done]. cbn [rbind].
  destruct (pay_change _ _ _ _) as [d2|] eqn:E2; [|done]. cbn [rbind]. intros [= <- <- <-].
  eapply (wallet_input_holds st c w b unissued (fun _ => id)) in E1 as [_ Hd1]; [|exact Hd].
  eapply pay_change_holds in E2 as (r & Hs & Ha & Hd2); [|exact Hd1].
  assert (Hu : u ∈ utxo_iter utxos /\ utxo_asset u = token).
  { assert (Hin : In u (of_asset utxo_asset token (utxo_iter utxos))) by (rewrite Eu; by left).
    apply filter_In in Hin as [Hin Hb]. apply bool_decide_eq_true in Hb. by rewrite list_elem_of_In. }
  destruct Hu as [Hu Hua].
  exists [utxo_item u], [r]. split_and!; [done| |].
  - intros a. unfold total, paid, worth, rworth. cbn [sum_map foldr utxo_item snd].
    change (sec_asset (wo_unblinded u)) with (utxo_asset u). rewrite Hua, Ha, Hs. done.
  - right. exists u. split_and!; [done..|]. rewrite Hua. destruct Hd as [_ _ Hsec _].
    unfold of_item, of_asset. apply filter_none. intros x Hx. apply bool_decide_eq_false_2. intros Hxa.
    apply list_elem_of_In, (list_elem_of_fmap_2 snd), list_elem_of_lookup in Hx as [k Hk].
    assert (Hin : In (k, x.2) (secret_iter (inp_txout_sec d))).
    { by rewrite <-list_elem_of_In, secret_iter_perm, elem_of_map_to_list, Hsec, lookup_map_seq_0. }
    apply (find_none _ _ Ef), bool_decide_eq_false in Hin. by apply Hin.
Qed.

Lemma paid_single x r : paid x [r] = amount_of x (rc_asset r) (Some (rc_satoshi r)).
Proof. unfold paid, rworth, amount_of. cbn [sum_map foldr]. rewrite Z.add_0_r. done. Qed.

Lemma pay_if_holds to sat a d us rs d' :
  holds (fun _ => True) d us rs -> (if 0 <? sat then pay_to c to sat a d else Ok d) = Ok d' ->
  exists rs', holds (fun _ => True) d' us (rs ++ rs') /\ inputs (d_pset d') = inputs (d_pset d) /\
    forall x, paid x rs' = amount_of x a (if 0 <? sat then Some sat else None).
Proof.
  intros Hd. destruct (0 <? sat).
  - intros E1. eapply pay_to_holds in E1 as (r & Hs & Ha & Hi & Hh); [|done].
    exists [r]. split_and!; [done..|]. intros x. by rewrite paid_single, Hs, Ha.
  - intros [= <-]. exists []. rewrite app_nil_r. split_and!; [done..|]. intros x. unfold amount_of, paid.
    by destruct (decide _).
Qed.

Lemma add_issuance_holds utxos d us rs d' :
  holds unissued d us rs -> add_issuance st c w b utxos d = Ok d' ->
  exists us' rs', holds (fun _ => True) d' (us ++ us') (rs ++ rs') /\
    (us' = [] \/ exists u, us' = [utxo_item u] /\ u ∈ utxo_iter utxos /\ of_item (utxo_asset u) us = []) /\
    (fresh_issuance_tx (issuance_request b) -> nonzero_nonces (d_pset d') ->
     forall a, total a us' + issues a (d_pset d') = paid a rs').
Proof.
  intros Hd. unfold add_issuance. destruct (issuance_request b) as [|sa ra sk rk k|a sa ra tx].
  - intros [= <-]. exists [], []. rewrite !app_nil_r. split_and!; [by eapply holds_weaken|by left|].
    intros _ _ a. rewrite (unissued_issues a _ _ _ Hd). reflexivity.
  - destruct (set_issuance _ _ _ _ _) as [[[a t] d1]|] eqn:E1; [|done]. cbn [rbind].
    eapply set_issuance_holds in E1 as [Hd1 Hi1]; [|done].
    match goal with |- rbind ?m _ = _ -> _ => destruct m as [d2|] eqn:E2; [|done] end. cbn [rbind]. intros E3.
    eapply pay_if_holds in E2 as (rs2 & Hd2 & Hin2 & Hp2); [|done].
    eapply pay_if_holds in E3 as (rs3 & Hd3 & Hin3 & Hp3); [|done].
    exists [], (rs2 ++ rs3). rewrite app_nil_r, app_assoc. split_and!; [done|by left|].
    intros _ _ x. unfold issues in *. by rewrite Hin3, Hin2, Hi1, paid_app, Hp2, Hp3.
  - match goal with |- rbind ?m _ = _ -> _ => destruct m as [x|] eqn:Ex; [|done] end. cbn [rbind].
    destruct (token_input _ _ _ _ _ _ _) as [[[idx bf] d1]|] eqn:E1; [|done]. cbn [rbind].
    destruct (set_reissuance _ _ _ _ _) as [d2|] eqn:E2; [|done]. cbn [rbind]. intros E3.
    eapply token_input_holds in E1 as (us1 & rs1 & Hd1 & Ht & Hus); [|done].
    destruct (from_entropy_some (is_entropy x)) as [a' Ha'].
    eapply set_reissuance_holds in E2 as [Hd2 Hi2]; [|done..].
    eapply pay_to_holds in E3 as (r & Hs & Hra & Hin & Hh); [|done].
    exists us1, (rs1 ++ [r]). rewrite app_assoc. split_and!; [done..|].
    intros Hf Hn y. unfold nonzero_nonces, issues in *. rewrite Hin in *. rewrite (Hi2 Hn), Ht, paid_app, paid_single, Hs, Hra.
    do 2 f_equal. enough (Some a' = Some a) by congruence. rewrite <-Ha'.
    destruct tx as [tx|]; [|by apply wollet_issuance_entropy in Ex].
    destruct (extract_issuances tx) as [l|] eqn:El; [|done]. cbn [ok_or rbind] in Ex.
    destruct (find _ l) as [z|] eqn:Ez; [|done]. injection Ex as ->.
    apply find_some in Ez as [Hz Hza]. apply bool_decide_eq_true in Hza as <-. apply list_elem_of_In in Hz.
    eapply extract_issuances_entropy; [done..|]. by eapply extract_issuances_fresh.
Qed.
End issuance.

(** ** All rounds *)

(** Partitioning by asset loses nothing. *)
Lemma of_asset_concat_cons {U} (f : U -> AssetId) u l (L : list AssetId) :
  NoDup L -> f u ∈ L ->
  concat (map (fun a => of_asset f a (u :: l)) L) ≡ₚ u :: concat (map (fun a => of_asset f a l) L).
Proof.
  intros HL. induction HL as [|a L Ha HL IH]; intros Hu; [by apply elem_of_nil in Hu|].
  cbn [map concat]. unfold of_asset at 1. cbn [List.filter]. case_bool_decide as Hfa.
  - simpl. constructor. apply Permutation_app; [done|]. clear IH Hu HL.
    induction L as [|a' L IH]; [done|]. cbn [map concat]. apply not_elem_of_cons in Ha as [Ha1 Ha2].
    unfold of_asset at 1. cbn [List.filter]. rewrite bool_decide_false by congruence. by rewrite (IH Ha2).
  - rewrite IH; [|apply elem_of_cons in Hu; naive_solver]. fold (of_asset f a l). by rewrite <-Permutation_middle.
Qed.

Lemma of_asset_concat {U} (f : U -> AssetId) l (L : list AssetId) :
  NoDup L -> Forall (fun u => f u ∈ L) l -> concat (map (fun a => of_asset f a l) L) ≡ₚ l.
Proof.
  intros HL. induction 1 as [|u l Hu _ IH]; [|by rewrite of_asset_concat_cons, IH].
  clear HL. by induction L.
Qed.

Section assemble.
Context {W : Type} (st : Store W) (c : Cache) (w : W) (b : TxBuilder).

Lemma round_assets_ok chosen s :
  round_assets b chosen = Ok s ->
  policy_of b ∉ s /\ Forall (fun r => rc_asset r ∈ asset_iter s ++ [policy_of b]) (recipients b) /\
  (forall fa rate, fee_in_asset b = Some (fa, rate) -> fa <> policy_of b /\ fa ∈ s).
Proof.
  unfold round_assets. intros Hs.
  match type of Hs with context [Ok ?x] => set (s0 := x) in Hs end.
  assert (Hfee : forall fa rate, fee_in_asset b = Some (fa, rate) -> fa <> policy_of b).
  { intros fa rate. unfold fee_in_asset. destruct (tb_fee_asset b) as [[fa' r']|]; [|done].
    case_bool_decide; [done|]. by intros [= -> ->]. }
  assert (Hs0 : s0 ⊆ s /\ (forall fa rate, fee_in_asset b = Some (fa, rate) -> fa ∈ s) /\ policy_of b ∉ s).
  { destruct (fee_in_asset b) as [[fa rate]|].
    - destruct (rate =? 0); [done|]. injection Hs as <-. specialize (Hfee _ _ eq_refl). split_and!; [set_solver| |set_solver].
      intros ? ? [= <- <-]. set_solver.
    - injection Hs as <-. split_and!; [done..|set_solver]. }
  destruct Hs0 as (Hsub & Hf & Hp). split_and!; [done| |intros; split; eauto].
  rewrite Forall_forall. intros r Hr. rewrite asset_iter_perm, elem_of_app, elem_of_elements, list_elem_of_singleton.
  destruct (decide (rc_asset r = policy_of b)) as [->|Hne]; [by right|left]. apply Hsub. unfold s0.
  apply elem_of_difference. split; [|by rewrite elem_of_singleton]. do 2 (apply elem_of_union; left).
  apply elem_of_list_to_set, list_elem_of_In, in_map, filter_In. rewrite <-list_elem_of_In. split; [done|].
  by apply bool_decide_eq_true_2.
Qed.

(** What [assemble] leaves. *)
Record assembled (d : Draft) (fee_tot policy_tot : Z * Z) utxos chosen (us : list item) (rs : list Recipient)
  : Prop := mkAssembled
  { as_candidates : candidates c b = Ok utxos;
    as_chosen : chosen_utxos b utxos = Ok chosen;
    as_holds : holds (fun _ => True) d us rs;
    as_paid : recipients b ⊆+ rs;
    as_spent a : of_item a us ⊆+ pool b utxos chosen a \/
                 exists u, of_item a us = [utxo_item u] /\ u ∈ utxo_iter utxos;
    as_books : fresh_issuance_tx (issuance_request b) -> nonzero_nonces (d_pset d) -> forall a,
      cong64 (total a us + issues a (d_pset d))
        (paid a rs + fee_part (fee_in_asset b) a fee_tot +
         (if decide (policy_of b = a) then policy_tot.1 - policy_tot.2 else 0));
    as_u64 : is_u64 policy_tot.1 /\ is_u64 policy_tot.2;
    as_fee fa rate : fee_in_asset b = Some (fa, rate) ->
      is_u64 fee_tot.1 /\ is_u64 fee_tot.2 /\
      cong64 fee_tot.2 (paid fa (of_asset rc_asset fa (recipients b))) }.

Lemma init_holds Q i e : holds Q (mkDraft (init_pset b) ∅ 0 i e) [] [].
Proof. split; [constructor|done..]. Qed.

Lemma assemble_holds d fee_tot policy_tot :
  assemble st c w b = Ok (d, fee_tot, policy_tot) ->
  exists utxos chosen us rs, assembled d fee_tot policy_tot utxos chosen us rs.
Proof.
  unfold assemble. destruct (candidates c b) as [utxos|] eqn:Ec; [|done]. cbn [rbind].
  destruct (chosen_utxos b utxos) as [chosen|] eqn:Eh; [|done]. cbn [rbind].
  destruct (round_assets b chosen) as [s|] eqn:Es; [|done]. cbn [rbind].
  apply round_assets_ok in Es as (Hpol & Hrec & Hfa).
  destruct (asset_rounds _ _ _ _ _ _ _ _ _) as [[d1 tot]|] eqn:E1; [|done]. cbn [rbind].
  assert (HL : NoDup (asset_iter s)) by (rewrite asset_iter_perm; apply NoDup_elements).
  eapply (asset_rounds_holds st c w b unissued (fun _ => id)) in E1 as (us1 & rs1 & Hd1 & [Rp Rr Rb Rf Rk]);
    [|done..|apply init_holds].
  destruct (add_recipients _ _ _) as [d2 so] eqn:E2.
  eapply (add_recipients_holds c unissued) in E2 as (Hd2 & Hc2 & Hu2); [|done].
  rewrite Z.add_0_l, <-paid_of_asset in Hc2.
  destruct (policy_inputs _ _ _ _ _ _ _) as [[d3 si]|] eqn:E3; [|done]. cbn [rbind].
  eapply (policy_inputs_holds st c w b unissued (fun _ => id)) in E3 as (us3 & Hd3 & Hp3 & Hi3 & Hc3 & Hx3); [|done].
  destruct (add_issuance _ _ _ _ _ _) as [d4|] eqn:E4; [|done]. cbn [rbind]. intros [= <- <- <-].
  eapply add_issuance_holds in E4 as (us4 & rs4 & Hd4 & Htok & Hbooks); [|done].
  cbn [app] in Hd4, Htok.
  assert (Hnp : policy_of b ∉ asset_iter s) by (by rewrite asset_iter_perm, elem_of_elements).
  eexists utxos, chosen, _, _. split; [done..|exact Hd4| | | | |].
  - apply submseteq_inserts_r.
    rewrite <-(of_asset_concat rc_asset (recipients b) (asset_iter s ++ [policy_of b])) at 1; [| |done].
    + rewrite map_app, concat_app. cbn [map concat]. rewrite app_nil_r. by apply submseteq_app.
    + apply NoDup_app. split_and!; [done| |apply NoDup_singleton]. intros a Ha ->%list_elem_of_singleton. done.
  - intros a. assert (H13 : of_item a (us1 ++ us3) ⊆+ pool b utxos chosen a).
    { rewrite of_item_app. specialize (Rp a). destruct (decide (a = policy_of b)) as [->|Ha].
      - rewrite decide_False in Rp by done. apply submseteq_nil_r in Rp as ->. by rewrite of_item_same.
      - rewrite (of_item_other (policy_of b) a us3), app_nil_r by done. destruct (decide _); [done|].
        apply submseteq_nil_r in Rp as ->. apply submseteq_nil_l. }
    rewrite of_item_app. destruct Htok as [->|(u & -> & Hu & Hn)]; [left; by rewrite app_nil_r|].
    destruct (decide (utxo_asset u = a)) as [<-|Ha].
    + right. exists u. split; [|done]. rewrite Hn. apply of_item_same. by constructor.
    + left. rewrite (of_item_other (utxo_asset u) a [utxo_item u]), app_nil_r; [done|by constructor|done].
  - intros Hf Hn a. specialize (Hbooks Hf Hn a). specialize (Rb a). rewrite !total_app, !paid_app.
    assert (Hz : fee_part (fee_in_asset b) a (0, 0) = 0) by (unfold fee_part; by destruct (is_fee_asset _ _)).
    rewrite Hz, Z.add_0_r in Rb. rewrite <-Rb. cbn [fst snd].
    assert (Hpo : cong64 (total a us3)
              (paid a (of_asset rc_asset (policy_of b) (recipients b)) + (if decide (policy_of b = a) then si - so else 0))).
    { destruct (decide (policy_of b = a)) as [<-|Ha].
      - rewrite <-Hc2, <-Hc3. by replace (so + (si - so)) with si by lia.
      - rewrite (total_other (policy_of b)), (paid_other (policy_of b)) by (done || apply of_asset_Forall). done. }
    destruct Hpo as [k Hk]. exists k. lia.
  - cbn [fst snd]. split; [done|by apply Hu2].
  - intros fa rate Hfe. destruct (Hfa _ _ Hfe) as [_ Hin]. eapply Rf; [done|].
    by rewrite asset_iter_perm, elem_of_elements.
Qed.
End assemble.

(** ** Change and fee *)

Definition with_amount (x : Z) (o : PsetOutput) : PsetOutput := o <| o_amount := Some x |>.

Definition out_worth (a : AssetId) (o : PsetOutput) : Z :=
  if decide (o_asset o = Some a) then default 0 (o_amount o) else 0.
Definition outs (a : AssetId) (p : PartiallySignedTransaction) : Z := sum_map (out_worth a) (outputs p).
Definition in_worth (a : AssetId) (i : PsetInput) : Z :=
  if decide (i_asset i = Some a) then default 0 (i_amount i) else 0.
Definition ins (a : AssetId) (p : PartiallySignedTransaction) : Z := sum_map (in_worth a) (inputs p).

Lemma out_worth_amount a x o b :
  o_asset o = Some b -> out_worth a (with_amount x o) = if decide (b = a) then x else 0.
Proof.
  intros Ho. unfold out_worth, with_amount. replace (o_asset (o <| o_amount := Some x |>)) with (Some b) by (by destruct o).
  replace (o_amount (o <| o_amount := Some x |>)) with (Some x) by (by destruct o).
  destruct (decide (b = a)) as [->|Hn]; [by rewrite decide_True|]. rewrite decide_False by congruence. done.
Qed.

Lemma out_worth_recipient a r : out_worth a (recipient_output r) = rworth a r.
Proof.
  unfold out_worth, rworth. replace (o_asset (recipient_output r)) with (Some (rc_asset r)) by done.
  destruct (decide (rc_asset r = a)) as [->|Hn]; [by rewrite decide_True|]. rewrite decide_False by congruence. done.
Qed.

Lemma outs_recipients a rs : sum_map (out_worth a) (map recipient_output rs) = paid a rs.
Proof. unfold paid. induction rs as [|r rs IH]; [done|]. cbn [map]. by rewrite !sum_map_cons, IH, out_worth_recipient. Qed.

Lemma ins_total a Q d us rs : holds Q d us rs -> ins a (d_pset d) = total a us.
Proof.
  intros [Hi _ _ _]. unfold ins, total. induction Hi as [|x i us' l [[_ Ha Hv] _] _ IH]; [done|].
  rewrite !sum_map_cons, IH. f_equal. unfold in_worth, worth. rewrite Ha, Hv.
  destruct (decide (sec_asset x.2 = a)) as [->|Hn]; [by rewrite decide_True|]. rewrite decide_False by congruence. done.
Qed.

Lemma set_amount_outputs l o k x p :
  outputs p = l ++ o :: k -> outputs (set_amount (length l) x p) = l ++ with_amount x o :: k.
Proof. intros Hp. unfold set_amount. cbn [outputs]. rewrite Hp. by apply alter_middle. Qed.

Lemma remove_output_outputs l o k p :
  outputs p = l ++ o :: k -> outputs (snd (remove_output (length l) p)) = l ++ k /\
  inputs (snd (remove_output (length l) p)) = inputs p.
Proof.
  intros Hp. unfold remove_output. rewrite Hp, list_lookup_middle by done. cbn [snd outputs inputs]. by rewrite delete_middle.
Qed.

Section change.
Context (c : Cache) (b : TxBuilder).

Lemma policy_change_holds d us rs si so d' idx :
  holds (fun _ => True) d us rs -> is_u64 si -> is_u64 so ->
  policy_change_output c b si so d = Ok (d', idx) ->
  inputs (d_pset d') = inputs (d_pset d) /\ inp_txout_sec d' = inp_txout_sec d /\
  exists ch, holds (fun _ => True) d' us (rs ++ ch) /\ pays_only policy_asset ch /\
    ((idx = None /\ ch = [] /\ si = so /\ fee_in_asset b <> None) \/
     (idx = Some (length rs) /\ length ch = 1%nat)).
Proof.
  intros Hd Hsi Hso. unfold policy_change_output. destruct (_ || _); [done|].
  assert (Hidx : forall d1 r, holds (fun _ => True) d1 us (rs ++ [r]) -> Some (n_outputs (d_pset d1) - 1)%nat = Some (length rs)).
  { intros d1 r [_ Ho _ [_ Hc]]. rewrite Hc, Ho, length_map, length_app. cbn [length]. f_equal. lia. }
  destruct (_ || is_none (fee_in_asset b)) eqn:Eo.
  - match goal with |- rbind ?m _ = _ -> _ => destruct m as [d1|] eqn:E1; [|done] end. cbn [rbind]. intros [= <- <-].
    destruct (drain_to b) as [to|].
    + unfold from_address in E1. destruct (address_script_pubkey to); [|done]. cbn [ok_or rbind] in E1.
      injection E1 as <-. split_and!; [done..|]. eexists [_]. split_and!; [by apply wallet_output_holds|by constructor|].
      right. split; [|done]. eapply Hidx. by apply wallet_output_holds.
    + assert (Hin : inputs (d_pset d1) = inputs (d_pset d) /\ inp_txout_sec d1 = inp_txout_sec d).
      { unfold pay_change in E1. destruct (addressee_inner _ _ _ _ _) as [[]|]; [|done]. by injection E1 as <-. }
      eapply pay_change_holds in E1
        as (r & Hs & Ha & Hh); [|done].
      destruct Hin. split_and!; [done..|]. exists [r]. split_and!; [done|by constructor|]. right. split; [|done]. by eapply Hidx.
  - intros [= <- <-]. split_and!; [done..|]. exists []. rewrite app_nil_r. split_and!; [done|by apply Forall_nil|].
    left. apply orb_false_elim in Eo as [Ez En]. split_and!; [done..| |by destruct (fee_in_asset b)].
    rewrite En in Ez. apply Z.ltb_ge in Ez. rewrite Z.sub_0_r in Ez. unfold wrap_u64 in Ez.
    rewrite Z.mod_mod in Ez by done.
    pose proof (Z.mod_pos_bound (si - so) 18446744073709551616).
    assert (Hz : (si - so) mod 18446744073709551616 = 0) by lia. apply Z.mod_divide in Hz as [k Hk]; [|done].
    assert (k = 0) by lia. lia.
Qed.

Lemma fee_change_holds d us rs fi fo d' idx fa :
  holds (fun _ => True) d us rs -> fee_change_output c b fi fo d = Ok (d', idx, fa) ->
  inputs (d_pset d') = inputs (d_pset d) /\ inp_txout_sec d' = inp_txout_sec d /\
  exists ch, holds (fun _ => True) d' us (rs ++ ch) /\ pays_only fa ch /\
    ((idx = None /\ ch = []) \/ (idx = Some (length rs) /\ length ch = 1%nat)) /\
    match fee_in_asset b with
    | Some (x, _) => fa = x /\ (idx = None -> fi = fo)
    | None => fa = policy_asset /\ idx = None
    end.
Proof.
  intros Hd. unfold fee_change_output. destruct (fee_in_asset b) as [[x rate]|].
  - destruct (Z.ltb_spec fi fo); [done|]. destruct (Z.ltb_spec 0 (fi - fo)).
    + destruct (pay_change _ _ _ _) as [d1|] eqn:E1; [|done]. cbn [rbind]. intros [= <- <- <-].
      assert (Hin : inputs (d_pset d1) = inputs (d_pset d) /\ inp_txout_sec d1 = inp_txout_sec d).
      { unfold pay_change in E1. destruct (addressee_inner _ _ _ _ _) as [[]|]; [|done]. by injection E1 as <-. }
      eapply pay_change_holds in E1 as (r & Hs & Ha & Hh); [|done].
      destruct Hin. split_and!; [done..|]. exists [r]. split_and!; [done|by constructor| |done..].
      right. split; [|done]. destruct Hh as [_ Ho _ [_ Hc]].
      rewrite Hc, Ho, length_map, length_app. cbn [length]. f_equal. lia.
    + intros [= <- <- <-]. split_and!; [done..|]. exists []. rewrite app_nil_r.
      split_and!; [done|by apply Forall_nil|by left|done|]. lia.
  - intros [= <- <- <-]. split_and!; [done..|]. exists []. rewrite app_nil_r.
    split_and!; [done|by apply Forall_nil|by left|done..].
Qed.

End change.

Lemma one_or_none {A} (l : list A) : length l = 1%nat -> exists x, l = [x].
Proof. destruct l as [|x [|]]; [done|by exists x|done]. Qed.

(** The fee in the policy asset: the change and the fee are what is left. *)
Lemma settle_policy_outputs fee si so rs r fo p p' :
  outputs p = map recipient_output (rs ++ [r]) ++ [fo] ->
  settle_policy fee si so (Some (length rs)) (length (rs ++ [r])) p = Ok p' ->
  inputs p' = inputs p /\
  outputs p' = map recipient_output rs ++
    [with_amount (wrap_u64 (wrap_u64 (si - so) - fee)) (recipient_output r); with_amount fee fo].
Proof.
  intros Hp. unfold settle_policy. destruct (_ <=? _); [done|]. intros [= <-]. split; [done|].
  rewrite map_app, <-app_assoc in Hp. cbn [map app] in Hp.
  cbn [set_amount_at]. rewrite <-(length_map recipient_output rs).
  apply (set_amount_outputs _ _ _ (wrap_u64 (wrap_u64 (si - so) - fee))) in Hp.
  replace (length (rs ++ [r])) with (length (map recipient_output rs ++ [with_amount (wrap_u64 (wrap_u64 (si - so) - fee)) (recipient_output r)]))
    by (rewrite !length_app, length_map; done).
  rewrite (app_assoc _ [_] [_] : _ ++ [_; fo] = _) in Hp.
  apply (set_amount_outputs _ _ _ fee) in Hp. by rewrite <-app_assoc in Hp.
Qed.

Definition is_at (idx : option nat) (n : nat) (ch : list Recipient) : Prop :=
  (idx = None /\ ch = []) \/ (idx = Some n /\ length ch = 1%nat).
Definition change_of (x : Z) (ch : list Recipient) : list PsetOutput := map (fun r => with_amount x (recipient_output r)) ch.

Lemma set_amount_at_outputs idx l ch k x p :
  is_at idx (length l) ch -> outputs p = l ++ map recipient_output ch ++ k ->
  outputs (set_amount_at idx x p) = l ++ change_of x ch ++ k /\ inputs (set_amount_at idx x p) = inputs p.
Proof.
  intros [[-> ->]|[-> [r ->]%one_or_none]] Hp; [done|]. cbn [map app set_amount_at] in *. split; [|done].
  by apply set_amount_outputs.
Qed.

Lemma settle_asset_outputs fa rate fee si so fi fo pidx fidx rs pc xc f p p' :
  is_at pidx (length rs) pc -> is_at fidx (length (rs ++ pc)) xc -> is_u64 fi ->
  outputs p = map recipient_output (rs ++ pc ++ xc) ++ [f] ->
  settle_asset fa rate fee si so fi fo pidx fidx (length (rs ++ pc ++ xc)) p = Ok p' ->
  inputs p' = inputs p /\
  exists xc' xa fx,
    outputs p' = map recipient_output rs ++ change_of (wrap_u64 (si - so)) pc ++ change_of xa xc' ++ [with_amount fx f] /\
    ((xc' = xc /\ length xc = 1%nat /\ cong64 (xa + fx) (fi - fo)) \/
     (xc' = [] /\ length xc = 1%nat /\ cong64 fx (fi - fo)) \/
     (xc' = [] /\ fidx = None /\ wrap_u64 (fo + fx) <= fi)).
Proof.
  intros Hpc Hxc Hfi Hp. unfold settle_asset. destruct (u64_max <=? _); [done|].
  set (fx := to_fee_asset fee rate + 1).
  destruct (Z.ltb_spec fi (wrap_u64 (fo + fx))) as [|Hge]; [done|].
  rewrite !map_app, <-!app_assoc in Hp.
  rewrite <-(length_map recipient_output rs) in Hpc.
  eapply (set_amount_at_outputs _ _ _ _ (wrap_u64 (si - so))) in Hp as [Hp1 Hi1]; [|exact Hpc].
  set (p1 := set_amount_at pidx (wrap_u64 (si - so)) p) in *.
  assert (Hl : length (rs ++ pc) = length (map recipient_output rs ++ change_of (wrap_u64 (si - so)) pc)).
  { unfold change_of. by rewrite !length_app, !length_map. }
  match goal with |- (if ?m then _ else _) = _ -> _ => destruct m; [|done] end. intros [= <-].
  set (xch := wrap_u64 (wrap_u64 (fi - fo) - fx)).
  assert (Hx : cong64 (xch + fx) (fi - fo)).
  { unfold xch. rewrite !cong64_wrap_u64. match goal with |- cong64 ?x ?y => by replace x with y by lia end. }
  rewrite app_assoc in Hp1.
  destruct Hxc as [[-> ->]|[-> [r ->]%one_or_none]].
  - split; [done|]. exists [], 0, fx. split; [|right; right; done].
    cbn [map app change_of] in *. rewrite app_nil_r, Hl, app_assoc. by apply set_amount_outputs.
  - cbn [map app] in Hp1. rewrite (app_assoc rs), length_app, Hl. cbn [length].
    replace (length _ + 1)%nat with (length ((map recipient_output rs ++ change_of (wrap_u64 (si - so)) pc) ++ [recipient_output r]))
      by (rewrite length_app; done).
    destruct (_ <? _).
    + split; [done|]. exists [r], xch, fx. split; [|left; done].
      apply (set_amount_outputs _ _ _ xch) in Hp1. rewrite (app_assoc _ [_] [_] : _ ++ [_; f] = _) in Hp1.
      apply (set_amount_outputs _ _ _ fx) in Hp1. rewrite <-!app_assoc in Hp1. cbn [change_of map].
      rewrite <-Hp1. do 2 f_equal. rewrite !length_app. cbn [length]. lia.
    + rewrite (app_assoc _ [_] [_] : _ ++ [_; f] = _) in Hp1.
      apply (set_amount_outputs _ _ _ (wrap_u64 (fx + xch))) in Hp1. rewrite <-(app_assoc _ [recipient_output r] [_]) in Hp1.
      eapply remove_output_outputs in Hp1 as [Ho Hi]. split; [rewrite Hi; done|].
      exists [], 0, (wrap_u64 (fx + xch)). split; [cbn [change_of map app]; by rewrite app_assoc|right; left].
      split_and!; [done..|]. by rewrite cong64_wrap_u64, Z.add_comm.
Qed.

(** ** The draft *)

Definition nonneg_outputs (p : PartiallySignedTransaction) : Prop :=
  Forall (fun o => 0 <= default 0 (o_amount o)) (outputs p).

Lemma out_worth_nonneg a p : nonneg_outputs p -> Forall (fun o => 0 <= out_worth a o) (outputs p).
Proof.
  intros Hp. eapply Forall_impl; [exact Hp|]. intros o Ho. unfold out_worth. by destruct (decide _).
Qed.

Lemma change_worth a x ch asset :
  pays_only asset ch ->
  sum_map (out_worth a) (change_of x ch) = if decide (asset = a) then x * zlen ch else 0.
Proof.
  intros Hch. induction Hch as [|r ch Hr _ IH]; [unfold zlen; cbn [length]; rewrite Z.mul_0_r; by destruct (decide _)|].
  unfold change_of in *. cbn [map]. rewrite sum_map_cons, IH, (out_worth_amount a x _ (rc_asset r)), Hr by done.
  unfold zlen. cbn [length]. destruct (decide _); lia.
Qed.

Section draft.
Context {W : Type} (st : Store W) (c : Cache) (w : W) (b : TxBuilder).

(** What follows the outputs of [assemble] is what was left of the fee and policy assets. *)
Definition tail_balanced (ft pt : Z * Z) (tail : list PsetOutput) (p : PartiallySignedTransaction) : Prop :=
  policy_of b = policy_asset -> nonneg_outputs p -> forall a, outs a p < 2 ^ 64 ->
  cong64 (sum_map (out_worth a) tail)
    (fee_part (fee_in_asset b) a ft + (if decide (policy_of b = a) then pt.1 - pt.2 else 0)).

Lemma policy_tail_balanced ft pt r fo fee p :
  fee_in_asset b = None -> rc_asset r = policy_asset -> o_asset fo = Some policy_asset ->
  tail_balanced ft pt
    [with_amount (wrap_u64 (wrap_u64 (pt.1 - pt.2) - fee)) (recipient_output r); with_amount fee fo] p.
Proof.
  intros Hf Hr Hfo Hpol _ a _. rewrite !sum_map_cons. cbn [sum_map foldr].
  rewrite (out_worth_amount a _ _ policy_asset), (out_worth_amount a _ _ policy_asset); [|done|by rewrite <-Hr].
  rewrite Hf, Hpol. unfold fee_part, is_fee_asset. destruct (decide (policy_asset = a)); [|reflexivity].
  rewrite !cong64_wrap_u64. match goal with |- cong64 ?x ?y => by replace x with y by lia end.
Qed.

Lemma asset_tail_balanced fa rate ft pt rs pc xc xc' (fidx : option nat) xa fx f p :
  fee_in_asset b = Some (fa, rate) -> pays_only policy_asset pc -> pays_only fa xc ->
  (pc = [] -> pt.1 = pt.2) -> (length pc <= 1)%nat -> o_asset f = Some fa ->
  is_u64 ft.1 -> is_u64 ft.2 -> cong64 ft.2 (paid fa (of_asset rc_asset fa (recipients b))) ->
  (fidx = None -> ft.1 = ft.2) -> recipients b ⊆+ rs ->
  outputs p = map recipient_output rs ++ change_of (wrap_u64 (pt.1 - pt.2)) pc ++ change_of xa xc' ++ [with_amount fx f] ->
  ((xc' = xc /\ length xc = 1%nat /\ cong64 (xa + fx) (ft.1 - ft.2)) \/
   (xc' = [] /\ length xc = 1%nat /\ cong64 fx (ft.1 - ft.2)) \/
   (xc' = [] /\ fidx = None /\ wrap_u64 (ft.2 + fx) <= ft.1)) ->
  tail_balanced ft pt (change_of (wrap_u64 (pt.1 - pt.2)) pc ++ change_of xa xc' ++ [with_amount fx f]) p.
Proof.
  intros Hf Hpc Hxc Hpt Hlen Hfo Hu1 Hu2 Hpaid Hfi Hrs Hout Hcase Hpol Hnn a Hlt.
  rewrite !sum_map_app, sum_map_cons, (out_worth_amount a fx f fa) by done. cbn [sum_map foldr].
  rewrite (change_worth a _ pc policy_asset) by done.
  rewrite (change_worth a _ xc' fa) by (by destruct Hcase as [(-> & _)|[(-> & _)|(-> & _)]]; [|apply Forall_nil..]).
  rewrite Hf, Hpol. unfold fee_part. cbn [is_fee_asset].
  assert (H1 : cong64 (if decide (policy_asset = a) then wrap_u64 (pt.1 - pt.2) * zlen pc else 0)
                 (if decide (policy_asset = a) then pt.1 - pt.2 else 0)).
  { destruct (decide _); [|done]. destruct pc as [|r [|]]; [|by rewrite Z.mul_1_r, cong64_wrap_u64|simpl in Hlen; lia].
    rewrite (Hpt eq_refl), Z.sub_diag. done. }
  rewrite H1, Z.add_comm. apply cong64_add; [|done].
  destruct (decide (fa = a)) as [Ha|Ha]; [rewrite (bool_decide_true (fa = a)) by done|by rewrite (bool_decide_false (fa = a))].
  destruct Hcase as [(-> & Hl & Hc)|[(-> & _ & Hc)|(-> & -> & Hle)]].
  - unfold zlen. by rewrite Hl, Z.mul_1_r, Z.add_0_r.
  - unfold zlen. cbn [length]. by rewrite Z.mul_0_r, Z.add_0_r.
  - unfold zlen. cbn [length]. rewrite Z.mul_0_r, Z.add_0_r.
    pose proof (out_worth_nonneg fa p Hnn) as Hw. subst a. unfold outs in Hlt.
    rewrite Hout in Hw, Hlt. rewrite !Forall_app in Hw. destruct Hw as (Hw1 & Hw2 & _ & Hw3).
    rewrite !sum_map_app, outs_recipients, sum_map_cons, (out_worth_amount fa fx f fa), decide_True in Hlt by done.
    apply Forall_inv in Hw3. cbn beta in Hw3. rewrite (out_worth_amount fa fx f fa), decide_True in Hw3 by done.
    assert (Hnr : Forall (fun r => 0 <= rworth fa r) rs).
    { rewrite Forall_map in Hw1. eapply Forall_impl; [exact Hw1|]. intros r. cbn beta. by rewrite out_worth_recipient. }
    assert (Hsub : of_asset rc_asset fa (recipients b) ⊆+ rs) by (by rewrite <-Hrs; apply filter_submseteq).
    assert (Hge : paid fa (of_asset rc_asset fa (recipients b)) <= paid fa rs).
    { by apply sum_map_submseteq. }
    assert (Hrest : 0 <= sum_map (out_worth fa) (change_of (wrap_u64 (pt.1 - pt.2)) pc)).
    { by apply sum_map_Forall_nonneg. }
    cbn [change_of map sum_map foldr] in Hlt.
    assert (Hf2 : ft.2 <= paid fa (of_asset rc_asset fa (recipients b))).
    { destruct Hpaid as [k Hk]. assert (0 <= paid fa (of_asset rc_asset fa (recipients b))); [|lia].
      apply sum_map_Forall_nonneg, Forall_forall. intros r Hr. rewrite Forall_forall in Hnr. apply Hnr.
      by eapply elem_of_submseteq. }
    rewrite wrap_u64_small in Hle by lia. rewrite (Hfi eq_refl) in Hle |- *. replace fx with 0 by lia.
    by rewrite Z.sub_diag.
Qed.

Lemma draft_shape p s :
  draft st c w b = Ok (p, s) ->
  exists d ft pt utxos chosen us rs tail,
    assembled c b d ft pt utxos chosen us rs /\ inputs p = inputs (d_pset d) /\
    outputs p = map recipient_output rs ++ tail /\ tail_balanced ft pt tail p.
Proof.
  unfold draft. destruct (assemble _ _ _ _) as [[[d [fi fo]] [si so]]|] eqn:Ea; [|done]. cbn [rbind].
  apply assemble_holds in Ea as (utxos & chosen & us & rs & Has).
  destruct (as_u64 _ _ _ _ _ _ _ _ _ Has) as [Hsi Hso]. pose proof (as_fee _ _ _ _ _ _ _ _ _ Has) as Hfee.
  destruct (policy_change_output _ _ _ _ _) as [[d1 pidx]|] eqn:E1; [|done]. cbn [rbind].
  apply (policy_change_holds c b _ us rs) in E1 as (Hi1 & _ & pc & Hd1 & Hpc & Hpidx);
    [|exact (as_holds _ _ _ _ _ _ _ _ _ Has)|done..].
  destruct (fee_change_output _ _ _ _ _) as [[[d2 fidx] fa]|] eqn:E2; [|done]. cbn [rbind].
  eapply fee_change_holds in E2 as (Hi2 & _ & xc & Hd2 & Hxc & Hfidx & Hfa); [|exact Hd1].
  rewrite <-app_assoc in Hd2.
  destruct (draft_weight _ _) as [wt|]; [|done]. cbn [rbind].
  set (f := new_explicit [] temp_fee fa None). set (p2 := add_output f (d_pset d2)).
  assert (Hout : outputs p2 = map recipient_output (rs ++ pc ++ xc) ++ [f]).
  { destruct Hd2 as [_ Ho _ _]. unfold p2. cbn [add_output outputs]. by rewrite Ho. }
  assert (Hidx : (n_outputs (d_pset (with_pset d2 p2)) - 1)%nat = length (rs ++ pc ++ xc)).
  { destruct Hd2 as [_ Ho _ [_ Hc]]. unfold p2, n_outputs in *. cbn [with_pset d_pset add_output global set_counts tx_data output_count].
    unfold n_outputs. rewrite Hc, Ho, length_map. lia. }
  assert (Hin2 : inputs p2 = inputs (d_pset d)) by (unfold p2; cbn [add_output inputs]; by rewrite Hi2, Hi1).
  fold p2. rewrite Hidx. cbn [with_pset d_pset inp_txout_sec].
  destruct (fee_in_asset b) as [[x rate]|] eqn:Ef.
  - destruct Hfa as [-> Hnone]. destruct (Hfee _ _ eq_refl) as (Hu1 & Hu2 & Hpaid).
    destruct (settle_asset _ _ _ _ _ _ _ _ _ _ _) as [p3|] eqn:E3; [|done]. cbn [rbind]. intros [= <- <-].
    assert (Hat : is_at pidx (length rs) pc) by (destruct Hpidx as [(? & ? & _)|?]; [by left|by right]).
    apply (settle_asset_outputs _ _ _ _ _ _ _ _ _ rs pc xc f p2 p3 Hat Hfidx Hu1 Hout) in E3
      as (Hi3 & xc' & xa & fx & Ho3 & Hcase).
    exists d, (fi, fo), (si, so), utxos, chosen, us, rs. eexists. split_and!; [done|by rewrite Hi3|exact Ho3|].
    eapply (asset_tail_balanced x rate (fi, fo) (si, so) rs pc xc xc' fidx); try done.
    + cbn [fst snd]. intros ->. by destruct Hpidx as [(_ & _ & ? & _)|[_ ?]].
    + destruct Hpidx as [(_ & -> & _)|[_ ->]]; cbn; lia.
    + exact (as_paid _ _ _ _ _ _ _ _ _ Has).
  - destruct Hfa as [-> ->]. destruct Hpidx as [(_ & _ & _ & ?)|[-> [r ->]%one_or_none]]; [done|].
    destruct Hfidx as [[_ ->]|[? _]]; [|done]. rewrite app_nil_r in *.
    destruct (settle_policy _ _ _ _ _ _) as [p3|] eqn:E3; [|done]. cbn [rbind]. intros [= <- <-].
    eapply settle_policy_outputs in E3 as [Hi3 Ho3]; [|done].
    exists d, (fi, fo), (si, so), utxos, chosen, us, rs. eexists. split_and!; [done|by rewrite Hi3|exact Ho3|].
    apply (policy_tail_balanced (fi, fo) (si, so)); [done|by apply Forall_inv in Hpc|done].
Qed.

(** ** Nothing is spent twice *)

Lemma NoDup_of_item us : (forall a, NoDup (of_item a us)) -> NoDup us.
Proof.
  induction us as [|x us IH]; intros Hn; [constructor|].
  assert (Hx := Hn (sec_asset x.2)). unfold of_item, of_asset in Hx. cbn [List.filter] in Hx.
  rewrite bool_decide_true, NoDup_cons in Hx by done. destruct Hx as [Hx _]. apply NoDup_cons. split.
  - intros Hin. apply Hx, list_elem_of_In, filter_In. rewrite <-list_elem_of_In. split; [done|by apply bool_decide_eq_true_2].
  - apply IH. intros a. specialize (Hn a). unfold of_item, of_asset in *. cbn [List.filter] in Hn.
    case_bool_decide; [|done]. by apply NoDup_cons in Hn as [_ Hn].
Qed.

Lemma keys_determine (l : list item) x y : NoDup l.*1 -> x ∈ l -> y ∈ l -> x.1 = y.1 -> x = y.
Proof.
  intros Hl [i Hi]%list_elem_of_lookup [j Hj]%list_elem_of_lookup Hxy.
  assert (i = j) as ->; [|congruence].
  eapply (NoDup_lookup _ _ _ x.1); [done|by rewrite list_lookup_fmap, Hi|by rewrite list_lookup_fmap, Hj, Hxy].
Qed.

Lemma of_asset_map {U V} (f : U -> AssetId) (g : V -> AssetId) (m : U -> V) a l :
  (forall u, g (m u) = f u) -> map m (of_asset f a l) = of_asset g a (map m l).
Proof.
  intros Hg. unfold of_asset. induction l as [|u l IH]; [done|]. cbn [map List.filter]. rewrite Hg.
  case_bool_decide; cbn [map]; by rewrite IH.
Qed.

Lemma deletes_lookup {U V} (f : U -> OutPoint) (l : list U) (m : gmap OutPoint V) k v :
  foldl (fun m x => delete (f x) m) m l !! k = Some v -> k ∉ map f l /\ m !! k = Some v.
Proof.
  revert m. induction l as [|o l IH]; intros m; cbn [foldl]; [intros ?; split; [apply not_elem_of_nil|done]|].
  intros [Hk Hm]%IH. apply lookup_delete_Some in Hm as [Hne Hm]. split; [|done]. cbn [map]. by apply not_elem_of_cons.
Qed.

Lemma candidates_ok utxos k u :
  candidates c b = Ok utxos -> utxos !! k = Some u ->
  wo_outpoint u = k /\ k ∉ map eu_outpoint (external_utxos b) /\ k ∉ tb_avoid_utxos b /\
  exists l, utxos_inner c = Ok l /\ u ∈ l.
Proof.
  unfold candidates, utxos_map. destruct (utxos_inner c) as [l|]; [|done]. cbn [rbind wollet_ok].
  intros [= <-] Hk. apply (deletes_lookup id) in Hk as [Hav Hk]. apply (deletes_lookup eu_outpoint) in Hk as [Hext Hk].
  rewrite map_id in Hav. apply lookup_extend_empty, list_elem_of_fmap in Hk as (x & [= -> ->] & Hx).
  split_and!; [done..|]. by exists l.
Qed.

(** Everything that could be spent, each outpoint once. *)
Definition spendable_items (utxos : gmap OutPoint WalletTxOut) : list item :=
  map ext_item (external_utxos b) ++ map utxo_item (utxo_iter utxos).

Lemma pool_spendable utxos chosen a :
  selected_utxos b = None -> pool b utxos chosen a = of_item a (spendable_items utxos).
Proof.
  intros Hs. unfold pool, spendable_items. rewrite of_item_app, Hs. unfold of_item.
  rewrite <-(of_asset_map ext_asset (fun x : item => sec_asset x.2) ext_item) by done.
  by rewrite <-(of_asset_map utxo_asset (fun x : item => sec_asset x.2) utxo_item).
Qed.

Lemma spent_is_spendable d ft pt utxos chosen us rs :
  selected_utxos b = None -> assembled c b d ft pt utxos chosen us rs ->
  (forall y, y ∈ us -> y ∈ spendable_items utxos) /\ forall a, of_item a us ⊆+ of_item a (spendable_items utxos).
Proof.
  intros Hsel Has. assert (Hsub : forall a, of_item a us ⊆+ of_item a (spendable_items utxos)).
  { intros a. destruct (as_spent _ _ _ _ _ _ _ _ _ Has a) as [Hp|(u & Hu & Hin)].
    - by rewrite <-(pool_spendable utxos chosen).
    - assert (Ha : sec_asset (utxo_item u).2 = a).
      { assert (Hf : items_of a (of_item a us)) by apply of_asset_Forall. rewrite Hu in Hf. by apply Forall_inv in Hf. }
      rewrite Hu. apply singleton_submseteq_l, list_elem_of_In, filter_In. rewrite <-list_elem_of_In.
      split; [|by apply bool_decide_eq_true_2]. apply elem_of_app. right. by apply list_elem_of_fmap_2. }
  split; [|done]. intros y Hy. specialize (Hsub (sec_asset y.2)).
  assert (Hy' : y ∈ of_item (sec_asset y.2) us).
  { apply list_elem_of_In, filter_In. rewrite <-list_elem_of_In. split; [done|by apply bool_decide_eq_true_2]. }
  eapply elem_of_submseteq in Hy'; [|exact Hsub]. apply list_elem_of_In, filter_In in Hy' as [Hy' _].
  by apply list_elem_of_In.
Qed.

Lemma spendable_once utxos :
  candidates c b = Ok utxos -> NoDup (map eu_outpoint (external_utxos b)) -> NoDup (spendable_items utxos).*1.
Proof.
  intros Hc He. unfold spendable_items. rewrite fmap_app.
  assert (Hw : map wo_outpoint (utxo_iter utxos) ≡ₚ (map_to_list utxos).*1).
  { rewrite utxo_iter_perm. rewrite <-list_fmap_compose. apply reflexive_eq, list_fmap_ext.
    intros n [k u] Hk. apply list_elem_of_lookup_2, elem_of_map_to_list in Hk.
    by destruct (candidates_ok _ _ _ Hc Hk) as [<- _]. }
  replace ((map ext_item (external_utxos b)).*1) with (map eu_outpoint (external_utxos b))
    by (rewrite <-list_fmap_compose; done).
  replace ((map utxo_item (utxo_iter utxos)).*1) with (map wo_outpoint (utxo_iter utxos))
    by (rewrite <-list_fmap_compose; done).
  apply NoDup_app. split_and!; [done| |rewrite Hw; apply NoDup_fst_map_to_list].
  intros o Ho. rewrite Hw. intros ([k u] & -> & Hk%elem_of_map_to_list)%list_elem_of_fmap.
  by destruct (candidates_ok _ _ _ Hc Hk) as (_ & Hn & _).
Qed.
End draft.

(** ** Blinding and details keep the terms *)

(** What a PSET spends, issues and pays. *)
Definition in_terms (i : PsetInput) :=
  (prevout i, i_asset i, i_amount i, issuance_value_amount i, issuance_inflation_keys i,
   issuance_value_comm i, issuance_blinding_nonce i, issuance_asset_entropy i).
Definition out_terms (o : PsetOutput) := (o_script_pubkey o, o_amount o, o_asset o, blinding_key o).
Definition same_terms (p q : PartiallySignedTransaction) : Prop :=
  map in_terms (inputs p) = map in_terms (inputs q) /\ map out_terms (outputs p) = map out_terms (outputs q).

#[export] Instance same_terms_equiv : Equivalence same_terms.
Proof. split; [done|by intros p q []|]. intros p q r [H1 H2] [H3 H4]. split; congruence. Qed.

(** What the libraries keep: blinding adds commitments and proofs beside the amounts, a PSET
    that is written and read again is the same, and descriptors add derivations. *)
Class BuilderLaws : Prop :=
  { blind_last26_keeps p s q x : blind_last26 p s = Some (q, x) -> same_terms q p;
    read26_keeps p q : read26 p = Some q -> same_terms q p;
    read25_keeps p q : read25 p = Some q -> same_terms q p;
    describe_input_keeps k i j : describe_input k i = Ok j -> in_terms j = in_terms i;
    describe_output_keeps k i j : describe_output k i = Ok j -> out_terms j = out_terms i }.

Section finish.
Context {W : Type} (st : Store W) (c : Cache) (w : W) (b : TxBuilder).

Lemma map_inputs_terms f p : (forall i, in_terms (f i) = in_terms i) -> same_terms (map_inputs f p) p.
Proof. intros Hf. split; [|done]. cbn [map_inputs inputs]. rewrite map_map. by apply map_ext. Qed.

Lemma rmapM_terms {X Y} (f : X -> result X build_error) (t : X -> Y) l l' :
  (forall x y, f x = Ok y -> t y = t x) -> rmapM f l = Ok l' -> map t l' = map t l.
Proof. intros Hf Hl%rmapM_ok. induction Hl as [|x y l l' Hx _ IH]; [done|]. cbn [map]. by rewrite (Hf _ _ Hx), IH. Qed.

Lemma if_mine_terms {X Y} (t : X -> Y) s g (x y : X) :
  (forall k x y, g k x = Ok y -> t y = t x) -> if_mine c s g x = Ok y -> t y = t x.
Proof.
  intros Hg. unfold if_mine. destruct (Wollet.index c s) as [i|[]]; try done; [|by intros [= ->]].
  destruct (g i x) eqn:E1; [|done]. intros [= ->]. by eapply Hg.
Qed.

Lemma add_details_terms `{!BuilderLaws} p q : add_details c p = Ok q -> same_terms q p.
Proof.
  unfold add_details. destruct spk_count; [by intros [= ->]|].
  destruct (rmapM (input_details c) _) as [li|] eqn:E1; [|done]. cbn [rbind].
  destruct (rmapM (output_details c) _) as [lo|] eqn:E2; [|done]. cbn [rbind]. intros [= <-]. split.
  - eapply rmapM_terms; [|exact E1]. intros i j. unfold input_details. destruct (witness_utxo i); [|by intros [= ->]].
    apply if_mine_terms, describe_input_keeps.
  - eapply rmapM_terms; [|exact E2]. intros i j. apply if_mine_terms, describe_output_keeps.
Qed.

Lemma finish_inner_terms `{!BuilderLaws} t :
  finish_inner st c w b = Ok t -> exists q s, draft st c w b = Ok (q, s) /\ same_terms (bt_pset t) q.
Proof.
  unfold finish_inner. destruct (draft _ _ _ _) as [[q s]|]; [|done]. cbn [rbind].
  destruct (read26 q) as [p1|] eqn:E1; [|done]. cbn [ok_or rbind].
  match goal with |- rbind ?m _ = _ -> _ => destruct m as [[p2 x2]|] eqn:E2; [|done] end. cbn [rbind].
  destruct (read25 _) as [p3|] eqn:E3; [|done]. cbn [ok_or rbind].
  destruct (add_details _ _) as [p4|] eqn:E4; [|done]. cbn [rbind]. intros [= <-]. cbn [bt_pset]. exists q, s. split; [done|].
  apply read26_keeps in E1. apply read25_keeps in E3. apply add_details_terms in E4.
  assert (H2 : same_terms p2 p1).
  { destruct (existsb _ _); [|by injection E2 as ->]. destruct (blind_last26 p1 s) as [[]|] eqn:Eb; [|done].
    injection E2 as -> ->. by eapply blind_last26_keeps. }
  transitivity p4; [destruct (tb_enable_rbf b); [|done]; apply map_inputs_terms; by intros []|].
  rewrite E4, E3, <-E1, <-H2. apply map_inputs_terms. intros i. unfold erase_proofs. by destruct (non_witness_utxo i), i.
Qed.

Lemma finish_terms `{!BuilderLaws} p :
  finish st c w b = Ok p -> exists q s, draft st c w b = Ok (q, s) /\ same_terms p q.
Proof.
  unfold finish. destruct (finish_inner _ _ _ _) as [t|] eqn:Et; [|done]. cbn [rbind]. intros [= <-].
  by apply finish_inner_terms.
Qed.
End finish.

(** The totals depend on the terms only. *)
Lemma terms_sum {X Y} (t : X -> Y) (f : X -> Z) l l' :
  (forall x y, t x = t y -> f x = f y) -> map t l = map t l' -> sum_map f l = sum_map f l'.
Proof.
  intros Hf. revert l'. induction l as [|x l IH]; intros [|y l']; try done. cbn [map]. intros [= Hxy Hl].
  by rewrite !sum_map_cons, (Hf _ _ Hxy), (IH _ Hl).
Qed.

Lemma same_terms_totals p q a :
  same_terms p q -> ins a p = ins a q /\ issues a p = issues a q /\ outs a p = outs a q.
Proof.
  intros [Hi Ho]. split_and!.
  - eapply terms_sum; [|exact Hi]. intros i j [= _ _ Ha Hv _ _ _ _ _]. unfold in_worth. by rewrite Ha, Hv.
  - eapply terms_sum; [|exact Hi]. intros i j [= Hp1 Hp2 _ _ H1 H2 H3 H4 H5]. unfold issued, pset_issuance_ids.
    by rewrite Hp1, Hp2, H1, H2, H3, H4, H5.
  - eapply terms_sum; [|exact Ho]. intros i j [= _ Hv Ha _]. unfold out_worth. by rewrite Ha, Hv.
Qed.

Lemma same_terms_Forall {X Y} (t : X -> Y) (R : X -> Prop) l l' :
  (forall x y, t x = t y -> R x -> R y) -> map t l = map t l' -> Forall R l -> Forall R l'.
Proof.
  intros Hf. revert l'. induction l as [|x l IH]; intros [|y l']; try done. cbn [map]. intros [= Hxy Hl] [Hx HF]%Forall_cons.
  constructor; [by eapply Hf|auto].
Qed.

(** ** The theorems *)

Section theorems.
Context {BL : BuilderLaws} {W : Type} (st : Store W) (c : Cache) (w : W) (b : TxBuilder).

(** C3: The books of a transaction of the builder balance: for every asset, what its inputs hold
    and issue is what its outputs pay, fee included, as long as neither side reaches [2 ^ 64];
    provided that the policy asset of the builder is the wallet's, a reissuance refers to an
    issuance and its token is confidential (its blinding factor is not zero). *)
Theorem built_tx_balances p a :
  finish st c w b = Ok p ->
  policy_of b = policy_asset -> fresh_issuance_tx (issuance_request b) -> nonzero_nonces p ->
  nonneg_outputs p -> 0 <= ins a p + issues a p < 2 ^ 64 -> outs a p < 2 ^ 64 ->
  ins a p + issues a p = outs a p.
Proof.
  intros Hfin Hpol Hfresh Hnn Hno Hin Hout. destruct (finish_terms _ _ _ _ _ Hfin) as (q & s & Hd & Ht).
  destruct (draft_shape _ _ _ _ _ _ Hd) as (d & ft & pt & utxos & chosen & us & rs & tail & Has & Hi & Ho & Htail).
  assert (Hnn' : nonzero_nonces q).
  { destruct Ht as [Hti _]. eapply same_terms_Forall; [|exact Hti|exact Hnn].
    intros i j [= _ _ _ _ _ _ _ Hij _]. by rewrite Hij. }
  assert (Hno' : nonneg_outputs q).
  { destruct Ht as [_ Hto]. eapply same_terms_Forall; [|exact Hto|exact Hno].
    intros i j [= _ Hij _ _]. by rewrite Hij. }
  destruct (same_terms_totals p q a Ht) as (E1 & E2 & E3). rewrite E1, E2, E3 in *.
  apply cong64_exact; [done| |].
  { split; [|done]. by apply sum_map_Forall_nonneg, out_worth_nonneg. }
  specialize (Htail Hpol Hno' a Hout).
  unfold nonzero_nonces, ins, issues in *. rewrite Hi in *.
  fold (ins a (d_pset d)). rewrite (ins_total a _ _ _ _ (as_holds _ _ _ _ _ _ _ _ _ Has)).
  pose proof (as_books _ _ _ _ _ _ _ _ _ Has Hfresh Hnn' a) as Hb. unfold issues in Hb. rewrite Hb.
  unfold outs. rewrite Ho, sum_map_app, outs_recipients, Htail.
  match goal with |- cong64 ?x ?y => by replace x with y by lia end.
Qed.

(** C4: Every recipient gets an output of its own, with its script, amount, asset and blinding
    key, whatever the change, the fee and the order of the assets. *)
Theorem built_tx_pays_recipients p :
  finish st c w b = Ok p ->
  map (fun r => (rc_script_pubkey r, Some (rc_satoshi r), Some (rc_asset r),
                 (fun k => mkBtcPk k true) <$> rc_blinding_pubkey r)) (recipients b)
    ⊆+ map out_terms (outputs p).
Proof.
  intros Hfin. destruct (finish_terms _ _ _ _ _ Hfin) as (q & s & Hd & _ & Ht). rewrite Ht.
  destruct (draft_shape _ _ _ _ _ _ Hd) as (d & ft & pt & utxos & chosen & us & rs & tail & Has & _ & -> & _).
  rewrite map_app, map_map. apply submseteq_inserts_r. apply fmap_submseteq. exact (as_paid _ _ _ _ _ _ _ _ _ Has).
Qed.

(** C5: Unless coins are selected by hand or external outputs repeat, no output is spent twice;
    the inputs are external outputs and unspent outputs of the wallet that are not to be
    avoided. *)
Theorem built_tx_spends_once p :
  finish st c w b = Ok p -> selected_utxos b = None -> NoDup (map eu_outpoint (external_utxos b)) ->
  NoDup (map prevout (inputs p)) /\
  forall o, o ∈ map prevout (inputs p) ->
    o ∈ map eu_outpoint (external_utxos b) \/
    (o ∉ tb_avoid_utxos b /\ exists l u, utxos_inner c = Ok l /\ u ∈ l /\ wo_outpoint u = o).
Proof.
  intros Hfin Hsel Hext. destruct (finish_terms _ _ _ _ _ Hfin) as (q & s & Hd & Ht & _).
  destruct (draft_shape _ _ _ _ _ _ Hd) as (d & ft & pt & utxos & chosen & us & rs & tail & Has & Hi & _).
  assert (Hpre : map prevout (inputs p) = us.*1).
  { apply (f_equal (map (fun t => t.1.1.1.1.1.1.1))) in Ht. rewrite !map_map in Ht.
    etransitivity; [exact Ht|]. rewrite Hi. destruct (as_holds _ _ _ _ _ _ _ _ _ Has) as [Hin _ _ _].
    clear -Hin. induction Hin as [|y i us l [[Hy _ _] _] _ IH]; [done|]. cbn [map fmap list_fmap in_terms fst]. by rewrite Hy, <-IH. }
  rewrite Hpre. pose proof (as_candidates _ _ _ _ _ _ _ _ _ Has) as Hc.
  pose proof (spendable_once st c w b utxos Hc Hext) as Hall.
  apply (spent_is_spendable st c w b d ft pt utxos chosen us rs Hsel) in Has as [Hmem Hitem].
  split.
  - apply NoDup_fmap_2_strong; [|apply (NoDup_of_item st c w b); intros a; eapply submseteq_NoDup_l; [exact (Hitem a)|]; apply NoDup_filter_bool, (NoDup_fmap_1 fst), Hall].
    intros y z Hy Hz. eapply (keys_determine st c w b); eauto.
  - intros o (y & -> & Hy%Hmem)%list_elem_of_fmap. unfold spendable_items in Hy.
    apply elem_of_app in Hy as [(u & -> & Hu)%list_elem_of_fmap|(u & -> & Hu)%list_elem_of_fmap].
    + left. apply list_elem_of_fmap. by exists u.
    + right. rewrite utxo_iter_perm in Hu. apply list_elem_of_fmap in Hu as ([k u'] & -> & Hk%elem_of_map_to_list).
      destruct (candidates_ok st c w b _ _ _ Hc Hk) as (<- & _ & Hav & l & Hl & Hu). split; [done|]. by exists l, u'.
Qed.

(** A reissuance whose token is explicit has a zero nonce: the input is a new issuance, of an
    asset of its own and not of the one that was to be reissued. *)
Theorem explicit_token_issues_anew idx sa e d d' :
  set_reissuance idx sa ZERO_TWEAK e d = Ok d' ->
  exists i, inputs (d_pset d') !! idx = Some i /\
    asset_blinding_nonce (asset_issuance (extract_input i)) = ZERO_TWEAK /\
    fst <$> pset_issuance_ids i = (e' ← generate_asset_entropy (prevout i) e; from_entropy e').
Proof.
  unfold set_reissuance. destruct (inputs (d_pset d) !! idx) as [i|] eqn:Ei; [|done]. cbn [ok_or rbind]. intros [= <-].
  match goal with |- context [update_input idx ?g _] => set (f := g) end.
  cbn [with_pset d_pset update_input inputs]. rewrite list_lookup_alter_eq, Ei. exists (f i).
  split; [done|]. split; [by destruct i|]. unfold pset_issuance_ids, prevout.
  replace (issuance_blinding_nonce (f i)) with (Some ZERO_TWEAK) by (by destruct i).
  replace (issuance_asset_entropy (f i)) with (Some e) by (by destruct i).
  change (default ZERO_TWEAK (Some ZERO_TWEAK)) with ZERO_TWEAK. change (default zero_hash (Some e)) with e.
  rewrite (bool_decide_true (ZERO_TWEAK = ZERO_TWEAK)) by done.
  destruct (generate_asset_entropy _ _) as [e'|]; [|done]. cbn [mbind option_bind].
  destruct (from_entropy_some e') as [a ->]. cbn [mbind option_bind].
  match goal with |- context [reissuance_token_from_entropy e' ?k] => destruct (token_from_entropy_some e' k) as [t ->] end.
  done.
Qed.

(** The entropy that is extracted from a reissuance is not the one that its input states but a
    hash of it, so that an asset cannot be reissued from there. *)
Theorem reissuance_entropy_hashed tx vin i y :
  asset_blinding_nonce (asset_issuance i) <> ZERO_TWEAK -> extract_issuance tx vin i = Some y ->
  from_entropy (asset_entropy (asset_issuance i)) = Some (is_asset y) /\
  Some (is_entropy y) = generate_asset_entropy (previous_output i) (asset_entropy (asset_issuance i)).
Proof.
  intros Hn. unfold extract_issuance. destruct (generate_asset_entropy _ _) as [e|]; [|done]. cbn [mbind option_bind].
  unfold issuance_ids, issuance_entropy. rewrite bool_decide_false by done. cbn [mbind option_bind].
  destruct (from_entropy _) as [a|]; [|done]. cbn [mbind option_bind].
  destruct (reissuance_token_from_entropy _ _); [|done]. cbn [mbind option_bind]. by intros [= <-].
Qed.
End theorems.
End ledger.

(** ** A concrete instance *)

Module BuilderSample.
Export WolletSample PsetSample.

Definition no_such {A} : option A := None.
Program Definition BuilderEnv_model : BuilderEnv :=
  {| Contract := bytes;
     contract_hash k := Some k;
     contract_json _ := Some (str "{}");
     spk_count := false;
     has_wildcard := true;
     amp0_address := None;
     address_at chain i := ok_or (from_script (sample_spk chain i) None LIQUID) ScriptNotMine;
     is_segwit := true;
     max_weight_to_satisfy := 107;
     parse_with_params _ _ := None;
     address_text _ := EmptyString;
     parse_asset _ := None;
     asset_text _ := EmptyString;
     blind_asset_proof _ _ := None;
     blind_value_proof _ _ _ _ := None;
     blind_last _ _ := None;
     SecretKey := unit;
     shared_secret_text _ _ := EmptyString;
     blind_last26 _ _ := None;
     read26 p := Some p;
     read25 p := Some p;
     describe_input _ i := Ok i;
     describe_output _ o := Ok o;
     key_origins := [];
     asset_iter := elements;
     utxo_iter m := (map_to_list m).*2;
     secret_iter := map_to_list |}.
Solve All Obligations with done.
#[export] Existing Instance BuilderEnv_model.

#[export] Instance BuilderLaws_model : BuilderLaws.
Proof. split; try done; [by intros p q [= <-]|by intros p q [= <-]|by intros k i j [= <-]|by intros k i j [= <-]]. Qed.

Definition usd : bytes := hash Byte.x66.
Definition funding : Transaction :=
  mkTransaction 2 (LockTime_from_consensus 0) [spend (mkOutPoint (hash Byte.x77) 3)]
    [pay mine0 100000;
     mkTxOut (AssetExplicit usd) (ValueExplicit 5000) NonceNull mine1 TxOutWitness_empty].
Definition funding_id : bytes := hash Byte.x78.
Definition upd_funding : Update :=
  mkUpdate 4 0 (mkDownload [(funding_id, funding)]
    [(mkOutPoint funding_id 0, secrets 100000);
     (mkOutPoint funding_id 1, mkSecrets usd ZERO_TWEAK 5000 ZERO_TWEAK)])
    [(funding_id, None)] [] [] sample_scripts default_blockheader [] (mkLastUnused 0 1).
Definition funded : Cache * gmap bytes bytes := applied upd_funding state0.

Definition network : Network := CustomElements (mkElementsParams lbtc (hash Byte.x01) LIQUID "sample").
Definition to_theirs (a : AssetId) (x : Z) : Recipient := mkRecipient x theirs None a.
Definition paying (l : list Recipient) : TxBuilder := with_recipients (TxBuilder_new network) l.
Definition build (b : TxBuilder) := finish memory_store funded.1 funded.2 b.
Definition sample_builder : TxBuilder := fee_asset (paying [to_theirs usd 700; to_theirs lbtc 1000]) usd 100000000.
Definition sample_pset : PartiallySignedTransaction :=
  match build sample_builder with Ok p => p | Err _ => new_v2 end.

Lemma build_sample : build sample_builder = Ok sample_pset.
Proof.
  unfold sample_pset. assert (Hok : is_ok (build sample_builder) = true) by (vm_compute; reflexivity).
  destruct (build sample_builder); done.
Qed.

(** Two recipients whose amounts add up to 3 modulo [2 ^ 64], and a coin that is selected
    twice. *)
Definition overflowing : TxBuilder := paying [to_theirs usd (2 ^ 63); to_theirs usd (2 ^ 63 + 3)].
Definition twice : TxBuilder := set_wallet_utxos (paying [to_theirs lbtc 150000]) [mkOutPoint funding_id 0; mkOutPoint funding_id 0].
Definition built (b : TxBuilder) : PartiallySignedTransaction :=
  match build b with Ok p => p | Err _ => new_v2 end.
End BuilderSample.
Import BuilderSample.

(** 5000 of an asset and 100000 of the policy asset: 700 and 1000 are sent, the fee is paid in
    the asset. *)
Lemma built_tx_balances_witness :
  outs usd sample_pset = 5000 /\ ins usd sample_pset + issues usd sample_pset = outs usd sample_pset.
Proof.
  split; [vm_compute; reflexivity|].
  apply (built_tx_balances memory_store funded.1 funded.2 sample_builder sample_pset usd).
  - exact build_sample.
  - reflexivity.
  - exact I.
  - apply (bool_decide_unpack _). vm_compute. exact I.
  - apply (bool_decide_unpack _). vm_compute. exact I.
  - vm_compute. split; [discriminate|reflexivity].
  - vm_compute. reflexivity.
Defined.

Lemma built_tx_pays_recipients_witness :
  (theirs, Some 700, Some usd, None) ∈ map out_terms (outputs sample_pset).
Proof.
  eapply elem_of_submseteq; [|exact (built_tx_pays_recipients memory_store funded.1 funded.2 sample_builder sample_pset build_sample)].
  apply list_elem_of_here.
Defined.

Lemma built_tx_spends_once_witness : NoDup (map prevout (inputs sample_pset)) /\ length (inputs sample_pset) = 2%nat.
Proof.
  split; [|vm_compute; reflexivity].
  apply (built_tx_spends_once memory_store funded.1 funded.2 sample_builder sample_pset build_sample); [reflexivity|constructor].
Defined.

(** Amounts that overflow 64 bits are accepted: the result spends 5000 and pays more than
    [2 ^ 64]. *)
Example overflowing_amounts_accepted :
  is_ok (build overflowing) = true /\ ins usd (built overflowing) = 5000 /\ outs usd (built overflowing) = 2 ^ 64 + 5000.
Proof. split_and!; vm_compute; reflexivity. Qed.

(** A coin listed twice is spent twice. *)
Example selected_coin_spent_twice :
  is_ok (build twice) = true /\
  map prevout (inputs (built twice)) = [mkOutPoint funding_id 0; mkOutPoint funding_id 0].
Proof. split; vm_compute; reflexivity. Qed.
