(* ===== verification/Liquidex.v ===== *)
(** * LiquiDEX swap proposals

    [lwk_wollet/src/liquidex.rs] and [TxBuilder::finish_liquidex_make]: a maker offers an
    input for an output in a transaction with nothing else; the proposal carries the asset,
    the amount, the asset blinding factor and a proof of the amount of both, and one scalar
    with which the taker balances the transaction.  Finalizing a PSET
    ([elements_miniscript::psbt::finalize]) is a parameter. *)

From S2P Require Import Prelude Order Float Encode Hex Script Timelocks Confidential Transaction TxMetrics Sighash Merkle Taproot TapSighash Store Block Update Cache Address Network Wollet Views Delegation Pset PsetValue PsetCodec PsetMeta TxBuilder Blind BlindBalance.

Inductive LiquidexError :=
| InputMissingAsset
| InputMissingAbf
| InputMissingAmount
| InputMissingBlindValueProof
| OutputMissingAsset
| OutputMissingAbf
| OutputMissingAmount
| OutputMissingBlindValueProof
| UnexpectedInputs
| UnexpectedOutputs
| UnexpectedScalars
| MakerInvalidParams
| TakerInvalidParams
| VerificationFailed
| MissingSignature.

(** [crate::Error] as these functions return it; [DexPanic] is a panic. *)
Inductive dex_error :=
| Dex (e : LiquidexError)
| DexFinalize
| DexPset (e : pset_error)
| DexCodec (e : codec_error)
| DexHex (e : hex_error)
| DexEncode (e : encode_error)
| DexProof
| DexBuild (e : build_error)
| DexBlind (e : PsetBlindError)
| MissingWalletUtxo (o : OutPoint)
| DexPanic.

(** Markers of proposals. *)
Inductive Validated : Set := .
Inductive Unvalidated : Set := .

Section liquidex.
Context {P : Platform} {S : Secp} {H : Hashes} {M : Midstates} {T : TapEnv} {C : SchnorrEnv}
  {E : PsetEnv} {K : Zkp}.

Record LiquidexTxOutSecrets := mkDexSecrets
  { dex_asset : AssetId;
    asset_blinder : Tweak;
    satoshi : Z;
    dex_value_proof : option RangeProof }.

Definition dex_verify (self : LiquidexTxOutSecrets) (txout : TxOut) : bool :=
  match dex_value_proof self, Value_commitment (value txout), Asset_commitment (asset txout) with
  | Some rangeproof, Some value_commit, Some asset_commit =>
      let asset_gen := Generator_new_blinded (dex_asset self) (asset_blinder self) in
      if negb (bool_decide (asset_commit = asset_gen)) then false
      else blind_value_proof_verify rangeproof (satoshi self) asset_commit value_commit
  | _, _, _ => false
  end.

(** The transaction is kept as hexadecimal text. *)
Record LiquidexProposal (V : Set) := mkProposal
  { dex_version : Z;
    dex_tx : bytes;
    dex_inputs : list LiquidexTxOutSecrets;
    dex_outputs : list LiquidexTxOutSecrets;
    dex_scalars : list Tweak }.
#[global] Arguments mkProposal {V}.
#[global] Arguments dex_version {V}.
#[global] Arguments dex_tx {V}.
#[global] Arguments dex_inputs {V}.
#[global] Arguments dex_outputs {V}.
#[global] Arguments dex_scalars {V}.

Record AssetAmount := mkAssetAmount { aa_amount : Z; aa_asset : AssetId }.

Definition transaction {V} (self : LiquidexProposal V) : result Transaction dex_error :=
  let? data := map_err DexHex (from_hex (dex_tx self)) in
  map_err DexEncode (deserialize data).

Definition get_previous_outpoint (self : LiquidexProposal Unvalidated) : result OutPoint dex_error :=
  let? tx := transaction self in
  match input tx with
  | [input] => Ok (previous_output input)
  | _ => Err (Dex UnexpectedInputs)
  end.

Definition needed_tx (self : LiquidexProposal Unvalidated) : result bytes dex_error :=
  let? o := get_previous_outpoint self in Ok (txid o).

Definition get_input (self : LiquidexProposal Unvalidated) (previous_tx : option Transaction)
  : result (Z * AssetId) dex_error :=
  match dex_inputs self with
  | [input] =>
      let? _ :=
        match previous_tx with
        | Some tx =>
            let? prev_outpoint := get_previous_outpoint self in
            if negb (bool_decide (txid prev_outpoint = tx_txid tx)) then Err (Dex VerificationFailed)
            else
              let? txout := ok_or (output tx !! Z.to_nat (vout prev_outpoint)) (Dex VerificationFailed) in
              if negb (dex_verify input txout) then Err (Dex VerificationFailed) else Ok ()
        | None => Ok ()
        end in
      Ok (satoshi input, dex_asset input)
  | _ => Err (Dex UnexpectedInputs)
  end.

Definition get_output (self : LiquidexProposal Unvalidated) : result (Z * AssetId) dex_error :=
  match dex_outputs self with
  | [out] =>
      let? tx := transaction self in
      match output tx with
      | [txout] => if negb (dex_verify out txout) then Err (Dex VerificationFailed) else Ok (satoshi out, dex_asset out)
      | _ => Err (Dex UnexpectedOutputs)
      end
  | _ => Err (Dex UnexpectedOutputs)
  end.

Definition validated (self : LiquidexProposal Unvalidated) : LiquidexProposal Validated :=
  mkProposal (dex_version self) (dex_tx self) (dex_inputs self) (dex_outputs self) (dex_scalars self).

Definition dex_validate (self : LiquidexProposal Unvalidated) (previous_tx : Transaction)
  : result (LiquidexProposal Validated) dex_error :=
  let? _ := get_output self in
  let? _ := get_input self (Some previous_tx) in
  Ok (validated self).

Definition insecure_validate (self : LiquidexProposal Unvalidated) : result (LiquidexProposal Validated) dex_error :=
  let? _ := get_output self in Ok (validated self).

(** [input] and [output]; [None]: the panic of the index. *)
Definition proposal_input (self : LiquidexProposal Validated) : option AssetAmount :=
  i ← dex_inputs self !! 0%nat; Some (mkAssetAmount (satoshi i) (dex_asset i)).
Definition proposal_output (self : LiquidexProposal Validated) : option AssetAmount :=
  o ← dex_outputs self !! 0%nat; Some (mkAssetAmount (satoshi o) (dex_asset o)).

(** ** From a PSET *)

Definition input_secrets (i : PsetInput) : result LiquidexTxOutSecrets dex_error :=
  let? asset := ok_or (i_asset i) (Dex InputMissingAsset) in
  let? abf := ok_or (get_abf_in i) (Dex InputMissingAbf) in
  let? asset_blinder := map_err DexCodec abf in
  let? satoshi := ok_or (i_amount i) (Dex InputMissingAmount) in
  match i_blind_value_proof i with
  | None => Err (Dex InputMissingBlindValueProof)
  | proof => Ok (mkDexSecrets asset asset_blinder satoshi proof)
  end.

Definition output_secrets (o : PsetOutput) : result LiquidexTxOutSecrets dex_error :=
  let? asset := ok_or (o_asset o) (Dex OutputMissingAsset) in
  let? abf := ok_or (get_abf_out o) (Dex OutputMissingAbf) in
  let? asset_blinder := map_err DexCodec abf in
  let? satoshi := ok_or (o_amount o) (Dex OutputMissingAmount) in
  match o_blind_value_proof o with
  | None => Err (Dex OutputMissingBlindValueProof)
  | proof => Ok (mkDexSecrets asset asset_blinder satoshi proof)
  end.

Definition from_pset (finalize : PartiallySignedTransaction -> option PartiallySignedTransaction)
    (p : PartiallySignedTransaction) : result (LiquidexProposal Unvalidated) dex_error :=
  let? p := ok_or (finalize p) DexFinalize in
  let? tx := map_err DexPset (extract_tx p) in
  match inputs p, outputs p with
  | [i], [o] =>
      if negb (length (scalars (global p)) =? 1)%nat then Err (Dex UnexpectedScalars)
      else if bool_decide (final_script_sig i = None) && bool_decide (final_script_witness i = None)
      then Err (Dex MissingSignature)
      else
        let? input := input_secrets i in
        let? out := output_secrets o in
        Ok (mkProposal 1 (to_hex (serialize tx)) [input] [out] (scalars (global p)))
  | [_], _ => Err (Dex UnexpectedOutputs)
  | _, _ => Err (Dex UnexpectedInputs)
  end.

(** ** To a PSET *)

Definition TxOut_default : TxOut := mkTxOut AssetNull ValueNull NonceNull [] TxOutWitness_empty.

Definition to_pset_input (txin : TxIn) (i : LiquidexTxOutSecrets) : PsetInput :=
  set_abf_in (asset_blinder i)
    (from_txin txin <| final_script_sig := Some (script_sig txin) |>
       <| final_script_witness := Some (script_witness (in_witness txin)) |>
       <| i_amount := Some (satoshi i) |> <| i_asset := Some (dex_asset i) |>
       <| i_blind_value_proof := dex_value_proof i |>)
  <| witness_utxo := Some (mkTxOut (Asset_new_confidential (dex_asset i) (asset_blinder i)) (value TxOut_default)
                             (nonce TxOut_default) (script_pubkey TxOut_default) (out_witness TxOut_default)) |>.

Definition to_pset_output (txout : TxOut) (o : LiquidexTxOutSecrets) : PsetOutput :=
  set_abf_out (asset_blinder o)
    (Output_default <| o_amount := Some (satoshi o) |> <| amount_comm := Value_commitment (value txout) |>
       <| o_asset := Some (dex_asset o) |> <| asset_comm := Asset_commitment (asset txout) |>
       <| o_script_pubkey := script_pubkey txout |> <| value_rangeproof := rangeproof (out_witness txout) |>
       <| ecdh_pubkey := (fun k => mkBtcPk k true) <$> Nonce_commitment (nonce txout) |>
       <| blinder_index := Some 0 |> <| o_blind_value_proof := dex_value_proof o |>).

Definition to_pset (self : LiquidexProposal Validated) : result PartiallySignedTransaction dex_error :=
  let? tx := transaction self in
  match input tx, output tx with
  | [txin], [txout] =>
      if negb (length (dex_scalars self) =? 1)%nat then Err (Dex UnexpectedScalars)
      else
        let? i := ok_or (dex_inputs self !! 0%nat) DexPanic in
        if is_empty (script_sig txin) && is_empty (script_witness (in_witness txin)) then Err (Dex MissingSignature)
        else
          let? o := ok_or (dex_outputs self !! 0%nat) DexPanic in
          Ok (set_scalars (dex_scalars self)
                (add_output (to_pset_output txout o) (add_input (to_pset_input txin i) new_v2)))
  | [_], _ => Err (Dex UnexpectedOutputs)
  | _, _ => Err (Dex UnexpectedInputs)
  end.

(** ** Offsets *)

Definition dex_blind_value_proof (s : TxOutSecrets) : action ZkpRng dex_error RangeProof :=
  let asset_gen := Generator_new_blinded (sec_asset s) (asset_bf s) in
  let value_commit := Pedersen_new (sec_value s) (value_bf s) asset_gen in
  fun r => let '(res, r) := blind_value_proof (sec_value s) value_commit asset_gen (value_bf s) r in
           (map_err (fun _ => DexProof) res, r).

Definition scalar_offset (s : TxOutSecrets) : Tweak :=
  vbf_last 1 ZERO_TWEAK [(sec_value s, asset_bf s, value_bf s)] [].

(** The surjection proof that stands in for the taker's. *)
Definition fake_surjectionproof : bytes :=
  map z2b [1; 0; 1; 69; 162; 31; 81; 9; 102; 83; 180; 22; 237; 171; 76; 161; 122; 220; 124; 208;
           90; 74; 148; 162; 247; 161; 89; 3; 139; 112; 101; 185; 126; 78; 3; 188; 6; 32; 154;
           164; 175; 175; 158; 239; 225; 188; 83; 222; 42; 159; 10; 155; 216; 114; 78; 89; 163;
           124; 134; 74; 83; 104; 116; 254; 137; 218; 19].

(** The scalar that the taker adds to its last blinding factor: the input's offset less the
    output's. *)
Definition maker_scalar (input_offset output_offset : Tweak) : result Tweak dex_error :=
  let? tweak := ok_or (ext_parse (ext_ser input_offset)) DexProof in
  let? out := ok_or (ext_parse (ext_ser output_offset)) DexProof in
  let? out := ok_or (vbf_neg out) DexPanic in
  ok_or (vbf_add tweak out) DexPanic.
End liquidex.

(** ** Making a proposal *)

Section make.
Context {P : Platform} {S : Secp} {H : Hashes} {M : Midstates} {T : TapEnv} {C : SchnorrEnv}
  {E : PsetEnv} {K : Zkp} {J : JsonStrings} {WE : WolletEnv} {BE : BuilderEnv}.
Context {W : Type} (txs_store : Store W) (c : Cache) (w : W).

Definition lift_build {A} (r : result A build_error) : result A dex_error := map_err DexBuild r.

(** The maker's input: its blinding factor, the proof of its value and the signature type
    under which the rest of the transaction can change. *)
Definition offer_input (s : TxOutSecrets) (proof : RangeProof) (i : PsetInput) : PsetInput :=
  set_abf_in (asset_bf s) i <| i_blind_value_proof := Some proof |>
    <| sighash_type := Some (psbt_from_ecdsa SinglePlusAnyoneCanPay) |>.

(** The maker's output, blinded. *)
Definition request_output (s : TxOutSecrets) (ecdh : PublicKey) (rangeproof : RangeProof) (surjection : SurjectionProof)
    (value_proof : RangeProof) (asset_proof : SurjectionProof) (o : PsetOutput) : PsetOutput :=
  let generator := Generator_new_blinded (sec_asset s) (asset_bf s) in
  set_abf_out (asset_bf s)
    (o <| asset_comm := Some generator |> <| amount_comm := Some (Pedersen_new (sec_value s) (value_bf s) generator) |>
       <| ecdh_pubkey := Some (mkBtcPk ecdh true) |> <| value_rangeproof := Some rangeproof |>
       <| asset_surjection_proof := Some surjection |>)
  <| o_blind_value_proof := Some value_proof |> <| o_blind_asset_proof := Some asset_proof |>.

(** Asset, amount and blinding key of a recipient, blinded for it: the output and its secrets. *)
Definition blind_request (recipient : Recipient) (o : PsetOutput)
  : action ZkpRng dex_error (PsetOutput * TxOutSecrets) :=
  let! receiver_blinding_pk := act_lift (ok_or (rc_blinding_pubkey recipient) (Dex MakerInvalidParams)) in
  let! abf := draw_tweak in
  let! vbf := draw_tweak in
  let! ephemeral_sk := draw_key in
  let! (nonce, shared_secret) := act_lift (ok_or (with_ephemeral_sk ephemeral_sk receiver_blinding_pk) DexPanic) in
  let! ecdh := act_lift (ok_or (Nonce_commitment nonce) DexPanic) in
  let s := mkSecrets (rc_asset recipient) abf (rc_satoshi recipient) vbf in
  let asset_generator := Generator_new_blinded (sec_asset s) abf in
  let value_commitment := Pedersen_new (sec_value s) vbf asset_generator in
  let min_value := if is_provably_unspendable (rc_script_pubkey recipient) then 0 else 1 in
  let message := rc_asset recipient ++ ext_ser abf in
  let! rangeproof := act_lift (ok_or (RangeProof_new min_value value_commitment (sec_value s) vbf message
                       (rc_script_pubkey recipient) shared_secret 0 52 asset_generator) DexProof) in
  let! fake := act_lift (ok_or (ext_parse fake_surjectionproof) DexPanic) in
  let! value_proof := dex_blind_value_proof s in
  let! asset_proof := fun r => let '(res, r) := Blind.blind_asset_proof (sec_asset s) abf r in
                               (map_err (fun _ => DexProof) res, r) in
  act_ret (request_output s ecdh rangeproof fake value_proof asset_proof o, s).

Definition finish_liquidex_make (b : TxBuilder) : action ZkpRng dex_error PartiallySignedTransaction :=
  let! selected := act_lift (ok_or (selected_utxos b) (Dex MakerInvalidParams)) in
  let! outpoint := act_lift (match selected with [o] => Ok o | _ => Err (Dex MakerInvalidParams) end) in
  let! recipient := act_lift (match recipients b with [r] => Ok r | _ => Err (Dex MakerInvalidParams) end) in
  let! utxos := act_lift (lift_build (wollet_ok (utxos_map c))) in
  let! utxo := act_lift (ok_or (utxos !! outpoint) (MissingWalletUtxo outpoint)) in
  let! (_, d) := act_lift (lift_build (wallet_input txs_store w (tb_add_input_rangeproofs b) (mkDraft new_v2 ∅ 0 0 0) utxo)) in
  let! s := act_lift (ok_or (inp_txout_sec d !! 0%nat) DexPanic) in
  let! value_proof := dex_blind_value_proof s in
  let p := d_pset d in
  let p := mkPset (global p) (alter (offer_input s value_proof) 0%nat (inputs p)) (outputs p) in
  let p := add_output (recipient_output recipient) p in
  let! o := act_lift (ok_or (outputs p !! 0%nat) DexPanic) in
  let! (o, s') := blind_request recipient o in
  let p := mkPset (global p) (inputs p) (<[0%nat := o]> (outputs p)) in
  let! tweak := act_lift (maker_scalar (scalar_offset s) (scalar_offset s')) in
  act_lift (lift_build (add_details c (set_scalars [tweak] p))).
End make.

(** ** What is promised *)

#[local] Set Default Proof Using "Type*".

Section laws.
Context {P : Platform} {S : Secp} {H : Hashes} {M : Midstates} {T : TapEnv} {C : SchnorrEnv}
  {E : PsetEnv} {K : Zkp}.

(** A range proof with exponent -1 is for one value. *)
Class ZkpExact : Prop :=
  exact_range v bf nonce g p :
    RangeProof_new v (Pedersen_new v bf g) v bf [] [] nonce (-1) 0 g = Some p ->
    RangeProof_verify p (Pedersen_new v bf g) [] g = Some (v, v + 1).

Lemma scalar_offset_factor `{!ZkpLaws} s : cong (scalar (scalar_offset s)) (sec_factor s).
Proof.
  pose proof (vbf_last_balances 1 ZERO_TWEAK [value_blind_inputs s] []) as Hb. unfold factor in Hb.
  cbn [fst snd] in Hb. rewrite scalar_ZERO in Hb. unfold scalar_offset. fold (value_blind_inputs s).
  rewrite <-(Z.add_0_l (scalar _)), <-(Z.mul_0_r 1), Hb. unfold factors, sec_factor. cbn [sum_map foldr].
  by rewrite Z.add_0_r, Z.sub_0_r.
Qed.

Lemma maker_scalar_ok `{!ZkpLaws} a b :
  exists t, maker_scalar a b = Ok t /\ cong (scalar t) (scalar a - scalar b).
Proof.
  unfold maker_scalar. rewrite !ext_parse_ser. cbn [ok_or rbind].
  destruct (vbf_neg_ok b) as (n & -> & Hn). cbn [ok_or rbind].
  destruct (vbf_add_ok a n) as (t & -> & Ht). exists t. split; [done|]. by rewrite Ht, Hn.
Qed.

Lemma dex_proof_verifies `{!ZkpExact} s r pr r' :
  dex_blind_value_proof s r = (Ok pr, r') ->
  blind_value_proof_verify pr (sec_value s) (Generator_new_blinded (sec_asset s) (asset_bf s)) (commit s) = true.
Proof.
  unfold dex_blind_value_proof, blind_value_proof. unfold act_bind, draw_key. destruct (SecretKey_new r) as [k r1].
  unfold act_lift. destruct (RangeProof_new _ _ _ _ _ _ _ _ _ _) as [q|] eqn:Eq; [|done]. cbn [ok_or map_err].
  intros [= <- _]. apply exact_range in Eq. unfold blind_value_proof_verify, commit. rewrite Eq, Z.eqb_refl.
  by rewrite Z.add_simpl_r, Z.eqb_refl.
Qed.

Lemma dex_verify_iff a abf v pr txout :
  dex_verify (mkDexSecrets a abf v pr) txout = true <->
  exists q vc, pr = Some q /\ value txout = ValueConfidential vc /\
    asset txout = AssetConfidential (Generator_new_blinded a abf) /\
    blind_value_proof_verify q v (Generator_new_blinded a abf) vc = true.
Proof.
  unfold dex_verify. cbn [dex_value_proof dex_asset asset_blinder satoshi]. split.
  - destruct pr as [q|]; [|done]. destruct (value txout); try done. destruct (asset txout); try done.
    cbn [Value_commitment Asset_commitment]. case_bool_decide as Hg; cbn [negb]; [|done]. subst. intros Hv. by eexists _, _.
  - intros (q & vc & -> & -> & -> & Hv). cbn [Value_commitment Asset_commitment]. by rewrite bool_decide_true.
Qed.

(** What an outpoint and a transaction must be for a proposal. *)
Record sound_proposal (prop : LiquidexProposal Unvalidated) (prev : Transaction) (i o : LiquidexTxOutSecrets)
    (txin : TxIn) (txout spent : TxOut) : Prop :=
  { sp_inputs : dex_inputs prop = [i];
    sp_outputs : dex_outputs prop = [o];
    sp_tx : exists tx, transaction prop = Ok tx /\ input tx = [txin] /\ output tx = [txout];
    sp_prev : tx_txid prev = txid (previous_output txin);
    sp_spent : output prev !! Z.to_nat (vout (previous_output txin)) = Some spent;
    sp_in : dex_verify i spent = true;
    sp_out : dex_verify o txout = true }.

Lemma get_output_ok prop x :
  get_output prop = Ok x <->
  exists o tx txout, dex_outputs prop = [o] /\ transaction prop = Ok tx /\ output tx = [txout] /\
    dex_verify o txout = true /\ x = (satoshi o, dex_asset o).
Proof.
  unfold get_output. split.
  - destruct (dex_outputs prop) as [|o [|]]; [done| |done]. intros (tx & Htx & Hr)%rbind_ok.
    destruct (output tx) as [|txout [|]] eqn:Eo; [done| |done].
    destruct (dex_verify o txout) eqn:Ev; [|done]. injection Hr as <-. by exists o, tx, txout.
  - intros (o & tx & txout & -> & -> & Ht & Hv & ->). cbn [rbind]. by rewrite Ht, Hv.
Qed.

Lemma get_input_ok prop prev x :
  get_input prop (Some prev) = Ok x <->
  exists i tx txin spent, dex_inputs prop = [i] /\ transaction prop = Ok tx /\ input tx = [txin] /\
    tx_txid prev = txid (previous_output txin) /\ output prev !! Z.to_nat (vout (previous_output txin)) = Some spent /\
    dex_verify i spent = true /\ x = (satoshi i, dex_asset i).
Proof.
  unfold get_input, get_previous_outpoint. split.
  - destruct (dex_inputs prop) as [|i [|]]; [done| |done]. destruct (transaction prop) as [tx|]; [|done]. cbn [rbind].
    destruct (input tx) as [|txin [|]] eqn:Ei; [done| |done]. cbn [rbind].
    case_bool_decide as Ht; cbn [negb]; [|done]. destruct (output prev !! _) as [spent|] eqn:Es; [|done]. cbn [ok_or rbind].
    destruct (dex_verify i spent) eqn:Ev; cbn [negb rbind]; [|done]. intros [= <-]. by exists i, tx, txin, spent.
  - intros (i & tx & txin & spent & -> & -> & Hin & Ht & Hs & Hv & ->). cbn [rbind]. rewrite Hin. cbn [rbind].
    rewrite bool_decide_true by done. cbn [negb]. rewrite Hs. cbn [ok_or rbind]. by rewrite Hv.
Qed.

Lemma dex_validate_ok prop prev v :
  dex_validate prop prev = Ok v <->
  v = validated prop /\ exists i o txin txout spent, sound_proposal prop prev i o txin txout spent.
Proof.
  unfold dex_validate. split.
  - intros (x & (o & tx & txout & Ho & Htx & Hto & Hvo & _)%get_output_ok & Hr)%rbind_ok.
    apply rbind_ok in Hr as (y & (i & tx' & txin & spent & Hi & Htx' & Hti & Hp & Hs & Hvi & _)%get_input_ok & [= <-]).
    split; [done|]. exists i, o, txin, txout, spent. rewrite Htx in Htx'. injection Htx' as <-. split; try done. by exists tx.
  - intros (-> & i & o & txin & txout & spent & [Hi Ho (tx & Htx & Hti & Hto) Hp Hs Hvi Hvo]).
    rewrite (proj2 (get_output_ok prop (satoshi o, dex_asset o))) by (by exists o, tx, txout). cbn [rbind].
    by rewrite (proj2 (get_input_ok prop prev (satoshi i, dex_asset i))) by (by exists i, tx, txin, spent).
Qed.
End laws.

(** A proposal passes validation exactly when it is one input for one output, the spent
    output is the one of the given transaction, and for both the asset is the committed one
    and the amount is proved.  A validated proposal never panics: it gives a PSET unless it has
    no scalar or is not signed, and states the validated amounts. *)
Theorem liquidex_validate_sound {P : Platform} {S : Secp} {H : Hashes} {M : Midstates} {T : TapEnv} {C : SchnorrEnv}
    {E : PsetEnv} {K : Zkp} (prop : LiquidexProposal Unvalidated) (prev : Transaction) (v : LiquidexProposal Validated) :
  dex_validate prop prev = Ok v <->
  v = validated prop /\ exists i o txin txout spent, sound_proposal prop prev i o txin txout spent /\
    proposal_input v = Some (mkAssetAmount (satoshi i) (dex_asset i)) /\
    proposal_output v = Some (mkAssetAmount (satoshi o) (dex_asset o)) /\
    to_pset v =
      if negb (length (dex_scalars prop) =? 1)%nat then Err (Dex UnexpectedScalars)
      else if is_empty (script_sig txin) && is_empty (script_witness (in_witness txin)) then Err (Dex MissingSignature)
      else Ok (set_scalars (dex_scalars prop)
                 (add_output (to_pset_output txout o) (add_input (to_pset_input txin i) new_v2))).
Proof.
  rewrite dex_validate_ok. split; [|intros (-> & i & o & txin & txout & spent & Hs & _); split; [done|by exists i, o, txin, txout, spent]].
  intros (-> & i & o & txin & txout & spent & Hs). split; [done|]. exists i, o, txin, txout, spent.
  split; [done|]. destruct Hs as [Hi Ho (tx & Htx & Hti & Hto) _ _ _ _].
  unfold proposal_input, proposal_output, to_pset. change (transaction (validated prop)) with (transaction prop).
  unfold validated. cbn [dex_inputs dex_outputs dex_scalars]. rewrite Hi, Ho, Htx. cbn [rbind]. rewrite Hti, Hto.
  split_and!; [done..|]. by destruct (negb _).
Qed.

(** Without the previous transaction a proposal without inputs is accepted, and both what it
    says of its input and the PSET of a taker panic. *)
Theorem insecure_validate_panics {P : Platform} {S : Secp} {H : Hashes} {M : Midstates} {T : TapEnv} {C : SchnorrEnv}
    {E : PsetEnv} {K : Zkp} (prop : LiquidexProposal Unvalidated) (v : LiquidexProposal Validated) :
  dex_inputs prop = [] -> insecure_validate prop = Ok v ->
  proposal_input v = None /\
  (forall tx txin, transaction prop = Ok tx -> input tx = [txin] -> length (dex_scalars prop) = 1%nat -> to_pset v = Err DexPanic).
Proof.
  unfold insecure_validate. intros Hi (x & (o & tx & txout & Ho & Htx & Hto & _)%get_output_ok & [= <-])%rbind_ok.
  unfold proposal_input, to_pset. change (transaction (validated prop)) with (transaction prop).
  unfold validated. cbn [dex_inputs dex_outputs dex_scalars].
  rewrite Hi. split; [done|]. intros tx' txin Htx' Hti Hl. rewrite Htx in Htx'. injection Htx' as <-. rewrite Htx. cbn [rbind].
  by rewrite Hti, Hto, Hl.
Qed.

(** A proposal for an output that is not confidential is never validated, although the builder
    makes one. *)
Theorem explicit_offer_rejected {P : Platform} {S : Secp} {H : Hashes} {M : Midstates} {T : TapEnv} {C : SchnorrEnv}
    {E : PsetEnv} {K : Zkp} (prop : LiquidexProposal Unvalidated) (prev tx : Transaction) (txin : TxIn) (spent : TxOut)
    (a : AssetId) (v : LiquidexProposal Validated) :
  transaction prop = Ok tx -> input tx = [txin] -> output prev !! Z.to_nat (vout (previous_output txin)) = Some spent ->
  asset spent = AssetExplicit a -> dex_validate prop prev <> Ok v.
Proof.
  intros Htx Hti Hs Ha (_ & i & o & txin' & txout & spent' & [_ _ (tx' & Htx' & Hti' & _) _ Hs' Hv _])%dex_validate_ok.
  rewrite Htx in Htx'. injection Htx' as <-. rewrite Hti in Hti'. injection Hti' as <-. rewrite Hs in Hs'. injection Hs' as <-.
  destruct i as [ia iabf iv ip]. apply dex_verify_iff in Hv as (? & ? & _ & _ & Hv & _). congruence.
Qed.

(** ** What the maker makes *)

Section spent.
Context {P : Platform} {S : Secp} {H : Hashes} {M : Midstates} {T : TapEnv} {C : SchnorrEnv}
  {E : PsetEnv} {J : JsonStrings} {WE : WolletEnv} {BE : BuilderEnv}.

(** The outpoint, asset and amount of an output of the wallet, and no lock time. *)
(** An input without an issuance, a peg-in or their proofs. *)
Definition bare_in (t : TxIn) : Prop :=
  asset_issuance t = AssetIssuance_null /\ amount_rangeproof (in_witness t) = None /\
  inflation_keys_rangeproof (in_witness t) = None /\ pegin_witness (in_witness t) = [].

Record spends_utxo (u : WalletTxOut) (i : PsetInput) : Prop :=
  { su_txid : previous_txid i = txid (wo_outpoint u);
    su_vout : previous_output_index i = vout (wo_outpoint u);
    su_asset : i_asset i = Some (sec_asset (wo_unblinded u));
    su_amount : i_amount i = Some (sec_value (wo_unblinded u));
    su_time : required_time_locktime i = None;
    su_height : required_height_locktime i = None;
    su_bare : bare_in (extract_input i) }.

Lemma spends_utxo_proofs u i ap vp :
  spends_utxo u i -> spends_utxo u (i <| i_blind_asset_proof := ap |> <| i_blind_value_proof := vp |>).
Proof. intros [? ? ? ? ? ? ?]. by split. Qed.
Lemma spends_utxo_rangeproof u i rpf : spends_utxo u i -> spends_utxo u (i <| in_utxo_rangeproof := rpf |>).
Proof. intros [? ? ? ? ? ? ?]. by split. Qed.
Lemma spends_utxo_witness u i t : spends_utxo u i -> spends_utxo u (i <| witness_utxo := t |>).
Proof. intros [? ? ? ? ? ? ?]. by split. Qed.
Lemma spends_utxo_prev u i t : spends_utxo u i -> spends_utxo u (i <| non_witness_utxo := t |>).
Proof. intros [? ? ? ? ? ? ?]. by split. Qed.

Lemma wallet_input_adds {W} (st : Store W) w rp (u : WalletTxOut) d n d' :
  wallet_input st w rp d u = Ok (n, d') ->
  exists i, d_pset d' = add_input i (d_pset d) /\ spends_utxo u i /\
    inp_txout_sec d' = <[length (inputs (d_pset d)) := wo_unblinded u]> (inp_txout_sec d).
Proof.
  unfold wallet_input. intros (tx & _ & Hr)%rbind_ok. apply rbind_ok in Hr as (txout & _ & Hr).
  unfold add_input_inner in Hr. destruct (_ <=? _)%nat; [done|].
  set (i0 := from_prevout _ <| i_asset := _ |> <| i_amount := _ |>) in Hr.
  assert (Hi0 : spends_utxo u i0) by (by split). clearbody i0.
  apply rbind_ok in Hr as (i & Hi & Hr). apply rbind_ok in Hr as (j & Hj & Hr). injection Hr as <- <-.
  assert (Hi' : spends_utxo u i).
  { unfold with_proofs in Hi. destruct (Value_commitment _); [|injection Hi as <-; done].
    destruct (Asset_commitment _); [|injection Hi as <-; done].
    apply rbind_ok in Hi as (ap & _ & Hi). apply rbind_ok in Hi as (vp & _ & Hi). injection Hi as <-.
    by apply spends_utxo_proofs. }
  set (i1 := if rp then _ else i) in Hj.
  assert (Hi1 : spends_utxo u i1) by (subst i1; destruct rp; [by apply spends_utxo_rangeproof|done]). clearbody i1.
  exists j. cbn [d_pset inp_txout_sec]. split; [done|]. split; [|done].
  destruct tx as [tx|]; [apply rbind_ok in Hj as (tx' & _ & Hj)|]; injection Hj as <-;
    [apply spends_utxo_prev|]; by apply spends_utxo_witness.
Qed.

End spent.

Section wallet.
Context {P : Platform} {S : Secp} {H : Hashes} {M : Midstates} {T : TapEnv} {C : SchnorrEnv}
  {E : PsetEnv} {K : Zkp} {J : JsonStrings} {WE : WolletEnv} {BE : BuilderEnv}.

Lemma spends_utxo_offer u i s pr : spends_utxo u i -> spends_utxo u (offer_input s pr i).
Proof. intros [? ? ? ? ? ? ?]. by split. Qed.

Lemma abf_stored (abf : Tweak) k (m : gmap ProprietaryKey bytes) : de sd_abf <$> <[k := ext_ser abf]> m !! k = Some (Ok abf).
Proof. rewrite lookup_insert_eq. exact (f_equal Some (sd_ok sd_abf abf I)). Qed.

Lemma offer_input_abf (s : TxOutSecrets) pr i : get_abf_in (offer_input s pr i) = Some (Ok (asset_bf s)).
Proof.
  unfold get_abf_in. assert (i_proprietary (offer_input s pr i) =
    <[liquidex_key PSBT_ELEMENTS_LIQUIDEX_IN_ABF := ext_ser (asset_bf s)]> (i_proprietary i)) as -> by reflexivity.
  apply abf_stored.
Qed.

Lemma if_mine_keeps {A B} (c : Cache) (t : A -> B) spk f (x y : A) :
  (forall k x y, f k x = Ok y -> t y = t x) -> if_mine c spk f x = Ok y -> t y = t x.
Proof.
  intros Hf. unfold if_mine. destruct (Wollet.index c spk) as [k|[]]; try done; [|by intros [= ->]].
  destruct (f k x) eqn:Ef; [|done]. intros [= ->]. by eapply Hf.
Qed.

Lemma rmapM_one {A B X} (f : A -> result B X) x l : rmapM f [x] = Ok l <-> exists y, f x = Ok y /\ l = [y].
Proof.
  cbn [rmapM]. rewrite rbind_ok. split.
  - intros (y & Hy & [= <-]). by exists y.
  - intros (y & Hy & ->). by exists y.
Qed.

End wallet.

Section made.
Context {P : Platform} {S : Secp} {H : Hashes} {M : Midstates} {T : TapEnv} {C : SchnorrEnv}
  {E : PsetEnv} {K : Zkp} {J : JsonStrings} {WE : WolletEnv} {BE : BuilderEnv}.
Context {ZL : ZkpLaws} {ZX : ZkpExact}.

(** What a proposal takes from an input, but for its signature, and from an output. *)
Definition offer (i : PsetInput) :=
  (extract_input (i <| final_script_sig := None |> <| final_script_witness := None |>),
   (i_asset i, i_amount i, i_proprietary i, i_blind_value_proof i),
   (required_time_locktime i, required_height_locktime i)).
Definition request (o : PsetOutput) :=
  (extract_output o, o_asset o, o_amount o, o_proprietary o, o_blind_value_proof o).

(** What the descriptor adds to inputs and outputs (scripts, keys and their origins) is not
    part of a proposal. *)
Class DescribeLaws : Prop :=
  { describe_input_offer k i j : describe_input k i = Ok j -> offer j = offer i;
    describe_input_scripts k i j : describe_input k i = Ok j ->
      final_script_sig j = final_script_sig i /\ final_script_witness j = final_script_witness i;
    describe_output_request k o o' : describe_output k o = Ok o' -> request o' = request o }.

(** Signed and finalized: one input, with a script or a witness, and nothing else changed. *)
Definition signed (p q : PartiallySignedTransaction) : Prop :=
  global q = global p /\ outputs q = outputs p /\
  exists i j, inputs p = [i] /\ inputs q = [j] /\ offer j = offer i /\
    (default [] (final_script_sig j) <> [] \/ default [] (final_script_witness j) <> []).

(** The offer of a PSET: the spent output of the wallet and what is asked for it. *)
Record offers (p : PartiallySignedTransaction) (u : WalletTxOut) (s' : TxOutSecrets) (t : Tweak) : Prop :=
  { of_counts : sanity_check p = Ok ();
    of_scalars : scalars (global p) = [t];
    of_balance : cong (scalar t) (sec_factor (wo_unblinded u) - sec_factor s');
    of_input : exists i pr, inputs p = [i] /\ spends_utxo u i /\
      get_abf_in i = Some (Ok (asset_bf (wo_unblinded u))) /\ i_blind_value_proof i = Some pr /\
      blind_value_proof_verify pr (sec_value (wo_unblinded u))
        (Generator_new_blinded (sec_asset (wo_unblinded u)) (asset_bf (wo_unblinded u))) (commit (wo_unblinded u)) = true;
    of_output : exists o txout pr, outputs p = [o] /\ extract_output o = Ok txout /\
      asset txout = AssetConfidential (Generator_new_blinded (sec_asset s') (asset_bf s')) /\
      value txout = ValueConfidential (commit s') /\
      o_asset o = Some (sec_asset s') /\ o_amount o = Some (sec_value s') /\
      get_abf_out o = Some (Ok (asset_bf s')) /\ o_blind_value_proof o = Some pr /\
      blind_value_proof_verify pr (sec_value s')
        (Generator_new_blinded (sec_asset s') (asset_bf s')) (commit s') = true;
    of_nonce : exists o txout k, outputs p = [o] /\ extract_output o = Ok txout /\ nonce txout = NonceConfidential k;
    of_frame : tx_version (tx_data (global p)) = 2 /\ fallback_locktime (tx_data (global p)) = None }.

Lemma blind_request_ok rc o r o' s' r' :
  blind_request rc o r = (Ok (o', s'), r') ->
  sec_asset s' = rc_asset rc /\ sec_value s' = rc_satoshi rc /\
  exists ecdh rp fake pr ap, o' = request_output s' ecdh rp fake pr ap o /\
    blind_value_proof_verify pr (sec_value s') (Generator_new_blinded (sec_asset s') (asset_bf s')) (commit s') = true.
Proof.
  unfold blind_request. intros Hb. act_step Hb as pk ? [Hpk ->]%act_lift_ok.
  act_step Hb as abf r1 ?. act_step Hb as vbf r2 ?. act_step Hb as sk r3 ?.
  act_step Hb as [nc sh] ? [_ ->]%act_lift_ok. act_step Hb as ecdh ? [_ ->]%act_lift_ok.
  act_step Hb as rp ? [_ ->]%act_lift_ok. act_step Hb as fake ? [_ ->]%act_lift_ok.
  act_step Hb as pr r4 Hpr%dex_proof_verifies. act_step Hb as ap r5 ?.
  apply act_ret_ok in Hb as [[= <- <-] _]. split_and!; [done..|]. by exists ecdh, rp, fake, pr, ap.
Qed.

Section requested.
Context (s' : TxOutSecrets) (ecdh : PublicKey) (rp pr : RangeProof) (fake ap : SurjectionProof) (o : PsetOutput).
Abbreviation o' := (request_output s' ecdh rp fake pr ap o).

Lemma requested_abf : get_abf_out o' = Some (Ok (asset_bf s')).
Proof.
  unfold get_abf_out. assert (o_proprietary o' =
    <[liquidex_key PSBT_ELEMENTS_LIQUIDEX_OUT_ABF := ext_ser (asset_bf s')]> (o_proprietary o)) as -> by reflexivity.
  apply abf_stored.
Qed.

Lemma requested_txout :
  extract_output o' = Ok (mkTxOut (AssetConfidential (Generator_new_blinded (sec_asset s') (asset_bf s')))
    (ValueConfidential (commit s')) (NonceConfidential ecdh) (o_script_pubkey o) (mkTxOutWitness (Some fake) (Some rp))).
Proof.
  unfold extract_output.
  assert (asset_comm o' = Some (Generator_new_blinded (sec_asset s') (asset_bf s'))) as -> by reflexivity.
  assert (amount_comm o' = Some (commit s')) as -> by reflexivity.
  assert (ecdh_pubkey o' = Some (mkBtcPk ecdh true)) as -> by reflexivity.
  assert (o_script_pubkey o' = o_script_pubkey o) as -> by reflexivity.
  assert (asset_surjection_proof o' = Some fake) as -> by reflexivity.
  by assert (value_rangeproof o' = Some rp) as -> by reflexivity.
Qed.

Lemma requested_terms : o_asset o' = o_asset o /\ o_amount o' = o_amount o /\ o_blind_value_proof o' = Some pr.
Proof. split_and!; reflexivity. Qed.
End requested.

(** The PSET before the details of the descriptor. *)
Lemma unsigned_offers (u : WalletTxOut) (rc : Recipient) i pr s' ecdh rp fake pr' ap t :
  spends_utxo u i ->
  blind_value_proof_verify pr (sec_value (wo_unblinded u))
    (Generator_new_blinded (sec_asset (wo_unblinded u)) (asset_bf (wo_unblinded u))) (commit (wo_unblinded u)) = true ->
  sec_asset s' = rc_asset rc -> sec_value s' = rc_satoshi rc ->
  blind_value_proof_verify pr' (sec_value s') (Generator_new_blinded (sec_asset s') (asset_bf s')) (commit s') = true ->
  cong (scalar t) (sec_factor (wo_unblinded u) - sec_factor s') ->
  offers (mkPset (set_counts (mkGlobal TxData_default 2 ∅ [t] None ∅ ∅) 1 1)
            [offer_input (wo_unblinded u) pr i] [request_output s' ecdh rp fake pr' ap (recipient_output rc)]) u s' t.
Proof.
  intros Hi Hpr Ha Hv Hpr' Ht. split; [done|done|done| | | |done].
  - exists (offer_input (wo_unblinded u) pr i), pr. split; [done|]. split; [by apply spends_utxo_offer|].
    split; [apply offer_input_abf|]. done.
  - exists (request_output s' ecdh rp fake pr' ap (recipient_output rc)). eexists _, pr'. split; [done|].
    split; [apply requested_txout|]. split; [done|]. split; [done|].
    destruct (requested_terms s' ecdh rp pr' fake ap (recipient_output rc)) as (-> & -> & ->).
    split; [by rewrite Ha|]. split; [by rewrite Hv|]. split; [apply requested_abf|]. done.
  - eexists _, _, ecdh. split; [done|]. split; [apply requested_txout|done].
Qed.

Lemma bare_offer i j : offer j = offer i -> bare_in (extract_input i) -> bare_in (extract_input j).
Proof.
  intros Hof. pose proof (f_equal (fun x => bare_in x.1.1) Hof) as Hb. cbn beta in Hb. clear Hof.
  change (bare_in (extract_input j) = bare_in (extract_input i)) in Hb. by rewrite Hb.
Qed.

(** What does not change the offer keeps it. *)
Lemma offers_keep p q u s' t i j o o' :
  offers p u s' t -> inputs p = [i] -> inputs q = [j] -> outputs p = [o] -> outputs q = [o'] ->
  offer j = offer i -> request o' = request o -> tx_data (global q) = tx_data (global p) -> scalars (global q) = scalars (global p) ->
  offers q u s' t.
Proof.
  intros [Hc Hs Hb (i0 & pr & Hi0 & Hsu & Habf & Hpr & Hv) (o0 & txout & pr' & Ho0 & Hx & Hxa & Hxv & Hoa & Hov & Hob & Hop & Hovv) (o1 & t1 & k1 & Ho1 & Hx1 & Hn1) Hfr].
  intros Hi Hj Ho Ho' Hof Hrq Htd Hsc. rewrite Hi in Hi0. injection Hi0 as <-. rewrite Ho in Ho0. injection Ho0 as <-.
  rewrite Ho in Ho1. injection Ho1 as <-. split; [|by rewrite Hsc|done| | | |by rewrite Htd].
  - unfold sanity_check, n_inputs, n_outputs in *. rewrite Htd, Hj, Ho'. rewrite Hi, Ho in Hc. exact Hc.
  - exists j, pr. 
    pose proof (f_equal (fun x => txid (previous_output x.1.1)) Hof : previous_txid j = previous_txid i).
    pose proof (f_equal (fun x => vout (previous_output x.1.1)) Hof : previous_output_index j = previous_output_index i).
    pose proof (f_equal (fun x => x.1.2.1.1.1) Hof : i_asset j = i_asset i).
    pose proof (f_equal (fun x => x.1.2.1.1.2) Hof : i_amount j = i_amount i).
    pose proof (f_equal (fun x => x.1.2.1.2) Hof : i_proprietary j = i_proprietary i) as Ep.
    pose proof (f_equal (fun x => x.1.2.2) Hof : i_blind_value_proof j = i_blind_value_proof i) as Eb. pose proof Hof as Hof'.
    pose proof (f_equal (fun x => x.2.1) Hof : required_time_locktime j = required_time_locktime i).
    pose proof (f_equal (fun x => x.2.2) Hof : required_height_locktime j = required_height_locktime i). clear Hof.
    destruct Hsu as [S1 S2 S3 S4 S5 S6 S7].
    split; [done|]. split; [split; try congruence; by apply (bare_offer i)|]. unfold get_abf_in in *. by rewrite Ep, Eb.
  - exists o', txout, pr'. unfold get_abf_out in *.
    rewrite (f_equal (fun x => x.1.1.1.1) Hrq : extract_output o' = extract_output o).
    rewrite (f_equal (fun x => x.1.1.1.2) Hrq : o_asset o' = o_asset o).
    rewrite (f_equal (fun x => x.1.1.2) Hrq : o_amount o' = o_amount o).
    rewrite (f_equal (fun x => x.1.2) Hrq : o_proprietary o' = o_proprietary o).
    by rewrite (f_equal snd Hrq : o_blind_value_proof o' = o_blind_value_proof o).
  - exists o', t1, k1. split; [done|]. by rewrite (f_equal (fun x => x.1.1.1.1) Hrq : extract_output o' = extract_output o).
Qed.

Lemma add_details_offers {DL : DescribeLaws} c p q u s' t : offers p u s' t -> add_details c p = Ok q -> offers q u s' t.
Proof.
  intros Hof. unfold add_details. destruct spk_count; [by intros [= <-]|].
  destruct (of_input _ _ _ _ Hof) as (i & _ & Hi & _). destruct (of_output _ _ _ _ Hof) as (o & _ & _ & Ho & _). rewrite Hi, Ho.
  intros (li & (j & Hj & ->)%rmapM_one & Hr)%rbind_ok.
  apply rbind_ok in Hr as (lo & (o' & Ho' & ->)%rmapM_one & [= <-]).
  eapply (offers_keep p _ u s' t i j o o'); try done; cbn [inputs outputs].
  - unfold input_details in Hj. destruct (witness_utxo i); [|by injection Hj as ->].
    eapply if_mine_keeps; [|exact Hj]. apply describe_input_offer.
  - eapply if_mine_keeps; [|exact Ho']. apply describe_output_request.
Qed.

Lemma signed_offers p q u s' t : offers p u s' t -> signed p q -> offers q u s' t.
Proof.
  intros Hof (Hg & Ho & i & j & Hi & Hj & Hij & _).
  destruct (of_output _ _ _ _ Hof) as (o & _ & _ & Ho0 & _). eapply (offers_keep p q u s' t i j o o); try done.
  - by rewrite Ho.
  - by rewrite Hg.
  - by rewrite Hg.
Qed.

Lemma finish_make_offers {DL : DescribeLaws} {W} (st : Store W) c w b r p r' :
  finish_liquidex_make st c w b r = (Ok p, r') ->
  exists op rc m u s' t, selected_utxos b = Some [op] /\ recipients b = [rc] /\ utxos_map c = Ok m /\ m !! op = Some u /\
    sec_asset s' = rc_asset rc /\ sec_value s' = rc_satoshi rc /\ offers p u s' t.
Proof.
  unfold finish_liquidex_make. intros Hm. act_step Hm as sel ? [Hsel%ok_or_ok ->]%act_lift_ok.
  act_step Hm as op ? [Hop ->]%act_lift_ok. destruct sel as [|op' [|]]; [done| |done]. injection Hop as <-.
  act_step Hm as rc ? [Hrc ->]%act_lift_ok. destruct (recipients b) as [|rc' [|]] eqn:Erc; [done| |done]. injection Hrc as <-.
  act_step Hm as m ? [Hu ->]%act_lift_ok. destruct (utxos_map c) as [m'|] eqn:Em; [|done]. injection Hu as ->.
  act_step Hm as u ? [Hu%ok_or_ok ->]%act_lift_ok.
  act_step Hm as [n d] ? [Hd ->]%act_lift_ok.
  destruct (wallet_input _ _ _ _ _) as [[n' d']|] eqn:Ewi; [|done]. injection Hd as -> ->.
  apply wallet_input_adds in Ewi as (i & Hp & Hsu & Hsec). cbn [d_pset inp_txout_sec inputs new_v2 length] in Hp, Hsec.
  rewrite Hsec, lookup_insert_eq, Hp in Hm. cbn [ok_or] in Hm.
  act_step Hm as s ? [[= <-] ->]%act_lift_ok. act_step Hm as pr r1 Hpr%dex_proof_verifies.
  cbn [add_input new_v2 inputs outputs global app alter list_alter] in Hm.
  change (outputs (add_output (recipient_output rc') _) !! 0%nat) with (Some (recipient_output rc')) in Hm. cbn [ok_or] in Hm.
  act_step Hm as o ? [[= <-] ->]%act_lift_ok.
  act_step Hm as [o' s'] r2 (Ha & Hv & ecdh & rp & fake & pr' & ap & -> & Hpr')%blind_request_ok.
  destruct (maker_scalar_ok (scalar_offset (wo_unblinded u)) (scalar_offset s')) as (t & Ht & Hc). rewrite Ht in Hm.
  act_step Hm as t' ? [[= <-] ->]%act_lift_ok. apply act_lift_ok in Hm as [Hq _].
  destruct (add_details c _) as [q|] eqn:Eq; [|done]. injection Hq as ->.
  exists op', rc', m, u, s', t. split_and!; try done. eapply add_details_offers; [|exact Eq].
  rewrite !scalar_offset_factor in Hc.
  exact (unsigned_offers u rc' i pr s' ecdh rp fake pr' ap t Hsu Hpr Ha Hv Hpr' Hc).
Qed.

Lemma offers_proposal p q u s' t (fin : PartiallySignedTransaction -> option PartiallySignedTransaction) :
  offers p u s' t -> fin p = Some q -> signed p q -> (forall tx, extract_tx q = Ok tx -> Transaction_wf tx) ->
  exists prop pr pr' tx txin txout, from_pset fin p = Ok prop /\ dex_scalars prop = [t] /\
    dex_inputs prop = [mkDexSecrets (sec_asset (wo_unblinded u)) (asset_bf (wo_unblinded u)) (sec_value (wo_unblinded u)) (Some pr)] /\
    dex_outputs prop = [mkDexSecrets (sec_asset s') (asset_bf s') (sec_value s') (Some pr')] /\
    transaction prop = Ok tx /\ input tx = [txin] /\ output tx = [txout] /\
    previous_output txin = wo_outpoint u /\ is_empty (script_sig txin) && is_empty (script_witness (in_witness txin)) = false /\
    asset txout = AssetConfidential (Generator_new_blinded (sec_asset s') (asset_bf s')) /\
    value txout = ValueConfidential (commit s') /\
    blind_value_proof_verify pr (sec_value (wo_unblinded u))
      (Generator_new_blinded (sec_asset (wo_unblinded u)) (asset_bf (wo_unblinded u))) (commit (wo_unblinded u)) = true /\
    blind_value_proof_verify pr' (sec_value s') (Generator_new_blinded (sec_asset s') (asset_bf s')) (commit s') = true /\
    (version tx = 2 /\ lock_time tx = LockTime_ZERO /\ bare_in txin /\ is_pegin txin = negb (Z.land (vout (wo_outpoint u)) (Z.shiftl 1 30) =? 0) /\
     exists k, nonce txout = NonceConfidential k).
Proof.
  intros Hof Hfin Hsig Hwf. pose proof (signed_offers _ _ _ _ _ Hof Hsig) as Hoq.
  destruct Hoq as [Hc Hs _ (i & pr & Hi & Hsu & Habf & Hpr & Hv) (o & txout & pr' & Ho & Hx & Hxa & Hxv & Hoa & Hov & Hob & Hop & Hovv) (o1 & t1 & k1 & Ho1 & Hx1 & Hn1) [Hf1 Hf2]].
  destruct Hsig as (_ & _ & i0 & j & _ & Hj & _ & Hne). rewrite Hi in Hj. injection Hj as <-.
  assert (Hl : locktime q = Ok LockTime_ZERO).
  { unfold locktime. rewrite Hi. cbn [foldl add_requirement]. rewrite (su_time _ _ Hsu), (su_height _ _ Hsu). by rewrite Hf2. }
  set (tx := mkTransaction 2 LockTime_ZERO [extract_input i] [txout]).
  assert (Htx : extract_tx q = Ok tx).
  { unfold extract_tx. rewrite Hc, Hl, Hi, Ho. cbn [rbind rmapM map]. by rewrite Hx, Hf1. }
  specialize (Hwf tx Htx).
  set (din := mkDexSecrets (sec_asset (wo_unblinded u)) (asset_bf (wo_unblinded u)) (sec_value (wo_unblinded u)) (Some pr)).
  set (dout := mkDexSecrets (sec_asset s') (asset_bf s') (sec_value s') (Some pr')).
  exists (mkProposal 1 (to_hex (serialize tx)) [din] [dout] [t]), pr, pr', tx, (extract_input i), txout.
  split.
  { unfold from_pset. rewrite Hfin. cbn [ok_or rbind]. rewrite Htx. cbn [map_err rbind]. rewrite Hi, Ho, Hs. cbn [length Nat.eqb negb].
    assert (bool_decide (final_script_sig i = None) && bool_decide (final_script_witness i = None) = false) as ->.
    { destruct (final_script_sig i), (final_script_witness i); try done. by destruct Hne. }
    assert (input_secrets i = Ok din) as ->.
    { unfold input_secrets. by rewrite (su_asset _ _ Hsu), Habf, (su_amount _ _ Hsu), Hpr. }
    cbn [rbind]. assert (output_secrets o = Ok dout) as ->; [|done].
    unfold output_secrets. by rewrite Hoa, Hob, Hov, Hop. }
  split_and!; try done.
  - unfold transaction. cbn [dex_tx]. unfold from_hex. rewrite length_to_hex.
    rewrite (Nat.mul_comm 2), Nat.Div0.mod_mul. cbn [Nat.eqb negb]. rewrite hex_collect_to_hex. cbn [map_err rbind].
    by rewrite (proj2 (deserialize_ok (serialize tx) tx)).
  - unfold extract_input. cbn [previous_output]. rewrite (su_txid _ _ Hsu), (su_vout _ _ Hsu). by destruct (wo_outpoint u).
  - unfold extract_input. cbn [script_sig in_witness script_witness].
    destruct (default [] (final_script_sig i)), (default [] (final_script_witness i)); try done. by destruct Hne.
  - apply (su_bare _ _ Hsu).
  - unfold extract_input. cbn [is_pegin]. unfold pset_is_pegin. by rewrite (su_vout _ _ Hsu).
  - exists k1. rewrite Ho in Ho1. injection Ho1 as <-. rewrite Hx in Hx1. by injection Hx1 as <-.
Qed.
End made.


(** ** A concrete proposal *)

Import WolletSample.
Import BlindSample.

Module DexSample.
#[local] Existing Instance Model.Secp_model.

Program Definition BuilderEnv_dex : BuilderEnv :=
  {| Contract := bytes;
     contract_hash k := Some k;
     contract_json _ := None;
     spk_count := false;
     has_wildcard := true;
     amp0_address := None;
     address_at chain i := ok_or (from_script (sample_spk chain i) (Some (pk_inner (bkey 73))) LIQUID) ScriptNotMine;
     is_segwit := true;
     max_weight_to_satisfy := 107;
     parse_with_params _ _ := None;
     address_text _ := EmptyString;
     parse_asset _ := None;
     asset_text _ := EmptyString;
     TxBuilder.blind_asset_proof a _ := Some (to_proof a);
     TxBuilder.blind_value_proof v _ _ _ := Some (to_proof (le_bytes 8 v));
     TxBuilder.blind_last _ _ := None;
     TxBuilder.SecretKey := unit;
     shared_secret_text _ _ := EmptyString;
     blind_last26 _ _ := None;
     read26 p := Some p;
     read25 p := Some p;
     describe_input _ i := Ok i;
     describe_output _ o := Ok o;
     key_origins := [];
     asset_iter := elements;
     utxo_iter m := (map_to_list m).*2;
     secret_iter := map_to_list |}.
Solve All Obligations with done.
#[export] Existing Instance BuilderEnv_dex.
#[export] Instance DescribeLaws_dex : DescribeLaws.
Proof. split; by intros k i j [= <-]. Qed.
#[export] Instance ZkpExact_model : ZkpExact.
Proof.
  intros v bf nonce g p Hp%open_range_ok. cbn. unfold toy_verify. rewrite Hp. by rewrite bool_decide_true.
Qed.

(** The wallet holds [sec0] and asks 300 of another asset for it. *)
Definition coin : TxOut :=
  mkTxOut (AssetConfidential (sec_gen sec0)) (ValueConfidential (commit sec0)) NonceNull mine0 TxOutWitness_empty.
Definition coin_tx : Transaction :=
  mkTransaction 2 (LockTime_from_consensus 0) [spend (mkOutPoint (hash Byte.x77) 3)] [coin].
Definition coin_id : bytes := Eval vm_compute in tx_txid coin_tx.
Definition coin_point : OutPoint := mkOutPoint coin_id 0.
Definition coin_update : Update :=
  mkUpdate 4 0 (mkDownload [(coin_id, coin_tx)] [(coin_point, sec0)])
    [(coin_id, None)] [] [] sample_scripts default_blockheader [] (mkLastUnused 0 1).
Definition maker : Cache * gmap bytes bytes := applied coin_update state0.
Definition asked : Recipient := mkRecipient 300 mine1 (Some (pk_inner (bkey 72))) usd.
Definition maker_builder : TxBuilder :=
  set_wallet_utxos (with_recipients (TxBuilder_new (CustomElements (mkElementsParams lbtc (hash Byte.x01) LIQUID "sample"))) [asked])
    [coin_point].
Definition made : result PartiallySignedTransaction dex_error * Z :=
  finish_liquidex_make memory_store maker.1 maker.2 maker_builder 1.
Definition made_pset : PartiallySignedTransaction := match made.1 with Ok p => p | Err _ => new_v2 end.
Definition sign_input (i : PsetInput) : PsetInput := i <| final_script_witness := Some [[Byte.x01]] |>.
Definition sign (p : PartiallySignedTransaction) : PartiallySignedTransaction :=
  mkPset (global p) (map sign_input (inputs p)) (outputs p).

Lemma made_ok : finish_liquidex_make memory_store maker.1 maker.2 maker_builder 1 = (Ok made_pset, made.2).
Proof.
  assert (Hok : is_ok made.1 = true) by (vm_compute; reflexivity). unfold made_pset, made in *.
  destruct (finish_liquidex_make _ _ _ _ _) as [[p|e] r]; done.
Qed.

Lemma sign_signed p : length (inputs p) = 1%nat -> signed p (sign p).
Proof.
  destruct p as [g [|i [|]] os]; try done. intros _. split; [reflexivity|]. split; [reflexivity|].
  exists i, (sign_input i). split; [reflexivity|]. split; [reflexivity|]. split; [reflexivity|]. right. cbn. discriminate.
Qed.
Lemma made_signed : signed made_pset (sign made_pset).
Proof. apply sign_signed. vm_compute. reflexivity. Qed.

(** A transaction that is read back from its own bytes. *)
Definition readable (tx : Transaction) : bool :=
  match deserialize (serialize tx) with Ok tx' => bool_decide (tx' = tx) | Err _ => false end.
Lemma readable_wf tx : readable tx = true -> Transaction_wf tx.
Proof.
  unfold readable. destruct (deserialize _) as [tx'|] eqn:Ed; [|done]. intros <-%bool_decide_eq_true.
  by apply deserialize_ok in Ed as [Hwf _].
Qed.
Lemma made_wf tx : extract_tx (sign made_pset) = Ok tx -> Transaction_wf tx.
Proof.
  intros Ht. apply readable_wf.
  assert (Hr : match extract_tx (sign made_pset) with Ok tx => readable tx | Err _ => false end = true) by (vm_compute; reflexivity).
  by rewrite Ht in Hr.
Qed.
End DexSample.
Import DexSample.

