(* ===== verification/LiquidexTake.v ===== *)
(** * Taking a LiquiDEX proposal

    [TxBuilder::finish_liquidex_take]: the taker completes the maker's transaction with its own
    inputs, an output for what the maker sends, change and the fee.  The amounts of every asset
    add up, and what the maker signed is not touched. *)

From S2P Require Import Prelude Order Float Encode Hex Script Timelocks Confidential Transaction TxMetrics Sighash Merkle Taproot TapSighash Store Block Update Cache Address Network Wollet Views Delegation Pset PsetValue PsetCodec PsetMeta TxBuilder BuilderLedger Blind BlindBalance Liquidex.

Section take.
Context {P : Platform} {S : Secp} {H : Hashes} {M : Midstates} {T : TapEnv} {C : SchnorrEnv}
  {E : PsetEnv} {K : Zkp} {J : JsonStrings} {WE : WolletEnv} {BE : BuilderEnv}.
Context {W : Type} (txs_store : Store W) (c : Cache) (w : W).

(** A generator with its asset and blinding factor: the domain of a surjection proof. *)
Definition target : Type := (Generator * bytes * Tweak)%type.

(** [SurjectionInput::Known .. .surjection_target(..).expect(..)]. *)
Definition known_target (a : AssetId) (abf : Tweak) : result target dex_error :=
  map_err (fun _ => DexPanic) (surjection_target (SurjKnown a abf)).

(** What the maker's half of the PSET says; [to_pset] writes all of it, so that these checks do
    not fail. *)
Record half := mkHalf { h_asset : AssetId; h_satoshi : Z; h_abf : Tweak }.

Definition maker_input (p : PartiallySignedTransaction) : result half dex_error :=
  match inputs p with
  | [i] =>
      let? a := ok_or (i_asset i) (Dex TakerInvalidParams) in
      let? v := ok_or (i_amount i) (Dex TakerInvalidParams) in
      let? abf := ok_or (get_abf_in i) (Dex TakerInvalidParams) in
      let? abf := map_err DexCodec abf in
      Ok (mkHalf a v abf)
  | _ => Err (Dex TakerInvalidParams)
  end.
Definition maker_output (p : PartiallySignedTransaction) : result half dex_error :=
  match outputs p with
  | [o] =>
      let? a := ok_or (o_asset o) (Dex TakerInvalidParams) in
      let? v := ok_or (o_amount o) (Dex TakerInvalidParams) in
      let? abf := ok_or (get_abf_out o) (Dex TakerInvalidParams) in
      let? abf := map_err DexCodec abf in
      Ok (mkHalf a v abf)
  | _ => Err (Dex TakerInvalidParams)
  end.

(** The maker's input as [blind_last] gets it: the value blinding factor is unknown, the one
    that cancels the asset blinding factor is used. *)
Definition maker_secrets (m : half) : TxOutSecrets :=
  mkSecrets (h_asset m) (h_abf m) (h_satoshi m) (vbf_last (h_satoshi m) (h_abf m) [] []).

(** Inputs of one asset until [go] says no; the domain and the amount grow with them. *)
Fixpoint add_inputs (rp : bool) (go : Z -> bool) (l : list WalletTxOut) (d : Draft) (domain : list target)
    (satoshi_in : Z) : result (Draft * list target * Z) dex_error :=
  match l with
  | [] => Ok (d, domain, satoshi_in)
  | u :: l =>
      let? (_, d) := lift_build (wallet_input txs_store w rp d u) in
      let? t := known_target (sec_asset (wo_unblinded u)) (asset_bf (wo_unblinded u)) in
      let satoshi_in := wrap_u64 (satoshi_in + utxo_value u) in
      if go satoshi_in then add_inputs rp go l d (domain ++ [t]) satoshi_in
      else Ok (d, domain ++ [t], satoshi_in)
  end.

(** What the maker asks for, when it is not the policy asset. *)
Definition fund_maker (rp : bool) (utxos : list WalletTxOut) (out : half) (d : Draft) (domain : list target)
  : result (Draft * list target) dex_error :=
  if bool_decide (h_asset out = policy_asset) then Ok (d, domain)
  else
    let? (d, domain, satoshi_in) :=
      add_inputs rp (fun satoshi_in => satoshi_in <? h_satoshi out) (of_asset utxo_asset (h_asset out) utxos) d domain 0 in
    if satoshi_in <? h_satoshi out
    then Err (DexBuild (InsufficientFunds (wrap_u64 (h_satoshi out - satoshi_in)) (h_asset out) false))
    else if h_satoshi out <? satoshi_in then
      let? d := lift_build (pay_change c (wrap_u64 (satoshi_in - h_satoshi out)) (h_asset out) d) in
      Ok (d, domain)
    else Ok (d, domain).

(** What the policy asset has in and out before the wallet's inputs. *)
Definition policy_start (inp out : half) : Z * Z :=
  let satoshi_out := if bool_decide (h_asset out = policy_asset) then h_satoshi out else 0 in
  if bool_decide (h_asset inp = policy_asset)
  then (h_satoshi inp, wrap_u64 (satoshi_out + h_satoshi inp))
  else (0, satoshi_out).

(** The transaction with a temporary fee: the draft, the domain, and what the policy asset has
    in and out. *)
Definition assemble_take (b : TxBuilder) (p : PartiallySignedTransaction) (inp out : half)
  : result (Draft * list target * (Z * Z)) dex_error :=
  let rp := tb_add_input_rangeproofs b in
  let? (_, int) := lift_build (wollet_ok (inner_address address_at spk_count has_wildcard c Internal None)) in
  let? (_, ext) := lift_build (wollet_ok (inner_address address_at spk_count has_wildcard c External None)) in
  let? utxos := lift_build (wollet_ok (utxos_map c)) in
  let? t := known_target (h_asset inp) (h_abf inp) in
  let d := mkDraft p {[0%nat := maker_secrets inp]} 0 int ext in
  let? d := lift_build (pay_external c (h_satoshi inp) (h_asset inp) d) in
  let? (d, domain) := fund_maker rp (utxo_iter utxos) out d [t] in
  let '(satoshi_in, satoshi_out) := policy_start inp out in
  let? (d, domain, satoshi_in) :=
    add_inputs rp (fun _ => true) (of_asset utxo_asset policy_asset (utxo_iter utxos)) d domain satoshi_in in
  let need := wrap_u64 (satoshi_out + temp_fee) in
  if satoshi_in <=? need
  then Err (DexBuild (InsufficientFunds (wrap_u64 (wrap_u64 (need + 1) - satoshi_in)) policy_asset false))
  else
    let? d := lift_build (pay_change c (wrap_u64 (wrap_u64 (satoshi_in - satoshi_out) - temp_fee)) policy_asset d) in
    Ok (with_pset d (add_output (new_explicit [] temp_fee policy_asset None) (d_pset d)), domain, (satoshi_in, satoshi_out)).

(** The first output is the maker's; the taker blinds all others but the fee. *)
Definition mark_output (prf : SurjectionProof) (vout : nat) (o : PsetOutput) : PsetOutput :=
  let o := if (vout =? 0)%nat then o <| asset_surjection_proof := Some prf |> <| blinder_index := None |> else o in
  if (0 <? vout)%nat && negb (is_empty (o_script_pubkey o)) then o <| blinder_index := Some 1 |> else o.

Definition dex_blind (p : PartiallySignedTransaction) (secrets : gmap nat TxOutSecrets)
  : action ZkpRng dex_error PartiallySignedTransaction :=
  fun r => let '(res, (p, r)) := Blind.blind_last secrets (p, r) in
           (match res with Ok _ => Ok p | Err e => Err (DexBlind e) end, r).

Definition finish_liquidex_take (b : TxBuilder) (proposals : list (LiquidexProposal Validated))
  : action ZkpRng dex_error PartiallySignedTransaction :=
  let! proposal := act_lift (match proposals with [p] => Ok p | _ => Err (Dex TakerInvalidParams) end) in
  let! p := act_lift (to_pset proposal) in
  let! inp := act_lift (maker_input p) in
  let! out := act_lift (maker_output p) in
  let! (d, domain, (satoshi_in, satoshi_out)) := act_lift (assemble_take b p inp out) in
  let! prf := fun r => let '(res, r) := SurjectionProof_new (h_asset out) (h_abf out) domain r in (ok_or res DexProof, r) in
  let p := mkPset (global (d_pset d)) (inputs (d_pset d)) (imap (mark_output prf) (outputs (d_pset d))) in
  let! temp := dex_blind p (inp_txout_sec d) in
  let! tx := act_lift (map_err DexPset (extract_tx temp)) in
  let weight := wrap_u64 (inp_weight d + (if ct_discount b then discount_weight tx else weight tx)) in
  let fee := calculate_fee weight (tb_fee_rate b) in
  let need := wrap_u64 (satoshi_out + fee) in
  if satoshi_in <=? need
  then act_lift (Err (DexBuild (InsufficientFunds (wrap_u64 (wrap_u64 (need + 1) - satoshi_in)) policy_asset false)))
  else
    let n := n_outputs p in
    let p := set_amount (n - 1) fee (set_amount (n - 2) (wrap_u64 (wrap_u64 (satoshi_in - satoshi_out) - fee)) p) in
    let! p := dex_blind p (inp_txout_sec d) in
    act_lift (lift_build (add_details c p)).
End take.

(** ** Blinding keeps the terms *)

#[local] Set Default Proof Using "Type*".

Section keeps.
Context {P : Platform} {S : Secp} {H : Hashes} {M : Midstates} {T : TapEnv} {C : SchnorrEnv}
  {E : PsetEnv} {K : Zkp}.

(** The commitments of an output and the proof of its range. *)
Definition out_base (o : PsetOutput) := (asset_comm o, amount_comm o, ecdh_pubkey o, value_rangeproof o).

(** An output keeps its terms; one without a blinding key keeps its commitments. *)
Definition out_keeps (o o' : PsetOutput) : Prop :=
  out_terms o' = out_terms o /\ (blinding_key o = None -> out_base o' = out_base o).
Record blind_keeps (p p' : PartiallySignedTransaction) : Prop := mkBlindKeeps
  { bk_data : tx_data (global p') = tx_data (global p);
    bk_inputs : inputs p' = inputs p;
    bk_outputs : Forall2 out_keeps (outputs p) (outputs p') }.

#[export] Instance out_keeps_pre : PreOrder out_keeps.
Proof.
  split; [done|]. intros x y z [H1 H2] [H3 H4]. split; [congruence|]. intros Hx. rewrite H4, H2; [done|done|].
  by rewrite (f_equal snd H1 : blinding_key y = blinding_key x).
Qed.
#[export] Instance blind_keeps_pre : PreOrder blind_keeps.
Proof.
  split.
  - intros p. split; [done|done|]. induction (outputs p); by constructor.
  - intros p q r [H0 H1 H2] [H3 H4 H5]. split; [congruence|congruence|]. by transitivity (outputs q).
Qed.

Lemma same_keeps p p' : tx_data (global p') = tx_data (global p) -> inputs p' = inputs p -> outputs p' = outputs p ->
  blind_keeps p p'.
Proof. intros Hd Hi Ho. split; [done|done|]. rewrite Ho. reflexivity. Qed.

Lemma out_at_lookup i p r o s' : out_at i (p, r) = (Ok o, s') -> outputs p !! i = Some o /\ s' = (p, r).
Proof. unfold out_at. intros Ho. act_step Ho as x ? [<- ->]%act_gets_ok. by apply act_lift_ok in Ho as [?%ok_or_ok ->]. Qed.

Lemma update_out_keeps i f p r u p' r' :
  (forall o, outputs p !! i = Some o -> out_keeps o (f o)) ->
  update_out i f (p, r) = (Ok u, (p', r')) -> blind_keeps p p'.
Proof.
  intros Hf Hu. apply act_modify_ok in Hu as [= -> _]. split; [done|done|]. cbn [outputs fst].
  apply Forall2_same_length_lookup. split; [by rewrite length_alter|]. intros j x y Hx Hy.
  destruct (decide (i = j)) as [->|Hn].
  - rewrite list_lookup_alter_eq, Hx in Hy. injection Hy as <-. by apply Hf.
  - rewrite list_lookup_alter_ne, Hx in Hy by done. by injection Hy as <-.
Qed.

(** An output with a blinding key may be committed to. *)
Lemma marked_keeps p p' i o o' : blind_keeps p p' -> outputs p !! i = Some o -> outputs p' !! i = Some o' ->
  blinding_key o <> None -> blinding_key o' <> None.
Proof.
  intros [_ _ Hf] Ho Ho' Hk. destruct (Forall2_lookup_lr _ _ _ _ _ _ Hf Ho Ho') as [Ht _].
  by rewrite (f_equal snd Ht : blinding_key o' = blinding_key o).
Qed.

Lemma out_keeps_marked (f : PsetOutput -> PsetOutput) o :
  out_terms (f o) = out_terms o -> blinding_key o <> None -> out_keeps o (f o).
Proof. intros Ht Hk. by split. Qed.

Lemma commit_output_keeps i t v abf vbf p r u p' r' :
  (forall o, outputs p !! i = Some o -> blinding_key o <> None) ->
  commit_output i t v abf vbf (p, r) = (Ok u, (p', r')) -> blind_keeps p p'.
Proof.
  intros Hk Hc. unfold commit_output in Hc.
  act_step Hc as [] [p1 r1] H1. apply update_out_keeps in H1; [|intros o Ho; apply out_keeps_marked; [reflexivity|by apply Hk]].
  act_step Hc as o1 ? [Ho1 ->]%out_at_lookup. act_step Hc as a ? [_ ->]%act_lift_ok.
  act_step Hc as prf [p2 r2] [_ Hp2]%act_zoom_ok. cbn [fst snd] in Hp2. subst p2.
  act_step Hc as [] [p3 r3] H3. apply update_out_keeps in H3; [|by intros o Ho].
  act_step Hc as g ? [_ ->]%act_lift_ok. act_step Hc as vc ? [_ ->]%act_lift_ok.
  act_step Hc as prf' [p4 r4] [_ Hp4]%act_zoom_ok. cbn [fst snd] in Hp4. subst p4.
  apply update_out_keeps in Hc; [|by intros o Ho]. by rewrite H1, H3.
Qed.

Lemma blind_output_keeps dom i p r e p' r' : blind_output dom i (p, r) = (Ok e, (p', r')) -> blind_keeps p p'.
Proof.
  unfold blind_output. intros Hb. act_step Hb as o ? [Ho ->]%out_at_lookup.
  act_step Hb as pk ? [Hpk%ok_or_ok ->]%act_lift_ok.
  act_step Hb as [[[t abf] vbf] esk] [p1 r1] [_ Hp1]%act_zoom_ok. cbn [fst snd] in Hp1. subst p1.
  act_step Hb as v ? [_ ->]%act_lift_ok. act_step Hb as u [p2 r2] Hc. apply act_ret_ok in Hb as [_ [= <- _]].
  eapply commit_output_keeps; [|exact Hc]. intros o' Ho'. rewrite Ho in Ho'. injection Ho' as <-. by destruct (blinding_key o).
Qed.

Lemma blind_outputs_keeps dom l p r es p' r' :
  act_mapM (blind_output dom) l (p, r) = (Ok es, (p', r')) -> blind_keeps p p'.
Proof.
  revert p r es p' r'. induction l as [|i l IH]; intros p r es p' r' Hm; cbn [act_mapM] in Hm.
  { apply act_ret_ok in Hm as [_ [= <- _]]. done. }
  act_step Hm as e [p1 r1] H1%blind_output_keeps. act_step Hm as es' [p2 r2] H2%IH.
  apply act_ret_ok in Hm as [_ [= <- _]]. by rewrite H1.
Qed.

Lemma blind_non_last_keeps m p r x p' r' : blind_non_last m (p, r) = (Ok x, (p', r')) -> blind_keeps p p'.
Proof.
  unfold blind_non_last. intros Hb. act_step Hb as p1 ? [<- ->]%act_gets_ok.
  act_step Hb as [ins outs] ? [_ ->]%act_lift_ok. destruct outs as [|n outs]; [by apply act_ret_ok in Hb as [_ [= <- _]]|].
  act_step Hb as dom ? [_ ->]%act_lift_ok. act_step Hb as es [p2 r2] H2%blind_outputs_keeps.
  act_step Hb as [[v abf] vbf] ? [_ ->]%act_lift_ok. act_step Hb as ng ? [_ ->]%act_lift_ok.
  act_step Hb as t ? [_ ->]%act_lift_ok. act_step Hb as [] [p3 r3] Hp3. apply act_ret_ok in Hb as [_ [= <- _]].
  unfold push_scalar in Hp3. apply act_modify_ok in Hp3 as [= -> _]. rewrite H2. by apply same_keeps.
Qed.

Lemma blind_all_but_keeps x m p r u p' r' : blind_all_but x m (p, r) = (Ok u, (p', r')) -> blind_keeps p p'.
Proof.
  unfold blind_all_but. intros Hb. act_step Hb as o ? [Ho ->]%out_at_lookup.
  act_step Hb as [] [p1 r1] H1. apply update_out_keeps in H1; [|by intros o' Ho'].
  act_step Hb as y [p2 r2] H2%blind_non_last_keeps. apply update_out_keeps in Hb; [|by intros o' Ho'].
  by rewrite H1, H2.
Qed.

Lemma blind_last_output_keeps x m ins p r u p' r' :
  blind_last_output x m ins (p, r) = (Ok u, (p', r')) -> blind_keeps p p'.
Proof.
  unfold blind_last_output. intros Hb. act_step Hb as p1 ? [<- ->]%act_gets_ok.
  act_step Hb as dom ? [_ ->]%act_lift_ok. act_step Hb as o ? [Ho ->]%out_at_lookup. act_step Hb as a ? [_ ->]%act_lift_ok.
  act_step Hb as abf [p2 r2] [_ Hp]%act_zoom_ok. cbn [fst snd] in Hp. subst p2.
  act_step Hb as ap [p2 r3] [_ Hp]%act_zoom_ok. cbn [fst snd] in Hp. subst p2.
  act_step Hb as v ? [_ ->]%act_lift_ok. act_step Hb as es ? [_ ->]%act_lift_ok. act_step Hb as vbf ? [_ ->]%act_lift_ok.
  act_step Hb as pk ? [Hpk%ok_or_ok ->]%act_lift_ok. act_step Hb as sk [p2 r4] [_ Hp]%act_zoom_ok. cbn [fst snd] in Hp. subst p2.
  act_step Hb as vnr [p2 r5] [_ Hp]%act_zoom_ok. cbn [fst snd] in Hp. subst p2.
  act_step Hb as [] [p3 r6] Hc. apply act_modify_ok in Hb as [= -> _].
  etransitivity; [eapply commit_output_keeps; [|exact Hc]|by apply same_keeps].
  intros o' Ho'. rewrite Ho in Ho'. injection Ho' as <-. by rewrite Hpk.
Qed.

Lemma blind_last_keeps m p r u p' r' : Blind.blind_last m (p, r) = (Ok u, (p', r')) -> blind_keeps p p'.
Proof.
  unfold Blind.blind_last. intros Hb. act_step Hb as p1 ? [<- ->]%act_gets_ok.
  act_step Hb as [ins outs] ? [_ ->]%act_lift_ok. destruct (last outs) as [x|]; [|by apply act_lift_ok in Hb as [? _]].
  destruct (removelast outs); [by eapply blind_last_output_keeps|].
  act_step Hb as [] [p2 r2] H2%blind_all_but_keeps. apply blind_last_output_keeps in Hb. by rewrite H2.
Qed.

Lemma dex_blind_keeps p m r q r' : dex_blind p m r = (Ok q, r') -> blind_keeps p q.
Proof.
  unfold dex_blind. destruct (Blind.blind_last m (p, r)) as [[u|e] [q' r'']] eqn:Eb; [|done]. intros [= -> _].
  by eapply blind_last_keeps.
Qed.

(** ** Extraction *)

(** A PSET of version 2 without lock times in which every output has an asset and an amount. *)
Definition valued (o : PsetOutput) : Prop := is_Some (o_amount o) /\ is_Some (o_asset o).
Record extractable (p : PartiallySignedTransaction) : Prop := mkExtractable
  { ex_counts : counts_ok p;
    ex_version : tx_version (tx_data (global p)) = 2;
    ex_lock : fallback_locktime (tx_data (global p)) = None;
    ex_inputs : Forall requires_nothing (inputs p);
    ex_outputs : Forall valued (outputs p) }.

Lemma extractable_input i p : requires_nothing i -> extractable p -> extractable (add_input i p).
Proof using All.
  intros Hi [Hc Hv Hl Hin Hout]. split; [|done|done| |done].
  - apply (pset_step_counts p); [apply step_add_input|done].
  - by apply Forall_app_2; [|apply Forall_singleton].
Qed.
Lemma extractable_output o p : valued o -> extractable p -> extractable (add_output o p).
Proof using All.
  intros Ho [Hc Hv Hl Hin Hout]. split; [|done|done|done|].
  - apply (pset_step_counts p); [apply step_add_output|done].
  - by apply Forall_app_2; [|apply Forall_singleton].
Qed.

(** The outputs may change as long as they keep an asset and an amount. *)
Lemma extractable_outputs p q : tx_data (global q) = tx_data (global p) -> inputs q = inputs p ->
  Forall2 (fun o o' => valued o -> valued o') (outputs p) (outputs q) -> extractable p -> extractable q.
Proof using All.
  intros Hd Hi Ho [[Hci Hco] Hv Hl Hin Hout]. unfold n_inputs, n_outputs in *. split.
  - split; unfold n_inputs, n_outputs; rewrite Hd; [by rewrite Hi|]. by rewrite <-(Forall2_length _ _ _ Ho).
  - by rewrite Hd.
  - by rewrite Hd.
  - by rewrite Hi.
  - clear -Ho Hout. induction Ho as [|x y l k Hxy _ IH]; [done|]. apply Forall_cons in Hout as [Hx Hl].
    constructor; [by apply Hxy|by apply IH].
Qed.

Lemma valued_terms o o' : out_terms o' = out_terms o -> valued o -> valued o'.
Proof using All.
  intros Ht [Hv Ha]. split.
  - by rewrite (f_equal (fun x => x.1.1.2) Ht : o_amount o' = o_amount o).
  - by rewrite (f_equal (fun x => x.1.2) Ht : o_asset o' = o_asset o).
Qed.
Lemma extractable_keeps p q : blind_keeps p q -> extractable p -> extractable q.
Proof using All.
  intros [Hd Hi Ho]. apply extractable_outputs; [done|done|]. eapply Forall2_impl; [exact Ho|].
  intros o o' [Ht _]. by apply valued_terms.
Qed.

(** Such a PSET gives a transaction. *)
Lemma extract_output_valued o : valued o -> exists t, extract_output o = Ok t.
Proof using All.
  intros [[v Hv] [a Ha]]. unfold extract_output. rewrite Hv, Ha.
  destruct (asset_comm o), (amount_comm o); cbn [rbind]; by eexists.
Qed.
Lemma extractable_tx p : extractable p -> exists outs,
  extract_tx p = Ok (mkTransaction 2 LockTime_ZERO (map extract_input (inputs p)) outs) /\
  Forall2 (fun o t => extract_output o = Ok t) (outputs p) outs.
Proof using All.
  intros [Hc Hv Hl Hin Hout].
  assert (exists outs, Forall2 (fun o t => extract_output o = Ok t) (outputs p) outs) as [outs Hos].
  { clear Hc Hv Hl Hin. induction Hout as [|o l Ho _ [ts Hts]]; [by exists []|]. apply extract_output_valued in Ho as [t Ht].
    exists (t :: ts). by constructor. }
  exists outs. split; [|done]. unfold extract_tx. apply sanity_check_ok in Hc as ->. cbn [rbind].
  assert (locktime p = Ok LockTime_ZERO) as ->.
  { unfold locktime. pose proof (requirements_spec (inputs p)) as Hs. destruct (foldl _ _ _) as [t h].
    destruct Hs as (_ & _ & Ut & Uh). rewrite (proj2 Ut Hin), (proj2 Uh Hin), Hl. done. }
  cbn [rbind]. apply rmapM_ok in Hos as ->. cbn [rbind]. by rewrite Hv.
Qed.
End keeps.

(** ** The books *)

#[local] Set Default Proof Using "All".

Section books.
Context {P : Platform} {S : Secp} {H : Hashes} {M : Midstates} {T : TapEnv} {C : SchnorrEnv}
  {E : PsetEnv} {K : Zkp} {J : JsonStrings} {WE : WolletEnv} {BE : BuilderEnv}.

(** What comes in of an asset less what goes out. *)
Definition net (a : AssetId) (p : PartiallySignedTransaction) : Z := ins a p - outs a p.
Definition amount_if (a x : AssetId) (n : Z) : Z := if decide (x = a) then n else 0.

Lemma net_add_input a i p x v : i_asset i = Some x -> i_amount i = Some v -> net a (add_input i p) = net a p + amount_if a x v.
Proof.
  intros Ha Hv. unfold net, ins, outs. cbn [add_input inputs outputs]. rewrite sum_map_app.
  unfold sum_map at 2. cbn [foldr]. unfold in_worth at 2. rewrite Ha, Hv. cbn [default id]. unfold amount_if.
  destruct (decide (x = a)) as [->|Hn]; [rewrite decide_True by done|rewrite decide_False by congruence]; lia.
Qed.

Lemma net_add_output a o p x v : o_asset o = Some x -> o_amount o = Some v -> net a (add_output o p) = net a p - amount_if a x v.
Proof.
  intros Ha Hv. unfold net, ins, outs. cbn [add_output inputs outputs]. rewrite sum_map_app.
  unfold sum_map at 3. cbn [foldr]. unfold out_worth at 2. rewrite Ha, Hv. cbn [default id]. unfold amount_if.
  destruct (decide (x = a)) as [->|Hn]; [rewrite decide_True by done|rewrite decide_False by congruence]; lia.
Qed.

(** From one draft to the next the inputs and outputs only grow, and can be extracted. *)
Record grows (d d' : Draft) : Prop := mkGrows
  { gr_inputs : exists l, inputs (d_pset d') = inputs (d_pset d) ++ l;
    gr_outputs : exists l, outputs (d_pset d') = outputs (d_pset d) ++ l;
    gr_extractable : extractable (d_pset d) -> extractable (d_pset d') }.
#[export] Instance grows_pre : PreOrder grows.
Proof.
  split.
  - intros d. split; [exists []; by rewrite app_nil_r|exists []; by rewrite app_nil_r|done].
  - intros d1 d2 d3 [[l1 H1] [k1 K1] C1] [[l2 H2] [k2 K2] C2]. split; [| |auto].
    + exists (l1 ++ l2). by rewrite H2, H1, app_assoc.
    + exists (k1 ++ k2). by rewrite K2, K1, app_assoc.
Qed.

Lemma wallet_input_net {W} (st : Store W) w rp u d n d' :
  wallet_input st w rp d u = Ok (n, d') ->
  grows d d' /\ forall a, net a (d_pset d') = net a (d_pset d) + amount_if a (utxo_asset u) (utxo_value u).
Proof.
  intros (i & Hd & Hsu & _)%wallet_input_adds. rewrite Hd. split.
  - split; rewrite Hd; [by exists [i]|exists []; cbn; by rewrite app_nil_r|].
    apply extractable_input. split; [apply (su_time _ _ Hsu)|apply (su_height _ _ Hsu)].
  - intros a. apply net_add_input; [apply (su_asset _ _ Hsu)|apply (su_amount _ _ Hsu)].
Qed.

Lemma addressee_pays (c : Cache) sat x i ch r i' d : addressee_inner c sat x i ch = Ok (r, i') ->
  grows d (wallet_output d r) /\ (forall a, net a (d_pset (wallet_output d r)) = net a (d_pset d) - amount_if a x sat) /\
  outputs (d_pset (wallet_output d r)) = outputs (d_pset d) ++ [recipient_output r] /\ rc_satoshi r = sat /\ rc_asset r = x.
Proof.
  intros [Hs Ha]%(addressee_inner_ok c (fun _ => True)). split.
  - split; [exists []; cbn; by rewrite app_nil_r|by exists [recipient_output r]|].
    apply extractable_output. split; by eexists.
  - split; [|done]. intros a. cbn [wallet_output with_pset d_pset]. apply net_add_output; cbn; congruence.
Qed.

Lemma pay_change_net c sat x d d' : pay_change c sat x d = Ok d' ->
  grows d d' /\ (forall a, net a (d_pset d') = net a (d_pset d) - amount_if a x sat) /\
  inputs (d_pset d') = inputs (d_pset d) /\
  exists r, outputs (d_pset d') = outputs (d_pset d) ++ [recipient_output r] /\ rc_satoshi r = sat /\ rc_asset r = x.
Proof.
  unfold pay_change. intros ([r i] & Hr & [= <-])%rbind_ok.
  destruct (addressee_pays _ _ _ _ _ _ _ (mkDraft (d_pset d) (inp_txout_sec d) (inp_weight d) i (d_last_unused_external d)) Hr)
    as (Hg & Hn & Ho & Hrs). split; [|by split; [|split; [|exists r]]]. destruct Hg. by split.
Qed.

(** A script of an address the wallet receives at. *)
Definition receives (spk : Script) : Prop :=
  exists a, address_script_pubkey a = Some spk /\
    ((exists n, address_at External n = Ok a) \/ (exists f n, amp0_address = Some f /\ f n = Ok a)).

Lemma wollet_ok_ok {A} (r : result A wollet_error) x : wollet_ok r = Ok x <-> r = Ok x.
Proof. destruct r; unfold wollet_ok; split; congruence. Qed.

Lemma addressee_receives c sat x i r i' : addressee_inner c sat x i false = Ok (r, i') -> receives (rc_script_pubkey r).
Proof.
  unfold addressee_inner, from_address, receives. destruct amp0_address as [f|] eqn:Ef.
  - intros (a & Ha%wollet_ok_ok & Hr)%rbind_ok. apply rbind_ok in Hr as (r1 & Hr1 & [= <- _]).
    apply rbind_ok in Hr1 as (spk & Hs%ok_or_ok & [= <-]). exists a. split; [done|]. right. by eexists f, _.
  - intros ([a k] & Ha%wollet_ok_ok & Hr)%rbind_ok. cbn [andb] in Hr. apply rbind_ok in Hr as (r1 & Hr1 & [= <- _]).
    apply rbind_ok in Hr1 as (spk & Hs%ok_or_ok & [= <-]). exists a. split; [done|]. left.
    apply rbind_ok in Ha as (n & _ & Hn). apply rbind_ok in Hn as (a' & Hn & [= -> _]). by exists n.
Qed.

Lemma pay_external_net c sat x d d' : pay_external c sat x d = Ok d' ->
  grows d d' /\ (forall a, net a (d_pset d') = net a (d_pset d) - amount_if a x sat) /\
  exists r, outputs (d_pset d') = outputs (d_pset d) ++ [recipient_output r] /\ rc_satoshi r = sat /\ rc_asset r = x /\
    receives (rc_script_pubkey r).
Proof.
  unfold pay_external. intros ([r i] & Hr & [= <-])%rbind_ok.
  destruct (addressee_pays _ _ _ _ _ _ _ (mkDraft (d_pset d) (inp_txout_sec d) (inp_weight d) (d_last_unused_internal d) i) Hr)
    as (Hg & Hn & Ho & Hrs & Hra). apply addressee_receives in Hr. split; [|by split; [|exists r]]. destruct Hg. by split.
Qed.

Lemma lift_build_ok {A} (r : result A build_error) x : lift_build r = Ok x <-> r = Ok x.
Proof. destruct r; unfold lift_build, map_err; split; congruence. Qed.

Lemma amount_if_cong a x n m : cong64 n m -> cong64 (amount_if a x n) (amount_if a x m).
Proof. unfold amount_if. by destruct (decide _). Qed.

Lemma amount_if_add a x n m : amount_if a x (n + m) = amount_if a x n + amount_if a x m.
Proof. unfold amount_if. destruct (decide _); lia. Qed.

Lemma add_inputs_net {W} (st : Store W) w rp go x l d dom sat d' dom' sat' :
  Forall (fun u => utxo_asset u = x) l ->
  add_inputs st w rp go l d dom sat = Ok (d', dom', sat') ->
  grows d d' /\ exists n, cong64 sat' (sat + n) /\ forall a, net a (d_pset d') = net a (d_pset d) + amount_if a x n.
Proof.
  intros Hl. revert d dom sat. induction Hl as [|u l Hu _ IH]; intros d dom sat; cbn [add_inputs].
  { intros [= <- <- <-]. split; [done|]. exists 0. split; [by rewrite Z.add_0_r|]. intros a. unfold amount_if. destruct (decide _); lia. }
  intros ([n1 d1] & Hd1%lift_build_ok & Hr)%rbind_ok. apply rbind_ok in Hr as (t & _ & Hr).
  apply wallet_input_net in Hd1 as [Hg1 Hn1].
  assert (Hlast : forall d2 dom2 sat2, (d1, dom ++ [t], wrap_u64 (sat + utxo_value u)) = (d2, dom2, sat2) ->
    grows d d2 /\ exists n, cong64 sat2 (sat + n) /\ forall a, net a (d_pset d2) = net a (d_pset d) + amount_if a x n).
  { intros d2 dom2 sat2 [= <- <- <-]. split; [done|]. exists (utxo_value u). split; [apply cong64_wrap_u64|].
    intros a. by rewrite Hn1, Hu. }
  destruct (go _); [|by injection Hr as <- <- <-; eapply Hlast].
  apply IH in Hr as (Hg2 & n & Hs & Hn). split; [by rewrite Hg1|]. exists (utxo_value u + n). split.
  - rewrite Hs, cong64_wrap_u64. by rewrite Z.add_assoc.
  - intros a. rewrite Hn, Hn1, Hu, amount_if_add. lia.
Qed.

(** What the maker asks for is funded, unless it is the policy asset. *)
Lemma fund_maker_net {W} (st : Store W) c w rp utxos out d dom d' dom' :
  fund_maker st c w rp utxos out d dom = Ok (d', dom') ->
  grows d d' /\ forall a, cong64 (net a (d_pset d'))
    (net a (d_pset d) + (if decide (h_asset out = policy_asset) then 0 else amount_if a (h_asset out) (h_satoshi out))).
Proof.
  unfold fund_maker. case_bool_decide as Hp.
  { intros [= <- <-]. split; [done|]. intros a. rewrite decide_True by done. by rewrite Z.add_0_r. }
  intros ([[d1 dom1] sat] & Hd1 & Hr)%rbind_ok. apply (add_inputs_net _ _ _ _ (h_asset out)) in Hd1 as (Hg1 & n & Hs & Hn); [|apply of_asset_Forall].
  rewrite Z.add_0_l in Hs. destruct (Z.ltb_spec sat (h_satoshi out)); [done|].
  destruct (Z.ltb_spec (h_satoshi out) sat).
  - apply rbind_ok in Hr as (d2 & Hd2%lift_build_ok & [= <- <-]). apply pay_change_net in Hd2 as (Hg2 & Hn2 & _).
    split; [by rewrite Hg1|]. intros a. rewrite decide_False by done. rewrite Hn2, Hn. unfold amount_if.
    destruct (decide (h_asset out = a)); [|exists 0; lia]. destruct Hs as [k ->].
    destruct (cong64_wrap_u64 (n + k * 18446744073709551616 - h_satoshi out)) as [j ->]. exists (- k - j). lia.
  - injection Hr as <- <-. split; [done|]. intros a. rewrite decide_False by done. rewrite Hn.
    assert (sat = h_satoshi out) as <- by lia. unfold amount_if. destruct (decide (h_asset out = a)); [|done].
    by rewrite Hs.
Qed.

(** The policy asset before the wallet's inputs. *)
Lemma policy_start_net inp out : cong64 ((policy_start inp out).1 - (policy_start inp out).2)
  (- (if decide (h_asset out = policy_asset) then h_satoshi out else 0)).
Proof.
  unfold policy_start. case_bool_decide as Ho; case_bool_decide as Hi; cbn [fst snd]; try rewrite decide_True by done;
    try rewrite decide_False by done; try (exists 0; lia).
  - destruct (cong64_wrap_u64 (h_satoshi out + h_satoshi inp)) as [k ->]. exists (- k). lia.
  - destruct (cong64_wrap_u64 (0 + h_satoshi inp)) as [k ->]. exists (- k). lia.
Qed.

(** The draft: the maker's input and output, what the taker receives, what else there is, the
    change and the temporary fee. *)
Record drafted (p : PartiallySignedTransaction) (inp out : half) (d : Draft) (si so : Z) : Prop := mkDrafted
  { dr_inputs : exists l, inputs (d_pset d) = inputs p ++ l;
    dr_outputs : exists r l rc, outputs (d_pset d) = outputs p ++ [recipient_output r] ++ l ++
                   [recipient_output rc; new_explicit [] temp_fee policy_asset None] /\
                 rc_satoshi r = h_satoshi inp /\ rc_asset r = h_asset inp /\ receives (rc_script_pubkey r) /\
                 rc_asset rc = policy_asset /\
                 forall a, cong64 (ins a (d_pset d) - sum_map (out_worth a) (outputs p ++ [recipient_output r] ++ l))
                             (amount_if a policy_asset (si - so));
    dr_extractable : extractable p -> extractable (d_pset d) }.

Lemma assemble_take_drafted {W} (st : Store W) c w b p inp out d dom si so :
  (forall a, net a p = amount_if a (h_asset inp) (h_satoshi inp) - amount_if a (h_asset out) (h_satoshi out)) ->
  assemble_take st c w b p inp out = Ok (d, dom, (si, so)) -> drafted p inp out d si so.
Proof.
  intros Hp. unfold assemble_take. intros ([ai int] & _ & Hr)%rbind_ok. apply rbind_ok in Hr as ([ae ext] & _ & Hr).
  apply rbind_ok in Hr as (utxos & _ & Hr). apply rbind_ok in Hr as (t & _ & Hr).
  apply rbind_ok in Hr as (d1 & Hd1%lift_build_ok & Hr). apply pay_external_net in Hd1 as (Hg1 & Hn1 & r & Ho1 & Hrs & Hra & Hrr).
  cbn [d_pset] in Hn1, Ho1. apply rbind_ok in Hr as ([d2 dom2] & Hd2 & Hr). apply fund_maker_net in Hd2 as [Hg2 Hn2].
  pose proof (policy_start_net inp out) as Hps. destruct (policy_start inp out) as [si0 so0]. cbn [fst snd] in Hps.
  apply rbind_ok in Hr as ([[d3 dom3] si3] & Hd3 & Hr).
  apply (add_inputs_net _ _ _ _ policy_asset) in Hd3 as (Hg3 & n & Hs3 & Hn3); [|apply of_asset_Forall].
  destruct (Z.leb_spec si3 (wrap_u64 (so0 + temp_fee))); [done|].
  apply rbind_ok in Hr as (d4 & Hd4%lift_build_ok & Hr). injection Hr as <- <- <- <-.
  apply pay_change_net in Hd4 as (Hg4 & _ & Hi4 & rc & Ho4 & _ & Hca).
  assert (Hg23 : grows d1 d3) by (by rewrite Hg2).
  destruct (gr_outputs _ _ Hg23) as [l Hl]. split.
  - destruct Hg1 as [[l1 E1] _ _], Hg23 as [[l2 E2] _ _], Hg4 as [[l3 E3] _ _]. cbn [d_pset with_pset add_output inputs] in *.
    exists (l1 ++ l2 ++ l3). by rewrite E3, E2, E1, !app_assoc.
  - exists r, l, rc. cbn [d_pset with_pset add_output inputs outputs]. rewrite Ho4, Hl, Ho1, <-!app_assoc. cbn [app].
    split_and!; try done. intros x.
    assert (ins x (add_output (new_explicit [] temp_fee policy_asset None) (d_pset d4)) -
            sum_map (out_worth x) (outputs p ++ recipient_output r :: l) = net x (d_pset d3)) as ->.
    { unfold net, ins, outs. cbn [add_output inputs]. by rewrite Hi4, Hl, Ho1, <-app_assoc. }
    rewrite Hn3, (Hn2 x), Hn1, Hp. assert (Hq : cong64 (si3 - so0) (n - (if decide (h_asset out = policy_asset) then h_satoshi out else 0))).
    { destruct Hs3 as [j ->], Hps as [k Hk]. exists (j + k). lia. }
    rewrite (amount_if_cong x policy_asset _ _ Hq). unfold amount_if. exists 0.
    destruct (decide (h_asset out = policy_asset)) as [->|Ho]; repeat destruct (decide _); lia || congruence.
  - intros Hc. cbn [d_pset with_pset]. apply extractable_output; [split; by eexists|].
    apply (gr_extractable _ _ Hg4), (gr_extractable _ _ Hg23), (gr_extractable _ _ Hg1), Hc.
Qed.

(** ** The maker's half *)

(** What the maker fixes of its output: all that a signature commits to, and the range proof. *)
Definition signed_out (t : TxOut) := (asset t, value t, nonce t, script_pubkey t, rangeproof (out_witness t)).
Definition signed_part (o : PsetOutput) := match extract_output o with Ok t => Some (signed_out t) | Err _ => None end.

Lemma signed_part_keeps o o' : out_terms o' = out_terms o -> out_base o' = out_base o -> signed_part o' = signed_part o.
Proof.
  intros Ht Hb. unfold signed_part, extract_output.
  rewrite (f_equal (fun x => x.1.1.1) Ht : o_script_pubkey o' = o_script_pubkey o).
  rewrite (f_equal (fun x => x.1.1.2) Ht : o_amount o' = o_amount o), (f_equal (fun x => x.1.2) Ht : o_asset o' = o_asset o).
  injection Hb as -> -> -> Hr. destruct (asset_comm o); [|destruct (o_asset o)]; cbn [rbind]; [| |done];
    (destruct (amount_comm o); [|destruct (o_amount o)]; unfold signed_out; cbn; by rewrite ?Hr).
Qed.

Lemma signed_part_request o o' : request o' = request o -> signed_part o' = signed_part o.
Proof. intros Hr. unfold signed_part. by rewrite (f_equal (fun x => x.1.1.1.1) Hr : extract_output o' = extract_output o). Qed.

(** The maker's signature goes with its input. *)
Definition with_signature (u : TxIn) (sig : Script) (wit : list bytes) : TxIn :=
  mkTxIn (previous_output u) (is_pegin u) sig (sequence u) (asset_issuance u)
    (mkTxInWitness (amount_rangeproof (in_witness u)) (inflation_keys_rangeproof (in_witness u)) wit (pegin_witness (in_witness u))).
Lemma extract_signature i : extract_input i =
  with_signature (extract_input (i <| final_script_sig := None |> <| final_script_witness := None |>))
    (default [] (final_script_sig i)) (default [] (final_script_witness i)).
Proof. reflexivity. Qed.
Lemma extract_offer i j : offer j = offer i -> final_script_sig j = final_script_sig i ->
  final_script_witness j = final_script_witness i -> extract_input j = extract_input i.
Proof.
  intros Ho Hs Hw. rewrite (extract_signature i), (extract_signature j), Hs, Hw.
  by rewrite (f_equal (fun x => x.1.1) Ho : extract_input (j <| final_script_sig := None |> <| final_script_witness := None |>) = _).
Qed.

Lemma add_details_keeps {DL : DescribeLaws} c p q : add_details c p = Ok q ->
  tx_data (global q) = tx_data (global p) /\
  Forall2 (fun i j => extract_input j = extract_input i /\ (requires_nothing i -> requires_nothing j)) (inputs p) (inputs q) /\
  Forall2 (fun o o' => signed_part o' = signed_part o /\ (valued o -> valued o')) (outputs p) (outputs q).
Proof.
  unfold add_details. destruct spk_count.
  { intros [= <-]. split_and!; [done|by induction (inputs p); constructor|by induction (outputs p); constructor]. }
  intros (li & Hli%rmapM_ok & Hr)%rbind_ok. apply rbind_ok in Hr as (lo & Hlo%rmapM_ok & [= <-]). split_and!; [done| |].
  - eapply Forall2_impl; [exact Hli|]. intros i j. unfold input_details. destruct (witness_utxo i); [|by intros [= ->]].
    intros Hj. pose proof (if_mine_keeps c offer _ _ _ _ describe_input_offer Hj) as Ho.
    pose proof (if_mine_keeps c (fun i => (final_script_sig i, final_script_witness i)) _ _ _ _
      (fun k x y Hxy => f_equal2 pair (proj1 (describe_input_scripts k x y Hxy)) (proj2 (describe_input_scripts k x y Hxy))) Hj) as [= Hs Hw].
    split; [by apply extract_offer|]. unfold requires_nothing. pose proof (f_equal snd Ho) as [= -> ->]. done.
  - eapply Forall2_impl; [exact Hlo|]. intros o o' Ho'.
    pose proof (if_mine_keeps c request _ _ _ _ describe_output_request Ho') as Hr. split; [by apply signed_part_request|].
    unfold valued. by rewrite (f_equal (fun x => x.1.1.2) Hr : o_amount o' = o_amount o),
      (f_equal (fun x => x.1.1.1.2) Hr : o_asset o' = o_asset o).
Qed.

Lemma add_details_extractable {DL : DescribeLaws} c p q : add_details c p = Ok q -> extractable p -> extractable q.
Proof.
  intros (Hd & Hi & Ho)%add_details_keeps [[Hci Hco] Hv Hl Hin Hout]. unfold n_inputs, n_outputs in *. split.
  - split; unfold n_inputs, n_outputs; rewrite Hd; [by rewrite <-(Forall2_length _ _ _ Hi)|by rewrite <-(Forall2_length _ _ _ Ho)].
  - by rewrite Hd.
  - by rewrite Hd.
  - clear -Hi Hin. induction Hi as [|x y l k [_ Hxy] _ IH]; [done|]. apply Forall_cons in Hin as [Hx Hl].
    constructor; [by apply Hxy|by apply IH].
  - clear -Ho Hout. induction Ho as [|x y l k [_ Hxy] _ IH]; [done|]. apply Forall_cons in Hout as [Hx Hl].
    constructor; [by apply Hxy|by apply IH].
Qed.

(** The maker's input and output survive the conversion. *)
Lemma to_pset_input_extract txin i : extract_input (to_pset_input txin i) = extract_input (from_txin txin).
Proof.
  transitivity (with_signature (extract_input (from_txin txin)) (script_sig txin) (script_witness (in_witness txin)));
    [reflexivity|].
  pose proof (extract_from_txin txin) as Hx. cbn zeta in Hx. set (u := extract_input (from_txin txin)) in *. clearbody u.
  destruct Hx as (_ & Hs & _ & _ & Hw). rewrite <-Hs.
  assert (script_witness (in_witness txin) = script_witness (in_witness u)) as -> by (by rewrite Hw).
  by destruct u as [? ? ? ? ? []].
Qed.

(** An output of a validated proposal is confidential. *)
Definition blinded_out (t : TxOut) : Prop :=
  is_Some (Asset_commitment (asset t)) /\ is_Some (Value_commitment (value t)) /\ forall x, nonce t <> NonceExplicit x.
Lemma to_pset_output_extract txout o : blinded_out txout -> signed_part (to_pset_output txout o) = Some (signed_out txout).
Proof.
  intros ([g Hg] & [v Hv] & Hn). unfold signed_part, extract_output.
  assert (asset_comm (to_pset_output txout o) = Asset_commitment (asset txout)) as -> by reflexivity.
  assert (amount_comm (to_pset_output txout o) = Value_commitment (value txout)) as -> by reflexivity.
  assert (ecdh_pubkey (to_pset_output txout o) = (fun k => mkBtcPk k true) <$> Nonce_commitment (nonce txout)) as -> by reflexivity.
  assert (o_script_pubkey (to_pset_output txout o) = script_pubkey txout) as -> by reflexivity.
  assert (value_rangeproof (to_pset_output txout o) = rangeproof (out_witness txout)) as -> by reflexivity.
  generalize (to_pset_output txout o) as o'. intros o'. rewrite Hg, Hv. cbn [rbind]. unfold signed_out.
  cbn [asset value nonce script_pubkey out_witness rangeproof].
  assert (asset txout = AssetConfidential g) as -> by (by destruct (asset txout); try done; injection Hg as ->).
  assert (value txout = ValueConfidential v) as -> by (by destruct (value txout); try done; injection Hv as ->).
  assert (nonce_of ((fun k => mkBtcPk k true) <$> Nonce_commitment (nonce txout)) = nonce txout) as ->; [|done].
  destruct (nonce txout) as [|x|]; [done| |done]. by destruct (Hn x).
Qed.
Lemma signed_part_fields o t : signed_part o = Some (signed_out t) ->
  script_pubkey t = o_script_pubkey o /\ rangeproof (out_witness t) = value_rangeproof o.
Proof.
  unfold signed_part. destruct (extract_output o) as [t'|] eqn:Ht; [|done]. intros [= _ _ _ <- <-].
  unfold extract_output in Ht. apply rbind_ok in Ht as (a & _ & Ht). apply rbind_ok in Ht as (v & _ & Ht).
  injection Ht as <-. done.
Qed.
Lemma signed_part_script txout o t : signed_part (to_pset_output txout o) = Some (signed_out t) ->
  script_pubkey t = script_pubkey txout /\ rangeproof (out_witness t) = rangeproof (out_witness txout).
Proof.
  intros [H1 H2]%signed_part_fields. rewrite H1, H2. split; reflexivity.
Qed.

(** The digest of a single input and its output, with anyone allowed to add others, depends on
    these, the version and the lock time only. *)
Lemma single_digest tx tx' txin txout y sc v :
  version tx' = version tx -> lock_time tx' = lock_time tx ->
  input tx !! 0%nat = Some txin -> input tx' !! 0%nat = Some txin ->
  output tx !! 0%nat = Some txout -> output tx' !! 0%nat = Some y -> signed_out y = signed_out txout ->
  bip143_data tx' 0 sc v SinglePlusAnyoneCanPay = bip143_data tx 0 sc v SinglePlusAnyoneCanPay.
Proof.
  intros Hv Hl Hi Hi' Ho Ho' [= Ha Hw Hn Hs _]. unfold bip143_data. rewrite Hi, Hi', Ho, Ho', Hv, Hl.
  assert (encode_TxOut y = encode_TxOut txout) as -> by (unfold encode_TxOut; by rewrite Ha, Hw, Hn, Hs). reflexivity.
Qed.

(** ** Marking the outputs *)

Lemma mark_output_terms prf k o : out_terms (mark_output prf k o) = out_terms o.
Proof. unfold mark_output. destruct k; [done|]. cbn [Nat.eqb Nat.ltb Nat.leb andb]. by destruct (negb _). Qed.
Lemma mark_output_base prf k o : out_base (mark_output prf k o) = out_base o.
Proof. unfold mark_output. destruct k; [done|]. cbn [Nat.eqb Nat.ltb Nat.leb andb]. by destruct (negb _). Qed.

Lemma extractable_marked prf p : extractable p -> extractable (mkPset (global p) (inputs p) (imap (mark_output prf) (outputs p))).
Proof.
  apply extractable_outputs; [done|done|]. cbn [outputs]. apply Forall2_same_length_lookup. split; [by rewrite length_imap|].
  intros k x y Hx. rewrite list_lookup_imap, Hx. intros [= <-]. apply valued_terms, mark_output_terms.
Qed.
Lemma extractable_amount n x p : extractable p -> extractable (set_amount n x p).
Proof.
  apply extractable_outputs; [done|done|]. cbn [set_amount outputs]. apply Forall2_same_length_lookup. split; [by rewrite length_alter|].
  intros k o o' Ho. rewrite list_lookup_alter. destruct (decide (n = k)) as [->|]; rewrite Ho; [|by intros [= <-]].
  intros [= <-] [_ Ha]. split; [by eexists|exact Ha].
Qed.

Lemma terms_out_worth a o o' : out_terms o' = out_terms o -> out_worth a o' = out_worth a o.
Proof.
  intros Ht. unfold out_worth.
  by rewrite (f_equal (fun x => x.1.1.2) Ht : o_amount o' = o_amount o), (f_equal (fun x => x.1.2) Ht : o_asset o' = o_asset o).
Qed.

Lemma marked_worth a prf l : forall k, sum_map (out_worth a) (imap (fun n => mark_output prf (k + n)) l) = sum_map (out_worth a) l.
Proof.
  induction l as [|o l IH]; intros k; [done|]. cbn [imap]. rewrite !sum_map_cons. f_equal.
  - apply terms_out_worth, mark_output_terms.
  - rewrite <-(IH (Datatypes.S k)). f_equal. apply imap_ext. intros i x _. cbn. by rewrite Nat.add_succ_r.
Qed.

Lemma to_pset_requires txin i : requires_nothing (to_pset_input txin i).
Proof.
  assert (requires_nothing (from_txin txin)) as [H1 H2] by (unfold requires_nothing, from_txin; by destruct (is_pegin txin), (has_issuance txin)).
  split; [exact H1|exact H2].
Qed.

(** The PSET of a proposal: one input, one output, with what they say. *)
Lemma to_pset_halves v p inp out :
  to_pset v = Ok p -> maker_input p = Ok inp -> maker_output p = Ok out ->
  exists tx txin txout i o, transaction v = Ok tx /\ input tx = [txin] /\ output tx = [txout] /\
    dex_inputs v !! 0%nat = Some i /\ dex_outputs v !! 0%nat = Some o /\
    inputs p = [to_pset_input txin i] /\ outputs p = [to_pset_output txout o] /\ extractable p /\
    h_asset inp = dex_asset i /\ h_satoshi inp = satoshi i /\ h_asset out = dex_asset o /\ h_satoshi out = satoshi o.
Proof.
  unfold to_pset. intros (tx & Htx & Hr)%rbind_ok. destruct (input tx) as [|txin [|]] eqn:Ei; [done| |done].
  destruct (output tx) as [|txout [|]] eqn:Eo; [done| |done]. destruct (negb _); [done|].
  apply rbind_ok in Hr as (i & Hi%ok_or_ok & Hr). destruct (_ && _); [done|].
  apply rbind_ok in Hr as (o & Ho%ok_or_ok & Hr). injection Hr as <-. intros Hmi Hmo.
  exists tx, txin, txout, i, o. split_and!; try done.
  - split; [done|done|done|apply Forall_singleton, to_pset_requires|apply Forall_singleton; split; by eexists].
  - unfold maker_input in Hmi. cbn [set_scalars add_output add_input new_v2 inputs app] in Hmi.
    assert (i_asset (to_pset_input txin i) = Some (dex_asset i)) as E1 by reflexivity. rewrite E1 in Hmi. cbn [ok_or rbind] in Hmi.
    apply rbind_ok in Hmi as (x & _ & Hmi). apply rbind_ok in Hmi as (y & _ & Hmi). apply rbind_ok in Hmi as (z & _ & Hmi).
    by injection Hmi as <-.
  - unfold maker_input in Hmi. cbn [set_scalars add_output add_input new_v2 inputs app] in Hmi.
    apply rbind_ok in Hmi as (x & _ & Hmi).
    assert (i_amount (to_pset_input txin i) = Some (satoshi i)) as E1 by reflexivity. rewrite E1 in Hmi. cbn [ok_or rbind] in Hmi.
    apply rbind_ok in Hmi as (y & _ & Hmi). apply rbind_ok in Hmi as (z & _ & Hmi). by injection Hmi as <-.
  - unfold maker_output in Hmo. cbn [set_scalars add_output add_input new_v2 outputs app] in Hmo.
    assert (o_asset (to_pset_output txout o) = Some (dex_asset o)) as E1 by reflexivity. rewrite E1 in Hmo. cbn [ok_or rbind] in Hmo.
    apply rbind_ok in Hmo as (x & _ & Hmo). apply rbind_ok in Hmo as (y & _ & Hmo). apply rbind_ok in Hmo as (z & _ & Hmo).
    by injection Hmo as <-.
  - unfold maker_output in Hmo. cbn [set_scalars add_output add_input new_v2 outputs app] in Hmo.
    apply rbind_ok in Hmo as (x & _ & Hmo).
    assert (o_amount (to_pset_output txout o) = Some (satoshi o)) as E1 by reflexivity. rewrite E1 in Hmo. cbn [ok_or rbind] in Hmo.
    apply rbind_ok in Hmo as (y & _ & Hmo). apply rbind_ok in Hmo as (z & _ & Hmo). by injection Hmo as <-.
Qed.

(** The fee and the change: the marked outputs with the last two amounts replaced. *)
Lemma settle_take prf (d : Draft) A rc fee change :
  counts_ok (d_pset d) -> rc_asset rc = policy_asset ->
  outputs (d_pset d) = A ++ [recipient_output rc; new_explicit [] temp_fee policy_asset None] ->
  let p1 := mkPset (global (d_pset d)) (inputs (d_pset d)) (imap (mark_output prf) (outputs (d_pset d))) in
  let p2 := set_amount (n_outputs p1 - 1) fee (set_amount (n_outputs p1 - 2) change p1) in
  inputs p2 = inputs (d_pset d) /\
  exists tail, outputs p2 = imap (mark_output prf) A ++ tail /\
    forall a, sum_map (out_worth a) tail = amount_if a policy_asset (change + fee).
Proof.
  intros [_ Hc] Hra Ho p1 p2. split; [done|].
  assert (Hn : n_outputs p1 = (length A + 2)%nat).
  { unfold n_outputs, p1. cbn [global]. change (output_count _) with (n_outputs (d_pset d)). rewrite Hc, Ho, length_app. done. }
  set (rc' := mark_output prf (length A + 0) (recipient_output rc)).
  set (fo := mark_output prf (length A + 1) (new_explicit [] temp_fee policy_asset None)).
  assert (Hp1 : outputs p1 = imap (mark_output prf) A ++ [rc'; fo]).
  { unfold p1. cbn [outputs]. rewrite Ho, imap_app. done. }
  assert (Hl : length (imap (mark_output prf) A) = length A) by apply length_imap.
  assert (Hp2 : outputs p2 = imap (mark_output prf) A ++ [with_amount change rc'; with_amount fee fo]).
  { unfold p2. rewrite Hn. replace (length A + 2 - 2)%nat with (length (imap (mark_output prf) A)) by lia.
    replace (length A + 2 - 1)%nat with (length (imap (mark_output prf) A ++ [with_amount change rc'])) by (rewrite length_app; simpl; lia).
    rewrite (set_amount_outputs (imap (mark_output prf) A ++ [with_amount change rc']) fo []); [by rewrite <-app_assoc|].
    rewrite (set_amount_outputs _ rc' [fo] change p1 Hp1). by rewrite <-app_assoc. }
  exists [with_amount change rc'; with_amount fee fo]. split; [exact Hp2|]. intros a.
  assert (Hrc : o_asset rc' = Some policy_asset).
  { rewrite <-Hra. exact (f_equal (fun x => x.1.2) (mark_output_terms prf (length A + 0) (recipient_output rc))). }
  assert (Hfo : o_asset fo = Some policy_asset).
  { exact (f_equal (fun x => x.1.2) (mark_output_terms prf (length A + 1) (new_explicit [] temp_fee policy_asset None))). }
  clearbody rc' fo. rewrite !sum_map_cons, (out_worth_amount a change rc' _ Hrc), (out_worth_amount a fee fo _ Hfo).
  unfold amount_if. cbn. destruct (decide _); lia.
Qed.

(** The books of the maker's half. *)
Lemma to_pset_net p txin txout i o inp out a :
  inputs p = [to_pset_input txin i] -> outputs p = [to_pset_output txout o] ->
  h_asset inp = dex_asset i -> h_satoshi inp = satoshi i -> h_asset out = dex_asset o -> h_satoshi out = satoshi o ->
  net a p = amount_if a (h_asset inp) (h_satoshi inp) - amount_if a (h_asset out) (h_satoshi out).
Proof.
  intros Hpi Hpo -> -> -> ->. unfold net, ins, outs. rewrite Hpi, Hpo. unfold in_worth, out_worth, amount_if. cbn [sum_map foldr].
  assert (i_asset (to_pset_input txin i) = Some (dex_asset i)) as -> by reflexivity.
  assert (i_amount (to_pset_input txin i) = Some (satoshi i)) as -> by reflexivity.
  assert (o_asset (to_pset_output txout o) = Some (dex_asset o)) as -> by reflexivity.
  assert (o_amount (to_pset_output txout o) = Some (satoshi o)) as -> by reflexivity. cbn [default id].
  destruct (decide (dex_asset i = a)), (decide (dex_asset o = a)), (decide (Some (dex_asset i) = Some a)),
    (decide (Some (dex_asset o) = Some a)); try congruence; lia.
Qed.

Lemma keeps_worth a l k : Forall2 out_keeps l k -> sum_map (out_worth a) k = sum_map (out_worth a) l.
Proof. induction 1 as [|x y l k [Hxy _] _ IH]; [done|]. by rewrite !sum_map_cons, IH, (terms_out_worth a _ _ Hxy). Qed.

(** The PSET before the details: how it comes from the draft. *)
Record completed (p : PartiallySignedTransaction) (inp : half) (q : PartiallySignedTransaction) : Prop := mkCompleted
  { co_inputs : exists l, inputs q = inputs p ++ l;
    co_outputs : exists prf r A tail, rc_satoshi r = h_satoshi inp /\ rc_asset r = h_asset inp /\ receives (rc_script_pubkey r) /\
      Forall2 out_keeps (imap (mark_output prf) (outputs p ++ recipient_output r :: A) ++ tail) (outputs q);
    co_books a : cong64 (ins a q) (outs a q);
    co_extractable : extractable q }.

Lemma drafted_completed p inp out d si so prf fee p2 q :
  drafted p inp out d si so -> extractable p ->
  p2 = (let p1 := mkPset (global (d_pset d)) (inputs (d_pset d)) (imap (mark_output prf) (outputs (d_pset d))) in
        set_amount (n_outputs p1 - 1) fee
          (set_amount (n_outputs p1 - 2) (wrap_u64 (wrap_u64 (si - so) - fee)) p1)) ->
  blind_keeps p2 q -> completed p inp q.
Proof.
  intros [[li Hli] (r & lo & rc & Hlo & Hr1 & Hr2 & Hrr & Hr3 & Hbooks) Hcount] Hpc Hp2 Hk. specialize (Hcount Hpc).
  assert (Hx : extractable q).
  { apply (extractable_keeps p2 q Hk). rewrite Hp2. by apply extractable_amount, extractable_amount, extractable_marked. }
  destruct Hk as [_ Hki Hko]. pose proof (ex_counts _ Hcount) as Hcnt.
  set (change := wrap_u64 _) in Hp2.
  assert (Hcf : cong64 (change + fee) (si - so)).
  { unfold change. destruct (cong64_wrap_u64 (si - so)) as [k Hk], (cong64_wrap_u64 (wrap_u64 (si - so) - fee)) as [j Hj].
    exists (j + k). lia. }
  clearbody change. set (A := outputs p ++ [recipient_output r] ++ lo) in *.
  assert (HA : outputs (d_pset d) = A ++ [recipient_output rc; new_explicit [] temp_fee policy_asset None])
    by (unfold A; by rewrite Hlo, <-!app_assoc).
  destruct (settle_take prf d A rc fee change Hcnt Hr3 HA) as (Hi2 & tail & Ho2 & Htail).
  cbn zeta in Hp2. rewrite <-Hp2 in Hi2, Ho2. clear Hp2. split.
  - exists li. by rewrite Hki, Hi2, Hli.
  - exists prf, r, lo, tail. split_and!; try done. rewrite Ho2 in Hko. exact Hko.
  - intros a. assert (ins a q = ins a (d_pset d)) as -> by (unfold ins; by rewrite Hki, Hi2).
    assert (outs a q = sum_map (out_worth a) A + amount_if a policy_asset (change + fee)) as ->.
    { unfold outs. rewrite (keeps_worth a _ _ Hko), Ho2, sum_map_app, Htail. f_equal. exact (marked_worth a prf A 0). }
    destruct (Hbooks a) as [k Hk], (amount_if_cong a policy_asset _ _ Hcf) as [j Hj]. exists (k - j). lia.
  - exact Hx.
Qed.

(** The transaction of the completed PSET. *)
Lemma completed_tx {BL : BuilderLaws} {DL : DescribeLaws} {W} (st : Store W) c (w : W) (b : TxBuilder) p inp p3 q txin txout i o :
  completed p inp p3 -> add_details c p3 = Ok q ->
  inputs p = [to_pset_input txin i] -> outputs p = [to_pset_output txout o] ->
  h_asset inp = dex_asset i -> h_satoshi inp = satoshi i ->
  (forall a, cong64 (ins a q) (outs a q)) /\
  exists tx' x y, extract_tx q = Ok tx' /\ version tx' = 2 /\ lock_time tx' = LockTime_ZERO /\
    input tx' !! 0%nat = Some x /\ output tx' !! 0%nat = Some y /\ x = extract_input (from_txin txin) /\
    signed_part (to_pset_output txout o) = Some (signed_out y) /\
    exists k, outputs q !! 1%nat = Some k /\ o_amount k = Some (satoshi i) /\ o_asset k = Some (dex_asset i) /\
      receives (o_script_pubkey k).
Proof.
  intros [[li Hli] (prf & rc & A & tail & Hr1 & Hr2 & Hrr & Hko) Hbooks Hx] Hq Hpi Hpo Hia Hiv.
  pose proof (add_details_terms st c w b p3 q Hq) as Ht. pose proof (add_details_extractable c p3 q Hq Hx) as Hqx.
  destruct (add_details_keeps c p3 q Hq) as (_ & Hqi & Hqo). rewrite Hpo in Hko. cbn [app imap] in Hko.
  apply Forall2_cons_inv_l in Hko as (o3 & l3 & [Ht3 Hb3] & Hko & Hl3).
  apply Forall2_cons_inv_l in Hko as (k3 & l3' & [Hk3 _] & _ & ->).
  rewrite Hli, Hpi in Hqi. apply Forall2_cons_inv_l in Hqi as (j & lj & [Hj _] & _ & Hqj).
  rewrite Hl3 in Hqo. apply Forall2_cons_inv_l in Hqo as (o4 & l4 & [Ho4 _] & Hqo & Hq4).
  apply Forall2_cons_inv_l in Hqo as (k4 & l4' & _ & _ & ->).
  split; [intros a; destruct (same_terms_totals q p3 a Ht) as (-> & _ & ->); apply Hbooks|].
  apply extractable_tx in Hqx as (outs' & Hqx & Hos). rewrite Hq4 in Hos.
  apply Forall2_cons_inv_l in Hos as (y & ly & Hy & _ & ->). rewrite Hqj in Hqx.
  eexists _, _, y. split_and!; [exact Hqx|done|done|done|done| | |].
  - by rewrite Hj, to_pset_input_extract.
  - transitivity (signed_part o4); [|unfold signed_part; by rewrite Hy]. rewrite Ho4. symmetry.
    rewrite (signed_part_keeps _ _ Ht3 (Hb3 eq_refl)). apply signed_part_keeps; [apply mark_output_terms|apply mark_output_base].
  - destruct Ht as [_ Ht]. rewrite Hl3, Hq4 in Ht. cbn [map] in Ht.
    pose proof (f_equal (fun l => default (out_terms k4) (l !! 1%nat)) Ht : out_terms k4 = out_terms k3) as Hk4.
    exists k4. split; [by rewrite Hq4|]. rewrite Hk3 in Hk4.
    pose proof (eq_trans Hk4 (mark_output_terms prf 1 (recipient_output rc))) as Hm.
    rewrite (f_equal (fun x => x.1.1.2) Hm : o_amount k4 = Some (rc_satoshi rc)), (f_equal (fun x => x.1.2) Hm : o_asset k4 = Some (rc_asset rc)).
    rewrite (f_equal (fun x => x.1.1.1) Hm : o_script_pubkey k4 = rc_script_pubkey rc). by rewrite Hr1, Hr2, Hiv, Hia.
Qed.
End books.

(** A transaction that a PSET of version 2 can carry: what [finish_liquidex] makes. *)
Definition carried_half {S : Secp} (tx : Transaction) (txin : TxIn) (txout : TxOut) : Prop :=
  version tx = 2 /\ lock_time tx = LockTime_ZERO /\ plain_in txin /\ 0 <= vout (previous_output txin) < 2 ^ 30 /\ blinded_out txout.

(** What the wallet makes is such a transaction, when the spent output has an index that is not
    mistaken for flags. *)
Theorem made_proposal_carried {P : Platform} {S : Secp} {H : Hashes} {M : Midstates} {T : TapEnv} {C : SchnorrEnv}
    {E : PsetEnv} {K : Zkp} {J : JsonStrings} {WE : WolletEnv} {BE : BuilderEnv}
    {ZL : ZkpLaws} {ZX : ZkpExact} {DL : DescribeLaws} {W : Type} (st : Store W) (c : Cache) (w : W) (b : TxBuilder)
    (r r' : ZkpRng) (p q : PartiallySignedTransaction) (fin : PartiallySignedTransaction -> option PartiallySignedTransaction) :
  finish_liquidex_make st c w b r = (Ok p, r') ->
  fin p = Some q -> signed p q -> (forall tx, extract_tx q = Ok tx -> Transaction_wf tx) ->
  exists prop tx txin txout, from_pset fin p = Ok prop /\ transaction prop = Ok tx /\ input tx = [txin] /\ output tx = [txout] /\
    (0 <= vout (previous_output txin) < 2 ^ 30 -> carried_half tx txin txout).
Proof.
  intros (op & rc & m & u & s' & t & _ & _ & _ & _ & _ & _ & Hof)%finish_make_offers Hfin Hsig Hwf.
  destruct (offers_proposal _ _ _ _ _ _ Hof Hfin Hsig Hwf) as (prop & pr & pr' & tx & txin & txout & Hp & _ & _ & _ & Htx & Hti & Hto & Hprev & _ & Hxa & Hxv & _ & _ & Hv2 & Hl0 & (Hb1 & Hb2 & Hb3 & Hb4) & Hpg & k & Hk).
  exists prop, tx, txin, txout. split_and!; try done. intros Hvo. unfold carried_half, plain_in, blinded_out.
  rewrite Hxa, Hxv, Hk. split_and!; try done; try (by eexists); try lia.
  rewrite Hpg, <-Hprev. exact (flagged_pegin (vout (previous_output txin)) false false Hvo).
Qed.

Definition carried_halfb {S : Secp} (tx : Transaction) : bool :=
  match input tx, output tx with
  | [i], [o] =>
      (version tx =? 2) && bool_decide (lock_time tx = LockTime_ZERO) && negb (is_pegin i) &&
      bool_decide (asset_issuance i = AssetIssuance_null) && negb (bool_decide (is_Some (amount_rangeproof (in_witness i)))) &&
      negb (bool_decide (is_Some (inflation_keys_rangeproof (in_witness i)))) && is_empty (pegin_witness (in_witness i)) &&
      (0 <=? vout (previous_output i)) && (vout (previous_output i) <? 2 ^ 30) &&
      bool_decide (is_Some (Asset_commitment (asset o))) && bool_decide (is_Some (Value_commitment (value o))) &&
      match nonce o with NonceExplicit _ => false | _ => true end
  | _, _ => false
  end.
Lemma carried_halfb_ok {S : Secp} tx txin txout :
  input tx = [txin] -> output tx = [txout] -> carried_halfb tx = true -> carried_half tx txin txout.
Proof.
  unfold carried_halfb, carried_half, plain_in, blinded_out. intros -> ->. rewrite !andb_true_iff, !negb_true_iff.
  intros (((((((((((Hv & Hl) & Hp) & Hi) & Ha) & Hk) & Hw) & H0) & H1) & Hc) & Hcv) & Hn).
  apply Z.eqb_eq in Hv. apply bool_decide_eq_true in Hl, Hi, Hc, Hcv. apply bool_decide_eq_false in Ha, Hk.
  apply Z.leb_le in H0. apply Z.ltb_lt in H1. rewrite <-!eq_None_not_Some in Ha, Hk.
  split_and!; try done; [by destruct (pegin_witness _)|]. intros x Hx. by rewrite Hx in Hn.
Qed.

(** C7: Taking a proposal: the books of every asset balance (modulo [2 ^ 64], the width of the
    sums) and the PSET gives a transaction [tx'] of version 2 without a lock time.  The first
    input of [tx'] spends the transaction of the maker's input, with its script, witness and
    sequence number; the first output has the maker's script and range proof; the second output
    pays what the maker sends to an address the taker receives at.  When the maker's transaction
    is one that a PSET of version 2 carries (version 2, no lock time, a plain input, an output
    with commitments: those the wallet makes are, by [made_proposal_carried]), the first input
    is the maker's input, the first output has its asset, value and nonce, and the data of a
    segwit signature of type SINGLE | ANYONECANPAY of the first input is the same for [tx'] as
    for the maker's transaction. *)
Theorem liquidex_taken_balances {P : Platform} {S : Secp} {H : Hashes} {M : Midstates} {T : TapEnv} {C : SchnorrEnv}
    {E : PsetEnv} {K : Zkp} {J : JsonStrings} {WE : WolletEnv} {BE : BuilderEnv} {BL : BuilderLaws} {DL : DescribeLaws}
    {W : Type} (st : Store W) (c : Cache) (w : W) (b : TxBuilder) (l : list (LiquidexProposal Validated))
    (r r' : ZkpRng) (q : PartiallySignedTransaction) :
  finish_liquidex_take st c w b l r = (Ok q, r') ->
  exists v tx txin txout i o tx' x y, l = [v] /\ transaction v = Ok tx /\ input tx = [txin] /\ output tx = [txout] /\
    dex_inputs v !! 0%nat = Some i /\ dex_outputs v !! 0%nat = Some o /\
    (forall a, cong64 (ins a q) (outs a q)) /\
    extract_tx q = Ok tx' /\ version tx' = 2 /\ lock_time tx' = LockTime_ZERO /\
    input tx' !! 0%nat = Some x /\ output tx' !! 0%nat = Some y /\
    (txid (previous_output x) = txid (previous_output txin) /\ script_sig x = script_sig txin /\
     sequence x = sequence txin /\ script_witness (in_witness x) = script_witness (in_witness txin)) /\
    (script_pubkey y = script_pubkey txout /\ rangeproof (out_witness y) = rangeproof (out_witness txout)) /\
    (exists k, outputs q !! 1%nat = Some k /\ o_amount k = Some (satoshi i) /\ o_asset k = Some (dex_asset i) /\
       receives (o_script_pubkey k)) /\
    (carried_half tx txin txout -> x = txin /\ signed_out y = signed_out txout /\
       forall sc val, bip143_data tx' 0 sc val SinglePlusAnyoneCanPay = bip143_data tx 0 sc val SinglePlusAnyoneCanPay).
Proof.
  unfold finish_liquidex_take. intros Hm. act_step Hm as v ? [Hv ->]%act_lift_ok.
  destruct l as [|v' [|]]; [done| |done]. injection Hv as ->.
  act_step Hm as p ? [Hp ->]%act_lift_ok. act_step Hm as inp ? [Hinp ->]%act_lift_ok. act_step Hm as out ? [Hout ->]%act_lift_ok.
  destruct (to_pset_halves v p inp out Hp Hinp Hout)
    as (tx & txin & txout & i & o & Htx & Hti & Hto & Hi & Ho & Hpi & Hpo & Hpc & Hia & Hiv & Hoa & Hov).
  act_step Hm as [[d dom] [si so]] ? [Hd ->]%act_lift_ok.
  apply assemble_take_drafted in Hd; [|intros a; by apply (to_pset_net p txin txout i o inp out a)].
  act_step Hm as prf r1 Hprf. act_step Hm as temp r2 Htemp. act_step Hm as ttx ? [Httx ->]%act_lift_ok. clear Hprf Htemp Httx.
  set (fee := calculate_fee _ _) in Hm. clearbody fee. destruct (_ <=? _); [by apply act_lift_ok in Hm as [? _]|].
  act_step Hm as p3 r3 Hk%dex_blind_keeps. apply act_lift_ok in Hm as [Hq%lift_build_ok _].
  pose proof (drafted_completed p inp out d si so prf fee _ p3 Hd Hpc eq_refl Hk) as Hc.
  destruct (completed_tx st c w b p inp p3 q txin txout i o Hc Hq Hpi Hpo Hia Hiv)
    as (Hbooks & tx' & x & y & Hx & Hxv & Hxl & Hxi & Hxo & Hin & Hy & Hk1).
  exists v, tx, txin, txout, i, o, tx', x, y. split_and!; try done.
  - rewrite Hin. by destruct (extract_from_txin txin) as (-> & _).
  - rewrite Hin. by destruct (extract_from_txin txin) as (_ & -> & _).
  - rewrite Hin. by destruct (extract_from_txin txin) as (_ & _ & -> & _).
  - rewrite Hin. by destruct (extract_from_txin txin) as (_ & _ & _ & _ & ->).
  - by eapply signed_part_script.
  - by eapply signed_part_script.
  - intros (Hv2 & Hl0 & Hpl & Hvo & Hbl). rewrite (extract_plain txin Hvo Hpl) in Hin. subst x.
    rewrite (to_pset_output_extract txout o Hbl) in Hy. injection Hy as Hy.
    assert (signed_out y = signed_out txout) as Hsy by (unfold signed_out; congruence).
    split_and!; [done|done|]. intros sc val. apply (single_digest tx tx' txin txout y); [congruence|congruence| | | | |done];
      [by rewrite Hti|done|by rewrite Hto|done].
Qed.

(** A signature commits to the version: one that was made for a transaction of another version
    than 2 does not fit the completed transaction, which has version 2 whatever the maker's
    transaction has. *)
Theorem signature_fixes_version {P : Platform} {S : Secp} {H : Hashes} {T : TapEnv} {C : SchnorrEnv}
    (tx tx' : Transaction) (txin txin' : TxIn) (k : nat) (sc : Script) (v : Value) (t : EcdsaSighashType) :
  is_u32 (version tx) -> is_u32 (version tx') -> input tx !! k = Some txin -> input tx' !! k = Some txin' ->
  bip143_data tx' k sc v t = bip143_data tx k sc v t -> version tx' = version tx.
Proof.
  intros Hv Hv' Hi Hi'. unfold bip143_data. rewrite Hi, Hi'. cbn [mbind option_bind]. intros Hd.
  apply (inj Some), (codec_inj u32_codec) in Hd as [-> _]; done.
Qed.

(** ** A concrete swap *)

Import WolletSample.
Import BlindSample.
Import DexSample.

Module TakeSample.
#[local] Existing Instance Model.Secp_model.
#[export] Instance BuilderLaws_dex : BuilderLaws.
Proof. split; try done; [by intros p q [= <-]|by intros p q [= <-]|by intros k i j [= <-]|by intros k i j [= <-]]. Qed.

(** The taker has 5000 of the asset the maker asks for and 100000 of the policy asset. *)
Definition taker : Cache * gmap bytes bytes := BuilderSample.funded.
Definition taker_builder : TxBuilder := TxBuilder_new BuilderSample.network.
Definition accepted : LiquidexProposal Validated :=
  match from_pset (fun p => Some (sign p)) made_pset with
  | Ok prop => validated prop
  | Err _ => mkProposal 0 [] [] [] []
  end.
Definition taken : result PartiallySignedTransaction dex_error * Z :=
  finish_liquidex_take memory_store taker.1 taker.2 taker_builder [accepted] 50.
Definition taken_pset : PartiallySignedTransaction := match taken.1 with Ok p => p | Err _ => new_v2 end.
Lemma taken_ok : finish_liquidex_take memory_store taker.1 taker.2 taker_builder [accepted] 50 = (Ok taken_pset, taken.2).
Proof.
  assert (Hok : is_ok taken.1 = true) by (vm_compute; reflexivity). unfold taken_pset, taken in *.
  destruct (finish_liquidex_take _ _ _ _ _ _) as [[p|e] r]; done.
Qed.

(** The maker's transaction is one that a PSET carries. *)
Definition accepted_tx : Transaction :=
  match transaction accepted with Ok tx => tx | Err _ => mkTransaction 0 LockTime_ZERO [] [] end.
Lemma accepted_tx_ok : transaction accepted = Ok accepted_tx.
Proof.
  assert (Hok : is_ok (transaction accepted) = true) by (vm_compute; reflexivity). unfold accepted_tx.
  destruct (transaction accepted); done.
Qed.
Lemma accepted_tx_is v tx : [accepted] = [v] -> transaction v = Ok tx -> accepted_tx = tx.
Proof.
  pose proof accepted_tx_ok as Ha. generalize dependent accepted_tx. generalize accepted. intros x y Hx Hv Ht. congruence.
Qed.
Lemma accepted_carried txin txout : input accepted_tx = [txin] -> output accepted_tx = [txout] -> carried_half accepted_tx txin txout.
Proof.
  assert (Hb : carried_halfb accepted_tx = true) by (vm_compute; reflexivity). intros Hi Ho. by apply carried_halfb_ok.
Qed.
End TakeSample.
Import TakeSample.

(** The taker receives the maker's 1000 and pays 300 of its 5000; the maker's signature stays
    valid. *)
Lemma liquidex_taken_balances_witness :
  cong64 (ins usd taken_pset) (outs usd taken_pset) /\ ins usd taken_pset = 5000 /\
  (exists k, outputs taken_pset !! 1%nat = Some k) /\
  exists tx', extract_tx taken_pset = Ok tx' /\ forall sc val,
    bip143_data tx' 0 sc val SinglePlusAnyoneCanPay = bip143_data accepted_tx 0 sc val SinglePlusAnyoneCanPay.
Proof.
  destruct (liquidex_taken_balances (K := Zkp_model) memory_store taker.1 taker.2 taker_builder [accepted] 50 taken.2 taken_pset taken_ok)
    as (v & tx & txin & txout & i & o & tx' & x & y & Hv & Htx & Hti & Hto & _ & _ & Hb & Hx & _ & _ & _ & _ & _ & _ & (k & Hk & _) & Hs).
  split; [apply Hb|]. split; [vm_compute; reflexivity|]. split; [by exists k|]. exists tx'. split; [exact Hx|].
  destruct (accepted_tx_is v tx Hv Htx). exact (proj2 (proj2 (Hs (accepted_carried txin txout Hti Hto)))).
Defined.

(** The completed transaction verifies: the maker's scalar balances what it blinded. *)
Example swap_verifies :
  match extract_tx taken_pset with
  | Ok tx => is_ok (verify_tx_amt_proofs tx (coin :: rev (output BuilderSample.funding)))
  | Err _ => false
  end = true.
Proof. vm_compute. reflexivity. Qed.
