(* ===== verification/StakingRewards.v ===== *)
(** * Staking rewards

    [lwk_wollet/src/staking_rewards.rs]: which coins of the wallet are staking
    rewards (attribution), when they mature, how they are grouped into batches to
    convert, and when a batch converts. *)

From S2P Require Import Prelude Order Encode Script Confidential Transaction.

Definition SEQUENTIA_COINBASE_MATURITY : Z := 1000.

(** ** Attribution *)

Inductive RewardSource := Solo | Direct | Lottery | Split.
#[export] Instance RewardSource_eq_dec : EqDecision RewardSource.
Proof. solve_decision. Defined.

Definition RewardSource_as_str (s : RewardSource) : string :=
  match s with
  | Solo => "solo"
  | Direct => "direct"
  | Lottery => "lottery"
  | Split => "split"
  end.

Record StakingReward := mkReward
  { outpoint : OutPoint;
    reward_asset : AssetId;
    reward_value : Z;
    source : RewardSource;
    reward_height : option Z;
    reward_blocks_to_maturity : Z;
    reward_spent : bool }.
#[export] Instance StakingReward_eq_dec : EqDecision StakingReward.
Proof. solve_decision. Defined.

Definition mature (r : StakingReward) : bool := reward_blocks_to_maturity r =? 0.
Definition convertible (r : StakingReward) : bool := mature r && negb (reward_spent r).

Record OwnedOutput := mkOwned
  { own_vout : Z;
    own_script_pubkey : Script;
    own_asset : AssetId;
    own_value : Z;
    own_spent : bool }.

Record TxFacts := mkFacts
  { facts_txid : bytes;
    facts_height : option Z;
    is_coinbase : bool;
    from_me : bool;
    owned_outputs : list OwnedOutput }.

Inductive SignerRelation := SelfSigning | Delegated.

(** [blocks_to_maturity]: [maturity + 1 - depth], saturating. *)
Definition blocks_to_maturity (height : option Z) (tip_height coinbase_maturity : Z) : Z :=
  match height with
  | None => saturating_add u32_max coinbase_maturity 1
  | Some h =>
      let depth := saturating_add u32_max (saturating_sub tip_height h) 1 in
      saturating_sub (saturating_add u32_max coinbase_maturity 1) depth
  end.

Section Attribution.
Context {S : Secp}.
Context (staking_scripts : gmap Script PublicKey).
Context (signer_relation : gmap PublicKey SignerRelation).
Context (tip_height coinbase_maturity : Z).

(** The [match] on [(tx.is_coinbase, staking_key)]. *)
Definition reward_source (coinbase : bool) (staking_key : option PublicKey) : option RewardSource :=
  match coinbase, staking_key with
  | false, Some _ => Some Split
  | true, Some k =>
      match signer_relation !! k with
      | Some Delegated => Some Lottery
      | _ => Some Solo
      end
  | true, None => Some Direct
  | false, None => None
  end.

(** The body of the inner loop: [None] is a [continue]. *)
Definition attribute_output (tx : TxFacts) (o : OwnedOutput) : option StakingReward :=
  if own_value o =? 0 then None
  else
    let staking_key := staking_scripts !! own_script_pubkey o in
    if negb (is_coinbase tx) && is_none staking_key then None
    else
      source ← reward_source (is_coinbase tx) staking_key;
      let btm := if is_coinbase tx
                 then blocks_to_maturity (facts_height tx) tip_height coinbase_maturity
                 else 0 in
      Some (mkReward (mkOutPoint (facts_txid tx) (own_vout o)) (own_asset o) (own_value o) source
              (facts_height tx) btm (own_spent o)).

Definition attribute_tx (tx : TxFacts) : list StakingReward :=
  if negb (is_coinbase tx) && from_me tx then []
  else omap (attribute_output tx) (owned_outputs tx).

(** Newest first, then txid, then vout. *)
Definition reward_cmp : StakingReward -> StakingReward -> comparison :=
  then_with (cmp_rev (cmp_by (fun r => default u32_max (reward_height r)) Z.compare))
    (then_with (cmp_by (fun r => txid (outpoint r)) bytes_cmp)
       (cmp_by (fun r => vout (outpoint r)) Z.compare)).

Definition attribute_rewards (txs : list TxFacts) : list StakingReward :=
  sort_by reward_cmp (concat (map attribute_tx txs)).

Lemma reward_cmp_ok : cmp_ok reward_cmp.
Proof.
  apply then_with_ok; [by apply cmp_rev_ok, cmp_by_ok, Z_compare_ok|].
  apply then_with_ok; apply cmp_by_ok; [apply bytes_cmp_ok|apply Z_compare_ok].
Qed.

(** What makes an owned output of a transaction a reward, and of which kind. *)
Definition is_reward (tx : TxFacts) (o : OwnedOutput) (s : RewardSource) : Prop :=
  own_value o <> 0 /\
  if is_coinbase tx
  then match staking_scripts !! own_script_pubkey o with
       | None => s = Direct
       | Some k => (s = Lottery /\ signer_relation !! k = Some Delegated) \/
                   (s = Solo /\ signer_relation !! k <> Some Delegated)
       end
  else from_me tx = false /\ is_Some (staking_scripts !! own_script_pubkey o) /\ s = Split.

Definition reward_of (tx : TxFacts) (o : OwnedOutput) (s : RewardSource) : StakingReward :=
  mkReward (mkOutPoint (facts_txid tx) (own_vout o)) (own_asset o) (own_value o) s (facts_height tx)
    (if is_coinbase tx then blocks_to_maturity (facts_height tx) tip_height coinbase_maturity else 0)
    (own_spent o).

Lemma attribute_output_spec tx o r :
  (negb (is_coinbase tx) && from_me tx = false /\ attribute_output tx o = Some r) <->
  exists s, is_reward tx o s /\ r = reward_of tx o s.
Proof.
  unfold attribute_output, is_reward, reward_of, reward_source.
  destruct (Z.eqb_spec (own_value o) 0) as [Hv|Hv]; [naive_solver|].
  destruct (is_coinbase tx); simpl.
  - destruct (staking_scripts !! own_script_pubkey o) as [k|]; simpl; [|naive_solver].
    destruct (signer_relation !! k) as [[]|]; simpl; naive_solver.
  - destruct (staking_scripts !! own_script_pubkey o) as [k|]; simpl.
    + destruct (from_me tx); simpl; naive_solver.
    + split; [naive_solver|]. by intros (? & (_ & _ & [? ?] & _) & _).
Qed.

Lemma attribute_tx_spec tx r :
  r ∈ attribute_tx tx <->
  exists o s, o ∈ owned_outputs tx /\ is_reward tx o s /\ r = reward_of tx o s.
Proof.
  unfold attribute_tx. destruct (negb (is_coinbase tx) && from_me tx) eqn:E.
  - split; [by intros ?%elem_of_nil|]. intros (o & s & _ & Hr & ->).
    exfalso. destruct (attribute_output_spec tx o (reward_of tx o s)) as [_ H1].
    destruct H1 as [H1 _]; [by exists s|]. congruence.
  - rewrite list_elem_of_omap. split.
    + intros (o & Ho & Ha). destruct (proj1 (attribute_output_spec tx o r)) as (s & Hs & ->); [done|].
      by exists o, s.
    + intros (o & s & Ho & Hs & ->). exists o. split; [done|].
      by apply (proj2 (attribute_output_spec tx o _)); exists s.
Qed.
End Attribution.

(** ** Policy *)

Inductive ConvertTarget := NativeBtc | TargetAsset (a : AssetId).

Definition is_target_asset (t : ConvertTarget) (asset : AssetId) : bool :=
  match t with TargetAsset a => bool_decide (a = asset) | NativeBtc => false end.
Definition is_cross_chain (t : ConvertTarget) : bool :=
  match t with NativeBtc => true | TargetAsset _ => false end.

Record AutoConvertSettings := mkSettings
  { enabled : bool;
    target : ConvertTarget;
    exclude : gset AssetId;
    min_receive : Z;
    max_slippage_bp : Z }.

Definition AutoConvertSettings_default : AutoConvertSettings :=
  mkSettings false NativeBtc ∅ 10000 200.

Record RewardBatch := mkBatch
  { batch_asset : AssetId;
    batch_inputs : list OutPoint;
    batch_value : Z }.

Record Quote := mkQuote { receives : Z; reference : Z }.

Definition slippage_bp (q : Quote) : Z :=
  if (reference q =? 0) || (reference q <=? receives q) then 0
  else
    let shortfall := reference q - receives q in
    Z.min (shortfall * 10000 / reference q) 10000.

Inductive Decision :=
| Convert (receives : Z)
| Disabled
| NotConverted
| NoMarket
| TooSmallToPrice
| BelowFloor (receives floor : Z)
| SlippageTooHigh (slippage_bp cap_bp : Z).

Definition converts (d : Decision) : bool :=
  match d with Convert _ => true | _ => false end.

(** The rewards a batch may contain. *)
Definition eligible (settings : AutoConvertSettings) (already_converted : gset OutPoint)
    (r : StakingReward) : bool :=
  negb (negb (convertible r) || bool_decide (outpoint r ∈ already_converted)) &&
  negb (is_target_asset (target settings) (reward_asset r) ||
        bool_decide (reward_asset r ∈ exclude settings)).

Definition add_to_batch (r : StakingReward) (e : RewardBatch) : RewardBatch :=
  mkBatch (batch_asset e) (batch_inputs e ++ [outpoint r])
    (saturating_add u64_max (batch_value e) (reward_value r)).

(** [by_asset.entry(r.asset).or_insert_with(..)]: the [BTreeMap] as its entries
    in key order. *)
Fixpoint upsert (r : StakingReward) (m : list RewardBatch) : list RewardBatch :=
  match m with
  | [] => [add_to_batch r (mkBatch (reward_asset r) [] 0)]
  | e :: m' =>
      match bytes_cmp (reward_asset r) (batch_asset e) with
      | Lt => add_to_batch r (mkBatch (reward_asset r) [] 0) :: m
      | Eq => add_to_batch r e :: m'
      | Gt => e :: upsert r m'
      end
  end.

(** Biggest first, then by asset. *)
Definition batch_cmp : RewardBatch -> RewardBatch -> comparison :=
  then_with (cmp_rev (cmp_by batch_value Z.compare)) (cmp_by batch_asset bytes_cmp).

Definition batches (rewards : list StakingReward) (settings : AutoConvertSettings)
    (already_converted : gset OutPoint) : list RewardBatch :=
  let by_asset :=
    fold_left (fun m r => if eligible settings already_converted r then upsert r m else m)
      rewards [] in
  sort_by batch_cmp by_asset.

Definition decide_batch (batch : RewardBatch) (quote : option Quote) (settings : AutoConvertSettings)
  : Decision :=
  if negb (enabled settings) then Disabled
  else if is_target_asset (target settings) (batch_asset batch) ||
          bool_decide (batch_asset batch ∈ exclude settings) then NotConverted
  else
    match quote with
    | None => NoMarket
    | Some quote =>
        if receives quote =? 0 then (if 0 <? reference quote then TooSmallToPrice else NoMarket)
        else
          let slip := slippage_bp quote in
          if max_slippage_bp settings <? slip then SlippageTooHigh slip (max_slippage_bp settings)
          else if receives quote <? min_receive settings
               then BelowFloor (receives quote) (min_receive settings)
               else Convert (receives quote)
    end.

(** ** Batches *)

Definition of_asset (a : AssetId) (rs : list StakingReward) : list StakingReward :=
  filter (fun r => reward_asset r = a) rs.

(** The batch of an asset: its rewards in order, their values added with
    saturation. *)
Definition batch_of (a : AssetId) (rs : list StakingReward) : RewardBatch :=
  fold_left (fun e r => add_to_batch r e) (of_asset a rs) (mkBatch a [] 0).

Definition asset_lt (x y : RewardBatch) : Prop := bytes_cmp (batch_asset x) (batch_asset y) = Lt.

Lemma batch_of_asset a rs : batch_asset (batch_of a rs) = a.
Proof.
  unfold batch_of. change a with (batch_asset (mkBatch a [] 0)) at 3. generalize (mkBatch a [] 0).
  induction (of_asset a rs) as [|r l IH]; intros e; simpl; [done|]. by rewrite IH.
Qed.

Lemma batch_of_inputs a rs : batch_inputs (batch_of a rs) = map outpoint (of_asset a rs).
Proof.
  unfold batch_of. change (map outpoint (of_asset a rs))
    with (batch_inputs (mkBatch a [] 0) ++ map outpoint (of_asset a rs)).
  generalize (mkBatch a [] 0).
  induction (of_asset a rs) as [|r l IH]; intros e; simpl; [by rewrite app_nil_r|].
  rewrite IH. simpl. by rewrite <-app_assoc.
Qed.

Lemma batch_of_value a rs :
  Forall (fun r => 0 <= reward_value r) rs ->
  batch_value (batch_of a rs) = Z.min u64_max (foldr (fun r n => reward_value r + n) 0 (of_asset a rs)).
Proof.
  intros Hrs. unfold batch_of.
  assert (Hf : Forall (fun r => 0 <= reward_value r) (of_asset a rs)).
  { apply Forall_forall. intros r [_ Hr]%list_elem_of_filter. by apply (proj1 (Forall_forall _ _) Hrs). }
  enough (Hg : forall l e, 0 <= batch_value e <= u64_max -> Forall (fun r => 0 <= reward_value r) l ->
    batch_value (fold_left (fun e r => add_to_batch r e) l e) =
    Z.min u64_max (batch_value e + foldr (fun r n => reward_value r + n) 0 l)).
  { rewrite Hg by done. simpl. f_equal. }
  clear. intros l. induction l as [|r l IH]; intros e He Hl; simpl; [lia|].
  apply Forall_cons in Hl as [Hr Hl]. rewrite IH; [|simpl; unfold saturating_add, u64_max in *; lia|done].
  assert (0 <= foldr (fun r n => reward_value r + n) 0 l)
    by (clear -Hl; induction Hl; simpl; lia).
  simpl. unfold saturating_add. lia.
Qed.

Lemma upsert_elem r m b :
  StronglySorted asset_lt m ->
  b ∈ upsert r m <->
  (b ∈ m /\ batch_asset b <> reward_asset r) \/
  (exists e, e ∈ m /\ batch_asset e = reward_asset r /\ b = add_to_batch r e) \/
  ((forall e, e ∈ m -> batch_asset e <> reward_asset r) /\
   b = add_to_batch r (mkBatch (reward_asset r) [] 0)).
Proof.
  intros Hs. induction Hs as [|e m Hs IH Hf]; simpl; [set_solver|].
  rewrite Forall_forall in Hf. unfold asset_lt in Hf.
  destruct (bytes_cmp (reward_asset r) (batch_asset e)) eqn:E.
  - apply bytes_cmp_eq in E. 
    assert (Hne : forall e', e' ∈ m -> batch_asset e' <> reward_asset r).
    { intros e' He' Ea. apply Hf in He'. rewrite Ea, E in He'.
      by rewrite (proj2 (bytes_cmp_eq _ _) eq_refl) in He'. }
    set_solver.
  - assert (Hne : forall e', e' ∈ e :: m -> batch_asset e' <> reward_asset r).
    { intros e' [->|He']%elem_of_cons Ea.
      - rewrite Ea in E. by rewrite (proj2 (bytes_cmp_eq _ _) eq_refl) in E.
      - apply Hf in He'. pose proof (cmp_trans bytes_cmp_ok _ _ _ E He') as E2. rewrite Ea in E2.
        by rewrite (proj2 (bytes_cmp_eq _ _) eq_refl) in E2. }
    set_solver.
  - assert (Hne : batch_asset e <> reward_asset r).
    { intros Ea. rewrite Ea in E. by rewrite (proj2 (bytes_cmp_eq _ _) eq_refl) in E. }
    rewrite elem_of_cons, IH. set_solver.
Qed.

Lemma upsert_asset r m b : b ∈ upsert r m -> batch_asset b = reward_asset r \/ exists e, e ∈ m /\ batch_asset b = batch_asset e.
Proof.
  induction m as [|e m IH]; simpl; [set_solver|].
  destruct (bytes_cmp (reward_asset r) (batch_asset e)); set_solver.
Qed.

Lemma upsert_sorted r m : StronglySorted asset_lt m -> StronglySorted asset_lt (upsert r m).
Proof.
  induction 1 as [|e m Hs IH Hf]; simpl; [repeat constructor|].
  destruct (bytes_cmp (reward_asset r) (batch_asset e)) eqn:E.
  - by constructor.
  - constructor; [by constructor|]. constructor; [done|].
    eapply Forall_impl; [exact Hf|]. intros b Hb. by apply (cmp_trans bytes_cmp_ok _ (batch_asset e)).
  - constructor; [done|]. apply Forall_forall. intros b [Eb|(e' & He' & Eb)]%upsert_asset; unfold asset_lt.
    + rewrite Eb, (cmp_anti bytes_cmp_ok (reward_asset r)), E. done.
    + rewrite Eb. by apply (proj1 (Forall_forall _ _) Hf).
Qed.

Lemma of_asset_snoc a rs r :
  of_asset a (rs ++ [r]) = of_asset a rs ++ (if decide (reward_asset r = a) then [r] else []).
Proof. unfold of_asset. rewrite filter_app, filter_cons, filter_nil. done. Qed.

(** The map built from a list of rewards: one entry per asset that occurs. *)
Lemma upserts_spec rs :
  let m := fold_left (fun m r => upsert r m) rs [] in
  StronglySorted asset_lt m /\
  forall b, b ∈ m <-> exists a, of_asset a rs <> [] /\ b = batch_of a rs.
Proof.
  induction rs as [|r rs IH] using rev_ind; simpl.
  { split; [constructor|]. set_solver. }
  rewrite fold_left_app. simpl. destruct IH as [Hs Hm]. split; [by apply upsert_sorted|].
  intros b. rewrite upsert_elem by done. 
  assert (Hstep : forall a, batch_of a (rs ++ [r]) =
    if decide (reward_asset r = a) then add_to_batch r (batch_of a rs) else batch_of a rs).
  { intros a. unfold batch_of. rewrite of_asset_snoc. destruct (decide (reward_asset r = a)).
    - by rewrite fold_left_app.
    - by rewrite app_nil_r. }
  split.
  - intros [[Hb Hne]|[(e & He & Ea & ->)|[Hno ->]]].
    + apply Hm in Hb as (a & Ha & ->). rewrite batch_of_asset in Hne. exists a.
      rewrite Hstep, of_asset_snoc, decide_False by done. by rewrite decide_False, app_nil_r by done.
    + apply Hm in He as (a & Ha & ->). rewrite batch_of_asset in Ea. subst a. exists (reward_asset r).
      rewrite Hstep, of_asset_snoc, !decide_True by done. split; [|done]. by destruct (of_asset _ rs).
    + exists (reward_asset r). rewrite Hstep, of_asset_snoc, !decide_True by done.
      split; [by destruct (of_asset _ rs)|]. f_equal. unfold batch_of.
      destruct (of_asset (reward_asset r) rs) eqn:E; [done|]. exfalso.
      apply (Hno (batch_of (reward_asset r) rs)); [|apply batch_of_asset].
      apply Hm. exists (reward_asset r). by rewrite E.
  - intros (a & Ha & ->). rewrite Hstep. rewrite of_asset_snoc in Ha.
    destruct (decide (reward_asset r = a)) as [<-|Hne].
    + right. destruct (of_asset (reward_asset r) rs) eqn:E.
      * right. split; [|unfold batch_of; by rewrite E].
        intros e (a & Ha' & ->)%Hm. rewrite batch_of_asset. intros ->. by rewrite E in Ha'.
      * left. exists (batch_of (reward_asset r) rs). split; [|by rewrite batch_of_asset].
        apply Hm. exists (reward_asset r). by rewrite E.
    + left. rewrite batch_of_asset. split; [|done]. apply Hm. exists a. by rewrite app_nil_r in Ha.
Qed.

Lemma fold_eligible settings conv rs m :
  fold_left (fun m r => if eligible settings conv r then upsert r m else m) rs m =
  fold_left (fun m r => upsert r m) (filter (fun r => eligible settings conv r = true) rs) m.
Proof.
  revert m. induction rs as [|r rs IH]; intros m; simpl; [done|]. rewrite filter_cons.
  destruct (decide (eligible settings conv r = true)) as [E|E%not_true_is_false]; rewrite E; simpl; apply IH.
Qed.

Lemma asset_sorted_nodup m : StronglySorted asset_lt m -> NoDup (map batch_asset m).
Proof.
  induction 1 as [|e m Hs IH Hf]; simpl; [constructor|]. constructor; [|done].
  intros Hin. apply list_elem_of_fmap in Hin as (e' & Ea & He').
  apply (proj1 (Forall_forall _ _) Hf) in He'. unfold asset_lt in He'. rewrite Ea in He'.
  by rewrite (proj2 (bytes_cmp_eq _ _) eq_refl) in He'.
Qed.

Lemma batch_cmp_ok : cmp_ok batch_cmp.
Proof.
  apply then_with_ok; [by apply cmp_rev_ok, cmp_by_ok, Z_compare_ok|apply cmp_by_ok, bytes_cmp_ok].
Qed.

(** ** Claims *)

(** Attribution is sound and complete: a reward is listed exactly when it
    comes from an owned output of non-zero value that is either a coinbase output
    (of kind direct, solo or lottery according to the key it pays and that key's
    signer) or an output of somebody else's transaction paying a staking key (a
    split); the list is sorted newest first, then by txid and output index. *)
Theorem attribution_sound_complete `{Secp} (scripts : gmap Script PublicKey)
    (relation : gmap PublicKey SignerRelation) (tip maturity : Z) (txs : list TxFacts) :
  (forall r, r ∈ attribute_rewards scripts relation tip maturity txs <->
     exists tx o s, tx ∈ txs /\ o ∈ owned_outputs tx /\ is_reward scripts relation tx o s /\
       r = reward_of tip maturity tx o s) /\
  StronglySorted (fun a b => cmp_le reward_cmp a b = true)
    (attribute_rewards scripts relation tip maturity txs).
Proof.
  unfold attribute_rewards. split; [|apply sort_by_sorted, reward_cmp_ok].
  intros r. rewrite sort_by_perm, elem_of_concat_map. split.
  - intros (tx & Htx & (o & s & Ho & Hs & ->)%attribute_tx_spec). by exists tx, o, s.
  - intros (tx & o & s & Htx & Ho & Hs & ->). exists tx. split; [done|].
    apply attribute_tx_spec. by exists o, s.
Qed.

(** Maturity: a listed reward is mature exactly when it is not a coinbase, or
    it is a confirmed coinbase whose depth at the tip exceeds the maturity (for
    every maturity below the [u32] maximum and heights of 32 bits), so a coin is
    never offered before the chain accepts its spend, nor later. *)
Theorem maturity_iff_depth_exceeds `{Secp} (tip maturity : Z) (tx : TxFacts) (o : OwnedOutput)
    (s : RewardSource) :
  is_u32 tip -> 0 <= maturity < u32_max ->
  (forall h, facts_height tx = Some h -> is_u32 h) ->
  mature (reward_of tip maturity tx o s) = true <->
  (is_coinbase tx = true -> exists h, facts_height tx = Some h /\ maturity < Z.max 0 (tip - h) + 1).
Proof.
  intros Ht Hm Hh. unfold mature, reward_of. simpl. rewrite Z.eqb_eq.
  destruct (is_coinbase tx); [|naive_solver]. unfold blocks_to_maturity, saturating_add, saturating_sub.
  destruct (facts_height tx) as [h|].
  - specialize (Hh h eq_refl). unfold u32_max in *. split.
    + intros E _. exists h. split; [done|]. lia.
    + intros H1. destruct (H1 eq_refl) as (h' & [= <-] & Hlt). lia.
  - unfold u32_max in *. split; [lia|]. intros H1. by destruct (H1 eq_refl) as (? & ? & _).
Qed.

(** Batching: there is exactly one batch per asset that has an eligible
    reward (mature, unspent, not yet converted, neither the target nor excluded);
    it spends exactly the outpoints of those rewards, in order, and its value is
    their sum capped at the [u64] maximum; so nothing is sold twice and nothing
    else is ever spent.  Batches come biggest first. *)
Theorem batches_partition_eligible (rewards : list StakingReward) (settings : AutoConvertSettings)
    (converted : gset OutPoint) :
  Forall (fun r => 0 <= reward_value r) rewards ->
  let el := filter (fun r => eligible settings converted r = true) rewards in
  let out := batches rewards settings converted in
  (forall b, b ∈ out <-> exists a, of_asset a el <> [] /\ batch_asset b = a /\
     batch_inputs b = map outpoint (of_asset a el) /\
     batch_value b = Z.min u64_max (foldr (fun r n => reward_value r + n) 0 (of_asset a el))) /\
  NoDup (map batch_asset out) /\
  StronglySorted (fun a b => cmp_le batch_cmp a b = true) out.
Proof.
  intros Hpos el out. unfold out, batches. rewrite fold_eligible. fold el.
  destruct (upserts_spec el) as [Hs Hm].
  assert (Hel : Forall (fun r => 0 <= reward_value r) el).
  { apply Forall_forall. intros r [_ Hr]%list_elem_of_filter. by apply (proj1 (Forall_forall _ _) Hpos). }
  split; [|split].
  - intros b. rewrite sort_by_perm, Hm. split; intros (a & Ha & Hb); exists a; (split; [done|]).
    + subst b. by rewrite batch_of_asset, batch_of_inputs, batch_of_value.
    + destruct Hb as (E1 & E2 & E3). destruct b as [ba bi bv]. simpl in *.
      pose proof (batch_of_asset a el) as F1. pose proof (batch_of_inputs a el) as F2.
      pose proof (batch_of_value a el Hel) as F3.
      destruct (batch_of a el) as [xa xi xv]. simpl in *. congruence.
  - rewrite sort_by_perm. by apply asset_sorted_nodup.
  - apply sort_by_sorted, batch_cmp_ok.
Qed.

(** The conversion decision: a batch converts exactly when conversion is on,
    its asset is neither the target nor excluded, the book quotes something
    non-zero for it that reaches the floor, and the shortfall against the
    reference price is within the cap, rounded down to a basis point. *)
Theorem decide_converts_iff (batch : RewardBatch) (quote : option Quote)
    (settings : AutoConvertSettings) (n : Z) :
  (forall q, quote = Some q -> is_u64 (receives q) /\ is_u64 (reference q)) ->
  0 <= max_slippage_bp settings < 10000 ->
  decide_batch batch quote settings = Convert n <->
  enabled settings = true /\ is_target_asset (target settings) (batch_asset batch) = false /\
  batch_asset batch ∉ exclude settings /\
  exists q, quote = Some q /\ receives q = n /\ 0 < n /\ min_receive settings <= n /\
    (reference q - n) * 10000 < Z.max 1 (reference q) * (max_slippage_bp settings + 1).
Proof.
  intros Hq Hcap. unfold decide_batch.
  destruct (enabled settings); simpl; [|naive_solver].
  destruct (is_target_asset (target settings) (batch_asset batch)); simpl; [naive_solver|].
  case_bool_decide as Hex; [naive_solver|].
  destruct quote as [[rv rf]|]; simpl; [|naive_solver].
  destruct (Hq _ eq_refl) as [Hr1 Hr2]. simpl in *. clear Hq.
  assert (Hslip : max_slippage_bp settings < slippage_bp (mkQuote rv rf) <->
    Z.max 1 rf * (max_slippage_bp settings + 1) <= (rf - rv) * 10000).
  { unfold slippage_bp. simpl. destruct (Z.eqb_spec rf 0), (Z.leb_spec rf rv); simpl; try nia.
    replace (Z.max 1 rf) with rf by lia.
    assert (Hd : max_slippage_bp settings < (rf - rv) * 10000 / rf <->
      rf * (max_slippage_bp settings + 1) <= (rf - rv) * 10000).
    { split; intros Hx.
      - apply Z.le_trans with (rf * ((rf - rv) * 10000 / rf)); [nia|apply Z.mul_div_le; lia].
      - apply Z.lt_le_trans with (max_slippage_bp settings + 1); [lia|]. apply Z.div_le_lower_bound; lia. }
    lia. }
  destruct (Z.eqb_spec rv 0) as [->|Hnz].
  { split; [case_match; done|]. intros (_ & _ & _ & q & [= <-] & <- & ? & _). simpl in *. lia. }
  destruct (Z.ltb_spec (max_slippage_bp settings) (slippage_bp (mkQuote rv rf))) as [Hs|Hs].
  { split; [done|]. intros (_ & _ & _ & q & [= <-] & <- & _ & _ & Hlt). simpl in *. apply Hslip in Hs. lia. }
  destruct (Z.ltb_spec rv (min_receive settings)).
  { split; [done|]. intros (_ & _ & _ & q & [= <-] & <- & _ & ? & _). simpl in *. lia. }
  split.
  - intros [= <-]. repeat (split; [done|]). exists (mkQuote rv rf). simpl.
    assert (~ (Z.max 1 rf * (max_slippage_bp settings + 1) <= (rf - rv) * 10000)) by (rewrite <-Hslip; lia).
    repeat (split; [lia || done|]). lia.
  - by intros (_ & _ & _ & q & [= <-] & <- & _).
Qed.

Module RewardsSample.
Export TxSample.

Definition coinbase_tx (h : Z) : TxFacts :=
  mkFacts (hash Byte.x01) (Some h) true false
    [mkOwned 0 [Byte.x51] (hash Byte.xaa) 700 false; mkOwned 1 [Byte.x52] (hash Byte.xbb) 0 false].

Definition sample_rewards : list StakingReward :=
  attribute_rewards (S := Model.Secp_model) ∅ ∅ 2000 SEQUENTIA_COINBASE_MATURITY
    [coinbase_tx 900; coinbase_tx 1500].
End RewardsSample.
Import RewardsSample.

Lemma attribution_sound_complete_witness :
  length sample_rewards = 2%nat /\
  StronglySorted (fun a b => cmp_le reward_cmp a b = true) sample_rewards.
Proof.
  split; [vm_compute; reflexivity|].
  exact (proj2 (attribution_sound_complete (H := Model.Secp_model) ∅ ∅ 2000
           SEQUENTIA_COINBASE_MATURITY [coinbase_tx 900; coinbase_tx 1500])).
Defined.

Lemma maturity_iff_depth_exceeds_witness :
  mature (reward_of 1900 1000 (coinbase_tx 900) (mkOwned 0 [] [] 700 false) Direct) = true /\
  mature (reward_of 1899 1000 (coinbase_tx 900) (mkOwned 0 [] [] 700 false) Direct) = false.
Proof.
  split; [|vm_compute; reflexivity].
  apply (maturity_iff_depth_exceeds (H := Model.Secp_model) 1900 1000 (coinbase_tx 900)
           (mkOwned 0 [] [] 700 false) Direct); [lia|unfold u32_max; lia| |].
  - intros h [= <-]. lia.
  - intros _. exists 900. split; [reflexivity|lia].
Defined.

Lemma batches_partition_eligible_witness :
  NoDup (map batch_asset (batches sample_rewards AutoConvertSettings_default ∅)) /\
  map batch_value (batches sample_rewards AutoConvertSettings_default ∅) = [700].
Proof.
  split; [|vm_compute; reflexivity].
  refine (proj1 (proj2 (batches_partition_eligible sample_rewards AutoConvertSettings_default ∅ _))).
  refine (bool_decide_unpack (Forall (fun r => 0 <= reward_value r) sample_rewards) _).
  vm_compute. exact I.
Defined.

Lemma decide_converts_iff_witness :
  decide_batch (mkBatch (hash Byte.xaa) [] 700) (Some (mkQuote 19700 20000))
    (mkSettings true NativeBtc ∅ 10000 200) = Convert 19700.
Proof.
  apply (decide_converts_iff (mkBatch (hash Byte.xaa) [] 700) (Some (mkQuote 19700 20000))
           (mkSettings true NativeBtc ∅ 10000 200) 19700).
  - intros q [= <-]. simpl. lia.
  - simpl. lia.
  - split; [reflexivity|]. split; [reflexivity|]. split; [set_solver|].
    exists (mkQuote 19700 20000). simpl. repeat split; lia.
Defined.
