(* ===== verification/BtcCore.v ===== *)
(** * The Bitcoin wallet

    [lwk_wollet/src/btc/core.rs], driven by [btc/wallet.rs]: key derivation, the
    gap-limit scan, coin selection and the building of a signed P2WPKH
    transaction.  Keys, addresses and the transaction digest belong to the
    [bitcoin] crate and the address statistics to the esplora server: they are
    parameters.  [f64] is IEEE binary64, from the Standard Library's [SpecFloat]. *)

From Stdlib Require Import SpecFloat.
From stdpp Require Import pretty.
From S2P Require Import Prelude Float Order Encode Script Timelocks Confidential Transaction Sighash ScriptEval Htlc BtcHtlc.

Definition GAP : Z := 20.
Definition DUST : Z := 294.
Definition MAX_BATCHES : nat := 64.

(** The [Error::Generic] values of the module. *)
Inductive core_error :=
| EnterAmount
| InvalidAddress
| WrongNetwork
| NoSpendableBtc
| InsufficientBtc
| DeriveError
| TxidError
| P2wpkhError.

(** ** Floating point *)

(** 10.75 is [43 * 2^-2]. *)
Definition f64_10_75 : f64 := binary_normalize 53 1024 43 (-2) false.
Definition DEFAULT_FEERATE : f64 := f64_of_Z 2.

(** ** Keys *)

Inductive KnownHrp := HrpMainnet | HrpTestnets.
Inductive BtcNetwork := Bitcoin | Testnet4.

Record ChainAddressParams := mkChainParams
  { coin_type : Z;
    hrp : KnownHrp;
    network : BtcNetwork }.

Definition chain_testnet : ChainAddressParams := mkChainParams 1 HrpTestnets Testnet4.
Definition chain_mainnet : ChainAddressParams := mkChainParams 0 HrpMainnet Bitcoin.

(** The [bitcoin] crate: BIP 32, addresses and the BIP 143 digest of a P2WPKH
    input, [Witness::p2wpkh], which pairs a signature with its key. *)
Class BtcKeyEnv `{HtlcEnv} :=
  { Xpriv : Type;
    DerivationPath : Type;
    path_from_str : string -> option DerivationPath;
    derive_priv : Xpriv -> DerivationPath -> option SecretKey;
    sk_public_key : SecretKey -> bytes;
    BtcAddress : Type;
    p2wpkh_address : bytes -> KnownHrp -> BtcAddress;
    address_to_string : BtcAddress -> string;
    address_script : BtcAddress -> bytes;
    address_from_str : string -> option BtcAddress;
    is_valid_for_network : BtcAddress -> BtcNetwork -> bool;
    p2wpkh_signature_hash : BtcTx -> nat -> bytes -> Z -> option bytes }.

(** [format!("m/84h/{}h/0h/{}/{}", params.coin_type, internal as u8, i)]. *)
Definition derive_path (params : ChainAddressParams) (internal : bool) (i : Z) : string :=
  "m/84h/" +:+ pretty (Z.to_N (coin_type params)) +:+ "h/0h/" +:+
  (if internal then "1" else "0") +:+ "/" +:+ pretty (Z.to_N i).

(** ** The gap scan: state *)

(** [esplora::Stats] and [esplora::AddrInfo]. *)
Record Stats := mkStats { funded_txo_sum : Z; spent_txo_sum : Z; tx_count : Z }.
Record AddrInfo := mkAddrInfo { chain_stats : Stats; mempool_stats : Stats }.

Record BtcScan := mkScan
  { balance_sats : Z;
    external_next : Z;
    change_next : Z;
    scan_limit : Z }.

Record ScanState := mkScanState
  { scan_balance : Z;
    ext_max : Z;
    chg_max : Z;
    scanned : Z }.

Definition ScanState_new : ScanState := mkScanState 0 (-1) (-1) GAP.

(** [start..start + GAP], external then internal. *)
Definition batch_slots (start : Z) : list (bool * Z) :=
  concat (map (fun i => [(false, i); (true, i)]) (seqZ start GAP)).

(** [cs.funded - cs.spent + (ms.funded - ms.spent)] and [cs.tx_count + ms.tx_count]. *)
Definition info_net (info : AddrInfo) : Z :=
  let cs := chain_stats info in let ms := mempool_stats info in
  wrap_i64 (wrap_i64 (funded_txo_sum cs - spent_txo_sum cs)
            + wrap_i64 (funded_txo_sum ms - spent_txo_sum ms)).
Definition info_txs (info : AddrInfo) : Z :=
  wrap_i64 (tx_count (chain_stats info) + tx_count (mempool_stats info)).

(** One turn of [absorb]'s loop. *)
Definition absorb_slot (acc : ScanState * bool) (x : (bool * Z) * option AddrInfo)
  : ScanState * bool :=
  let '(st, any) := acc in
  let '((internal, i), info) := x in
  match info with
  | None => (st, any)
  | Some info =>
      let balance := wrap_i64 (scan_balance st + info_net info) in
      if 0 <? info_txs info then
        if internal
        then (mkScanState balance (ext_max st) (Z.max (chg_max st) i) (scanned st), true)
        else (mkScanState balance (Z.max (ext_max st) i) (chg_max st) (scanned st), true)
      else (mkScanState balance (ext_max st) (chg_max st) (scanned st), any)
  end.

Definition absorb (st : ScanState) (start : Z) (slots : list (bool * Z))
    (infos : list (option AddrInfo)) : ScanState * bool :=
  let '(st, any) := foldl absorb_slot (st, false) (zip slots infos) in
  (mkScanState (scan_balance st) (ext_max st) (chg_max st) (wrap_u32 (start + GAP)), any).

Definition finish (st : ScanState) : BtcScan :=
  mkScan (wrap_u64 (Z.max 0 (scan_balance st))) (wrap_u32 (wrap_i64 (ext_max st + 1)))
    (wrap_u32 (wrap_i64 (chg_max st + 1))) (scanned st).

Section BtcCore.
Context {E : HtlcEnv} {K : BtcKeyEnv}.

(** [Key], whose secret, public key, address and script are one derivation. *)
Record Key := mkKey
  { key_sk : SecretKey;
    key_pk : bytes;
    key_address : BtcAddress;
    key_script : bytes }.

Definition derive (master : Xpriv) (params : ChainAddressParams) (internal : bool) (i : Z)
  : result Key core_error :=
  let? path := ok_or (path_from_str (derive_path params internal i)) DeriveError in
  let? sk := ok_or (derive_priv master path) DeriveError in
  let pk := sk_public_key sk in
  let address := p2wpkh_address pk (hrp params) in
  Ok (mkKey sk pk address (address_script address)).

Definition batch_addresses (master : Xpriv) (params : ChainAddressParams) (start : Z)
  : result (list (bool * Z) * list string) core_error :=
  let? addrs := rmapM (fun '(internal, i) =>
                  let? k := derive master params internal i in
                  Ok (address_to_string (key_address k))) (batch_slots start) in
  Ok (batch_slots start, addrs).

(** [wallet::scan]; [fetch_infos] is the esplora request. *)
Fixpoint scan_loop (fetch_infos : list string -> list (option AddrInfo)) (master : Xpriv)
    (params : ChainAddressParams) (batches : nat) (start : Z) (state : ScanState)
  : result ScanState core_error :=
  match batches with
  | O => Ok state
  | S batches =>
      let? (slots, addrs) := batch_addresses master params start in
      let infos := fetch_infos addrs in
      let '(state, active) := absorb state start slots infos in
      if active then scan_loop fetch_infos master params batches (wrap_u32 (start + GAP)) state
      else Ok state
  end.

Definition scan (fetch_infos : list string -> list (option AddrInfo)) (master : Xpriv)
    (params : ChainAddressParams) : result BtcScan core_error :=
  let? state := scan_loop fetch_infos master params MAX_BATCHES 0 ScanState_new in
  Ok (finish state).

(** ** UTXOs *)

Record Utxo := mkUtxo
  { utxo_outpoint : OutPoint;
    utxo_value : Z;
    utxo_script : bytes;
    utxo_sk : SecretKey;
    utxo_pk : bytes }.

Record EsploraUtxo := mkEsploraUtxo
  { eu_txid : string;
    eu_vout : Z;
    eu_value : Z }.

Definition window_keys (master : Xpriv) (params : ChainAddressParams) (limit next : Z)
  : result (list Key) core_error :=
  let lim := Z.max limit (wrap_u32 (next + 1)) in
  rmapM (fun '(internal, i) => derive master params internal i)
    (concat (map (fun internal => map (pair internal) (seqZ 0 lim)) [false; true])).

Definition utxos_from_lists (keys : list Key) (lists : list (list EsploraUtxo))
  : result (list Utxo) core_error :=
  rmapM (fun '(k, u) =>
    let? txid := ok_or (txid_from_str (eu_txid u)) TxidError in
    Ok (mkUtxo (mkOutPoint txid (eu_vout u)) (eu_value u) (key_script k) (key_sk k) (key_pk k)))
    (concat (map (fun '(k, list) => map (pair k) list) (zip keys lists))).

(** ** Coin selection and building *)

Definition vbytes (nin nout : nat) : Z :=
  float_ceil_u64 (f64_add (f64_add f64_10_75 (f64_mul (f64_of_Z 68) (f64_of_Z (Z.of_nat nin))))
                        (f64_mul (f64_of_Z 31) (f64_of_Z (Z.of_nat nout)))).

Definition fee_for (fee_rate : f64) (nin nout : nat) : Z :=
  float_ceil_u64 (f64_mul (f64_of_Z (vbytes nin nout)) fee_rate).

(** [if fee_rate > 0.0 { fee_rate } else { DEFAULT_FEERATE }]; false on NaN. *)
Definition effective_rate (fee_rate : f64) : f64 :=
  if SFltb f64_zero fee_rate then fee_rate else DEFAULT_FEERATE.

(** The selection loop: the inputs taken so far and their sum. *)
Fixpoint select (fee_rate : f64) (amount_sats : Z) (utxos sel : list Utxo) (in_sum : Z)
  : list Utxo * Z :=
  match utxos with
  | [] => (sel, in_sum)
  | u :: utxos =>
      let sel := sel ++ [u] in
      let in_sum := wrap_u64 (in_sum + utxo_value u) in
      if saturating_add u64_max amount_sats (fee_for fee_rate (length sel) 2) <=? in_sum
      then (sel, in_sum)
      else select fee_rate amount_sats utxos sel in_sum
  end.

(** The fee and the change: [Some change] when there is a change output. *)
Definition settle (fee_rate : f64) (amount_sats : Z) (nsel : nat) (in_sum : Z)
  : result (Z * option Z) core_error :=
  let fee := fee_for fee_rate nsel 2 in
  if in_sum <? saturating_add u64_max amount_sats fee then Err InsufficientBtc
  else
    let change := wrap_u64 (wrap_u64 (in_sum - amount_sats) - fee) in
    if change <=? DUST then
      let no_change_fee := fee_for fee_rate nsel 1 in
      if in_sum <? saturating_add u64_max amount_sats no_change_fee then Err InsufficientBtc
      else Ok (wrap_u64 (in_sum - amount_sats), None)
    else Ok (fee, Some change).

(** A transaction with the witness of each input, [DER(sig) || 0x01] and the key. *)
Record SignedTx := mkSigned
  { signed_tx : BtcTx;
    witnesses : list (bytes * bytes) }.

Definition sign_input (tx : BtcTx) (idx : nat) (u : Utxo) : result (bytes * bytes) core_error :=
  let? sighash := ok_or (p2wpkh_signature_hash tx idx (utxo_script u) (utxo_value u)) P2wpkhError in
  Ok (sign_der (utxo_sk u) sighash ++ [Byte.x01], utxo_pk u).

(** [BtcPrepared], up to the text form of the transaction, its id and its size. *)
Record BtcPrepared := mkPrepared
  { prepared : SignedTx;
    fee_sats : Z;
    inputs : Z }.

Definition largest_first : Utxo -> Utxo -> comparison := cmp_rev (cmp_by utxo_value Z.compare).

Definition build_signed_tx (master : Xpriv) (params : ChainAddressParams) (dest_addr : string)
    (amount_sats : Z) (fee_rate : f64) (change_index : Z) (utxos : list Utxo)
  : result BtcPrepared core_error :=
  if amount_sats =? 0 then Err EnterAmount
  else
    let fee_rate := effective_rate fee_rate in
    let? dest := ok_or (address_from_str dest_addr) InvalidAddress in
    let? dest := if is_valid_for_network dest (network params) then Ok dest else Err WrongNetwork in
    if bool_decide (utxos = []) then Err NoSpendableBtc
    else
      let '(sel, in_sum) := select fee_rate amount_sats (sort_by largest_first utxos) [] 0 in
      let? (fee, change) := settle fee_rate amount_sats (length sel) in_sum in
      let input := map (fun u => mkBtcIn (utxo_outpoint u) [] (mkSequence 0xfffffffd)) sel in
      let? change_out :=
        match change with
        | Some c => let? k := derive master params true change_index in Ok [(c, key_script k)]
        | None => Ok []
        end in
      let tx := mkBtcTx 2 LockTime_ZERO input ((amount_sats, address_script dest) :: change_out) in
      let? ws := rmapM (fun '(idx, u) => sign_input tx idx u) (imap pair sel) in
      Ok (mkPrepared (mkSigned tx ws) fee (wrap_u32 (Z.of_nat (length sel)))).
End BtcCore.

(** ** Coin selection *)

Section Selection.
Context {E : HtlcEnv} {K : BtcKeyEnv}.

Abbreviation total := (sum_map utxo_value).
Implicit Types (u : Utxo) (c l sel : list Utxo).

(** A choice of coins pays [amount_sats] and the fee of a transaction with change. *)
Definition covers (fee_rate : f64) (amount_sats : Z) c : Prop :=
  amount_sats + fee_for fee_rate (length c) 2 <= total c.

Lemma fee_for_nonneg r n m : 0 <= fee_for r n m.
Proof. apply float_ceil_u64_nonneg. Qed.

Lemma sat_covers a f s : 0 <= s < u64_max -> saturating_add u64_max a f <= s <-> a + f <= s.
Proof. unfold saturating_add, u64_max. lia. Qed.

Lemma select_spec r a l sel sel' s' :
  Forall (fun u => 0 <= utxo_value u) l -> 0 <= total sel -> total sel + total l < u64_max ->
  select r a l sel (total sel) = (sel', s') ->
  s' = total sel' /\ exists n, sel' = sel ++ take n l /\ (n <= length l)%nat /\
    (l <> [] -> 1 <= n)%nat /\
    (forall m, (1 <= m < n)%nat -> ~ covers r a (sel ++ take m l)) /\
    (covers r a sel' \/ n = length l).
Proof.
  intros Hv. revert sel. induction Hv as [|u l Hu Hl IH]; intros sel Hs Ht; simpl.
  { intros [= <- <-]. split; [done|]. exists 0%nat. rewrite app_nil_r.
    split_and!; [done|simpl; lia|done|lia|by right]. }
  assert (Hl0 : 0 <= total l).
  { clear -Hl. induction Hl; simpl; lia. }
  simpl in Ht. assert (Et : total (sel ++ [u]) = total sel + utxo_value u) by (rewrite sum_map_app; simpl; lia).
  rewrite wrap_u64_small, <-Et by (unfold u64_max in *; lia).
  destruct (Z.leb_spec (saturating_add u64_max a (fee_for r (length (sel ++ [u])) 2)) (total (sel ++ [u])))
    as [Hc|Hc].
  - intros [= <- <-]. split; [done|]. exists 1%nat. simpl. rewrite take_0.
    split_and!; [done|lia|lia|lia|left]. by apply sat_covers in Hc; [|lia].
  - intros Hsel. assert (Hn : ~ covers r a (sel ++ [u])).
    { intros Hcov%sat_covers; lia. }
    apply IH in Hsel as (-> & n & -> & Hn1 & _ & Hmin & Hend); [|lia|lia].
    split; [done|]. exists (S n). simpl. rewrite <-(assoc app). simpl.
    split_and!; [done|lia|lia| |].
    + intros [|m] Hm; [lia|]. destruct m as [|m]; simpl; [by rewrite take_0|].
      specialize (Hmin (S m) ltac:(lia)). by rewrite <-(assoc app) in Hmin.
    + rewrite <-(assoc app) in Hend. destruct Hend as [?| ->]; [by left|by right].
Qed.

(** Largest first: no choice of as many coins is worth more than a prefix. *)
Lemma total_take_S x l n :
  Forall (fun y => cmp_le largest_first x y = true) l ->
  0 <= utxo_value x -> total (take (S n) l) <= total (x :: take n l).
Proof.
  intros Hx Hx0. simpl. revert n. induction Hx as [|y l Hy _ IH]; intros n; [rewrite !take_nil; simpl; lia|].
  destruct n as [|n]; simpl.
  - unfold cmp_le, largest_first, cmp_rev, cmp_by in Hy.
    destruct (Z.compare_spec (utxo_value y) (utxo_value x)); [lia|lia|done].
  - specialize (IH n). lia.
Qed.

Lemma largest_first_best l c :
  StronglySorted (fun x y => cmp_le largest_first x y = true) l ->
  Forall (fun u => 0 <= utxo_value u) l -> c ⊆+ l -> total c <= total (take (length c) l).
Proof.
  intros Hs. revert c. induction Hs as [|x l Hs IH Hx]; intros c Hv Hc.
  { apply submseteq_nil_r in Hc as ->. done. }
  apply Forall_cons in Hv as [Hv0 Hv]. apply submseteq_cons_r in Hc as [Hc|(c' & Hp & Hc')].
  - specialize (IH c Hv Hc). destruct c as [|y c]; [simpl; lia|].
    pose proof (total_take_S x l (length c) Hx Hv0) as Ht. simpl in *. lia.
  - specialize (IH c' Hv Hc'). rewrite (sum_map_perm _ _ _ Hp), (Permutation_length Hp). simpl. lia.
Qed.

Lemma settle_ok r a n s fee change :
  is_u64 a -> 0 <= s < u64_max -> settle r a n s = Ok (fee, change) ->
  a + fee_for r n 2 <= s /\
  (match change with
   | Some c => fee = fee_for r n 2 /\ c = s - a - fee /\ DUST < c
   | None => fee = s - a /\ fee_for r n 1 <= fee <= fee_for r n 2 + DUST
   end).
Proof.
  intros Ha Hs. unfold settle. pose proof (fee_for_nonneg r n 2). pose proof (fee_for_nonneg r n 1).
  destruct (Z.ltb_spec s (saturating_add u64_max a (fee_for r n 2))) as [|Hc]; [done|].
  apply sat_covers in Hc; [|lia]. unfold u64_max in *.
  rewrite !(wrap_u64_small (s - a)), wrap_u64_small by lia.
  destruct (Z.leb_spec (s - a - fee_for r n 2) DUST).
  - destruct (Z.ltb_spec s (saturating_add 18446744073709551615 a (fee_for r n 1))) as [|Hc1]; [done|].
    apply sat_covers in Hc1; [|unfold u64_max; lia].
    intros [= <- <-]. split; [done|]. unfold DUST in *. lia.
  - intros [= <- <-]. split; [done|]. split_and!; lia.
Qed.

Lemma settle_err r a n s e :
  is_u64 a -> 0 <= s < u64_max -> fee_for r n 1 <= fee_for r n 2 ->
  settle r a n s = Err e <-> e = InsufficientBtc /\ s < a + fee_for r n 2.
Proof.
  intros Ha Hs Hm. unfold settle. pose proof (fee_for_nonneg r n 2). pose proof (fee_for_nonneg r n 1).
  assert (Hsat : forall f, 0 <= f -> s <? saturating_add u64_max a f = (s <? a + f)).
  { intros f Hf. unfold saturating_add, u64_max in *.
    destruct (Z.ltb_spec s (Z.min 18446744073709551615 (a + f))), (Z.ltb_spec s (a + f)); lia. }
  rewrite !Hsat by done. destruct (Z.ltb_spec s (a + fee_for r n 2)); [naive_solver|].
  destruct (_ <=? DUST); [|naive_solver lia].
  destruct (Z.ltb_spec s (a + fee_for r n 1)); [lia|]. naive_solver lia.
Qed.
End Selection.

Section Build.
Context {E : HtlcEnv} {K : BtcKeyEnv}.
Context (master : Xpriv) (params : ChainAddressParams) (dest_addr : string).
Context (amount_sats : Z) (fee_rate : f64) (change_index : Z) (utxos : list Utxo).

Hypothesis values_nonneg : Forall (fun u => 0 <= utxo_value u) utxos.
Hypothesis total_bound : sum_map utxo_value utxos < u64_max.

Let r := effective_rate fee_rate.
Let sorted := sort_by largest_first utxos.

Lemma sorted_ok :
  StronglySorted (fun x y => cmp_le largest_first x y = true) sorted /\
  Forall (fun u => 0 <= utxo_value u) sorted /\ sum_map utxo_value sorted = sum_map utxo_value utxos.
Proof using values_nonneg.
  split; [apply sort_by_sorted, cmp_rev_ok, cmp_by_ok, Z_compare_ok|].
  pose proof (sort_by_perm largest_first utxos) as Hp.
  unfold sorted. split; [by rewrite Hp|by apply sum_map_perm].
Qed.

(** The first prefix that pays is no longer than any choice that pays. *)
Lemma prefix_minimal n c :
  (forall m, (1 <= m < n)%nat -> ~ covers r amount_sats (take m sorted)) ->
  c <> [] -> c ⊆+ utxos -> covers r amount_sats c -> (n <= length c)%nat.
Proof using values_nonneg.
  intros Hmin Hne Hc Hcov. destruct sorted_ok as (Hs & Hv & _).
  destruct (decide (n <= length c)%nat) as [|Hlt]; [done|]. exfalso.
  assert (Hc' : c ⊆+ sorted) by (by unfold sorted; rewrite sort_by_perm).
  apply (Hmin (length c)); [destruct c; [done|simpl in *; lia]|].
  pose proof (submseteq_length _ _ Hc') as Hl.
  unfold covers in *. rewrite length_take_le by done.
  pose proof (largest_first_best _ _ Hs Hv Hc'). lia.
Qed.

Lemma select_sorted sel in_sum :
  utxos <> [] -> select r amount_sats sorted [] 0 = (sel, in_sum) ->
  in_sum = sum_map utxo_value sel /\ 0 <= in_sum < u64_max /\
  exists n, sel = take n sorted /\ (1 <= n <= length utxos)%nat /\ length sel = n /\
    (forall c, c <> [] -> c ⊆+ utxos -> covers r amount_sats c -> (n <= length c)%nat) /\
    (~ covers r amount_sats sel ->
     forall c, c <> [] -> c ⊆+ utxos -> ~ covers r amount_sats c).
Proof using values_nonneg total_bound.
  intros Hne Hsel. destruct sorted_ok as (Hs & Hv & Ht).
  assert (Hlen : length sorted = length utxos) by (apply Permutation_length, sort_by_perm).
  apply (select_spec r amount_sats sorted []) in Hsel as (-> & n & -> & Hn & Hn1 & Hmin & Hend);
    [|done|done|simpl; lia].
  simpl in *. assert (Hp := prefix_minimal n).
  assert (Hnn : sorted <> []).
  { intros E0. apply Hne. apply length_zero_iff_nil. by rewrite <-Hlen, E0. }
  specialize (Hn1 Hnn).
  split; [done|]. split.
  { rewrite <-(take_drop n sorted), sum_map_app in Ht. rewrite <-(take_drop n sorted) in Hv.
    apply Forall_app in Hv as [Hv1 Hv2].
    assert (Hnonneg : forall l : list Utxo, Forall (fun u => 0 <= utxo_value u) l -> 0 <= sum_map utxo_value l)
      by (induction 1; simpl; lia).
    pose proof (Hnonneg _ Hv1). pose proof (Hnonneg _ Hv2). lia. }
  exists n. split_and!; [done|lia|lia|by rewrite length_take_le|naive_solver|].
  intros Hnc c Hc0 Hc Hcov. pose proof (Hp c Hmin Hc0 Hc Hcov) as Hle.
  destruct Hend as [?| ->]; [done|]. apply Hnc. pose proof (submseteq_length _ _ Hc) as Hlc.
  assert (Hcs : c ⊆+ sorted) by (by unfold sorted; rewrite sort_by_perm).
  pose proof (largest_first_best _ _ Hs Hv Hcs) as Hb.
  assert (El : length c = length sorted) by lia.
  unfold covers in *. rewrite El in *. rewrite length_take_le by done. lia.
Qed.
End Build.

(** ** Claims: sending *)

(** C16: A prepared Bitcoin transaction.  The inputs are the fewest coins that can
    pay, the largest ones, each signed by its own key over this transaction; the
    recipient gets exactly the amount; inputs equal outputs plus the reported fee;
    and either the fee is the estimate and the change, above dust, goes to the
    wallet's change address, or there is no change output and the fee exceeds the
    estimate for two outputs by at most the dust limit. *)
Theorem build_signed_tx_correct `{BtcKeyEnv} (master : Xpriv) (params : ChainAddressParams)
    (dest_addr : string) (amount_sats : Z) (fee_rate : f64) (change_index : Z)
    (utxos : list Utxo) (p : BtcPrepared) :
  is_u64 amount_sats -> Forall (fun u => 0 <= utxo_value u) utxos ->
  sum_map utxo_value utxos < u64_max ->
  build_signed_tx master params dest_addr amount_sats fee_rate change_index utxos = Ok p ->
  let tx := signed_tx (prepared p) in
  let rate := effective_rate fee_rate in
  exists sel dest rest,
    sel = take (length sel) (sort_by largest_first utxos) /\ sel <> [] /\
    (forall c, c <> [] -> c ⊆+ utxos -> covers rate amount_sats c -> (length sel <= length c)%nat) /\
    btc_input tx = map (fun u => mkBtcIn (utxo_outpoint u) [] (mkSequence 0xfffffffd)) sel /\
    Forall2 (fun '(idx, u) w => sign_input tx idx u = Ok w) (imap pair sel) (witnesses (prepared p)) /\
    address_from_str dest_addr = Some dest /\ is_valid_for_network dest (network params) = true /\
    btc_output tx = (amount_sats, address_script dest) :: rest /\
    sum_map fst (btc_output tx) + fee_sats p = sum_map utxo_value sel /\
    ((exists c k, rest = [(c, key_script k)] /\ DUST < c /\
        derive master params true change_index = Ok k /\ fee_sats p = fee_for rate (length sel) 2) \/
     (rest = [] /\ fee_for rate (length sel) 1 <= fee_sats p <= fee_for rate (length sel) 2 + DUST)).
Proof.
  intros Ha Hv Ht Hb. unfold build_signed_tx in Hb.
  destruct (amount_sats =? 0); [done|].
  apply rbind_ok in Hb as (d & Hd%ok_or_ok & Hb). apply rbind_ok in Hb as (d' & Hd' & Hb).
  destruct (is_valid_for_network d (network params)) eqn:Hnet; [injection Hd' as <-|done].
  case_bool_decide as Hne; [done|].
  destruct (select _ _ _ _ _) as [sel in_sum] eqn:Hsel.
  apply select_sorted in Hsel as (-> & Hs & n & Hseln & Hn & Hlen & Hmin & _); [|done..].
  apply rbind_ok in Hb as ([fee change] & Hset & Hb). apply settle_ok in Hset as [Hcov Hch]; [|done..].
  apply rbind_ok in Hb as (out & Hout & Hb). apply rbind_ok in Hb as (ws & Hws & [= <-]).
  apply rmapM_ok in Hws. simpl.
  exists sel, d, out. split_and!; try done.
  - by rewrite Hlen.
  - intros ->. simpl in Hlen. lia.
  - by rewrite Hlen.
  - eapply Forall2_impl; [exact Hws|]. by intros [] ?.
  - destruct change as [c|].
    + destruct Hch as (-> & -> & _). apply rbind_ok in Hout as (k & _ & [= <-]). simpl. lia.
    + destruct Hch as (-> & _). injection Hout as <-. simpl. lia.
  - destruct change as [c|].
    + destruct Hch as (-> & -> & Hdust). apply rbind_ok in Hout as (k & Hk & [= <-]).
      left. by exists (sum_map utxo_value sel - amount_sats - fee_for (effective_rate fee_rate) (length sel) 2), k.
    + destruct Hch as (-> & Hf). injection Hout as <-. by right.
Qed.

(** Sending fails for lack of funds exactly when no choice of coins whatever
    pays the amount and the fee of a transaction with change, provided a change
    output does not make the transaction cheaper at the chosen rate; in every other
    case the selected coins pay. *)
Theorem build_insufficient_iff `{BtcKeyEnv} (master : Xpriv) (params : ChainAddressParams)
    (dest_addr : string) (dest : BtcAddress) (amount_sats : Z) (fee_rate : f64) (change_index : Z)
    (utxos : list Utxo) :
  is_u64 amount_sats -> amount_sats <> 0 -> Forall (fun u => 0 <= utxo_value u) utxos ->
  sum_map utxo_value utxos < u64_max -> utxos <> [] ->
  address_from_str dest_addr = Some dest -> is_valid_for_network dest (network params) = true ->
  let rate := effective_rate fee_rate in
  (forall n, (1 <= n <= length utxos)%nat -> fee_for rate n 1 <= fee_for rate n 2) ->
  build_signed_tx master params dest_addr amount_sats fee_rate change_index utxos = Err InsufficientBtc <->
  forall c, c <> [] -> c ⊆+ utxos -> ~ covers rate amount_sats c.
Proof.
  intros Ha Ha0 Hv Ht Hne Hd Hnet rate Hmono. unfold build_signed_tx.
  destruct (Z.eqb_spec amount_sats 0) as [|_]; [done|]. rewrite Hd. simpl. rewrite Hnet. simpl.
  rewrite bool_decide_false by done. fold rate.
  destruct (select _ _ _ _ _) as [sel in_sum] eqn:Hsel.
  apply select_sorted in Hsel as (-> & Hs & n & Hseln & Hn & Hlen & Hmin & Hnone); [|done..].
  assert (Hsub : sel ⊆+ utxos).
  { transitivity (sort_by largest_first utxos); [|by rewrite sort_by_perm].
    rewrite Hseln. apply sublist_submseteq, sublist_take. }
  specialize (Hmono n Hn). rewrite <-Hlen in Hmono. split.
  - intros [Hset|((fee & change) & Hset & Hrest)]%rbind_err.
    + apply settle_err in Hset as [_ Hlt]; [|done..]. apply Hnone. unfold covers. fold rate. lia.
    + exfalso. apply rbind_err in Hrest as [Hout|(out & _ & Hrest)].
      * destruct change; [|done]. apply rbind_err in Hout as [Hk|(? & _ & ?)]; [|done].
        unfold derive in Hk. apply rbind_err in Hk as [[_ [=]]%ok_or_err|(? & _ & Hk)].
        by apply rbind_err in Hk as [[_ [=]]%ok_or_err|(? & _ & [=])].
      * apply rbind_err in Hrest as [Hws|(? & _ & [=])]. revert Hws. generalize (imap pair sel).
        induction l as [|[idx u] l IH]; simpl; [done|].
        intros [Hw|(w & _ & [Hws|(? & _ & [=])]%rbind_err)]%rbind_err; [|by apply IH].
        by apply rbind_err in Hw as [[_ [=]]%ok_or_err|(? & _ & [=])].
  - intros Hall. apply rbind_err. left. apply settle_err; [done..|]. split; [done|].
    apply Z.nle_gt. intros Hc. apply (Hall sel); [|done|done].
    intros ->. simpl in Hlen. lia.
Qed.

(** ** The gap scan *)

(** No more than the supply of 21 million, and transaction counts far from overflow. *)
Definition info_net_true (info : AddrInfo) : Z :=
  funded_txo_sum (chain_stats info) - spent_txo_sum (chain_stats info)
  + (funded_txo_sum (mempool_stats info) - spent_txo_sum (mempool_stats info)).
Definition small_stats (s : Stats) : Prop :=
  0 <= funded_txo_sum s < 1152921504606846976 /\ 0 <= spent_txo_sum s < 1152921504606846976 /\ 0 <= tx_count s < 1152921504606846976.
Definition info_ok (info : AddrInfo) : Prop :=
  small_stats (chain_stats info) /\ small_stats (mempool_stats info) /\
  0 <= info_net_true info <= 2100000000000000.

Lemma wrap_i64_small z : is_i64 z -> wrap_i64 z = z.
Proof. intros. unfold wrap_i64. rewrite Z.mod_small; lia. Qed.

Lemma info_net_ok info : info_ok info -> info_net info = info_net_true info.
Proof.
  intros ((?&?&?)&(?&?&?)&?). unfold info_net. do 2 rewrite (wrap_i64_small (_ - _)) by lia.
  rewrite wrap_i64_small by lia. done.
Qed.

Section Scan.
Context (info : bool -> Z -> option AddrInfo).

(** What the server reports of a slot of the keychain. *)
Definition active (internal : bool) (i : Z) : Prop :=
  exists x, info internal i = Some x /\ 0 < tx_count (chain_stats x) + tx_count (mempool_stats x).
Definition slot_net (s : bool * Z) : Z := from_option info_net_true 0 (info s.1 s.2).
Definition slot_active (s : bool * Z) : bool :=
  match info s.1 s.2 with Some x => 0 <? info_txs x | None => false end.
Definition slots (n : Z) : list (bool * Z) :=
  concat (map (fun i => [(false, i); (true, i)]) (seqZ 0 n)).

Hypothesis infos_ok : forall internal i x, info internal i = Some x -> info_ok x.

Definition highest (c : bool) (m : Z) (ls : list (bool * Z)) : Z :=
  foldl (fun m s => if slot_active s && Bool.eqb c s.1 then Z.max m s.2 else m) m ls.

Lemma slot_active_iff c i : slot_active (c, i) = true <-> active c i.
Proof using infos_ok.
  unfold slot_active, active. simpl. destruct (info c i) as [x|] eqn:Ei; [|naive_solver].
  apply infos_ok in Ei as ((?&?&?)&(?&?&?)&_). unfold info_txs. rewrite wrap_i64_small, Z.ltb_lt by lia.
  naive_solver.
Qed.

Lemma slot_net_bounds s : 0 <= slot_net s <= 2100000000000000.
Proof using infos_ok.
  unfold slot_net. destruct (info s.1 s.2) eqn:Ei; simpl; [|lia]. by apply infos_ok in Ei as (_&_&?).
Qed.

Lemma absorb_fold ls st any :
  0 <= scan_balance st -> scan_balance st + 2100000000000000 * zlen ls < 9223372036854775808 ->
  foldl absorb_slot (st, any) (zip ls (map (fun s => info s.1 s.2) ls)) =
  (mkScanState (scan_balance st + sum_map slot_net ls) (highest false (ext_max st) ls)
     (highest true (chg_max st) ls) (scanned st), any || existsb slot_active ls).
Proof using infos_ok.
  unfold zlen. revert st any. induction ls as [|[c i] ls IH]; intros st any Hb0 Hb.
  { simpl. rewrite Z.add_0_r, orb_false_r. by destruct st. }
  pose proof (slot_net_bounds (c, i)) as Hn.
  assert (Hh : forall c' m, highest c' m ((c, i) :: ls) =
    highest c' (if slot_active (c, i) && Bool.eqb c' c then Z.max m i else m) ls) by done.
  assert (En : slot_net (c, i) = from_option info_net_true 0 (info c i)) by done.
  assert (Ea : slot_active (c, i) = match info c i with Some x => 0 <? info_txs x | None => false end) by done.
  rewrite !Hh. cbn [map zip zip_with foldl existsb length fst snd] in *.
  change (sum_map slot_net ((c, i) :: ls)) with (slot_net (c, i) + sum_map slot_net ls).
  rewrite Nat2Z.inj_succ in Hb. rewrite Ea, En in *. unfold absorb_slot at 2.
  destruct (info c i) as [x|] eqn:Ei; cbn [from_option] in *; [|by rewrite IH by lia].
  rewrite (info_net_ok x) by (by eapply infos_ok). rewrite wrap_i64_small by lia.
  destruct (0 <? info_txs x), c; rewrite IH by (cbn [scan_balance]; lia);
    cbn [scan_balance ext_max chg_max scanned Bool.eqb andb orb];
    rewrite ?orb_true_r, ?Z.add_assoc; done.
Qed.

Lemma elem_of_slots n c i : (c, i) ∈ slots n <-> 0 <= i < n.
Proof.
  unfold slots. rewrite elem_of_concat_map. setoid_rewrite elem_of_seqZ.
  setoid_rewrite list_elem_of_In. simpl. split; [naive_solver lia|].
  intros ?. exists i. destruct c; naive_solver lia.
Qed.

Lemma slots_batch n : 0 <= n -> slots (n + GAP) = slots n ++ batch_slots n.
Proof.
  intros. unfold slots, batch_slots. rewrite seqZ_app, map_app, concat_app by (unfold GAP; lia).
  by rewrite Z.add_0_l.
Qed.

Lemma zlen_slots n : 0 <= n -> zlen (slots n) = 2 * n.
Proof.
  intros Hn. unfold slots. assert (Hl : forall l, zlen (concat (map (fun i : Z => [(false, i); (true, i)]) l)) = 2 * zlen l).
  { unfold zlen. induction l as [|x l IH]; simpl length in *; lia. }
  rewrite Hl. unfold zlen. rewrite length_seqZ. lia.
Qed.

Lemma highest_spec c m ls :
  m <= highest c m ls /\
  (highest c m ls = m \/ (c, highest c m ls) ∈ ls /\ slot_active (c, highest c m ls) = true) /\
  forall i, (c, i) ∈ ls -> slot_active (c, i) = true -> i <= highest c m ls.
Proof.
  clear infos_ok.
  revert m. induction ls as [|[c' i'] ls IH]; intros m; [split_and!; [simpl; lia|by left|set_solver]|].
  set (m' := if slot_active (c', i') && Bool.eqb c c' then Z.max m i' else m).
  change (highest c m ((c', i') :: ls)) with (highest c m' ls).
  assert (Hm : m <= m' /\ (m' = m \/ c = c' /\ slot_active (c', i') = true /\ m' = i') /\
               (c = c' -> slot_active (c', i') = true -> i' <= m')).
  { subst m'. destruct (slot_active (c', i')), (Bool.eqb_spec c c'); simpl;
      destruct (Z.max_spec m i') as [[? Em]|[? Em]]; rewrite ?Em; naive_solver lia. }
  destruct Hm as (Hm1 & Hm2 & Hm3). destruct (IH m') as (H1 & H2 & H3).
  revert H1 H2 H3. generalize (highest c m' ls). intros h H1 H2 H3. split_and!; [lia| |].
  - destruct H2 as [->|[H2 Ha]]; [|right; by split; [right|]].
    destruct Hm2 as [?|(<- & Ha & ->)]; [by left|right]. by split; [left|].
  - intros i [[= <- <-]|Hi]%elem_of_cons Hact; [|by apply H3]. specialize (Hm3 eq_refl Hact). lia.
Qed.

(** The state that describes the first [n] indices of both chains. *)
Definition describes (n : Z) (st : ScanState) : Prop :=
  scan_balance st = sum_map slot_net (slots n) /\
  ext_max st = highest false (-1) (slots n) /\ chg_max st = highest true (-1) (slots n).

Lemma sum_slots_bounds n : 0 <= n -> 0 <= sum_map slot_net (slots n) <= 2100000000000000 * (2 * n).
Proof using infos_ok.
  intros Hn. rewrite <-(zlen_slots n Hn). generalize (slots n). unfold zlen.
  induction l as [|x l IH]; simpl sum_map; simpl length; [lia|].
  pose proof (slot_net_bounds x). lia.
Qed.

Lemma absorb_describes n st :
  0 <= n <= 1260 -> describes n st ->
  exists st', absorb st n (batch_slots n) (map (fun s => info s.1 s.2) (batch_slots n)) =
      (st', existsb slot_active (batch_slots n)) /\
    describes (n + GAP) st' /\ scanned st' = n + GAP.
Proof using infos_ok.
  intros Hn (Hb & He & Hc). pose proof (sum_slots_bounds n). unfold absorb.
  assert (Hl : zlen (batch_slots n) = 2 * GAP).
  { pose proof (zlen_slots (n + GAP)) as H1. rewrite slots_batch, zlen_app, zlen_slots in H1 by lia.
    unfold GAP in *. lia. }
  rewrite absorb_fold by (unfold GAP in *; lia). cbn [orb scan_balance ext_max chg_max scanned].
  rewrite wrap_u32_small by (unfold GAP; lia). eexists. split; [reflexivity|]. split; [|reflexivity].
  unfold describes, highest. cbn [scan_balance ext_max chg_max]. rewrite slots_batch, sum_map_app, !foldl_app by lia.
  by rewrite Hb, He, Hc.
Qed.
End Scan.

(** The gap limit of a wallet: every used address of a chain comes at most [GAP]
    after another used one, or is among the first [GAP], and the scan's bound on
    batches is not exceeded. *)
Definition respects_gap (info : bool -> Z -> option AddrInfo) : Prop :=
  forall c i, 0 <= i -> active info c i ->
    i < GAP * Z.of_nat MAX_BATCHES /\ (i < GAP \/ exists j, 0 <= j < i /\ i <= j + GAP /\ active info c j).

Section ScanLoop.
Context {E : HtlcEnv} {K : BtcKeyEnv}.
Context (master : Xpriv) (params : ChainAddressParams).
Context (fetch_infos : list string -> list (option AddrInfo)) (info : bool -> Z -> option AddrInfo).

(** Keys derive, and the server answers from one consistent view. *)
Hypothesis derives : forall c i, 0 <= i < GAP * Z.of_nat MAX_BATCHES ->
  exists k, derive master params c i = Ok k.
Hypothesis snapshot : forall start addrs,
  batch_addresses master params start = Ok (batch_slots start, addrs) ->
  fetch_infos addrs = map (fun s => info s.1 s.2) (batch_slots start).
Hypothesis infos_ok : forall c i x, info c i = Some x -> info_ok x.

Lemma elem_of_batch_slots start c i : (c, i) ∈ batch_slots start <-> start <= i < start + GAP.
Proof.
  unfold batch_slots. rewrite elem_of_concat_map. setoid_rewrite elem_of_seqZ.
  setoid_rewrite list_elem_of_In. simpl. split; [naive_solver lia|].
  intros ?. exists i. destruct c; naive_solver lia.
Qed.

Lemma batch_addresses_ok start :
  0 <= start <= 1260 -> exists addrs, batch_addresses master params start = Ok (batch_slots start, addrs).
Proof using derives.
  intros Hs. unfold batch_addresses.
  assert (Hall : Forall (fun '(c, i) => exists k, derive master params c i = Ok k) (batch_slots start)).
  { apply Forall_forall. intros [c i] Hi%elem_of_batch_slots. apply derives. unfold GAP, MAX_BATCHES in *. lia. }
  enough (Hm : exists addrs, rmapM (fun '(internal, i) => let? k := derive master params internal i in
      Ok (address_to_string (key_address k))) (batch_slots start) = Ok addrs).
  { destruct Hm as [addrs ->]. by exists addrs. }
  induction Hall as [|[c i] l [k Hk] _ [addrs IH]]; [by exists []|].
  exists (address_to_string (key_address k) :: addrs). cbn [rmapM]. rewrite Hk. cbn [rbind]. by rewrite IH.
Qed.

Lemma scan_loop_spec b k st :
  (k + b <= MAX_BATCHES)%nat -> describes info (GAP * Z.of_nat k) st ->
  exists st' k', scan_loop fetch_infos master params b (GAP * Z.of_nat k) st = Ok st' /\
    (k <= k' <= k + b)%nat /\ describes info (GAP * Z.of_nat k') st' /\
    (b <> O -> scanned st' = GAP * Z.of_nat k') /\
    (k' = (k + b)%nat \/
     (1 <= k')%nat /\ existsb (slot_active info) (batch_slots (GAP * (Z.of_nat k' - 1))) = false).
Proof using derives snapshot infos_ok.
  revert k st. induction b as [|b IH]; intros k st Hkb Hd.
  { exists st, k. split_and!; [done|lia..|done|done|left; lia]. }
  cbn [scan_loop]. assert (Hr : 0 <= GAP * Z.of_nat k <= 1260) by (unfold GAP, MAX_BATCHES in *; lia).
  destruct (batch_addresses_ok _ Hr) as [addrs Ha]. rewrite Ha. cbn [rbind].
  rewrite (snapshot _ _ Ha).
  destruct (absorb_describes info infos_ok _ _ Hr Hd) as (st1 & Hab & Hd1 & Hsc1). rewrite Hab.
  assert (EG : GAP * Z.of_nat k + GAP = GAP * Z.of_nat (S k)) by lia. rewrite EG in *.
  destruct (existsb _ _) eqn:Eact.
  - rewrite wrap_u32_small by (unfold GAP, MAX_BATCHES in *; lia).
    destruct (IH (S k) st1 ltac:(lia) Hd1) as (st' & k' & Hl & Hk' & Hd' & Hsc & Hend).
    exists st', k'. split_and!; [done|lia|lia|done| |destruct Hend; [left; lia|by right]].
    intros _. destruct b as [|b]; [|by apply Hsc].
    cbn [scan_loop] in Hl. injection Hl as <-. replace k' with (S k) by lia. done.
  - exists st1, (S k). split_and!; [done|lia|lia|done|done|right].
    split; [lia|]. rewrite <-Eact. do 2 f_equal. lia.
Qed.

(** Under the gap limit, the batches scanned reach every used address. *)
Lemma scan_reaches k' c i :
  respects_gap info -> (1 <= k')%nat ->
  (k' = MAX_BATCHES \/ existsb (slot_active info) (batch_slots (GAP * (Z.of_nat k' - 1))) = false) ->
  0 <= i -> active info c i -> i < GAP * Z.of_nat k'.
Proof using infos_ok.
  intros Hgap Hk [->|Hidle]; [by intros Hi Ha; apply (Hgap c i Hi Ha)|].
  assert (Hidle' : forall j, active info c j -> ~ (GAP * (Z.of_nat k' - 1) <= j < GAP * Z.of_nat k')).
  { intros j Hj Hr. rewrite <-(slot_active_iff info infos_ok) in Hj.
    enough (existsb (slot_active info) (batch_slots (GAP * (Z.of_nat k' - 1))) = true) by congruence.
    apply existsb_exists. exists (c, j). split; [|done].
    apply list_elem_of_In, elem_of_batch_slots. unfold GAP in *. lia. }
  intros Hi. revert Hi. induction i as [i IH] using (well_founded_induction (Z.lt_wf 0)).
  intros Hi Ha. destruct (Hgap c i Hi Ha) as [_ [Hlt|(j & Hj & Hij & Haj)]]; [unfold GAP in *; lia|].
  specialize (IH j ltac:(lia) ltac:(lia) Haj). specialize (Hidle' j Haj). unfold GAP in *. lia.
Qed.

Lemma highest_slots c n :
  -1 <= highest info c (-1) (slots n) /\
  (forall i, 0 <= i < n -> active info c i -> i <= highest info c (-1) (slots n)) /\
  (highest info c (-1) (slots n) = -1 \/
   0 <= highest info c (-1) (slots n) < n /\ active info c (highest info c (-1) (slots n))).
Proof using infos_ok.
  destruct (highest_spec info c (-1) (slots n)) as (H1 & H2 & H3). split_and!; [done| |].
  - intros i Hi Ha. apply H3; [by apply elem_of_slots|by apply slot_active_iff].
  - destruct H2 as [?|[Hel Ha]]; [by left|right].
    split; [by apply elem_of_slots in Hel|by apply slot_active_iff].
Qed.
End ScanLoop.

(** [next] is the first index of chain [c] after every used one. *)
Definition next_unused (info : bool -> Z -> option AddrInfo) (c : bool) (next : Z) : Prop :=
  (forall i, 0 <= i -> active info c i -> i < next) /\
  (next = 0 \/ 0 < next /\ active info c (next - 1)).

(** ** Claims: scanning *)

(** C32: The gap scan terminates within its bound on batches and is complete: for a
    wallet whose used addresses respect the gap limit it reports, on both chains,
    the index right after the last used address, all of them inside the scanned
    window, and the balance of that window. *)
Theorem scan_finds_every_used_address `{BtcKeyEnv} (master : Xpriv) (params : ChainAddressParams)
    (fetch_infos : list string -> list (option AddrInfo)) (info : bool -> Z -> option AddrInfo) :
  (forall c i, 0 <= i < GAP * Z.of_nat MAX_BATCHES -> exists k, derive master params c i = Ok k) ->
  (forall start addrs, batch_addresses master params start = Ok (batch_slots start, addrs) ->
     fetch_infos addrs = map (fun s => info s.1 s.2) (batch_slots start)) ->
  (forall c i x, info c i = Some x -> info_ok x) ->
  respects_gap info ->
  exists s, scan fetch_infos master params = Ok s /\
    next_unused info false (external_next s) /\ next_unused info true (change_next s) /\
    external_next s <= scan_limit s /\ change_next s <= scan_limit s /\
    balance_sats s = sum_map (slot_net info) (slots (scan_limit s)).
Proof.
  intros Hder Hsnap Hok Hgap.
  assert (Hinit : describes info (GAP * Z.of_nat 0) ScanState_new) by done.
  destruct (scan_loop_spec master params fetch_infos info Hder Hsnap Hok MAX_BATCHES 0 ScanState_new
    ltac:(lia) Hinit) as (st & k & Hl & Hk & (Hb & He & Hc) & Hsc & Hend).
  specialize (Hsc ltac:(done)). unfold scan. change (GAP * Z.of_nat 0) with 0 in Hl. rewrite Hl. cbn [rbind].
  exists (finish st). split; [done|]. unfold finish. cbn [external_next change_next scan_limit balance_sats].
  assert (Hk1 : (1 <= k)%nat) by (unfold MAX_BATCHES in *; lia).
  pose proof (sum_slots_bounds info Hok (GAP * Z.of_nat k)) as Hsum.
  assert (Hmax : GAP * Z.of_nat k <= 1280) by (unfold GAP, MAX_BATCHES in *; lia).
  assert (Hnext : forall c, let h := highest info c (-1) (slots (GAP * Z.of_nat k)) in
    wrap_u32 (wrap_i64 (h + 1)) = h + 1 /\ h + 1 <= GAP * Z.of_nat k /\ next_unused info c (h + 1)).
  { intros c h. destruct (highest_slots info Hok c (GAP * Z.of_nat k)) as (Hh1 & Hh2 & Hh3). fold h in Hh1, Hh2, Hh3.
    assert (Hr : -1 <= h < GAP * Z.of_nat k) by (unfold GAP in *; lia).
    rewrite wrap_i64_small, wrap_u32_small by lia. split_and!; [done|lia|]. split.
    - intros i Hi Ha. enough (i <= h) by lia. apply Hh2; [|done]. split; [done|].
      apply (scan_reaches info Hok k c i); [done|done| |done|done].
      destruct Hend as [Hend|[_ ?]]; [left; exact Hend|by right].
    - destruct Hh3 as [->|[? ?]]; [by left|right]. by replace (h + 1 - 1) with h by lia; split; [lia|]. }
  destruct (Hnext false) as (E1 & E2 & E3). destruct (Hnext true) as (E4 & E5 & E6).
  rewrite He, Hc, Hsc, E1, E4. split_and!; [done..|].
  rewrite Hb. rewrite Z.max_r, wrap_u64_small by (unfold GAP in *; lia). done.
Qed.

Module BtcCoreSample.
(** Keys that are their derivation paths, addresses that print them. *)
Program Definition PathKeys : HtlcEnv :=
  {| txid_from_str s := Some (le_bytes 32 (Z.of_nat (String.length s)));
     asset_from_str s := Some (le_bytes 32 (Z.of_nat (String.length s)));
     SecretKey := string;
     sign_der k m := le_bytes 8 (le_val m) |}.
Next Obligation. intros s h [= <-]. reflexivity. Qed.
Next Obligation. intros s h [= <-]. reflexivity. Qed.
Next Obligation. intros k m. simpl. lia. Qed.
#[export] Existing Instance PathKeys.

Definition PathKeyEnv : BtcKeyEnv :=
  {| Xpriv := unit;
     DerivationPath := string;
     path_from_str := Some;
     derive_priv _ p := Some (p : @SecretKey PathKeys);
     sk_public_key := String.list_byte_of_string;
     BtcAddress := string;
     p2wpkh_address pk _ := String.string_of_list_byte pk;
     address_to_string a := a;
     address_script := String.list_byte_of_string;
     address_from_str := Some;
     is_valid_for_network _ _ := true;
     p2wpkh_signature_hash tx idx script value := Some script |}.
#[export] Existing Instance PathKeyEnv.

Definition sample_master : @Xpriv PathKeys PathKeyEnv := tt.
Definition coin (n v : Z) : Utxo :=
  mkUtxo (mkOutPoint (le_bytes 32 n) 0) v [Byte.x00] "m"%string [Byte.x02].
Definition coins : list Utxo := [coin 1 10000; coin 2 70000; coin 3 25000].
Definition sat_per_vb : f64 := f64_of_Z 3.

(** One used address, the first external one. *)
Definition used (a : string) : option AddrInfo :=
  if bool_decide (a = "m/84h/1h/0h/0/0"%string)
  then Some (mkAddrInfo (mkStats 900 200 2) (mkStats 50 0 1)) else None.
Definition sample_info (c : bool) (i : Z) : option AddrInfo :=
  used (String.string_of_list_byte (String.list_byte_of_string (derive_path chain_testnet c i))).

Lemma sample_info_some c i x :
  0 <= i -> sample_info c i = Some x -> c = false /\ i = 0.
Proof.
  intros Hi. unfold sample_info, used. rewrite String.string_of_list_byte_of_string.
  case_bool_decide as Hp; [|done]. intros _. destruct c; [discriminate Hp|].
  split; [done|]. assert (Hq : pretty (Z.to_N i) = pretty 0%N) by (by injection Hp).
  apply (inj pretty) in Hq. lia.
Qed.

Lemma sample_snapshot start addrs :
  batch_addresses sample_master chain_testnet start = Ok (batch_slots start, addrs) ->
  map used addrs = map (fun s => sample_info s.1 s.2) (batch_slots start).
Proof.
  unfold batch_addresses. generalize (batch_slots start). intros l (addrs' & Hm%rmapM_ok & [= <-])%rbind_ok.
  induction Hm as [|[c i] a l addrs' Ha _ IH]; [done|]. cbn [map fst snd]. rewrite IH. f_equal.
  simpl in Ha. by injection Ha as <-.
Qed.

Lemma sample_info_ok c i x : sample_info c i = Some x -> info_ok x.
Proof.
  unfold sample_info, used. case_bool_decide; [|done]. intros [= <-].
  unfold info_ok, small_stats, info_net_true. simpl. lia.
Qed.

Lemma sample_gap : respects_gap sample_info.
Proof.
  intros c i Hi (x & Hx & _). apply sample_info_some in Hx as [_ ->]; [|done].
  unfold GAP, MAX_BATCHES. split; [lia|left; lia].
Qed.
End BtcCoreSample.
Import BtcCoreSample.

Lemma build_signed_tx_correct_witness :
  exists p, build_signed_tx sample_master chain_testnet "dest" 80000 sat_per_vb 0 coins = Ok p /\
    exists sel, sum_map fst (btc_output (signed_tx (prepared p))) + fee_sats p = sum_map utxo_value sel.
Proof.
  destruct (build_signed_tx sample_master chain_testnet "dest" 80000 sat_per_vb 0 coins) as [p|e] eqn:Eb;
    [|vm_compute in Eb; discriminate Eb].
  exists p. split; [reflexivity|].
  destruct (build_signed_tx_correct sample_master chain_testnet "dest" 80000 sat_per_vb 0 coins p ltac:(lia)
    ltac:(repeat constructor; simpl; lia) ltac:(reflexivity) Eb)
    as (sel & _ & _ & _ & _ & _ & _ & _ & _ & _ & _ & Hsum & _).
  exists sel. exact Hsum.
Defined.

Lemma build_insufficient_iff_witness :
  build_signed_tx sample_master chain_testnet "dest" 105000 sat_per_vb 0 coins = Err InsufficientBtc <->
  forall c, c <> [] -> c ⊆+ coins -> ~ covers sat_per_vb 105000 c.
Proof.
  apply (build_insufficient_iff sample_master chain_testnet "dest" "dest"%string 105000 sat_per_vb 0 coins);
    [lia|done|repeat constructor; simpl; lia|reflexivity|done|reflexivity|reflexivity|].
  intros n Hn. simpl in Hn.
  assert (n = 1%nat \/ n = 2%nat \/ n = 3%nat) as [->|[->| ->]] by lia; vm_compute; intros Hc; discriminate Hc.
Defined.

Lemma scan_finds_every_used_address_witness :
  exists s, scan (map used) sample_master chain_testnet = Ok s /\ external_next s = 1 /\ change_next s = 0 /\
    balance_sats s = 750.
Proof.
  destruct (scan_finds_every_used_address sample_master chain_testnet (map used) sample_info) as (s & Hs & Hx & _).
  - intros c i _. eexists. reflexivity.
  - exact sample_snapshot.
  - exact sample_info_ok.
  - exact sample_gap.
  - exists s. split; [exact Hs|]. vm_compute in Hs. injection Hs as <-. by vm_compute.
Defined.

Example vbytes_1_2 : vbytes 1 2 = 141.
Proof. vm_compute. reflexivity. Qed.
Example fee_for_rate : fee_for (binary_normalize 53 1024 3 (-1) false) 2 2 = 314.
Proof. vm_compute. reflexivity. Qed.
