(* ===== verification/Esplora.v ===== *)
(** * Reading esplora's answers

    [lwk_wollet/src/btc/esplora.rs] ([pick_fee]), [btc/core.rs]
    ([parse_htlc_funding], [parse_broadcast]) and the body of
    [btc/xchain.rs]'s [read_seq_preimage]: the untrusted answers of a server that
    decide fee rates, funding outputs and preimages.  A [&str] is the list of its
    UTF-8 bytes; [serde_json::Value] is a parameter. *)

From S2P Require Import Prelude Order Encode Hex Script Timelocks Confidential Transaction Sighash.

(** ** Text: the parts of [str] that are used *)

(** The UTF-8 forms of the characters with the [White_Space] property. *)
Definition white_space : list bytes :=
  map (fun z => [z2b z]) [9; 10; 11; 12; 13; 32] ++
  map (map z2b) ([[0xc2; 0x85]; [0xc2; 0xa0]; [0xe1; 0x9a; 0x80]; [0xe2; 0x80; 0xa8]; [0xe2; 0x80; 0xa9];
    [0xe2; 0x80; 0xaf]; [0xe2; 0x81; 0x9f]; [0xe3; 0x80; 0x80]] ++
    map (fun z => [0xe2; 0x80; 0x80 + z]) (seqZ 0 11)).

Fixpoint strip_prefix (p s : bytes) : option bytes :=
  match p, s with
  | [], _ => Some s
  | a :: p, b :: s => if bool_decide (a = b) then strip_prefix p s else None
  | _ :: _, [] => None
  end.

Fixpoint strip_any (ps : list bytes) (s : bytes) : option bytes :=
  match ps with
  | [] => None
  | p :: ps => match strip_prefix p s with Some r => Some r | None => strip_any ps s end
  end.

(** Drop matches at the front; each one shortens the text, so its length is fuel. *)
Fixpoint strip_all (fuel : nat) (ps : list bytes) (s : bytes) : bytes :=
  match fuel with
  | O => s
  | S fuel => match strip_any ps s with Some r => strip_all fuel ps r | None => s end
  end.

Definition trim_start (s : bytes) : bytes := strip_all (length s) white_space s.
Definition trim_end (s : bytes) : bytes :=
  rev (strip_all (length s) (map (@rev byte) white_space) (rev s)).
Definition trim (s : bytes) : bytes := trim_end (trim_start s).

(** [str::split_whitespace]: [cur] is the token being read, reversed. *)
Definition flush (cur : bytes) (ts : list bytes) : list bytes :=
  match cur with [] => ts | _ => rev cur :: ts end.
Fixpoint split_ws (fuel : nat) (s cur : bytes) : list bytes :=
  match fuel, s with
  | S fuel, b :: s' =>
      match strip_any white_space s with
      | Some r => flush cur (split_ws fuel r [])
      | None => split_ws fuel s' (b :: cur)
      end
  | _, _ => flush cur []
  end.
Definition split_whitespace (s : bytes) : list bytes := split_ws (length s) s [].

(** [&s[..n]]: [None] is the panic off a character boundary. *)
Definition slice_to (n : nat) (s : bytes) : option bytes :=
  match s !! n with
  | Some b => if (0x80 <=? b2z b) && (b2z b <? 0xc0) then None else Some (take n s)
  | None => if (n =? length s)%nat then Some s else None
  end.

Definition is_ascii_hexdigit (c : byte) : bool := bool_decide (is_Some (to_digit (b2z c))).
Definition eq_ignore_ascii_case (a b : bytes) : bool := bool_decide (map lower a = map lower b).

(** [str::parse::<u16>]: an optional plus sign, then decimal digits. *)
Definition dec_digit (c : byte) : option Z :=
  if (48 <=? b2z c) && (b2z c <=? 57) then Some (b2z c - 48) else None.
Fixpoint parse_digits (max acc : Z) (s : bytes) : option Z :=
  match s with
  | [] => Some acc
  | c :: s =>
      d ← dec_digit c;
      let acc := acc * 10 + d in
      if acc <=? max then parse_digits max acc s else None
  end.
Definition parse_u16 (s : bytes) : option Z :=
  match s with
  | [] => None
  | c :: s' =>
      if b2z c =? 43 then match s' with [] => None | _ => parse_digits 65535 0 s' end
      else parse_digits 65535 0 s
  end.

(** ** Fee estimates *)

Section PickFee.
Context {V : Type} (target_blocks : Z).

(** One turn of the loop over the map: the best and the fastest so far. *)
Definition pick_step (acc : option (Z * V) * option (Z * V)) (kv : bytes * V)
  : option (Z * V) * option (Z * V) :=
  let '(best, fastest) := acc in
  match parse_u16 kv.1 with
  | None => acc
  | Some t =>
      let fastest := if from_option (fun f => t <? f.1) true fastest then Some (t, kv.2) else fastest in
      let best := if (t <=? target_blocks) && from_option (fun b => b.1 <? t) true best
                  then Some (t, kv.2) else best in
      (best, fastest)
  end.

(** The map in the order it happens to be iterated. *)
Definition pick_fee (map : list (bytes * V)) : option V :=
  let '(best, fastest) := foldl pick_step (None, None) map in
  snd <$> (match best with Some b => Some b | None => fastest end).

(** A rate [v] published for target [t]. *)
Definition published (m : list (bytes * V)) (t : Z) (v : V) : Prop :=
  exists k, (k, v) ∈ m /\ parse_u16 k = Some t.

Definition best_ok (m : list (bytes * V)) (o : option (Z * V)) : Prop :=
  match o with
  | Some (t, v) => published m t v /\ t <= target_blocks /\
      forall t' v', published m t' v' -> t' <= target_blocks -> t' <= t
  | None => forall t' v', published m t' v' -> target_blocks < t'
  end.
Definition fastest_ok (m : list (bytes * V)) (o : option (Z * V)) : Prop :=
  match o with
  | Some (t, v) => published m t v /\ forall t' v', published m t' v' -> t <= t'
  | None => forall t' v', ~ published m t' v'
  end.

Lemma published_snoc m k v t' v' :
  published (m ++ [(k, v)]) t' v' <-> published m t' v' \/ (parse_u16 k = Some t' /\ v' = v).
Proof.
  unfold published. setoid_rewrite elem_of_app. setoid_rewrite list_elem_of_singleton. naive_solver.
Qed.

Lemma pick_step_ok m best fastest k v :
  best_ok m best -> fastest_ok m fastest ->
  let '(b, f) := pick_step (best, fastest) (k, v) in
  best_ok (m ++ [(k, v)]) b /\ fastest_ok (m ++ [(k, v)]) f.
Proof.
  intros Hb Hf. unfold pick_step. simpl. destruct (parse_u16 k) as [t|] eqn:Ek.
  2: { split.
       - destruct best as [[]|]; simpl in *; setoid_rewrite published_snoc; naive_solver.
       - destruct fastest as [[]|]; simpl in *; setoid_rewrite published_snoc; naive_solver. }
  split.
  - destruct (Z.leb_spec t target_blocks); simpl.
    + destruct best as [[bt bv]|]; simpl in *.
      * destruct (Z.ltb_spec bt t); simpl; setoid_rewrite published_snoc; rewrite Ek.
        -- split_and!; [by right|done|]. intros t' v' [Hp|[[= <-] ->]] Ht'; [|lia].
           destruct Hb as (_ & _ & Hb). specialize (Hb _ _ Hp Ht'). lia.
        -- destruct Hb as (Hp & Ht & Hb). split_and!; [by left|done|].
           intros t' v' [Hp'|[[= <-] ->]] Ht'; [by eapply Hb|lia].
      * setoid_rewrite published_snoc. rewrite Ek. split_and!; [by right|done|].
        intros t' v' [Hp|[[= <-] ->]] Ht'; [|lia]. specialize (Hb _ _ Hp). lia.
    + destruct best as [[bt bv]|]; simpl in *; setoid_rewrite published_snoc; rewrite Ek.
      * destruct Hb as (Hp & Ht & Hb). split_and!; [by left|done|].
        intros t' v' [Hp'|[[= <-] ->]] Ht'; [by eapply Hb|lia].
      * intros t' v' [Hp|[[= <-] ->]]; [by eapply Hb|lia].
  - destruct fastest as [[ft fv]|]; simpl in *.
    + destruct (Z.ltb_spec t ft); simpl; setoid_rewrite published_snoc; rewrite Ek.
      * split; [by right|]. intros t' v' [Hp|[[= <-] ->]]; [|lia].
        destruct Hf as [_ Hf]. specialize (Hf _ _ Hp). lia.
      * destruct Hf as [Hp Hf]. split; [by left|].
        intros t' v' [Hp'|[[= <-] ->]]; [by eapply Hf|lia].
    + setoid_rewrite published_snoc. rewrite Ek. split; [by right|].
      intros t' v' [Hp|[[= <-] ->]]; [by destruct (Hf _ _ Hp)|lia].
Qed.

Lemma pick_loop_ok m :
  let '(b, f) := foldl pick_step (None, None) m in best_ok m b /\ fastest_ok m f.
Proof.
  induction m as [|[k v] m IH] using rev_ind.
  { simpl. unfold published. split; [intros t' v' (? & ?%not_elem_of_nil & _); done|].
    intros t' v' (? & ?%not_elem_of_nil & _); done. }
  rewrite foldl_app. destruct (foldl pick_step (None, None) m) as [b f]. cbn [foldl].
  destruct IH as [Hb Hf]. exact (pick_step_ok m b f k v Hb Hf).
Qed.
End PickFee.

(** ** JSON *)

(** [serde_json::Value] and the accessors used. *)
Class Json :=
  { json : Type;
    get : json -> string -> option json;
    as_array : json -> option (list json);
    as_str : json -> option bytes;
    as_bool : json -> option bool;
    as_u64 : json -> option Z;
    as_i64 : json -> option Z;
    as_u64_range v z : as_u64 v = Some z -> is_u64 z;
    as_i64_range v z : as_i64 v = Some z -> is_i64 z }.

Inductive parse_error :=
| NoVout
| OutputNotFound
| ServerError (body : bytes)
| UnexpectedResponse (head : bytes).

Record HtlcFunding := mkFunding
  { fund_vout : Z;
    fund_value_sats : Z;
    fund_height : Z;
    fund_confirmations : Z }.

Section Answers.
Context {J : Json}.

Definition out_matches (p2sh_spk_hex : bytes) (o : json) : bool :=
  eq_ignore_ascii_case (default [] (get o "scriptpubkey" ≫= as_str)) p2sh_spk_hex.

Fixpoint find_out (p2sh_spk_hex : bytes) (i : nat) (vouts : list json) : option (Z * Z) :=
  match vouts with
  | [] => None
  | o :: vouts =>
      if out_matches p2sh_spk_hex o
      then Some (wrap_u32 (Z.of_nat i), default 0 (get o "value" ≫= as_u64))
      else find_out p2sh_spk_hex (S i) vouts
  end.

Definition parse_htlc_funding (tx : json) (p2sh_spk_hex : bytes) (tip : Z)
  : result HtlcFunding parse_error :=
  let? vouts := ok_or (get tx "vout" ≫= as_array) NoVout in
  let? (vout, value_sats) := ok_or (find_out p2sh_spk_hex 0 vouts) OutputNotFound in
  let status := get tx "status" in
  let confirmed := default false (status ≫= fun s => get s "confirmed" ≫= as_bool) in
  let height := if (confirmed : bool)
                then default (-1) (status ≫= fun s => get s "block_height" ≫= as_i64) else -1 in
  let confirmations := if confirmed && (0 <=? height) && (height <=? tip)
                       then wrap_i64 (tip - height + 1) else 0 in
  Ok (mkFunding vout value_sats height confirmations).
End Answers.

(** [None] is a panic. *)
Definition parse_broadcast (ok : bool) (body : bytes) : option (result bytes parse_error) :=
  let body := trim body in
  if negb ok then Some (Err (ServerError body))
  else if negb (length body =? 64)%nat || negb (forallb is_ascii_hexdigit body)
  then s ← slice_to (Nat.min (length body) 80) body; Some (Err (UnexpectedResponse s))
  else Some (Ok body).

(** ** Reading a preimage off the chain *)

(** The [bitcoin] crate's [Vec::from_hex] and [to_lower_hex_string]. *)
Class BtcHex :=
  { hex_decode : bytes -> option bytes;
    hex_encode : bytes -> bytes;
    hex_decode_length s d : hex_decode s = Some d -> length s = (2 * length d)%nat }.

Section Preimage.
Context {J : Json} {H : Hashes} {X : BtcHex}.

Definition is_hex (s : bytes) : bool := (2 <=? length s)%nat && forallb is_ascii_hexdigit s.

(** The hex pushes of an input: its scriptSig's, then its witness's, lower-cased. *)
Definition vin_pushes (vin : json) : list bytes :=
  let asm := match get vin "scriptsig_asm" ≫= as_str with
             | Some asm => filter (fun t => is_hex t = true) (split_whitespace asm)
             | None => []
             end in
  let wit := match get vin "witness" ≫= as_array with
             | Some wit => filter (fun t => is_hex t = true) (omap as_str wit)
             | None => []
             end in
  map (map lower) (asm ++ wit).

Definition push_matches (want p : bytes) : bool :=
  (length p =? 64)%nat &&
  match hex_decode p with
  | Some bytes => bool_decide (hex_encode (sha256 bytes) = want)
  | None => false
  end.

(** [read_seq_preimage] once the answers are in: [os] the outspend answer, [None]
    when it is not JSON, and the transaction [fetch_tx] gives for its txid;
    [to_lowercase] of ASCII text is [lower]. *)
Definition read_seq_preimage (os : option json) (fetch_tx : bytes -> result json parse_error)
    (hash_hex : bytes) : result (option bytes) parse_error :=
  let want := map lower hash_hex in
  match os with
  | None => Ok None
  | Some os =>
      if negb (default false (get os "spent" ≫= as_bool)) then Ok None
      else match get os "txid" ≫= as_str with
           | None => Ok None
           | Some spend_txid =>
               let? stx := fetch_tx spend_txid in
               match get stx "vin" ≫= as_array with
               | None => Ok None
               | Some vins =>
                   Ok (snd <$> list_find (fun p => push_matches want p = true)
                                 (concat (map vin_pushes vins)))
               end
           end
  end.
End Preimage.

Lemma from_hex_length s d : from_hex s = Ok d -> length s = (2 * length d)%nat.
Proof.
  intros Hs%hex_roundtrip_lower.
  apply (f_equal length) in Hs. rewrite length_map, length_to_hex in Hs. done.
Qed.

Lemma push_matches_iff `{Hashes} `{BtcHex} want p :
  push_matches want p = true <->
  exists d, hex_decode p = Some d /\ length d = 32%nat /\ hex_encode (sha256 d) = want.
Proof.
  unfold push_matches. rewrite andb_true_iff, Nat.eqb_eq. destruct (hex_decode p) as [d|] eqn:Ep.
  - apply hex_decode_length in Ep. rewrite bool_decide_eq_true. split; [naive_solver lia|].
    intros (? & [= ->] & ? & ?). split; [lia|done].
  - naive_solver.
Qed.

Lemma find_out_spec `{Json} spk i vouts :
  match find_out spk i vouts with
  | Some (v, value) => exists j o, vouts !! j = Some o /\ out_matches spk o = true /\
      (forall j' o', (j' < j)%nat -> vouts !! j' = Some o' -> out_matches spk o' = false) /\
      v = wrap_u32 (Z.of_nat (i + j)) /\ value = default 0 (get o "value" ≫= as_u64)
  | None => forall o, o ∈ vouts -> out_matches spk o = false
  end.
Proof.
  revert i. induction vouts as [|o vouts IH]; intros i; simpl; [by intros o ?%not_elem_of_nil|].
  destruct (out_matches spk o) eqn:Eo.
  - exists 0%nat, o. rewrite Nat.add_0_r. split_and!; [done|done|lia|done|done].
  - specialize (IH (S i)). destruct (find_out spk (S i) vouts) as [[v value]|].
    + destruct IH as (j & o1 & Hj & Ho & Hbefore & -> & ->). exists (S j), o1.
      split_and!; [done|done| |do 2 f_equal; lia|done].
      intros [|j'] o' Hj' Ho'; [by injection Ho' as <-|]. apply (Hbefore j'); [lia|done].
    + intros o1 [->|Ho1]%elem_of_cons; [done|by apply IH].
Qed.

Lemma slice_to_none n s :
  slice_to n s = None <->
  (length s < n)%nat \/ exists b, s !! n = Some b /\ 0x80 <= b2z b < 0xc0.
Proof.
  unfold slice_to. destruct (s !! n) as [b|] eqn:Es.
  - apply lookup_lt_Some in Es as Hl. destruct (Z.leb_spec 0x80 (b2z b)), (Z.ltb_spec (b2z b) 0xc0); simpl;
      naive_solver lia.
  - apply lookup_ge_None in Es. destruct (Nat.eqb_spec n (length s)); naive_solver lia.
Qed.

(** ** Claims *)

(** Whatever the order in which the map is iterated, [pick_fee] returns the
    rate of the largest target that is not beyond the one asked for, or the rate of
    the smallest target when all are beyond, and nothing exactly when no key is a
    target. *)
Theorem pick_fee_correct {V} (target : Z) (m : list (bytes * V)) :
  (forall t v v', published m t v -> published m t v' -> v = v') ->
  (pick_fee target m = None <-> forall t v, ~ published m t v) /\
  forall v, pick_fee target m = Some v <->
    exists t, published m t v /\
      ((t <= target /\ forall t' v', published m t' v' -> t' <= target -> t' <= t) \/
       (forall t' v', published m t' v' -> target < t' /\ t <= t')).
Proof.
  intros Hfun. unfold pick_fee. pose proof (pick_loop_ok target m) as Hl.
  destruct (foldl (pick_step target) (None, None) m) as [best fastest]. destruct Hl as [Hb Hf].
  destruct best as [[bt bv]|]; simpl in *.
  - destruct Hb as (Hp & Ht & Hmax). split; [split; [done|intros Hno; by destruct (Hno bt bv)]|].
    intros v. split; [intros [= <-]; exists bt; by split; [|left]|].
    intros (t & Hpt & [[Htt Hmax']|Hall]).
    + f_equal. apply (Hfun t bv v); [|done]. specialize (Hmax _ _ Hpt Htt). specialize (Hmax' _ _ Hp Ht).
      by replace t with bt by lia.
    + specialize (Hall _ _ Hp). lia.
  - destruct fastest as [[ft fv]|]; simpl in *.
    + destruct Hf as [Hp Hmin]. split; [split; [done|intros Hno; by destruct (Hno ft fv)]|].
      intros v. split.
      * intros [= <-]. exists ft. split; [done|right]. intros t' v' Hp'. split; [by eapply Hb|by eapply Hmin].
      * intros (t & Hpt & [[Htt _]|Hall]); [specialize (Hb _ _ Hpt); lia|]. f_equal.
        apply (Hfun t fv v); [|done]. specialize (Hmin _ _ Hpt). destruct (Hall _ _ Hp).
        by replace t with ft by lia.
    + split; [done|]. intros v. split; [done|]. intros (t & Hp & _). by destruct (Hf t v).
Qed.

(** The funding output of an HTLC is located soundly: the output returned is
    the first of the transaction that pays the HTLC's script, with its own value,
    it is an error exactly when there is none, and a positive number of
    confirmations is the depth of a confirmed block below the caller's tip. *)
Theorem parse_htlc_funding_correct `{Json} (tx : json) (spk : bytes) (tip : Z) (vouts : list json) :
  is_i64 tip -> tip < 9223372036854775807 -> zlen vouts <= u32_max ->
  get tx "vout" ≫= as_array = Some vouts ->
  (parse_htlc_funding tx spk tip = Err OutputNotFound <-> forall o, o ∈ vouts -> out_matches spk o = false) /\
  forall f, parse_htlc_funding tx spk tip = Ok f ->
    (exists j o, fund_vout f = Z.of_nat j /\ vouts !! j = Some o /\ out_matches spk o = true /\
       (forall j' o', (j' < j)%nat -> vouts !! j' = Some o' -> out_matches spk o' = false) /\
       fund_value_sats f = default 0 (get o "value" ≫= as_u64)) /\
    (fund_confirmations f = 0 \/
     exists status, get tx "status" = Some status /\ get status "confirmed" ≫= as_bool = Some true /\
       get status "block_height" ≫= as_i64 = Some (fund_height f) /\ 0 <= fund_height f <= tip /\
       fund_confirmations f = tip - fund_height f + 1).
Proof.
  intros Htip Htip' Hlen Hv. unfold parse_htlc_funding. rewrite Hv. simpl.
  pose proof (find_out_spec spk 0 vouts) as Hfind.
  destruct (find_out spk 0 vouts) as [[v value]|]; simpl in *.
  - destruct Hfind as (j & o & Hj & Ho & Hbefore & -> & ->). split.
    { split; [done|]. intros Hall. apply list_elem_of_lookup_2 in Hj. specialize (Hall o Hj). congruence. }
    intros f [= <-]. simpl. split.
    { apply lookup_lt_Some in Hj as Hjl. exists j, o. unfold zlen, u32_max in Hlen.
      by rewrite wrap_u32_small by lia. }
    destruct (get tx "status") as [status|]; simpl; [|by left].
    destruct (get status "confirmed" ≫= as_bool) as [[]|] eqn:Ec; simpl; [|by left..].
    destruct (get status "block_height" ≫= as_i64) as [h|] eqn:Eh; simpl; [|by left].
    destruct (Z.leb_spec 0 h); simpl; [|by left]. destruct (Z.leb_spec h tip); [right|by left].
    exists status. split_and!; [done..|]. unfold wrap_i64. rewrite Z.mod_small; lia.
  - split; [done|]. intros f [=].
Qed.

(** [parse_broadcast] accepts exactly a successful answer that is, after
    trimming, a txid of 64 hexadecimal digits, and it panics exactly on a successful
    answer longer than 80 bytes whose 80th byte falls inside a character. *)
Theorem parse_broadcast_spec (ok : bool) (body t : bytes) :
  (parse_broadcast ok body = Some (Ok t) <->
   ok = true /\ t = trim body /\ length t = 64%nat /\ Forall (fun c => is_ascii_hexdigit c = true) t) /\
  (parse_broadcast ok body = None <->
   ok = true /\ exists b, trim body !! 80%nat = Some b /\ 0x80 <= b2z b < 0xc0).
Proof.
  unfold parse_broadcast. destruct ok; simpl; [|naive_solver].
  destruct (Nat.eqb_spec (length (trim body)) 64) as [Hl|Hl]; simpl;
    [destruct (forallb is_ascii_hexdigit (trim body)) eqn:Ef; simpl|].
  - rewrite forallb_forall, <-List.Forall_forall in Ef. split.
    + split; [by intros [= <-]|naive_solver].
    + split; [done|]. intros (_ & b & Hb & _). apply lookup_lt_Some in Hb. lia.
  - assert (Hm : Nat.min (length (trim body)) 80 = length (trim body)) by lia. rewrite Hm. split.
    + split; [by destruct (slice_to _ _)|]. intros (_ & -> & _ & Hall). exfalso.
      apply not_true_iff_false in Ef. apply Ef, forallb_forall. by rewrite <-List.Forall_forall.
    + assert (Hs : slice_to (length (trim body)) (trim body) <> None).
      { rewrite slice_to_none. intros [?|(b & Hb%lookup_lt_Some & _)]; lia. }
      split; [by destruct (slice_to _ _)|]. intros (_ & b & Hb & _). apply lookup_lt_Some in Hb. lia.
  - split; [split; [by destruct (slice_to _ _)|naive_solver]|].
    assert (Hs : slice_to (Nat.min (length (trim body)) 80) (trim body) = None <->
                 exists b, trim body !! 80%nat = Some b /\ 0x80 <= b2z b < 0xc0).
    { rewrite slice_to_none. destruct (decide (length (trim body) <= 80)%nat).
      - rewrite Nat.min_l by done. split; [intros [?|(b & Hb%lookup_lt_Some & _)]; lia|].
        intros (b & Hb%lookup_lt_Some & _). lia.
      - rewrite Nat.min_r by lia. naive_solver lia. }
    destruct (slice_to _ _); simpl; naive_solver.
Qed.

(** The preimage read off the chain is right whatever the server answers: a
    string is returned only if it decodes to 32 bytes whose SHA-256 is the agreed
    hash, and one is returned whenever the spending transaction shows such a push. *)
Theorem read_seq_preimage_correct `{Json} `{Hashes} `{BtcHex} (os : option json)
    (fetch_tx : bytes -> result json parse_error) (hash_hex : bytes) :
  (forall p, read_seq_preimage os fetch_tx hash_hex = Ok (Some p) ->
     exists d, hex_decode p = Some d /\ length d = 32%nat /\ hex_encode (sha256 d) = map lower hash_hex) /\
  (forall o txid stx vins vin p d, os = Some o -> get o "spent" ≫= as_bool = Some true ->
     get o "txid" ≫= as_str = Some txid -> fetch_tx txid = Ok stx ->
     get stx "vin" ≫= as_array = Some vins -> vin ∈ vins -> p ∈ vin_pushes vin ->
     hex_decode p = Some d -> length d = 32%nat -> hex_encode (sha256 d) = map lower hash_hex ->
     exists p', read_seq_preimage os fetch_tx hash_hex = Ok (Some p')).
Proof.
  unfold read_seq_preimage. split.
  - intros p Hp. destruct os as [o|]; [|done].
    destruct (negb (default false (get o "spent" ≫= as_bool))); [done|].
    destruct (get o "txid" ≫= as_str) as [txid|]; [|done].
    apply rbind_ok in Hp as (stx & _ & Hp).
    destruct (get stx "vin" ≫= as_array) as [vins|]; [|done]. injection Hp as Hp.
    apply fmap_Some in Hp as ([i q] & Hq & ->). apply list_find_Some in Hq as (_ & Hq & _).
    by apply push_matches_iff.
  - intros o txid stx vins vin p d -> Hs Ht Hf Hvins Hvin Hp Hd Hl Hh.
    rewrite Hs. simpl. rewrite Ht, Hf. simpl. rewrite Hvins.
    destruct (list_find _ _) as [[i q]|] eqn:Eq; [by exists q|].
    apply list_find_None in Eq. rewrite Forall_forall in Eq. exfalso.
    apply (Eq p); [apply elem_of_concat_map; by exists vin|]. apply push_matches_iff. by exists d.
Qed.

Module EsploraSample.
(** JSON values with the accessors' documented behaviour, numbers integral. *)
Inductive value :=
| VNull
| VBool (b : bool)
| VNumber (z : Z)
| VString (s : bytes)
| VArray (l : list value)
| VObject (m : list (string * value)).

Definition in_range (lo hi z : Z) : option Z := if (lo <=? z) && (z <? hi) then Some z else None.

Lemma in_range_some lo hi z z' : in_range lo hi z = Some z' -> lo <= z' < hi.
Proof. unfold in_range. destruct (Z.leb_spec lo z), (Z.ltb_spec z hi); simpl; naive_solver. Qed.

Fixpoint field (k : string) (m : list (string * value)) : option value :=
  match m with
  | [] => None
  | (k', v) :: m => if String.eqb k' k then Some v else field k m
  end.

Definition value_get (v : value) (k : string) : option value :=
  match v with VObject m => field k m | _ => None end.
Definition value_u64 (v : value) : option Z :=
  match v with VNumber z => in_range 0 18446744073709551616 z | _ => None end.
Definition value_i64 (v : value) : option Z :=
  match v with
  | VNumber z => in_range (-9223372036854775808) 9223372036854775808 z
  | _ => None
  end.

Lemma value_u64_range v z : value_u64 v = Some z -> is_u64 z.
Proof. destruct v; simpl; try done. apply in_range_some. Qed.
Lemma value_i64_range v z : value_i64 v = Some z -> is_i64 z.
Proof. destruct v; simpl; try done. apply in_range_some. Qed.

Definition Json_model : Json :=
  {| json := value;
     get := value_get;
     as_array v := match v with VArray l => Some l | _ => None end;
     as_str v := match v with VString s => Some s | _ => None end;
     as_bool v := match v with VBool b => Some b | _ => None end;
     as_u64 := value_u64;
     as_i64 := value_i64;
     as_u64_range := value_u64_range;
     as_i64_range := value_i64_range |}.
#[export] Existing Instance Json_model.

(** A digest for the samples: the first 32 bytes of the padded input. *)
Definition pad_hash (l : bytes) : bytes := take 32 (l ++ replicate 32 Byte.x00).
Lemma pad_hash_length l : length (pad_hash l) = 32%nat.
Proof. unfold pad_hash. rewrite length_take. autorewrite with swk_len. lia. Qed.
Definition PadHash : Hashes := {| sha256 := pad_hash; sha256_length := pad_hash_length |}.
#[export] Existing Instance PadHash.

Lemma from_hex_opt_length s d : ok_opt (from_hex s) = Some d -> length s = (2 * length d)%nat.
Proof. destruct (from_hex s) eqn:E; simpl; [|done]. intros [= <-]. by apply from_hex_length. Qed.
Definition Hex_model : BtcHex :=
  {| hex_decode s := ok_opt (from_hex s); hex_encode := to_hex; hex_decode_length := from_hex_opt_length |}.
#[export] Existing Instance Hex_model.

Definition ascii (s : string) : bytes := String.list_byte_of_string s.
Definition estimates : list (bytes * Z) := [(ascii "144", 1); (ascii "2", 9); (ascii "6", 4); (ascii "x", 7)].

Lemma estimates_published t v :
  published estimates t v -> (t = 144 /\ v = 1) \/ (t = 2 /\ v = 9) \/ (t = 6 /\ v = 4).
Proof.
  intros (k & Hk & Et). apply list_elem_of_In in Hk. simpl in Hk.
  destruct Hk as [[= <- <-]|[[= <- <-]|[[= <- <-]|[[= <- <-]|[]]]]]; vm_compute in Et; naive_solver.
Qed.

Definition sample_outs : list (@json Json_model) :=
  [VObject [("scriptpubkey", VString (ascii "51")); ("value", VNumber 5)];
   VObject [("scriptpubkey", VString (ascii "A914AB")); ("value", VNumber 90000)]].
Definition sample_funding_tx : @json Json_model :=
  VObject [("vout", VArray sample_outs);
           ("status", VObject [("confirmed", VBool true); ("block_height", VNumber 100)])].

Definition secret : bytes := replicate 32 Byte.x07.
Definition sample_vin : @json Json_model := VObject [("witness", VArray [VString (to_hex secret)])].
Definition sample_spend_tx : @json Json_model := VObject [("vin", VArray [sample_vin])].
Definition sample_outspend : @json Json_model := VObject [("spent", VBool true); ("txid", VString (ascii "ab"))].

(** 79 letters and a two-byte character: the slice at 80 is inside it. *)
Definition bad_body : bytes := replicate 79 Byte.x61 ++ [Byte.xc3; Byte.xa9].
End EsploraSample.
Import EsploraSample.

Lemma pick_fee_correct_witness : pick_fee 10 estimates = Some 4.
Proof.
  apply (proj2 (pick_fee_correct 10 estimates
    ltac:(intros t v v' H1%estimates_published H2%estimates_published; lia))).
  exists 6. split; [exists (ascii "6"); split; [set_solver|reflexivity]|]. left. split; [lia|].
  intros t' v' Hp%estimates_published Ht'. lia.
Defined.

Lemma parse_htlc_funding_correct_witness :
  exists f, parse_htlc_funding sample_funding_tx (ascii "a914ab") 102 = Ok f /\
    fund_vout f = 1 /\ fund_confirmations f = 3.
Proof.
  destruct (parse_htlc_funding sample_funding_tx (ascii "a914ab") 102) as [f|e] eqn:Ef;
    [|vm_compute in Ef; discriminate Ef].
  exists f. split; [reflexivity|].
  destruct (parse_htlc_funding_correct sample_funding_tx (ascii "a914ab") 102 sample_outs) as [_ Hok];
    [lia|lia|done|reflexivity|].
  destruct (Hok f Ef) as [(j & o & Hj & Hl & Hm & _) _].
  destruct j as [|[|j]]; [|split; [exact Hj|vm_compute in Ef; by injection Ef as <-]|done].
  injection Hl as <-. discriminate Hm.
Defined.

Lemma read_seq_preimage_correct_witness :
  exists p, read_seq_preimage (Some sample_outspend) (fun _ => Ok sample_spend_tx) (to_hex (sha256 secret)) = Ok (Some p).
Proof.
  apply (proj2 (read_seq_preimage_correct (Some sample_outspend) (fun _ => Ok sample_spend_tx) (to_hex (sha256 secret)))
    sample_outspend (ascii "ab") sample_spend_tx [sample_vin] sample_vin (to_hex secret) secret);
    try reflexivity; [set_solver|vm_compute; set_solver].
Defined.

Example broadcast_panics : parse_broadcast true bad_body = None.
Proof. vm_compute. reflexivity. Qed.
Example trims : trim (ascii "  ab c  ") = ascii "ab c" /\ split_whitespace (ascii " OP_1  ab c ") = map ascii ["OP_1"; "ab"; "c"]%string.
Proof. vm_compute. split; reflexivity. Qed.
