(* ===== verification/Covenant.v ===== *)
(** * Filling a resting order

    [lwk_wollet/src/seqob_covenant.rs]: the FILL transaction of a SeqOB covenant.
    The covenant reads transaction introspection, so the order and the values of
    the outputs are what makes a fill valid; addresses appear as the scripts they
    stand for. *)

From S2P Require Import Prelude Order Encode Hex Script Timelocks Confidential Transaction TxMetrics Sighash ScriptEval Htlc Delegation.

(** The [Error::Generic] values of the module, by message. *)
Inductive covenant_error : Type :=
| InvalidCovenantTxid
| InvalidTakerTxid
| NotP2wpkh (vout : Z)
| FundingOverflow
| FeeValueOverflow
| FundsSoldAsset
| WitnessVersion (v : Z)
| WitnessProgram (len : Z)
| RemainderExceedsLocked
| FilledIsZero
| Underfunded (asset : AssetId) (total used : Z)
| RemainderAsset
| NoGapOutput
| WrongDerivation (vout : Z)
| CovenantPanic.

Record CovenantInput := mkCovInput
  { cov_txid : string;
    cov_vout : Z;
    cov_asset : AssetId;
    locked : Z;
    fill_leaf : bytes;
    control_block : bytes }.

Record FillCredit := mkCredit
  { credit_asset : AssetId;
    credit_program : bytes;
    credit_version : Z;
    credit_value : Z }.

Record FillRemainder := mkRemainder
  { rem_asset : AssetId;
    rem_value : Z;
    rem_spk : Script }.

Section Covenant.
Context {P : Platform} {S : Secp} {H : Hashes} {E : HtlcEnv} {K : @KeyEnv S E}.

Record TakerFundingInput := mkTaker
  { taker_txid : string;
    taker_vout : Z;
    taker_value : Z;
    taker_asset : AssetId;
    taker_spk : bytes;
    secret_key : SecretKey }.

Record CovenantFillPlan := mkFillPlan
  { covenant : CovenantInput;
    credit : FillCredit;
    remainder : option FillRemainder;
    taker_inputs : list TakerFundingInput;
    receipt_spk : Script;
    change_spk : Script;
    fill_fee_atoms : Z;
    fill_fee_asset : AssetId }.

Definition explicit_out (asset : AssetId) (value : Z) (spk : Script) : TxOut :=
  mkTxOut (AssetExplicit asset) (ValueExplicit value) NonceNull spk TxOutWitness_empty.

Definition witness_program_spk (version : Z) (program : bytes) : result Script covenant_error :=
  if 16 <? version then Err (WitnessVersion version)
  else if (length program <? 2)%nat || (40 <? length program)%nat
  then Err (WitnessProgram (Z.of_nat (length program)))
  else
    let op := if version =? 0 then 0x00 else 0x50 + version in
    Ok (z2b op :: z2b (Z.of_nat (length program)) :: program).

Definition p2wpkh_script_code (pkh : bytes) : option Script :=
  b ← push_slice pkh (push_opcode OP_HASH160 (push_opcode OP_DUP Builder_new));
  Some (into_script (push_opcode OP_CHECKSIG (push_opcode OP_EQUALVERIFY b))).

Definition p2wpkh_spk (pkh : bytes) : bytes := [Byte.x00; Byte.x14] ++ pkh.

Definition plain_input (txid : bytes) (vout : Z) : TxIn :=
  mkTxIn (mkOutPoint txid vout) false [] Sequence_MAX AssetIssuance_null TxInWitness_empty.

Definition taker_input (ti : TakerFundingInput) : result TxIn covenant_error :=
  let? txid := ok_or (txid_from_str (taker_txid ti)) InvalidTakerTxid in
  Ok (plain_input txid (taker_vout ti)).

(** [ti.spk.len() != 22 || ti.spk[0] != 0x00 || ti.spk[1] != 0x14]. *)
Definition is_p2wpkh_spk (spk : bytes) : bool :=
  (length spk =? 22)%nat && bool_decide (take 2 spk = [Byte.x00; Byte.x14]).

(** The accounting loop: what the taker funds of each asset. *)
Fixpoint fund (inputs : list TakerFundingInput) (funded : gmap AssetId Z)
  : result (gmap AssetId Z) covenant_error :=
  match inputs with
  | [] => Ok funded
  | ti :: inputs =>
      if negb (is_p2wpkh_spk (taker_spk ti)) then Err (NotP2wpkh (taker_vout ti))
      else
        let? e := ok_or (checked_add u64_max (default 0 (funded !! taker_asset ti)) (taker_value ti))
                    FundingOverflow in
        fund inputs (<[taker_asset ti := e]> funded)
  end.

(** What the credit and the fee consume of each asset. *)
Definition consumed_by (plan : CovenantFillPlan) : result (gmap AssetId Z) covenant_error :=
  let consumed : gmap AssetId Z := {[ credit_asset (credit plan) := credit_value (credit plan) ]} in
  let? fee := ok_or (checked_add u64_max (default 0 (consumed !! fill_fee_asset plan))
                       (fill_fee_atoms plan)) FeeValueOverflow in
  Ok (<[fill_fee_asset plan := fee]> consumed).

(** Iteration of a [BTreeMap]: by increasing key. *)
Definition in_key_order (m : gmap AssetId Z) : list (AssetId * Z) :=
  sort_by (cmp_by fst bytes_cmp) (map_to_list m).

(** The change loop: the change in the credit asset and the others. *)
Fixpoint changes (b_asset : AssetId) (spk : Script) (consumed : gmap AssetId Z)
    (funded : list (AssetId * Z)) : result (option TxOut * list TxOut) covenant_error :=
  match funded with
  | [] => Ok (None, [])
  | (asset, total) :: funded =>
      let used := default 0 (consumed !! asset) in
      let? change := ok_or (checked_sub total used) (Underfunded asset total used) in
      let? (b_change, other_changes) := changes b_asset spk consumed funded in
      if 0 <? change then
        let out := explicit_out asset change spk in
        if bool_decide (asset = b_asset) then Ok (Some out, other_changes)
        else Ok (b_change, out :: other_changes)
      else Ok (b_change, other_changes)
  end.

(** The ordered outputs: the credit at 0, the remainder or a gap at 1. *)
Definition layout (plan : CovenantFillPlan) (credit_out receipt_out fee_out : TxOut)
    (b_change : option TxOut) (other_changes : list TxOut) : result (list TxOut) covenant_error :=
  let a_asset := cov_asset (covenant plan) in
  match remainder plan with
  | Some rem =>
      if negb (bool_decide (rem_asset rem = a_asset)) then Err RemainderAsset
      else Ok ([credit_out; explicit_out (rem_asset rem) (rem_value rem) (rem_spk rem); receipt_out] ++
               option_list b_change ++ other_changes ++ [fee_out])
  | None =>
      match b_change, other_changes with
      | Some bc, _ => Ok ([credit_out; bc; receipt_out] ++ other_changes ++ [fee_out])
      | None, first :: rest => Ok ([credit_out; first; receipt_out] ++ rest ++ [fee_out])
      | None, [] =>
          if negb (bool_decide (fill_fee_asset plan = a_asset))
          then Ok [credit_out; fee_out; receipt_out]
          else Err NoGapOutput
      end
  end.

Definition set_script_witness (tx : Transaction) (idx : nat) (w : list bytes) : Transaction :=
  match input tx !! idx with
  | Some i =>
      mkTransaction (version tx) (lock_time tx)
        (<[idx := set_in_witness i
            (mkTxInWitness (amount_rangeproof (in_witness i)) (inflation_keys_rangeproof (in_witness i)) w
               (pegin_witness (in_witness i)))]> (input tx)) (output tx)
  | None => tx
  end.

(** One turn of the signing loop: the witness of a taker input. *)
Definition taker_witness (tx : Transaction) (input_index : nat) (ti : TakerFundingInput)
  : result (list bytes) covenant_error :=
  let compressed := ext_ser (pubkey_of (secret_key ti)) in
  let pkh := hash160 compressed in
  if negb (bool_decide (p2wpkh_spk pkh = taker_spk ti)) then Err (WrongDerivation (taker_vout ti))
  else
    let? script_code := ok_or (p2wpkh_script_code pkh) CovenantPanic in
    let? (sighash, _) := ok_or (segwitv0_sighash (SighashCache_new tx) input_index script_code
                                  (ValueExplicit (taker_value ti)) SighashAll) CovenantPanic in
    Ok [sign_der (secret_key ti) sighash ++ [Byte.x01]; compressed].

Fixpoint sign_takers (tx : Transaction) (input_index : nat) (inputs : list TakerFundingInput)
  : result Transaction covenant_error :=
  match inputs with
  | [] => Ok tx
  | ti :: inputs =>
      let? w := taker_witness tx input_index ti in
      sign_takers (set_script_witness tx input_index w) (Datatypes.S input_index) inputs
  end.

Definition build_covenant_fill_tx (plan : CovenantFillPlan) : result (bytes * bytes) covenant_error :=
  let a_asset := cov_asset (covenant plan) in
  let? txid := ok_or (txid_from_str (cov_txid (covenant plan))) InvalidCovenantTxid in
  let? takers := rmapM taker_input (taker_inputs plan) in
  let inputs := plain_input txid (cov_vout (covenant plan)) :: takers in
  let? funded := fund (taker_inputs plan) ∅ in
  let? consumed := consumed_by plan in
  if bool_decide (is_Some (funded !! a_asset)) then Err FundsSoldAsset
  else
    let? credit_spk := witness_program_spk (credit_version (credit plan)) (credit_program (credit plan)) in
    let credit_out := explicit_out (credit_asset (credit plan)) (credit_value (credit plan)) credit_spk in
    let remainder_value := from_option rem_value 0 (remainder plan) in
    let? filled := ok_or (checked_sub (locked (covenant plan)) remainder_value) RemainderExceedsLocked in
    if filled =? 0 then Err FilledIsZero
    else
      let receipt_out := explicit_out a_asset filled (receipt_spk plan) in
      let fee_out := new_fee (fill_fee_atoms plan) (fill_fee_asset plan) in
      let? (b_change, other_changes) :=
        changes (credit_asset (credit plan)) (change_spk plan) consumed (in_key_order funded) in
      let? outputs := layout plan credit_out receipt_out fee_out b_change other_changes in
      let tx := mkTransaction 2 LockTime_ZERO inputs outputs in
      let tx := set_script_witness tx 0 [fill_leaf (covenant plan); control_block (covenant plan)] in
      let? tx := sign_takers tx 1 (taker_inputs plan) in
      Ok (serialize tx, sha256d (encode_base tx)).

(** ** Accounting *)

(** What the outputs, or the inputs, hold of an asset. *)
Definition out_of (x : AssetId) (o : TxOut) : Z :=
  match asset o, value o with
  | AssetExplicit a, ValueExplicit v => if bool_decide (a = x) then v else 0
  | _, _ => 0
  end.
Definition out_total (x : AssetId) (outs : list TxOut) : Z := sum_map (out_of x) outs.
Definition taker_of (x : AssetId) (ti : TakerFundingInput) : Z :=
  if bool_decide (taker_asset ti = x) then taker_value ti else 0.
Definition in_total (x : AssetId) (plan : CovenantFillPlan) : Z :=
  (if bool_decide (cov_asset (covenant plan) = x) then locked (covenant plan) else 0)
  + sum_map (taker_of x) (taker_inputs plan).

(** What the credit and the fee require of an asset. *)
Definition required (x : AssetId) (plan : CovenantFillPlan) : Z :=
  (if bool_decide (credit_asset (credit plan) = x) then credit_value (credit plan) else 0)
  + (if bool_decide (fill_fee_asset plan = x) then fill_fee_atoms plan else 0).

Lemma out_of_explicit x a v spk : out_of x (explicit_out a v spk) = if bool_decide (a = x) then v else 0.
Proof. done. Qed.

Lemma fund_spec inputs m m' :
  fund inputs m = Ok m' -> forall x,
  default 0 (m' !! x) = default 0 (m !! x) + sum_map (taker_of x) inputs /\
  (m' !! x = None <-> m !! x = None /\ Forall (fun ti => taker_asset ti <> x) inputs).
Proof.
  revert m. induction inputs as [|ti inputs IH]; intros m Hf x; simpl in *.
  { injection Hf as <-. split; [lia|]. naive_solver. }
  destruct (negb (is_p2wpkh_spk (taker_spk ti))); [done|].
  apply rbind_ok in Hf as (e & He%ok_or_ok & Hf). unfold checked_add in He.
  destruct (_ <=? u64_max); [injection He as <-|done].
  destruct (IH _ Hf x) as [Hd Hn]. rewrite Hd, Hn. unfold taker_of at 2.
  rewrite List.Forall_cons_iff.
  destruct (bool_decide_reflect (taker_asset ti = x)) as [<-|Hne].
  - rewrite lookup_insert_eq. simpl. split; [lia|naive_solver].
  - rewrite lookup_insert_ne by done. split; [lia|naive_solver].
Qed.

Lemma consumed_spec plan c x : consumed_by plan = Ok c -> default 0 (c !! x) = required x plan.
Proof.
  unfold consumed_by, required. intros (f & Hf%ok_or_ok & [= <-])%rbind_ok.
  unfold checked_add in Hf. destruct (_ <=? u64_max); [injection Hf as <-|done].
  destruct (bool_decide_reflect (fill_fee_asset plan = x)) as [<-|Hf].
  - rewrite lookup_insert_eq. simpl. destruct (bool_decide_reflect (credit_asset (credit plan) = fill_fee_asset plan)) as [<-|].
    + by rewrite lookup_singleton_eq.
    + by rewrite lookup_singleton_ne.
  - rewrite lookup_insert_ne, Z.add_0_r by done.
    destruct (bool_decide_reflect (credit_asset (credit plan) = x)) as [<-|].
    + by rewrite lookup_singleton_eq.
    + by rewrite lookup_singleton_ne.
Qed.

Definition left_of (x : AssetId) (c : gmap AssetId Z) (at_ : AssetId * Z) : Z :=
  if bool_decide (at_.1 = x) then at_.2 - default 0 (c !! at_.1) else 0.

Lemma changes_spec b spk c l bc oc x :
  changes b spk c l = Ok (bc, oc) -> NoDup (l.*1) ->
  out_total x (option_list bc ++ oc) = sum_map (left_of x c) l /\
  Forall (fun o => exists a v, o = explicit_out a v spk /\ a ∈ l.*1 /\ 0 < v) (option_list bc ++ oc) /\
  (is_Some bc -> b ∈ l.*1).
Proof.
  unfold out_total. revert bc oc. induction l as [|[a t] l IH]; intros bc oc; simpl.
  { intros [= <- <-] _. split_and!; [done|by constructor|by intros []]. }
  intros (ch & Hch%ok_or_ok & ([bc' oc'] & Hrec & Hc)%rbind_ok)%rbind_ok [Hni Hnd]%NoDup_cons.
  apply checked_sub_some in Hch as [Hle ->]. destruct (IH _ _ Hrec Hnd) as (Hsum & Hall & Hb).
  assert (Hall' : Forall (fun o => exists a' v, o = explicit_out a' v spk /\ a' ∈ a :: l.*1 /\ 0 < v) (option_list bc' ++ oc')).
  { eapply Forall_impl; [exact Hall|]. intros o (a' & v & -> & ? & ?). exists a', v. by split_and!; [|right|]. }
  rewrite <-Hsum. unfold left_of at 1. simpl.
  destruct (Z.ltb_spec 0 (t - default 0 (c !! a))).
  2: { injection Hc as <- <-. split_and!; [|done|intros; right; by apply Hb].
       destruct (bool_decide (a = x)); lia. }
  destruct (bool_decide_reflect (a = b)) as [->|Hne]; injection Hc as <- <-.
  - destruct bc' as [o|]; [by destruct Hni; apply Hb|]. simpl. split_and!; [done| |by left].
    constructor; [|done]. eexists _, _. by split_and!; [|left|].
  - simpl. rewrite !sum_map_app. simpl. rewrite out_of_explicit. split_and!; [lia| |intros; right; by apply Hb].
    apply Forall_app in Hall' as [H1 H2]. apply Forall_app. split; [done|]. constructor; [|done].
    eexists _, _. by split_and!; [|left|].
Qed.

Lemma sum_left_map (x : AssetId) (c m : gmap AssetId Z) :
  sum_map (left_of x c) (in_key_order m) = from_option (fun t => t - default 0 (c !! x)) 0 (m !! x).
Proof.
  unfold in_key_order. rewrite (sum_map_perm _ _ _ (sort_by_perm _ _)).
  induction m as [|a t m Hm IH] using map_ind; [by rewrite map_to_list_empty|].
  rewrite (sum_map_perm _ _ _ (map_to_list_insert m a t Hm)), sum_map_cons.
  etransitivity; [exact (f_equal (Z.add _) IH)|]. unfold left_of. simpl.
  destruct (bool_decide_reflect (a = x)) as [->|Hne].
  - by rewrite lookup_insert_eq, Hm, Z.add_0_r.
  - by rewrite lookup_insert_ne.
Qed.

Lemma in_key_order_keys (m : gmap AssetId Z) :
  NoDup ((in_key_order m).*1) /\ forall a, a ∈ (in_key_order m).*1 <-> is_Some (m !! a).
Proof.
  assert (Hp : (in_key_order m).*1 ≡ₚ (map_to_list m).*1) by (apply fmap_Permutation, sort_by_perm).
  split; [rewrite Hp; apply NoDup_fst_map_to_list|].
  intros a. rewrite Hp, list_elem_of_fmap. split.
  - intros ([a' t] & -> & Ht%elem_of_map_to_list). by exists t.
  - intros [t Ht]. exists (a, t). by split; [|apply elem_of_map_to_list].
Qed.

(** Whatever the branch, the layout holds the same outputs. *)
Lemma layout_perm plan co ro fo bc oc outs :
  layout plan co ro fo bc oc = Ok outs ->
  outs ≡ₚ co :: ro :: fo ::
    from_option (fun r => [explicit_out (rem_asset r) (rem_value r) (rem_spk r)]) [] (remainder plan) ++
    option_list bc ++ oc.
Proof.
  unfold layout. destruct (remainder plan) as [rem|]; simpl.
  - destruct (negb _); [done|]. intros [= <-]. solve_Permutation.
  - destruct bc as [bc|]; [intros [= <-]; simpl; solve_Permutation|].
    destruct oc as [|o oc]; [destruct (negb _); [|done]|]; intros [= <-]; simpl; solve_Permutation.
Qed.

(** The slots the covenant inspects. *)
Lemma layout_slots plan co ro fo bc oc outs :
  layout plan co ro fo bc oc = Ok outs ->
  Forall (fun o => asset o <> AssetExplicit (cov_asset (covenant plan))) (option_list bc ++ oc) ->
  asset fo = AssetExplicit (fill_fee_asset plan) ->
  outs !! 0%nat = Some co /\
  exists o1, outs !! 1%nat = Some o1 /\
    match remainder plan with
    | Some r => o1 = explicit_out (cov_asset (covenant plan)) (rem_value r) (rem_spk r)
    | None => asset o1 <> AssetExplicit (cov_asset (covenant plan))
    end.
Proof.
  unfold layout. intros Hl Hno Hfee. destruct (remainder plan) as [rem|].
  - destruct (bool_decide_reflect (rem_asset rem = cov_asset (covenant plan))) as [Er|]; [|done].
    injection Hl as <-. split; [done|]. eexists. split; [done|]. by rewrite Er.
  - destruct bc as [bc|].
    + injection Hl as <-. split; [done|]. exists bc. split; [done|]. by apply Forall_cons in Hno as [? _].
    + destruct oc as [|o oc].
      * destruct (bool_decide_reflect (fill_fee_asset plan = cov_asset (covenant plan))) as [|Hne]; [done|].
        injection Hl as <-. split; [done|]. exists fo. split; [done|]. rewrite Hfee. congruence.
      * injection Hl as <-. split; [done|]. exists o. split; [done|]. by apply Forall_cons in Hno as [? _].
Qed.

(** Inputs and outputs agree on every asset that is funded or not needed. *)
Lemma layout_balance plan funded consumed spk bc oc outs x :
  fund (taker_inputs plan) ∅ = Ok funded -> consumed_by plan = Ok consumed ->
  changes (credit_asset (credit plan)) (change_spk plan) consumed (in_key_order funded) = Ok (bc, oc) ->
  layout plan (explicit_out (credit_asset (credit plan)) (credit_value (credit plan)) spk)
    (explicit_out (cov_asset (covenant plan))
       (locked (covenant plan) - from_option rem_value 0 (remainder plan)) (receipt_spk plan))
    (new_fee (fill_fee_atoms plan) (fill_fee_asset plan)) bc oc = Ok outs ->
  (exists ti, ti ∈ taker_inputs plan /\ taker_asset ti = x) \/ required x plan = 0 ->
  out_total x outs = in_total x plan.
Proof.
  intros Hfund Hcons Hch Hlay Hx. destruct (in_key_order_keys funded) as [Hnd _].
  unfold out_total. rewrite (sum_map_perm _ _ _ (layout_perm _ _ _ _ _ _ _ Hlay)).
  rewrite !sum_map_cons, sum_map_app, !out_of_explicit.
  destruct (changes_spec _ _ _ _ _ _ x Hch Hnd) as (Hsum & _ & _). unfold out_total in Hsum.
  rewrite Hsum, sum_left_map, (consumed_spec _ _ _ Hcons).
  destruct (fund_spec _ _ _ Hfund x) as [Hd Hn]. rewrite lookup_empty in Hd, Hn. simpl in Hd.
  rewrite Z.add_0_l in Hd. unfold in_total. rewrite <-Hd.
  assert (Hrem : sum_map (out_of x) (from_option (fun r => [explicit_out (rem_asset r) (rem_value r) (rem_spk r)])
      [] (remainder plan)) = if bool_decide (cov_asset (covenant plan) = x) then from_option rem_value 0 (remainder plan) else 0).
  { unfold layout in Hlay. destruct (remainder plan) as [r|]; cbn [from_option];
      [|by destruct (bool_decide (cov_asset (covenant plan) = x))].
    destruct (bool_decide_reflect (rem_asset r = cov_asset (covenant plan))) as [->|]; [|done].
    rewrite sum_map_cons, out_of_explicit. cbn [sum_map foldr]. lia. }
  rewrite Hrem. unfold required in *. unfold new_fee.
  change (out_of x (mkTxOut _ _ _ _ _)) with (if bool_decide (fill_fee_asset plan = x) then fill_fee_atoms plan else 0).
  destruct (funded !! x) as [tot|] eqn:Efx; simpl.
  - destruct (bool_decide (cov_asset (covenant plan) = x)); lia.
  - destruct Hx as [(ti & Hti & Htx)|Hz].
    + exfalso. destruct (proj1 Hn eq_refl) as [_ Hall]. rewrite Forall_forall in Hall. by apply (Hall ti).
    + destruct (bool_decide (cov_asset (covenant plan) = x)); lia.
Qed.

(** ** Signing *)

Lemma set_script_witness_ok tx idx w :
  strip_tx (set_script_witness tx idx w) = strip_tx tx /\
  (forall j, j <> idx -> input (set_script_witness tx idx w) !! j = input tx !! j) /\
  (is_Some (input tx !! idx) ->
   exists i, input (set_script_witness tx idx w) !! idx = Some i /\ script_witness (in_witness i) = w) /\
  output (set_script_witness tx idx w) = output tx.
Proof.
  unfold set_script_witness. destruct (input tx !! idx) as [i|] eqn:Ei; [|by split_and!; [| |intros []|]].
  apply lookup_lt_Some in Ei as Hl. split_and!; [| | |done].
  - unfold strip_tx. simpl. f_equal. change (map strip_in ?l) with (strip_in <$> l).
    rewrite list_fmap_insert. apply list_insert_id. by rewrite list_lookup_fmap, Ei.
  - intros j Hj. simpl. by rewrite list_lookup_insert_ne.
  - intros _. eexists. simpl. by rewrite list_lookup_insert_eq.
Qed.

(** The digest a signer computes is the same on any transaction that differs in
    witnesses only. *)
Lemma segwit_sighash_strip tx tx' i sc v t :
  strip_tx tx = strip_tx tx' ->
  fst <$> segwitv0_sighash (SighashCache_new tx) i sc v t =
  fst <$> segwitv0_sighash (SighashCache_new tx') i sc v t.
Proof.
  intros Es. assert (Hpure : forall x, fst <$> segwitv0_sighash (SighashCache_new x) i sc v t =
    sha256d <$> bip143_data x i sc v t).
  { intros x. destruct (segwitv0_data_pure (SighashCache_new x) i sc v t) as (c' & _ & _ & Ed); [done|].
    unfold segwitv0_sighash. rewrite Ed. simpl. by destruct (bip143_data x i sc v t). }
  by rewrite !Hpure, <-(bip143_strip tx), <-(bip143_strip tx'), Es.
Qed.

Lemma taker_witness_strip tx tx' i ti :
  strip_tx tx = strip_tx tx' -> taker_witness tx i ti = taker_witness tx' i ti.
Proof.
  intros Es. unfold taker_witness. destruct (negb _); [done|].
  destruct (p2wpkh_script_code _) as [sc|]; [|done]. simpl.
  pose proof (segwit_sighash_strip tx tx' i sc (ValueExplicit (taker_value ti)) SighashAll Es) as Hh.
  destruct (segwitv0_sighash (SighashCache_new tx) _ _ _ _) as [[h c]|],
    (segwitv0_sighash (SighashCache_new tx') _ _ _ _) as [[h' c']|]; simpl in *; congruence.
Qed.

Lemma sign_takers_ok l k tx tx' :
  sign_takers tx k l = Ok tx' -> (length (input tx) = k + length l)%nat ->
  strip_tx tx' = strip_tx tx /\ output tx' = output tx /\
  (forall j, (j < k)%nat -> input tx' !! j = input tx !! j) /\
  forall j ti, l !! j = Some ti -> exists i w, input tx' !! (k + j)%nat = Some i /\
    script_witness (in_witness i) = w /\ taker_witness tx' (k + j) ti = Ok w.
Proof.
  revert k tx. induction l as [|ti l IH]; intros k tx; simpl; [by intros [= <-]|].
  intros (w & Hw & Hs)%rbind_ok Hlen.
  destruct (set_script_witness_ok tx k w) as (Hst & Hother & Hset & Hout).
  assert (Hll : length (input (set_script_witness tx k w)) = length (input tx)).
  { apply (f_equal (length ∘ input)) in Hst. unfold strip_tx in Hst. simpl in Hst.
    by rewrite !length_map in Hst. }
  destruct (IH _ _ Hs ltac:(lia)) as (Hst' & Hout' & Hbefore & Hw').
  split_and!; [congruence|congruence| |].
  - intros j Hj. rewrite Hbefore by lia. apply Hother. lia.
  - intros [|j] ti' Hti; simpl in Hti.
    + injection Hti as <-. destruct Hset as (i & Hi & Hwi); [apply lookup_lt_is_Some; lia|].
      exists i, w. rewrite Nat.add_0_r, Hbefore by lia. split_and!; [done..|].
      rewrite <-Hw. apply taker_witness_strip. congruence.
    + destruct (Hw' j ti' Hti) as (i & w' & Hi & Hwi & Htw).
      exists i, w'. by rewrite Nat.add_succ_r.
Qed.
End Covenant.

(** ** Claims *)

(** C14: A successful FILL.  The covenant is input 0, with the leaf and the control
    block as its only witness; output 0 is the maker's credit; output 1 is the
    self-replicating remainder on a partial fill and never the sold asset on a full
    one, as the leaf requires; every taker input carries a signature, by the key of
    its own script, over the very transaction that is returned; and every asset
    balances, provided the taker funds it or neither the credit nor the fee needs it. *)
Theorem fill_tx_correct `{Platform} `{Secp} `{Hashes} `{HtlcEnv} `{!KeyEnv}
    (plan : CovenantFillPlan) (raw id : bytes) :
  build_covenant_fill_tx plan = Ok (raw, id) ->
  exists tx t i0 o0 o1, raw = serialize tx /\ id = sha256d (encode_base tx) /\
    txid_from_str (cov_txid (covenant plan)) = Some t /\
    input tx !! 0%nat = Some i0 /\ previous_output i0 = mkOutPoint t (cov_vout (covenant plan)) /\
    script_witness (in_witness i0) = [fill_leaf (covenant plan); control_block (covenant plan)] /\
    output tx !! 0%nat = Some o0 /\ asset o0 = AssetExplicit (credit_asset (credit plan)) /\
    value o0 = ValueExplicit (credit_value (credit plan)) /\
    witness_program_spk (credit_version (credit plan)) (credit_program (credit plan)) = Ok (script_pubkey o0) /\
    output tx !! 1%nat = Some o1 /\
    match remainder plan with
    | Some r => o1 = explicit_out (cov_asset (covenant plan)) (rem_value r) (rem_spk r)
    | None => asset o1 <> AssetExplicit (cov_asset (covenant plan))
    end /\
    (forall j ti, taker_inputs plan !! j = Some ti -> exists i w,
       input tx !! Datatypes.S j = Some i /\ script_witness (in_witness i) = w /\
       taker_witness tx (Datatypes.S j) ti = Ok w) /\
    forall x, (exists ti, ti ∈ taker_inputs plan /\ taker_asset ti = x) \/ required x plan = 0 ->
      out_total x (output tx) = in_total x plan.
Proof.
  intros Hb. unfold build_covenant_fill_tx in Hb.
  apply rbind_ok in Hb as (t & Ht%ok_or_ok & Hb).
  apply rbind_ok in Hb as (takers & Htakers%rmapM_ok & Hb).
  apply rbind_ok in Hb as (funded & Hfund & Hb).
  apply rbind_ok in Hb as (consumed & Hcons & Hb).
  case_bool_decide as HA; [done|]. apply rbind_ok in Hb as (spk & Hspk & Hb).
  apply rbind_ok in Hb as (filled & Hfilled%ok_or_ok & Hb). apply checked_sub_some in Hfilled as [Hle ->].
  destruct (Z.eqb_spec (locked (covenant plan) - from_option rem_value 0 (remainder plan)) 0) as [|Hnz]; [done|].
  apply rbind_ok in Hb as ([bc oc] & Hch & Hb). destruct (in_key_order_keys funded) as [Hnd Hkeys].
  apply rbind_ok in Hb as (outs & Hlay & Hb). apply rbind_ok in Hb as (tx & Hsign & [= <- <-]).
  set (tx1 := set_script_witness _ _ _) in *.
  destruct (set_script_witness_ok (mkTransaction 2 LockTime_ZERO
    (plain_input t (cov_vout (covenant plan)) :: takers) outs) 0
    [fill_leaf (covenant plan); control_block (covenant plan)]) as (Hst & _ & Hset & Hout).
  fold tx1 in Hst, Hset, Hout. clearbody tx1. cbn [output] in Hout.
  assert (Hlen : length (input tx1) = (1 + length (taker_inputs plan))%nat).
  { apply (f_equal (length ∘ input)) in Hst. unfold strip_tx in Hst. simpl in Hst.
    rewrite !length_map in Hst. apply Forall2_length in Htakers. lia. }
  destruct (sign_takers_ok _ _ _ _ Hsign Hlen) as (Hst' & Hout' & Hbefore & Hsigs).
  destruct (Hset ltac:(by eexists)) as (i0 & Hi0 & Hw0).
  assert (Hprev : previous_output i0 = mkOutPoint t (cov_vout (covenant plan))).
  { apply (f_equal (fun x => previous_output <$> (input x !! 0%nat))) in Hst. unfold strip_tx in Hst. simpl in Hst.
    change (map strip_in ?l) with (strip_in <$> l) in Hst. rewrite list_lookup_fmap, Hi0 in Hst. simpl in Hst.
    by injection Hst. }
  destruct (changes_spec _ _ _ _ _ _ (cov_asset (covenant plan)) Hch Hnd) as (_ & Hassets & _).
  destruct (layout_slots _ _ _ _ _ _ _ Hlay) as [Hslot0 (o1 & Hslot1 & Ho1)]; [|done|].
  { eapply Forall_impl; [exact Hassets|]. intros o (a & v & -> & Ha & _) [= ->]. by apply HA, Hkeys. }
  exists tx, t, i0,
    (explicit_out (credit_asset (credit plan)) (credit_value (credit plan)) spk), o1. split_and!; try done.
  - rewrite Hbefore by lia. done.
  - by rewrite Hout', Hout.
  - by rewrite Hout', Hout.
  - intros x Hx. rewrite Hout', Hout. by eapply layout_balance.
Qed.

Module CovenantSample.
Export DelegationSample.

Definition asset_A : AssetId := hash Byte.x0a.
Definition asset_B : AssetId := hash Byte.x0b.
Definition sample_cov : CovenantInput :=
  mkCovInput "c0ffee" 1 asset_A 5000 [Byte.x51] [Byte.xc4].
Definition sample_credit : FillCredit := mkCredit asset_B (replicate 32 Byte.x11) 1 700.
Definition sample_taker : TakerFundingInput :=
  mkTaker "beef" 0 1000 asset_B (p2wpkh_spk (hash160 (ext_ser (pubkey_of sample_key)))) sample_key.

(** A partial fill, and the same order filled with nothing funded. *)
Definition sample_fill : CovenantFillPlan :=
  mkFillPlan sample_cov sample_credit (Some (mkRemainder asset_A 2000 [Byte.x51]))
    [sample_taker] [Byte.x52] [Byte.x53] 50 asset_B.
Definition unfunded_fill : CovenantFillPlan :=
  mkFillPlan sample_cov sample_credit None [] [Byte.x52] [Byte.x53] 50 asset_B.
Definition unfunded_tx : Transaction :=
  set_script_witness (mkTransaction 2 LockTime_ZERO [plain_input (le_bytes 32 6) 1]
    [explicit_out asset_B 700 (Byte.x51 :: Byte.x20 :: replicate 32 Byte.x11);
     new_fee 50 asset_B; explicit_out asset_A 5000 [Byte.x52]]) 0 [[Byte.x51]; [Byte.xc4]].
End CovenantSample.
Import CovenantSample.

Lemma fill_tx_correct_witness :
  exists tx raw id, build_covenant_fill_tx sample_fill = Ok (raw, id) /\ raw = serialize tx /\
    out_total asset_B (output tx) = 1000 /\ out_total asset_A (output tx) = 5000.
Proof.
  destruct (build_covenant_fill_tx sample_fill) as [[raw id]|e] eqn:Eb; [|vm_compute in Eb; discriminate Eb].
  destruct (fill_tx_correct sample_fill raw id Eb)
    as (tx & _ & _ & _ & _ & Hraw & _ & _ & _ & _ & _ & _ & _ & _ & _ & _ & _ & _ & Hbal).
  exists tx, raw, id. split_and!; [reflexivity|exact Hraw| |].
  - rewrite (Hbal asset_B); [reflexivity|]. left. exists sample_taker. split; [by left|reflexivity].
  - rewrite (Hbal asset_A); [reflexivity|]. right. reflexivity.
Defined.

(** Sufficiency is checked only for assets the taker funds: a full fill with no
    funding at all is built and returned, with a credit and a fee in an asset of
    which no input holds anything. *)
Theorem fill_accepts_unfunded_credit :
  build_covenant_fill_tx unfunded_fill = Ok (serialize unfunded_tx, sha256d (encode_base unfunded_tx)) /\
  in_total asset_B unfunded_fill = 0 /\ out_total asset_B (output unfunded_tx) = 750.
Proof. split; [vm_compute; reflexivity|]. split; reflexivity. Qed.
