(* ===== verification/Refund.v ===== *)
(** * Reclaiming an expired order

    The REFUND transaction of [lwk_wollet/src/seqob_covenant.rs] and the maker's payout
    program: the order's funds go back to the maker through the leaf
    [<expiry> CLTV DROP <maker_x> CHECKSIG], with a Schnorr signature over the taproot
    signature hash of the transaction.  Schnorr signing and verification are
    parameters, with the law that a key's own signatures verify. *)

From S2P Require Import Prelude Order Encode Hex Script Timelocks Confidential Transaction TxMetrics Sighash Taproot TapSighash ScriptEval Htlc Delegation Covenant.

Class SchnorrKeys `{HtlcEnv} `{TapEnv} :=
  { xonly_of : SecretKey -> XOnlyPublicKey;
    sign_schnorr : SecretKey -> bytes -> bytes;
    verify_schnorr : bytes -> bytes -> bytes -> bool;
    sign_schnorr_length k m : length (sign_schnorr k m) = 64%nat;
    sign_schnorr_verifies k m : verify_schnorr (sign_schnorr k m) m (ext_ser (xonly_of k)) = true }.

(** The [Error::Generic] values of the function, by message. *)
Inductive refund_error : Type :=
| RefundCovenantTxid
| RefundNotP2wpkh (vout : Z)
| RefundInputTxid (vout : Z)
| ExternalFeeInputs
| FeeExceedsReclaim
| ReclaimIsZero
| FeeInputCovenantAsset
| RefundFundingOverflow
| InsufficientFee (need funded : Z)
| RefundChangeUnderflow
| EmptyControlBlock
| RefundSighash (e : sighash_error)
| RefundSigning (e : covenant_error).

Section code.
Context {P : Platform} {S : Secp} {H : Hashes} {E : HtlcEnv} {K : @KeyEnv S E} {T : TapEnv}
  {G : @SchnorrKeys E T}.

Record CovenantRefundInput := mkRefundInput
  { ref_txid : string;
    ref_vout : Z;
    ref_asset : AssetId;
    ref_locked : Z;
    ref_spk : bytes;
    refund_leaf : bytes;
    ref_control_block : bytes;
    maker_secret : SecretKey }.

Record CovenantRefundPlan := mkRefundPlan
  { ref_covenant : CovenantRefundInput;
    expiry_locktime : Z;
    reclaim_script : Script;
    ref_fee_atoms : Z;
    ref_fee_asset : AssetId;
    fee_inputs : list TakerFundingInput;
    ref_change_script : Script;
    genesis_hash : bytes }.

Definition SEQUENCE_ENABLE_LOCKTIME : Sequence := mkSequence 0xfffffffe.

Definition locktime_input (txid : bytes) (vout : Z) : TxIn :=
  mkTxIn (mkOutPoint txid vout) false [] SEQUENCE_ENABLE_LOCKTIME AssetIssuance_null
    TxInWitness_empty.

(** One turn of the first loop: an input and the output it spends. *)
Definition fee_input (fi : TakerFundingInput) : result (TxIn * TxOut) refund_error :=
  if negb (is_p2wpkh_spk (taker_spk fi)) then Err (RefundNotP2wpkh (taker_vout fi))
  else
    let? txid := ok_or (txid_from_str (taker_txid fi)) (RefundInputTxid (taker_vout fi)) in
    Ok (locktime_input txid (taker_vout fi),
        explicit_out (taker_asset fi) (taker_value fi) (taker_spk fi)).

(** What the fee inputs hold of each asset. *)
Fixpoint fund_fees (a_asset : AssetId) (inputs : list TakerFundingInput) (funded : gmap AssetId Z)
  : result (gmap AssetId Z) refund_error :=
  match inputs with
  | [] => Ok funded
  | fi :: inputs =>
      if bool_decide (taker_asset fi = a_asset) then Err FeeInputCovenantAsset
      else
        let? e := ok_or (checked_add u64_max (default 0 (funded !! taker_asset fi)) (taker_value fi))
                    RefundFundingOverflow in
        fund_fees a_asset inputs (<[taker_asset fi := e]> funded)
  end.

Fixpoint refund_changes (fee_asset : AssetId) (fee_atoms : Z) (spk : Script)
    (funded : list (AssetId * Z)) : result (list TxOut) refund_error :=
  match funded with
  | [] => Ok []
  | (asset, total) :: funded =>
      let used := if bool_decide (asset = fee_asset) then fee_atoms else 0 in
      let? change := ok_or (checked_sub total used) RefundChangeUnderflow in
      let? rest := refund_changes fee_asset fee_atoms spk funded in
      Ok (if 0 <? change then explicit_out asset change spk :: rest else rest)
  end.

Definition refund_outputs (plan : CovenantRefundPlan) : result (list TxOut) refund_error :=
  let cov := ref_covenant plan in
  let fee_out := new_fee (ref_fee_atoms plan) (ref_fee_asset plan) in
  if bool_decide (ref_fee_asset plan = ref_asset cov) then
    if negb (is_empty (fee_inputs plan)) then Err ExternalFeeInputs
    else
      let? reclaim := ok_or (checked_sub (ref_locked cov) (ref_fee_atoms plan)) FeeExceedsReclaim in
      if reclaim =? 0 then Err ReclaimIsZero
      else Ok [explicit_out (ref_asset cov) reclaim (reclaim_script plan); fee_out]
  else
    let? funded := fund_fees (ref_asset cov) (fee_inputs plan) ∅ in
    let fee_funded := default 0 (funded !! ref_fee_asset plan) in
    if fee_funded <? ref_fee_atoms plan then Err (InsufficientFee (ref_fee_atoms plan) fee_funded)
    else
      let? changes := refund_changes (ref_fee_asset plan) (ref_fee_atoms plan) (ref_change_script plan)
                        (in_key_order funded) in
      Ok (explicit_out (ref_asset cov) (ref_locked cov) (reclaim_script plan) :: changes ++ [fee_out]).

(** An error of the signing loop, which is the one of the fill. *)
Definition with_refund_error {A} (r : result A covenant_error) : result A refund_error :=
  match r with Ok a => Ok a | Err e => Err (RefundSigning e) end.
Definition with_sighash_error {A} (r : result A sighash_error) : result A refund_error :=
  match r with Ok a => Ok a | Err e => Err (RefundSighash e) end.

(** The digest the maker signs: tapscript, default type, over all the spent outputs. *)
Definition refund_sighash (plan : CovenantRefundPlan) (prevouts : list TxOut) (leaf_version : Z)
    (tx : Transaction) : result bytes refund_error :=
  with_sighash_error (fst (taproot_script_spend_signature_hash 0 (All prevouts)
    (leaf_hash (mkScriptPath (refund_leaf (ref_covenant plan)) 0xffffffff leaf_version))
    SchnorrDefault (genesis_hash plan) (SighashCache_new tx))).

Definition build_covenant_refund_tx (plan : CovenantRefundPlan)
  : result (bytes * bytes) refund_error :=
  let cov := ref_covenant plan in
  let? txid := ok_or (txid_from_str (ref_txid cov)) RefundCovenantTxid in
  let? fees := rmapM fee_input (fee_inputs plan) in
  let inputs := locktime_input txid (ref_vout cov) :: fees.*1 in
  let prevouts := explicit_out (ref_asset cov) (ref_locked cov) (ref_spk cov) :: fees.*2 in
  let? outputs := refund_outputs plan in
  let tx := mkTransaction 2 (LockTime_from_consensus (expiry_locktime plan)) inputs outputs in
  let? first := ok_or (head (ref_control_block cov)) EmptyControlBlock in
  let leaf_version := Z.land (b2z first) 0xfe in
  let? sighash := refund_sighash plan prevouts leaf_version tx in
  let sig := sign_schnorr (maker_secret cov) sighash in
  let tx := set_script_witness tx 0 [sig; refund_leaf cov; ref_control_block cov] in
  let? tx := with_refund_error (sign_takers tx 1 (fee_inputs plan)) in
  Ok (serialize tx, sha256d (encode_base tx)).

(** [maker_payout_program]; [None] is a tweak that panics. *)
Definition maker_payout_program (internal : XOnlyPublicKey)
  : option (result (bytes * bytes) covenant_error) :=
  spend_info ← new_key_spend internal None;
  let program := ext_ser (output_key spend_info) in
  Some (let? spk := witness_program_spk 1 program in Ok (program, spk)).

(** ** Specification *)

(** The leaf as the module documents it. *)
Definition refund_leaf_items (expiry : Z) (maker_x : bytes) : list Instruction :=
  [int_item expiry; Op OP_CLTV; Op OP_DROP; PushBytes maker_x; Op OP_CHECKSIG].

Definition refund_in_total (x : AssetId) (plan : CovenantRefundPlan) : Z :=
  (if bool_decide (ref_asset (ref_covenant plan) = x) then ref_locked (ref_covenant plan) else 0)
  + sum_map (taker_of x) (fee_inputs plan).

(** The outputs the inputs spend. *)
Definition refund_prevouts (plan : CovenantRefundPlan) : list TxOut :=
  let cov := ref_covenant plan in
  explicit_out (ref_asset cov) (ref_locked cov) (ref_spk cov) ::
  map (fun fi => explicit_out (taker_asset fi) (taker_value fi) (taker_spk fi)) (fee_inputs plan).
End code.

Section proofs.
Context {P : Platform} {S : Secp} {H : Hashes} {E : HtlcEnv} {K : @KeyEnv S E} {T : TapEnv}
  {G : @SchnorrKeys E T}.

(** ** Accounting *)

Lemma fund_fees_spec a inputs m m' :
  fund_fees a inputs m = Ok m' -> forall x,
  default 0 (m' !! x) = default 0 (m !! x) + sum_map (taker_of x) inputs /\
  Forall (fun ti => taker_asset ti <> a) inputs.
Proof.
  revert m. induction inputs as [|ti inputs IH]; intros m Hf x; simpl in *.
  { injection Hf as <-. split; [lia|constructor]. }
  case_bool_decide as Ha; [done|].
  apply rbind_ok in Hf as (e & He%ok_or_ok & Hf). unfold checked_add in He.
  destruct (_ <=? u64_max); [injection He as <-|done].
  destruct (IH _ Hf x) as [Hd Hn]. split; [|by constructor]. rewrite Hd. unfold taker_of at 2.
  destruct (bool_decide_reflect (taker_asset ti = x)) as [<-|Hne].
  - rewrite lookup_insert_eq. simpl. lia.
  - rewrite lookup_insert_ne by done. lia.
Qed.

Definition kept (x fee_asset : AssetId) (fee : Z) (p : AssetId * Z) : Z :=
  if bool_decide (p.1 = x) then p.2 - (if bool_decide (p.1 = fee_asset) then fee else 0) else 0.

Lemma refund_changes_spec fa fee spk l cs x :
  refund_changes fa fee spk l = Ok cs -> out_total x cs = sum_map (kept x fa fee) l.
Proof.
  unfold out_total. revert cs. induction l as [|[a t] l IH]; intros cs; simpl; [by intros [= <-]|].
  intros (ch & Hch%ok_or_ok & (rest & Hrest & [= <-])%rbind_ok)%rbind_ok.
  apply checked_sub_some in Hch as [Hle ->]. rewrite <-(IH _ Hrest). unfold kept at 1. simpl.
  destruct (Z.ltb_spec 0 (t - (if bool_decide (a = fa) then fee else 0))); simpl;
    rewrite ?out_of_explicit; destruct (bool_decide (a = x)); lia.
Qed.

Lemma sum_kept_map (x fa : AssetId) (fee : Z) (m : gmap AssetId Z) :
  sum_map (kept x fa fee) (in_key_order m) =
  from_option (fun t => t - (if bool_decide (x = fa) then fee else 0)) 0 (m !! x).
Proof.
  unfold in_key_order. rewrite (sum_map_perm _ _ _ (sort_by_perm _ _)).
  induction m as [|a t m Hm IH] using map_ind; [by rewrite map_to_list_empty|].
  rewrite (sum_map_perm _ _ _ (map_to_list_insert m a t Hm)), sum_map_cons.
  etransitivity; [exact (f_equal (Z.add _) IH)|]. unfold kept. simpl.
  destruct (bool_decide_reflect (a = x)) as [->|Hne].
  - by rewrite lookup_insert_eq, Hm, Z.add_0_r.
  - by rewrite lookup_insert_ne.
Qed.

Lemma out_of_fee x v a : out_of x (new_fee v a) = if bool_decide (a = x) then v else 0.
Proof. done. Qed.

(** Every asset balances. *)
Lemma refund_balance plan outs x :
  0 <= ref_fee_atoms plan -> refund_outputs plan = Ok outs ->
  out_total x outs = refund_in_total x plan.
Proof.
  intros Hfee. unfold refund_outputs, refund_in_total, out_total.
  case_bool_decide as Ha.
  - destruct (fee_inputs plan) as [|fi l]; simpl; [|done].
    intros (r & Hr%ok_or_ok & Ho)%rbind_ok. apply checked_sub_some in Hr as [Hle ->].
    destruct (_ =? 0); [done|]. injection Ho as <-.
    cbn [sum_map foldr]. rewrite out_of_explicit, out_of_fee, Ha.
    destruct (bool_decide (_ = x)); lia.
  - intros (funded & Hf & Ho)%rbind_ok. destruct (fund_fees_spec _ _ _ _ Hf x) as [Hd _].
    destruct (fund_fees_spec _ _ _ _ Hf (ref_fee_asset plan)) as [Hdf _].
    rewrite lookup_empty in Hd, Hdf. simpl in Hd, Hdf.
    destruct (Z.ltb_spec (default 0 (funded !! ref_fee_asset plan)) (ref_fee_atoms plan)) as [|Hle];
      [done|].
    apply rbind_ok in Ho as (cs & Hcs & [= <-]).
    apply (refund_changes_spec _ _ _ _ _ x) in Hcs. unfold out_total in Hcs.
    rewrite sum_kept_map in Hcs.
    rewrite sum_map_cons, sum_map_app, Hcs. cbn [sum_map foldr]. rewrite out_of_explicit, out_of_fee.
    rewrite Z.add_0_r, <-(Z.add_0_l (sum_map _ _)), <-Hd. clear Hd Hdf.
    destruct (bool_decide_reflect (x = ref_fee_asset plan)) as [->|Hne].
    + rewrite (bool_decide_true (ref_fee_asset plan = ref_fee_asset plan)) by done.
      destruct (funded !! ref_fee_asset plan); simpl in *; lia.
    + rewrite (bool_decide_false (ref_fee_asset plan = x)) by done.
      destruct (funded !! x); simpl in *; lia.
Qed.

(** ** Signing *)

Lemma set_script_witness_signed tx idx w : signed_part (set_script_witness tx idx w) = signed_part tx.
Proof.
  unfold set_script_witness. destruct (input tx !! idx) as [i|] eqn:Ei; [|done].
  unfold signed_part. simpl. f_equal. change (map ?f ?l) with (f <$> l).
  rewrite list_fmap_insert. apply list_insert_id. by rewrite list_lookup_fmap, Ei.
Qed.

Lemma sign_takers_signed l k tx tx' :
  sign_takers tx k l = Ok tx' -> signed_part tx' = signed_part tx.
Proof.
  revert k tx. induction l as [|ti l IH]; intros k tx; simpl; [by intros [= <-]|].
  intros (w & _ & Hs)%rbind_ok. rewrite (IH _ _ Hs). apply set_script_witness_signed.
Qed.

Lemma refund_sighash_signed plan ps v tx tx' :
  signed_part tx = signed_part tx' -> refund_sighash plan ps v tx = refund_sighash plan ps v tx'.
Proof.
  intros Es. unfold refund_sighash, taproot_script_spend_signature_hash, sm_bind.
  set (leaf := Some _).
  destruct (pure_signing_data ps 0 (All ps) None leaf SchnorrDefault (genesis_hash plan)) with
    (c := SighashCache_new tx) as (c1 & -> & _); [by intros l [= ->]|apply fresh_tap_ok|].
  destruct (pure_signing_data ps 0 (All ps) None leaf SchnorrDefault (genesis_hash plan)) with
    (c := SighashCache_new tx') as (c2 & -> & _); [by intros l [= ->]|apply fresh_tap_ok|].
  simpl cache_tx. rewrite <-(bip341_signed tx), Es, bip341_signed.
  by destruct (bip341_data tx' _ _ _ _ _ _).
Qed.

Lemma fee_inputs_ok l fees :
  rmapM fee_input l = Ok fees ->
  length fees = length l /\
  fees.*2 = map (fun fi => explicit_out (taker_asset fi) (taker_value fi) (taker_spk fi)) l /\
  Forall (fun i => sequence i = SEQUENCE_ENABLE_LOCKTIME) (fees.*1).
Proof.
  intros Hf%rmapM_ok. induction Hf as [|fi [i o] l fees Hfi _ (IH1 & IH2 & IH3)]; [done|].
  revert Hfi. unfold fee_input. destruct (negb _); [done|].
  intros (t & _ & [= <- <-])%rbind_ok. simpl. split; [by f_equal|]. split; [by f_equal|].
  by constructor.
Qed.

(** ** The leaf *)

Lemma refund_leaf_eval checksig seq lock expiry maker_x sig :
  is_u32 expiry -> length maker_x = 32%nat ->
  cltv_ok lock seq (build_scriptint expiry) = true ->
  eval_script checksig sha256 (cltv_ok lock seq) (items_bytes (refund_leaf_items expiry maker_x)) [sig] =
  checksig sig maker_x.
Proof.
  intros He Hm Hc.
  destruct (int_item_ok expiry ltac:(lia)) as (I1 & _ & I3).
  assert (Hok : Forall item_ok (refund_leaf_items expiry maker_x)).
  { repeat (apply List.Forall_cons; [first [done|simpl; lia]|]). apply List.Forall_nil. }
  assert (Hsh : Forall item_short (refund_leaf_items expiry maker_x)).
  { repeat (apply List.Forall_cons; [first [done|simpl; lia]|]). apply List.Forall_nil. }
  unfold eval_script, eval_items. rewrite instructions_bytes, mapM_map_Ok by done.
  unfold refund_leaf_items. cbn [exec]. rewrite exec_int by lia. cbn. rewrite Hc. cbn.
  by destruct (checksig sig maker_x).
Qed.

(** ** When the signing succeeds *)

Lemma p2wpkh_script_code_some pkh : length pkh = 20%nat -> is_Some (p2wpkh_script_code pkh).
Proof.
  intros Hl. unfold p2wpkh_script_code.
  destruct (push_slice_script pkh (push_opcode OP_HASH160 (push_opcode OP_DUP Builder_new)))
    as (b & -> & _); [lia|]. by eexists.
Qed.

Lemma segwit_sighash_some tx i sc v t :
  (i < length (input tx))%nat -> is_Some (segwitv0_sighash (SighashCache_new tx) i sc v t).
Proof.
  intros Hi. destruct (segwitv0_data_pure (SighashCache_new tx) i sc v t) as (c' & _ & _ & Ed); [done|].
  unfold segwitv0_sighash. rewrite Ed. apply lookup_lt_is_Some in Hi as [x Hx].
  unfold bip143_data. simpl. rewrite Hx. simpl. by eexists.
Qed.

(** The key of a fee input is the one its script names. *)
Definition own_key (fi : TakerFundingInput) : Prop :=
  taker_spk fi = p2wpkh_spk (hash160 (ext_ser (pubkey_of (secret_key fi)))).

Lemma sign_takers_total l k tx :
  Forall own_key l -> (length (input tx) = k + length l)%nat -> exists tx', sign_takers tx k l = Ok tx'.
Proof.
  revert k tx. induction l as [|ti l IH]; intros k tx Hl Hlen; simpl; [by eexists|].
  apply Forall_cons in Hl as [Ho Hl]. unfold taker_witness. rewrite <-Ho, bool_decide_true by done.
  destruct (p2wpkh_script_code_some (hash160 (ext_ser (pubkey_of (secret_key ti)))) (hash160_length _))
    as [sc Hsc].
  destruct (segwit_sighash_some tx k sc (ValueExplicit (taker_value ti)) SighashAll) as [[h c] Hh];
    [simpl in Hlen; lia|].
  simpl. rewrite Hsc. simpl. rewrite Hh. simpl. apply IH; [done|].
  unfold set_script_witness. destruct (input tx !! k) as [i|]; simpl; rewrite ?length_insert; simpl in *; lia.
Qed.

Lemma fund_fees_total a inputs m :
  Forall (fun ti => taker_asset ti <> a /\ 0 <= taker_value ti) inputs ->
  (forall x, default 0 (m !! x) + sum_map (taker_of x) inputs <= u64_max) ->
  exists m', fund_fees a inputs m = Ok m'.
Proof.
  revert m. induction inputs as [|ti inputs IH]; intros m Hl Hs; simpl; [by eexists|].
  apply Forall_cons in Hl as [[Ha Hv] Hl]. rewrite bool_decide_false by done.
  assert (Hnn : forall x, 0 <= sum_map (taker_of x) inputs).
  { intros x. clear Hs IH. induction Hl as [|t l [_ Ht] _ IHl]; simpl; [lia|].
    unfold taker_of at 1. destruct (bool_decide _); lia. }
  pose proof (Hs (taker_asset ti)) as H1. simpl in H1. unfold taker_of at 1 in H1.
  rewrite bool_decide_true in H1 by done. pose proof (Hnn (taker_asset ti)).
  unfold checked_add. destruct (Z.leb_spec (default 0 (m !! taker_asset ti) + taker_value ti) u64_max);
    [|lia]. simpl. apply IH; [done|]. intros x. specialize (Hs x). simpl in Hs. unfold taker_of at 1 in Hs.
  destruct (bool_decide_reflect (taker_asset ti = x)) as [Hx|Hne].
  - rewrite Hx in *. rewrite lookup_insert_eq. simpl. lia.
  - rewrite lookup_insert_ne by done. lia.
Qed.

Lemma refund_changes_total fa fee spk l :
  Forall (fun p => 0 <= p.2 /\ (p.1 = fa -> fee <= p.2)) l ->
  exists cs, refund_changes fa fee spk l = Ok cs.
Proof.
  induction 1 as [|[a t] l [Hp Hf] _ [cs IH]]; simpl in *; [by eexists|].
  rewrite (proj2 (checked_sub_some t _ (t - if bool_decide (a = fa) then fee else 0))).
  - simpl. rewrite IH. simpl. by eexists.
  - split; [|done]. case_bool_decide; auto.
Qed.

Lemma refund_sighash_total plan ps v tx :
  length ps = length (input tx) -> exists h, refund_sighash plan ps v tx = Ok h.
Proof.
  intros Hl. pose proof (succeeds_signing_data 0 (All ps) None
    (Some (leaf_hash (mkScriptPath (refund_leaf (ref_covenant plan)) 0xffffffff v), 0xffffffff))
    SchnorrDefault (genesis_hash plan) (SighashCache_new tx)) as Hs. cbn [schnorr_split] in Hs.
  destruct (proj2 Hs) as [d Hd].
  { split; [by intros l [= <-]|]. unfold is_all. simpl. naive_solver. }
  unfold refund_sighash, taproot_script_spend_signature_hash, sm_bind.
  destruct (taproot_signing_data _ _ _ _ _ _ _) as [[d'|e] c']; simpl in *; [|done]. by eexists.
Qed.
End proofs.

(** ** Claims *)

Section claims.
Context {P : Platform} {S : Secp} {H : Hashes} {E : HtlcEnv} {K : @KeyEnv S E} {T : TapEnv}
  {G : @SchnorrKeys E T}.

(** C20: The REFUND transaction.  It spends the covenant as input 0 with a sequence that
    enables the lock time, which is the order's expiry; the maker's signature, the leaf and
    the control block are the witness; the signature verifies, under the maker's x-only
    key, for the tapscript digest of the very transaction that is returned and of the
    outputs it spends; with the documented leaf the script accepts it; the fee inputs carry
    signatures over the same transaction; and every asset balances. *)
Theorem refund_tx_correct (plan : CovenantRefundPlan) (raw id : bytes) :
  is_u32 (expiry_locktime plan) -> 0 <= ref_fee_atoms plan ->
  build_covenant_refund_tx plan = Ok (raw, id) ->
  let cov := ref_covenant plan in
  exists tx t i0 b h sig, raw = serialize tx /\ id = sha256d (encode_base tx) /\
    txid_from_str (ref_txid cov) = Some t /\ head (ref_control_block cov) = Some b /\
    lock_time tx = LockTime_from_consensus (expiry_locktime plan) /\
    input tx !! 0%nat = Some i0 /\ previous_output i0 = mkOutPoint t (ref_vout cov) /\
    sequence i0 = SEQUENCE_ENABLE_LOCKTIME /\
    script_witness (in_witness i0) = [sig; refund_leaf cov; ref_control_block cov] /\
    refund_sighash plan (refund_prevouts plan) (Z.land (b2z b) 0xfe) tx = Ok h /\
    verify_schnorr sig h (ext_ser (xonly_of (maker_secret cov))) = true /\
    (refund_leaf cov =
       items_bytes (refund_leaf_items (expiry_locktime plan) (ext_ser (xonly_of (maker_secret cov)))) ->
     eval_script (fun s k => verify_schnorr s h k) sha256 (cltv_ok (lock_time tx) (sequence i0))
       (refund_leaf cov) [sig] = true) /\
    (forall j fi, fee_inputs plan !! j = Some fi -> exists i w,
       input tx !! Datatypes.S j = Some i /\ script_witness (in_witness i) = w /\
       taker_witness tx (Datatypes.S j) fi = Ok w) /\
    forall x, out_total x (output tx) = refund_in_total x plan.
Proof.
  intros Hex Hfee. unfold build_covenant_refund_tx. set (cov := ref_covenant plan).
  intros (t & Ht%ok_or_ok & Hb)%rbind_ok. apply rbind_ok in Hb as (fees & Hfees & Hb).
  apply rbind_ok in Hb as (outs & Houts & Hb). apply rbind_ok in Hb as (b & Hhead%ok_or_ok & Hb).
  destruct (fee_inputs_ok _ _ Hfees) as (Hlen & Hprev & Hseq). rewrite Hprev in Hb.
  change (explicit_out _ _ _ :: map _ _) with (refund_prevouts plan) in Hb.
  set (tx0 := mkTransaction _ _ _ _) in Hb.
  apply rbind_ok in Hb as (h & Hh & Hb). apply rbind_ok in Hb as (tx & Hs & [= <- <-]).
  set (sig := sign_schnorr (maker_secret cov) h) in *.
  set (tx1 := set_script_witness _ _ _) in *.
  unfold with_refund_error in Hs. destruct (sign_takers tx1 1 (fee_inputs plan)) as [tx'|e] eqn:Hsign;
    [injection Hs as ->|done].
  destruct (set_script_witness_ok tx0 0 [sig; refund_leaf cov; ref_control_block cov])
    as (Hst & _ & Hset & Hout).
  pose proof (set_script_witness_signed tx0 0 [sig; refund_leaf cov; ref_control_block cov]) as Hsg.
  fold tx1 in Hst, Hset, Hout, Hsg. clearbody tx1.
  assert (Hlen1 : length (input tx1) = (1 + length (fee_inputs plan))%nat).
  { apply (f_equal (length ∘ input)) in Hst. unfold strip_tx in Hst. simpl in Hst.
    rewrite !length_map, Hlen in Hst. done. }
  pose proof (sign_takers_signed _ _ _ _ Hsign) as Hsg'. rewrite Hsg in Hsg'.
  destruct (sign_takers_ok _ _ _ _ Hsign Hlen1) as (Hst' & Hout' & Hbefore & Hsigs).
  destruct (Hset ltac:(by eexists)) as (i0 & Hi0 & Hw0).
  assert (Hi : input tx !! 0%nat = Some i0) by (rewrite Hbefore by lia; done).
  assert (Hcl : clear_script_witness i0 = clear_script_witness (locktime_input t (ref_vout cov))).
  { apply (f_equal (fun x => input x !! 0%nat)) in Hsg'. unfold signed_part in Hsg'.
    cbn [input] in Hsg'. change (map ?f ?l) with (f <$> l) in Hsg'.
    rewrite !list_lookup_fmap, Hi in Hsg'. by apply (inj Some) in Hsg'. }
  assert (Hseq0 : sequence i0 = SEQUENCE_ENABLE_LOCKTIME) by exact (f_equal sequence Hcl).
  assert (Hlock : lock_time tx = LockTime_from_consensus (expiry_locktime plan))
    by exact (f_equal lock_time Hsg').
  exists tx, t, i0, b, h, sig. split_and!; try done.
  - exact (f_equal previous_output Hcl).
  - by rewrite <-Hh; apply refund_sighash_signed.
  - apply sign_schnorr_verifies.
  - intros ->. rewrite refund_leaf_eval; [apply sign_schnorr_verifies|done|apply xonly_length|].
    rewrite Hlock, Hseq0. by apply cltv_ok_self.
  - intros x. rewrite Hout', Hout. by apply refund_balance.
Qed.

(** What a plan has to provide for an order to be reclaimed. *)
Definition refund_ready (plan : CovenantRefundPlan) : Prop :=
  let cov := ref_covenant plan in
  is_Some (txid_from_str (ref_txid cov)) /\ ref_control_block cov <> [] /\
  Forall (fun fi => is_Some (txid_from_str (taker_txid fi)) /\ own_key fi /\ 0 <= taker_value fi)
    (fee_inputs plan) /\
  if bool_decide (ref_fee_asset plan = ref_asset cov)
  then fee_inputs plan = [] /\ ref_fee_atoms plan < ref_locked cov
  else Forall (fun fi => taker_asset fi <> ref_asset cov) (fee_inputs plan) /\
       (forall x, sum_map (taker_of x) (fee_inputs plan) <= u64_max) /\
       ref_fee_atoms plan <= sum_map (taker_of (ref_fee_asset plan)) (fee_inputs plan).

Lemma own_key_p2wpkh fi : own_key fi -> is_p2wpkh_spk (taker_spk fi) = true.
Proof.
  unfold own_key, is_p2wpkh_spk, p2wpkh_spk. intros ->. rewrite length_app, hash160_length. done.
Qed.

Lemma fee_inputs_total l :
  Forall (fun fi => is_Some (txid_from_str (taker_txid fi)) /\ own_key fi /\ 0 <= taker_value fi) l ->
  exists fees, rmapM fee_input l = Ok fees.
Proof.
  induction 1 as [|fi l ([t Ht] & Ho & _) _ [fees IH]]; simpl; [by eexists|].
  unfold fee_input at 1. rewrite (own_key_p2wpkh _ Ho), Ht. simpl. rewrite IH. by eexists.
Qed.

Lemma refund_outputs_total plan : refund_ready plan -> exists outs, refund_outputs plan = Ok outs.
Proof.
  intros (_ & _ & Hin & Hready). unfold refund_outputs. case_bool_decide as Ha.
  - destruct Hready as [-> Hlt]. simpl.
    rewrite (proj2 (checked_sub_some (ref_locked (ref_covenant plan)) (ref_fee_atoms plan)
      (ref_locked (ref_covenant plan) - ref_fee_atoms plan))) by (split; [lia|done]). simpl.
    destruct (Z.eqb_spec (ref_locked (ref_covenant plan) - ref_fee_atoms plan) 0); [lia|by eexists].
  - destruct Hready as (Hne & Hsum & Hfee).
    destruct (fund_fees_total (ref_asset (ref_covenant plan)) (fee_inputs plan) ∅) as [m Hm].
    { apply Forall_and. split; [done|]. eapply Forall_impl; [exact Hin|]. by intros fi (_ & _ & ?). }
    { intros x. rewrite lookup_empty. apply Hsum. }
    rewrite Hm. simpl.
    assert (Hd : forall x, default 0 (m !! x) = sum_map (taker_of x) (fee_inputs plan)).
    { intros x. destruct (fund_fees_spec _ _ _ _ Hm x) as [-> _]. by rewrite lookup_empty. }
    rewrite Hd. destruct (Z.ltb_spec (sum_map (taker_of (ref_fee_asset plan)) (fee_inputs plan))
      (ref_fee_atoms plan)); [lia|].
    destruct (refund_changes_total (ref_fee_asset plan) (ref_fee_atoms plan) (ref_change_script plan)
      (in_key_order m)) as [cs ->]; [|by eexists].
    apply Forall_forall. intros [a v] Hav.
    assert (Hmv : m !! a = Some v).
    { apply elem_of_map_to_list. revert Hav. unfold in_key_order. by rewrite sort_by_perm. }
    specialize (Hd a). rewrite Hmv in Hd. simpl in *. split; [|intros ->; lia].
    rewrite Hd. clear -Hin. induction Hin as [|fi l (_ & _ & ?) _ IH]; simpl; [lia|].
    unfold taker_of at 1. case_bool_decide; lia.
Qed.

(** C21: An order can always be reclaimed: when the transaction ids parse, the fee inputs are
    the maker's own p2wpkh outputs of other assets, within 64 bits, and pay the fee, or the
    fee is in the order's asset and leaves something, the transaction is built. *)
Theorem refund_always_possible (plan : CovenantRefundPlan) :
  refund_ready plan -> is_ok (build_covenant_refund_tx plan) = true.
Proof.
  intros Hr. pose proof Hr as ([t Ht] & Hcb & Hin & _). unfold build_covenant_refund_tx.
  rewrite Ht. simpl. destruct (fee_inputs_total _ Hin) as [fees Hf]. rewrite Hf. simpl.
  destruct (refund_outputs_total plan Hr) as [outs ->]. simpl.
  destruct (ref_control_block (ref_covenant plan)) as [|b cb] eqn:Ecb; [done|]. simpl.
  destruct (fee_inputs_ok _ _ Hf) as (Hlen & _ & _).
  set (tx0 := mkTransaction _ _ _ _).
  match goal with |- context [refund_sighash plan ?ps ?v tx0] =>
    destruct (refund_sighash_total plan ps v tx0) as [h ->] end.
  { simpl. by rewrite !length_fmap. }
  simpl. set (w := [_; _; _]).
  destruct (sign_takers_total (fee_inputs plan) 1 (set_script_witness tx0 0 w)) as [tx' ->]; [| |done].
  - eapply Forall_impl; [exact Hin|]. by intros fi (_ & ? & _).
  - unfold set_script_witness. simpl. by rewrite length_fmap, Hlen.
Qed.
End claims.

(** ** A concrete instance *)

Import TaprootSample.

Module RefundSample.
Export TaprootSample CovenantSample.

(** A key's signature is its x-only key followed by the digest. *)
Definition toy_xonly (k : Z) : @XOnlyPublicKey TapEnv_model :=
  exist _ (le_bytes 32 k) eq_refl.
Definition toy_sign (k : Z) (m : bytes) : bytes := le_bytes 32 k ++ le_bytes 32 (le_val m).
Program Definition SchnorrKeys_model : @SchnorrKeys HtlcEnv_model TapEnv_model :=
  {| xonly_of := toy_xonly;
     sign_schnorr := toy_sign;
     verify_schnorr s m k := bool_decide (s = k ++ le_bytes 32 (le_val m)) |}.
Next Obligation. intros. reflexivity. Qed.
Next Obligation. intros. by apply bool_decide_eq_true. Qed.
#[export] Existing Instance SchnorrKeys_model.

Definition maker : @SecretKey HtlcEnv_model := 7.
Definition sample_refund : CovenantRefundPlan :=
  mkRefundPlan
    (mkRefundInput "c0ffee" 1 asset_A 5000 [Byte.x51]
       (items_bytes (refund_leaf_items 400 (le_bytes 32 7))) [Byte.xc4] maker)
    400 [Byte.x52] 50 asset_B [sample_taker] [Byte.x53] (hash Byte.x06).
End RefundSample.
Import RefundSample.

Lemma refund_tx_correct_witness :
  exists tx raw id, build_covenant_refund_tx sample_refund = Ok (raw, id) /\ raw = serialize tx /\
    out_total asset_B (output tx) = 1000 /\ out_total asset_A (output tx) = 5000.
Proof.
  destruct (build_covenant_refund_tx sample_refund) as [[raw id]|e] eqn:Eb;
    [|vm_compute in Eb; discriminate Eb].
  destruct (refund_tx_correct sample_refund raw id ltac:(simpl; lia) ltac:(simpl; lia) Eb)
    as (tx & _ & _ & _ & _ & _ & Hraw & _ & _ & _ & _ & _ & _ & _ & _ & _ & _ & _ & _ & Hbal).
  exists tx, raw, id. split_and!; [reflexivity|exact Hraw|rewrite Hbal; reflexivity..].
Defined.

Lemma refund_always_possible_witness : is_ok (build_covenant_refund_tx sample_refund) = true.
Proof.
  apply (refund_always_possible sample_refund). split; [by eexists|]. split; [discriminate|].
  split; [repeat constructor; first [by eexists|reflexivity|simpl; lia]|]. simpl.
  split; [repeat constructor; discriminate|]. split; [|vm_compute; discriminate].
  intros x. simpl. unfold taker_of. case_bool_decide; vm_compute; discriminate.
Defined.
