(* ===== verification/Xchain.v ===== *)
(** * The taker's gates in a cross-chain swap

    [lwk_wollet/src/btc/xchain.rs] with the fee conversion of
    [lwk_wollet/src/seqdex_swap.rs]: the keys of the HTLC legs, the reveal gate, the
    claim deadline and the fee of the claim. *)

From stdpp Require Import pretty.
From S2P Require Import Prelude Order Encode Script Timelocks Confidential Transaction Sighash ScriptEval Htlc BtcHtlc BtcCore.

Inductive xchain_error := NotFeeAccepted.

(** ** Keys *)

Inductive PathMode := Canonical | LegacyRelative.

Definition seq_claim_path (m : PathMode) : string :=
  match m with
  | Canonical => "m/84h/1h/0h/3/0"
  | LegacyRelative => "m/3/0"
  end.
Definition btc_refund_path (m : PathMode) : string := "m/84h/1h/0h/2/0".
Definition btc_claim_path (m : PathMode) : string := "m/84h/1h/0h/4/0".

(** ** The reveal gate and the deadline *)

Record AnchorEvidence := mkEvidence
  { seq_anchor_height : Z;
    btc_leg_height : Z;
    btc_tip : Z;
    anchor_status : string;
    depth : Z;
    gate_ok : bool }.

Definition evaluate_gate (anchor : Z) (status : string) (tip leg min_depth : Z) : AnchorEvidence :=
  let depth := if 0 <=? anchor then wrap_i64 (wrap_i64 (tip - anchor) + 1) else -1 in
  let ok := (0 <=? anchor) && (leg <=? anchor) && String.eqb status "ok" && (min_depth <=? depth) in
  mkEvidence anchor leg tip status depth ok.

Definition deadline_ok (seq_tip seq_locktime margin : Z) : bool :=
  (0 <=? seq_tip) && (wrap_i64 (seq_tip + margin) <? seq_locktime).

(** ** The claim fee *)

Definition SCALE : Z := 100000000.

(** [((value * SCALE + rate - 1) / rate) as u64], in [u128]. *)
Definition convert_value_to_amount (value rate : Z) : Z :=
  if rate =? 0 then value else wrap_u64 ((value * SCALE + rate - 1) / rate).

Definition dust_threshold (rate : Z) : Z := convert_value_to_amount 294 rate.

Definition claim_tx_vsize : Z := 400.

Definition seq_claim_fee_atoms (rate seq_feerate_native : Z) : result Z xchain_error :=
  if rate =? 0 then Err NotFeeAccepted
  else
    let native_value := saturating_mul u64_max seq_feerate_native claim_tx_vsize in
    Ok (convert_value_to_amount native_value rate).

(** The HTLC keys are kept apart: on both networks the SEQ-claim, BTC-refund
    and BTC-claim paths are pairwise different, whatever the mode, and none is the
    path of an address of the wallet, external or change, at any index. *)
Lemma htlc_paths_separate (m m' : PathMode) (internal : bool) (i : Z) :
  seq_claim_path m <> btc_refund_path m' /\ seq_claim_path m <> btc_claim_path m' /\
  btc_refund_path m <> btc_claim_path m' /\
  forall params p, params = chain_testnet \/ params = chain_mainnet ->
    p = seq_claim_path m \/ p = btc_refund_path m \/ p = btc_claim_path m ->
    derive_path params internal i <> p.
Proof.
  split_and!; [by destruct m|by destruct m|done|].
  intros params p [->| ->] [->|[->| ->]]; destruct m, internal; done.
Qed.

(** ** Claims *)

(** The reveal gate.  It opens exactly when the chain reports its anchors as
    healthy, the leg is anchored at or above the BTC funding and the anchor is
    [min_depth] deep; with a positive depth the BTC funding is then itself buried
    that deep, and the gate stays open as the Bitcoin tip grows. *)
Theorem reveal_gate_sound (anchor tip leg min_depth : Z) (status : string) :
  -4611686018427387904 <= anchor < 4611686018427387904 ->
  0 <= tip < 4611686018427387904 ->
  (gate_ok (evaluate_gate anchor status tip leg min_depth) = true <->
   status = "ok"%string /\ 0 <= anchor /\ leg <= anchor /\ anchor + min_depth <= tip + 1) /\
  (gate_ok (evaluate_gate anchor status tip leg min_depth) = true ->
   (1 <= min_depth -> leg <= anchor <= tip /\ min_depth <= tip - leg + 1) /\
   forall tip', tip <= tip' < 4611686018427387904 ->
     gate_ok (evaluate_gate anchor status tip' leg min_depth) = true).
Proof.
  intros Ha Ht.
  assert (Hgate : forall t, 0 <= t < 4611686018427387904 ->
    gate_ok (evaluate_gate anchor status t leg min_depth) = true <->
    status = "ok"%string /\ 0 <= anchor /\ leg <= anchor /\ anchor + min_depth <= t + 1).
  { intros t Hb. unfold evaluate_gate. cbn [gate_ok].
    rewrite !andb_true_iff, String.eqb_eq, !Z.leb_le.
    destruct (Z.leb_spec 0 anchor); [|naive_solver lia].
    rewrite (wrap_i64_small (t - anchor)), wrap_i64_small by lia. naive_solver lia. }
  rewrite (Hgate tip Ht). split; [done|]. intros (Hs & H0 & Hl & Hd). split; [intros; lia|].
  intros tip' Ht'. apply Hgate; [lia|]. split_and!; [done|lia..].
Qed.

(** The claim deadline.  When it holds and the lock is a block height, the
    refund of the SEQ leg, whose lock time the script forces to [seq_locktime], is
    not final at any height up to [margin] blocks past the tip. *)
Theorem deadline_protects_claim (seq_tip seq_locktime margin : Z) (h t : Z) :
  is_u32 seq_locktime -> is_block_height seq_locktime = true ->
  0 <= seq_tip < 4611686018427387904 -> -4611686018427387904 <= margin < 4611686018427387904 ->
  deadline_ok seq_tip seq_locktime margin = true -> h <= seq_tip + margin ->
  LockTime_is_satisfied_by (LockTime_from_consensus seq_locktime) (mkHeight h) (mkTime t) = false.
Proof.
  intros Hn Hb Ht Hm Hd Hh. unfold deadline_ok in Hd.
  apply andb_true_iff in Hd as [_ Hd]. rewrite wrap_i64_small in Hd by lia. apply Z.ltb_lt in Hd.
  unfold LockTime_from_consensus. rewrite Hb. cbn [LockTime_is_satisfied_by height_u32]. apply Z.leb_gt. lia.
Qed.

(** The deadline check does not look at the unit of the lock: a lock time in
    the past given as a UNIX time passes it at any tip, while the refund is already
    final. *)
Theorem deadline_accepts_expired_time :
  exists seq_locktime now, is_u32 seq_locktime /\ seq_locktime <= now /\
    forall seq_tip, 0 <= seq_tip <= 10000000 ->
      deadline_ok seq_tip seq_locktime 144 = true /\
      LockTime_is_satisfied_by (LockTime_from_consensus seq_locktime) (mkHeight seq_tip) (mkTime now) = true.
Proof.
  exists 1600000000, 1750000000. split; [lia|]. split; [lia|]. intros tip Ht.
  split; [|reflexivity]. unfold deadline_ok. rewrite wrap_i64_small, andb_true_iff, Z.leb_le, Z.ltb_lt by lia. lia.
Qed.

(** The claim fee.  It is refused exactly for an asset the producers do not
    accept; otherwise it is the least number of atoms worth the native fee at the
    asset's rate, as long as that fits in 64 bits, and when it does not fit it wraps
    to a fee that is too small. *)
Theorem claim_fee_least (rate feerate : Z) :
  is_u64 rate -> 0 <= feerate <= u64_max / claim_tx_vsize ->
  (seq_claim_fee_atoms rate feerate = Err NotFeeAccepted <-> rate = 0) /\
  forall fee, seq_claim_fee_atoms rate feerate = Ok fee ->
    let value := feerate * claim_tx_vsize in
    (value * SCALE <= u64_max * rate ->
     value * SCALE <= fee * rate /\ forall f, value * SCALE <= f * rate -> fee <= f) /\
    (u64_max * rate < value * SCALE -> fee * rate < value * SCALE).
Proof.
  intros Hr Hf. unfold seq_claim_fee_atoms, convert_value_to_amount, claim_tx_vsize in *.
  destruct (Z.eqb_spec rate 0) as [->|Hr0]; [split; [done|]; intros fee [=]|].
  split; [done|]. intros fee [= <-]. cbv zeta.
  assert (Hs : saturating_mul u64_max feerate 400 = feerate * 400).
  { unfold saturating_mul, u64_max in *.
    pose proof (Z.mul_div_le 18446744073709551615 400). lia. }
  rewrite Hs. set (v := feerate * 400) in *. set (n := (v * SCALE + rate - 1) / rate).
  assert (Hn : rate * n <= v * SCALE + rate - 1 < rate * n + rate).
  { unfold n. pose proof (Z.div_mod (v * SCALE + rate - 1) rate).
    pose proof (Z.mod_pos_bound (v * SCALE + rate - 1) rate). lia. }
  assert (Hv : 0 <= v * SCALE) by (unfold v, SCALE; lia).
  split.
  - intros Hfit. assert (Hn64 : is_u64 n) by (unfold u64_max in *; nia).
    rewrite wrap_u64_small by done. split; [nia|]. intros f Hfv. nia.
  - intros Hbig. unfold wrap_u64, u64_max in *.
    pose proof (Z.mod_pos_bound n 18446744073709551616). nia.
Qed.

Lemma reveal_gate_sound_witness :
  gate_ok (evaluate_gate 198 "ok" 500 100 3) = true.
Proof.
  destruct (reveal_gate_sound 198 200 100 3 "ok" ltac:(lia) ltac:(lia)) as [_ Hg].
  apply (proj2 (Hg eq_refl)). lia.
Defined.

Lemma deadline_protects_claim_witness :
  LockTime_is_satisfied_by (LockTime_from_consensus 200) (mkHeight 110) (mkTime 0) = false.
Proof.
  apply (deadline_protects_claim 100 200 10 110 0); [lia|reflexivity|lia|lia|reflexivity|lia].
Defined.

Lemma claim_fee_least_witness :
  exists fee, seq_claim_fee_atoms 4377615194112 1 = Ok fee /\ 400 * SCALE <= fee * 4377615194112.
Proof.
  destruct (claim_fee_least 4377615194112 1 ltac:(lia) ltac:(vm_compute; split; intros Hc; discriminate Hc)) as [_ Hfee].
  exists 1. split; [reflexivity|]. apply (proj1 (Hfee 1 eq_refl)). vm_compute. intros Hc; discriminate Hc.
Defined.

(** Where the fee wraps: [2^64 / 1e8] native atoms at rate 1. *)
Example claim_fee_wraps : seq_claim_fee_atoms 1 461168602 = Ok 6290448384.
Proof. vm_compute. reflexivity. Qed.
