(* ===== verification/SwapRequest.v ===== *)
(** * The taker's half of a same-chain swap

    [Wollet::seqdex_swap_request] of [lwk_wollet/src/seqdex_swap.rs]: coin selection, the outputs
    of an unblinded PSET and the list that reveals the inputs to the maker.  What the taker puts
    in, and what the maker has to add, is exactly what the outputs and the maker receive.

    The 8 random bytes of the id and base64 are parameters. *)

From S2P Require Import Prelude Order Float Encode Hex Script Timelocks Confidential Transaction TxMetrics Sighash Merkle Taproot TapSighash Store Block Update Cache Address Network Wollet Views Delegation Pset PsetValue PsetCodec PsetMeta TxBuilder BuilderLedger Blind BlindBalance Liquidex LiquidexTake Xchain.

(** [Display] of asset ids and blinding factors: the bytes in reverse. *)
Definition display_hex (b : bytes) : bytes := to_hex (rev b).

Record SeqdexUnblindedInput := mkRevealed
  { un_index : Z;
    un_asset : bytes;
    un_amount : Z;
    un_asset_blinder : bytes;
    un_amount_blinder : bytes }.

Record SeqdexSwapRequest := mkSwapRequest
  { sr_id : bytes;
    sr_amount_p : Z;
    sr_asset_p : bytes;
    sr_amount_r : Z;
    sr_asset_r : bytes;
    sr_transaction : bytes;
    sr_unblinded_inputs : list SeqdexUnblindedInput }.

Definition random_swap_id (fill : bytes) : bytes := to_hex fill.

Section swap.
Context {P : Platform} {S : Secp} {H : Hashes} {M : Midstates} {T : TapEnv} {C : SchnorrEnv}
  {E : PsetEnv} {X : PsetCodecEnv} {J : JsonStrings} {WE : WolletEnv} {BE : BuilderEnv}.

Record SeqdexSwapRequestOpts := mkSwapOpts
  { op_asset_p : AssetId;
    op_amount_p : Z;
    op_asset_r : AssetId;
    op_amount_r : Z;
    op_receive_address : Address;
    op_fee_asset : AssetId;
    op_fee_amount : Z;
    op_fee_rate : Z }.

Definition generic {A} (s : string) : result A build_error := Err (WolletErr (Generic s)).

(** ** Coin selection *)

(** The variables that the closure [select] updates; [inp_txout_sec] and [inp_weight] are in the
    draft. *)
Record Selection := mkSelection
  { se_draft : Draft;
    se_inputs : Z;
    revealed : list SeqdexUnblindedInput }.

(** Without a proof the explicit amount and the explicit asset of an input are dropped. *)
Definition drop_unproved (i : PsetInput) : PsetInput :=
  let i := if is_none (i_blind_value_proof i) then i <| i_amount := None |> else i in
  if is_none (i_blind_asset_proof i) then i <| i_asset := None |> else i.

Definition drop_at (idx : nat) (p : PartiallySignedTransaction) : PartiallySignedTransaction :=
  mkPset (global p) (alter drop_unproved idx (inputs p)) (outputs p).

Definition reveal (idx : nat) (s : TxOutSecrets) : SeqdexUnblindedInput :=
  mkRevealed (wrap_u32 (Z.of_nat idx)) (display_hex (sec_asset s)) (sec_value s)
    (display_hex (ext_ser (asset_bf s))) (display_hex (ext_ser (value_bf s))).

Context {W : Type} (txs_store : Store W) (c : Cache) (w : W).

Fixpoint select_loop (l : list WalletTxOut) (target selected : Z) (s : Selection)
  : result (Z * Selection) build_error :=
  match l with
  | [] => Ok (selected, s)
  | u :: l =>
      if target <=? selected then Ok (selected, s)
      else
        let? (idx, d) := wallet_input txs_store w true (se_draft s) u in
        let d := with_pset d (drop_at idx (d_pset d)) in
        let r := revealed s ++ [reveal idx (wo_unblinded u)] in
        let? selected := match checked_add u64_max selected (utxo_value u) with
                         | Some x => Ok x
                         | None => generic "selected total overflow"
                         end in
        select_loop l target selected (mkSelection d (wrap_u32 (se_inputs s + 1)) r)
  end.

Definition value_desc : WalletTxOut -> WalletTxOut -> comparison := cmp_rev (cmp_by utxo_value Z.compare).

(** The outputs of an asset, the largest first. *)
Definition sorted_candidates (utxos : gmap OutPoint WalletTxOut) (asset : AssetId) : list WalletTxOut :=
  sort_by value_desc (of_asset utxo_asset asset (utxo_iter utxos)).

Definition select (utxos : gmap OutPoint WalletTxOut) (asset : AssetId) (target : Z) (s : Selection)
  : result (Z * Selection) build_error :=
  select_loop (sorted_candidates utxos asset) target 0 s.

(** [select], then the check that it covers the target. *)
Definition select_covering (utxos : gmap OutPoint WalletTxOut) (asset : AssetId) (target : Z) (s : Selection)
  : result (Z * Selection) build_error :=
  let? (selected, s) := select utxos asset target s in
  if selected <? target then Err (InsufficientFunds (wrap_u64 (target - selected)) asset false)
  else Ok (selected, s).

(** ** The outputs *)

Definition swap_output (script : Script) (key : PublicKey) (amount : Z) (asset : AssetId) (blinder : Z) : PsetOutput :=
  Output_default <| o_script_pubkey := script |> <| o_amount := Some amount |> <| o_asset := Some asset |>
    <| blinding_key := Some (mkBtcPk key true) |> <| blinder_index := Some blinder |>.

Section outputs.
Context (opts : SeqdexSwapRequestOpts) (script : Script) (key : PublicKey).

Definition taker_funds_fee : bool := 0 <? op_fee_amount opts.
Definition fee_in_asset_p : bool := taker_funds_fee && bool_decide (op_fee_asset opts = op_asset_p opts).

Definition add_change (amount : Z) (asset : AssetId) (p : PartiallySignedTransaction) : PartiallySignedTransaction :=
  add_output (swap_output script key amount asset 0) p.
Definition add_fee (amount : Z) (p : PartiallySignedTransaction) : PartiallySignedTransaction :=
  add_output (new_explicit [] amount (op_fee_asset opts) None) p.

(** Change above the dust threshold is paid back, other change goes to the fee. *)
Definition change_and_fee (change : Z) (asset : AssetId) (p : PartiallySignedTransaction) : PartiallySignedTransaction :=
  if dust_threshold (op_fee_rate opts) <? change
  then add_fee (op_fee_amount opts) (add_change change asset p)
  else add_fee (wrap_u64 (op_fee_amount opts + change)) p.

Definition swap_outputs (asset_p_change fee_selected n : Z) (p : PartiallySignedTransaction) : PartiallySignedTransaction :=
  let p := add_output (swap_output script key (op_amount_r opts) (op_asset_r opts) n) p in
  if fee_in_asset_p then change_and_fee asset_p_change (op_asset_p opts) p
  else
    let p := if 0 <? asset_p_change then add_change asset_p_change (op_asset_p opts) p else p in
    if taker_funds_fee then change_and_fee (wrap_u64 (fee_selected - op_fee_amount opts)) (op_fee_asset opts) p else p.
End outputs.

(** ** The request *)

Definition fund_amount (opts : SeqdexSwapRequestOpts) : result Z build_error :=
  if fee_in_asset_p opts then
    match checked_add u64_max (op_amount_p opts) (op_fee_amount opts) with
    | Some x => Ok x
    | None => generic "amount_p + fee_amount overflow"
    end
  else Ok (op_amount_p opts).

(** The inputs: for the send leg, then for a fee in a third asset. *)
Definition fund_swap (opts : SeqdexSwapRequestOpts) (utxos : gmap OutPoint WalletTxOut) (fund : Z) (s : Selection)
  : result (Z * Z * Selection) build_error :=
  let? (selected_p, s) := select_covering utxos (op_asset_p opts) fund s in
  if taker_funds_fee opts && negb (fee_in_asset_p opts) then
    let? (fee_selected, s) := select_covering utxos (op_fee_asset opts) (op_fee_amount opts) s in
    Ok (wrap_u64 (selected_p - fund), fee_selected, s)
  else Ok (wrap_u64 (selected_p - fund), 0, s).

Definition swap_pset (network : Network) (opts : SeqdexSwapRequestOpts)
  : result (PartiallySignedTransaction * list SeqdexUnblindedInput) build_error :=
  if taker_funds_fee opts && bool_decide (op_fee_asset opts = op_asset_r opts)
  then generic "swap fee cannot be paid in the received asset; use the maker-funded default (fee_amount = 0) or pick another asset"
  else
    let? fund := fund_amount opts in
    let? key := ok_or (blinding_pubkey (op_receive_address opts)) NotConfidentialAddress in
    let? script := ok_or (address_script_pubkey (op_receive_address opts)) BuildPanic in
    let p := set_genesis_hash (network_genesis_hash network) new_v2 in
    let? utxos := wollet_ok (utxos_map c) in
    let? (change, fee_selected, s) := fund_swap opts utxos fund (mkSelection (mkDraft p ∅ 0 0 0) 0 []) in
    Ok (swap_outputs opts script key change fee_selected (se_inputs s) (d_pset (se_draft s)), revealed s).

Definition seqdex_swap_request (base64 : bytes -> bytes) (fill : bytes) (network : Network) (opts : SeqdexSwapRequestOpts)
  : result SeqdexSwapRequest build_error :=
  let? (p, unblinded_inputs) := swap_pset network opts in
  Ok (mkSwapRequest (random_swap_id fill) (op_amount_p opts) (display_hex (op_asset_p opts)) (op_amount_r opts)
        (display_hex (op_asset_r opts)) (base64 (encode_Pset p)) unblinded_inputs).
End swap.

(** ** What is selected *)

#[local] Set Default Proof Using "Type*".

Section selection.
Context {P : Platform} {S : Secp} {H : Hashes} {M : Midstates} {T : TapEnv} {C : SchnorrEnv}
  {E : PsetEnv} {X : PsetCodecEnv} {J : JsonStrings} {WE : WolletEnv} {BE : BuilderEnv}.
Context {W : Type} (st : Store W) (w : W).

(** The output that an input spends, as the wallet stores it. *)
Definition shows_prevout (u : WalletTxOut) (i : PsetInput) : Prop :=
  exists txout, get_txout st w (wo_outpoint u) = Ok txout /\
    witness_utxo i = Some (no_rangeproof txout) /\ in_utxo_rangeproof i = rangeproof (out_witness txout).

Lemma wallet_input_shows u d n d' :
  wallet_input st w true d u = Ok (n, d') ->
  n = length (inputs (d_pset d)) /\ (n < 256)%nat /\ exists i, d_pset d' = add_input i (d_pset d) /\ shows_prevout u i.
Proof.
  unfold wallet_input. intros (tx & _ & Hr)%rbind_ok. apply rbind_ok in Hr as (txout & Htx & Hr).
  unfold add_input_inner in Hr. destruct (Nat.leb_spec SECP256K1_SURJECTIONPROOF_MAX_N_INPUTS (length (inputs (d_pset d)))) as [|Hn]; [done|].
  apply rbind_ok in Hr as (i & _ & Hr). apply rbind_ok in Hr as (j & Hj & Hr). injection Hr as <- <-.
  split_and!; [done|exact Hn|]. exists j. split; [done|].
  destruct tx as [tx|]; [apply rbind_ok in Hj as (tx' & _ & Hj)|]; injection Hj as <-; by exists txout.
Qed.

(** An input of the request: the outpoint and the stored output of [u]; the amount and the asset
    are explicit where a proof comes with them. *)
Record swap_input (u : WalletTxOut) (i : PsetInput) : Prop := mkSwapInput
  { si_prevout : prevout i = wo_outpoint u;
    si_amount : i_amount i = if is_none (i_blind_value_proof i) then None else Some (utxo_value u);
    si_asset : i_asset i = if is_none (i_blind_asset_proof i) then None else Some (utxo_asset u);
    si_shows : shows_prevout u i }.

Lemma drop_unproved_input u i : spends_utxo u i -> shows_prevout u i -> swap_input u (drop_unproved i).
Proof.
  intros [Ht Hv Ha Hm _ _] Hs.
  assert (drop_unproved i = if is_none (i_blind_value_proof i)
    then if is_none (i_blind_asset_proof i) then i <| i_amount := None |> <| i_asset := None |> else i <| i_amount := None |>
    else if is_none (i_blind_asset_proof i) then i <| i_asset := None |> else i) as ->
    by (unfold drop_unproved; by destruct (i_blind_value_proof i)).
  destruct (i_blind_value_proof i) as [vp|] eqn:Evp; cbn [is_none];
    destruct (i_blind_asset_proof i) as [ap|] eqn:Eap; cbn [is_none];
    (split; [transitivity (mkOutPoint (previous_txid i) (previous_output_index i)); [reflexivity|rewrite Ht, Hv; by destruct (wo_outpoint u)]
            |cbn; by rewrite ?Evp|cbn; by rewrite ?Eap|exact Hs]).
Qed.

Definition revealing (us : list WalletTxOut) : list SeqdexUnblindedInput :=
  imap (fun n u => reveal n (wo_unblinded u)) us.

(** What a selection has selected so far. *)
Record selects (us : list WalletTxOut) (s : Selection) : Prop := mkSelects
  { sl_inputs : Forall2 swap_input us (inputs (d_pset (se_draft s)));
    sl_outputs : outputs (d_pset (se_draft s)) = [];
    sl_count : se_inputs s = zlen us;
    sl_max : (length us <= 256)%nat;
    sl_revealed : revealed s = revealing us }.

Lemma selects_next us s u n d :
  selects us s -> wallet_input st w true (se_draft s) u = Ok (n, d) ->
  selects (us ++ [u]) (mkSelection (with_pset d (drop_at n (d_pset d))) (wrap_u32 (se_inputs s + 1))
                         (revealed s ++ [reveal n (wo_unblinded u)])).
Proof.
  intros [Hi Ho Hc Hm Hr] Hw. destruct (wallet_input_shows _ _ _ _ Hw) as (Hn & Hlt & i & Hd & Hs).
  apply wallet_input_adds in Hw as (i' & Hd' & Hu & _). rewrite Hd in Hd'.
  assert (i' = i) as ->.
  { apply (f_equal (fun p => last (inputs p))) in Hd'. cbn [add_input inputs] in Hd'. rewrite !last_snoc in Hd'. by injection Hd'. }
  assert (Hlen : length us = n) by (subst n; by apply Forall2_length in Hi).
  split; cbn [se_draft with_pset d_pset drop_at inputs outputs se_inputs revealed].
  - rewrite Hd. cbn [add_input inputs]. subst n. rewrite alter_app_r_alt, Nat.sub_diag by lia. cbn.
    apply Forall2_app; [done|]. constructor; [|constructor]. by apply drop_unproved_input.
  - by rewrite Hd.
  - rewrite Hc, zlen_app, wrap_u32_small; [done|]. unfold zlen. lia.
  - rewrite length_app. cbn. lia.
  - rewrite Hr. unfold revealing. rewrite imap_app. cbn. by rewrite Hlen, Nat.add_0_r.
Qed.

(** The loop takes a prefix of the candidates, stops as soon as the target is reached, and its
    total does not wrap. *)
Lemma select_loop_takes l target sel us s sel' s' :
  selects us s -> sel <= u64_max -> select_loop st w l target sel s = Ok (sel', s') ->
  exists k, selects (us ++ take k l) s' /\ sel' = sel + sum_map utxo_value (take k l) /\ sel' <= u64_max /\
    (sel' < target -> take k l = l) /\
    forall j, (j < length (take k l))%nat -> sel + sum_map utxo_value (take j l) < target.
Proof.
  revert sel us s. induction l as [|u l IH]; intros sel us s Hs Hmax; cbn [select_loop].
  { intros [= <- <-]. exists 0%nat. cbn. rewrite app_nil_r, Z.add_0_r. split_and!; try done. intros j. lia. }
  destruct (Z.leb_spec target sel) as [Hge|Hlt].
  { intros [= <- <-]. exists 0%nat. cbn. rewrite app_nil_r, Z.add_0_r. split_and!; try done; [lia|]. intros j. lia. }
  intros ([n d] & Hw & Hr)%rbind_ok. unfold checked_add in Hr.
  destruct (Z.leb_spec (sel + utxo_value u) u64_max) as [Hle|]; [|done]. cbn [rbind] in Hr.
  apply (IH _ (us ++ [u])) in Hr as (k & Hs' & -> & Hm & Hall & Hmin); [|by apply selects_next|done].
  exists (1 + k)%nat. cbn [Nat.add take]. rewrite <-app_assoc in Hs'. rewrite sum_map_cons.
  split_and!; [done|lia|lia| |].
  - intros Hsh. f_equal. apply Hall. lia.
  - intros [|j] Hj; cbn [length take] in *; [cbn; lia|]. rewrite sum_map_cons. specialize (Hmin j). lia.
Qed.
End selection.

(** ** The books of a request *)

Section books.
Context {P : Platform} {S : Secp} {H : Hashes} {M : Midstates} {T : TapEnv} {C : SchnorrEnv}
  {E : PsetEnv} {X : PsetCodecEnv} {J : JsonStrings} {WE : WolletEnv} {BE : BuilderEnv}.
Context {W : Type} (st : Store W) (w : W).

(** What a list of outputs holds of an asset. *)
Definition held (a : AssetId) (us : list WalletTxOut) : Z :=
  sum_map (fun u => amount_if a (utxo_asset u) (utxo_value u)) us.

Lemma held_app a us vs : held a (us ++ vs) = held a us + held a vs.
Proof. apply sum_map_app. Qed.

Lemma held_of a x us : Forall (fun u => utxo_asset u = x) us -> held a us = amount_if a x (sum_map utxo_value us).
Proof.
  induction 1 as [|u us Hu _ IH]; unfold held in *; [unfold amount_if; by destruct (decide _)|].
  rewrite !sum_map_cons, IH, Hu. unfold amount_if. destruct (decide _); lia.
Qed.

Lemma sorted_candidates_in utxos a : Forall (fun u => utxo_asset u = a /\ u ∈ utxo_iter utxos) (sorted_candidates utxos a).
Proof.
  apply Forall_forall. intros u Hu. unfold sorted_candidates in Hu. rewrite sort_by_perm in Hu.
  apply list_elem_of_In, filter_In in Hu as [Hu Ha%bool_decide_eq_true]. by rewrite <-list_elem_of_In in Hu.
Qed.

(** [select] and the check: enough of one asset, from the wallet. *)
Lemma select_covering_ok utxos a target us s sel s' :
  selects st w us s -> select_covering st w utxos a target s = Ok (sel, s') ->
  exists k, let new := take k (sorted_candidates utxos a) in
    selects st w (us ++ new) s' /\ sel = sum_map utxo_value new /\ target <= sel <= u64_max /\
    forall j, (j < length new)%nat -> sum_map utxo_value (take j (sorted_candidates utxos a)) < target.
Proof.
  intros Hs. unfold select_covering. intros ([sel1 s1] & Hsel & Hr)%rbind_ok.
  apply (select_loop_takes st w _ _ _ us) in Hsel as (k & Hs' & -> & Hm & _ & Hmin); [|done|done].
  destruct (Z.ltb_spec (0 + sum_map utxo_value (take k (sorted_candidates utxos a))) target); [done|].
  injection Hr as <- <-. exists k. cbn zeta. split_and!; [done|done|lia|lia|]. intros j Hj. by apply Hmin.
Qed.

Definition keyed (utxos : gmap OutPoint WalletTxOut) : Prop := forall k u, utxos !! k = Some u -> wo_outpoint u = k.

Lemma utxos_map_keyed (c : Cache) utxos : utxos_map c = Ok utxos -> keyed utxos.
Proof.
  unfold utxos_map. intros (l & _ & [= <-])%rbind_ok k u Hk%lookup_extend_empty.
  by apply list_elem_of_fmap in Hk as (x & [= -> ->] & _).
Qed.

Lemma keyed_lookup utxos u : keyed utxos -> u ∈ utxo_iter utxos -> utxos !! wo_outpoint u = Some u.
Proof.
  intros Hk Hu. rewrite utxo_iter_perm in Hu. apply list_elem_of_fmap in Hu as ([k u'] & -> & Hu%elem_of_map_to_list).
  cbn [snd]. by rewrite (Hk _ _ Hu).
Qed.

Lemma keyed_nodup utxos : keyed utxos -> NoDup (map wo_outpoint (utxo_iter utxos)).
Proof.
  intros Hk. assert (Hw : map wo_outpoint (utxo_iter utxos) ≡ₚ (map_to_list utxos).*1); [|rewrite Hw; apply NoDup_fst_map_to_list].
  rewrite utxo_iter_perm, <-list_fmap_compose. apply reflexive_eq, list_fmap_ext.
  intros n [k u] Hn%list_elem_of_lookup_2%elem_of_map_to_list. by apply Hk.
Qed.

(** Outputs of the wallet of different assets are different. *)
Lemma selected_nodup utxos a k : keyed utxos -> NoDup (map wo_outpoint (take k (sorted_candidates utxos a))).
Proof.
  intros Hk. assert (Hs : map wo_outpoint (take k (sorted_candidates utxos a)) ⊆+ map wo_outpoint (utxo_iter utxos)).
  { apply fmap_submseteq. transitivity (sorted_candidates utxos a); [apply sublist_submseteq, sublist_take|].
    unfold sorted_candidates. rewrite sort_by_perm. apply filter_submseteq. }
  eapply submseteq_NoDup_l; [exact Hs|by apply keyed_nodup].
Qed.

Record from_wallet (utxos : gmap OutPoint WalletTxOut) (us : list WalletTxOut) : Prop := mkFromWallet
  { fw_nodup : NoDup (map wo_outpoint us);
    fw_in : Forall (fun u => utxos !! wo_outpoint u = Some u) us }.

Lemma take_from_wallet utxos a k : keyed utxos -> from_wallet utxos (take k (sorted_candidates utxos a)).
Proof.
  intros Hk. split; [by apply selected_nodup|]. apply Forall_take.
  eapply Forall_impl; [apply sorted_candidates_in|]. intros u [_ Hu]. by apply keyed_lookup.
Qed.

Lemma from_wallet_app utxos a b us vs :
  a <> b -> Forall (fun u => utxo_asset u = a) us -> Forall (fun u => utxo_asset u = b) vs ->
  from_wallet utxos us -> from_wallet utxos vs -> from_wallet utxos (us ++ vs).
Proof.
  intros Hab Ha Hb [Hn Hi] [Hn' Hi']. split; [|by apply Forall_app].
  rewrite map_app. apply NoDup_app. split_and!; [done| |done].
  intros o (u & -> & Hu)%list_elem_of_fmap (v & Huv & Hv)%list_elem_of_fmap.
  rewrite Forall_forall in Ha, Hb, Hi, Hi'. specialize (Hi _ Hu). specialize (Hi' _ Hv). rewrite <-Huv, Hi in Hi'.
  injection Hi' as <-. apply Hab. by rewrite <-(Ha _ Hu), <-(Hb _ Hv).
Qed.

(** ** Funding *)

Definition third_fee (opts : SeqdexSwapRequestOpts) : bool := taker_funds_fee opts && negb (fee_in_asset_p opts).

Record funded (opts : SeqdexSwapRequestOpts) (utxos : gmap OutPoint WalletTxOut) (fund change fee_selected : Z)
    (us : list WalletTxOut) : Prop := mkFunded
  { fu_wallet : from_wallet utxos us;
    fu_change : 0 <= change /\ fund + change <= u64_max;
    fu_fee : if third_fee opts then op_fee_amount opts <= fee_selected <= u64_max else fee_selected = 0;
    fu_held a : held a us = amount_if a (op_asset_p opts) (fund + change) + amount_if a (op_fee_asset opts) fee_selected }.

Lemma third_fee_asset opts : third_fee opts = true -> op_asset_p opts <> op_fee_asset opts.
Proof.
  unfold third_fee, fee_in_asset_p. destruct (taker_funds_fee opts); [|done]. cbn [andb].
  intros Hn Hp. by rewrite bool_decide_eq_true_2 in Hn.
Qed.

Lemma take_asset utxos a k : Forall (fun u => utxo_asset u = a) (take k (sorted_candidates utxos a)).
Proof. apply Forall_take. eapply Forall_impl; [apply sorted_candidates_in|]. by intros u [Hu _]. Qed.

Lemma amount_if_zero a x : amount_if a x 0 = 0.
Proof. unfold amount_if. by destruct (decide _). Qed.

Lemma fund_swap_ok opts utxos fund s change fee_selected s' :
  keyed utxos -> 0 <= fund -> selects st w [] s -> fund_swap st w opts utxos fund s = Ok (change, fee_selected, s') ->
  exists us, selects st w us s' /\ funded opts utxos fund change fee_selected us.
Proof.
  intros Hk Hf Hs. unfold fund_swap. intros ([sel s1] & Hsel & Hr)%rbind_ok.
  apply (select_covering_ok utxos _ _ []) in Hsel as (k & Hs1 & Hsum & Hrange & _); [|done]. cbn zeta in *. cbn [app] in Hs1.
  assert (Hch : wrap_u64 (sel - fund) = sel - fund) by (apply wrap_u64_small; unfold u64_max in *; lia).
  change (taker_funds_fee opts && negb (fee_in_asset_p opts)) with (third_fee opts) in Hr.
  destruct (third_fee opts) eqn:Et.
  - apply rbind_ok in Hr as ([fsel s2] & Hsel & [= <- <- <-]).
    apply (select_covering_ok utxos _ _ _ _ _ _ Hs1) in Hsel as (k' & Hs2 & Hsum' & Hrange' & _). cbn zeta in *.
    eexists. split; [exact Hs2|]. rewrite Hch. split; [|lia|by rewrite Et|].
    + apply (from_wallet_app utxos (op_asset_p opts) (op_fee_asset opts)); [by apply third_fee_asset|apply take_asset|apply take_asset|..];
        by apply take_from_wallet.
    + intros a. rewrite held_app, (held_of a _ _ (take_asset utxos _ k)), (held_of a _ _ (take_asset utxos _ k')), <-Hsum, <-Hsum'.
      do 2 f_equal. lia.
  - injection Hr as <- <- <-. eexists. split; [exact Hs1|]. rewrite Hch. split; [by apply take_from_wallet|lia|by rewrite Et|].
    intros a. rewrite (held_of a _ _ (take_asset utxos _ k)), <-Hsum, amount_if_zero, Z.add_0_r. f_equal. lia.
Qed.

Lemma swap_output_worth script key a n x b : out_worth a (swap_output script key n x b) = amount_if a x n.
Proof. unfold out_worth, amount_if. cbn. destruct (decide (x = a)) as [->|]; [by rewrite decide_True|rewrite decide_False; congruence]. Qed.
Lemma explicit_worth a n x : out_worth a (new_explicit [] n x None) = amount_if a x n.
Proof. unfold out_worth, amount_if. cbn. destruct (decide (x = a)) as [->|]; [by rewrite decide_True|rewrite decide_False; congruence]. Qed.

(** ** Paying *)

Section paying.
Context (opts : SeqdexSwapRequestOpts) (script : Script) (key : PublicKey).

(** Change: back to the receive address, to be blinded against the first input. *)
Definition change_output (o : PsetOutput) : Prop := exists n a, 0 < n /\ o = swap_output script key n a 0.

(** The fee: explicit, without a script, at most the dust threshold above what was asked. *)
Definition fee_outputs (fs : list PsetOutput) : Prop :=
  if taker_funds_fee opts
  then exists x, fs = [new_explicit [] x (op_fee_asset opts) None] /\
         op_fee_amount opts <= x <= op_fee_amount opts + dust_threshold (op_fee_rate opts)
  else fs = [].

Lemma dust_threshold_nonneg rate : 0 <= dust_threshold rate.
Proof. unfold dust_threshold, convert_value_to_amount. destruct (rate =? 0); [lia|]. apply Z.mod_pos_bound. lia. Qed.

(** How outputs are added: change, then the fee; they pay [total] of every asset. *)
Record pays_out (p p' : PartiallySignedTransaction) (total : AssetId -> Z) (fee : bool) : Prop := mkPaysOut
  { po_inputs : inputs p' = inputs p;
    po_outputs : exists cs fs, outputs p' = outputs p ++ cs ++ fs /\ Forall change_output cs /\
      (if fee then fee_outputs fs else fs = []) /\ forall a, sum_map (out_worth a) (cs ++ fs) = total a }.

Lemma change_and_fee_pays change p :
  taker_funds_fee opts = true -> 0 <= change -> op_fee_amount opts + change <= u64_max ->
  pays_out p (change_and_fee opts script key change (op_fee_asset opts) p)
    (fun a => amount_if a (op_fee_asset opts) (op_fee_amount opts + change)) true.
Proof.
  intros Hf Hc Hm. assert (Hfee : 0 < op_fee_amount opts) by (unfold taker_funds_fee in Hf; lia).
  pose proof (dust_threshold_nonneg (op_fee_rate opts)) as Hd. unfold change_and_fee.
  destruct (Z.ltb_spec (dust_threshold (op_fee_rate opts)) change); (split; [done|]).
  - exists [swap_output script key change (op_fee_asset opts) 0], [new_explicit [] (op_fee_amount opts) (op_fee_asset opts) None].
    split_and!.
    + cbn [add_fee add_change add_output outputs]. by rewrite <-app_assoc.
    + constructor; [|constructor]. exists change, (op_fee_asset opts). split; [lia|done].
    + unfold fee_outputs. rewrite Hf. exists (op_fee_amount opts). split; [done|lia].
    + intros a. cbn [app]. rewrite !sum_map_cons, swap_output_worth, explicit_worth. unfold amount_if. cbn. destruct (decide _); lia.
  - rewrite wrap_u64_small by (unfold u64_max in *; lia).
    exists [], [new_explicit [] (op_fee_amount opts + change) (op_fee_asset opts) None]. split_and!; [done|constructor| |].
    + unfold fee_outputs. rewrite Hf. eexists. split; [done|lia].
    + intros a. cbn [app]. rewrite sum_map_cons, explicit_worth. cbn. lia.
Qed.

Lemma add_change_pays change p :
  0 <= change ->
  pays_out p (if 0 <? change then add_change script key change (op_asset_p opts) p else p)
    (fun a => amount_if a (op_asset_p opts) change) false.
Proof.
  intros Hc. destruct (Z.ltb_spec 0 change).
  - split; [done|]. exists [swap_output script key change (op_asset_p opts) 0], []. split_and!; [done| |done|].
    + constructor; [|constructor]. by exists change, (op_asset_p opts).
    + intros a. cbn [app]. rewrite sum_map_cons, swap_output_worth. cbn. lia.
  - assert (change = 0) as -> by lia. split; [done|]. exists [], []. split_and!; [by rewrite app_nil_r|constructor|done|].
    intros a. by rewrite amount_if_zero.
Qed.

Lemma pays_out_trans p q r f g : pays_out p q f false -> pays_out q r g true -> pays_out p r (fun a => f a + g a) true.
Proof.
  intros [Hi (cs & fs & Ho & Hcs & -> & Hf)] [Hi' (cs' & fs' & Ho' & Hcs' & Hfs & Hg)]. split; [congruence|].
  exists (cs ++ cs'), fs'. split_and!; [by rewrite Ho', Ho, app_nil_r, <-!app_assoc|by apply Forall_app|done|].
  intros a. rewrite <-app_assoc, sum_map_app, Hg, <-Hf, app_nil_r. done.
Qed.

(** With the receive output, what leaves the books is what the maker gets. *)
Lemma swap_outputs_pays utxos fund change fee_selected us n p :
  0 <= op_amount_p opts -> fund_amount opts = Ok fund -> funded opts utxos fund change fee_selected us ->
  inputs (swap_outputs opts script key change fee_selected n p) = inputs p /\
  exists cs fs, outputs (swap_outputs opts script key change fee_selected n p) =
      outputs p ++ swap_output script key (op_amount_r opts) (op_asset_r opts) n :: cs ++ fs /\
    Forall change_output cs /\ fee_outputs fs /\
    forall a, sum_map (out_worth a) (cs ++ fs) + amount_if a (op_asset_p opts) (op_amount_p opts) = held a us.
Proof.
  intros Hp Hfund [_ [Hc Hm] Hfee Hheld]. unfold swap_outputs. set (q := add_output _ p).
  assert (Hgoal : forall p' total, pays_out q p' total true ->
    (forall a, total a + amount_if a (op_asset_p opts) (op_amount_p opts) = held a us) ->
    inputs p' = inputs p /\ exists cs fs, outputs p' =
      outputs p ++ swap_output script key (op_amount_r opts) (op_asset_r opts) n :: cs ++ fs /\
    Forall change_output cs /\ fee_outputs fs /\
    forall a, sum_map (out_worth a) (cs ++ fs) + amount_if a (op_asset_p opts) (op_amount_p opts) = held a us).
  { intros p' total [Hi (cs & fs & Ho & Hcs & Hfs & Ht)] Hb. split; [done|]. exists cs, fs. rewrite Ho.
    split_and!; [unfold q; cbn [add_output outputs]; by rewrite <-app_assoc|done..|]. intros a. by rewrite Ht. }
  unfold fund_amount in Hfund. unfold third_fee in Hfee.
  assert (Hfunds : fee_in_asset_p opts = true -> taker_funds_fee opts = true /\ op_fee_asset opts = op_asset_p opts).
  { unfold fee_in_asset_p. destruct (taker_funds_fee opts); [|done]. by intros ?%bool_decide_eq_true. }
  destruct (fee_in_asset_p opts).
  - destruct (Hfunds eq_refl) as [Htf Hfa]. rewrite Htf in Hfee. cbn [andb negb] in Hfee. subst fee_selected.
    unfold checked_add in Hfund. destruct (_ <=? _); [injection Hfund as <-|done]. rewrite <-Hfa in *.
    eapply Hgoal; [apply change_and_fee_pays; [done|done|lia]|]. intros a. cbn beta. rewrite Hheld, amount_if_zero.
    unfold amount_if. destruct (decide _); lia.
  - injection Hfund as Hfund. subst fund. pose proof (add_change_pays change q Hc) as H1. set (q' := if 0 <? change then _ else q) in *.
    destruct (taker_funds_fee opts) eqn:Et; cbn [andb negb] in Hfee.
    + assert (Hfp : 0 < op_fee_amount opts) by (unfold taker_funds_fee in Et; lia).
      rewrite wrap_u64_small by (unfold u64_max in *; lia).
      eapply Hgoal; [eapply pays_out_trans; [exact H1|apply change_and_fee_pays; [done|lia|lia]]|].
      intros a. cbn beta. rewrite Hheld. unfold amount_if. repeat destruct (decide _); lia.
    + subst fee_selected. eapply (Hgoal q').
      * destruct H1 as [Hi (cs & fs & Ho & Hcs & -> & Ht)]. split; [exact Hi|]. exists cs, []. split_and!; [done|done| |exact Ht].
        unfold fee_outputs. by rewrite Et.
      * intros a. cbn beta. rewrite Hheld, amount_if_zero. unfold amount_if. destruct (decide _); lia.
Qed.
End paying.
End books.

(** What a request says: its inputs are outputs of the wallet, each once, and are revealed at their
    index; the first output is what the taker receives, to be blinded by the input after the
    taker's; then change and the fee. *)
Record swap_terms {P : Platform} {S : Secp} {H : Hashes} {M : Midstates} {T : TapEnv} {C : SchnorrEnv}
    {E : PsetEnv} {J : JsonStrings} {WE : WolletEnv} {BE : BuilderEnv} {W : Type} (st : Store W) (c : Cache) (w : W)
    (opts : SeqdexSwapRequestOpts) (p : PartiallySignedTransaction) (unblinded_inputs : list SeqdexUnblindedInput)
    (us : list WalletTxOut) : Prop := mkSwapTerms
  { st_wallet : exists utxos, utxos_map c = Ok utxos /\ from_wallet utxos us;
    st_inputs : Forall2 (swap_input st w) us (inputs p);
    st_revealed : unblinded_inputs = imap (fun i u =>
      mkRevealed (Z.of_nat i) (display_hex (utxo_asset u)) (utxo_value u)
        (display_hex (ext_ser (asset_bf (wo_unblinded u)))) (display_hex (ext_ser (value_bf (wo_unblinded u))))) us;
    st_outputs : exists script key changes fees,
      address_script_pubkey (op_receive_address opts) = Some script /\ blinding_pubkey (op_receive_address opts) = Some key /\
      outputs p = swap_output script key (op_amount_r opts) (op_asset_r opts) (zlen us) :: changes ++ fees /\
      Forall (change_output script key) changes /\ (us = [] -> changes = []) /\ fee_outputs opts fees;
    st_fee_asset : 0 < op_fee_amount opts -> op_fee_asset opts <> op_asset_r opts;
    st_books a : held a us + amount_if a (op_asset_r opts) (op_amount_r opts) =
                 outs a p + amount_if a (op_asset_p opts) (op_amount_p opts) }.

Section terms.
Context {P : Platform} {S : Secp} {H : Hashes} {M : Midstates} {T : TapEnv} {C : SchnorrEnv}
  {E : PsetEnv} {X : PsetCodecEnv} {J : JsonStrings} {WE : WolletEnv} {BE : BuilderEnv}.
Context {W : Type} (st : Store W) (c : Cache) (w : W).

Lemma init_selects (g : bytes) : selects st w [] (mkSelection (mkDraft (set_genesis_hash g new_v2) ∅ 0 0 0) 0 []).
Proof. split; [constructor|done|done|cbn; lia|done]. Qed.

(** No input, no change. *)
Lemma change_needs_input opts script key cs fs :
  Forall (change_output script key) cs -> fee_outputs opts fs -> 0 <= op_amount_p opts ->
  (forall a, sum_map (out_worth a) (cs ++ fs) + amount_if a (op_asset_p opts) (op_amount_p opts) = 0) -> cs = [].
Proof.
  intros Hc Hf Hp Hb. destruct Hc as [|o cs (n & a & Hn & ->) Hc]; [done|]. exfalso.
  specialize (Hb a). cbn [app] in Hb. rewrite sum_map_cons, sum_map_app, swap_output_worth in Hb.
  assert (Hcs : 0 <= sum_map (out_worth a) cs).
  { apply sum_map_Forall_nonneg. eapply Forall_impl; [exact Hc|]. intros o (m & b & Hm & ->). rewrite swap_output_worth.
    unfold amount_if. destruct (decide _); lia. }
  assert (Hfs : 0 <= sum_map (out_worth a) fs).
  { unfold fee_outputs in Hf. destruct (taker_funds_fee opts) eqn:Et; [|by subst fs].
    destruct Hf as (x & -> & Hx & _). unfold taker_funds_fee in Et. rewrite sum_map_cons, explicit_worth.
    unfold amount_if. cbn. destruct (decide _); lia. }
  unfold amount_if in Hb. rewrite decide_True in Hb by done. destruct (decide _); lia.
Qed.

Lemma revealing_indices us : (length us <= 256)%nat ->
  revealing us = imap (fun i u =>
      mkRevealed (Z.of_nat i) (display_hex (utxo_asset u)) (utxo_value u)
        (display_hex (ext_ser (asset_bf (wo_unblinded u)))) (display_hex (ext_ser (value_bf (wo_unblinded u))))) us.
Proof.
  intros Hl. unfold revealing. apply imap_ext. intros i u Hi%lookup_lt_Some. unfold reveal. by rewrite wrap_u32_small by lia.
Qed.

Lemma fund_amount_nonneg opts fund : 0 <= op_amount_p opts -> fund_amount opts = Ok fund -> 0 <= fund.
Proof.
  intros Hp. unfold fund_amount, fee_in_asset_p, taker_funds_fee, checked_add.
  destruct (Z.ltb_spec 0 (op_fee_amount opts)); cbn [andb]; [|intros [= <-]; exact Hp].
  case_bool_decide; [|intros [= <-]; exact Hp]. destruct (_ <=? _); [|done]. intros [= <-]. lia.
Qed.

Lemma swap_pset_terms net opts p l :
  0 <= op_amount_p opts -> swap_pset st c w net opts = Ok (p, l) -> exists us, swap_terms st c w opts p l us.
Proof.
  intros Hp. unfold swap_pset. destruct (taker_funds_fee opts && _) eqn:Eg; [done|].
  intros (fund & Hfund & Hr)%rbind_ok. apply rbind_ok in Hr as (key & Hkey%ok_or_ok & Hr).
  apply rbind_ok in Hr as (script & Hscript%ok_or_ok & Hr). cbn zeta in Hr.
  apply rbind_ok in Hr as (utxos & Hutxos & Hr). destruct (utxos_map c) as [utxos'|] eqn:Eu; [|done]. injection Hutxos as ->.
  apply rbind_ok in Hr as ([[change fee_selected] s] & Hs & [= <- <-]).
  pose proof (fund_amount_nonneg opts fund Hp Hfund) as Hf0.
  apply fund_swap_ok in Hs as (us & [Hi Ho Hn Hm Hrev] & Hfu); [|by eapply utxos_map_keyed|done|apply init_selects].
  destruct (swap_outputs_pays opts script key utxos fund change fee_selected us (se_inputs s) (d_pset (se_draft s)) Hp Hfund Hfu)
    as (Hin & cs & fs & Hout & Hcs & Hfs & Hb). rewrite Ho in Hout. cbn [app] in Hout.
  exists us. split.
  - exists utxos. split; [done|]. apply (fu_wallet _ _ _ _ _ _ Hfu).
  - by rewrite Hin.
  - rewrite Hrev. by apply revealing_indices.
  - exists script, key, cs, fs. split_and!; try done; [by rewrite Hout, Hn|].
    intros ->. eapply change_needs_input; [done..|]. intros a. by rewrite Hb.
  - intros Hfee Hr. unfold taker_funds_fee in Eg. rewrite (proj2 (Z.ltb_lt 0 (op_fee_amount opts)) Hfee), bool_decide_eq_true_2 in Eg by done. done.
  - intros a. unfold outs. rewrite Hout, sum_map_cons, swap_output_worth, <-Hb. lia.
Qed.

(** ** Too little in the wallet *)

Definition is_shortfall (e : build_error) : bool := match e with InsufficientFunds _ _ _ => true | _ => false end.
Definition no_shortfall {A} (r : result A build_error) : Prop := forall e, r = Err e -> is_shortfall e = false.

Lemma no_shortfall_bind {A B} (r : result A build_error) (f : A -> result B build_error) :
  no_shortfall r -> (forall a, no_shortfall (f a)) -> no_shortfall (rbind r f).
Proof. intros Hr Hf e. destruct r as [a|e']; cbn; [apply Hf|]. intros [= <-]. by apply Hr. Qed.
Lemma no_shortfall_ok {A} (a : A) : no_shortfall (Ok a).
Proof. done. Qed.
Lemma no_shortfall_ok_or {A} (o : option A) e : is_shortfall e = false -> no_shortfall (ok_or o e).
Proof. intros He e'. destruct o; cbn; [done|]. by intros [= <-]. Qed.
#[local] Hint Resolve no_shortfall_bind no_shortfall_ok no_shortfall_ok_or : core.

Lemma with_proofs_no_shortfall txout u allow i : no_shortfall (with_proofs txout u allow i).
Proof.
  unfold with_proofs. assert (Hx : no_shortfall (if allow then Ok i else Err NotConfidentialInput)).
  { destruct allow; [done|by intros e [= <-]]. }
  destruct (Value_commitment (value txout)), (Asset_commitment (asset txout)); auto.
Qed.

Lemma wallet_input_no_shortfall d u : no_shortfall (wallet_input st w true d u).
Proof.
  unfold wallet_input, get_txout, get_tx. apply no_shortfall_bind; [destruct is_segwit; auto|]. intros tx.
  apply no_shortfall_bind; [auto|]. intros txout. unfold add_input_inner. destruct (_ <=? _)%nat; [by intros e [= <-]|].
  apply no_shortfall_bind; [apply with_proofs_no_shortfall|]. intros i. apply no_shortfall_bind; [|auto].
  destruct tx as [tx|]; [|auto]. apply no_shortfall_bind; [|auto]. unfold strip_prev.
  destruct (output tx !! _); [auto|]. by intros e [= <-].
Qed.

Lemma select_loop_no_shortfall l target sel s : no_shortfall (select_loop st w l target sel s).
Proof.
  revert sel s. induction l as [|u l IH]; intros sel s; cbn [select_loop]; [done|]. destruct (_ <=? _); [done|].
  apply no_shortfall_bind; [apply wallet_input_no_shortfall|]. intros [n d]. apply no_shortfall_bind; [|intros; apply IH].
  destruct (checked_add _ _ _); [done|]. by intros e [= <-].
Qed.

(** A shortfall is reported after all outputs of the asset were taken. *)
Lemma select_covering_short utxos a target us s m x t :
  selects st w us s -> (forall u, u ∈ utxo_iter utxos -> 0 <= utxo_value u) -> target <= u64_max ->
  select_covering st w utxos a target s = Err (InsufficientFunds m x t) ->
  x = a /\ t = false /\ 0 < m /\ held a (utxo_iter utxos) + m = target.
Proof.
  intros Hs Hv Ht. unfold select_covering, select.
  destruct (select_loop st w (sorted_candidates utxos a) target 0 s) as [[sel s1]|e] eqn:Es; cbn [rbind].
  2:{ intros [= ->]. by apply select_loop_no_shortfall in Es. }
  apply (select_loop_takes st w _ _ _ us) in Es as (k & _ & -> & _ & Hall & _); [|done|done].
  destruct (Z.ltb_spec (0 + sum_map utxo_value (take k (sorted_candidates utxos a))) target) as [Hlt|]; [|done].
  intros [= <- <- <-]. rewrite (Hall Hlt), Z.add_0_l in Hlt |- *.
  assert (Hh : held a (utxo_iter utxos) = sum_map utxo_value (sorted_candidates utxos a)).
  { unfold sorted_candidates. rewrite (sum_map_perm _ _ _ (sort_by_perm _ _)). unfold held.
    induction (utxo_iter utxos) as [|u l IH]; [done|]. rewrite sum_map_cons, IH by (intros; apply Hv; by right).
    unfold of_asset. cbn [List.filter]. unfold amount_if. case_bool_decide; [rewrite decide_True by done; by rewrite sum_map_cons|].
    by rewrite decide_False. }
  assert (H0 : 0 <= sum_map utxo_value (sorted_candidates utxos a)).
  { apply sum_map_Forall_nonneg. eapply Forall_impl; [apply sorted_candidates_in|]. intros u [_ Hu]. by apply Hv. }
  rewrite wrap_u64_small by (unfold u64_max in *; lia). split_and!; [done|done|lia|lia].
Qed.
End terms.

(** C10: A swap request takes from each asset exactly what it says: the outputs that the taker spends,
    with what the maker has to bring, pay the outputs of the PSET and what the maker gets. *)
Theorem swap_request_balances {P : Platform} {S : Secp} {H : Hashes} {M : Midstates} {T : TapEnv} {C : SchnorrEnv}
    {E : PsetEnv} {X : PsetCodecEnv} {J : JsonStrings} {WE : WolletEnv} {BE : BuilderEnv} {W : Type}
    (st : Store W) (c : Cache) (w : W) (base64 : bytes -> bytes) (fill : bytes) (net : Network)
    (opts : SeqdexSwapRequestOpts) (req : SeqdexSwapRequest) :
  0 <= op_amount_p opts -> seqdex_swap_request st c w base64 fill net opts = Ok req ->
  exists p us, swap_terms st c w opts p (sr_unblinded_inputs req) us /\ sr_transaction req = base64 (encode_Pset p) /\
    sr_amount_p req = op_amount_p opts /\ sr_amount_r req = op_amount_r opts.
Proof.
  intros Hp. unfold seqdex_swap_request. intros ([p l] & Hs & [= <-])%rbind_ok.
  apply swap_pset_terms in Hs as (us & Hus); [|done]. by exists p, us.
Qed.

(** When a request fails for lack of funds, the wallet lacks exactly the reported amount: of the
    asset that is sent, or of the asset of the fee. *)
Theorem swap_shortfall_exact {P : Platform} {S : Secp} {H : Hashes} {M : Midstates} {T : TapEnv} {C : SchnorrEnv}
    {E : PsetEnv} {X : PsetCodecEnv} {J : JsonStrings} {WE : WolletEnv} {BE : BuilderEnv} {W : Type}
    (st : Store W) (c : Cache) (w : W) (base64 : bytes -> bytes) (fill : bytes) (net : Network)
    (opts : SeqdexSwapRequestOpts) utxos m a t :
  0 <= op_amount_p opts <= u64_max -> op_fee_amount opts <= u64_max ->
  utxos_map c = Ok utxos -> (forall u, u ∈ utxo_iter utxos -> 0 <= utxo_value u) ->
  seqdex_swap_request st c w base64 fill net opts = Err (InsufficientFunds m a t) ->
  t = false /\ 0 < m /\
  ((a = op_asset_p opts /\ fund_amount opts = Ok (held a (utxo_iter utxos) + m)) \/
   (a = op_fee_asset opts /\ third_fee opts = true /\ held a (utxo_iter utxos) + m = op_fee_amount opts)).
Proof.
  intros [Hp Hp'] Hf Hu Hv. unfold seqdex_swap_request, swap_pset. rewrite Hu. cbn [wollet_ok].
  destruct (taker_funds_fee opts && _); [done|].
  assert (Hmax : forall fund, fund_amount opts = Ok fund -> fund <= u64_max).
  { unfold fund_amount, checked_add. intros fund. destruct (fee_in_asset_p opts); [|by intros [= <-]].
    destruct (Z.leb_spec (op_amount_p opts + op_fee_amount opts) u64_max); [|done]. by intros [= <-]. }
  destruct (fund_amount opts) as [fund|e] eqn:Ef; cbn [rbind].
  2:{ intros [= ->]. revert Ef. unfold fund_amount. destruct (fee_in_asset_p opts); [|done]. by destruct (checked_add _ _ _). }
  specialize (Hmax _ eq_refl).
  destruct (blinding_pubkey _) as [key|]; cbn [ok_or rbind]; [|done].
  destruct (address_script_pubkey _) as [script|]; cbn [ok_or rbind]; [|done].
  unfold fund_swap. set (s := mkSelection _ _ _). pose proof (init_selects st c w (network_genesis_hash net) : selects st w [] s) as Hs. clearbody s.
  destruct (select_covering st w utxos (op_asset_p opts) fund s) as [[sel s1]|e] eqn:E1; cbn [rbind].
  - apply (select_covering_ok st w _ _ _ [] _ _ _ Hs) in E1 as (k & Hs1 & _).
    change (taker_funds_fee opts && negb (fee_in_asset_p opts)) with (third_fee opts).
    destruct (third_fee opts); [|done].
    destruct (select_covering st w utxos (op_fee_asset opts) _ s1) as [[fsel s2]|e] eqn:E2; cbn [rbind]; [done|].
    intros [= ->]. apply (select_covering_short st c w _ _ _ _ _ _ _ _ Hs1 Hv Hf) in E2 as (-> & -> & Hm & Hh).
    split_and!; [done|done|]. by right.
  - intros [= ->]. apply (select_covering_short st c w _ _ _ _ _ _ _ _ Hs Hv Hmax) in E1 as (-> & -> & Hm & Hh).
    split_and!; [done|done|]. left. by rewrite Hh.
Qed.

(** ** Concrete requests *)

Import WolletSample.
Import BlindSample.
Import DexSample.
Import TakeSample.

Module SwapSample.
#[local] Existing Instance Model.Secp_model.
Export PsetSample PsetCodecSample.

(** The wallet has 5000 of an asset and 100000 of the policy asset. *)
Definition receive : Address := mkAddress LIQUID (default (WitnessProgram 0 []) (payload_of_script mine0)) (Some (pk_inner (bkey 72))).
Definition send (n fee : Z) (fa : AssetId) : SeqdexSwapRequestOpts := mkSwapOpts usd n (hash Byte.x55) 777 receive fa fee 0.
Definition request (o : SeqdexSwapRequestOpts) : result SeqdexSwapRequest build_error :=
  seqdex_swap_request memory_store taker.1 taker.2 id [Byte.x01] BuilderSample.network o.
Definition sent (o : SeqdexSwapRequestOpts) : SeqdexSwapRequest :=
  match request o with Ok r => r | Err _ => mkSwapRequest [] 0 [] 0 [] [] [] end.
Lemma sent_ok o : is_ok (request o) = true -> request o = Ok (sent o).
Proof. unfold sent. by destruct (request o). Qed.
End SwapSample.
Import SwapSample.

(** 1200 are sent with a fee of 40 of the policy asset: two inputs. *)
Lemma swap_request_balances_witness :
  exists p us, swap_terms memory_store taker.1 taker.2 (send 1200 40 lbtc) p (sr_unblinded_inputs (sent (send 1200 40 lbtc))) us /\
    length us = 2%nat.
Proof.
  destruct (swap_request_balances memory_store taker.1 taker.2 id [Byte.x01] BuilderSample.network (send 1200 40 lbtc) (sent (send 1200 40 lbtc)))
    as (p & us & Ht & _); [done|apply sent_ok; vm_compute; reflexivity|].
  exists p, us. split; [exact Ht|].
  assert (Hl : length (sr_unblinded_inputs (sent (send 1200 40 lbtc))) = 2%nat) by (vm_compute; reflexivity).
  rewrite (st_revealed _ _ _ _ _ _ _ Ht), length_imap in Hl. exact Hl.
Defined.

(** The request of the witness: a receive output to be blinded by the third input, change of both
    assets and the fee of 40; with a fee of 99900 the change of 100 is below the dust threshold
    and goes to the fee. *)
Example fee_change_kept_or_folded :
  option_map (fun r : PartiallySignedTransaction * _ => (map (fun o => (o_amount o, blinder_index o)) (outputs r.1)))
    (ok_opt (swap_pset memory_store taker.1 taker.2 BuilderSample.network (send 1200 40 lbtc))) =
    Some [(Some 777, Some 2); (Some 3800, Some 0); (Some 99960, Some 0); (Some 40, None)] /\
  option_map (fun r : PartiallySignedTransaction * _ => (map (fun o => (o_amount o, blinder_index o)) (outputs r.1)))
    (ok_opt (swap_pset memory_store taker.1 taker.2 BuilderSample.network (send 1200 99900 lbtc))) =
    Some [(Some 777, Some 2); (Some 3800, Some 0); (Some 100000, None)].
Proof. split; vm_compute; reflexivity. Qed.

(** Too little of the asset that is sent with its fee, and a fee in the asset that is received. *)
Example swap_requests_refused :
  match request (send 4990 40 usd) with Err (InsufficientFunds m a _) => m = 30 /\ a = usd | _ => False end /\
  match request (send 10 1 (hash Byte.x55)) with Err (WolletErr (Generic _)) => True | _ => False end.
Proof. vm_compute. split; [split; reflexivity|exact I]. Qed.
