(* ===== verification/Adaptor.v ===== *)
(** * Schnorr adaptor signatures

    [lwk_wollet/src/adaptor.rs]: the pre-signature that couples the two legs of an atomic swap,
    its verification, completion and the extraction of the secret.

    Keys, points and scalars of [secp256k1] are parameters; their laws say that the points are the
    nonzero multiples of a generator of the order below, with a logarithm [dlog] that only the
    proofs use, and that a point and its negation are the two points of an x coordinate. *)

From S2P Require Import Prelude Encode Sighash BlindBalance.

Inductive Parity := ParityEven | ParityOdd.
#[export] Instance Parity_eq_dec : EqDecision Parity.
Proof. solve_decision. Defined.
Definition flip (p : Parity) : Parity := match p with ParityEven => ParityOdd | ParityOdd => ParityEven end.

Class Curve :=
  { SecretKey : ext_type;
    PublicKey : ext_type;
    XOnlyPublicKey : ext_type;
    Scalar : Type;
    Scalar_from_be_bytes : bytes -> option Scalar;
    Scalar_from : SecretKey -> Scalar;
    sk_negate : SecretKey -> SecretKey;
    sk_add_tweak : SecretKey -> Scalar -> option SecretKey;
    sk_mul_tweak : SecretKey -> Scalar -> option SecretKey;
    from_secret_key : SecretKey -> PublicKey;
    pk_negate : PublicKey -> PublicKey;
    pk_combine : PublicKey -> PublicKey -> option PublicKey;
    pk_mul_tweak : PublicKey -> Scalar -> option PublicKey;
    x_only_public_key : PublicKey -> XOnlyPublicKey * Parity;
    public_key : XOnlyPublicKey -> Parity -> PublicKey }.

Inductive adaptor_error :=
| ScalarZero
| CombinedInfinity
| ChallengeZero
| PresigZero
| BadCombinedNonce
| BadPresigScalar
| BadSignatureScalar
| NonceMismatch
| CompletedZero
| ExtractedZero
| AdaptorPanic.

Definition PRESIG_LEN : nat := 65.
Definition SIG_LEN : nat := 64.
Definition CURVE_ORDER : bytes := map z2b
  [0xFF; 0xFF; 0xFF; 0xFF; 0xFF; 0xFF; 0xFF; 0xFF; 0xFF; 0xFF; 0xFF; 0xFF; 0xFF; 0xFF; 0xFF; 0xFE;
   0xBA; 0xAE; 0xDC; 0xE6; 0xAF; 0x48; 0xA0; 0x3B; 0xBF; 0xD2; 0x5E; 0x8C; 0xD0; 0x36; 0x41; 0x41].

(** ** Reduction modulo the order *)

(** The first loop of [reduce_mod_n], from the most significant byte. *)
Fixpoint ge_loop (l o : bytes) : bool :=
  match l, o with
  | a :: l, b :: o => if b2z a <? b2z b then false else if b2z b <? b2z a then true else ge_loop l o
  | _, _ => true
  end.

(** The second loop, from the least significant byte: the difference and the borrow. *)
Fixpoint sub_loop (l o : bytes) : bytes * Z :=
  match l, o with
  | a :: l, b :: o =>
      let '(r, borrow) := sub_loop l o in
      let diff := b2z a - b2z b - borrow in
      if diff <? 0 then (z2b (diff + 256) :: r, 1) else (z2b diff :: r, 0)
  | _, _ => ([], 0)
  end.

Definition reduce_mod_n (l : bytes) : bytes :=
  if negb (ge_loop l CURVE_ORDER) then l else (sub_loop l CURVE_ORDER).1.

Section adaptor.
Context {H : Hashes} {C : Curve}.

Definition chunks_hash (tag : bytes) (chunks : list bytes) : bytes := tagged_hash tag (concat chunks).

Definition scalar_reduced (l : bytes) : result Scalar adaptor_error :=
  ok_or (Scalar_from_be_bytes (reduce_mod_n l)) AdaptorPanic.
Definition scalar_secret (l : bytes) : result SecretKey adaptor_error :=
  ok_or (ext_parse (reduce_mod_n l)) ScalarZero.

Definition has_even_y (p : PublicKey) : bool := bool_decide ((x_only_public_key p).2 = ParityEven).

Definition challenge (r_comb : PublicKey) (px msg : bytes) : result Scalar adaptor_error :=
  let (rx, _) := x_only_public_key r_comb in
  scalar_reduced (chunks_hash (str "BIP0340/challenge") [ext_ser rx; px; msg]).

(** ** The four functions *)

Definition xor_bytes (a b : bytes) : bytes := zip_with (fun x y => z2b (Z.lxor (b2z x) (b2z y))) a b.

Definition adaptor_sign (d : SecretKey) (msg : bytes) (t_point : PublicKey) : result bytes adaptor_error :=
  let (xonly, parity) := x_only_public_key (from_secret_key d) in
  let d := if bool_decide (parity = ParityOdd) then sk_negate d else d in
  let px := ext_ser xonly in
  let t_compressed := ext_ser t_point in
  let aux := chunks_hash (str "BIP0340/aux") [replicate 32 Byte.x00] in
  let t_aux := xor_bytes (ext_ser d) aux in
  let? k := scalar_secret (chunks_hash (str "BIP0340/nonce") [t_aux; px; t_compressed; msg]) in
  let r := from_secret_key k in
  let? r_comb := ok_or (pk_combine r t_point) CombinedInfinity in
  let? e := challenge r_comb px msg in
  let? ed := ok_or (sk_mul_tweak d e) ChallengeZero in
  let? s_hat := ok_or (if has_even_y r_comb then sk_add_tweak k (Scalar_from ed)
                       else sk_add_tweak ed (Scalar_from (sk_negate k))) PresigZero in
  Ok (ext_ser r_comb ++ ext_ser s_hat).

Definition adaptor_verify (p_xonly : XOnlyPublicKey) (msg : bytes) (t_point : PublicKey) (presig : bytes)
  : result bool adaptor_error :=
  match ext_parse (take 33 presig) with
  | None => Ok false
  | Some r_comb =>
      match ext_parse (drop 33 presig) with
      | None => Ok false
      | Some s_hat =>
          let px := ext_ser p_xonly in
          let p := public_key p_xonly ParityEven in
          let? e := challenge r_comb px msg in
          match pk_combine r_comb (pk_negate t_point) with
          | None => Ok false
          | Some r0 =>
              let u := if has_even_y r_comb then r0 else pk_negate r0 in
              match pk_mul_tweak p e with
              | None => Ok false
              | Some ep =>
                  match pk_combine u ep with
                  | None => Ok false
                  | Some rhs => Ok (bool_decide (ext_ser (from_secret_key s_hat) = ext_ser rhs))
                  end
              end
          end
      end
  end.

Definition adaptor_complete (presig : bytes) (t : SecretKey) : result bytes adaptor_error :=
  let? r_comb := ok_or (ext_parse (take 33 presig) : option PublicKey) BadCombinedNonce in
  let? s_hat := ok_or (ext_parse (drop 33 presig)) BadPresigScalar in
  let? s := ok_or (if has_even_y r_comb then sk_add_tweak s_hat (Scalar_from t)
                   else sk_add_tweak s_hat (Scalar_from (sk_negate t))) CompletedZero in
  let (rx, _) := x_only_public_key r_comb in
  Ok (ext_ser rx ++ ext_ser s).

Definition adaptor_extract (full_sig presig : bytes) : result bytes adaptor_error :=
  let? r_comb := ok_or (ext_parse (take 33 presig) : option PublicKey) BadCombinedNonce in
  let? s_hat := ok_or (ext_parse (drop 33 presig)) BadPresigScalar in
  let? s := ok_or (ext_parse (drop 32 full_sig)) BadSignatureScalar in
  let (rx, _) := x_only_public_key r_comb in
  if bool_decide (ext_ser rx <> take 32 full_sig) then Err NonceMismatch
  else
    let? t := ok_or (if has_even_y r_comb then sk_add_tweak s (Scalar_from (sk_negate s_hat))
                     else sk_add_tweak s_hat (Scalar_from (sk_negate s))) ExtractedZero in
    Ok (ext_ser t).
End adaptor.

(** ** The reduction is the remainder *)

Lemma be_val_cons b l : be_val (b :: l) = b2z b * 256 ^ zlen l + be_val l.
Proof.
  unfold be_val. cbn [rev]. rewrite le_val_app, length_rev. cbn [le_val]. unfold zlen. lia.
Qed.

Lemma be_val_bound l : 0 <= be_val l < 256 ^ zlen l.
Proof. unfold be_val, zlen. rewrite <-(length_rev l). split; [apply le_val_nonneg|apply le_val_bound]. Qed.

Lemma ge_loop_val l o : length l = length o -> ge_loop l o = (be_val o <=? be_val l).
Proof.
  revert o. induction l as [|a l IH]; intros [|b o]; [done..|]. intros [= Hl]. cbn [ge_loop].
  rewrite !be_val_cons. pose proof (be_val_bound l). pose proof (be_val_bound o).
  assert (Hz : zlen o = zlen l) by (unfold zlen; lia). rewrite Hz in *.
  destruct (Z.ltb_spec (b2z a) (b2z b)); [symmetry; apply Z.leb_gt; nia|].
  destruct (Z.ltb_spec (b2z b) (b2z a)); [symmetry; apply Z.leb_le; nia|].
  assert (b2z a = b2z b) as -> by lia. rewrite IH by done.
  destruct (Z.leb_spec (be_val o) (be_val l)), (Z.leb_spec (b2z b * 256 ^ zlen l + be_val o) (b2z b * 256 ^ zlen l + be_val l)); lia.
Qed.

Lemma sub_loop_val l o : length l = length o ->
  let '(r, borrow) := sub_loop l o in
  length r = length l /\ 0 <= borrow <= 1 /\ be_val r = be_val l - be_val o + borrow * 256 ^ zlen l.
Proof.
  revert o. induction l as [|a l IH]; intros [|b o]; [done..|]. intros [= Hl]. cbn [sub_loop].
  specialize (IH o Hl). destruct (sub_loop l o) as [r borrow]. destruct IH as (Hr & Hb & Hv).
  pose proof (b2z_range a). pose proof (b2z_range b).
  assert (Hz : zlen o = zlen l /\ zlen r = zlen l /\ zlen (a :: l) = zlen l + 1) by (unfold zlen; cbn; lia).
  destruct Hz as (Hzo & Hzr & Hza).
  destruct (Z.ltb_spec (b2z a - b2z b - borrow) 0); rewrite !be_val_cons, Hzo, Hzr, Hza, Hv, Z.pow_add_r, b2z_z2b_small
    by (unfold zlen; lia); cbn [length]; (split_and!; [lia|lia|lia|nia]).
Qed.

Lemma CURVE_ORDER_val : be_val CURVE_ORDER = curve_order.
Proof. reflexivity. Qed.

(** [reduce_mod_n] is the remainder modulo the order of the curve, on 32 bytes. *)
Theorem reduce_mod_n_correct l :
  length l = 32%nat -> length (reduce_mod_n l) = 32%nat /\ be_val (reduce_mod_n l) = be_val l mod curve_order.
Proof.
  intros Hl. unfold reduce_mod_n. rewrite ge_loop_val, CURVE_ORDER_val by done.
  pose proof (be_val_bound l) as Hb. assert (Hz : zlen l = 32) by (unfold zlen; lia). rewrite Hz in Hb.
  destruct (Z.leb_spec curve_order (be_val l)) as [Hge|Hlt]; cbn [negb].
  - pose proof (sub_loop_val l CURVE_ORDER Hl) as Hs. destruct (sub_loop l CURVE_ORDER) as [r borrow].
    destruct Hs as (Hr & Hbo & Hv). cbn [fst]. rewrite CURVE_ORDER_val, Hz in Hv. split; [lia|].
    assert (Hlt : be_val l - curve_order < curve_order) by (unfold curve_order; lia).
    pose proof (be_val_bound r) as Hbr. assert (Hzr : zlen r = 32) by (unfold zlen; lia). rewrite Hzr in Hbr.
    assert (borrow = 0) as -> by lia. rewrite Hv. apply Zmod_unique with 1; unfold curve_order in *; lia.
  - split; [done|]. symmetry. apply Z.mod_small. lia.
Qed.

(** ** The laws of the curve *)

(** The number that a key serializes to. *)
Definition kv {C : Curve} (k : SecretKey) : Z := be_val (ext_ser k).

Class CurveLaws {C : Curve} :=
  { dlog : PublicKey -> Z;
    sval : Scalar -> Z;
    key_length (k : SecretKey) : length (ext_ser k) = 32%nat;
    key_range k : 0 < kv k < curve_order;
    key_parse l : length l = 32%nat -> 0 < be_val l < curve_order -> exists k : SecretKey, ext_parse l = Some k;
    key_strict bs (k : SecretKey) : ext_parse bs = Some k -> ext_ser k = bs;
    point_length (p : PublicKey) : length (ext_ser p) = 33%nat;
    point_strict bs (p : PublicKey) : length bs = 33%nat -> ext_parse bs = Some p -> ext_ser p = bs;
    xonly_length (x : XOnlyPublicKey) : length (ext_ser x) = 32%nat;
    scalar_parse l : length l = 32%nat -> be_val l < curve_order -> exists s, Scalar_from_be_bytes l = Some s /\ sval s = be_val l;
    scalar_from k : sval (Scalar_from k) = kv k;
    negate_val k : cong (kv (sk_negate k)) (- kv k);
    add_some k s k' : sk_add_tweak k s = Some k' -> cong (kv k') (kv k + sval s);
    add_none k s : sk_add_tweak k s = None -> cong (kv k + sval s) 0;
    mul_some k s k' : sk_mul_tweak k s = Some k' -> cong (kv k') (kv k * sval s);
    (** the points are the nonzero multiples of the generator *)
    dlog_range p : 0 < dlog p < curve_order;
    dlog_inj p q : dlog p = dlog q -> p = q;
    dlog_pub k : dlog (from_secret_key k) = kv k;
    dlog_negate p : cong (dlog (pk_negate p)) (- dlog p);
    combine_some p q r : pk_combine p q = Some r -> cong (dlog r) (dlog p + dlog q);
    combine_none p q : pk_combine p q = None -> cong (dlog p + dlog q) 0;
    pmul_some p s r : pk_mul_tweak p s = Some r -> cong (dlog r) (dlog p * sval s);
    pmul_none p s : pk_mul_tweak p s = None -> cong (dlog p * sval s) 0;
    (** two points have an x coordinate, of different parity *)
    x_only_negate p : x_only_public_key (pk_negate p) = ((x_only_public_key p).1, flip (x_only_public_key p).2);
    x_only_same p q : (x_only_public_key p).1 = (x_only_public_key q).1 -> q = p \/ q = pk_negate p;
    x_only_lift x par : x_only_public_key (public_key x par) = (x, par) }.

Section laws.
Context {H : Hashes} {C : Curve} {L : CurveLaws}.
#[local] Set Default Proof Using "All".

#[local] Instance cong_mul : Proper (cong ==> cong ==> cong) Z.mul.
Proof. intros x x' [k ->] y y' [j ->]. exists (k * y' + x' * j + k * j * curve_order). ring. Qed.

Lemma cong_small x y : 0 <= x < curve_order -> 0 <= y < curve_order -> cong x y -> x = y.
Proof. intros Hx Hy [k Hk]. assert (k = 0) by nia. lia. Qed.

Lemma dlog_cong p q : cong (dlog p) (dlog q) -> p = q.
Proof. intros Hc. apply dlog_inj, cong_small; [pose proof (dlog_range p); lia|pose proof (dlog_range q); lia|done]. Qed.
Lemma kv_cong k k' : cong (kv k) (kv k') -> k = k'.
Proof.
  intros Hc. apply cong_small in Hc; [|pose proof (key_range k); lia|pose proof (key_range k'); lia].
  apply ext_ser_inj. unfold kv, be_val in Hc. apply le_val_inj in Hc; [|by rewrite !length_rev, !key_length].
  by rewrite <-(rev_involutive (ext_ser k)), Hc, rev_involutive.
Qed.
Lemma kv_nonzero k : ~ cong (kv k) 0.
Proof. intros Hc. pose proof (key_range k). apply cong_small in Hc; lia. Qed.
Lemma dlog_nonzero p : ~ cong (dlog p) 0.
Proof. intros Hc. pose proof (dlog_range p). apply cong_small in Hc; lia. Qed.

(** The sign of a nonce: that of the point with the same x coordinate and even y. *)
Definition sgn (p : PublicKey) : Z := if has_even_y p then 1 else -1.
Lemma sgn_sq p : sgn p * sgn p = 1.
Proof. unfold sgn. by destruct (has_even_y p). Qed.

Lemma lift_even p : cong (dlog (public_key (x_only_public_key p).1 ParityEven)) (sgn p * dlog p).
Proof.
  set (q := public_key _ _). pose proof (x_only_lift (x_only_public_key p).1 ParityEven : x_only_public_key q = _) as Hq.
  assert (Hx : (x_only_public_key p).1 = (x_only_public_key q).1) by (by rewrite Hq).
  unfold sgn, has_even_y. apply x_only_same in Hx as [Hx|Hx]; rewrite Hx in *; clear q Hx.
  - rewrite Hq. cbn [snd]. rewrite bool_decide_true by done. by rewrite Z.mul_1_l.
  - rewrite x_only_negate in Hq. injection Hq as Hq. destruct (x_only_public_key p).2; [done|].
    rewrite bool_decide_false by done. rewrite dlog_negate. apply reflexive_eq. lia.
Qed.

(** The challenge of a nonce, as a number. *)
Definition chal (r : PublicKey) (px msg : bytes) : Z :=
  be_val (chunks_hash (str "BIP0340/challenge") [ext_ser (x_only_public_key r).1; px; msg]).

Lemma challenge_ok r px msg : exists e, challenge r px msg = Ok e /\ cong (sval e) (chal r px msg).
Proof.
  unfold challenge, chal, scalar_reduced. destruct (x_only_public_key r) as [rx par]. cbn [fst].
  set (h := chunks_hash _ _). destruct (reduce_mod_n_correct h) as [Hl Hv]; [apply sha256_length|].
  destruct (scalar_parse (reduce_mod_n h) Hl) as (e & He & Hs).
  { rewrite Hv. apply Z.mod_pos_bound. done. }
  exists e. rewrite He, Hs, Hv. split; [done|]. apply cong_of_mod.
Qed.

(** What a pre-signature states: [s G = +-(R - T) + e P]. *)
Record presig_ok (p_xonly : XOnlyPublicKey) (msg : bytes) (t_point : PublicKey) (r : PublicKey) (s : SecretKey) : Prop := mkPresigOk
  { po_equation : cong (kv s) (sgn r * (dlog r - dlog t_point) + chal r (ext_ser p_xonly) msg * dlog (public_key p_xonly ParityEven));
    po_nonce : r <> t_point;
    po_challenge : ~ cong (chal r (ext_ser p_xonly) msg * dlog (public_key p_xonly ParityEven)) 0 }.

Lemma presig_parse (r : PublicKey) (s : SecretKey) :
  ext_parse (take 33 (ext_ser r ++ ext_ser s)) = Some r /\ ext_parse (drop 33 (ext_ser r ++ ext_ser s)) = Some s.
Proof.
  rewrite take_app_length' by (symmetry; apply point_length). rewrite drop_app_length' by (symmetry; apply point_length). by rewrite !ext_parse_ser.
Qed.

Lemma presig_split presig (r : PublicKey) (s : SecretKey) : length presig = PRESIG_LEN ->
  ext_parse (take 33 presig) = Some r -> ext_parse (drop 33 presig) = Some s -> presig = ext_ser r ++ ext_ser s.
Proof.
  intros Hl Hr%point_strict Hs%key_strict; [by rewrite Hr, Hs, take_drop|]. rewrite length_take, Hl. done.
Qed.

Lemma cong_swap x y z : cong (x - y) z -> cong x (z + y).
Proof. intros Hc. rewrite <-Hc. apply reflexive_eq. lia. Qed.

(** [adaptor_verify] decides it. *)
Lemma adaptor_verify_spec p_xonly msg t_point r s :
  adaptor_verify p_xonly msg t_point (ext_ser r ++ ext_ser s) = Ok true <-> presig_ok p_xonly msg t_point r s.
Proof.
  unfold adaptor_verify. destruct (presig_parse r s) as [-> ->]. set (p := public_key p_xonly ParityEven).
  destruct (challenge_ok r (ext_ser p_xonly) msg) as (e & -> & He). cbn [rbind].
  destruct (pk_combine r (pk_negate t_point)) as [r0|] eqn:E0.
  2:{ split; [done|]. intros [_ Hn _]. destruct Hn. apply combine_none in E0. rewrite dlog_negate in E0.
      apply dlog_cong. apply (cong_swap _ _ _ E0). }
  apply combine_some in E0. rewrite dlog_negate in E0.
  assert (Hnr : r <> t_point).
  { intros ->. apply (dlog_nonzero r0). rewrite E0. apply reflexive_eq. lia. }
  destruct (pk_mul_tweak p e) as [ep|] eqn:E1.
  2:{ split; [done|]. intros [_ _ Hc]. destruct Hc. apply pmul_none in E1. rewrite He in E1. by rewrite Z.mul_comm. }
  apply pmul_some in E1. rewrite He in E1.
  assert (Hu : cong (dlog (if has_even_y r then r0 else pk_negate r0)) (sgn r * (dlog r - dlog t_point))).
  { unfold sgn. destruct (has_even_y r); [rewrite E0|rewrite dlog_negate, E0]; apply reflexive_eq; lia. }
  set (u := if has_even_y r then r0 else _) in *. fold p.
  assert (Hc : ~ cong (chal r (ext_ser p_xonly) msg * dlog p) 0).
  { intros Hc. apply (dlog_nonzero ep). by rewrite E1, Z.mul_comm. }
  destruct (pk_combine u ep) as [rhs|] eqn:E2.
  - apply combine_some in E2. rewrite Hu, E1, (Z.mul_comm (dlog p)) in E2. split.
    + intros [= Hs%bool_decide_eq_true%ext_ser_inj]. split; [|done|exact Hc]. by rewrite <-dlog_pub, Hs.
    + intros [Hs _ _]. f_equal. apply bool_decide_eq_true_2. f_equal. apply dlog_cong. rewrite dlog_pub, Hs. fold p. by rewrite <-E2.
  - apply combine_none in E2. rewrite Hu, E1, (Z.mul_comm (dlog p)) in E2. split; [done|]. intros [Hs _ _].
    destruct (kv_nonzero s). rewrite Hs. exact E2.
Qed.

(** ** Signing *)

Lemma sign_odd k : sk_negate (sk_negate k) = k.
Proof. apply kv_cong. rewrite !negate_val. apply reflexive_eq. lia. Qed.

(** The key of the signer, with the parity that BIP 340 asks for. *)
Lemma normalized_key d :
  cong (kv (if bool_decide ((x_only_public_key (from_secret_key d)).2 = ParityOdd) then sk_negate d else d))
    (dlog (public_key (x_only_public_key (from_secret_key d)).1 ParityEven)).
Proof.
  rewrite lift_even, dlog_pub. unfold sgn, has_even_y. destruct (x_only_public_key (from_secret_key d)).2; cbn [snd].
  - rewrite bool_decide_false by done. rewrite bool_decide_true by done. apply reflexive_eq. lia.
  - rewrite bool_decide_true by done. rewrite bool_decide_false by done. rewrite negate_val. apply reflexive_eq. lia.
Qed.

Lemma signed_scalar r (a b s : SecretKey) :
  (if has_even_y r then sk_add_tweak a (Scalar_from b) else sk_add_tweak b (Scalar_from (sk_negate a))) = Some s ->
  cong (kv s) (sgn r * kv a + kv b).
Proof.
  unfold sgn. destruct (has_even_y r); intros Hs%add_some; rewrite Hs, scalar_from, ?negate_val; apply reflexive_eq; lia.
Qed.

Lemma adaptor_sign_ok d msg t_point presig :
  adaptor_sign d msg t_point = Ok presig ->
  exists r s, presig = ext_ser r ++ ext_ser s /\ presig_ok (x_only_public_key (from_secret_key d)).1 msg t_point r s.
Proof.
  unfold adaptor_sign. pose proof (normalized_key d) as Hd. destruct (x_only_public_key (from_secret_key d)) as [xonly parity].
  cbn [fst snd] in *. set (d' := if bool_decide (parity = ParityOdd) then _ else d) in *. set (p := public_key xonly ParityEven) in *.
  intros (k & _ & Hr)%rbind_ok. apply rbind_ok in Hr as (r & Er%ok_or_ok%combine_some & Hr).
  destruct (challenge_ok r (ext_ser xonly) msg) as (e & Ee & He). rewrite Ee in Hr. cbn [rbind] in Hr.
  apply rbind_ok in Hr as (ed & Eed%ok_or_ok%mul_some & Hr). rewrite He, Hd in Eed.
  apply rbind_ok in Hr as (s & Es%ok_or_ok%signed_scalar & [= <-]). rewrite dlog_pub in Er. exists r, s. split; [done|]. split.
  - rewrite Es, Er, Eed. fold p. apply reflexive_eq. lia.
  - intros ->. apply (kv_nonzero k). transitivity (dlog t_point - dlog t_point); [|apply reflexive_eq; lia].
    rewrite Er at 1. apply reflexive_eq. lia.
  - intros Hz. apply (kv_nonzero ed). rewrite Eed. fold p in Hz. by rewrite Z.mul_comm.
Qed.

(** ** Completion and extraction *)

(** BIP 340 verification: [sig] is the x coordinate of a point [r] with even y, and a scalar [s]
    with [s G = r + e P]. *)
Definition bip340_valid (p_xonly : XOnlyPublicKey) (msg sig : bytes) : Prop :=
  length sig = SIG_LEN /\ be_val (drop 32 sig) < curve_order /\
  exists r, has_even_y r = true /\ take 32 sig = ext_ser (x_only_public_key r).1 /\
    cong (be_val (drop 32 sig)) (dlog r + chal r (ext_ser p_xonly) msg * dlog (public_key p_xonly ParityEven)).

Lemma sig_split (x : XOnlyPublicKey) (s : SecretKey) :
  take 32 (ext_ser x ++ ext_ser s) = ext_ser x /\ drop 32 (ext_ser x ++ ext_ser s) = ext_ser s.
Proof.
  by rewrite take_app_length', drop_app_length' by (symmetry; apply xonly_length).
Qed.

Lemma adaptor_complete_unfold (r : PublicKey) (s t : SecretKey) :
  match adaptor_complete (ext_ser r ++ ext_ser s) t with
  | Ok sig => exists s', sig = ext_ser (x_only_public_key r).1 ++ ext_ser s' /\ cong (kv s') (kv s + sgn r * kv t)
  | Err e => e = CompletedZero
  end.
Proof.
  unfold adaptor_complete. destruct (presig_parse r s) as [-> ->]. cbn [ok_or rbind].
  assert (Hs : forall s', (if has_even_y r then sk_add_tweak s (Scalar_from t) else sk_add_tweak s (Scalar_from (sk_negate t))) = Some s' ->
    cong (kv s') (kv s + sgn r * kv t)).
  { intros s'. unfold sgn. destruct (has_even_y r); intros Hs%add_some; rewrite Hs, scalar_from, ?negate_val; apply reflexive_eq; lia. }
  destruct (if has_even_y r then _ else _) as [s'|]; [|done]. cbn [ok_or rbind].
  destruct (x_only_public_key r) as [rx par]. exists s'. split; [done|]. by apply Hs.
Qed.

(** The scalar that is extracted: [+-(s' - s)], unless it is zero. *)
Lemma adaptor_extract_unfold (r : PublicKey) (s s' : SecretKey) v :
  ~ cong v 0 -> cong v (sgn r * (kv s' - kv s)) ->
  exists t, adaptor_extract (ext_ser (x_only_public_key r).1 ++ ext_ser s') (ext_ser r ++ ext_ser s) = Ok (ext_ser t) /\ cong (kv t) v.
Proof.
  intros Hv Hc. unfold adaptor_extract. destruct (presig_parse r s) as [-> ->]. cbn [ok_or rbind].
  destruct (sig_split (x_only_public_key r).1 s') as [-> ->]. rewrite ext_parse_ser. cbn [ok_or rbind].
  destruct (if has_even_y r then _ else _) as [t|] eqn:Et.
  - exists t. assert (Ht : cong (kv t) v).
    { rewrite Hc. revert Et. unfold sgn. destruct (has_even_y r); intros Hs%add_some; rewrite Hs, scalar_from, negate_val; apply reflexive_eq; lia. }
    destruct (x_only_public_key r) as [rx par]. cbn [fst]. rewrite bool_decide_false by (by intros []). done.
  - destruct Hv. rewrite Hc. revert Et. unfold sgn.
    destruct (has_even_y r); intros Hs%add_none; rewrite <-Hs, scalar_from, negate_val; apply reflexive_eq; lia.
Qed.

(** The nonce of a signature with the x coordinate of [r]. *)
Lemma even_nonce r q : (x_only_public_key r).1 = (x_only_public_key q).1 -> has_even_y q = true -> cong (dlog q) (sgn r * dlog r).
Proof.
  intros Hx Hq. apply x_only_same in Hx as [-> | ->].
  - unfold sgn. rewrite Hq. apply reflexive_eq. lia.
  - unfold sgn, has_even_y in *. apply bool_decide_eq_true in Hq. rewrite x_only_negate in Hq. cbn [snd] in Hq.
    destruct (x_only_public_key r).2; [done|]. rewrite bool_decide_false by done. rewrite dlog_negate. apply reflexive_eq. lia.
Qed.

Lemma chal_x r q px msg : (x_only_public_key r).1 = (x_only_public_key q).1 -> chal r px msg = chal q px msg.
Proof. unfold chal. by intros ->. Qed.

(** The pre-signatures of the signer are accepted by the verifier. *)
Theorem adaptor_sign_verifies d msg t_point presig :
  adaptor_sign d msg t_point = Ok presig ->
  length presig = PRESIG_LEN /\ adaptor_verify (x_only_public_key (from_secret_key d)).1 msg t_point presig = Ok true.
Proof.
  intros (r & s & -> & Hok)%adaptor_sign_ok. split; [|by apply adaptor_verify_spec].
  by rewrite length_app, point_length, key_length.
Qed.

Lemma completed_valid p_xonly msg t r s s' :
  presig_ok p_xonly msg (from_secret_key t) r s -> cong (kv s') (kv s + sgn r * kv t) ->
  bip340_valid p_xonly msg (ext_ser (x_only_public_key r).1 ++ ext_ser s').
Proof.
  intros [Heq _ _] Hs. unfold bip340_valid. destruct (sig_split (x_only_public_key r).1 s') as [-> ->].
  split_and!; [by rewrite length_app, xonly_length, key_length|apply key_range|].
  set (q := public_key (x_only_public_key r).1 ParityEven). pose proof (x_only_lift _ _ : x_only_public_key q = _) as Hq.
  exists q. split_and!; [unfold has_even_y; by rewrite Hq|by rewrite Hq|].
  assert (Hx : (x_only_public_key r).1 = (x_only_public_key q).1) by (by rewrite Hq).
  rewrite <-(chal_x r q) by done. rewrite (lift_even r : cong (dlog q) _). fold (kv s'). rewrite Hs, Heq, dlog_pub.
  apply reflexive_eq. lia.
Qed.

Lemma verified_split p_xonly msg t_point presig :
  length presig = PRESIG_LEN -> adaptor_verify p_xonly msg t_point presig = Ok true ->
  exists (r : PublicKey) (s : SecretKey), presig = ext_ser r ++ ext_ser s /\ presig_ok p_xonly msg t_point r s.
Proof.
  intros Hl Hv. pose proof Hv as Hv'. unfold adaptor_verify in Hv. destruct (ext_parse (take 33 presig)) as [r|] eqn:Er; [|done].
  destruct (ext_parse (drop 33 presig)) as [s|] eqn:Es; [|done]. clear Hv. exists r, s.
  rewrite (presig_split presig r s Hl Er Es) in Hv' |- *. split; [done|]. by apply adaptor_verify_spec.
Qed.

(** Who knows the secret [t] of the point completes a verified pre-signature to a signature that
    BIP 340 accepts, unless the sum is zero, and from that signature [t] is extracted again. *)
Lemma adaptor_completes p_xonly msg t presig :
  length presig = PRESIG_LEN -> adaptor_verify p_xonly msg (from_secret_key t) presig = Ok true ->
  match adaptor_complete presig t with
  | Ok sig => bip340_valid p_xonly msg sig /\ adaptor_extract sig presig = Ok (ext_ser t)
  | Err e => e = CompletedZero
  end.
Proof.
  intros Hl Hv. destruct (verified_split _ _ _ _ Hl Hv) as (r & s & -> & Hok). clear Hl Hv. pose proof (adaptor_complete_unfold r s t) as Hc.
  destruct (adaptor_complete _ t) as [sig|e]; [|done]. destruct Hc as (s' & -> & Hs). split; [by apply (completed_valid _ _ t r s)|].
  destruct (adaptor_extract_unfold r s s' (kv t)) as (t' & -> & Ht); [apply kv_nonzero| |].
  - rewrite Hs. transitivity (sgn r * sgn r * kv t); [rewrite sgn_sq|]; apply reflexive_eq; lia.
  - by rewrite (kv_cong _ _ Ht).
Qed.

(** Conversely whatever signature with the same nonce is published for the message, by whatever
    means, it reveals the secret of the point. *)
Lemma adaptor_extracts p_xonly msg t_point presig sig :
  length presig = PRESIG_LEN -> adaptor_verify p_xonly msg t_point presig = Ok true -> bip340_valid p_xonly msg sig ->
  match adaptor_extract sig presig with
  | Ok b => exists t, b = ext_ser t /\ from_secret_key t = t_point
  | Err NonceMismatch => forall r, ext_parse (take 33 presig) = Some r -> take 32 sig <> ext_ser (x_only_public_key r).1
  | Err e => e = BadSignatureScalar /\ be_val (drop 32 sig) = 0
  end.
Proof.
  intros Hl Hv (Hlen & Hlt & q & Hq & Hx & Heq). destruct (verified_split _ _ _ _ Hl Hv) as (r & s & -> & [Hs _ _]). clear Hl Hv.
  destruct (decide (be_val (drop 32 sig) = 0)) as [Hz|Hz].
  { unfold adaptor_extract. destruct (presig_parse r s) as [-> ->]. cbn [ok_or rbind].
    destruct (ext_parse (drop 32 sig)) as [k|] eqn:Ek; [|done]. apply key_strict in Ek.
    pose proof (key_range k). unfold kv in *. rewrite Ek in *. lia. }
  destruct (key_parse (drop 32 sig)) as [s' Hs']; [rewrite length_drop, Hlen; done|pose proof (be_val_bound (drop 32 sig)); lia|].
  pose proof (key_strict _ _ Hs') as Hs2. assert (Hkv : kv s' = be_val (drop 32 sig)) by (unfold kv; by rewrite Hs2).
  destruct (decide (ext_ser (x_only_public_key r).1 = take 32 sig)) as [Hn|Hn].
  - assert (Hxx : (x_only_public_key r).1 = (x_only_public_key q).1) by (apply ext_ser_inj; congruence).
    assert (sig = ext_ser (x_only_public_key r).1 ++ ext_ser s') as -> by (by rewrite Hn, Hs2, take_drop).
    rewrite (even_nonce r q Hxx Hq), <-(chal_x r q _ _ Hxx), <-Hkv in Heq.
    destruct (adaptor_extract_unfold r s s' (dlog t_point)) as (t & -> & Ht); [apply dlog_nonzero| |].
    + rewrite Heq, Hs. transitivity (sgn r * sgn r * dlog t_point); [rewrite sgn_sq|]; apply reflexive_eq; lia.
    + exists t. split; [done|]. apply dlog_cong. by rewrite dlog_pub.
  - unfold adaptor_extract. destruct (presig_parse r s) as [-> ->]. rewrite Hs'. cbn [ok_or rbind].
    destruct (x_only_public_key r) as [rx par] eqn:Er. cbn [fst] in Hn. rewrite bool_decide_true by done.
    intros r' [= <-]. rewrite Er. cbn. congruence.
Qed.

End laws.

(** ** A concrete curve *)

(** The group of the numbers modulo the order: a point is its own logarithm, with a compressed
    form of a parity byte and the smaller of the number and its negation. *)
Module CurveSample.
Import BlindSample.

Definition x_check (l : bytes) : bool := (length l =? 32)%nat && (0 <? be_val l) && (2 * be_val l <? curve_order).
Definition pt_check (l : bytes) : bool :=
  match l with p :: x => ((b2z p =? 2) || (b2z p =? 3)) && x_check x | [] => false end.
Definition toy_x : ext_type := Model.checked_ext x_check.
Definition toy_pt : ext_type := Model.checked_ext pt_check.

Definition log_bytes (l : bytes) : Z :=
  match l with p :: x => if b2z p =? 2 then be_val x else curve_order - be_val x | [] => 0 end.
Definition log_bytes_inv (z : Z) : bytes :=
  if 2 * z <? curve_order then z2b 2 :: be_bytes z else z2b 3 :: be_bytes (curve_order - z).
Definition x_one : toy_x := exist _ (be_bytes 1) eq_refl.
Definition pt_one : toy_pt := exist _ (z2b 2 :: be_bytes 1) eq_refl.
Definition to_pt (z : Z) : toy_pt := parse_or pt_one (log_bytes_inv (z mod curve_order)).
Definition pt_log (p : toy_pt) : Z := log_bytes (ext_ser p).
Definition nonzero {A} (z : Z) (f : Z -> A) : option A := if z mod curve_order =? 0 then None else Some (f z).
Definition pt_x (p : toy_pt) : toy_x := parse_or x_one (drop 1 (ext_ser p)).
Definition pt_parity (p : toy_pt) : Parity :=
  match ext_ser p with q :: _ => if b2z q =? 2 then ParityEven else ParityOdd | [] => ParityEven end.
Definition parity_byte (p : Parity) : byte := z2b (match p with ParityEven => 2 | ParityOdd => 3 end).

Definition Curve_model : Curve :=
  {| SecretKey := toy_key;
     PublicKey := toy_pt;
     XOnlyPublicKey := toy_x;
     Scalar := Z;
     Scalar_from_be_bytes l := Some (be_val l);
     Scalar_from := key_val;
     sk_negate k := to_key (- key_val k);
     sk_add_tweak k s := nonzero (key_val k + s) to_key;
     sk_mul_tweak k s := nonzero (key_val k * s) to_key;
     from_secret_key k := to_pt (key_val k);
     pk_negate p := to_pt (- pt_log p);
     pk_combine p q := nonzero (pt_log p + pt_log q) to_pt;
     pk_mul_tweak p s := nonzero (pt_log p * s) to_pt;
     x_only_public_key p := (pt_x p, pt_parity p);
     public_key x p := parse_or pt_one (parity_byte p :: ext_ser x) |}.
#[export] Existing Instance Curve_model.

Lemma order_256 : curve_order < 256 ^ Z.of_nat 32.
Proof. reflexivity. Qed.
Lemma be_val_be z : 0 <= z < curve_order -> be_val (be_bytes z) = z.
Proof. intros Hz. rewrite <-(Z.mod_small z curve_order Hz) at 1. rewrite be_val_bytes. by apply Z.mod_small. Qed.
Lemma be_bytes_val l : length l = 32%nat -> be_bytes (be_val l) = l.
Proof.
  intros Hl. unfold be_bytes, be_val. rewrite le_bytes_le_val_n by (by rewrite length_rev). apply rev_involutive.
Qed.
Lemma mod_bound z : 0 <= z mod curve_order < curve_order.
Proof. by apply Z.mod_pos_bound. Qed.

Lemma pt_ser_inv (p : toy_pt) : exists q x, ext_ser p = q :: x /\ (b2z q = 2 \/ b2z q = 3) /\ x_check x = true.
Proof.
  destruct p as [[|q x] Hp]; [done|]. exists q, x. split; [done|]. cbn [pt_check] in Hp.
  apply andb_prop in Hp as [Hq Hx]. split; [|done]. apply orb_prop in Hq as [Hq|Hq]; apply Z.eqb_eq in Hq; auto.
Qed.
Lemma x_check_inv x : x_check x = true <-> length x = 32%nat /\ 0 < be_val x /\ 2 * be_val x < curve_order.
Proof. unfold x_check. rewrite !andb_true_iff, Nat.eqb_eq, !Z.ltb_lt. tauto. Qed.

Lemma x_check_be z : 0 < z -> 2 * z < curve_order -> x_check (be_bytes z) = true.
Proof. intros Hz Hz'. apply x_check_inv. rewrite length_be_bytes, be_val_be by lia. auto. Qed.

Lemma to_pt_ser z : z mod curve_order <> 0 -> ext_ser (to_pt z) = log_bytes_inv (z mod curve_order).
Proof.
  intros Hz. pose proof (mod_bound z) as Hb. unfold to_pt. apply parse_or_ser. unfold log_bytes_inv.
  assert (Hodd : 2 * (z mod curve_order) <> curve_order) by (unfold curve_order; lia).
  destruct (Z.ltb_spec (2 * (z mod curve_order)) curve_order); cbn [pt_check]; rewrite b2z_z2b_small by lia; cbn;
    apply x_check_be; lia.
Qed.
Lemma pt_log_to_pt z : z mod curve_order <> 0 -> pt_log (to_pt z) = z mod curve_order.
Proof.
  intros Hz. pose proof (mod_bound z) as Hb. unfold pt_log. rewrite to_pt_ser by done. unfold log_bytes_inv.
  destruct (Z.ltb_spec (2 * (z mod curve_order)) curve_order); cbn [log_bytes]; rewrite b2z_z2b_small by lia; cbn [Z.eqb Pos.eqb];
    rewrite be_val_be by lia; lia.
Qed.
Lemma pt_log_range (p : toy_pt) : 0 < pt_log p < curve_order.
Proof.
  unfold pt_log. destruct (pt_ser_inv p) as (q & x & -> & Hq & (_ & H0 & H1)%x_check_inv). cbn [log_bytes].
  destruct (b2z q =? 2); lia.
Qed.
Lemma pt_log_inj (p q : toy_pt) : pt_log p = pt_log q -> p = q.
Proof.
  unfold pt_log. intros Hl. apply ext_ser_inj. destruct (pt_ser_inv p) as (a & x & Ep & Ha & Hx%x_check_inv), (pt_ser_inv q) as (b & y & Eq & Hb & Hy%x_check_inv).
  rewrite Ep, Eq in Hl |- *. cbn [log_bytes] in Hl.
  assert (Hxy : be_val x = be_val y -> x = y).
  { intros E. rewrite <-(be_bytes_val x), <-(be_bytes_val y) by tauto. by rewrite E. }
  destruct (Z.eqb_spec (b2z a) 2), (Z.eqb_spec (b2z b) 2); try lia; (f_equal; [apply b2z_inj; lia|apply Hxy; lia]).
Qed.
Lemma pt_x_ser (p : toy_pt) : ext_ser (pt_x p) = drop 1 (ext_ser p).
Proof. apply parse_or_ser. by destruct (pt_ser_inv p) as (q & x & -> & _ & Hx). Qed.
Lemma neg_mod_nonzero p : (- pt_log p) mod curve_order = curve_order - pt_log p.
Proof.
  pose proof (pt_log_range p). symmetry. apply Zmod_unique with (-1); lia.
Qed.

Lemma toy_key_range (k : toy_key) : length (ext_ser k) = 32%nat /\ 0 < key_val k < curve_order.
Proof.
  destruct k as [l Hl]. unfold key_val. cbn. apply andb_prop in Hl as [Hl Hp]. apply andb_prop in Hl as [Hl Hr].
  apply Nat.eqb_eq in Hl. apply Z.ltb_lt in Hp, Hr. split; [exact Hl|]. split; [exact Hp|exact Hr].
Qed.
Lemma toy_negate_val (k : toy_key) : cong (key_val (to_key (- key_val k))) (- key_val k).
Proof.
  destruct (toy_key_range k) as [_ Hk]. rewrite to_key_val; [apply cong_of_mod|].
  intros Hz. apply Z.mod_divide in Hz as [j Hj]; [|done]. unfold curve_order in *. nia.
Qed.
Lemma nonzero_some {A} z (f : Z -> A) a : nonzero z f = Some a -> z mod curve_order <> 0 /\ a = f z.
Proof. unfold nonzero. destruct (Z.eqb_spec (z mod curve_order) 0); [done|]. by intros [= <-]. Qed.
Lemma nonzero_none {A} z (f : Z -> A) : nonzero z f = None -> cong z 0.
Proof. unfold nonzero. destruct (Z.eqb_spec (z mod curve_order) 0); [|done]. intros _. by apply cong_mod. Qed.
Lemma nonzero_key z k : nonzero z to_key = Some k -> cong (key_val k) z.
Proof. intros [Hz ->]%nonzero_some. rewrite to_key_val by done. apply cong_of_mod. Qed.
Lemma nonzero_pt z p : nonzero z to_pt = Some p -> cong (pt_log p) z.
Proof. intros [Hz ->]%nonzero_some. rewrite pt_log_to_pt by done. apply cong_of_mod. Qed.
Lemma pt_log_negate (p : toy_pt) : pt_log (to_pt (- pt_log p)) = curve_order - pt_log p.
Proof.
  pose proof (pt_log_range p). rewrite pt_log_to_pt; rewrite neg_mod_nonzero; lia.
Qed.

(** The negation has the other parity byte. *)
Lemma negate_ser (p : toy_pt) q x : ext_ser p = q :: x -> (b2z q = 2 \/ b2z q = 3) -> x_check x = true ->
  ext_ser (to_pt (- pt_log p)) = z2b (5 - b2z q) :: x.
Proof.
  intros Ep Hq (Hl & H0 & H1)%x_check_inv. pose proof (neg_mod_nonzero p) as Hm. pose proof (pt_log_range p) as Hr.
  rewrite to_pt_ser by lia. rewrite Hm. unfold pt_log in *. rewrite Ep in *. cbn [log_bytes] in *. unfold log_bytes_inv.
  destruct (Z.eqb_spec (b2z q) 2) as [E|E].
  - rewrite (proj2 (Z.ltb_ge _ _)) by lia. rewrite E. f_equal. rewrite <-(be_bytes_val x) by done. f_equal. rewrite be_bytes_val by done. lia.
  - assert (b2z q = 3) as -> by lia. rewrite (proj2 (Z.ltb_lt _ _)) by lia. f_equal.
    rewrite <-(be_bytes_val x) by done. f_equal. rewrite be_bytes_val by done. lia.
Qed.

Lemma toy_x_negate (p : toy_pt) : (pt_x (to_pt (- pt_log p)), pt_parity (to_pt (- pt_log p))) = (pt_x p, flip (pt_parity p)).
Proof.
  destruct (pt_ser_inv p) as (q & x & Ep & Hq & Hx). pose proof (negate_ser p q x Ep Hq Hx) as En. f_equal.
  - apply ext_ser_inj. rewrite !pt_x_ser, En, Ep. done.
  - unfold pt_parity. rewrite En, Ep. by destruct Hq as [-> | ->].
Qed.
Lemma toy_x_same (p q : toy_pt) : pt_x p = pt_x q -> q = p \/ q = to_pt (- pt_log p).
Proof.
  intros E%(f_equal ext_ser). rewrite !pt_x_ser in E. destruct (pt_ser_inv p) as (a & x & Ep & Ha & Hx), (pt_ser_inv q) as (b & y & Eq & Hb & Hy).
  rewrite Ep, Eq in E. change (x = y) in E. subst y. destruct (decide (a = b)) as [<-|Hn].
  - left. apply ext_ser_inj. congruence.
  - right. apply ext_ser_inj. rewrite Eq, (negate_ser p a x Ep Ha Hx). f_equal. apply b2z_inj. rewrite b2z_z2b_small by lia.
    destruct Ha as [Ha|Ha], Hb as [Hb|Hb]; try lia; destruct Hn; apply b2z_inj; lia.
Qed.
Lemma toy_lift (x : toy_x) par : (pt_x (parse_or pt_one (parity_byte par :: ext_ser x)), pt_parity (parse_or pt_one (parity_byte par :: ext_ser x))) = (x, par).
Proof.
  assert (Hs : ext_ser (parse_or pt_one (parity_byte par :: ext_ser x)) = parity_byte par :: ext_ser x).
  { apply parse_or_ser. cbn [pt_check]. destruct x as [x Hx]. cbn. rewrite Hx. by destruct par. }
  f_equal; [apply ext_ser_inj; by rewrite pt_x_ser, Hs|]. unfold pt_parity. rewrite Hs. by destruct par.
Qed.

#[export] Instance CurveLaws_model : CurveLaws.
Proof.
  refine {| dlog := (pt_log : PublicKey -> Z); sval := (id : Scalar -> Z) |}; cbn [SecretKey PublicKey XOnlyPublicKey Scalar Curve_model].
  - intros k. apply toy_key_range.
  - intros k. apply (toy_key_range k).
  - intros l Hl Hr. destruct (checked_parse_ok key_check l) as (k & Hk & _); [|by exists k].
    unfold key_check, Model.scalar_check. rewrite Hl. apply andb_true_iff. split; [|apply Z.ltb_lt; lia]. apply Z.ltb_lt, Hr.
  - apply Model.checked_strict.
  - intros p. destruct (pt_ser_inv p) as (q & x & -> & _ & [Hl _]%x_check_inv). cbn. lia.
  - intros bs p _. apply Model.checked_strict.
  - intros [x Hx]. exact (proj1 (proj1 (x_check_inv x) Hx)).
  - intros l _ _. by exists (be_val l).
  - done.
  - apply toy_negate_val.
  - intros k t k' Hk. exact (nonzero_key _ _ Hk).
  - intros k t Hk. exact (nonzero_none _ _ Hk).
  - intros k t k' Hk. exact (nonzero_key _ _ Hk).
  - apply pt_log_range.
  - apply pt_log_inj.
  - intros k. destruct (toy_key_range k) as [_ Hk]. pose proof (Z.mod_small (key_val k) curve_order ltac:(lia)) as Hm.
    change (pt_log (to_pt (key_val k)) = key_val k). rewrite pt_log_to_pt; rewrite Hm; lia.
  - intros p. change (cong (pt_log (to_pt (- pt_log p))) (- pt_log p)). rewrite pt_log_negate. exists 1. lia.
  - intros p q r Hr. exact (nonzero_pt _ _ Hr).
  - intros p q Hr. exact (nonzero_none _ _ Hr).
  - intros p t r Hr. exact (nonzero_pt _ _ Hr).
  - intros p t Hr. exact (nonzero_none _ _ Hr).
  - apply toy_x_negate.
  - apply toy_x_same.
  - apply toy_lift.
Defined.

Export SighashSample.
Definition msg : bytes := replicate 32 Byte.x22.
Definition signer : SecretKey := to_key 5.
Definition holder : XOnlyPublicKey := (x_only_public_key (from_secret_key signer)).1.
(** A secret for which the nonce has even y, and one for which it has odd y. *)
Definition secret_even : SecretKey := to_key 7.
Definition secret_odd : SecretKey := to_key (curve_order / 3).
Definition presig (t : SecretKey) : bytes :=
  match adaptor_sign signer msg (from_secret_key t) with Ok p => p | Err _ => [] end.
Definition completed (t : SecretKey) : bytes :=
  match adaptor_complete (presig t) t with Ok p => p | Err _ => [] end.
End CurveSample.
Import CurveSample.

Lemma adaptor_sign_verifies_witness :
  length (presig secret_odd) = PRESIG_LEN /\ adaptor_verify holder msg (from_secret_key secret_odd) (presig secret_odd) = Ok true.
Proof. apply (adaptor_sign_verifies signer msg (from_secret_key secret_odd)). vm_compute. reflexivity. Defined.


(** A pre-signature for one point is not one for another, and a completed signature with the
    wrong secret does not yield the secret of the point. *)
Example wrong_point_rejected :
  adaptor_verify holder msg (from_secret_key secret_even) (presig secret_odd) = Ok false /\
  adaptor_verify holder msg (from_secret_key secret_odd) [] = Ok false.
Proof. split; vm_compute; reflexivity. Qed.
