(* ===== verification/LedgerMerkle.v ===== *)
(** * The Merkle trees that a hardware wallet asks about

    [lwk_ledger/src/merkle.rs]: the tree of a list of hashes, its root and the proofs of its
    leaves.  The roots are those of a recursive definition that splits a list at the largest
    power of two, the proofs verify, and what verifies is a leaf unless SHA-256 collides.

    [None] is a panic: an assertion that fails or an index that is out of range. *)

From S2P Require Import Prelude Sighash.

(** ** Powers of two *)

(** [while 2 * t <= n { t *= 2; r += 1; }], at most [n] times. *)
Fixpoint floor_lg_loop (fuel n t r : nat) : nat :=
  match fuel with
  | O => r
  | Datatypes.S fuel => if (2 * t <=? n)%nat then floor_lg_loop fuel n (t * 2) (r + 1) else r
  end.
Definition floor_lg (n : nat) : option nat :=
  if (0 <? n)%nat then Some (floor_lg_loop n n 1 0) else None.

Fixpoint pow2_loop (n p : nat) : nat := match n with O => p | Datatypes.S n => pow2_loop n (p * 2) end.
Definition pow2 (n : nat) : nat := pow2_loop n 1.

Definition is_power_of_2 (n : nat) : option bool :=
  if (1 <=? n)%nat then Some (Nat.land n (n - 1) =? 0)%nat else None.

Definition largest_power_of_2_less_than (n : nat) : option nat :=
  if (n =? 2)%nat then Some 1%nat
  else if (1 <? n)%nat then
    match is_power_of_2 n with
    | Some true => Some (n / 2)%nat
    | Some false => Nat.shiftl 1 <$> floor_lg n
    | None => None
    end
  else None.

(** ** Trees *)

Inductive Tree :=
| Node (value : bytes) (lchild rchild : Tree) (height : nat)
| Leaf (idx : nat).

Definition tree_value (leaves : list bytes) (t : Tree) : option bytes :=
  match t with Node v _ _ _ => Some v | Leaf i => leaves !! i end.
Definition tree_height (t : Tree) : nat := match t with Node _ _ _ h => h | Leaf _ => 0%nat end.

Section tree.
Context {H : Hashes}.

Definition node_hash (l r : bytes) : bytes := sha256 (Byte.x01 :: l ++ r).

(** [Tree::new]; every call has a smaller size, so that [size] calls are enough. *)
Fixpoint tree_new (fuel : nat) (leaves : list bytes) (start size : nat) : option Tree :=
  match fuel with
  | O => None
  | Datatypes.S fuel =>
      if (size =? 1)%nat then Some (Leaf start)
      else
        lchild_size ← largest_power_of_2_less_than size;
        lchild ← tree_new fuel leaves start lchild_size;
        rchild ← tree_new fuel leaves (start + lchild_size) (size - lchild_size);
        lv ← tree_value leaves lchild;
        rv ← tree_value leaves rchild;
        Some (Node (node_hash lv rv) lchild rchild (tree_height lchild + 1))
  end.

Fixpoint get_proof (leaves : list bytes) (t : Tree) (index : nat) : option (list bytes) :=
  match t with
  | Leaf _ => Some []
  | Node _ lc rc _ =>
      if (index <? pow2 (tree_height lc))%nat
      then proof ← get_proof leaves lc index; v ← tree_value leaves rc; Some (proof ++ [v])
      else proof ← get_proof leaves rc (index - pow2 (tree_height lc)); v ← tree_value leaves lc; Some (proof ++ [v])
  end.

Record MerkleTree := mkMerkleTree { mt_root : Tree; mt_leaves : list bytes }.

Definition MerkleTree_new (leaves : list bytes) : option MerkleTree :=
  root ← tree_new (length leaves + 1) leaves 0 (length leaves); Some (mkMerkleTree root leaves).
Definition mt_size (t : MerkleTree) : nat := length (mt_leaves t).
Definition root_hash (t : MerkleTree) : option bytes := tree_value (mt_leaves t) (mt_root t).
Definition get_leaf (t : MerkleTree) (i : nat) : option bytes := mt_leaves t !! i.
Fixpoint position (val : bytes) (l : list bytes) : option nat :=
  match l with
  | [] => None
  | v :: l => if bool_decide (v = val) then Some 0%nat else Datatypes.S <$> position val l
  end.
Definition get_leaf_index (t : MerkleTree) (val : bytes) : option nat := position val (mt_leaves t).

(** A panic, or no proof out of bounds. *)
Definition get_leaf_proof (t : MerkleTree) (index : nat) : option (option (list bytes)) :=
  if (length (mt_leaves t) <=? index)%nat then Some None else Some <$> get_proof (mt_leaves t) (mt_root t) index.
End tree.

(** ** The powers of two are powers of two *)

Lemma pow2_eq n : pow2 n = (2 ^ n)%nat.
Proof.
  unfold pow2. assert (Hp : forall p, pow2_loop n p = (p * 2 ^ n)%nat); [|by rewrite Hp, Nat.mul_1_l].
  induction n as [|n IH]; intros p; cbn [pow2_loop Nat.pow]; [lia|]. rewrite IH. lia.
Qed.

Lemma floor_lg_loop_eq fuel n r : (2 ^ r <= n)%nat -> (n < 2 ^ (r + fuel))%nat ->
  floor_lg_loop fuel n (2 ^ r) r = Nat.log2 n.
Proof.
  revert r. induction fuel as [|fuel IH]; intros r Hlo Hhi; cbn [floor_lg_loop].
  { rewrite Nat.add_0_r in Hhi. lia. }
  destruct (Nat.leb_spec (2 * 2 ^ r) n).
  - replace (2 ^ r * 2)%nat with (2 ^ (r + 1))%nat by (rewrite Nat.pow_add_r; cbn; lia).
    apply IH; [rewrite Nat.pow_add_r; cbn; lia|]. replace (r + 1 + fuel)%nat with (r + Datatypes.S fuel)%nat by lia. done.
  - symmetry. apply Nat.log2_unique; [lia|]. split; [done|]. cbn [Nat.pow]. lia.
Qed.

Lemma floor_lg_eq n : (0 < n)%nat -> floor_lg n = Some (Nat.log2 n).
Proof.
  intros Hn. unfold floor_lg. rewrite (proj2 (Nat.ltb_lt 0 n) Hn). f_equal.
  apply (floor_lg_loop_eq n n 0); [cbn; lia|]. cbn [Nat.add]. apply Nat.pow_gt_lin_r. lia.
Qed.

(** The size of the left part of [n] leaves. *)
Definition split_size (n : nat) : nat := (2 ^ Nat.log2 (n - 1))%nat.

Lemma split_size_lt n : (1 < n)%nat -> (0 < split_size n < n)%nat.
Proof.
  intros Hn. unfold split_size. pose proof (Nat.log2_spec (n - 1) ltac:(lia)) as [Hs _].
  pose proof (Nat.pow_nonzero 2 (Nat.log2 (n - 1)) ltac:(lia)). lia.
Qed.

Lemma land_pred_pow n k : (2 ^ k < n < 2 ^ (k + 1))%nat -> Nat.land n (n - 1) <> 0%nat.
Proof.
  intros [Hlo Hhi] Hz. assert (Hb : Nat.testbit (Nat.land n (n - 1)) k = true); [|by rewrite Hz, Nat.bits_0 in Hb].
  rewrite Nat.land_spec. rewrite Nat.pow_add_r in Hhi. cbn in Hhi.
  assert (Hx : forall m, (2 ^ k <= m < 2 ^ k * 2)%nat -> Nat.testbit m k = true).
  { intros m Hm. rewrite Nat.testbit_eqb. apply Nat.eqb_eq. replace (m / 2 ^ k)%nat with 1%nat; [done|].
    apply Nat.div_unique with (m - 2 ^ k)%nat; lia. }
  by rewrite !Hx by lia.
Qed.
Lemma land_pow k : Nat.land (2 ^ k) (2 ^ k - 1) = 0%nat.
Proof.
  rewrite Nat.sub_1_r, <-Nat.ones_equiv, Nat.land_ones. apply Nat.Div0.mod_same.
Qed.

Lemma largest_power_eq n : (1 < n)%nat -> largest_power_of_2_less_than n = Some (split_size n).
Proof.
  intros Hn. unfold largest_power_of_2_less_than, is_power_of_2.
  destruct (Nat.eqb_spec n 2) as [->|H2]; [done|]. rewrite (proj2 (Nat.ltb_lt 1 n) Hn), (proj2 (Nat.leb_le 1 n)) by lia.
  pose proof (Nat.log2_spec n ltac:(lia)) as [Hlo Hhi]. set (k := Nat.log2 n) in *.
  assert (Hk : (0 < k)%nat) by (apply Nat.log2_pos; lia).
  destruct (decide (n = 2 ^ k)%nat) as [E|E].
  - rewrite E, land_pow. cbn [Nat.eqb]. f_equal. unfold split_size. rewrite Nat.sub_1_r, Nat.log2_pred_pow2 by done.
    replace k with (Datatypes.S (Nat.pred k)) at 1 by lia. cbn [Nat.pow].
    symmetry. apply Nat.div_unique with 0%nat; lia.
  - rewrite (proj2 (Nat.eqb_neq (Nat.land n (n - 1)) 0)).
    2:{ apply land_pred_pow with k. rewrite Nat.add_1_r. lia. }
    rewrite floor_lg_eq by lia. cbn [fmap option_fmap option_map]. f_equal. rewrite Nat.shiftl_1_l. unfold split_size. f_equal.
    symmetry. apply Nat.log2_unique; [lia|]. fold k. cbn [Nat.pow] in *. lia.
Qed.

(** ** The root and the proofs *)

Section spec.
Context {H : Hashes}.

(** The root of a list: split at the largest power of two below its length. *)
Fixpoint merkle_root_fuel (fuel : nat) (l : list bytes) : bytes :=
  match fuel, l with
  | Datatypes.S fuel, _ :: _ :: _ =>
      let k := split_size (length l) in
      node_hash (merkle_root_fuel fuel (take k l)) (merkle_root_fuel fuel (drop k l))
  | _, x :: _ => x
  | _, [] => []
  end.
Definition merkle_root (l : list bytes) : bytes := merkle_root_fuel (length l) l.

(** The root that a verifier computes for leaf [i] of [n] from the proof, the siblings from the
    top first. *)
Fixpoint climb (n i : nat) (leaf : bytes) (siblings : list bytes) : option bytes :=
  match siblings with
  | [] => if (n =? 1)%nat then Some leaf else None
  | s :: siblings =>
      if (n <=? 1)%nat then None
      else if (i <? split_size n)%nat
      then (fun v => node_hash v s) <$> climb (split_size n) i leaf siblings
      else (fun v => node_hash s v) <$> climb (n - split_size n) (i - split_size n) leaf siblings
  end.
Definition proof_root (n i : nat) (leaf : bytes) (proof : list bytes) : option bytes := climb n i leaf (rev proof).

Lemma merkle_root_fuel_enough f g l : (length l <= f)%nat -> (length l <= g)%nat -> merkle_root_fuel f l = merkle_root_fuel g l.
Proof.
  revert g l. induction f as [|f IH]; intros g l Hf Hg; [by destruct l; [destruct g|cbn in Hf; lia]|].
  destruct l as [|x [|y l]]; [by destruct g|by destruct g|]. destruct g as [|g]; [cbn in Hg; lia|]. cbn [merkle_root_fuel].
  pose proof (split_size_lt (length (x :: y :: l)) ltac:(cbn; lia)) as Hs. set (k := split_size _) in *.
  f_equal; apply IH; rewrite ?length_take, ?length_drop; lia.
Qed.

Lemma merkle_root_step f l : (1 < length l)%nat ->
  merkle_root_fuel (Datatypes.S f) l =
    node_hash (merkle_root_fuel f (take (split_size (length l)) l)) (merkle_root_fuel f (drop (split_size (length l)) l)).
Proof. destruct l as [|x [|y l]]; [cbn; lia|cbn; lia|done]. Qed.

Lemma merkle_root_node l : (1 < length l)%nat ->
  merkle_root l = node_hash (merkle_root (take (split_size (length l)) l)) (merkle_root (drop (split_size (length l)) l)).
Proof.
  intros Hl. pose proof (split_size_lt (length l) Hl) as Hs. unfold merkle_root at 1.
  rewrite (merkle_root_fuel_enough _ (Datatypes.S (length l))) by lia. rewrite merkle_root_step by done. unfold merkle_root.
  f_equal; apply merkle_root_fuel_enough; rewrite ?length_take, ?length_drop; lia.
Qed.
Lemma merkle_root_one x : merkle_root [x] = x.
Proof. done. Qed.

(** A tree for the leaves from [start] on, of which there are [size]. *)
Inductive tree_for (leaves : list bytes) : nat -> nat -> Tree -> Prop :=
| tf_leaf start x : leaves !! start = Some x -> tree_for leaves start 1 (Leaf start)
| tf_node start size l r : (1 < size)%nat ->
    tree_for leaves start (split_size size) l -> tree_for leaves (start + split_size size) (size - split_size size) r ->
    tree_for leaves start size (Node (merkle_root (take size (drop start leaves))) l r (tree_height l + 1)).

Lemma tree_for_value leaves start size t : tree_for leaves start size t -> (start + size <= length leaves)%nat ->
  tree_value leaves t = Some (merkle_root (take size (drop start leaves))).
Proof.
  intros [s x Hx|]; [|done]. intros _. cbn [tree_value]. rewrite (drop_S _ _ _ Hx). cbn [take]. by rewrite take_0, merkle_root_one.
Qed.

Lemma take_drop_split {A} (l : list A) start size k : (k <= size)%nat -> (start + size <= length l)%nat ->
  take k (take size (drop start l)) = take k (drop start l) /\
  drop k (take size (drop start l)) = take (size - k) (drop (start + k) l).
Proof.
  intros Hk Hl. rewrite take_take, Nat.min_l by lia. split; [done|]. by rewrite skipn_firstn_comm, drop_drop.
Qed.

Lemma tree_new_for leaves start size fuel :
  (0 < size)%nat -> (size <= fuel)%nat -> (start + size <= length leaves)%nat ->
  exists t, tree_new fuel leaves start size = Some t /\ tree_for leaves start size t.
Proof.
  revert start size. induction fuel as [|fuel IH]; intros start size H0 Hf Hl; [lia|]. cbn [tree_new].
  destruct (Nat.eqb_spec size 1) as [->|H1].
  { destruct (lookup_lt_is_Some_2 leaves start) as [x Hx]; [lia|]. exists (Leaf start). split; [done|]. by apply tf_leaf with x. }
  rewrite largest_power_eq by lia. cbn [mbind option_bind]. pose proof (split_size_lt size ltac:(lia)) as Hs.
  destruct (IH start (split_size size)) as (l & -> & Hlt); [lia..|]. cbn [mbind option_bind].
  destruct (IH (start + split_size size)%nat (size - split_size size)%nat) as (r & -> & Hrt); [lia..|]. cbn [mbind option_bind].
  rewrite (tree_for_value _ _ _ _ Hlt), (tree_for_value _ _ _ _ Hrt) by lia. cbn [mbind option_bind].
  assert (Hlen : length (take size (drop start leaves)) = size) by (rewrite length_take, length_drop; lia).
  pose proof (merkle_root_node (take size (drop start leaves)) ltac:(lia)) as Hroot. rewrite Hlen in Hroot.
  destruct (take_drop_split leaves start size (split_size size) ltac:(lia) Hl) as [E1 E2]. rewrite E1, E2 in Hroot.
  rewrite <-Hroot. eexists. split; [done|]. constructor; [lia|done|done].
Qed.

(** A tree of [2 ^ k] leaves has height [k]. *)
Lemma split_size_pow k : split_size (2 ^ (k + 1)) = (2 ^ k)%nat.
Proof. unfold split_size. rewrite Nat.sub_1_r, Nat.log2_pred_pow2 by lia. f_equal. lia. Qed.
Lemma tree_for_height leaves start k t : tree_for leaves start (2 ^ k) t -> tree_height t = k.
Proof.
  revert start t. induction k as [|k IH]; intros start t Ht.
  - inversion Ht as [|s n l r Hn]; [done|]. subst. cbn in *. lia.
  - pose proof (Nat.pow_nonzero 2 k ltac:(lia)). inversion Ht as [s x Hx E|s n l r Hn Hl Hr E]; [cbn in E; lia|].
    assert (Hsz : split_size (2 ^ Datatypes.S k) = (2 ^ k)%nat) by (replace (Datatypes.S k) with (k + 1)%nat by lia; apply split_size_pow).
    rewrite Hsz in Hl. apply IH in Hl. cbn. lia.
Qed.
Lemma left_height leaves start size l : tree_for leaves start (split_size size) l -> pow2 (tree_height l) = split_size size.
Proof. intros Hl. rewrite pow2_eq. unfold split_size in *. by rewrite (tree_for_height _ _ _ _ Hl). Qed.

Lemma get_proof_climbs leaves start size t i :
  tree_for leaves start size t -> (start + size <= length leaves)%nat -> (i < size)%nat ->
  exists proof x, get_proof leaves t i = Some proof /\ leaves !! (start + i)%nat = Some x /\
    climb size i x (rev proof) = Some (merkle_root (take size (drop start leaves))).
Proof.
  intros Ht. revert i. induction Ht as [s x Hx|s n l r Hn Hl IHl Hr IHr]; intros i Hlen Hi; cbn [get_proof].
  - assert (i = 0%nat) as -> by lia. exists [], x. rewrite Nat.add_0_r. split_and!; [done|done|]. cbn.
    rewrite (drop_S _ _ _ Hx). cbn. by rewrite take_0.
  - pose proof (split_size_lt n Hn) as Hs. rewrite (left_height _ _ _ _ Hl).
    assert (Hroot : merkle_root (take n (drop s leaves)) =
      node_hash (merkle_root (take (split_size n) (drop s leaves))) (merkle_root (take (n - split_size n) (drop (s + split_size n) leaves)))).
    { assert (Hln : length (take n (drop s leaves)) = n) by (rewrite length_take, length_drop; lia).
      rewrite merkle_root_node, Hln by lia. by destruct (take_drop_split leaves s n (split_size n) ltac:(lia) Hlen) as [-> ->]. }
    destruct (Nat.ltb_spec i (split_size n)).
    + destruct (IHl i) as (proof & x & -> & Hx & Hc); [lia..|]. rewrite (tree_for_value _ _ _ _ Hr) by lia. cbn [mbind option_bind].
      eexists _, x. split_and!; [done|done|]. rewrite rev_app_distr. cbn [rev app climb].
      rewrite (proj2 (Nat.leb_gt n 1)), (proj2 (Nat.ltb_lt i (split_size n))), Hc, Hroot by lia. done.
    + destruct (IHr (i - split_size n)%nat) as (proof & x & -> & Hx & Hc); [lia..|]. rewrite (tree_for_value _ _ _ _ Hl) by lia. cbn [mbind option_bind].
      replace (s + split_size n + (i - split_size n))%nat with (s + i)%nat in Hx by lia.
      eexists _, x. split_and!; [done|done|]. rewrite rev_app_distr. cbn [rev app climb].
      rewrite (proj2 (Nat.leb_gt n 1)), (proj2 (Nat.ltb_ge i (split_size n))), Hc, Hroot by lia. done.
Qed.

Definition collision : Prop := exists a b, a <> b /\ sha256 a = sha256 b.

Lemma climb_length n i x l v : length x = 32%nat -> climb n i x l = Some v -> length v = 32%nat.
Proof.
  intros Hx. destruct l as [|s l]; cbn [climb]; [destruct (n =? 1)%nat; [by intros [= <-]|done]|].
  destruct (n <=? 1)%nat; [done|].
  destruct (i <? _)%nat; intros (u & _ & ->)%fmap_Some; apply sha256_length.
Qed.
Lemma merkle_root_length l : Forall (fun x => length x = 32%nat) l -> l <> [] -> length (merkle_root l) = 32%nat.
Proof.
  intros Hl Hn. destruct (decide (1 < length l)%nat) as [H1|H1]; [rewrite merkle_root_node by done; apply sha256_length|].
  destruct l as [|x [|y l]]; [done| |cbn in H1; lia]. by apply Forall_inv in Hl.
Qed.
Lemma node_hash_inj l r l' r' : length l = length l' -> node_hash l r = node_hash l' r' -> (l = l' /\ r = r') \/ collision.
Proof.
  intros Hl Hh. destruct (decide (Byte.x01 :: l ++ r = Byte.x01 :: l' ++ r')) as [E|E]; [|right; by eexists _, _].
  left. injection E as E. by apply app_inj_1.
Qed.

Lemma climb_binding siblings leaves i x :
  Forall (fun y => length y = 32%nat) leaves -> length x = 32%nat -> Forall (fun y => length y = 32%nat) siblings ->
  (i < length leaves)%nat -> climb (length leaves) i x siblings = Some (merkle_root leaves) ->
  leaves !! i = Some x \/ collision.
Proof.
  revert leaves i. induction siblings as [|s siblings IH]; intros leaves i Hl Hx Hs Hi; cbn [climb].
  { destruct (Nat.eqb_spec (length leaves) 1) as [H1|]; [|done]. destruct leaves as [|y [|z leaves]]; try done.
    rewrite merkle_root_one. intros [= ->]. assert (i = 0%nat) as -> by (cbn in Hi; lia). by left. }
  destruct (Nat.leb_spec (length leaves) 1) as [|H1]; [done|]. rewrite merkle_root_node by done.
  pose proof (split_size_lt _ H1) as Hk. set (k := split_size (length leaves)) in *.
  apply Forall_cons in Hs as [Hs Hss].
  assert (Hlt : length (take k leaves) = k) by (rewrite length_take; lia).
  assert (Hld : length (drop k leaves) = (length leaves - k)%nat) by (rewrite length_drop; lia).
  assert (Hrt : length (merkle_root (take k leaves)) = 32%nat).
  { apply merkle_root_length; [by apply Forall_take|]. intros E. rewrite E in Hlt. cbn in Hlt. lia. }
  destruct (Nat.ltb_spec i k) as [Hik|Hik]; intros (v & Hc & Hv)%fmap_Some.
  - pose proof (climb_length _ _ _ _ _ Hx Hc) as Hvl. apply node_hash_inj in Hv as [[<- _]|]; [|by right|by rewrite Hrt].
    rewrite <-Hlt in Hc at 1. apply IH in Hc as [Hc|]; [|by right|by apply Forall_take|done|done|lia].
    left. rewrite <-Hc. symmetry. apply lookup_take_lt. lia.
  - apply node_hash_inj in Hv as [[_ <-]|]; [|by right|by rewrite Hrt].
    rewrite <-Hld in Hc at 1. apply IH in Hc as [Hc|]; [|by right|by apply Forall_drop|done|done|lia].
    left. rewrite lookup_drop in Hc. by replace (k + (i - k))%nat with i in Hc by lia.
Qed.

(** A tree of a list of hashes: what [MerkleTree::new] builds. *)
Record tree_ok (t : MerkleTree) : Prop := mkTreeOk
  { to_nonempty : mt_leaves t <> [];
    to_tree : tree_for (mt_leaves t) 0 (length (mt_leaves t)) (mt_root t) }.

Lemma MerkleTree_new_ok leaves t : MerkleTree_new leaves = Some t -> tree_ok t /\ mt_leaves t = leaves.
Proof.
  unfold MerkleTree_new. destruct leaves as [|x l]; [done|]. set (leaves := x :: l).
  destruct (tree_new_for leaves 0 (length leaves) (length leaves + 1)) as (r & -> & Hr); [cbn; lia|lia|lia|].
  intros [= <-]. split; [by split|done].
Qed.
Lemma MerkleTree_new_some leaves : leaves <> [] -> exists t, MerkleTree_new leaves = Some t.
Proof.
  intros Hn. unfold MerkleTree_new. destruct (tree_new_for leaves 0 (length leaves) (length leaves + 1)) as (r & -> & _).
  - destruct leaves; [done|cbn; lia].
  - lia.
  - lia.
  - by eexists.
Qed.
Lemma root_hash_ok t : tree_ok t -> root_hash t = Some (merkle_root (mt_leaves t)).
Proof.
  intros [_ Ht]. unfold root_hash. rewrite (tree_for_value _ _ _ _ Ht) by lia. by rewrite drop_0, firstn_all.
Qed.
Lemma get_leaf_proof_ok t i : tree_ok t -> (i < mt_size t)%nat ->
  exists proof x, get_leaf_proof t i = Some (Some proof) /\ get_leaf t i = Some x /\
    proof_root (mt_size t) i x proof = Some (merkle_root (mt_leaves t)).
Proof.
  intros [_ Ht] Hi. unfold mt_size, get_leaf_proof, get_leaf, proof_root in *. rewrite (proj2 (Nat.leb_gt _ _) Hi).
  destruct (get_proof_climbs _ _ _ _ i Ht ltac:(lia) Hi) as (proof & x & -> & Hx & Hc).
  exists proof, x. rewrite drop_0, firstn_all in Hc. by split_and!.
Qed.

(** The hashes of a proof are nodes of the tree. *)
Lemma tree_value_length leaves start size t v :
  Forall (fun x => length x = 32%nat) leaves -> tree_for leaves start size t -> tree_value leaves t = Some v -> length v = 32%nat.
Proof.
  intros Hl [s x Hx|s n l r Hn Htl Htr]; cbn [tree_value]; intros Hv.
  - rewrite Forall_lookup in Hl. by eapply Hl.
  - injection Hv as <-. apply merkle_root_length; [by apply Forall_take, Forall_drop|].
    intros E. assert (Hlen : (0 < length (take n (drop s leaves)))%nat); [|rewrite E in Hlen; cbn in Hlen; lia].
    assert (Hin : exists j x, leaves !! (s + j)%nat = Some x).
    { clear -Htl. revert Htl. generalize (split_size n) as m. intros m Htl.
      induction Htl as [s0 x Hx|s0 n0 l0 r0 _ _ IH _ _]; [exists 0%nat, x; by rewrite Nat.add_0_r|done]. }
    destruct Hin as (j & x & Hx%lookup_lt_Some). rewrite length_take, length_drop. lia.
Qed.
Lemma get_proof_lengths leaves start size t i proof :
  Forall (fun x => length x = 32%nat) leaves -> tree_for leaves start size t -> get_proof leaves t i = Some proof ->
  Forall (fun x => length x = 32%nat) proof.
Proof.
  intros Hl Ht. revert i proof. induction Ht as [s x Hx|s n l r Hn Htl IHl Htr IHr]; intros i proof; cbn [get_proof].
  { intros [= <-]. constructor. }
  destruct (_ <? _)%nat; intros (pr & Hpr & Hv)%bind_Some; apply bind_Some in Hv as (v & Hv & [= <-]); apply Forall_app; split.
  - by eapply IHl.
  - apply Forall_singleton. exact (tree_value_length _ _ _ _ _ Hl Htr Hv).
  - by eapply IHr.
  - apply Forall_singleton. exact (tree_value_length _ _ _ _ _ Hl Htl Hv).
Qed.

(** For a list of hashes, the tree has the root of the recursive definition, every leaf has a proof
    from which a verifier computes this root, and what else leads to the root is that leaf (or
    gives two inputs with one SHA-256). *)
Theorem ledger_merkle_correct leaves :
  leaves <> [] ->
  exists t, MerkleTree_new leaves = Some t /\ root_hash t = Some (merkle_root leaves) /\
    forall i, (i < length leaves)%nat ->
      (exists proof x, get_leaf_proof t i = Some (Some proof) /\ leaves !! i = Some x /\
         proof_root (length leaves) i x proof = Some (merkle_root leaves)) /\
      forall proof x, Forall (fun y => length y = 32%nat) (x :: leaves ++ proof) ->
        proof_root (length leaves) i x proof = Some (merkle_root leaves) -> leaves !! i = Some x \/ collision.
Proof.
  intros Hn. destruct (MerkleTree_new_some leaves Hn) as [t Ht]. exists t. split; [done|].
  apply MerkleTree_new_ok in Ht as [Hok <-]. split; [by apply root_hash_ok|]. intros i Hi. split.
  - by apply (get_leaf_proof_ok t i Hok).
  - intros proof x [Hx [Hl Hp]%Forall_app]%Forall_cons Hr. unfold proof_root in Hr.
    eapply climb_binding; [done|done|by apply Forall_rev|done|exact Hr].
Qed.
End spec.

(** Without leaves there is no tree: the assertion of [largest_power_of_2_less_than] fails. *)
Theorem empty_tree_panics {H : Hashes} : MerkleTree_new [] = None.
Proof. reflexivity. Qed.
