(* ===== verification/Ledger.v ===== *)
(** * The client of a hardware wallet

    [lwk_ledger/src/interpreter.rs], the command bytes of [apdu.rs] and [command.rs], and the
    message part of [client.rs]: the hardware wallet asks for preimages, Merkle proofs and indices
    by hash, and for more elements where an answer does not fit a message.

    [VarInt] of the bitcoin crate is a parameter.  Errors carry the panics of the code. *)

From S2P Require Import Prelude Order Encode Sighash LedgerMerkle.

Class BtcVarInt :=
  { varint_ser : Z -> bytes;
    (** [deserialize_partial]: the value and how much was read *)
    varint_de : bytes -> option (Z * nat);
    varint_round v rest : is_u64 v -> varint_de (varint_ser v ++ rest) = Some (v, length (varint_ser v));
    varint_length v : is_u64 v -> (1 <= length (varint_ser v) <= 9)%nat;
    varint_range bs v n : varint_de bs = Some (v, n) -> is_u64 v /\ (n <= length bs)%nat }.

(** ** Codes *)

Inductive Cla := ClaDefault | ClaBitcoin | ClaFramework.
Definition cla_u8 (c : Cla) : Z := match c with ClaDefault => 0xB0 | ClaBitcoin => 0xE1 | ClaFramework => 0xF8 end.

Inductive LiquidCommandCode :=
| GetExtendedPubkey
| GetVersionOrContinueInterrupted
| RegisterWallet
| GetWalletAddress
| SignPSBT
| GetMasterFingerprint
| SignMessage
| LiquidGetMasterBlindingKey.
Definition ins_u8 (i : LiquidCommandCode) : Z :=
  match i with
  | GetExtendedPubkey => 0x00
  | GetVersionOrContinueInterrupted => 0x01
  | RegisterWallet => 0x02
  | GetWalletAddress => 0x03
  | SignPSBT => 0x04
  | GetMasterFingerprint => 0x05
  | SignMessage => 0x10
  | LiquidGetMasterBlindingKey => 0xe1
  end.

Inductive ClientCommandCode := Yield | GetPreimage | GetMerkleLeafProof | GetMerkleLeafIndex | GetMoreElements.
Definition client_u8 (c : ClientCommandCode) : Z :=
  match c with Yield => 0x10 | GetPreimage => 0x40 | GetMerkleLeafProof => 0x41 | GetMerkleLeafIndex => 0x42 | GetMoreElements => 0xA0 end.
Definition client_try_from (v : Z) : option ClientCommandCode :=
  if v =? 0x10 then Some Yield
  else if v =? 0x40 then Some GetPreimage
  else if v =? 0x41 then Some GetMerkleLeafProof
  else if v =? 0x42 then Some GetMerkleLeafIndex
  else if v =? 0xA0 then Some GetMoreElements
  else None.

Record APDUCommand := mkApdu { apdu_cla : Z; apdu_ins : Z; apdu_p1 : Z; apdu_p2 : Z; apdu_data : bytes }.
Definition CURRENT_PROTOCOL_VERSION : Z := 1.
Definition apdu (cla : Cla) (ins : LiquidCommandCode) (data : bytes) : APDUCommand :=
  mkApdu (cla_u8 cla) (ins_u8 ins) 0 CURRENT_PROTOCOL_VERSION data.
Definition apdu_empty (cla : Cla) (ins : LiquidCommandCode) : APDUCommand := apdu cla ins [].

(** ** The interpreter *)

Inductive InterpreterError :=
| EmptyInput
| UnknownCommand (c : Z)
| UnsupportedRequest (c : Z)
| InvalidIndexOrSize
| UnknownHash
| UnknownMerkleRoot
| UnexpectedQueue
| InterpreterPanic.

Record ClientCommandInterpreter := mkInterpreter
  { yielded : list bytes;
    queue : list bytes;
    known_preimages : list (bytes * bytes);
    trees : list MerkleTree }.

Definition interpreter_new : ClientCommandInterpreter := mkInterpreter [] [] [] [].
Definition set_queue (s : ClientCommandInterpreter) (q : list bytes) : ClientCommandInterpreter :=
  mkInterpreter (yielded s) q (known_preimages s) (trees s).

Section interpreter.
Context {H : Hashes} {V : BtcVarInt}.

Definition add_known_preimage (element : bytes) (s : ClientCommandInterpreter) : ClientCommandInterpreter :=
  mkInterpreter (yielded s) (queue s) (known_preimages s ++ [(sha256 element, element)]) (trees s).

Definition leaf_preimage (element : bytes) : bytes := Byte.x00 :: element.
Definition leaf_hash (element : bytes) : bytes := sha256 (leaf_preimage element).

(** The root and the new state; [None] is a panic. *)
Definition add_known_list (elements : list bytes) (s : ClientCommandInterpreter)
  : option (bytes * ClientCommandInterpreter) :=
  let known := known_preimages s ++ map (fun e => (leaf_hash e, leaf_preimage e)) elements in
  tree ← MerkleTree_new (map leaf_hash elements);
  root ← root_hash tree;
  Some (root, mkInterpreter (yielded s) (queue s) known (trees s ++ [tree])).

Definition sorted_mapping (mapping : list (bytes * bytes)) : list (bytes * bytes) := sort_by (cmp_by fst bytes_cmp) mapping.

Definition add_known_mapping (mapping : list (bytes * bytes)) (s : ClientCommandInterpreter)
  : option ClientCommandInterpreter :=
  let sorted := sorted_mapping mapping in
  x ← add_known_list (map fst sorted) s;
  y ← add_known_list (map snd sorted) x.2;
  Some y.2.

Definition get_merkleized_map_commitment (mapping : list (bytes * bytes)) : option bytes :=
  let sorted := sorted_mapping mapping in
  keys ← MerkleTree_new (map leaf_hash (map fst sorted));
  values ← MerkleTree_new (map leaf_hash (map snd sorted));
  kr ← root_hash keys;
  vr ← root_hash values;
  Some (varint_ser (zlen sorted) ++ kr ++ vr).

(** *** Commands *)

Abbreviation answer := (result bytes InterpreterError * ClientCommandInterpreter)%type.

Definition find_preimage (hash : bytes) (known : list (bytes * bytes)) : option (bytes * bytes) :=
  List.find (fun x => bool_decide (x.1 = hash)) known.
Definition find_tree (root : bytes) (l : list MerkleTree) : option MerkleTree :=
  List.find (fun t => bool_decide (root_hash t = Some root)) l.

Definition get_preimage_command (request : bytes) (s : ClientCommandInterpreter) : answer :=
  if negb (length request =? 33)%nat || negb (bool_decide (head request = Some Byte.x00))
  then (Err (UnsupportedRequest (client_u8 GetPreimage)), s)
  else
    match find_preimage (drop 1 request) (known_preimages s) with
    | None => (Err UnknownHash, s)
    | Some (_, preimage) =>
        let preimage_len_out := varint_ser (zlen preimage) in
        let max_payload_size := (255 - length preimage_len_out - 1)%nat in
        let payload_size := if (max_payload_size <? length preimage)%nat then max_payload_size else length preimage in
        let s := if (payload_size <? length preimage)%nat
                 then set_queue s (queue s ++ map (fun b => [b]) (drop payload_size preimage)) else s in
        (Ok (preimage_len_out ++ [z2b (Z.of_nat payload_size)] ++ take payload_size preimage), s)
    end.

(** [VarInt, VarInt] to the end of the request: the size of the tree and the index. *)
Definition parse_size_index (l : bytes) : option (Z * Z) :=
  '(tree_size, read) ← varint_de l;
  '(leaf_index, read') ← varint_de (drop read l);
  if (read' =? length (drop read l))%nat then Some (tree_size, leaf_index) else None.

Definition get_merkle_leaf_proof (request : bytes) (s : ClientCommandInterpreter) : answer :=
  if negb (length (queue s) =? 0)%nat then (Err UnexpectedQueue, s)
  else if (length request <? 34)%nat then (Err (UnsupportedRequest (client_u8 GetMerkleLeafProof)), s)
  else
    match parse_size_index (drop 32 request) with
    | None => (Err (UnsupportedRequest (client_u8 GetMerkleLeafProof)), s)
    | Some (tree_size, leaf_index) =>
        match find_tree (take 32 request) (trees s) with
        | None => (Err UnknownHash, s)
        | Some tree =>
            if (tree_size <=? leaf_index) || negb (tree_size =? Z.of_nat (mt_size tree)) then (Err InvalidIndexOrSize, s)
            else
              match get_leaf_proof tree (Z.to_nat leaf_index), get_leaf tree (Z.to_nat leaf_index) with
              | None, _ => (Err InterpreterPanic, s)
              | Some None, _ => (Err InvalidIndexOrSize, s)
              | Some (Some _), None => (Err InterpreterPanic, s)
              | Some (Some proof), Some leaf =>
                  let first_part_proof := take 6 proof in
                  (Ok (leaf ++ [z2b (zlen proof)] ++ [z2b (zlen first_part_proof)] ++ concat first_part_proof),
                   set_queue s (queue s ++ drop 6 proof))
              end
        end
    end.

Definition get_merkle_leaf_index (request : bytes) (s : ClientCommandInterpreter) : result bytes InterpreterError :=
  if (length request <? 64)%nat then Err (UnsupportedRequest (client_u8 GetMerkleLeafIndex))
  else
    match find_tree (take 32 request) (trees s) with
    | None => Err UnknownHash
    | Some tree =>
        match get_leaf_index tree (take 32 (drop 32 request)) with
        | Some i => Ok (Byte.x01 :: varint_ser (Z.of_nat i))
        | None => Ok [Byte.x00; Byte.x00]
        end
    end.

(** [for element in queue]: what fits in 253 bytes. *)
Fixpoint collect (element_length : nat) (q : list bytes) (acc : bytes) (n : nat) : bytes * nat :=
  match q with
  | [] => (acc, n)
  | e :: q =>
      if (length acc + element_length <=? 253)%nat then collect element_length q (acc ++ e) (n + 1)
      else collect element_length q acc n
  end.

Definition get_more_elements (s : ClientCommandInterpreter) : answer :=
  match queue s with
  | [] => (Err UnexpectedQueue, s)
  | e :: _ =>
      let element_length := length e in
      if existsb (fun e => negb (length e =? element_length)%nat) (queue s) then (Err UnexpectedQueue, s)
      else
        let '(response_elements, n_added) := collect element_length (queue s) [] 0 in
        (Ok ([z2b (Z.of_nat n_added); z2b (Z.of_nat element_length)] ++ response_elements),
         set_queue s (drop n_added (queue s)))
  end.

Definition execute (command : bytes) (s : ClientCommandInterpreter) : answer :=
  match command with
  | [] => (Err EmptyInput, s)
  | c :: request =>
      match client_try_from (b2z c) with
      | Some Yield => (Ok [], mkInterpreter (yielded s ++ [request]) (queue s) (known_preimages s) (trees s))
      | Some GetPreimage => get_preimage_command request s
      | Some GetMerkleLeafProof => get_merkle_leaf_proof request s
      | Some GetMerkleLeafIndex => (get_merkle_leaf_index request s, s)
      | Some GetMoreElements => get_more_elements s
      | None => (Err (UnknownCommand (b2z c)), s)
      end
  end.

(** ** Requests *)

Definition be_u32 (z : Z) : bytes := rev (le_bytes 4 z).
Definition flag (b : bool) : byte := if b then Byte.x01 else Byte.x00.
Definition path_bytes (path : list Z) : bytes := z2b (zlen path) :: concat (map be_u32 path).

Definition get_version : APDUCommand :=
  let a := apdu_empty ClaDefault GetVersionOrContinueInterrupted in
  mkApdu (apdu_cla a) (apdu_ins a) (apdu_p1 a) 0 (apdu_data a).
Definition get_master_fingerprint : APDUCommand := apdu_empty ClaBitcoin GetMasterFingerprint.
Definition get_extended_pubkey (path : list Z) (display : bool) : APDUCommand :=
  apdu ClaBitcoin GetExtendedPubkey (flag display :: path_bytes path).
Definition register_wallet (policy : bytes) : APDUCommand :=
  apdu ClaBitcoin RegisterWallet (varint_ser (zlen policy) ++ policy).
Definition get_wallet_address (policy_id : bytes) (hmac : option bytes) (change : bool) (address_index : Z) (display : bool)
  : APDUCommand :=
  apdu ClaBitcoin GetWalletAddress
    ([flag display] ++ policy_id ++ default (replicate 32 Byte.x00) hmac ++ [flag change] ++ be_u32 address_index).
Definition sign_psbt (global_mapping_commitment : bytes) (inputs_number : nat) (input_commitments_root : bytes)
    (outputs_number : nat) (output_commitments_root policy_id : bytes) (hmac : option bytes) : APDUCommand :=
  apdu ClaBitcoin SignPSBT
    (global_mapping_commitment ++ varint_ser (Z.of_nat inputs_number) ++ input_commitments_root ++
     varint_ser (Z.of_nat outputs_number) ++ output_commitments_root ++ policy_id ++ default (replicate 32 Byte.x00) hmac).
Definition sign_message (message_length : nat) (message_commitment_root : bytes) (path : list Z) : APDUCommand :=
  apdu ClaBitcoin SignMessage (path_bytes path ++ varint_ser (Z.of_nat message_length) ++ message_commitment_root).
Definition get_master_blinding_key : APDUCommand := apdu_empty ClaBitcoin LiquidGetMasterBlindingKey.
Definition continue_interrupted (data : bytes) : APDUCommand := apdu ClaFramework GetVersionOrContinueInterrupted data.

(** ** The exchange *)

Inductive StatusWord :=
| Deny | IncorrectData | NotSupported | WrongP1P2 | WrongDataLength | InsNotSupported | ClaNotSupported | BadState
| SignatureFail | StatusOK | InterruptedExecution | StatusUnknown.
#[export] Instance StatusWord_eq_dec : EqDecision StatusWord.
Proof. solve_decision. Defined.
Definition status_try_from (v : Z) : option StatusWord :=
  if v =? 0x6985 then Some Deny
  else if v =? 0x6A80 then Some IncorrectData
  else if v =? 0x6A82 then Some NotSupported
  else if v =? 0x6A86 then Some WrongP1P2
  else if v =? 0x6A87 then Some WrongDataLength
  else if v =? 0x6D00 then Some InsNotSupported
  else if v =? 0x6E00 then Some ClaNotSupported
  else if v =? 0xB007 then Some BadState
  else if v =? 0xB008 then Some SignatureFail
  else if v =? 0x9000 then Some StatusOK
  else if v =? 0xE000 then Some InterruptedExecution
  else None.

Inductive client_error :=
| TransportError
| InterpreterFailed (e : InterpreterError)
| DeviceError (status : StatusWord) (command : Z).

(** A device: what it answers to a command, and its next state; [None] is a transport error. *)
Context {D : Type} (exchange : APDUCommand -> D -> option (StatusWord * bytes) * D).

(** The loop [while sw == StatusWord::InterruptedExecution], which ends when the device lets it:
    a relation. *)
Inductive serves (req : APDUCommand) : StatusWord -> bytes -> ClientCommandInterpreter -> D ->
    result bytes client_error -> ClientCommandInterpreter -> D -> Prop :=
| serves_ok data s d : serves req StatusOK data s d (Ok data) s d
| serves_device sw data s d : sw <> StatusOK -> sw <> InterruptedExecution ->
    serves req sw data s d (Err (DeviceError sw (apdu_ins req))) s d
| serves_failed data s s' d e : execute data s = (Err e, s') ->
    serves req InterruptedExecution data s d (Err (InterpreterFailed e)) s' d
| serves_transport data s s' d d' response : execute data s = (Ok response, s') ->
    exchange (continue_interrupted response) d = (None, d') ->
    serves req InterruptedExecution data s d (Err TransportError) s' d'
| serves_more data s s' s'' d d' d'' response sw data' res : execute data s = (Ok response, s') ->
    exchange (continue_interrupted response) d = (Some (sw, data'), d') ->
    serves req sw data' s' d' res s'' d'' ->
    serves req InterruptedExecution data s d res s'' d''.

(** [make_request] with an interpreter. *)
Inductive make_request (req : APDUCommand) (s : ClientCommandInterpreter) (d : D) :
    result bytes client_error -> ClientCommandInterpreter -> D -> Prop :=
| request_transport d' : exchange req d = (None, d') -> make_request req s d (Err TransportError) s d'
| request_served sw data d' res s' d'' : exchange req d = (Some (sw, data), d') ->
    serves req sw data s d' res s' d'' -> make_request req s d res s' d''.

(** [message.chunks(64)]. *)
Fixpoint chunks (fuel : nat) (n : nat) (l : bytes) : list bytes :=
  match fuel, l with
  | _, [] => []
  | O, _ => []
  | Datatypes.S fuel, _ => take n l :: chunks fuel n (drop n l)
  end.
(** [LiquidClient::sign_message] up to the exchange: the interpreter and the command. *)
Definition prepare_sign_message (message : bytes) (path : list Z) : option (ClientCommandInterpreter * APDUCommand) :=
  x ← add_known_list (chunks (length message) 64 message) interpreter_new;
  Some (x.2, sign_message (length message) x.1 path).
End interpreter.

(** ** What the interpreter knows *)

#[local] Set Default Proof Using "Type*".

Section invariant.
Context {H : Hashes} {V : BtcVarInt}.

(** Preimages are filed under their hashes, trees are trees of hashes whose preimages are known. *)
Record interpreter_ok (s : ClientCommandInterpreter) : Prop := mkInterpreterOk
  { io_preimages : Forall (fun x => x.1 = sha256 x.2) (known_preimages s);
    io_trees : Forall tree_ok (trees s);
    io_leaves : Forall (fun t => Forall (fun h => exists p, (h, p) ∈ known_preimages s) (mt_leaves t)) (trees s) }.

Lemma set_queue_ok s q : interpreter_ok s -> interpreter_ok (set_queue s q).
Proof. intros [? ? ?]. by split. Qed.

(** More preimages do no harm. *)
Lemma known_more (ks ls : list (bytes * bytes)) (ts : list MerkleTree) :
  Forall (fun t => Forall (fun h => exists p, (h, p) ∈ ks) (mt_leaves t)) ts ->
  Forall (fun t => Forall (fun h => exists p, (h, p) ∈ ks ++ ls) (mt_leaves t)) ts.
Proof.
  intros Ht. eapply Forall_impl; [exact Ht|]. intros t Hl. eapply Forall_impl; [exact Hl|].
  intros h [p Hp]. exists p. apply elem_of_app. by left.
Qed.

Lemma add_known_preimage_ok e s : interpreter_ok s -> interpreter_ok (add_known_preimage e s).
Proof.
  intros [Hp Ht Hl]. split; cbn; [apply Forall_app; split; [done|constructor; [done|constructor]]|done|by apply known_more].
Qed.

Lemma add_known_list_ok es s r s' :
  add_known_list es s = Some (r, s') -> interpreter_ok s ->
  interpreter_ok s' /\ r = merkle_root (map leaf_hash es) /\
  exists t, trees s' = trees s ++ [t] /\ mt_leaves t = map leaf_hash es.
Proof.
  unfold add_known_list. intros Ha [Hp Ht Hl]. destruct (MerkleTree_new _) as [t|] eqn:Et; [|done].
  apply MerkleTree_new_ok in Et as [Hok Hm]. cbn [mbind option_bind] in Ha. rewrite (root_hash_ok _ Hok) in Ha.
  cbn [mbind option_bind] in Ha. injection Ha as <- <-. split; [|split; [by rewrite Hm|by exists t]].
  split; cbn [known_preimages trees].
  - apply Forall_app. split; [done|]. apply Forall_map, Forall_true. done.
  - apply Forall_app. split; [done|]. constructor; [done|constructor].
  - apply Forall_app. split; [by apply known_more|]. constructor; [|constructor]. rewrite Hm. apply Forall_map, Forall_forall.
    intros e He. exists (leaf_preimage e). apply elem_of_app. right. by apply (list_elem_of_fmap_2 (fun e => (leaf_hash e, leaf_preimage e))).
Qed.

Lemma add_known_mapping_ok m s s' : add_known_mapping m s = Some s' -> interpreter_ok s -> interpreter_ok s'.
Proof.
  unfold add_known_mapping. destruct (add_known_list (map fst (sorted_mapping m)) s) as [[r1 s1]|] eqn:E1; [|done]. cbn [mbind option_bind snd].
  destruct (add_known_list _ s1) as [[r2 s2]|] eqn:E2; [|done]. cbn [mbind option_bind snd]. intros [= <-] Hs.
  apply add_known_list_ok in E1 as [H1 _]; [|done]. by apply add_known_list_ok in E2 as [H2 _].
Qed.

Lemma execute_knows c s : known_preimages (execute c s).2 = known_preimages s /\ trees (execute c s).2 = trees s.
Proof.
  destruct c as [|c r]; [done|]. unfold execute. destruct (client_try_from (b2z c)) as [[]|]; [done| | |done| |done].
  - unfold get_preimage_command. destruct (_ || _); [done|]. destruct (find_preimage _ _) as [[]|]; [|done].
    cbn zeta. repeat case_match; done.
  - unfold get_merkle_leaf_proof. destruct (negb _); [done|]. destruct (_ <? _)%nat; [done|]. destruct (parse_size_index _) as [[]|]; [|done].
    destruct (find_tree _ _); [|done]. destruct (_ || _); [done|]. repeat case_match; done.
  - unfold get_more_elements. destruct (queue s); [done|]. destruct (existsb _ _); [done|]. by destruct (collect _ _ _ _).
Qed.

(** What a client does with an interpreter, in whatever order. *)
Inductive client_step : ClientCommandInterpreter -> ClientCommandInterpreter -> Prop :=
| step_preimage e s : client_step s (add_known_preimage e s)
| step_list es s r s' : add_known_list es s = Some (r, s') -> client_step s s'
| step_mapping m s s' : add_known_mapping m s = Some s' -> client_step s s'
| step_execute c s : client_step s (execute c s).2.

Lemma client_step_ok s s' : client_step s s' -> interpreter_ok s -> interpreter_ok s'.
Proof.
  intros Hs Hok. destruct Hs as [e s|es s r s' Ha|m s s' Ha|c s].
  - by apply add_known_preimage_ok.
  - by apply add_known_list_ok in Ha as [? _].
  - by apply add_known_mapping_ok in Ha.
  - destruct (execute_knows c s) as [E1 E2], Hok as [Hp Ht Hl]. split; by rewrite ?E1, ?E2.
Qed.

Lemma reachable_ok s : rtc client_step interpreter_new s -> interpreter_ok s.
Proof.
  assert (Hi : forall x, rtc client_step x s -> interpreter_ok x -> interpreter_ok s); [|intros Hr; apply Hi in Hr; [done|by split]].
  induction 1 as [|x y z Hxy _ IH]; [done|]. intros Hx. by apply IH, (client_step_ok x).
Qed.

(** ** Long answers *)

Lemma collect_full e q acc n : (253 < length acc + e)%nat -> collect e q acc n = (acc, n).
Proof. intros He. induction q as [|x q IH]; [done|]. cbn [collect]. by rewrite (proj2 (Nat.leb_gt _ _) He). Qed.

Lemma collect_uniform e q acc n :
  Forall (fun x => length x = e) q -> (length acc <= 253)%nat ->
  exists m, collect e q acc n = (acc ++ concat (take m q), (n + m)%nat) /\ (m <= length q)%nat /\
    (length (acc ++ concat (take m q)) <= 253)%nat /\ ((length acc + e <= 253)%nat -> q <> [] -> (0 < m)%nat).
Proof.
  intros Hq. revert acc n. induction Hq as [|x q Hx Hq IH]; intros acc n Ha.
  { exists 0%nat. cbn. rewrite app_nil_r, Nat.add_0_r. by split_and!. }
  cbn [collect]. destruct (Nat.leb_spec (length acc + e) 253) as [Hle|Hgt].
  - destruct (IH (acc ++ x) (n + 1)%nat) as (m & -> & Hm & Hl & _); [rewrite length_app; lia|].
    exists (Datatypes.S m). cbn [take concat]. rewrite <-app_assoc in Hl |- *. split_and!; [f_equal; lia|cbn; lia|done|lia].
  - rewrite collect_full by done. exists 0%nat. cbn. rewrite app_nil_r, Nat.add_0_r. split_and!; [done|lia|done|lia].
Qed.

Lemma uniform_existsb e (q : list bytes) : Forall (fun x => length x = e) q -> existsb (fun x => negb (length x =? e)%nat) q = false.
Proof. induction 1 as [|x q Hx _ IH]; [done|]. cbn. by rewrite Hx, Nat.eqb_refl, IH. Qed.

Lemma length_uniform e (q : list bytes) : Forall (fun x => length x = e) q -> length (concat q) = (e * length q)%nat.
Proof. induction 1 as [|x q Hx _ IH]; [cbn; lia|]. cbn [concat length]. rewrite length_app, Hx, IH. lia. Qed.

Lemma get_more_ok e s :
  (e <= 253)%nat -> queue s <> [] -> Forall (fun x => length x = e) (queue s) ->
  exists m, (0 < m <= length (queue s))%nat /\
    get_more_elements s = (Ok ([z2b (Z.of_nat m); z2b (Z.of_nat e)] ++ concat (take m (queue s))), set_queue s (drop m (queue s))) /\
    (length (concat (take m (queue s))) <= 253)%nat.
Proof.
  intros He Hn Hq. destruct (collect_uniform e (queue s) [] 0 Hq ltac:(cbn; lia)) as (m & Hc & Hm & Hl & Hpos).
  exists m. specialize (Hpos He Hn). split; [lia|]. split; [|done]. unfold get_more_elements.
  destruct (queue s) as [|x q] eqn:Eq; [done|]. pose proof (Forall_inv Hq) as Hx. cbn beta in Hx. rewrite Hx, uniform_existsb by done.
  by rewrite Hc.
Qed.

(** A device that asks for more elements until there are none: what it gets, without the two
    bytes before the elements. *)
Fixpoint drain (fuel : nat) (s : ClientCommandInterpreter) : option (bytes * ClientCommandInterpreter) :=
  match queue s, fuel with
  | [], _ => Some ([], s)
  | _, O => None
  | _, Datatypes.S fuel =>
      match execute [z2b (client_u8 GetMoreElements)] s with
      | (Ok r, s) => x ← drain fuel s; Some (drop 2 r ++ x.1, x.2)
      | (Err _, _) => None
      end
  end.

Lemma drain_ok e fuel s :
  (e <= 253)%nat -> Forall (fun x => length x = e) (queue s) -> (length (queue s) <= fuel)%nat ->
  drain fuel s = Some (concat (queue s), set_queue s []).
Proof.
  intros He. revert s. induction fuel as [|fuel IH]; intros s Hq Hf.
  { destruct s as [y [|x q] k t]; [done|cbn in Hf; lia]. }
  destruct (decide (queue s = [])) as [E|Hn]; [destruct s as [y q k t]; cbn in E; by subst q|].
  destruct (get_more_ok e s He Hn Hq) as (m & Hm & Hg & _).
  assert (Hx : execute [z2b (client_u8 GetMoreElements)] s = get_more_elements s) by done.
  assert (Hd : drain (Datatypes.S fuel) s =
    match execute [z2b (client_u8 GetMoreElements)] s with
    | (Ok r, s) => x ← drain fuel s; Some (drop 2 r ++ x.1, x.2)
    | (Err _, _) => None
    end) by (cbn [drain]; by destruct (queue s)).
  rewrite Hd, Hx, Hg, IH; [|by apply Forall_drop|cbn; rewrite length_drop; lia]. cbn [mbind option_bind set_queue queue fst snd].
  f_equal. f_equal. cbn [app drop]. by rewrite drop_0, <-concat_app, take_drop.
Qed.

(** ** The answers *)

Lemma find_preimage_known h p l : (h, p) ∈ l -> exists p', find_preimage h l = Some (h, p') /\ (h, p') ∈ l.
Proof.
  intros Hin. unfold find_preimage. destruct (List.find _ l) as [[h' p']|] eqn:Ef.
  - apply List.find_some in Ef as [Hf Hb]. apply bool_decide_eq_true in Hb. cbn [fst] in Hb. subst h'. exists p'.
    split; [done|]. by apply list_elem_of_In.
  - apply list_elem_of_In in Hin. pose proof (List.find_none _ _ Ef _ Hin) as Hb. by apply bool_decide_eq_false in Hb.
Qed.

Lemma find_tree_known r l t : find_tree r l = Some t -> t ∈ l /\ root_hash t = Some r.
Proof. intros [Hin Hb]%List.find_some. apply bool_decide_eq_true in Hb. split; [by apply list_elem_of_In|done]. Qed.

Lemma set_queue_id s q : queue s = [] -> set_queue (set_queue s q) [] = s.
Proof. destruct s as [y q' k t]. cbn. by intros ->. Qed.

Lemma concat_singletons (l : bytes) : concat (map (fun b => [b]) l) = l.
Proof. induction l as [|x l IH]; [done|]. cbn. by rewrite IH. Qed.

(** A preimage in parts: the first with its length, the others one byte each. *)
Lemma preimage_served s h p :
  interpreter_ok s -> queue s = [] -> (h, p) ∈ known_preimages s ->
  Forall (fun x => is_u64 (zlen x.2)) (known_preimages s) -> length h = 32%nat ->
  exists q k s1, (k <= length q)%nat /\ sha256 q = h /\
    execute (z2b (client_u8 GetPreimage) :: Byte.x00 :: h) s = (Ok (varint_ser (zlen q) ++ [z2b (Z.of_nat k)] ++ take k q), s1) /\
    (length (varint_ser (zlen q) ++ [z2b (Z.of_nat k)] ++ take k q) <= 255)%nat /\ drain (length q) s1 = Some (drop k q, s).
Proof.
  intros Hok Hq Hin Hwf Hlen. destruct (find_preimage_known _ _ _ Hin) as (q & Hf & Hqin). clear Hin p.
  pose proof (io_preimages _ Hok) as Hp. rewrite Forall_forall in Hp. pose proof (Hp _ Hqin) as Hh. cbn [fst snd] in Hh.
  rewrite Forall_forall in Hwf. pose proof (varint_length _ (Hwf _ Hqin)) as Hv. cbn [snd] in Hv.
  set (m := (255 - length (varint_ser (zlen q)) - 1)%nat).
  set (k := if (m <? length q)%nat then m else length q).
  assert (Hk : (k <= length q)%nat /\ (k <= m)%nat) by (unfold k; destruct (Nat.ltb_spec m (length q)); lia).
  assert (He : execute (z2b (client_u8 GetPreimage) :: Byte.x00 :: h) s = get_preimage_command (Byte.x00 :: h) s) by reflexivity.
  rewrite He. unfold get_preimage_command. cbn [length head drop]. rewrite drop_0, Hlen. cbn [Nat.eqb negb].
  rewrite bool_decide_eq_true_2 by done. cbn [orb negb]. rewrite Hf. cbn zeta. fold m. fold k.
  eexists q, k, _. split_and!; [lia|done|done| |].
  - rewrite !length_app, length_take. cbn. unfold m in *. lia.
  - destruct (Nat.ltb_spec k (length q)).
    + rewrite Hq. cbn [app]. rewrite (drain_ok 1); [|lia|cbn; apply Forall_map, Forall_true; done|cbn; rewrite length_map, length_drop; lia].
      cbn [queue set_queue]. rewrite concat_singletons. f_equal. f_equal. by apply (set_queue_id s []).
    + assert (k = length q) as -> by lia. rewrite drop_all. rewrite (drain_ok 1); [|lia|by rewrite Hq|rewrite Hq; cbn; lia].
      rewrite Hq. cbn. f_equal. f_equal. destruct s as [y q' kk t]. cbn in *. by subst q'.
Qed.

Lemma leaves_lengths s t : interpreter_ok s -> t ∈ trees s -> Forall (fun x => length x = 32%nat) (mt_leaves t).
Proof.
  intros [Hp _ Hl] Ht. rewrite Forall_forall in Hl. eapply Forall_impl; [exact (Hl t Ht)|]. intros h [p Hin].
  rewrite Forall_forall in Hp. rewrite (Hp _ Hin : h = sha256 p). apply sha256_length.
Qed.

Lemma parse_size_index_round n i : is_u64 n -> is_u64 i -> parse_size_index (varint_ser n ++ varint_ser i) = Some (n, i).
Proof.
  intros Hn Hi. unfold parse_size_index. rewrite varint_round by done. cbn [mbind option_bind]. rewrite drop_app_length.
  pose proof (varint_round i [] Hi) as Hr. rewrite app_nil_r in Hr. rewrite Hr. cbn [mbind option_bind]. by rewrite Nat.eqb_refl.
Qed.

(** A proof in parts: the first six hashes with the leaf, the others after it. *)
Lemma proof_served s r t i :
  interpreter_ok s -> queue s = [] -> find_tree r (trees s) = Some t -> is_u64 (Z.of_nat (mt_size t)) -> (i < mt_size t)%nat ->
  exists leaf proof s1, mt_leaves t !! i = Some leaf /\ proof_root (mt_size t) i leaf proof = Some r /\
    Forall (fun x => length x = 32%nat) (leaf :: proof) /\
    execute (z2b (client_u8 GetMerkleLeafProof) :: r ++ varint_ser (Z.of_nat (mt_size t)) ++ varint_ser (Z.of_nat i)) s =
      (Ok (leaf ++ [z2b (zlen proof); z2b (zlen (take 6 proof))] ++ concat (take 6 proof)), s1) /\
    drain (length proof) s1 = Some (concat (drop 6 proof), s).
Proof.
  intros Hok Hq Hf Hn Hi. destruct (find_tree_known _ _ _ Hf) as [Hin Hr].
  pose proof (leaves_lengths _ _ Hok Hin) as Hlens. pose proof (io_trees _ Hok) as Ht. rewrite Forall_forall in Ht. specialize (Ht t Hin).
  assert (Hrl : length r = 32%nat).
  { rewrite (root_hash_ok _ Ht) in Hr. injection Hr as <-. apply merkle_root_length; [done|apply Ht]. }
  rewrite (root_hash_ok _ Ht) in Hr. destruct (get_leaf_proof_ok t i Ht Hi) as (proof & leaf & Hgp & Hgl & Hpr).
  assert (Hps : Forall (fun x => length x = 32%nat) proof).
  { unfold get_leaf_proof in Hgp. destruct (_ <=? _)%nat; [done|]. apply fmap_Some in Hgp as (pr & Hgp & [= ->]).
    by eapply get_proof_lengths; [|apply Ht|]. }
  assert (Hx : length leaf = 32%nat) by (rewrite Forall_lookup in Hlens; by eapply Hlens).
  assert (Hiu : is_u64 (Z.of_nat i)) by lia.
  exists leaf, proof, (set_queue s (drop 6 proof)). split_and!; [done|congruence|by constructor| |].
  - set (req := r ++ _). assert (He : execute (z2b (client_u8 GetMerkleLeafProof) :: req) s = get_merkle_leaf_proof req s) by reflexivity.
    rewrite He. unfold get_merkle_leaf_proof. rewrite Hq. cbn [length Nat.eqb negb].
    assert (Hreq : length req = (32 + (length (varint_ser (Z.of_nat (mt_size t))) + length (varint_ser (Z.of_nat i))))%nat)
      by (unfold req; rewrite !length_app; lia).
    pose proof (varint_length _ Hn). pose proof (varint_length _ Hiu). rewrite (proj2 (Nat.ltb_ge (length req) 34)) by lia.
    assert (Hd : drop 32 req = varint_ser (Z.of_nat (mt_size t)) ++ varint_ser (Z.of_nat i)) by (unfold req; by rewrite drop_app_length').
    assert (Htk : take 32 req = r) by (unfold req; by rewrite take_app_length').
    rewrite Hd, Htk, parse_size_index_round, Hf by done. rewrite (proj2 (Z.leb_gt _ _)) by lia. rewrite Z.eqb_refl. cbn [orb negb].
    rewrite Nat2Z.id, Hgp, Hgl. done.
  - rewrite (drain_ok 32); [cbn [queue set_queue]; by rewrite set_queue_id|lia|cbn; by apply Forall_drop|cbn; rewrite length_drop; lia].
Qed.

End invariant.

(** ** Signing a message *)

Lemma chunks_concat fuel n l : (0 < n)%nat -> (length l <= fuel)%nat -> concat (chunks fuel n l) = l.
Proof.
  intros Hn. revert l. induction fuel as [|fuel IH]; intros l Hl; [by destruct l; [|cbn in Hl; lia]|].
  destruct l as [|x l]; [done|]. change (chunks (Datatypes.S fuel) n (x :: l)) with (take n (x :: l) :: chunks fuel n (drop n (x :: l))).
  cbn [concat]. rewrite IH; [apply take_drop|]. rewrite length_drop. cbn in *. lia.
Qed.

(** A message that is not empty is filed in chunks of at most 64 bytes, and the command carries
    the root of the list of chunks; for an empty message the client panics, because there is no
    tree without leaves. *)
Theorem sign_message_prepared {H : Hashes} {V : BtcVarInt} (message : bytes) (path : list Z) :
  (message = [] -> prepare_sign_message message path = None) /\
  (message <> [] -> exists cs s, concat cs = message /\
     prepare_sign_message message path = Some (s, sign_message (length message) (merkle_root (map leaf_hash cs)) path) /\
     interpreter_ok s /\ queue s = [] /\ exists t, trees s = [t] /\ mt_leaves t = map leaf_hash cs).
Proof.
  split; [by intros ->|]. intros Hn. exists (chunks (length message) 64 message).
  assert (Hc : concat (chunks (length message) 64 message) = message) by (apply chunks_concat; lia).
  unfold prepare_sign_message. set (cs := chunks _ _ _) in *. clearbody cs.
  assert (Hcs : map leaf_hash cs <> []) by (destruct cs; [by rewrite <-Hc in Hn|done]).
  destruct (MerkleTree_new_some _ Hcs) as [t Ht]. destruct (MerkleTree_new_ok _ _ Ht) as [Hok Hl].
  assert (Ha : exists s, add_known_list cs interpreter_new = Some (merkle_root (map leaf_hash cs), s) /\ queue s = []).
  { unfold add_known_list. rewrite Ht. cbn [mbind option_bind]. rewrite (root_hash_ok _ Hok), Hl. cbn [mbind option_bind]. by eexists. }
  destruct Ha as (s & Ha & Hq). exists s. rewrite Ha. cbn [mbind option_bind fst snd].
  apply add_known_list_ok in Ha as (Hs & _ & t' & Ht' & Hl'); [|by split]. split_and!; try done. by exists t'.
Qed.

(** ** A queue with elements of two lengths *)

(** A preimage is sent even when hashes of a proof are still waiting (a proof is refused then):
    if the preimage is long its bytes join the queue, and no request for more is ever answered. *)
Theorem preimage_blocks_queue {H : Hashes} {V : BtcVarInt} s h p x q :
  queue s = x :: q -> length x <> 1%nat -> find_preimage h (known_preimages s) = Some (h, p) -> length h = 32%nat ->
  (254 < length p)%nat -> (1 <= length (varint_ser (zlen p)) <= 9)%nat ->
  let s' := (execute (z2b (client_u8 GetPreimage) :: Byte.x00 :: h) s).2 in
  is_ok (execute (z2b (client_u8 GetPreimage) :: Byte.x00 :: h) s).1 = true /\
  execute [z2b (client_u8 GetMoreElements)] s' = (Err UnexpectedQueue, s').
Proof.
  intros Hq Hx Hf Hlen Hp Hv.
  assert (He : execute (z2b (client_u8 GetPreimage) :: Byte.x00 :: h) s = get_preimage_command (Byte.x00 :: h) s) by reflexivity.
  rewrite He. unfold get_preimage_command. cbn [length head drop]. rewrite drop_0, Hlen. cbn [Nat.eqb negb].
  rewrite bool_decide_eq_true_2 by done. cbn [orb negb]. rewrite Hf. cbn zeta.
  set (m := (255 - length (varint_ser (zlen p)) - 1)%nat). assert (Hm : (m < length p)%nat) by lia.
  rewrite (proj2 (Nat.ltb_lt m (length p)) Hm). rewrite (proj2 (Nat.ltb_lt m (length p)) Hm). cbn [fst snd is_ok]. split; [done|].
  set (s' := set_queue s _). assert (Hx' : execute [z2b (client_u8 GetMoreElements)] s' = get_more_elements s') by reflexivity.
  rewrite Hx'. unfold get_more_elements. cbn [queue set_queue s']. rewrite Hq. cbn [app].
  assert (existsb (fun e => negb (length e =? length x)%nat) (x :: q ++ map (fun b => [b]) (drop m p)) = true) as ->; [|done].
  apply existsb_exists. destruct (drop m p) as [|b l] eqn:Ed.
  { pose proof (f_equal length Ed) as El. rewrite length_drop in El. cbn in El. lia. }
  exists [b]. split; [apply list_elem_of_In, elem_of_cons; right; apply elem_of_app; right; cbn; apply elem_of_cons; by left|].
  rewrite (proj2 (Nat.eqb_neq _ _)); [done|]. cbn. lia.
Qed.

(** ** A concrete interpreter *)

Module LedgerSample.
Export SighashSample.

Definition varint_model (bs : bytes) : option (Z * nat) :=
  match read_varint bs with Ok (v, rest) => Some (v, (length bs - length rest)%nat) | Err _ => None end.
#[export] Program Instance BtcVarInt_model : BtcVarInt := {| varint_ser := emit_varint; varint_de := varint_model |}.
Next Obligation.
  intros v rest Hv. unfold varint_model. rewrite (codec_decode varint_codec v rest Hv). f_equal. f_equal. rewrite length_app. lia.
Qed.
Next Obligation.
  intros v Hv. pose proof (varint_size_correct v Hv) as Hs. unfold varint_size in Hs. repeat case_match; lia.
Qed.
Next Obligation.
  intros bs v n. unfold varint_model. destruct (read_varint bs) as [[v' rest]|] eqn:Er; [|done]. intros [= <- <-].
  apply (codec_canonical varint_codec) in Er as [Hv ->]. split; [done|lia].
Qed.

(** A list of 300 elements, one of them long, whose proofs have more than six hashes. *)
Definition elements : list bytes := imap (fun i b => replicate (if (i =? 7)%nat then 400 else 3) b ++ le_bytes 2 (Z.of_nat i)) (replicate 300 Byte.x2a).
Definition filled : option (bytes * ClientCommandInterpreter) := add_known_list elements interpreter_new.
Definition filled_root : bytes := match filled with Some x => x.1 | None => [] end.
Definition filled_state : ClientCommandInterpreter := match filled with Some x => x.2 | None => interpreter_new end.
Definition filled_tree : MerkleTree := match trees filled_state with t :: _ => t | [] => mkMerkleTree (Leaf 0) [] end.

Lemma filled_ok : add_known_list elements interpreter_new = Some (filled_root, filled_state).
Proof.
  assert (Hs : bool_decide (is_Some filled) = true) by (vm_compute; reflexivity). apply bool_decide_eq_true in Hs as [[r s] Hs].
  unfold filled_root, filled_state. fold filled. rewrite Hs. reflexivity.
Qed.
Lemma filled_find : find_tree filled_root (trees filled_state) = Some filled_tree.
Proof.
  destruct (add_known_list_ok _ _ _ _ filled_ok) as (Hok & Hr & t & Ht & Hl); [by split|]. unfold filled_tree. rewrite Ht.
  cbn [app interpreter_new trees]. unfold find_tree. cbn [List.find].
  assert (root_hash t = Some filled_root) as Hrt.
  { rewrite root_hash_ok, Hl, Hr; [done|]. pose proof (io_trees _ Hok) as Hts. rewrite Ht in Hts. by apply Forall_inv in Hts. }
  by rewrite bool_decide_eq_true_2.
Qed.
End LedgerSample.
Import LedgerSample.

